(* ===== verification/_CoqProject ===== *)
-Q . S2P
Prelude.v
Crypto.v
Isa.v
Cpu.v
Memory.v
Vm.v
VmStep.v
VmInv.v
VmSafe.v
VmCalls.v
VmExec.v
VmTerm.v
VmProps.v
VmFun.v
VmFindings.v
Wire.v
Keys.v
Nonce.v
Account.v
Economics.v
Airdrop.v
Multisig.v
State.v
StateManager.v
Transaction.v
Scheduler.v
SchedulerProps.v
Validation.v
Execution.v
Store.v
Handlers.v
HandlerProps.v
GovernanceProps.v
Pipeline.v
PipelineProps.v
Footprint.v
PipelineFindings.v
Chain.v
ViewChange.v
HotStuff.v
Accountability.v
Finality.v
Validators.v
Randomness.v
Codec.v
NodeWire.v
NodeWireProps.v
Encrypted.v
Mempool.v
MempoolProps.v
BlockCheck.v
BlockExec.v
BlockProps.v
Goldilocks.v
Threshold.v
ThresholdProps.v
ThresholdFindings.v
BlockStore.v
Decryption.v
DecryptionProps.v
BlockBuilder.v
BlockBuilderProps.v
Commit.v
Reshare.v
ReshareProps.v
Dkg.v
DkgProps.v
