(* ===== verification/Prelude.v ===== *)
(** * Pyde: a verification development

    Pyde is a blockchain node written in Rust: a HotStuff-style consensus with a
    rotating committee, an encrypted mempool whose transactions the committee
    decrypts after their order is fixed, an account and fee system, and a
    register-based virtual machine for contracts.  This library translates the
    parts of it that compute (paths below are under [src/crates/]) into Rocq
    functions and proves what makes them correct.

    ** How the program's parts interact

    A client signs a transaction ([tx/src/types.rs]), possibly encrypts it under
    the committee's threshold key ([mempool/src/encrypted.rs],
    [crypto/src/threshold.rs]), and sends it to a node.  Plaintext transactions
    wait in the pending pool, encrypted ones in the mempool.  The leader of a view
    builds a block from both; validators check it ([node/src/block_processor.rs]),
    vote on it and form certificates ([consensus/src/]).  The certified block
    becomes the head of the chain ([node/src/canonical_commit.rs]): its
    transactions run through the pipeline ([tx/src/pipeline.rs]), contracts on the
    virtual machine ([pvm/src/]), over the node's state manager
    ([node/src/state_manager.rs]).  Then the members exchange decryption shares,
    and the encrypted transactions are decrypted and executed.  At epoch boundaries
    the committee, its randomness and its key shares are renewed.

    ** How the code is modelled

    A [w]-bit integer is a [Z], with release-mode wrap-around written out ([wrap],
    [checked_add] and the like); bytes are [list Z]; a [HashMap] is a [gmap], and
    where its iteration order shows, the order is a parameter; structs are records
    and enums are inductive types with the source's names.  A method
    [fn f(&mut self) -> Result<A, E>] is an [ST], which keeps the writes made before
    a failure.  A function that can panic (an index out of bounds, [unwrap]) or
    whose loop has no structural bound returns a [Run], so that panics and missing
    fuel are values which a theorem has to exclude.  Functions keep the source's
    names; a type's [new], [from_bytes] and so on carry the type's name or a short
    prefix.  Definitions are executable, and witnesses evaluate them.

    Code outside the repository is a parameter: the Poseidon2 sponge and FALCON
    verification (class [Primitives], what is relied on in [PrimitivesOk]), ML-KEM
    ([Kem], [KemOk]), the state tree (class [StateAccess], with [StateAccessOk] and [StateBatchOk]), the
    order of hash-map iteration, the text of [{:?}], clocks, random bytes, and
    signing keys ([Signer]).  [toy_primitives] and [toy_kem] instantiate them for
    evaluation.

    ** Files

    - [Prelude]: results, the state-and-error monad, [Run], fixed-width integers,
      little-endian bytes, stable sorting, and the hint databases and tactics of
      the library.  [Wire]: fields of byte strings.  [Crypto]:
      [crypto/src/{hash,poseidon2,falcon}.rs].
    - The virtual machine.  [Isa] [pvm/src/isa.rs]; [Cpu] [cpu.rs] and [wide.rs];
      [Memory] [memory.rs]; [Vm] and [VmStep] [vm.rs].  [VmInv], [VmSafe],
      [VmCalls], [VmExec] and [VmTerm] carry the invariants through instructions,
      calls and executions; [VmProps], [VmFun] and [VmFindings] state the results.
    - Accounts and records.  [Keys] [state/src/keys.rs]; [Nonce] and [Account]
      [account/src/]; [Economics] the fee, reward, vesting and gas tank rules of
      [tx/src/]; [Airdrop] and [Multisig] their namesakes of [tx/src/].
    - State.  [State] the interface and overlay of [state/src/smt.rs];
      [StateManager] [node/src/state_manager.rs]; [BlockStore]
      [node/src/block_store.rs].
    - Transactions.  [Transaction], [Scheduler], [Validation], [Execution] are
      [types.rs], [parallel.rs], [validation.rs] and [execution.rs] of [tx/src/];
      [Store], [Handlers] and [Pipeline] are [pipeline.rs] and
      [slashing/src/lib.rs].  [SchedulerProps], [HandlerProps], [GovernanceProps],
      [PipelineProps], [Footprint] and [PipelineFindings] are about them.
    - Consensus.  [Chain] [consensus/src/block.rs] and [node/src/chain.rs];
      [ViewChange] [view_change.rs], [proposer.rs] and [crypto/src/vrf.rs];
      [HotStuff], [Finality], [Validators] and [Randomness] [hotstuff.rs],
      [finality.rs], [validator.rs] with [slashing.rs], and [epoch_randomness.rs];
      [Accountability] composes votes, certificates and slashing.
    - Formats.  [Codec], [NodeWire] and [NodeWireProps]: [node/src/wire.rs].
    - Blocks.  [BlockBuilder] (with [BlockBuilderProps]) both block builders and
      the pending pool; [BlockCheck], [BlockExec] and [BlockProps]
      [node/src/block_processor.rs]; [Commit] [node/src/canonical_commit.rs].
    - Encryption.  [Encrypted] [mempool/src/{encrypted,ordering,inclusion}.rs];
      [Mempool], [MempoolProps] [mempool/src/pool.rs]; [Goldilocks], [Threshold],
      [ThresholdProps], [ThresholdFindings] [crypto/src/threshold.rs] and
      [kyber.rs]; [Decryption], [DecryptionProps] [mempool/src/decryption.rs] and
      the handlers of [node/src/node.rs] that start, feed, retry and prune it;
      [Reshare], [ReshareProps] the refresh and handoff of key shares in
      [node/src/validator.rs] and [node.rs]; [Dkg], [DkgProps]
      [crypto/src/dkg.rs].

    ** What the theorems show

    - Machine: every execution ends; it conserves value, keeps the machine
      well-formed, respects the gas limit, is read-only in static mode, and undoes
      balances, logs and context when it fails.  The paged memory refines a flat
      array.
    - Pipeline: validation accepts exactly the transactions it should; a
      transaction that runs no code changes only its footprint and executes at most
      once; a transfer moves what it says; special transactions succeed exactly
      when they should.  The scheduler computes connected components.
    - State: reads return the last write however deferred commits interleave, and
      the tree ends up with the same where no commit overtakes an older write; a
      processed block can be reverted, decrypted transactions included; the block
      store refines five maps.
    - Consensus: voting never goes back and never equivocates; certificates form
      exactly from quorums and verify; conflicting certificates convict a third of
      the committee; hard finality is permanent; a header passes exactly when its
      leader, signature, parent and certificate are right; committing what a
      certificate names makes it the head, or says why not and what was undone.
    - Mempool and builders: the pools keep their invariants, and the selections end,
      fit, and are fair or maximal.
    - Encryption: whoever holds the key after refreshes and transfers, a threshold
      of members decrypts; the decrypted block is what users encrypted, and of it
      only signed transactions execute; equal pools refresh together; distributed key generation yields a shared key and its commitments
      bind.
    - Formats: what is encoded is decoded to itself.
    - The files [..Findings], and theorems that begin with "Finding", prove
      behaviours which the code's comments rule out.

    ** Fuel and bounds

    The interpreter runs with fuel, and [VmTerm] proves that a bound computed from
    the gas and the call depth is enough, so that termination does not rest on it.
    The rounds of [select_for_block], [build_tx_list] and [select_and_order] are
    bounded by one more than the number of transactions, since each round but the
    last takes one ([selection_fair], [build_exact] and [built_block_is_a_choice]
    include that they end).  Rejection sampling has 16 attempts where the source
    has no bound, and the first always returns ([sample_returns]); the budgets of 64
    are the source's own.  Keystreams are given as many rounds as bytes
    ([derive_keystream_length], [dkg_keystream_length]), and Merkle levels as many
    as leaves ([climb_node]).  Theorems about blocks that execute contracts hold
    for every fuel with which the execution returns; [execution_terminates] has the
    fuel with which the machine does.

    ** Not modelled, and why

    - The PVM assembler: a text tool for tests; the codec it targets is modelled.
    - Native code: the ahead-of-time compiler, its cache, and the pipeline's path
      that runs its output.
    - The Otigen compiler: a development of its own, whose output the modelled
      machine loads and runs.
    - Storage back ends, snapshots and state witnesses: RocksDB, the [jmt] crate
      and compression are third-party; the node relies on the interface of
      [StateAccess].
    - Networking, RPC, synchronisation, metrics, configuration, and the event loop
      of [node.rs]: threads, timers and I/O.  The handlers in it that change
      modelled state are modelled.
    - Key generation and signing of FALCON, zeroising of secrets, log texts, and
      the development tools, SDK and bindings. *)

From stdpp Require Import base numbers list gmap option sorting.
From Stdlib Require Import ZArith Lia.

#[global] Open Scope Z_scope.

#[global] Arguments Z.to_nat _ : simpl never.
#[global] Arguments Z.of_nat _ : simpl never.

(** ** Results: Rust's [Result<T, E>] *)

Inductive Result (A E : Type) : Type :=
| Ok (a : A)
| Err (e : E).
Arguments Ok {A E} a.
Arguments Err {A E} e.

Definition map_err {A E F : Type} (f : E -> F) (r : Result A E) : Result A F :=
  match r with
  | Ok a => Ok a
  | Err e => Err (f e)
  end.

Definition ok_or {A E : Type} (o : option A) (e : E) : Result A E :=
  match o with
  | Some a => Ok a
  | None => Err e
  end.

Definition is_ok {A E : Type} (r : Result A E) : bool :=
  match r with
  | Ok _ => true
  | Err _ => false
  end.

Definition is_some {A : Type} (o : option A) : bool :=
  match o with
  | Some _ => true
  | None => false
  end.

(** ** A state-and-error monad

    A Rust method [fn f(&mut self) -> Result<A, E>] that fails half-way keeps
    the writes it made before the failure, so the state is returned next to
    the result and not inside it. *)

Definition ST (S E A : Type) : Type := S -> S * Result A E.

Section StateMonad.
Context {S E : Type}.

Definition ret {A : Type} (a : A) : ST S E A := fun s => (s, Ok a).

Definition throw {A : Type} (e : E) : ST S E A := fun s => (s, Err e).

Definition bind {A B : Type} (m : ST S E A) (k : A -> ST S E B) : ST S E B :=
  fun s =>
    match m s with
    | (s', Ok a) => k a s'
    | (s', Err e) => (s', Err e)
    end.

Definition get : ST S E S := fun s => (s, Ok s).

Definition gets {A : Type} (f : S -> A) : ST S E A := fun s => (s, Ok (f s)).

Definition modify (f : S -> S) : ST S E unit := fun s => (f s, Ok tt).

Definition lift_result {A : Type} (r : Result A E) : ST S E A := fun s => (s, r).

(** Runs [f] on each element, in order, collecting the values. *)
Fixpoint traverse {A B : Type} (f : A -> ST S E B) (l : list A) : ST S E (list B) :=
  match l with
  | [] => ret []
  | a :: l' => bind (f a) (fun b => bind (traverse f l') (fun bs => ret (b :: bs)))
  end.

(** Turns the failure of a computation into a value. *)
Definition catch {A : Type} (m : ST S E A) : ST S E (Result A E) := fun s =>
  let (s', r) := m s in (s', Ok r).

Definition when (b : bool) (m : ST S E unit) : ST S E unit :=
  if b then m else ret tt.
End StateMonad.

Declare Scope pyde_scope.
Delimit Scope pyde_scope with pyde.

Notation "x <-- m ;; k" := (bind m (fun x => k))
  (at level 100, m at next level, right associativity) : pyde_scope.
Notation "m ;;; k" := (bind m (fun _ => k))
  (at level 100, right associativity) : pyde_scope.

(** [r?; k] on plain results. *)
Definition and_then {A B E : Type} (r : Result A E) (k : A -> Result B E) : Result B E :=
  match r with
  | Ok a => k a
  | Err e => Err e
  end.

Notation "r >>? k" := (and_then r (fun _ => k))
  (at level 100, right associativity) : pyde_scope.

(** ** Runs

    A run returns, aborts the process (a panic under [panic = "abort"]), or
    exhausts the model's fuel. *)
Inductive Run (A : Type) : Type :=
| Returns (a : A)
| Panics
| OutOfFuel.
Arguments Returns {A} a.
Arguments Panics {A}.
Arguments OutOfFuel {A}.

Definition run_bind {A B : Type} (r : Run A) (k : A -> Run B) : Run B :=
  match r with
  | Returns a => k a
  | Panics => Panics
  | OutOfFuel => OutOfFuel
  end.

Notation "x <~ r ;; k" := (run_bind r (fun x => k))
  (at level 100, r at next level, right associativity) : pyde_scope.

(** [v[i]] and [o.unwrap()]: the absence of the value is a panic. *)
Definition unwrap {A : Type} (o : option A) : Run A :=
  match o with
  | Some a => Returns a
  | None => Panics
  end.

Fixpoint run_map {A B : Type} (f : A -> Run B) (l : list A) : Run (list B) :=
  match l with
  | [] => Returns []
  | a :: l' => run_bind (f a) (fun b => run_bind (run_map f l') (fun bs => Returns (b :: bs)))
  end.

Fixpoint run_fold {A B : Type} (f : B -> A -> Run B) (b : B) (l : list A) : Run B :=
  match l with
  | [] => Returns b
  | a :: l' => run_bind (f b a) (fun b' => run_fold f b' l')
  end.

Lemma run_map_returns {A B : Type} (f : A -> Run B) (g : A -> B) (l : list A) :
  (forall a, a ∈ l -> f a = Returns (g a)) -> run_map f l = Returns (g <$> l).
Proof.
  induction l as [|a l IH]; intros H; [done|]. cbn. rewrite H by constructor. cbn.
  rewrite IH; [done|]. intros x Hx. apply H. by constructor.
Qed.

Lemma run_fold_returns {A B : Type} (f : B -> A -> Run B) (g : B -> A -> B) (b : B) (l : list A) :
  (forall b a, a ∈ l -> f b a = Returns (g b a)) -> run_fold f b l = Returns (foldl g b l).
Proof.
  revert b. induction l as [|a l IH]; intros b H; [done|]. cbn. rewrite H by constructor. cbn.
  apply IH. intros b' x Hx. apply H. by constructor.
Qed.

(** ** Fixed-width integers

    A [w]-bit unsigned integer is a [Z] in [[0, 2^w)]; a signed one is kept
    in its two's complement [Z] range. *)

Abbreviation u8 := 8%Z (only parsing).
Abbreviation u16 := 16%Z (only parsing).
Abbreviation u32 := 32%Z (only parsing).
Abbreviation u64 := 64%Z (only parsing).
Abbreviation u128 := 128%Z (only parsing).
Abbreviation u256 := 256%Z (only parsing).

Definition max_of (w : Z) : Z := 2 ^ w - 1.
Definition in_range (w x : Z) : Prop := 0 <= x < 2 ^ w.
Definition wrap (w x : Z) : Z := x mod 2 ^ w.

Definition checked_add (w a b : Z) : option Z :=
  if a + b <? 2 ^ w then Some (a + b) else None.
Definition checked_sub (a b : Z) : option Z :=
  if b <=? a then Some (a - b) else None.
Definition checked_mul (w a b : Z) : option Z :=
  if a * b <? 2 ^ w then Some (a * b) else None.
Definition checked_div (a b : Z) : option Z :=
  if b =? 0 then None else Some (a / b).
Definition checked_rem (a b : Z) : option Z :=
  if b =? 0 then None else Some (a mod b).

Definition saturating_add (w a b : Z) : Z := Z.min (a + b) (2 ^ w - 1).
Definition saturating_sub (a b : Z) : Z := Z.max 0 (a - b).
Definition saturating_mul (w a b : Z) : Z := Z.min (a * b) (2 ^ w - 1).

Definition div_ceil (a b : Z) : Z := a / b + (if a mod b =? 0 then 0 else 1).

(** [x as iN] of an unsigned [x], and [x as uN] of a signed one. *)
Definition to_signed (w x : Z) : Z := if x <? 2 ^ (w - 1) then x else x - 2 ^ w.
Definition of_signed (w x : Z) : Z := x mod 2 ^ w.

(** ** Little-endian byte strings: [to_le_bytes] and [from_le_bytes] *)

Definition byte_ok (b : Z) : Prop := 0 <= b < 256.
Definition bytes_ok (l : list Z) : Prop := Forall byte_ok l.

Fixpoint le_encode (n : nat) (x : Z) : list Z :=
  match n with
  | O => []
  | S n' => x mod 256 :: le_encode n' (x / 256)
  end.

Fixpoint le_decode (l : list Z) : Z :=
  match l with
  | [] => 0
  | b :: l' => b + 256 * le_decode l'
  end.

(** The slice [data[off..off + len]] of a byte string. *)
Definition slice (off len : nat) (l : list Z) : list Z := take len (drop off l).

(** Rust's length of a [Vec] or slice, as the machine integer [usize]. *)
Definition len {A : Type} (l : list A) : Z := Z.of_nat (length l).

(** ** Automation

    [simp_ineq] turns the boolean comparisons of the code into inequalities,
    [case_tests] splits on every test left in the goal. *)

Ltac simp_ineq :=
  repeat match goal with
  | H : (_ <? _) = true |- _ => apply Z.ltb_lt in H
  | H : (_ <? _) = false |- _ => apply Z.ltb_ge in H
  | H : (_ <=? _) = true |- _ => apply Z.leb_le in H
  | H : (_ <=? _) = false |- _ => apply Z.leb_gt in H
  | H : (_ =? _) = true |- _ => apply Z.eqb_eq in H
  | H : (_ =? _) = false |- _ => apply Z.eqb_neq in H
  | H : (_ && _)%bool = true |- _ => apply andb_prop in H; destruct H
  | H : (_ || _)%bool = false |- _ => apply orb_false_elim in H; destruct H
  end.

Ltac case_tests :=
  repeat (match goal with
  | |- context [if ?b then _ else _] => destruct b eqn:?
  | H : context [if ?b then _ else _] |- _ => destruct b eqn:?
  end; try discriminate); simp_ineq.

(** Evaluates the powers of two with literal exponents, which [lia] needs
    below [/] and [mod]. *)
Ltac eval_pow2 :=
  repeat match goal with
  | |- context [2 ^ Z.pos ?n] =>
      let v := eval vm_compute in (2 ^ Z.pos n) in change (2 ^ Z.pos n) with v
  | H : context [2 ^ Z.pos ?n] |- _ =>
      let v := eval vm_compute in (2 ^ Z.pos n) in change (2 ^ Z.pos n) with v in H
  end.

Ltac lia_pow := eval_pow2; Z.to_euclidean_division_equations; lia.

Create HintDb pyde.

(** ** Lemmas on fixed-width integers *)

Lemma wrap_range (w x : Z) : 0 <= w -> in_range w (wrap w x).
Proof. intros. apply Z.mod_pos_bound, Z.pow_pos_nonneg; lia. Qed.

Lemma wrap_small (w x : Z) : in_range w x -> wrap w x = x.
Proof. intros H. by apply Z.mod_small. Qed.

Lemma checked_add_Some (w a b c : Z) :
  checked_add w a b = Some c <-> c = a + b /\ a + b < 2 ^ w.
Proof.
  unfold checked_add. destruct (Z.ltb_spec (a + b) (2 ^ w)); split;
    [intros [= <-]; lia | intros [-> _]; done | done | lia].
Qed.

Lemma checked_sub_Some (a b c : Z) :
  checked_sub a b = Some c <-> c = a - b /\ b <= a.
Proof.
  unfold checked_sub. destruct (Z.leb_spec b a); split;
    [intros [= <-]; lia | intros [-> _]; done | done | lia].
Qed.

Lemma checked_mul_Some (w a b c : Z) :
  checked_mul w a b = Some c <-> c = a * b /\ a * b < 2 ^ w.
Proof.
  unfold checked_mul. destruct (Z.ltb_spec (a * b) (2 ^ w)); split;
    [intros [= <-]; lia | intros [-> _]; done | done | lia].
Qed.

Lemma to_signed_range (w x : Z) :
  0 < w -> in_range w x -> - 2 ^ (w - 1) <= to_signed w x < 2 ^ (w - 1).
Proof.
  intros Hw [H0 H1]. unfold to_signed.
  assert (2 ^ w = 2 * 2 ^ (w - 1)) by (rewrite <- Z.pow_succ_r by lia; f_equal; lia).
  case_tests; lia.
Qed.

Lemma of_to_signed (w x : Z) : 0 < w -> in_range w x -> of_signed w (to_signed w x) = x.
Proof.
  intros Hw Hx. unfold of_signed, to_signed. case_tests.
  - by apply Z.mod_small.
  - replace (x - 2 ^ w) with (x + (-1) * 2 ^ w) by lia.
    rewrite Z_mod_plus_full. by apply Z.mod_small.
Qed.

Lemma to_of_signed (w x : Z) :
  0 < w -> - 2 ^ (w - 1) <= x < 2 ^ (w - 1) -> to_signed w (of_signed w x) = x.
Proof.
  intros Hw Hx. unfold of_signed, to_signed.
  assert (Hp : 2 ^ w = 2 * 2 ^ (w - 1)) by (rewrite <- Z.pow_succ_r by lia; f_equal; lia).
  destruct (Z.lt_ge_cases x 0).
  - assert (x mod 2 ^ w = x + 2 ^ w) as ->.
    { rewrite <- (Z_mod_plus_full x 1), Z.mul_1_l. apply Z.mod_small. lia. }
    case_tests; lia.
  - rewrite Z.mod_small by lia. case_tests; lia.
Qed.

Lemma land_mask (x n : Z) : 0 <= n -> Z.land x (Z.ones n) = x mod 2 ^ n.
Proof. apply Z.land_ones. Qed.

Lemma test_bit_pow2 (x n : Z) :
  0 <= n -> (Z.land x (Z.shiftl 1 n) =? 0) = negb (Z.testbit x n).
Proof.
  intros Hn. rewrite Z.shiftl_1_l. destruct (Z.testbit x n) eqn:E; simpl.
  - apply Z.eqb_neq. intros H. apply (f_equal (fun z => Z.testbit z n)) in H.
    rewrite Z.land_spec, E, Z.pow2_bits_true, Z.bits_0 in H; [done|lia].
  - apply Z.eqb_eq, Z.bits_inj'. intros m Hm. rewrite Z.land_spec, Z.bits_0.
    destruct (Z.eq_dec n m) as [->|]; [by rewrite E|].
    rewrite Z.pow2_bits_false by lia. apply andb_false_r.
Qed.

Lemma lor_disjoint_add (a b n : Z) :
  0 <= n -> 0 <= b < 2 ^ n -> Z.lor (Z.shiftl a n) b = a * 2 ^ n + b.
Proof.
  intros Hn Hb. rewrite <- Z.shiftl_mul_pow2 by lia.
  rewrite Z.add_nocarry_lxor, Z.lxor_lor; [done| |].
  all: apply Z.bits_inj'; intros i Hi; rewrite Z.land_spec, Z.bits_0.
  all: destruct (Z.lt_ge_cases i n); [by rewrite Z.shiftl_spec_low by lia|].
  all: rewrite <- (Z.mod_small b (2 ^ n)), Z.mod_pow2_bits_high by lia; apply andb_false_r.
Qed.

Lemma ok_or_Ok {A E : Type} (o : option A) (e : E) (a : A) : ok_or o e = Ok a <-> o = Some a.
Proof. destruct o; simpl; split; intros; simplify_eq; done. Qed.

Lemma checked_add_range (w a b c : Z) :
  checked_add w a b = Some c -> in_range w a -> in_range w b -> in_range w c.
Proof. rewrite checked_add_Some. unfold in_range. lia. Qed.

Lemma checked_sub_range (w a b c : Z) :
  checked_sub a b = Some c -> in_range w a -> in_range w b -> in_range w c.
Proof. rewrite checked_sub_Some. unfold in_range. lia. Qed.

Lemma checked_mul_range (w a b c : Z) :
  checked_mul w a b = Some c -> in_range w a -> in_range w b -> in_range w c.
Proof. rewrite checked_mul_Some. unfold in_range. nia. Qed.

(** A value of width [w] has no bit at or above [w]; this gives the ranges of
    the bitwise operations. *)
Lemma in_range_bits (w x : Z) :
  0 <= w -> in_range w x <-> 0 <= x /\ forall i, w <= i -> Z.testbit x i = false.
Proof.
  intros Hw. unfold in_range. split.
  - intros H. split; [lia|]. intros i Hi.
    rewrite <- (Z.mod_small x (2 ^ w)), Z.mod_pow2_bits_high by lia. done.
  - intros [H0 Hb]. assert (x = x mod 2 ^ w) as ->; [|apply Z.mod_pos_bound, Z.pow_pos_nonneg; lia].
    apply Z.bits_inj'. intros i Hi. destruct (Z.lt_ge_cases i w).
    + by rewrite Z.mod_pow2_bits_low by lia.
    + by rewrite Z.mod_pow2_bits_high, Hb by lia.
Qed.

Lemma land_range (w x y : Z) : 0 <= w -> in_range w x -> in_range w y -> in_range w (Z.land x y).
Proof.
  intros Hw Hx Hy. apply in_range_bits in Hx as [? Hx], Hy as [? Hy]; try done.
  apply in_range_bits; [done|]. split; [apply Z.land_nonneg; lia|].
  intros i Hi. by rewrite Z.land_spec, Hx.
Qed.

Lemma lor_range (w x y : Z) : 0 <= w -> in_range w x -> in_range w y -> in_range w (Z.lor x y).
Proof.
  intros Hw Hx Hy. apply in_range_bits in Hx as [? Hx], Hy as [? Hy]; try done.
  apply in_range_bits; [done|]. split; [apply Z.lor_nonneg; lia|].
  intros i Hi. by rewrite Z.lor_spec, Hx, Hy.
Qed.

Lemma lxor_range (w x y : Z) : 0 <= w -> in_range w x -> in_range w y -> in_range w (Z.lxor x y).
Proof.
  intros Hw Hx Hy. apply in_range_bits in Hx as [? Hx], Hy as [? Hy]; try done.
  apply in_range_bits; [done|]. split; [apply Z.lxor_nonneg; lia|].
  intros i Hi. by rewrite Z.lxor_spec, Hx, Hy.
Qed.

Lemma max_of_range (w : Z) : 0 <= w -> in_range w (max_of w).
Proof. intros. unfold in_range, max_of. pose proof (Z.pow_pos_nonneg 2 w). lia. Qed.

Lemma shiftr_range (w x n : Z) : 0 <= n -> in_range w x -> in_range w (Z.shiftr x n).
Proof.
  intros Hn [H0 H1]. unfold in_range. rewrite Z.shiftr_div_pow2 by done.
  assert (0 < 2 ^ n) by (apply Z.pow_pos_nonneg; lia).
  split; [apply Z.div_pos; lia|]. apply Z.le_lt_trans with x; [|done].
  apply Z.div_le_upper_bound; nia.
Qed.

Lemma div_range (w a b : Z) : 0 <= w -> in_range w a -> 0 <= b -> in_range w (a / b).
Proof.
  intros Hw [H0 H1] Hb. unfold in_range.
  destruct (Z.eq_dec b 0) as [->|]; [rewrite Z.div_0_r; lia|].
  split; [apply Z.div_pos; lia|]. apply Z.le_lt_trans with a; [|done].
  apply Z.div_le_upper_bound; nia.
Qed.

Lemma checked_div_range (w a b c : Z) :
  0 <= w -> checked_div a b = Some c -> in_range w a -> in_range w b -> in_range w c.
Proof. unfold checked_div. case_tests; intros ? [= <-] ? []. by apply div_range. Qed.

Lemma rem_range (w a b : Z) : in_range w a -> 0 <= b -> in_range w (a mod b).
Proof.
  unfold in_range. intros Ha Hb. destruct (Z.eq_dec b 0) as [->|]; [by rewrite Z.mod_0_r|].
  pose proof (Z.mod_pos_bound a b). pose proof (Z.mod_le a b). lia.
Qed.

Lemma checked_rem_range (w a b c : Z) :
  checked_rem a b = Some c -> in_range w a -> in_range w b -> in_range w c.
Proof. unfold checked_rem. case_tests; intros [= <-] ? []. by apply rem_range. Qed.

Lemma zero_range (w : Z) : 0 <= w -> in_range w 0.
Proof. intros. unfold in_range. pose proof (Z.pow_pos_nonneg 2 w). lia. Qed.

Lemma in_range_weaken (v w x : Z) : 0 <= v <= w -> in_range v x -> in_range w x.
Proof. intros Hv [H0 H1]. unfold in_range. pose proof (Z.pow_le_mono_r 2 v w). lia. Qed.

#[export] Hint Extern 2 (0 <= _) => (unfold in_range in *; lia) : pyde.
#[export] Hint Resolve land_range lor_range lxor_range max_of_range shiftr_range div_range
  wrap_range zero_range rem_range checked_add_range checked_sub_range checked_mul_range
  checked_div_range checked_rem_range : pyde.

(** ** Lemmas on little-endian byte strings *)

Lemma length_le_encode (n : nat) (x : Z) : length (le_encode n x) = n.
Proof. revert x; induction n; intros; simpl; congruence. Qed.

Lemma le_encode_bytes (n : nat) (x : Z) : bytes_ok (le_encode n x).
Proof.
  revert x; induction n; intros; constructor; [|apply IHn].
  apply Z.mod_pos_bound. lia.
Qed.

Lemma pow256_succ (n : nat) : 256 ^ Z.of_nat (S n) = 256 * 256 ^ Z.of_nat n.
Proof. rewrite Nat2Z.inj_succ, Z.pow_succ_r; lia. Qed.

Lemma pow256 (n : nat) : 256 ^ Z.of_nat n = 2 ^ (8 * Z.of_nat n).
Proof. change 256 with (2 ^ 8). rewrite <- Z.pow_mul_r; lia. Qed.

Lemma le_decode_encode_mod (n : nat) (x : Z) :
  le_decode (le_encode n x) = x mod 256 ^ Z.of_nat n.
Proof.
  revert x; induction n as [|n IH]; intros x; simpl le_encode; simpl le_decode.
  - by rewrite Z.mod_1_r.
  - assert (0 < 256 ^ Z.of_nat n) by (apply Z.pow_pos_nonneg; lia).
    rewrite IH, pow256_succ, Z.rem_mul_r; lia.
Qed.

Lemma le_decode_encode (n : nat) (x : Z) :
  0 <= x < 256 ^ Z.of_nat n -> le_decode (le_encode n x) = x.
Proof. intros. rewrite le_decode_encode_mod. by apply Z.mod_small. Qed.

Lemma le_encode_decode (l : list Z) : bytes_ok l -> le_encode (length l) (le_decode l) = l.
Proof.
  induction 1 as [|b l Hb Hl IH]; simpl; [done|].
  unfold byte_ok in Hb. f_equal.
  - rewrite Z.mul_comm, Z_mod_plus_full. by apply Z.mod_small.
  - rewrite Z.mul_comm, Z.div_add, Z.div_small, Z.add_0_l by lia. done.
Qed.

Lemma le_decode_range (l : list Z) :
  bytes_ok l -> 0 <= le_decode l < 256 ^ Z.of_nat (length l).
Proof.
  induction 1 as [|b l Hb Hl IH]; [done|].
  unfold byte_ok in Hb. simpl length. rewrite pow256_succ. simpl. lia.
Qed.

Lemma le_encode_app (n m : nat) (x : Z) :
  le_encode (n + m) x = le_encode n x ++ le_encode m (x / 256 ^ Z.of_nat n).
Proof.
  revert x. induction n as [|n IH]; intros x; [by rewrite Z.div_1_r|].
  cbn [le_encode Nat.add app]. f_equal. rewrite IH, pow256_succ, Z.div_div by lia. done.
Qed.

Lemma le_encode_0 (n : nat) : le_encode n 0 = replicate n 0.
Proof. induction n as [|n IH]; cbn; [done|]. by rewrite Z.div_0_l, IH by lia. Qed.

Lemma le_encode_inj (n : nat) (x y : Z) :
  0 <= x < 256 ^ Z.of_nat n -> 0 <= y < 256 ^ Z.of_nat n ->
  le_encode n x = le_encode n y -> x = y.
Proof.
  intros Hx Hy H. rewrite <- (le_decode_encode n x), <- (le_decode_encode n y) by lia.
  by rewrite H.
Qed.

#[export] Hint Resolve le_encode_bytes : pyde.

(** ** Relational reasoning on [ST]

    [respects R m]: every run of [m], failing or not, relates its first state
    to its last by [R].  For a preorder [R] the monad's operations respect it
    when their parts do, which is what the hint database [respects] uses. *)

Definition respects {S E A : Type} (R : S -> S -> Prop) (m : ST S E A) : Prop :=
  forall s, R s (m s).1.

(** [ensures P Q m]: from a state in [P], a run of [m] that succeeds ends in a
    state in [Q a], with [a] its value. *)
Definition ensures {S E A : Type} (P : S -> Prop) (Q : A -> S -> Prop) (m : ST S E A) : Prop :=
  forall s s' a, P s -> m s = (s', Ok a) -> Q a s'.

Create HintDb respects.

Section Respects.
Context {S E : Type} (R : S -> S -> Prop) `{!PreOrder R}.

Lemma respects_ret {A : Type} (a : A) : respects R (ret (E := E) a).
Proof. intros s. done. Qed.

Lemma respects_throw {A : Type} (e : E) : respects R (throw (A := A) e).
Proof. intros s. done. Qed.

Lemma respects_get : respects R (get (E := E)).
Proof. intros s. done. Qed.

Lemma respects_gets {A : Type} (f : S -> A) : respects R (gets (E := E) f).
Proof. intros s. done. Qed.

Lemma respects_lift_result {A : Type} (r : Result A E) : respects R (lift_result r).
Proof. intros s. done. Qed.

Lemma respects_bind {A B : Type} (m : ST S E A) (k : A -> ST S E B) :
  respects R m -> (forall a, respects R (k a)) -> respects R (bind m k).
Proof.
  intros Hm Hk s. unfold bind. specialize (Hm s).
  destruct (m s) as [s' [a|e]]; simpl in *; [|done].
  etrans; [apply Hm|apply Hk].
Qed.

Lemma respects_modify (f : S -> S) : (forall s, R s (f s)) -> respects R (modify (E := E) f).
Proof. intros H s. apply H. Qed.

Lemma respects_traverse {A B : Type} (f : A -> ST S E B) (l : list A) :
  (forall a, respects R (f a)) -> respects R (traverse f l).
Proof.
  intros Hf. induction l as [|a l IH]; simpl; [apply respects_ret|].
  repeat (apply respects_bind; [done|intros]). apply respects_ret.
Qed.

Lemma respects_catch {A : Type} (m : ST S E A) : respects R m -> respects R (catch m).
Proof. intros Hm s. specialize (Hm s). unfold catch. by destruct (m s). Qed.

Lemma respects_when (b : bool) (m : ST S E unit) : respects R m -> respects R (when b m).
Proof. intros H. destruct b; [done|apply respects_ret]. Qed.
End Respects.

#[export] Hint Resolve respects_ret respects_throw respects_get respects_gets
  respects_lift_result respects_when : respects.

Section Ensures.
Context {S E : Type}.
Implicit Types P : S -> Prop.

Lemma ensures_bind {A B : Type} P (Q : A -> S -> Prop) (T : B -> S -> Prop)
    (m : ST S E A) (k : A -> ST S E B) :
  ensures P Q m -> (forall a, ensures (Q a) T (k a)) -> ensures P T (bind m k).
Proof.
  intros Hm Hk s s' b HP. unfold bind.
  destruct (m s) as [s1 [a|e]] eqn:E1; intros; simplify_eq.
  eapply Hk; [|done]. by eapply Hm.
Qed.
End Ensures.

(** ** [sort_by_key]: a stable sort *)

Section SortByKey.
Context {A : Type} (key : A -> Z).

Fixpoint insert_by (x : A) (l : list A) : list A :=
  match l with
  | [] => [x]
  | y :: l' => if key x <=? key y then x :: l else y :: insert_by x l'
  end.

Definition sort_by_key (l : list A) : list A := foldr insert_by [] l.

Lemma insert_by_perm (x : A) (l : list A) : insert_by x l ≡ₚ x :: l.
Proof. induction l as [|y l IH]; cbn; [done|]. destruct (key x <=? key y); [done|]. rewrite IH. apply Permutation_swap. Qed.

Lemma sort_by_key_perm (l : list A) : sort_by_key l ≡ₚ l.
Proof. induction l as [|x l IH]; cbn; [done|]. by rewrite insert_by_perm, IH. Qed.

Lemma insert_by_sorted (x : A) (l : list A) :
  StronglySorted (fun a b => key a <= key b) l -> StronglySorted (fun a b => key a <= key b) (insert_by x l).
Proof.
  induction 1 as [|y l S IH F]; cbn; [by repeat constructor|]. destruct (Z.leb_spec (key x) (key y)) as [L|L].
  - constructor; [by constructor|]. constructor; [done|]. eapply Forall_impl; [exact F|]. cbn. lia.
  - constructor; [done|]. rewrite insert_by_perm. constructor; [lia|done].
Qed.

Lemma sort_by_key_sorted (l : list A) : StronglySorted (fun a b => key a <= key b) (sort_by_key l).
Proof. induction l as [|x l IH]; cbn; [constructor|by apply insert_by_sorted]. Qed.

(** Distinct keys leave one sorted order. *)
Lemma sort_by_key_unique (l k : list A) : l ≡ₚ k -> NoDup (key <$> l) -> sort_by_key l = sort_by_key k.
Proof.
  intros Pm N. assert (sort_by_key l ≡ₚ sort_by_key k) as Ps by (by rewrite !sort_by_key_perm).
  assert (NoDup (key <$> sort_by_key l)) as Ns by (by rewrite sort_by_key_perm). clear Pm N.
  pose proof (sort_by_key_sorted l) as S1. pose proof (sort_by_key_sorted k) as S2. revert Ps Ns S1 S2.
  generalize (sort_by_key l) as a, (sort_by_key k) as b. clear l k. induction a as [|x a IH]; intros b Ps Ns S1 S2.
  { by apply Permutation_nil_l in Ps. }
  destruct b as [|y b]; [by apply Permutation_nil_r in Ps|]. apply StronglySorted_inv in S1 as [S1 F1], S2 as [S2 F2].
  rewrite fmap_cons in Ns. apply NoDup_cons in Ns as [Nx Ns]. assert (x = y) as <-; [|f_equal; apply IH; [by eapply Permutation_cons_inv|done..]].
  assert (x ∈ y :: b) as Hx by (rewrite <- Ps; left). assert (y ∈ x :: a) as Hy by (rewrite Ps; left).
  apply elem_of_cons in Hx as [|Hx]; [done|]. apply elem_of_cons in Hy as [|Hy]; [done|]. rewrite Forall_forall in F1, F2.
  specialize (F1 y Hy). specialize (F2 x Hx). exfalso. apply Nx, list_elem_of_fmap. exists y. split; [lia|done].
Qed.
End SortByKey.
