(* ===== verification/Crypto.v ===== *)
(** * Hashes and signatures ([crates/crypto/src/{hash,poseidon2,falcon}.rs])

    The crate wraps two third-party primitives: the Plonky3 Poseidon2 sponge
    over the Goldilocks field and the FN-DSA (FALCON) verifier.  They are the
    parameters of the class [Primitives]; what the wrappers rely on is stated
    by [PrimitivesOk].  A field element is its canonical representative. *)

From S2P Require Import Prelude.
From stdpp Require Import base numbers list option.
From Stdlib Require Import ZArith Lia.

#[local] Open Scope Z_scope.

(** The Goldilocks modulus, [2^64 - 2^32 + 1]. *)
Definition GOLDILOCKS_P : Z := 2 ^ 64 - 2 ^ 32 + 1.

(** [sponge] is [PaddingFreeSponge::hash_iter] with an output of four
    elements; [fn_dsa_verify sig pk msg] is [FnDsaSignature::verify] in the
    crate's domain. *)
Class Primitives : Type := {
  sponge : list Z -> list Z;
  fn_dsa_verify : list Z -> list Z -> list Z -> bool
}.

Class PrimitivesOk (P : Primitives) : Prop := {
  sponge_length : forall l, length (sponge l) = 4%nat;
  sponge_canonical : forall l, Forall (fun x => 0 <= x < GOLDILOCKS_P) (sponge l)
}.

(** ** [hash.rs] *)

(** [type Address = [u8; 32]] of every crate. *)
Abbreviation Address := (list Z) (only parsing).

Definition ZERO_ADDRESS : Address := replicate 32 0.

Definition address_ok (a : Address) : Prop := length a = 32%nat /\ bytes_ok a.

(** A [Hash256] is its 32 bytes. *)
Definition Hash256_from_slice (s : list Z) : option (list Z) :=
  if len s =? 32 then Some s else None.

(** ** [poseidon2.rs] *)

Section Poseidon2.
Context {P : Primitives}.

Definition u64_to_goldilocks (val : Z) : Z := val mod GOLDILOCKS_P.
Definition goldilocks_to_u64 (el : Z) : Z := el.

Definition elements_to_hash (elements : list Z) : list Z :=
  concat ((fun el => le_encode 8 (goldilocks_to_u64 el)) <$> elements).

(** [data.chunks(n)]; the fuel is the length of the data. *)
Fixpoint chunks_fuel (fuel n : nat) (data : list Z) : list (list Z) :=
  match fuel, data with
  | _, [] => []
  | O, _ => []
  | S f, _ => take n data :: chunks_fuel f n (drop n data)
  end.

Definition chunks (n : nat) (data : list Z) : list (list Z) := chunks_fuel (length data) n data.

(** A chunk of at most seven bytes in a zeroed 8-byte buffer. *)
Definition chunk_element (chunk : list Z) : Z :=
  u64_to_goldilocks (le_decode (chunk ++ replicate (8 - length chunk) 0)).

Definition bytes_to_elements (data : list Z) : list Z :=
  match data with
  | [] => [0]
  | _ => (chunk_element <$> chunks 7 data) ++ [u64_to_goldilocks (len data)]
  end.

Definition hash256_to_elements (b : list Z) : list Z :=
  [u64_to_goldilocks (le_decode (slice 0 8 b)); u64_to_goldilocks (le_decode (slice 8 8 b));
   u64_to_goldilocks (le_decode (slice 16 8 b)); u64_to_goldilocks (le_decode (slice 24 8 b))].

Definition poseidon2_hash (data : list Z) : list Z :=
  elements_to_hash (sponge (bytes_to_elements data)).

Definition poseidon2_pair (left right : list Z) : list Z :=
  elements_to_hash (sponge (hash256_to_elements left ++ hash256_to_elements right)).

Definition poseidon2_many (hashes : list (list Z)) : list Z :=
  elements_to_hash (sponge (concat (hash256_to_elements <$> hashes))).
End Poseidon2.

(** ** [falcon.rs] *)

Definition FalconPublicKey_SIZE : Z := 897.

Definition FalconPublicKey_from_bytes (bytes : list Z) : option (list Z) :=
  if len bytes =? FalconPublicKey_SIZE then Some bytes else None.

Definition FalconSignature_from_bytes (bytes : list Z) : option (list Z) :=
  if (500 <=? len bytes) && (len bytes <=? 1000) then Some bytes else None.

Definition falcon_verify {P : Primitives} (pk msg sig : list Z) : bool := fn_dsa_verify sig pk msg.

(** [FalconPublicKey::from_bytes], [FalconSignature::from_bytes] and
    [falcon_verify] in a row, as every caller has them. *)
Definition verifies {P : Primitives} (pk_bytes message sig_bytes : list Z) : bool :=
  match FalconPublicKey_from_bytes pk_bytes, FalconSignature_from_bytes sig_bytes with
  | Some pk, Some sig => falcon_verify pk message sig
  | _, _ => false
  end.

Definition falcon_verify_all {P : Primitives} (items : list (list Z * list Z * list Z)) : bool :=
  forallb (fun '(pk, msg, sig) => falcon_verify pk msg sig) items.

(** ** Hash outputs are 32 bytes *)

Section Hashes.
Context {P : Primitives} {PO : PrimitivesOk P}.

Lemma elements_to_hash_bytes (l : list Z) : bytes_ok (elements_to_hash l).
Proof. apply Forall_concat, Forall_fmap, Forall_true. intros x. apply le_encode_bytes. Qed.

Lemma elements_to_hash_length (l : list Z) : length (elements_to_hash l) = (8 * length l)%nat.
Proof.
  unfold elements_to_hash. induction l as [|x l IH]; [done|].
  cbn [fmap list_fmap concat]. rewrite length_app, length_le_encode, IH. simpl. lia.
Qed.

Lemma poseidon2_hash_bytes (d : list Z) : bytes_ok (poseidon2_hash d).
Proof. apply elements_to_hash_bytes. Qed.

Lemma poseidon2_hash_length (d : list Z) : length (poseidon2_hash d) = 32%nat.
Proof. unfold poseidon2_hash. by rewrite elements_to_hash_length, sponge_length. Qed.

Lemma elements_to_hash_inj (l l' : list Z) :
  length l = length l' ->
  Forall (fun x => 0 <= x < GOLDILOCKS_P) l -> Forall (fun x => 0 <= x < GOLDILOCKS_P) l' ->
  elements_to_hash l = elements_to_hash l' -> l = l'.
Proof.
  revert l'. unfold elements_to_hash, goldilocks_to_u64, GOLDILOCKS_P.
  induction l as [|x l IH]; intros [|y l'] HL H1 H2 E; try done.
  cbn [fmap list_fmap concat] in E. inversion H1; inversion H2; subst.
  apply app_inj_1 in E as [E1 E2]; [|by rewrite !length_le_encode].
  f_equal; [|apply IH; auto]. eapply (le_encode_inj 8); [..|done]; simpl; lia.
Qed.
End Hashes.

(** ** The encoding of the input *)

Lemma le_decode_app_zeros (l : list Z) (n : nat) :
  le_decode (l ++ replicate n 0) = le_decode l.
Proof.
  induction l as [|b l IH]; simpl; [|by rewrite IH].
  induction n as [|n IH]; simpl; [done|]. by rewrite IH.
Qed.

Lemma chunk_element_small (c : list Z) :
  bytes_ok c -> (length c <= 7)%nat -> chunk_element c = le_decode c.
Proof.
  intros Hc Hl. unfold chunk_element, u64_to_goldilocks. rewrite le_decode_app_zeros.
  apply Z.mod_small. pose proof (le_decode_range c Hc) as H.
  assert (256 ^ Z.of_nat (length c) <= 256 ^ 7) by (apply Z.pow_le_mono_r; lia).
  unfold GOLDILOCKS_P. lia.
Qed.

Lemma chunks_fuel_inj (fuel : nat) (d1 d2 : list Z) :
  (length d1 <= fuel)%nat -> length d1 = length d2 -> bytes_ok d1 -> bytes_ok d2 ->
  chunk_element <$> chunks_fuel fuel 7 d1 = chunk_element <$> chunks_fuel fuel 7 d2 -> d1 = d2.
Proof.
  revert d1 d2. induction fuel as [|f IH]; intros d1 d2 Hf HL H1 H2 E.
  { destruct d1, d2; simpl in *; done || lia. }
  destruct d1 as [|a d1], d2 as [|b d2]; try done.
  cbn [chunks_fuel fmap list_fmap] in E. apply (inj2 cons) in E as [E1 E2].
  rewrite <- (take_drop 7 (a :: d1)), <- (take_drop 7 (b :: d2)). f_equal.
  - rewrite !chunk_element_small in E1 by (apply Forall_take; done) || (rewrite length_take; lia).
    apply (f_equal (le_encode (length (take 7 (a :: d1))))) in E1.
    rewrite le_encode_decode in E1 by by apply Forall_take.
    replace (length (take 7 (a :: d1))) with (length (take 7 (b :: d2))) in E1
      by (rewrite !length_take; lia).
    by rewrite le_encode_decode in E1 by by apply Forall_take.
  - apply IH; [rewrite length_drop; simpl in *; lia|rewrite !length_drop; lia| | |done];
      by apply Forall_drop.
Qed.

(** Lengths of Rust allocations fit [isize]. *)
Definition alloc_ok (d : list Z) : Prop := bytes_ok d /\ len d < 2 ^ 63.

Lemma bytes_to_elements_inj (d1 d2 : list Z) :
  alloc_ok d1 -> alloc_ok d2 -> bytes_to_elements d1 = bytes_to_elements d2 -> d1 = d2.
Proof.
  intros [B1 L1] [B2 L2] Ee.
  assert (Hmod : forall l : list Z, len l < 2 ^ 63 -> u64_to_goldilocks (len l) = len l).
  { intros l Hl. apply Z.mod_small. unfold GOLDILOCKS_P, len in *. lia. }
  assert (Hcl : forall (a : Z) (d : list Z), chunks 7 (a :: d) <> []) by done.
  destruct d1 as [|a d1], d2 as [|b d2]; [done|..]; cbn [bytes_to_elements] in Ee.
  - apply (f_equal length) in Ee. rewrite length_app, length_fmap in Ee.
    destruct (chunks 7 (b :: d2)) eqn:Ec; [by apply Hcl in Ec|]. simpl in Ee. lia.
  - apply (f_equal length) in Ee. rewrite length_app, length_fmap in Ee.
    destruct (chunks 7 (a :: d1)) eqn:Ec; [by apply Hcl in Ec|]. simpl in Ee. lia.
  - apply app_inj_tail in Ee as [Ee El]. rewrite !Hmod in El by done. unfold len in El.
    assert (HL : length (a :: d1) = length (b :: d2)) by lia.
    unfold chunks in Ee. rewrite <- HL in Ee. by eapply chunks_fuel_inj.
Qed.

(** Two byte strings on whose elements the sponge itself collides. *)
Definition sponge_collision {P : Primitives} (d1 d2 : list Z) : Prop :=
  bytes_to_elements d1 <> bytes_to_elements d2 /\
  sponge (bytes_to_elements d1) = sponge (bytes_to_elements d2).

Lemma poseidon2_hash_sponge {P : Primitives} {PO : PrimitivesOk P} (d1 d2 : list Z) :
  poseidon2_hash d1 = poseidon2_hash d2 ->
  sponge (bytes_to_elements d1) = sponge (bytes_to_elements d2).
Proof.
  intros E. eapply elements_to_hash_inj; [..|exact E]; [|apply sponge_canonical..].
  by rewrite !sponge_length.
Qed.

(** Equal hashes: equal inputs, or a collision of the sponge. *)
Lemma poseidon2_hash_eq {P : Primitives} {PO : PrimitivesOk P} (d1 d2 : list Z) :
  alloc_ok d1 -> alloc_ok d2 -> poseidon2_hash d1 = poseidon2_hash d2 ->
  d1 = d2 \/ sponge_collision d1 d2.
Proof.
  intros A1 A2 E. destruct (decide (d1 = d2)) as [|Hne]; [by left|right].
  split; [|by apply poseidon2_hash_sponge]. intros Ee. by apply Hne, bytes_to_elements_inj.
Qed.

(** The byte-to-field packing in front of the sponge is injective, so two
    different inputs of [poseidon2_hash] collide only if the sponge itself
    collides on two different element strings. *)
Theorem poseidon2_hash_collision_resistant {P : Primitives} {PO : PrimitivesOk P} (d1 d2 : list Z) :
  alloc_ok d1 -> alloc_ok d2 -> d1 <> d2 -> poseidon2_hash d1 = poseidon2_hash d2 ->
  bytes_to_elements d1 <> bytes_to_elements d2 /\
  sponge (bytes_to_elements d1) = sponge (bytes_to_elements d2).
Proof. intros A1 A2 Hne E. by destruct (poseidon2_hash_eq d1 d2 A1 A2 E). Qed.

(** A concrete primitive for evaluation: the sponge sums its input into four
    lanes; signatures verify when they repeat the message. *)
Definition toy_mix (l : list Z) : Z :=
  foldl (fun acc x => (acc * 1000003 + x + 7) mod GOLDILOCKS_P) 1 l.

#[global] Instance toy_primitives : Primitives := {|
  sponge := fun l => [toy_mix l; toy_mix (1 :: l); toy_mix (2 :: l); toy_mix (3 :: l)];
  fn_dsa_verify := fun sig pk msg => bool_decide (take (length msg) sig = msg)
|}.

Lemma toy_mix_canonical (l : list Z) : 0 <= toy_mix l < GOLDILOCKS_P.
Proof.
  unfold toy_mix. assert (H : 0 <= 1 < GOLDILOCKS_P) by done. revert H. generalize 1.
  induction l as [|x l IH]; intros z Hz; [done|]. apply IH. by apply Z.mod_pos_bound.
Qed.

#[global] Instance toy_primitives_ok : PrimitivesOk toy_primitives.
Proof.
  split; [done|]. intros l. repeat (constructor; [apply toy_mix_canonical|]). constructor.
Qed.

Lemma poseidon2_hash_collision_resistant_witness :
  let P := {| sponge := fun _ => [0; 0; 0; 0]; fn_dsa_verify := fun _ _ _ => false |} in
  bytes_to_elements [1] <> bytes_to_elements [2].
Proof.
  intros P.
  assert (PrimitivesOk P) as PO.
  { split; [reflexivity|]. intros l.
    repeat (constructor; [split; [discriminate|reflexivity]|]). constructor. }
  assert (alloc_ok [1]) as H1 by (split; [constructor; [split; [discriminate|reflexivity]|constructor]|reflexivity]).
  assert (alloc_ok [2]) as H2 by (split; [constructor; [split; [discriminate|reflexivity]|constructor]|reflexivity]).
  exact (proj1 (poseidon2_hash_collision_resistant [1] [2] H1 H2 ltac:(discriminate) eq_refl)).
Defined.

(** The pair hash does not have this property: a 32-byte node whose first
    limb is [p] and the one whose first limb is [0] are different siblings with
    the same pair hash on either side, because the four limbs are reduced
    modulo the field. *)
Theorem poseidon2_pair_malleable {P : Primitives} :
  let h0 := replicate 32 0 in
  let hp := le_encode 8 GOLDILOCKS_P ++ replicate 24 0 in
  h0 <> hp /\ bytes_ok h0 /\ bytes_ok hp /\ length h0 = 32%nat /\ length hp = 32%nat /\
  forall other, poseidon2_pair h0 other = poseidon2_pair hp other /\
                poseidon2_pair other h0 = poseidon2_pair other hp.
Proof.
  intros h0 hp.
  assert (E : hash256_to_elements hp = hash256_to_elements h0) by by vm_compute.
  split_and!; [done|by apply Forall_replicate|apply Forall_app; split|done|done|].
  - apply le_encode_bytes.
  - by apply Forall_replicate.
  - intros other. unfold poseidon2_pair. by rewrite E.
Qed.
