(* ===== verification/Isa.v ===== *)
(** * The PVM instruction set ([crates/pvm/src/isa.rs])

    Opcodes and their 6-bit values, the 32-bit instruction word, signed and
    memory immediates, and the two gas tables.  The theorems show that the
    codecs are inverse to each other on all words and that the precomputed gas
    table is the gas function. *)

From S2P Require Import Prelude.
From stdpp Require Import base numbers list.
From Stdlib Require Import ZArith Lia.

#[local] Open Scope Z_scope.

(** ** Opcodes *)

Module Opcode.

Inductive t : Type :=
| Add | Sub | Mul | Div | Mod | And | Or | Xor
| Wadd | Wsub | Wmul | Wdiv | Wmod | Wand | Wor | Wxor
| Wnot | Wshift | Addi | Not | Shl | Shr | Sar | Lt
| Gt | Eq | Slt | Sgt | Load | Store | Push | Pop
| Wload | Wstore | Wmov | Narrow | Widen | Jmp | Beq | Bne
| Blt | Bge | Call | Ret | Sload | Sstore | Sdelete | Caller
| Callvalue | Blockhash | CallExt | Delegate | Create | Selfdestruct | Log | Revert
| Halt | Poseidon | VerifySig | MerkleVerify | Assert | Memcpy | Weq | Wlt
| Invalid.

#[global] Instance t_eq_dec : EqDecision t.
Proof. solve_decision. Defined.

(** The discriminants of the enum: [self as u8]. *)
Definition to_u8 (op : t) : Z :=
  match op with
  | Add => 0x01
  | Sub => 0x02
  | Mul => 0x03
  | Div => 0x04
  | Mod => 0x05
  | And => 0x06
  | Or => 0x07
  | Xor => 0x08
  | Wadd => 0x09
  | Wsub => 0x0A
  | Wmul => 0x0B
  | Wdiv => 0x0C
  | Wmod => 0x0D
  | Wand => 0x2D
  | Wor => 0x2E
  | Wxor => 0x2F
  | Wnot => 0x1F
  | Wshift => 0x3A
  | Addi => 0x0E
  | Not => 0x0F
  | Shl => 0x14
  | Shr => 0x15
  | Sar => 0x16
  | Lt => 0x17
  | Gt => 0x33
  | Eq => 0x34
  | Slt => 0x35
  | Sgt => 0x36
  | Load => 0x10
  | Store => 0x11
  | Push => 0x12
  | Pop => 0x13
  | Wload => 0x37
  | Wstore => 0x3B
  | Wmov => 0x3C
  | Narrow => 0x3D
  | Widen => 0x3E
  | Jmp => 0x18
  | Beq => 0x19
  | Bne => 0x1A
  | Blt => 0x1B
  | Bge => 0x1C
  | Call => 0x1D
  | Ret => 0x1E
  | Sload => 0x20
  | Sstore => 0x21
  | Sdelete => 0x22
  | Caller => 0x23
  | Callvalue => 0x24
  | Blockhash => 0x25
  | CallExt => 0x26
  | Delegate => 0x27
  | Create => 0x28
  | Selfdestruct => 0x29
  | Log => 0x2A
  | Revert => 0x2B
  | Halt => 0x2C
  | Poseidon => 0x30
  | VerifySig => 0x31
  | MerkleVerify => 0x32
  | Assert => 0x38
  | Memcpy => 0x39
  | Weq => 0x00
  | Wlt => 0x3F
  | Invalid => 0xFF
  end.

Definition from_u8 (val : Z) : t :=
  match val with
  | 0x01 => Add
  | 0x02 => Sub
  | 0x03 => Mul
  | 0x04 => Div
  | 0x05 => Mod
  | 0x06 => And
  | 0x07 => Or
  | 0x08 => Xor
  | 0x09 => Wadd
  | 0x0A => Wsub
  | 0x0B => Wmul
  | 0x0C => Wdiv
  | 0x0D => Wmod
  | 0x0E => Addi
  | 0x0F => Not
  | 0x10 => Load
  | 0x11 => Store
  | 0x12 => Push
  | 0x13 => Pop
  | 0x14 => Shl
  | 0x15 => Shr
  | 0x16 => Sar
  | 0x17 => Lt
  | 0x18 => Jmp
  | 0x19 => Beq
  | 0x1A => Bne
  | 0x1B => Blt
  | 0x1C => Bge
  | 0x1D => Call
  | 0x1E => Ret
  | 0x1F => Wnot
  | 0x20 => Sload
  | 0x21 => Sstore
  | 0x22 => Sdelete
  | 0x23 => Caller
  | 0x24 => Callvalue
  | 0x25 => Blockhash
  | 0x26 => CallExt
  | 0x27 => Delegate
  | 0x28 => Create
  | 0x29 => Selfdestruct
  | 0x2A => Log
  | 0x2B => Revert
  | 0x2C => Halt
  | 0x2D => Wand
  | 0x2E => Wor
  | 0x2F => Wxor
  | 0x3A => Wshift
  | 0x30 => Poseidon
  | 0x31 => VerifySig
  | 0x32 => MerkleVerify
  | 0x33 => Gt
  | 0x34 => Eq
  | 0x35 => Slt
  | 0x36 => Sgt
  | 0x37 => Wload
  | 0x38 => Assert
  | 0x39 => Memcpy
  | 0x3B => Wstore
  | 0x3C => Wmov
  | 0x3D => Narrow
  | 0x3E => Widen
  | 0x00 => Weq
  | 0x3F => Wlt
  | _ => Invalid
  end.

Definition is_wide (op : t) : bool :=
  match op with
  | Wadd | Wsub | Wmul | Wdiv | Wmod | Wand
  | Wor | Wxor | Wnot | Wshift | Wload | Wstore
  | Wmov | Widen | Callvalue | Blockhash | Poseidon => true
  | _ => false
  end.

Definition uses_immediate (op : t) : bool :=
  match op with
  | Addi | Load | Store | Jmp | Beq | Bne
  | Blt | Bge | Call => true
  | _ => false
  end.

Definition ALL_OPCODES : list t :=
  [
    Add; Sub; Mul; Div; Mod; And; Or; Xor;
    Wadd; Wsub; Wmul; Wdiv; Wmod; Wand; Wor; Wxor;
    Wnot; Wshift; Addi; Not; Load; Store; Push; Pop;
    Shl; Shr; Sar; Lt; Jmp; Beq; Bne; Blt;
    Bge; Call; Ret; Sload; Sstore; Sdelete; Caller; Callvalue;
    Blockhash; CallExt; Delegate; Create; Selfdestruct; Log; Revert; Halt;
    Poseidon; VerifySig; MerkleVerify; Gt; Eq; Slt; Sgt; Wload;
    Assert; Memcpy; Wstore; Wmov; Narrow; Widen; Weq; Wlt
  ].

End Opcode.

#[global] Arguments Opcode.from_u8 _ : simpl never.
#[global] Arguments Opcode.to_u8 !_ / : simpl nomatch.


(** ** Instruction words *)

(** [Instruction(pub u32)] is kept as its word. *)
Record DecodedInstruction : Type := mkDecoded {
  opcode : Opcode.t;
  rd : Z;
  rs1 : Z;
  rs2_or_imm : Z
}.

#[global] Instance DecodedInstruction_eq_dec : EqDecision DecodedInstruction.
Proof. solve_decision. Defined.

Definition OPCODE_SHIFT : Z := 26.
Definition OPCODE_MASK : Z := 0x3F.
Definition RD_SHIFT : Z := 22.
Definition RD_MASK : Z := 0x0F.
Definition RS1_SHIFT : Z := 18.
Definition RS1_MASK : Z := 0x0F.
Definition RS2_IMM_MASK : Z := 0x3FFFF.

Definition GP_REG_COUNT : nat := 16.
Definition WIDE_REG_COUNT : nat := 8.

(** The three [debug_assert!]s are not part of a release build. *)
Definition encode (op : Opcode.t) (rd rs1 rs2_or_imm : Z) : Z :=
  Z.lor (Z.lor (Z.lor
    (Z.shiftl (Z.land (Opcode.to_u8 op) OPCODE_MASK) OPCODE_SHIFT)
    (Z.shiftl (Z.land rd RD_MASK) RD_SHIFT))
    (Z.shiftl (Z.land rs1 RS1_MASK) RS1_SHIFT))
    (Z.land rs2_or_imm RS2_IMM_MASK).

Definition decode (w : Z) : DecodedInstruction :=
  {| opcode := Opcode.from_u8 (Z.land (Z.shiftr w OPCODE_SHIFT) OPCODE_MASK);
     rd := Z.land (Z.shiftr w RD_SHIFT) RD_MASK;
     rs1 := Z.land (Z.shiftr w RS1_SHIFT) RS1_MASK;
     rs2_or_imm := Z.land w RS2_IMM_MASK |}.

(** [raw | !RS2_IMM_MASK] is a 32-bit word; [as i32] reads it as signed. *)
Definition sign_extend_18 (raw : Z) : Z :=
  let raw := Z.land raw RS2_IMM_MASK in
  if negb (Z.land raw (Z.shiftl 1 17) =? 0)
  then to_signed u32 (Z.lor raw (Z.lxor RS2_IMM_MASK (max_of u32)))
  else to_signed u32 raw.

Definition encode_immediate (val : Z) : option Z :=
  if negb ((-131072 <=? val) && (val <=? 131071)) then None
  else Some (Z.land (of_signed u32 val) RS2_IMM_MASK).

(** ** Width-encoded memory immediates *)

Inductive MemWidth : Type := W8 | W16 | W32 | W64.

Definition mem_width_u32 (w : MemWidth) : Z :=
  match w with W8 => 0 | W16 => 1 | W32 => 2 | W64 => 3 end.

Definition decode_mem_width (raw : Z) : MemWidth :=
  match Z.land raw 0x03 with
  | 0 => W8
  | 1 => W16
  | 2 => W32
  | 3 => W64
  | _ => W8
  end.

Definition decode_mem_offset (raw : Z) : Z :=
  let bits := Z.land (Z.shiftr raw 2) 0xFFFF in
  if negb (Z.land bits (Z.shiftl 1 15) =? 0)
  then to_signed u32 (Z.lor bits 0xFFFF0000)
  else to_signed u32 bits.

Definition encode_mem_immediate (offset : Z) (width : MemWidth) : option Z :=
  if negb ((-32768 <=? offset) && (offset <=? 32767)) then None
  else
    let offset_bits := Z.land (of_signed u32 offset) 0xFFFF in
    Some (Z.land (Z.lor (wrap u32 (Z.shiftl offset_bits 2)) (mem_width_u32 width)) RS2_IMM_MASK).

(** ** Gas *)

Definition gas_cost (op : Opcode.t) : Z :=
  match op with
  | Opcode.Add => 3
  | Opcode.Sub => 3
  | Opcode.Mul => 5
  | Opcode.Div => 8
  | Opcode.Mod => 8
  | Opcode.And => 3
  | Opcode.Or => 3
  | Opcode.Xor => 3
  | Opcode.Addi => 3
  | Opcode.Not => 3
  | Opcode.Shl => 3
  | Opcode.Shr => 3
  | Opcode.Sar => 3
  | Opcode.Lt => 3
  | Opcode.Gt => 3
  | Opcode.Eq => 3
  | Opcode.Slt => 3
  | Opcode.Sgt => 3
  | Opcode.Wadd => 6
  | Opcode.Wsub => 6
  | Opcode.Wmul => 12
  | Opcode.Wdiv => 15
  | Opcode.Wmod => 15
  | Opcode.Wand => 4
  | Opcode.Wor => 4
  | Opcode.Wxor => 4
  | Opcode.Wnot => 4
  | Opcode.Wshift => 4
  | Opcode.Wmov => 3
  | Opcode.Narrow => 3
  | Opcode.Widen => 3
  | Opcode.Load => 5
  | Opcode.Store => 5
  | Opcode.Push => 5
  | Opcode.Pop => 5
  | Opcode.Wload => 8
  | Opcode.Wstore => 8
  | Opcode.Jmp => 3
  | Opcode.Beq => 3
  | Opcode.Bne => 3
  | Opcode.Blt => 3
  | Opcode.Bge => 3
  | Opcode.Call => 50
  | Opcode.Ret => 5
  | Opcode.Sload => 100
  | Opcode.Sstore => 200
  | Opcode.Sdelete => 200
  | Opcode.Caller => 5
  | Opcode.Callvalue => 5
  | Opcode.Blockhash => 20
  | Opcode.CallExt => 2500
  | Opcode.Delegate => 2500
  | Opcode.Create => 32000
  | Opcode.Selfdestruct => 5000
  | Opcode.Log => 375
  | Opcode.Revert => 3
  | Opcode.Halt => 3
  | Opcode.Poseidon => 1000
  | Opcode.VerifySig => 20000
  | Opcode.MerkleVerify => 5000
  | Opcode.Assert => 3
  | Opcode.Memcpy => 5
  | Opcode.Weq => 4
  | Opcode.Wlt => 4
  | Opcode.Invalid => 0
  end.

(** One entry of the table: the [match i] of its initialiser. *)
Definition total_gas_entry (i : Z) : Z :=
  match i with
  | 0x00 => 4
  | 0x01 => 3
  | 0x02 => 3
  | 0x03 => 5
  | 0x04 => 8
  | 0x05 => 8
  | 0x06 => 3
  | 0x07 => 3
  | 0x08 => 3
  | 0x09 => 6
  | 0x0A => 6
  | 0x0B => 12
  | 0x0C => 15
  | 0x0D => 15
  | 0x0E => 3
  | 0x0F => 3
  | 0x10 => 5
  | 0x11 => 5
  | 0x12 => 5
  | 0x13 => 5
  | 0x14 => 3
  | 0x15 => 3
  | 0x16 => 3
  | 0x17 => 3
  | 0x18 => 3
  | 0x19 => 3
  | 0x1A => 3
  | 0x1B => 3
  | 0x1C => 3
  | 0x1D => 50
  | 0x1E => 5
  | 0x1F => 4
  | 0x20 => 100
  | 0x21 => 200
  | 0x22 => 200
  | 0x23 => 5
  | 0x24 => 5
  | 0x25 => 20
  | 0x26 => 2500
  | 0x27 => 2500
  | 0x28 => 32000
  | 0x29 => 5000
  | 0x2A => 375
  | 0x2B => 3
  | 0x2C => 3
  | 0x2D => 4
  | 0x2E => 4
  | 0x2F => 4
  | 0x3A => 4
  | 0x30 => 1000
  | 0x31 => 20000
  | 0x32 => 5000
  | 0x33 => 3
  | 0x34 => 3
  | 0x35 => 3
  | 0x36 => 3
  | 0x37 => 8
  | 0x38 => 3
  | 0x39 => 5
  | 0x3B => 8
  | 0x3C => 3
  | 0x3D => 3
  | 0x3E => 3
  | 0x3F => 4
  | _ => 0
  end.

(** The initialiser's loop fills the 64 slots in order. *)
Definition TOTAL_GAS_TABLE : list Z :=
  (fun i : nat => total_gas_entry (Z.of_nat i)) <$> seq 0 64.

Definition total_gas (opcode_val : Z) : Z :=
  default 0 (TOTAL_GAS_TABLE !! Z.to_nat (Z.land opcode_val 0x3F)).

(** ** The codecs as arithmetic *)

Definition valid_opcode (op : Opcode.t) : Prop := op <> Opcode.Invalid.

(** Words whose fields are in the ranges of the layout. *)
Definition wf_decoded (d : DecodedInstruction) : Prop :=
  valid_opcode (opcode d) /\ 0 <= rd d < 16 /\ 0 <= rs1 d < 16 /\ 0 <= rs2_or_imm d < 2 ^ 18.

Lemma land_6 (x : Z) : Z.land x 0x3F = x mod 64.
Proof. exact (Z.land_ones x 6 ltac:(lia)). Qed.
Lemma land_4 (x : Z) : Z.land x 0x0F = x mod 16.
Proof. exact (Z.land_ones x 4 ltac:(lia)). Qed.
Lemma land_18 (x : Z) : Z.land x 0x3FFFF = x mod 262144.
Proof. exact (Z.land_ones x 18 ltac:(lia)). Qed.
Lemma land_16 (x : Z) : Z.land x 0xFFFF = x mod 65536.
Proof. exact (Z.land_ones x 16 ltac:(lia)). Qed.
Lemma land_2 (x : Z) : Z.land x 0x03 = x mod 4.
Proof. exact (Z.land_ones x 2 ltac:(lia)). Qed.

(** Rewrites the bit operations of a codec to sums, quotients and remainders
    by powers of two, which [lia] decides. *)
Ltac bits_to_arith :=
  unfold OPCODE_MASK, OPCODE_SHIFT, RD_MASK, RD_SHIFT, RS1_MASK, RS1_SHIFT, RS2_IMM_MASK in *;
  rewrite ?land_6, ?land_4, ?land_18, ?land_16, ?land_2, ?Z.shiftr_div_pow2 in * by lia.

Lemma to_u8_range (op : Opcode.t) : valid_opcode op -> 0 <= Opcode.to_u8 op < 64.
Proof. destruct op; intros H; try (simpl; lia). by destruct H. Qed.

Lemma from_to_u8 (op : Opcode.t) : Opcode.from_u8 (Opcode.to_u8 op) = op.
Proof. by destruct op. Qed.

(** The 64 six-bit values, for facts decided by evaluation. *)
Lemma forall_6bit (P : Z -> Prop) :
  Forall (fun i => P (Z.of_nat i)) (seq 0 64) -> forall v, 0 <= v < 64 -> P v.
Proof.
  intros H v Hv. rewrite Forall_forall in H.
  rewrite <- (Z2Nat.id v) by lia. apply H, elem_of_seq. lia.
Qed.

Lemma to_from_u8 (v : Z) :
  0 <= v < 64 -> Opcode.to_u8 (Opcode.from_u8 v) = v /\ valid_opcode (Opcode.from_u8 v).
Proof.
  revert v. apply forall_6bit. repeat constructor; discriminate.
Qed.

Lemma encode_arith (op : Opcode.t) (r s i : Z) :
  encode op r s i
  = Opcode.to_u8 op mod 64 * 2 ^ 26 + r mod 16 * 2 ^ 22 + s mod 16 * 2 ^ 18 + i mod 2 ^ 18.
Proof.
  unfold encode. bits_to_arith.
  rewrite !Z.shiftl_mul_pow2 by lia.
  set (a := _ mod 64). set (b := r mod 16). set (c := s mod 16). set (e := i mod 262144).
  assert (0 <= a < 64) by (apply Z.mod_pos_bound; lia).
  assert (0 <= b < 16) by (apply Z.mod_pos_bound; lia).
  assert (0 <= c < 16) by (apply Z.mod_pos_bound; lia).
  assert (0 <= e < 2 ^ 18) by (apply Z.mod_pos_bound; lia).
  rewrite <- (Z.shiftl_mul_pow2 a), (lor_disjoint_add a), Z.shiftl_mul_pow2 by lia.
  replace (a * 2 ^ 26 + b * 2 ^ 22) with (Z.shiftl (a * 2 ^ 4 + b) 22)
    by (rewrite Z.shiftl_mul_pow2; lia).
  rewrite lor_disjoint_add by lia.
  replace ((a * 2 ^ 4 + b) * 2 ^ 22 + c * 2 ^ 18) with (Z.shiftl ((a * 2 ^ 4 + b) * 2 ^ 4 + c) 18)
    by (rewrite Z.shiftl_mul_pow2; lia).
  rewrite lor_disjoint_add by lia. rewrite !Z.shiftl_mul_pow2 by lia.
  change (i mod 2 ^ 18) with e. lia.
Qed.

Lemma decode_wf (w : Z) : 0 <= w -> wf_decoded (decode w).
Proof.
  intros Hw. unfold wf_decoded, decode; cbn [opcode rd rs1 rs2_or_imm]. bits_to_arith.
  split; [apply to_from_u8; apply Z.mod_pos_bound; lia|].
  repeat split; apply Z.mod_pos_bound; lia.
Qed.

Lemma encode_range (op : Opcode.t) (r s i : Z) : in_range u32 (encode op r s i).
Proof.
  rewrite encode_arith. unfold in_range.
  pose proof (Z.mod_pos_bound (Opcode.to_u8 op) 64).
  pose proof (Z.mod_pos_bound r 16). pose proof (Z.mod_pos_bound s 16).
  pose proof (Z.mod_pos_bound i (2 ^ 18)). lia.
Qed.

Lemma word_fields (o r s i : Z) :
  0 <= o < 64 -> 0 <= r < 16 -> 0 <= s < 16 -> 0 <= i < 2 ^ 18 ->
  let w := o * 2 ^ 26 + r * 2 ^ 22 + s * 2 ^ 18 + i in
  (w / 2 ^ 26) mod 64 = o /\ (w / 2 ^ 22) mod 16 = r /\ (w / 2 ^ 18) mod 16 = s /\
  w mod 262144 = i.
Proof. intros. subst w. repeat split; lia_pow. Qed.

Lemma decode_encode_fields (d : DecodedInstruction) :
  wf_decoded d ->
  decode (encode (opcode d) (rd d) (rs1 d) (rs2_or_imm d)) = d.
Proof.
  destruct d as [op r s i]; intros (Hop & Hr & Hs & Hi); simpl in *.
  pose proof (to_u8_range _ Hop) as Ho.
  destruct (word_fields (Opcode.to_u8 op) r s i) as (E1 & E2 & E3 & E4); [lia..|].
  unfold decode. bits_to_arith. rewrite encode_arith.
  rewrite (Z.mod_small (Opcode.to_u8 op)), (Z.mod_small r), (Z.mod_small s), (Z.mod_small i) by lia.
  by rewrite E1, E2, E3, E4, from_to_u8.
Qed.

(** The instruction codec is a bijection between well-formed decoded
    instructions and 32-bit words: decoding an encoded instruction gives back
    its opcode, registers and immediate. *)
Theorem decode_encode (d : DecodedInstruction) :
  wf_decoded d ->
  decode (encode (opcode d) (rd d) (rs1 d) (rs2_or_imm d)) = d.
Proof. apply decode_encode_fields. Qed.

Lemma decode_encode_witness :
  wf_decoded (mkDecoded Opcode.Addi 3 0 0x3FFFF) /\
  decode (encode Opcode.Addi 3 0 0x3FFFF) = mkDecoded Opcode.Addi 3 0 0x3FFFF.
Proof.
  assert (wf_decoded (mkDecoded Opcode.Addi 3 0 0x3FFFF)) as H.
  { split; [intros [=]|simpl; lia]. }
  split; [exact H|exact (decode_encode _ H)].
Defined.

(** The other half of the bijection: every 32-bit word is the encoding of
    its decoded fields, so no word decodes to [Opcode::Invalid] and re-encoding
    a decoded instruction, as the interpreter does for wide operations, loses
    nothing. *)
Theorem encode_decode (w : Z) :
  in_range u32 w ->
  encode (opcode (decode w)) (rd (decode w)) (rs1 (decode w)) (rs2_or_imm (decode w)) = w
  /\ opcode (decode w) <> Opcode.Invalid.
Proof.
  intros Hw. unfold in_range in Hw. split; [|apply (decode_wf w); lia].
  rewrite encode_arith. unfold decode; cbn [opcode rd rs1 rs2_or_imm]. bits_to_arith.
  destruct (to_from_u8 ((w / 2 ^ 26) mod 64)) as [-> _]; [apply Z.mod_pos_bound; lia|].
  lia_pow.
Qed.

Lemma encode_decode_witness :
  in_range u32 0xFFFFFFFF /\
  encode (opcode (decode 0xFFFFFFFF)) (rd (decode 0xFFFFFFFF)) (rs1 (decode 0xFFFFFFFF))
    (rs2_or_imm (decode 0xFFFFFFFF)) = 0xFFFFFFFF.
Proof.
  split; [unfold in_range; lia|].
  apply (encode_decode 0xFFFFFFFF). unfold in_range; lia.
Defined.

(** ** Immediates *)

Lemma testbit_top (x n : Z) :
  0 <= n -> 0 <= x < 2 ^ (n + 1) -> Z.testbit x n = (2 ^ n <=? x).
Proof.
  intros Hn Hx. rewrite Z.pow_add_r in Hx by lia.
  destruct (Z.leb_spec (2 ^ n) x).
  - apply Z.testbit_true; [lia|].
    by rewrite <- (Z.div_unique x (2 ^ n) 1 (x - 2 ^ n)) by lia.
  - apply Z.testbit_false; [lia|]. by rewrite Z.div_small by lia.
Qed.

(** Sign extension of an [n + 1]-bit field inside a 32-bit word. *)
Lemma sign_extend_arith (x n hi : Z) :
  0 <= n -> 0 <= x < 2 ^ (n + 1) -> hi * 2 ^ (n + 1) = 2 ^ 32 - 2 ^ (n + 1) -> 0 <= hi -> n < 31 ->
  (if negb (Z.land x (Z.shiftl 1 n) =? 0)
   then to_signed u32 (Z.lor x (hi * 2 ^ (n + 1)))
   else to_signed u32 x)
  = if 2 ^ n <=? x then x - 2 ^ (n + 1) else x.
Proof.
  intros Hn Hx Hhi Hhi0 Hn31. rewrite test_bit_pow2, negb_involutive, testbit_top by lia.
  assert (2 ^ (n + 1) <= 2 ^ 31) by (apply Z.pow_le_mono_r; lia).
  rewrite Z.pow_add_r in * by lia.
  destruct (Z.leb_spec (2 ^ n) x); unfold to_signed.
  - rewrite Z.lor_comm, <- Z.pow_add_r, <- Z.shiftl_mul_pow2 by lia.
    rewrite lor_disjoint_add, Z.pow_add_r by (rewrite ?Z.pow_add_r; lia).
    rewrite Hhi. case_tests; lia_pow.
  - case_tests; lia_pow.
Qed.

Lemma sign_extend_18_arith (raw : Z) :
  0 <= raw < 2 ^ 18 -> sign_extend_18 raw = if 131072 <=? raw then raw - 262144 else raw.
Proof.
  intros H. unfold sign_extend_18. bits_to_arith. rewrite Z.mod_small by lia_pow.
  exact (sign_extend_arith raw 17 16383 ltac:(lia) H eq_refl ltac:(lia) ltac:(lia)).
Qed.

Lemma decode_mem_offset_arith (raw : Z) :
  0 <= raw < 2 ^ 18 ->
  decode_mem_offset raw = if 131072 <=? raw then raw / 4 - 65536 else raw / 4.
Proof.
  intros H. unfold decode_mem_offset. bits_to_arith.
  rewrite Z.mod_small by lia_pow.
  etrans; [apply (sign_extend_arith (raw / 2 ^ 2) 15 65535); lia_pow|].
  change (2 ^ (15 + 1)) with 65536. eval_pow2. destruct (Z.leb_spec 131072 raw), (Z.leb_spec 32768 (raw / 4)); lia_pow.
Qed.

(** Encoding a signed immediate fails exactly outside [[-131072, 131071]];
    inside, sign extension is its inverse on both sides. *)
Theorem immediate_roundtrip :
  (forall v, encode_immediate v = None <-> ~ (-131072 <= v <= 131071)) /\
  (forall v raw, encode_immediate v = Some raw -> sign_extend_18 raw = v /\ 0 <= raw < 2 ^ 18) /\
  (forall raw, 0 <= raw < 2 ^ 18 -> encode_immediate (sign_extend_18 raw) = Some raw).
Proof.
  assert (Hin : forall v, -131072 <= v <= 131071 -> encode_immediate v = Some (v mod 262144)).
  { intros v Hv. unfold encode_immediate. case_tests; [lia|].
    bits_to_arith. unfold of_signed. f_equal. lia_pow. }
  assert (Hout : forall v, ~ (-131072 <= v <= 131071) -> encode_immediate v = None).
  { intros v Hv. unfold encode_immediate. case_tests; [done|].
    apply negb_false_iff in Heqb. simp_ineq. lia. }
  split_and!.
  - intros v. split; [|apply Hout]. intros E Hv. by rewrite Hin in E.
  - intros v raw E. destruct (decide (-131072 <= v <= 131071)) as [Hv|Hv];
      [|by rewrite Hout in E]. rewrite Hin in E by done. simplify_eq.
    assert (0 <= v mod 262144 < 2 ^ 18) by (apply Z.mod_pos_bound; lia).
    rewrite sign_extend_18_arith by done. case_tests; lia_pow.
  - intros raw Hraw. rewrite sign_extend_18_arith by done.
    rewrite Hin by (case_tests; lia_pow). f_equal. case_tests; lia_pow.
Qed.

Lemma decode_mem_width_u32 (w : MemWidth) (x : Z) :
  decode_mem_width (4 * x + mem_width_u32 w) = w.
Proof.
  unfold decode_mem_width. rewrite land_2.
  replace ((4 * x + mem_width_u32 w) mod 4) with (mem_width_u32 w)
    by (destruct w; simpl; lia_pow).
  by destruct w.
Qed.

(** A memory immediate packs a signed 16-bit offset and an access width, and
    both are read back; an offset outside 16 bits is refused. *)
Theorem mem_immediate_roundtrip (offset : Z) (width : MemWidth) :
  match encode_mem_immediate offset width with
  | Some raw => -32768 <= offset <= 32767 /\ 0 <= raw < 2 ^ 18 /\
      decode_mem_offset raw = offset /\ decode_mem_width raw = width
  | None => ~ (-32768 <= offset <= 32767)
  end.
Proof.
  unfold encode_mem_immediate. destruct (negb _) eqn:E.
  { apply negb_true_iff, andb_false_iff in E. intros []. destruct E; simp_ineq; lia. }
  apply negb_false_iff in E. simp_ineq. split; [lia|].
  rewrite land_16. unfold of_signed, wrap, RS2_IMM_MASK.
  rewrite Z.shiftl_mul_pow2 by lia.
  set (o := (offset mod 2 ^ 32) mod 65536).
  assert (Ho : 0 <= o < 65536) by (apply Z.mod_pos_bound; lia).
  assert (Eo : o = offset mod 65536) by (unfold o; lia_pow).
  assert (Hw : 0 <= mem_width_u32 width < 2 ^ 2) by (destruct width; simpl; lia).
  rewrite (Z.mod_small (o * 2 ^ 2)) by lia_pow.
  rewrite <- Z.shiftl_mul_pow2, lor_disjoint_add, land_18, Z.mod_small by lia_pow.
  replace (o * 2 ^ 2 + mem_width_u32 width) with (4 * o + mem_width_u32 width) by lia.
  split; [lia_pow|]. rewrite decode_mem_width_u32. split; [|done].
  rewrite decode_mem_offset_arith by lia_pow. clearbody o. case_tests; lia_pow.
Qed.

(** ** Gas *)

(** Every opcode costs what the gas function says, looked up in the table the
    interpreter uses; the cheapest opcode costs 3. *)
Theorem total_gas_is_gas_cost (op : Opcode.t) :
  op <> Opcode.Invalid ->
  total_gas (Opcode.to_u8 op) = gas_cost op /\ 3 <= gas_cost op <= 32000.
Proof. destruct op; intros H; (split; [reflexivity|simpl; lia]) || by destruct H. Qed.

Lemma total_gas_is_gas_cost_witness :
  Opcode.Create <> Opcode.Invalid /\ total_gas (Opcode.to_u8 Opcode.Create) = 32000.
Proof.
  assert (Opcode.Create <> Opcode.Invalid) as H by discriminate.
  split; [exact H|exact (proj1 (total_gas_is_gas_cost _ H))].
Defined.

Lemma total_gas_bounds (op : Opcode.t) : 3 <= total_gas (Opcode.to_u8 op) <= 32000.
Proof. by destruct op. Qed.

Lemma ALL_OPCODES_complete (op : Opcode.t) :
  op ∈ Opcode.ALL_OPCODES <-> op <> Opcode.Invalid.
Proof.
  split; [|by destruct op; intros H; [repeat constructor..|destruct H]].
  intros H ->. by apply list_elem_of_In in H; simpl in H; repeat destruct H as [H|H].
Qed.
