(* ===== verification/Cpu.v ===== *)
(** * The PVM register file ([crates/pvm/src/cpu.rs], [crates/pvm/src/wide.rs])

    Checked 256-bit arithmetic, the sixteen 64-bit and eight 256-bit registers,
    and the two reference executors [exec_alu] and [exec_wide].  [ethnum]'s
    [U256] is a 256-bit unsigned integer and is kept as a [Z]. *)

From S2P Require Import Prelude Isa.
From stdpp Require Import base numbers list option.
From Stdlib Require Import ZArith Lia.

#[local] Open Scope Z_scope.
#[local] Open Scope pyde_scope.

(** ** Traps *)

Inductive Trap : Type :=
| Overflow
| Underflow
| DivisionByZero
| InvalidOpcode
| NarrowOverflow
| MemoryFault
| StackOverflow
| StackUnderflow
| OutOfGas
| StaticModeViolation
| Reentrancy
| AccessListViolation.

#[global] Instance Trap_eq_dec : EqDecision Trap.
Proof. solve_decision. Defined.

(** ** Wide arithmetic ([wide.rs]) *)

Definition wide_add (a b : Z) : Result Z Trap := ok_or (checked_add u256 a b) Overflow.
Definition wide_sub (a b : Z) : Result Z Trap := ok_or (checked_sub a b) Underflow.
Definition wide_mul (a b : Z) : Result Z Trap := ok_or (checked_mul u256 a b) Overflow.
Definition wide_div (a b : Z) : Result Z Trap := ok_or (checked_div a b) DivisionByZero.
Definition wide_mod (a b : Z) : Result Z Trap := ok_or (checked_rem a b) DivisionByZero.

Definition narrow (val : Z) : option Z :=
  if max_of u64 <? val then None else Some (wrap u64 val).

(** ** Registers *)

Record Cpu : Type := mkCpu {
  gp : list Z;
  wide : list Z
}.

Definition Cpu_new : Cpu :=
  {| gp := replicate GP_REG_COUNT 0; wide := replicate WIDE_REG_COUNT 0 |}.

Definition set_gp (l : list Z) (c : Cpu) : Cpu := {| gp := l; wide := wide c |}.
Definition set_wide (l : list Z) (c : Cpu) : Cpu := {| gp := gp c; wide := l |}.

(** Indexing outside the arrays would panic; register fields are 4 bits wide
    ([Isa.decode_wf]) and wide indices are masked or checked. *)
Definition read_gp (reg : Z) (c : Cpu) : Z :=
  if reg =? 0 then 0 else default 0 (gp c !! Z.to_nat reg).

Definition write_gp (reg val : Z) (c : Cpu) : Cpu :=
  if negb (reg =? 0) then set_gp (<[Z.to_nat reg := val]> (gp c)) c else c.

Definition read_wide (reg : Z) (c : Cpu) : Z :=
  default 0 (wide c !! Z.to_nat (Z.land reg 0x07)).

Definition write_wide (reg val : Z) (c : Cpu) : Cpu :=
  set_wide (<[Z.to_nat (Z.land reg 0x07) := val]> (wide c)) c.

Definition read_wide_checked (reg : Z) (c : Cpu) : Result Z Trap :=
  if Z.of_nat WIDE_REG_COUNT <=? reg then Err InvalidOpcode
  else Ok (default 0 (wide c !! Z.to_nat reg)).

Definition write_wide_checked (reg val : Z) : ST Cpu Trap unit := fun c =>
  if Z.of_nat WIDE_REG_COUNT <=? reg then (c, Err InvalidOpcode)
  else (set_wide (<[Z.to_nat reg := val]> (wide c)) c, Ok tt).

(** [if c { 1 } else { 0 }] *)
Definition b2z (b : bool) : Z := if b then 1 else 0.

Definition not64 (x : Z) : Z := Z.lxor x (max_of u64).
Definition not256 (x : Z) : Z := Z.lxor x (max_of u256).

(** ** The 64-bit executor *)

(** The second operand's register: [d.rs2_or_imm as u8 & 0x0F]. *)
Definition rs2_reg (d : DecodedInstruction) : Z := Z.land (wrap u8 (rs2_or_imm d)) 0x0F.

Definition exec_alu (instr : Z) : ST Cpu Trap unit :=
  let d := decode instr in
  a <-- gets (read_gp (rs1 d)) ;;
  b <-- gets (read_gp (rs2_reg d)) ;;
  match opcode d with
  | Opcode.Add => r <-- lift_result (ok_or (checked_add u64 a b) Overflow) ;; modify (write_gp (rd d) r)
  | Opcode.Sub => r <-- lift_result (ok_or (checked_sub a b) Underflow) ;; modify (write_gp (rd d) r)
  | Opcode.Mul => r <-- lift_result (ok_or (checked_mul u64 a b) Overflow) ;; modify (write_gp (rd d) r)
  | Opcode.Div => r <-- lift_result (ok_or (checked_div a b) DivisionByZero) ;; modify (write_gp (rd d) r)
  | Opcode.Mod => if b =? 0 then throw DivisionByZero else modify (write_gp (rd d) (a mod b))
  | Opcode.Addi =>
      let imm := sign_extend_18 (rs2_or_imm d) in
      let sum := to_signed u64 a + imm in
      (* i64::checked_add *)
      if (- 2 ^ 63 <=? sum) && (sum <? 2 ^ 63)
      then modify (write_gp (rd d) (of_signed u64 sum)) else throw Overflow
  | Opcode.And => modify (write_gp (rd d) (Z.land a b))
  | Opcode.Or => modify (write_gp (rd d) (Z.lor a b))
  | Opcode.Xor => modify (write_gp (rd d) (Z.lxor a b))
  | Opcode.Not => modify (write_gp (rd d) (not64 a))
  | Opcode.Shl => modify (write_gp (rd d) (if 64 <=? b then 0 else wrap u64 (Z.shiftl a b)))
  | Opcode.Shr => modify (write_gp (rd d) (if 64 <=? b then 0 else Z.shiftr a b))
  | Opcode.Sar =>
      let signed := to_signed u64 a in
      modify (write_gp (rd d)
        (if 64 <=? b then (if signed <? 0 then of_signed u64 (-1) else 0)
         else of_signed u64 (Z.shiftr signed b)))
  | Opcode.Lt => modify (write_gp (rd d) (b2z (a <? b)))
  | Opcode.Gt => modify (write_gp (rd d) (b2z (b <? a)))
  | Opcode.Eq => modify (write_gp (rd d) (b2z (a =? b)))
  | Opcode.Slt => modify (write_gp (rd d) (b2z (to_signed u64 a <? to_signed u64 b)))
  | Opcode.Sgt => modify (write_gp (rd d) (b2z (to_signed u64 b <? to_signed u64 a)))
  | _ => throw InvalidOpcode
  end.

(** ** The 256-bit executor *)

(** [let ws1 = ..?; let ws2 = ..?; let r = f(ws1, ws2)?; write_wide_checked] *)
Definition exec_wide_binop (d : DecodedInstruction) (f : Z -> Z -> Result Z Trap) : ST Cpu Trap unit :=
  r1 <-- gets (read_wide_checked (rs1 d)) ;;
  ws1 <-- lift_result r1 ;;
  r2 <-- gets (read_wide_checked (wrap u8 (rs2_or_imm d))) ;;
  ws2 <-- lift_result r2 ;;
  result <-- lift_result (f ws1 ws2) ;;
  write_wide_checked (rd d) result.

(** The comparisons read two wide registers and write a 64-bit one. *)
Definition exec_wide_cmp (d : DecodedInstruction) (f : Z -> Z -> bool) : ST Cpu Trap unit :=
  r1 <-- gets (read_wide_checked (rs1 d)) ;;
  ws1 <-- lift_result r1 ;;
  r2 <-- gets (read_wide_checked (wrap u8 (rs2_or_imm d))) ;;
  ws2 <-- lift_result r2 ;;
  modify (write_gp (rd d) (b2z (f ws1 ws2))).

Definition exec_wide (instr : Z) : ST Cpu Trap unit :=
  let d := decode instr in
  match opcode d with
  | Opcode.Wadd => exec_wide_binop d wide_add
  | Opcode.Wsub => exec_wide_binop d wide_sub
  | Opcode.Wmul => exec_wide_binop d wide_mul
  | Opcode.Wdiv => exec_wide_binop d wide_div
  | Opcode.Wmod => exec_wide_binop d wide_mod
  | Opcode.Wand => exec_wide_binop d (fun x y => Ok (Z.land x y))
  | Opcode.Wor => exec_wide_binop d (fun x y => Ok (Z.lor x y))
  | Opcode.Wxor => exec_wide_binop d (fun x y => Ok (Z.lxor x y))
  | Opcode.Wnot =>
      r1 <-- gets (read_wide_checked (rs1 d)) ;;
      ws1 <-- lift_result r1 ;;
      write_wide_checked (rd d) (not256 ws1)
  | Opcode.Wshift =>
      r1 <-- gets (read_wide_checked (rs1 d)) ;;
      ws1 <-- lift_result r1 ;;
      let dir := Z.land (rs2_or_imm d) 1 in
      let shift_reg := Z.land (Z.shiftr (rs2_or_imm d) 1) 0xF in
      v <-- gets (read_gp shift_reg) ;;
      let shift := wrap u32 v in
      let result :=
        if 256 <=? shift then 0
        else if dir =? 0 then wrap u256 (Z.shiftl ws1 shift)
        else Z.shiftr ws1 shift in
      write_wide_checked (rd d) result
  | Opcode.Wmov =>
      r1 <-- gets (read_wide_checked (rs1 d)) ;;
      ws1 <-- lift_result r1 ;;
      write_wide_checked (rd d) ws1
  | Opcode.Narrow =>
      r1 <-- gets (read_wide_checked (rs1 d)) ;;
      ws1 <-- lift_result r1 ;;
      val <-- lift_result (ok_or (narrow ws1) NarrowOverflow) ;;
      modify (write_gp (rd d) val)
  | Opcode.Widen =>
      val <-- gets (read_gp (rs1 d)) ;;
      write_wide_checked (rd d) val
  | Opcode.Weq => exec_wide_cmp d Z.eqb
  | Opcode.Wlt => exec_wide_cmp d Z.ltb
  | _ => throw InvalidOpcode
  end.

(** ** The register file's invariant *)

Definition wf_cpu (c : Cpu) : Prop :=
  length (gp c) = GP_REG_COUNT /\ length (wide c) = WIDE_REG_COUNT /\
  Forall (in_range u64) (gp c) /\ Forall (in_range u256) (wide c).

(** Operations keep a well-formed register file well-formed. *)
Definition keeps_cpu (c c' : Cpu) : Prop := wf_cpu c -> wf_cpu c'.

#[global] Instance keeps_cpu_preorder : PreOrder keeps_cpu.
Proof. split; unfold keeps_cpu; [intros c|intros c1 c2 c3]; tauto. Qed.

Lemma default_lookup_range (w : Z) (l : list Z) (i : nat) :
  0 <= w -> Forall (in_range w) l -> in_range w (default 0 (l !! i)).
Proof.
  intros Hw Hl. destruct (l !! i) eqn:E; simpl.
  - by eapply Forall_lookup_1 in Hl.
  - unfold in_range. pose proof (Z.pow_pos_nonneg 2 w). lia.
Qed.

Lemma read_gp_range (r : Z) (c : Cpu) : wf_cpu c -> in_range u64 (read_gp r c).
Proof.
  intros (_ & _ & H & _). unfold read_gp. case_tests; [done|by apply default_lookup_range].
Qed.

Lemma read_wide_range (r : Z) (c : Cpu) : wf_cpu c -> in_range u256 (read_wide r c).
Proof. intros (_ & _ & _ & H). by apply default_lookup_range. Qed.

Lemma read_wide_checked_range (r v : Z) (c : Cpu) :
  wf_cpu c -> read_wide_checked r c = Ok v -> in_range u256 v.
Proof.
  intros (_ & _ & _ & H). unfold read_wide_checked. case_tests; intros [= <-].
  by apply default_lookup_range.
Qed.

Lemma write_gp_wf (r v : Z) (c : Cpu) : in_range u64 v -> wf_cpu c -> wf_cpu (write_gp r v c).
Proof.
  intros Hv (H1 & H2 & H3 & H4). unfold write_gp. destruct (negb _); [|done].
  split_and!; simpl; rewrite ?length_insert; try done. by apply Forall_insert.
Qed.

Lemma write_wide_wf (r v : Z) (c : Cpu) : in_range u256 v -> wf_cpu c -> wf_cpu (write_wide r v c).
Proof.
  intros Hv (H1 & H2 & H3 & H4).
  split_and!; simpl; rewrite ?length_insert; try done. by apply Forall_insert.
Qed.

Lemma write_wide_checked_wf (r v : Z) (c : Cpu) :
  in_range u256 v -> wf_cpu c -> wf_cpu (write_wide_checked r v c).1.
Proof.
  intros Hv (H1 & H2 & H3 & H4). unfold write_wide_checked. case_tests; [done|].
  split_and!; simpl; rewrite ?length_insert; try done. by apply Forall_insert.
Qed.

Lemma Cpu_new_wf : wf_cpu Cpu_new.
Proof. split_and!; [done..| |]; by apply Forall_replicate. Qed.

Lemma read_write_gp (r r' v : Z) (c : Cpu) :
  wf_cpu c -> 0 <= r < 16 -> 0 <= r' < 16 ->
  read_gp r' (write_gp r v c) = if (r =? r') && negb (r =? 0) then v else read_gp r' c.
Proof.
  intros (H1 & _) Hr Hr'. unfold read_gp, write_gp.
  destruct (Z.eqb_spec r 0) as [->|]; [by rewrite andb_false_r|]. rewrite andb_true_r. simpl.
  destruct (Z.eqb_spec r' 0) as [->|]; [case_tests; lia|].
  destruct (Z.eqb_spec r r') as [<-|].
  - rewrite list_lookup_insert_eq; [done|]. rewrite H1. unfold GP_REG_COUNT. lia.
  - by rewrite list_lookup_insert_ne by lia.
Qed.

Lemma b2z_range (b : bool) : in_range u64 (b2z b).
Proof. by destruct b. Qed.

Lemma of_signed_range (x : Z) : in_range u64 (of_signed u64 x).
Proof. apply Z.mod_pos_bound. done. Qed.

#[export] Hint Resolve read_gp_range read_wide_range b2z_range of_signed_range
  write_gp_wf write_wide_wf write_wide_checked_wf : pyde.

(** Runs an executor on a register file: evaluates the monad and splits on
    the results of the fallible parts. *)
Ltac run_cpu :=
  unfold bind, gets, lift_result, modify, throw in *; cbn [fst snd];
  repeat (match goal with
  | |- context [match ?x with Ok _ => _ | Err _ => _ end] =>
      lazymatch x with context [match _ with Ok _ => _ | Err _ => _ end] => fail | _ => idtac end;
      destruct x eqn:?
  | |- context [if ?b then _ else _] => destruct b eqn:?
  end; cbn [fst snd]);
  repeat match goal with H : ok_or _ _ = Ok _ |- _ => apply ok_or_Ok in H end.

Lemma exec_alu_wf (instr : Z) (c : Cpu) : wf_cpu c -> wf_cpu (exec_alu instr c).1.
Proof.
  intros Hc. unfold exec_alu.
  pose proof (read_gp_range (rs1 (decode instr)) c Hc) as Ha.
  pose proof (read_gp_range (rs2_reg (decode instr)) c Hc) as Hb.
  set (d := decode instr) in *. clearbody d. unfold bind at 1 2. cbn.
  set (a := read_gp (rs1 d) c) in *. set (b := read_gp (rs2_reg d) c) in *. clearbody a b.
  destruct (opcode d); try exact Hc; run_cpu; try exact Hc;
    apply write_gp_wf; eauto with pyde.
  all: unfold not64; eauto with pyde.
Qed.

Lemma wide_ops_range (f : Z -> Z -> Result Z Trap) (x y r : Z) :
  In f [wide_add; wide_sub; wide_mul; wide_div; wide_mod] ->
  f x y = Ok r -> in_range u256 x -> in_range u256 y -> in_range u256 r.
Proof.
  intros Hf E Hx Hy. simpl in Hf.
  destruct Hf as [<-|[<-|[<-|[<-|[<-|[]]]]]]; apply ok_or_Ok in E; eauto with pyde.
Qed.

Lemma exec_wide_binop_wf (d : DecodedInstruction) (f : Z -> Z -> Result Z Trap) (c : Cpu) :
  (forall x y r, f x y = Ok r -> in_range u256 x -> in_range u256 y -> in_range u256 r) ->
  wf_cpu c -> wf_cpu (exec_wide_binop d f c).1.
Proof.
  intros Hf Hc. unfold exec_wide_binop. run_cpu; try done.
  apply write_wide_checked_wf; [|done].
  eapply Hf; [done|by eapply read_wide_checked_range..].
Qed.

Lemma exec_wide_wf (instr : Z) (c : Cpu) : wf_cpu c -> wf_cpu (exec_wide instr c).1.
Proof.
  intros Hc. unfold exec_wide. set (d := decode instr). clearbody d.
  destruct (opcode d); try exact Hc.
  1-5: apply exec_wide_binop_wf; [|done]; intros; eapply wide_ops_range; eauto; simpl; tauto.
  1-3: apply exec_wide_binop_wf; [|done]; intros ??? [= <-]; auto with pyde.
  all: unfold exec_wide_cmp; run_cpu; try exact Hc;
    repeat match goal with
    | H : read_wide_checked _ _ = Ok _ |- _ => apply (read_wide_checked_range _ _ _ Hc) in H
    end.
  all: try (apply write_wide_checked_wf; [unfold not256|done]; eauto with pyde).
  all: try (apply write_gp_wf; [|done]; eauto with pyde).
  - apply shiftr_range; [apply wrap_range; lia|done].
  - unfold narrow in *. case_tests. simplify_eq. auto with pyde.
  - pose proof (read_gp_range (rs1 d) c Hc). eapply in_range_weaken; [|done]. lia.
Qed.

(** A trapped 64-bit or wide instruction leaves the register file as it was. *)
Lemma exec_alu_trap (instr : Z) (c c' : Cpu) (t : Trap) :
  exec_alu instr c = (c', Err t) -> c' = c.
Proof.
  unfold exec_alu. set (d := decode instr). clearbody d.
  destruct (opcode d); run_cpu; intros; simplify_eq; done.
Qed.

Lemma exec_wide_trap (instr : Z) (c c' : Cpu) (t : Trap) :
  exec_wide instr c = (c', Err t) -> c' = c.
Proof.
  unfold exec_wide. set (d := decode instr). clearbody d.
  destruct (opcode d);
    unfold exec_wide_binop, exec_wide_cmp, write_wide_checked; run_cpu; intros; simplify_eq; done.
Qed.

(** The reference executors keep the register file well-formed (sixteen
    64-bit and eight 256-bit values), never make [r0] readable as anything but
    zero, and an instruction that traps changes no register. *)
Theorem exec_preserves_registers (instr : Z) (c : Cpu) :
  wf_cpu c ->
  let alu := exec_alu instr c in
  let wide := exec_wide instr c in
  wf_cpu alu.1 /\ wf_cpu wide.1 /\ read_gp 0 alu.1 = 0 /\ read_gp 0 wide.1 = 0 /\
  (is_ok alu.2 = false -> alu.1 = c) /\ (is_ok wide.2 = false -> wide.1 = c).
Proof.
  intros Hc alu wide. subst alu wide. split_and!; try done.
  - by apply exec_alu_wf.
  - by apply exec_wide_wf.
  - destruct (exec_alu instr c) as [c' [|t]] eqn:E; [done|]. intros _. by apply exec_alu_trap in E.
  - destruct (exec_wide instr c) as [c' [|t]] eqn:E; [done|]. intros _. by apply exec_wide_trap in E.
Qed.

Lemma exec_preserves_registers_witness :
  wf_cpu Cpu_new /\
  wf_cpu (exec_alu (encode Opcode.Div 1 2 3) Cpu_new).1 /\
  (exec_alu (encode Opcode.Div 1 2 3) Cpu_new).1 = Cpu_new.
Proof.
  pose proof (exec_preserves_registers (encode Opcode.Div 1 2 3) Cpu_new Cpu_new_wf) as H.
  split; [exact Cpu_new_wf|]. split; [exact (proj1 H)|].
  apply (proj1 (proj2 (proj2 (proj2 (proj2 H))))). reflexivity.
Defined.

(** The wide shift truncates its amount to 32 bits before it compares it with
    256, so an amount that is a multiple of [2^32] leaves the value unshifted
    instead of producing zero. *)
Theorem wshift_truncates_amount (c : Cpu) (d : DecodedInstruction) (ws : Z) :
  wf_cpu c -> wf_decoded d -> opcode d = Opcode.Wshift -> rd d < 8 -> rs1 d < 8 ->
  read_wide_checked (rs1 d) c = Ok ws ->
  read_gp (Z.land (Z.shiftr (rs2_or_imm d) 1) 0xF) c mod 2 ^ 32 = 0 ->
  exec_wide (encode (opcode d) (rd d) (rs1 d) (rs2_or_imm d)) c
  = (set_wide (<[Z.to_nat (rd d) := ws]> (wide c)) c, Ok tt).
Proof.
  intros Hc Hd Hop Hrd Hrs Hws Hv.
  assert (Hr : in_range u256 ws) by by eapply read_wide_checked_range.
  unfold exec_wide. rewrite decode_encode_fields, Hop by done.
  unfold bind, gets, lift_result. rewrite Hws.
  change (read_gp ?r c mod 2 ^ 32) with (wrap u32 (read_gp r c)) in Hv. cbv zeta. rewrite Hv.
  unfold write_wide_checked. rewrite Z.shiftl_0_r, Z.shiftr_0_r, (wrap_small u256) by done.
  change (256 <=? 0) with false. cbn [fst snd].
  destruct (Z.leb_spec (Z.of_nat WIDE_REG_COUNT) (rd d)); [unfold WIDE_REG_COUNT in *; lia|].
  by destruct (Z.land _ 1 =? 0).
Qed.

Lemma wshift_truncates_amount_witness :
  let c := write_gp 3 (2 ^ 32) (write_wide 1 7 Cpu_new) in
  let d := {| opcode := Opcode.Wshift; rd := 2; rs1 := 1; rs2_or_imm := 6 |} in
  exec_wide (encode (opcode d) (rd d) (rs1 d) (rs2_or_imm d)) c
  = (set_wide (<[Z.to_nat (rd d) := 7]> (wide c)) c, Ok tt).
Proof.
  intros c d. apply (wshift_truncates_amount c d 7); [| |reflexivity..].
  - apply write_gp_wf; [split; [lia|reflexivity]|].
    apply write_wide_wf; [split; [lia|reflexivity]|exact Cpu_new_wf].
  - unfold wf_decoded, valid_opcode; cbn; split; [discriminate|lia].
Defined.
