(* ===== verification/Memory.v ===== *)
(** * PVM linear memory ([crates/pvm/src/memory.rs])

    A 4 MB address space of lazily allocated 4 KB pages, a gas charge for the
    first touch of each page, a write-protected code section, and heap and
    stack bump pointers.  The theorems show that it is a flat byte array to its
    clients, that no store reaches the null page or the code, and that each
    page is charged exactly once. *)

From S2P Require Import Prelude.
From stdpp Require Import base numbers list option.
From Stdlib Require Import ZArith Lia.

#[local] Open Scope Z_scope.
#[local] Open Scope pyde_scope.

Definition MEMORY_SIZE : Z := 4 * 1024 * 1024.
Definition PAGE_SIZE : Z := 4096.
Definition PAGE_COUNT : Z := MEMORY_SIZE / PAGE_SIZE.
Definition NULL_PAGE_END : Z := 0x001000.
Definition CODE_START : Z := 0x001000.
Definition CODE_END : Z := 0x010000.
Definition HEAP_START : Z := 0x010000.
Definition STACK_TOP : Z := MEMORY_SIZE.
Definition PAGE_ALLOC_GAS : Z := 200.

Inductive MemoryError : Type :=
| NullPageAccess (addr : Z)
| OutOfBounds (addr : Z)
| CodeWriteProtected (addr : Z)
| HeapStackCollision.

Record Memory : Type := mkMemory {
  pages : list (option (list Z));
  pages_touched : list bool;
  page_gas_used : Z;
  heap_top : Z;
  stack_pointer : Z;
  code_end : Z
}.

Definition set_pages (p : list (option (list Z))) (m : Memory) : Memory :=
  mkMemory p (pages_touched m) (page_gas_used m) (heap_top m) (stack_pointer m) (code_end m).
Definition set_touched (t : list bool) (g : Z) (m : Memory) : Memory :=
  mkMemory (pages m) t g (heap_top m) (stack_pointer m) (code_end m).
Definition set_page_gas_used (g : Z) (m : Memory) : Memory :=
  mkMemory (pages m) (pages_touched m) g (heap_top m) (stack_pointer m) (code_end m).
Definition set_heap_top (h : Z) (m : Memory) : Memory :=
  mkMemory (pages m) (pages_touched m) (page_gas_used m) h (stack_pointer m) (code_end m).
Definition set_stack_pointer (s : Z) (m : Memory) : Memory :=
  mkMemory (pages m) (pages_touched m) (page_gas_used m) (heap_top m) s (code_end m).
Definition set_code_end (e : Z) (m : Memory) : Memory :=
  mkMemory (pages m) (pages_touched m) (page_gas_used m) (heap_top m) (stack_pointer m) e.

Definition MemM (A : Type) : Type := ST Memory MemoryError A.

Definition Memory_new : Memory :=
  {| pages := replicate (Z.to_nat PAGE_COUNT) None;
     pages_touched := replicate (Z.to_nat PAGE_COUNT) false;
     page_gas_used := 0;
     heap_top := HEAP_START;
     stack_pointer := STACK_TOP;
     code_end := CODE_START |}.

(** ** Bytes *)

(** The page's data, zero-filled when it is materialised here. *)
Definition ensure_page (page_idx : nat) (m : Memory) : list Z :=
  match pages m !! page_idx with
  | Some (Some page) => page
  | _ => replicate (Z.to_nat PAGE_SIZE) 0
  end.

Definition read_byte (addr : Z) (m : Memory) : Z :=
  let page_idx := Z.to_nat (addr / PAGE_SIZE) in
  let offset := Z.to_nat (addr mod PAGE_SIZE) in
  match pages m !! page_idx with
  | Some (Some page) => default 0 (page !! offset)
  | _ => 0
  end.

Definition write_byte (addr val : Z) (m : Memory) : Memory :=
  let page_idx := Z.to_nat (addr / PAGE_SIZE) in
  let offset := Z.to_nat (addr mod PAGE_SIZE) in
  set_pages (<[page_idx := Some (<[offset := val]> (ensure_page page_idx m))]> (pages m)) m.

(** [read_bytes(addr, buf)] with [buf.len() = n]. *)
Definition read_bytes (addr : Z) (n : nat) (m : Memory) : list Z :=
  (fun i : nat => read_byte (wrap u32 (addr + Z.of_nat i)) m) <$> seq 0 n.

(** [write_bytes(addr, data)]; [i] counts the bytes already written. *)
Fixpoint write_bytes_from (addr : Z) (i : Z) (data : list Z) (m : Memory) : Memory :=
  match data with
  | [] => m
  | b :: data' => write_bytes_from addr (i + 1) data' (write_byte (wrap u32 (addr + i)) b m)
  end.

Definition write_bytes (addr : Z) (data : list Z) (m : Memory) : Memory :=
  write_bytes_from addr 0 data m.

Definition load_code (bytecode : list Z) : MemM unit := fun m =>
  let code_top := CODE_START + len bytecode in
  if CODE_END <? code_top then (m, Err (OutOfBounds (wrap u32 code_top)))
  else (set_code_end (wrap u32 code_top) (write_bytes CODE_START bytecode m), Ok tt).

(** ** Access checks *)

Definition touch_page (m : Memory) (page : nat) : Memory :=
  match pages_touched m !! page with
  | Some true => m
  | _ => set_touched (<[page := true]> (pages_touched m))
                     (wrap u64 (page_gas_used m + PAGE_ALLOC_GAS)) m
  end.

(** [for page in first..=last] *)
Definition touch_pages (first last : Z) (m : Memory) : Memory :=
  foldl touch_page m (seq (Z.to_nat first) (Z.to_nat (last + 1 - first))).

Definition check_access (addr n : Z) : MemM unit := fun m =>
  if addr <? NULL_PAGE_END then (m, Err (NullPageAccess addr))
  else
    match checked_add u32 addr n with
    | None => (m, Err (OutOfBounds addr))
    | Some stop =>
        if MEMORY_SIZE <? stop then (m, Err (OutOfBounds addr))
        else (touch_pages (addr / PAGE_SIZE) ((stop - 1) / PAGE_SIZE) m, Ok tt)
    end.

Definition check_writable (addr : Z) : MemM unit := fun m =>
  if (CODE_START <=? addr) && (addr <? CODE_END) then (m, Err (CodeWriteProtected addr))
  else (m, Ok tt).

(** ** Heap and stack *)

Definition heap_alloc (bytes : Z) : MemM Z := fun m =>
  match checked_add u32 (heap_top m) bytes with
  | None => (m, Err (OutOfBounds (heap_top m)))
  | Some new_top =>
      if stack_pointer m <? new_top then (m, Err HeapStackCollision)
      else (set_heap_top new_top m, Ok (heap_top m))
  end.

Definition stack_alloc (bytes : Z) : MemM Z := fun m =>
  match checked_sub (stack_pointer m) bytes with
  | None => (m, Err HeapStackCollision)
  | Some new_sp =>
      if new_sp <? heap_top m then (m, Err HeapStackCollision)
      else (set_stack_pointer new_sp m, Ok new_sp)
  end.

Definition load_bytes (addr n : Z) (m : Memory) : list Z :=
  (fun i : nat => read_byte (wrap u32 (addr + Z.of_nat i)) m) <$> seq 0 (Z.to_nat n).

(** ** Loads and stores, little-endian *)

Definition load8 (addr : Z) : MemM Z :=
  check_access addr 1 ;;; gets (read_byte addr).

Definition store8 (addr val : Z) : MemM unit :=
  check_access addr 1 ;;; check_writable addr ;;; modify (write_byte addr val).

(** [load16], [load32] and [load64] differ in the width [n] of the access. *)
Definition load_le (n : nat) (addr : Z) : MemM Z :=
  check_access addr (Z.of_nat n) ;;; gets (fun m => le_decode (read_bytes addr n m)).

Definition store_le (n : nat) (addr val : Z) : MemM unit :=
  check_access addr (Z.of_nat n) ;;; check_writable addr ;;;
  modify (write_bytes addr (le_encode n val)).

Definition load16 : Z -> MemM Z := load_le 2.
Definition store16 : Z -> Z -> MemM unit := store_le 2.
Definition load32 : Z -> MemM Z := load_le 4.
Definition store32 : Z -> Z -> MemM unit := store_le 4.
Definition load64 : Z -> MemM Z := load_le 8.
Definition store64 : Z -> Z -> MemM unit := store_le 8.

Definition load256 (addr : Z) : MemM (list Z) :=
  check_access addr 32 ;;; gets (read_bytes addr 32).

Definition store256 (addr : Z) (val : list Z) : MemM unit :=
  check_access addr 32 ;;; check_writable addr ;;; modify (write_bytes addr val).

(** ** Slices *)

Definition read_slice (addr n : Z) (m : Memory) : list Z := read_bytes addr (Z.to_nat n) m.

Definition checked_read_slice (addr n : Z) : MemM (list Z) :=
  if n =? 0 then ret []
  else if MEMORY_SIZE <? n then throw (OutOfBounds addr)
  else check_access addr (wrap u32 n) ;;; gets (read_slice addr n).

Definition checked_write_slice (addr : Z) (data : list Z) : MemM unit :=
  if len data =? 0 then ret tt
  else if MEMORY_SIZE <? len data then throw (OutOfBounds addr)
  else
    check_access addr (wrap u32 (len data)) ;;;
    check_writable addr ;;;
    modify (write_bytes addr data).

(** ** Code fetch and page counts *)

Definition fetch_code_u32 (addr : Z) (m : Memory) : Z :=
  le_decode [read_byte addr m; read_byte (wrap u32 (addr + 1)) m;
             read_byte (wrap u32 (addr + 2)) m; read_byte (wrap u32 (addr + 3)) m].

Definition pages_allocated (m : Memory) : Z := len (List.filter (fun t : bool => t) (pages_touched m)).

Definition pages_materialized (m : Memory) : Z :=
  len (List.filter is_some (pages m)).

(** ** Arithmetic on the layout *)

Ltac mem_consts :=
  change PAGE_COUNT with 1024 in *; change MEMORY_SIZE with 4194304 in *;
  change STACK_TOP with 4194304 in *; change PAGE_SIZE with 4096 in *;
  change NULL_PAGE_END with 4096 in *; change CODE_START with 4096 in *;
  change CODE_END with 65536 in *; change HEAP_START with 65536 in *;
  change PAGE_ALLOC_GAS with 200 in *.

Ltac mem_lia := mem_consts; unfold in_range in *; lia_pow.

(** Reduces projections of updated memories, and nothing else. *)
Ltac mem_proj :=
  cbn [pages pages_touched page_gas_used heap_top stack_pointer code_end
       set_pages set_touched set_page_gas_used set_heap_top set_stack_pointer set_code_end
       Memory_new fst snd] in *.

Definition in_memory (a : Z) : Prop := 0 <= a < MEMORY_SIZE.

Lemma page_of_inj (a b : Z) :
  in_memory a -> in_memory b ->
  Z.to_nat (a / PAGE_SIZE) = Z.to_nat (b / PAGE_SIZE) ->
  Z.to_nat (a mod PAGE_SIZE) = Z.to_nat (b mod PAGE_SIZE) -> a = b.
Proof. unfold in_memory. intros. mem_lia. Qed.

(** ** The memory invariant *)

Definition page_ok (p : option (list Z)) : Prop :=
  match p with
  | Some page => length page = Z.to_nat PAGE_SIZE /\ bytes_ok page
  | None => True
  end.

Record wf_memory (m : Memory) : Prop := {
  wf_pages_length : length (pages m) = Z.to_nat PAGE_COUNT;
  wf_pages : Forall page_ok (pages m);
  wf_touched_length : length (pages_touched m) = Z.to_nat PAGE_COUNT;
  wf_page_gas : 0 <= page_gas_used m <= PAGE_ALLOC_GAS * pages_allocated m;
  wf_heap_top : HEAP_START <= heap_top m <= STACK_TOP;
  wf_stack_pointer : HEAP_START <= stack_pointer m <= STACK_TOP;
  wf_code_end : CODE_START <= code_end m <= CODE_END
}.

Definition keeps_mem (m m' : Memory) : Prop := wf_memory m -> wf_memory m'.

#[global] Instance keeps_mem_preorder : PreOrder keeps_mem.
Proof. split; unfold keeps_mem; [intros c|intros c1 c2 c3]; tauto. Qed.

Lemma Memory_new_wf : wf_memory Memory_new.
Proof.
  split; unfold pages_allocated; mem_proj; rewrite ?length_replicate; try done.
  by apply Forall_replicate.
Qed.

Lemma ensure_page_ok (i : nat) (m : Memory) :
  wf_memory m -> length (ensure_page i m) = Z.to_nat PAGE_SIZE /\ bytes_ok (ensure_page i m).
Proof.
  intros H. unfold ensure_page. destruct (pages m !! i) as [[p|]|] eqn:E.
  - exact (Forall_lookup_1 _ _ _ _ (wf_pages _ H) E).
  - rewrite length_replicate. split; [done|]. by apply Forall_replicate.
  - rewrite length_replicate. split; [done|]. by apply Forall_replicate.
Qed.

Lemma read_byte_ok (a : Z) (m : Memory) : wf_memory m -> byte_ok (read_byte a m).
Proof.
  intros H. unfold read_byte. destruct (pages m !! _) as [[p|]|] eqn:E; [|done..].
  pose proof (Forall_lookup_1 _ _ _ _ (wf_pages _ H) E) as Hp. destruct Hp as [_ Hp].
  destruct (p !! _) eqn:E2; [|done]. exact (Forall_lookup_1 _ _ _ _ Hp E2).
Qed.

Lemma read_byte_ensure (a : Z) (m : Memory) :
  read_byte a m
  = default 0 (ensure_page (Z.to_nat (a / PAGE_SIZE)) m !! Z.to_nat (a mod PAGE_SIZE)).
Proof.
  unfold read_byte, ensure_page. destruct (pages m !! _) as [[p|]|]; [done| |].
  all: destruct (replicate _ 0 !! _) eqn:E; [|done]; apply lookup_replicate in E as [-> _]; done.
Qed.

Lemma write_byte_wf (a v : Z) (m : Memory) :
  byte_ok v -> wf_memory m -> wf_memory (write_byte a v m).
Proof.
  intros Hv H. destruct H. split; unfold write_byte, pages_allocated in *; mem_proj;
    rewrite ?length_insert; try done.
  apply Forall_insert; [done|]. cbn [page_ok]. rewrite length_insert.
  split; [|apply Forall_insert; [|done]]; by apply ensure_page_ok.
Qed.

(** The memory as a flat array of bytes: a write changes one address. *)
Lemma read_write_byte (a b v : Z) (m : Memory) :
  wf_memory m -> in_memory a -> in_memory b ->
  read_byte b (write_byte a v m) = if a =? b then v else read_byte b m.
Proof.
  intros H Ha Hb. pose proof (page_of_inj a b Ha Hb) as Hinj.
  unfold in_memory in *. unfold read_byte at 1, write_byte. mem_proj.
  destruct (decide (Z.to_nat (a / PAGE_SIZE) = Z.to_nat (b / PAGE_SIZE))) as [Ep|Ep].
  - rewrite Ep, list_lookup_insert_eq by (rewrite (wf_pages_length _ H); mem_lia).
    destruct (decide (Z.to_nat (a mod PAGE_SIZE) = Z.to_nat (b mod PAGE_SIZE))) as [Eo|Eo].
    + rewrite Eo, list_lookup_insert_eq
        by (destruct (ensure_page_ok (Z.to_nat (b / PAGE_SIZE)) m H) as [-> _]; mem_lia).
      rewrite (Hinj Ep Eo), Z.eqb_refl. done.
    + rewrite list_lookup_insert_ne by done. rewrite read_byte_ensure.
      case_tests; [|done]. subst. done.
  - rewrite list_lookup_insert_ne by done. case_tests; [subst; done|]. done.
Qed.

(** ** Byte strings in memory *)

(** A range of addresses inside the memory. *)
Definition range_ok (addr n : Z) : Prop := 0 <= addr /\ 0 <= n /\ addr + n <= MEMORY_SIZE.

Lemma write_bytes_from_wf (addr i : Z) (data : list Z) (m : Memory) :
  bytes_ok data -> wf_memory m -> wf_memory (write_bytes_from addr i data m).
Proof.
  intros Hd. revert i m. induction Hd as [|b data Hb Hd IH]; intros i m H; [done|].
  cbn [write_bytes_from]. by apply IH, write_byte_wf.
Qed.

Lemma write_bytes_wf (addr : Z) (data : list Z) (m : Memory) :
  bytes_ok data -> wf_memory m -> wf_memory (write_bytes addr data m).
Proof. apply write_bytes_from_wf. Qed.

Lemma read_write_bytes_from (addr i b : Z) (data : list Z) (m : Memory) :
  wf_memory m -> bytes_ok data -> 0 <= i -> 0 <= addr -> addr + i + len data <= MEMORY_SIZE ->
  in_memory b ->
  read_byte b (write_bytes_from addr i data m)
  = if (addr + i <=? b) && (b <? addr + i + len data)
    then default 0 (data !! Z.to_nat (b - (addr + i))) else read_byte b m.
Proof.
  intros H Hd. revert i m H. induction Hd as [|x data Hx Hd IH]; intros i m H Hi Ha Hr Hb;
    unfold len, in_memory in *; cbn [write_bytes_from length] in *.
  - destruct (Z.leb_spec (addr + i) b), (Z.ltb_spec b (addr + i + Z.of_nat 0)); simpl; done || lia.
  - rewrite wrap_small by mem_lia.
    rewrite IH by (first [lia | by apply write_byte_wf]).
    rewrite read_write_byte by (first [done | unfold in_memory; lia]).
    destruct (Z.eqb_spec (addr + i) b) as [<-|].
    + rewrite Z.sub_diag, Z.leb_refl.
      destruct (Z.leb_spec (addr + (i + 1)) (addr + i)); [lia|].
      destruct (Z.ltb_spec (addr + i) (addr + i + Z.of_nat (S (length data)))); [done|lia].
    + destruct (Z.leb_spec (addr + i) b), (Z.leb_spec (addr + (i + 1)) b),
        (Z.ltb_spec b (addr + (i + 1) + Z.of_nat (length data))),
        (Z.ltb_spec b (addr + i + Z.of_nat (S (length data)))); try lia; try done.
      simpl. replace (Z.to_nat (b - (addr + i))) with (S (Z.to_nat (b - (addr + (i + 1))))) by lia.
      done.
Qed.

Lemma read_write_bytes (addr b : Z) (data : list Z) (m : Memory) :
  wf_memory m -> bytes_ok data -> range_ok addr (len data) -> in_memory b ->
  read_byte b (write_bytes addr data m)
  = if (addr <=? b) && (b <? addr + len data)
    then default 0 (data !! Z.to_nat (b - addr)) else read_byte b m.
Proof.
  intros H Hd (? & ? & ?) Hb. unfold write_bytes.
  rewrite read_write_bytes_from, Z.add_0_r by (done || lia). done.
Qed.

Lemma lookup_read_bytes (addr : Z) (n i : nat) (m : Memory) :
  (i < n)%nat -> read_bytes addr n m !! i = Some (read_byte (wrap u32 (addr + Z.of_nat i)) m).
Proof. intros Hi. unfold read_bytes. by rewrite list_lookup_fmap, lookup_seq_lt by done. Qed.

Lemma length_read_bytes (addr : Z) (n : nat) (m : Memory) : length (read_bytes addr n m) = n.
Proof. unfold read_bytes. by rewrite length_fmap, length_seq. Qed.

Lemma read_bytes_ok (addr : Z) (n : nat) (m : Memory) :
  wf_memory m -> bytes_ok (read_bytes addr n m).
Proof. intros H. apply Forall_fmap, Forall_true. intros i. by apply read_byte_ok. Qed.

(** Reading back a written range gives the bytes written. *)
Lemma read_bytes_write_bytes (addr : Z) (data : list Z) (m : Memory) :
  wf_memory m -> bytes_ok data -> range_ok addr (len data) ->
  read_bytes addr (length data) (write_bytes addr data m) = data.
Proof.
  intros H Hd Hr. pose proof Hr as (? & ? & ?). apply list_eq_same_length with (length data);
    [done|by rewrite length_read_bytes|].
  intros i x y Hi. rewrite lookup_read_bytes by done. unfold len in *.
  rewrite wrap_small by mem_lia. rewrite read_write_bytes by (done || (unfold in_memory; lia)).
  replace (addr + Z.of_nat i - addr) with (Z.of_nat i) by lia. rewrite Nat2Z.id.
  destruct (Z.leb_spec addr (addr + Z.of_nat i)), (Z.ltb_spec (addr + Z.of_nat i) (addr + len data));
    unfold len in *; simpl; try lia. intros Hx Hy. rewrite Hy in Hx. simpl in Hx. congruence.
Qed.

(** Two memories that agree on a range give the same bytes. *)
Lemma read_bytes_ext (addr : Z) (n : nat) (m m' : Memory) :
  range_ok addr (Z.of_nat n) ->
  (forall b, addr <= b < addr + Z.of_nat n -> read_byte b m' = read_byte b m) ->
  read_bytes addr n m' = read_bytes addr n m.
Proof.
  intros (? & ? & ?) E. apply list_fmap_ext. intros i x Hx.
  apply lookup_seq in Hx as [-> Hi]. rewrite wrap_small by mem_lia. apply E. lia.
Qed.

(** ** Page touching and its gas *)

(** Only the touch map and the gas counter differ. *)
Definition same_data (m m' : Memory) : Prop :=
  pages m' = pages m /\ heap_top m' = heap_top m /\
  stack_pointer m' = stack_pointer m /\ code_end m' = code_end m.

(** The gas charged between two memories pays each newly touched page once. *)
Definition charged (m m' : Memory) : Prop :=
  page_gas_used m' - page_gas_used m
    = PAGE_ALLOC_GAS * (pages_allocated m' - pages_allocated m) /\
  forall i, pages_touched m !! i = Some true -> pages_touched m' !! i = Some true.

#[global] Instance same_data_preorder : PreOrder same_data.
Proof.
  unfold same_data. split; [intros m; done|].
  intros m1 m2 m3 (? & ? & ? & ?) (? & ? & ? & ?). split_and!; congruence.
Qed.

#[global] Instance charged_preorder : PreOrder charged.
Proof.
  unfold charged. split; [intros m; split; [lia|done]|].
  intros m1 m2 m3 [] []. split; [lia|]. auto.
Qed.

Lemma filter_insert_true (l : list bool) (i : nat) :
  l !! i = Some false ->
  length (List.filter (fun t : bool => t) (<[i := true]> l))
  = S (length (List.filter (fun t : bool => t) l)).
Proof.
  revert i. induction l as [|b l IH]; intros [|i] E; simplify_eq/=; [done|].
  destruct b; simpl; by rewrite IH.
Qed.

Lemma pages_allocated_le (m : Memory) :
  wf_memory m -> 0 <= pages_allocated m <= PAGE_COUNT.
Proof.
  intros H. unfold pages_allocated, len.
  pose proof (List.filter_length_le (fun t : bool => t) (pages_touched m)).
  rewrite (wf_touched_length _ H) in *. mem_lia.
Qed.

Lemma touch_page_spec (m : Memory) (i : nat) :
  wf_memory m -> (i < Z.to_nat PAGE_COUNT)%nat ->
  wf_memory (touch_page m i) /\ same_data m (touch_page m i) /\ charged m (touch_page m i) /\
  pages_touched (touch_page m i) !! i = Some true.
Proof.
  intros H Hi. unfold touch_page.
  destruct (pages_touched m !! i) as [[]|] eqn:E.
  - split_and!; done || reflexivity.
  - pose proof (filter_insert_true _ _ E) as Hc. pose proof (wf_page_gas _ H) as Hg.
    pose proof (pages_allocated_le _ H) as Ha.
    assert (Hw : wrap u64 (page_gas_used m + PAGE_ALLOC_GAS) = page_gas_used m + PAGE_ALLOC_GAS).
    { apply wrap_small. mem_lia. }
    assert (Hn : pages_allocated (set_touched (<[i:=true]> (pages_touched m))
      (wrap u64 (page_gas_used m + PAGE_ALLOC_GAS)) m) = pages_allocated m + 1).
    { unfold pages_allocated, len. mem_proj. rewrite Hc. lia. }
    split_and!; [|done| |].
    + destruct H. split; rewrite ?Hn; mem_proj; rewrite ?length_insert, ?Hw; try done. mem_lia.
    + split; [rewrite Hn; mem_proj; rewrite Hw; lia|]. intros j Hj. mem_proj.
      destruct (decide (i = j)) as [->|]; [congruence|by rewrite list_lookup_insert_ne].
    + mem_proj. apply list_lookup_insert_eq. by rewrite (wf_touched_length _ H).
  - apply lookup_ge_None in E. rewrite (wf_touched_length _ H) in E. lia.
Qed.

Lemma touch_list_spec (l : list nat) (m : Memory) :
  wf_memory m -> Forall (fun i => (i < Z.to_nat PAGE_COUNT)%nat) l ->
  let m' := foldl touch_page m l in
  wf_memory m' /\ same_data m m' /\ charged m m' /\
  Forall (fun i => pages_touched m' !! i = Some true) l.
Proof.
  intros H Hl. revert m H. induction Hl as [|i l Hi Hl IH]; intros m H; simpl.
  { split_and!; done || reflexivity. }
  destruct (touch_page_spec m i H Hi) as (H1 & H2 & H3 & H4).
  destruct (IH _ H1) as (H5 & H6 & H7 & H8).
  split_and!; [done|by etrans|by etrans|]. constructor; [|done]. by apply H7.
Qed.

(** An access of [n] bytes at [addr] is allowed outside the null page and
    inside the memory. *)
Definition access_ok (addr n : Z) : Prop := NULL_PAGE_END <= addr /\ addr + n <= MEMORY_SIZE.

#[global] Instance access_ok_dec (addr n : Z) : Decision (access_ok addr n).
Proof. unfold access_ok. apply _. Defined.

Lemma check_access_ok (addr n : Z) (m : Memory) :
  wf_memory m -> 0 <= n -> access_ok addr n ->
  exists m', check_access addr n m = (m', Ok tt) /\
    wf_memory m' /\ same_data m m' /\ charged m m' /\
    forall b, addr <= b < addr + n -> pages_touched m' !! Z.to_nat (b / PAGE_SIZE) = Some true.
Proof.
  intros H Hn [H1 H2]. unfold check_access, checked_add.
  destruct (Z.ltb_spec addr NULL_PAGE_END); [lia|].
  destruct (Z.ltb_spec (addr + n) (2 ^ u32)); [|mem_lia].
  destruct (Z.ltb_spec MEMORY_SIZE (addr + n)); [lia|].
  eexists; split; [done|]. unfold touch_pages.
  edestruct (touch_list_spec (seq (Z.to_nat (addr / PAGE_SIZE))
    (Z.to_nat ((addr + n - 1) / PAGE_SIZE + 1 - addr / PAGE_SIZE))) m H) as (? & ? & ? & Ht).
  { apply Forall_seq. intros j Hj. mem_lia. }
  split_and!; try done. intros b Hb. rewrite List.Forall_forall in Ht. apply Ht, in_seq. mem_lia.
Qed.

Lemma check_access_err (addr n : Z) (m : Memory) :
  0 <= n -> ~ access_ok addr n -> exists e, check_access addr n m = (m, Err e).
Proof.
  unfold access_ok, check_access. intros Hn Hb.
  destruct (Z.ltb_spec addr NULL_PAGE_END); [by eexists|].
  destruct (checked_add u32 addr n) eqn:E; [|by eexists].
  apply checked_add_Some in E as [-> E].
  destruct (Z.ltb_spec MEMORY_SIZE (addr + n)); [by eexists|]. lia.
Qed.

Lemma same_data_read (m m' : Memory) (b : Z) : same_data m m' -> read_byte b m' = read_byte b m.
Proof. intros (E & _). unfold read_byte. by rewrite E. Qed.

Lemma same_data_read_bytes (m m' : Memory) (a : Z) (n : nat) :
  same_data m m' -> read_bytes a n m' = read_bytes a n m.
Proof. intros E. apply list_fmap_ext. intros. by apply same_data_read. Qed.

(** ** Operations *)

(** What any operation does to a well-formed memory: it stays well-formed,
    newly touched pages are paid once, and neither the null page nor the code
    section changes. *)
Definition mem_rel (m m' : Memory) : Prop :=
  wf_memory m ->
  wf_memory m' /\ charged m m' /\ code_end m' = code_end m /\
  forall b, 0 <= b < CODE_END -> read_byte b m' = read_byte b m.

#[global] Instance mem_rel_preorder : PreOrder mem_rel.
Proof.
  split.
  - intros m H. split_and!; done || reflexivity.
  - intros m1 m2 m3 H12 H23 H. destruct (H12 H) as (H2 & C2 & E2 & B2).
    destruct (H23 H2) as (H3 & C3 & E3 & B3).
    split_and!; [done|by etrans|congruence|]. intros b Hb. by rewrite B3, B2.
Qed.

Lemma same_data_mem_rel (m m' : Memory) :
  wf_memory m' -> same_data m m' -> charged m m' -> mem_rel m m'.
Proof.
  intros H' HS HC H. split_and!; [done..|apply HS|]. intros b _. by apply same_data_read.
Qed.

(** The three checks and the write that every store performs. *)
Definition store_bytes (addr : Z) (data : list Z) : MemM unit :=
  check_access addr (len data) ;;; check_writable addr ;;; modify (write_bytes addr data).

(** Whether a store of [n] bytes at [addr] is allowed. *)
Definition store_ok (addr n : Z) : Prop := HEAP_START <= addr /\ addr + n <= MEMORY_SIZE.

#[global] Instance store_ok_dec (addr n : Z) : Decision (store_ok addr n).
Proof. unfold store_ok. apply _. Defined.

(** The memory after a store of [data] at [addr], as a flat array. *)
Definition flat_store (addr : Z) (data : list Z) (f : Z -> Z) (b : Z) : Z :=
  if (addr <=? b) && (b <? addr + len data) then default 0 (data !! Z.to_nat (b - addr)) else f b.

Lemma store_bytes_ok (addr : Z) (data : list Z) (m : Memory) :
  wf_memory m -> bytes_ok data -> store_ok addr (len data) ->
  exists m', store_bytes addr data m = (m', Ok tt) /\ wf_memory m' /\ charged m m' /\
    heap_top m' = heap_top m /\ stack_pointer m' = stack_pointer m /\ code_end m' = code_end m /\
    forall b, in_memory b -> read_byte b m' = flat_store addr data (fun a => read_byte a m) b.
Proof.
  intros H Hd [H1 H2]. unfold store_bytes, bind.
  assert (Hl : 0 <= len data) by (unfold len; lia).
  destruct (check_access_ok addr (len data) m H Hl) as (m1 & -> & W & S & C & _).
  { split; [mem_lia|done]. }
  unfold check_writable.
  destruct (Z.leb_spec CODE_START addr), (Z.ltb_spec addr CODE_END); simpl; try mem_lia.
  pose proof S as (Ep & Eh & Es & Ec).
  assert (F : forall d i m, heap_top (write_bytes_from addr i d m) = heap_top m /\
    stack_pointer (write_bytes_from addr i d m) = stack_pointer m /\
    code_end (write_bytes_from addr i d m) = code_end m /\
    page_gas_used (write_bytes_from addr i d m) = page_gas_used m /\
    pages_touched (write_bytes_from addr i d m) = pages_touched m).
  { clear. induction d as [|x d IH]; intros i m; [done|]. cbn [write_bytes_from].
    destruct (IH (i + 1) (write_byte (wrap u32 (addr + i)) x m)) as (-> & -> & -> & -> & ->). done. }
  destruct (F data 0 m1) as (F1 & F2 & F3 & F4 & F5). fold (write_bytes addr data m1) in *.
  eexists; split; [done|]. split_and!.
  - by apply write_bytes_wf.
  - etrans; [exact C|]. unfold charged, pages_allocated. rewrite F4, F5. split; [lia|done].
  - congruence.
  - congruence.
  - congruence.
  - intros b Hb. rewrite read_write_bytes by (done || (split_and!; mem_lia)).
    unfold flat_store. by rewrite (same_data_read _ _ _ S).
Qed.

Lemma store_bytes_err (addr : Z) (data : list Z) (m : Memory) :
  wf_memory m -> ~ store_ok addr (len data) ->
  exists m' e, store_bytes addr data m = (m', Err e) /\
    wf_memory m' /\ same_data m m' /\ charged m m'.
Proof.
  intros H Hs. unfold store_bytes, bind.
  assert (Hl : 0 <= len data) by (unfold len; lia).
  destruct (decide (access_ok addr (len data))) as [Ha|Ha].
  - destruct (check_access_ok addr (len data) m H Hl Ha) as (m1 & -> & W & S & C & _).
    unfold check_writable. unfold store_ok, access_ok in *.
    destruct (Z.leb_spec CODE_START addr), (Z.ltb_spec addr CODE_END); simpl; try mem_lia.
    eexists _, _. done.
  - destruct (check_access_err addr (len data) m Hl Ha) as [e ->].
    eexists _, _. split_and!; done || reflexivity.
Qed.

Lemma store_bytes_rel (addr : Z) (data : list Z) :
  bytes_ok data -> respects mem_rel (store_bytes addr data).
Proof.
  intros Hd m H. destruct (decide (store_ok addr (len data))) as [Hs|Hs].
  - destruct (store_bytes_ok addr data m H Hd Hs) as (m' & -> & W & C & _ & _ & E & B).
    split_and!; try done. intros b Hb. rewrite B by (unfold in_memory; mem_lia).
    unfold flat_store. destruct Hs. destruct (Z.leb_spec addr b); [mem_lia|done].
  - destruct (store_bytes_err addr data m H Hs) as (m' & e & -> & W & S & C).
    by apply same_data_mem_rel.
Qed.

Lemma store_le_bytes (n : nat) (addr val : Z) :
  store_le n addr val = store_bytes addr (le_encode n val).
Proof. unfold store_le, store_bytes, len. by rewrite length_le_encode. Qed.

Lemma store256_bytes (addr : Z) (val : list Z) :
  length val = 32%nat -> store256 addr val = store_bytes addr val.
Proof. intros E. unfold store256, store_bytes, len. by rewrite E. Qed.

Lemma store8_bytes (addr val : Z) (m : Memory) :
  in_range u32 addr -> store8 addr val m = store_bytes addr [val] m.
Proof.
  intros Ha. unfold store8, store_bytes, bind. change (len [val]) with 1.
  destruct (check_access addr 1 m) as [m' [[]|]]; [|done].
  destruct (check_writable addr m') as [m'' [[]|]]; [|done].
  unfold modify, write_bytes. simpl. by rewrite Z.add_0_r, wrap_small.
Qed.

Lemma checked_write_slice_bytes (addr : Z) (data : list Z) (m : Memory) :
  0 < len data <= MEMORY_SIZE -> checked_write_slice addr data m = store_bytes addr data m.
Proof.
  intros Hl. unfold checked_write_slice, store_bytes.
  destruct (Z.eqb_spec (len data) 0); [lia|].
  destruct (Z.ltb_spec MEMORY_SIZE (len data)); [lia|].
  rewrite wrap_small by mem_lia. done.
Qed.

Lemma check_access_rel (addr n : Z) : 0 <= n -> respects mem_rel (check_access addr n).
Proof.
  intros Hn m H. destruct (decide (access_ok addr n)) as [Ha|Ha].
  - destruct (check_access_ok addr n m H Hn Ha) as (m' & -> & ? & ? & ? & _).
    by apply same_data_mem_rel.
  - destruct (check_access_err addr n m Hn Ha) as [e ->]. split_and!; done || reflexivity.
Qed.

Lemma load_le_rel (n : nat) (addr : Z) : respects mem_rel (load_le n addr).
Proof. apply respects_bind; [apply _|apply check_access_rel; lia|]. intros _ m. simpl. reflexivity. Qed.

Lemma store_le_rel (n : nat) (addr val : Z) : respects mem_rel (store_le n addr val).
Proof. rewrite store_le_bytes. apply store_bytes_rel, le_encode_bytes. Qed.

Lemma load8_rel (addr : Z) : respects mem_rel (load8 addr).
Proof. apply respects_bind; [apply _|apply check_access_rel; lia|]. intros _ m. simpl. reflexivity. Qed.

Lemma store8_rel (addr val : Z) :
  in_range u32 addr -> byte_ok val -> respects mem_rel (store8 addr val).
Proof.
  intros Ha Hv m. rewrite store8_bytes by done. apply store_bytes_rel. by apply Forall_singleton.
Qed.

Lemma load256_rel (addr : Z) : respects mem_rel (load256 addr).
Proof. apply respects_bind; [apply _|apply check_access_rel; lia|]. intros _ m. simpl. reflexivity. Qed.

Lemma store256_rel (addr : Z) (val : list Z) :
  length val = 32%nat -> bytes_ok val -> respects mem_rel (store256 addr val).
Proof. intros E Hv. rewrite store256_bytes by done. by apply store_bytes_rel. Qed.

Lemma checked_read_slice_rel (addr n : Z) : respects mem_rel (checked_read_slice addr n).
Proof.
  unfold checked_read_slice. intros m. destruct (n =? 0); [reflexivity|].
  destruct (MEMORY_SIZE <? n); [reflexivity|].
  apply respects_bind; [apply _|apply check_access_rel, wrap_range; lia|].
  intros _ m'. simpl. reflexivity.
Qed.

Lemma checked_write_slice_rel (addr : Z) (data : list Z) :
  bytes_ok data -> respects mem_rel (checked_write_slice addr data).
Proof.
  intros Hd m. unfold checked_write_slice.
  destruct (Z.eqb_spec (len data) 0); [reflexivity|].
  destruct (Z.ltb_spec MEMORY_SIZE (len data)); [reflexivity|].
  rewrite wrap_small by (unfold len in *; mem_lia). by apply store_bytes_rel.
Qed.

Lemma stack_alloc_rel (n : Z) : 0 <= n -> respects mem_rel (stack_alloc n).
Proof.
  intros Hn m H. unfold stack_alloc. destruct (checked_sub _ n) eqn:E;
    [apply checked_sub_Some in E as [-> E]|split_and!; done || reflexivity].
  destruct (Z.ltb_spec (stack_pointer m - n) (heap_top m)); [split_and!; done || reflexivity|].
  split_and!; [|by apply (reflexivity (R := charged) m)|done|done].
  destruct H. split; mem_proj; try done. mem_lia.
Qed.

#[export] Hint Resolve load_le_rel store_le_rel load8_rel store8_rel load256_rel store256_rel
  checked_read_slice_rel checked_write_slice_rel stack_alloc_rel : respects.

(** ** Values read *)

Lemma load_le_range (n : nat) (addr v : Z) (m m' : Memory) :
  wf_memory m -> load_le n addr m = (m', Ok v) -> in_range (8 * Z.of_nat n) v.
Proof.
  intros H. pose proof (check_access_rel addr (Z.of_nat n) ltac:(lia) m H) as (W & _).
  unfold load_le, bind. destruct (check_access _ _ _) as [m1 [[]|]]; intros [= <- <-].
  unfold in_range. rewrite <- pow256.
  pose proof (le_decode_range _ (read_bytes_ok addr n m1 W)) as R.
  by rewrite length_read_bytes in R.
Qed.

Lemma load8_range (addr v : Z) (m m' : Memory) :
  wf_memory m -> load8 addr m = (m', Ok v) -> byte_ok v.
Proof.
  intros H. pose proof (check_access_rel addr 1 ltac:(lia) m H) as (W & _).
  unfold load8, bind. destruct (check_access _ _ _) as [m1 [[]|]]; intros [= <- <-].
  by apply read_byte_ok.
Qed.

Lemma load256_bytes (addr : Z) (v : list Z) (m m' : Memory) :
  wf_memory m -> load256 addr m = (m', Ok v) -> length v = 32%nat /\ bytes_ok v.
Proof.
  intros H. pose proof (check_access_rel addr 32 ltac:(lia) m H) as (W & _).
  unfold load256, bind. destruct (check_access _ _ _) as [m1 [[]|]]; intros [= <- <-].
  split; [apply length_read_bytes|by apply read_bytes_ok].
Qed.

Lemma checked_read_slice_bytes (addr n : Z) (v : list Z) (m m' : Memory) :
  wf_memory m -> 0 <= n -> checked_read_slice addr n m = (m', Ok v) ->
  len v = n /\ n <= MEMORY_SIZE /\ bytes_ok v.
Proof.
  intros H Hn. unfold checked_read_slice. destruct (Z.eqb_spec n 0) as [->|].
  { intros [= <- <-]. split_and!; [done|mem_lia|by constructor]. }
  destruct (Z.ltb_spec MEMORY_SIZE n); [done|].
  pose proof (check_access_rel addr (wrap u32 n) (proj1 (wrap_range u32 n ltac:(lia))) m H) as (W & _).
  unfold bind. destruct (check_access _ _ _) as [m1 [[]|]]; intros [= <- <-].
  split_and!; [|done|by apply read_bytes_ok]. unfold len, read_slice.
  rewrite length_read_bytes. lia.
Qed.

(** ** Properties of the memory *)

Lemma load_le_flat (n : nat) (addr : Z) (m : Memory) :
  wf_memory m -> access_ok addr (Z.of_nat n) ->
  exists m', load_le n addr m = (m', Ok (le_decode (read_bytes addr n m))) /\
    wf_memory m' /\ same_data m m'.
Proof.
  intros H Ha. destruct (check_access_ok addr (Z.of_nat n) m H ltac:(lia) Ha) as (m' & E & W & S & _).
  exists m'. unfold load_le, bind, gets. rewrite E. by rewrite (same_data_read_bytes _ _ _ _ S).
Qed.

(** A store that is allowed: the value can be read back, and no other byte and
    no pointer has changed. *)
Lemma store_le_ok (n : nat) (addr val : Z) (m : Memory) :
  wf_memory m -> in_range (8 * Z.of_nat n) val -> store_ok addr (Z.of_nat n) ->
  exists m', store_le n addr val m = (m', Ok tt) /\ wf_memory m' /\
    heap_top m' = heap_top m /\ stack_pointer m' = stack_pointer m /\
    le_decode (read_bytes addr n m') = val /\
    forall b, in_memory b -> b < addr \/ addr + Z.of_nat n <= b -> read_byte b m' = read_byte b m.
Proof.
  intros H Hv Hs. rewrite store_le_bytes. pose proof (le_encode_bytes n val) as Hb.
  assert (El : len (le_encode n val) = Z.of_nat n) by (unfold len; by rewrite length_le_encode).
  destruct (store_bytes_ok addr (le_encode n val) m H Hb) as (m' & E & W & _ & Hh & Hp & _ & B);
    [by rewrite El|].
  exists m'. split_and!; try done; unfold store_ok in *.
  - assert (Hr : range_ok addr (len (le_encode n val))) by (rewrite El; split_and!; mem_lia).
    rewrite <- (length_le_encode n val) at 1.
    rewrite (read_bytes_ext _ _ (write_bytes addr (le_encode n val) m)).
    + rewrite read_bytes_write_bytes by done. apply le_decode_encode. by rewrite pow256.
    + split_and!; rewrite ?length_le_encode; mem_lia.
    + rewrite length_le_encode. intros b Hbr. assert (in_memory b) by (unfold in_memory; mem_lia).
      by rewrite B, read_write_bytes by done.
  - intros b Hm Hd. rewrite B by done. unfold flat_store. rewrite El.
    destruct (Z.leb_spec addr b), (Z.ltb_spec b (addr + Z.of_nat n)); try done. lia.
Qed.

(** [C28] The paged memory refines a flat array of bytes.  A slice write that is
    allowed sets exactly the addressed bytes and leaves every other byte of the
    4 MB alone; one that is refused changes no byte. *)
Theorem checked_write_slice_flat (addr : Z) (data : list Z) (m : Memory) :
  wf_memory m -> bytes_ok data -> 0 < len data <= MEMORY_SIZE ->
  let (m', r) := checked_write_slice addr data m in
  wf_memory m' /\
  (is_ok r = true <-> store_ok addr (len data)) /\
  (is_ok r = true -> forall b, in_memory b ->
     read_byte b m' = flat_store addr data (fun a => read_byte a m) b) /\
  (is_ok r = false -> forall b, read_byte b m' = read_byte b m).
Proof.
  intros H Hd Hl. rewrite checked_write_slice_bytes by done.
  destruct (decide (store_ok addr (len data))) as [Hs|Hs].
  - destruct (store_bytes_ok addr data m H Hd Hs) as (m' & -> & W & _ & _ & _ & _ & B).
    split_and!; done.
  - destruct (store_bytes_err addr data m H Hs) as (m' & e & -> & W & S & _).
    split_and!; try done. intros _ b. by apply same_data_read.
Qed.

Lemma checked_write_slice_flat_witness :
  wf_memory Memory_new /\ bytes_ok [1; 2; 3] /\
  read_byte 0x10FFE (checked_write_slice 0x10FFD [1; 2; 3] Memory_new).1 = 2.
Proof.
  assert (bytes_ok [1; 2; 3]) as Hb by (repeat (constructor; [split; [discriminate|reflexivity]|]); constructor).
  pose proof (checked_write_slice_flat 0x10FFD [1; 2; 3] Memory_new Memory_new_wf Hb) as H.
  specialize (H ltac:(split; [reflexivity|discriminate])).
  split; [exact Memory_new_wf|]. split; [exact Hb|].
  destruct (checked_write_slice 0x10FFD [1; 2; 3] Memory_new) as [m' r].
  destruct H as (_ & [_ Hok] & B & _).
  cbn [fst]. rewrite B; [reflexivity| |split; [discriminate|reflexivity]].
  apply Hok. split; [discriminate|discriminate].
Defined.

(** A 64-bit store followed by a load of the same address gives the value
    back, and a store leaves every disjoint 64-bit word as it was. *)
Theorem store64_load64 (addr val addr' : Z) (m : Memory) :
  wf_memory m -> in_range u64 val -> store_ok addr 8 -> access_ok addr' 8 ->
  addr' + 8 <= addr \/ addr + 8 <= addr' ->
  let m1 := (store64 addr val m).1 in
  (store64 addr val m).2 = Ok tt /\
  (load64 addr m1).2 = Ok val /\
  (load64 addr' m1).2 = (load64 addr' m).2.
Proof.
  intros H Hv Hs Ha Hd. unfold store64, load64.
  destruct (store_le_ok 8 addr val m H Hv Hs) as (m1 & E & W & _ & _ & Er & B).
  rewrite E. cbn [fst snd]. unfold store_ok, access_ok in *.
  destruct (load_le_flat 8 addr m1 W) as (m2 & -> & _); [split; mem_lia|].
  destruct (load_le_flat 8 addr' m1 W) as (m3 & -> & _); [exact Ha|].
  destruct (load_le_flat 8 addr' m H) as (m4 & -> & _); [exact Ha|].
  split_and!; [done|cbn [snd]; by rewrite Er|]. cbn [snd]. do 2 f_equal.
  apply read_bytes_ext; [split_and!; mem_lia|]. intros b Hb. apply B; [unfold in_memory; mem_lia|lia].
Qed.

Lemma store64_load64_witness :
  wf_memory Memory_new /\ (load64 0x3FFFF8 (store64 0x3FFFF8 77 Memory_new).1).2 = Ok 77.
Proof.
  split; [exact Memory_new_wf|].
  apply (store64_load64 0x3FFFF8 77 0x3FFFF0 Memory_new Memory_new_wf).
  - split; [discriminate|reflexivity].
  - split; discriminate.
  - split; discriminate.
  - left. discriminate.
Defined.

(** The operations a program can run against its memory. *)
Inductive mem_op : Type :=
| OpLoad (n : nat) (addr : Z)
| OpStore (n : nat) (addr val : Z)
| OpLoad256 (addr : Z)
| OpStore256 (addr : Z) (val : list Z)
| OpReadSlice (addr n : Z)
| OpWriteSlice (addr : Z) (data : list Z)
| OpStackAlloc (n : Z).

Definition op_ok (o : mem_op) : Prop :=
  match o with
  | OpStore256 _ val => length val = 32%nat /\ bytes_ok val
  | OpWriteSlice _ data => bytes_ok data
  | OpStackAlloc n => 0 <= n
  | _ => True
  end.

Definition run_op (o : mem_op) (m : Memory) : Memory :=
  match o with
  | OpLoad n addr => (load_le n addr m).1
  | OpStore n addr val => (store_le n addr val m).1
  | OpLoad256 addr => (load256 addr m).1
  | OpStore256 addr val => (store256 addr val m).1
  | OpReadSlice addr n => (checked_read_slice addr n m).1
  | OpWriteSlice addr data => (checked_write_slice addr data m).1
  | OpStackAlloc n => (stack_alloc n m).1
  end.

Lemma run_op_rel (o : mem_op) (m : Memory) : op_ok o -> mem_rel m (run_op o m).
Proof.
  intros Ho. destruct o; simpl in *; try (apply store256_rel; apply Ho); auto with respects.
  all: first [apply load_le_rel | apply store_le_rel | apply load256_rel | apply checked_read_slice_rel
    | by apply checked_write_slice_rel | by apply stack_alloc_rel].
Qed.

Lemma run_ops_rel (os : list mem_op) (m : Memory) :
  Forall op_ok os -> mem_rel m (foldl (fun m o => run_op o m) m os).
Proof.
  intros Ho. revert m. induction Ho as [|o os Ho Hos IH]; intros m; simpl; [reflexivity|].
  etrans; [by apply run_op_rel|apply IH].
Qed.

(** Write protection: no sequence of memory operations, with whatever
    addresses and lengths, changes a byte of the null page or of the code
    section, and the memory invariant is kept. *)
Theorem code_is_immutable (os : list mem_op) (m : Memory) (b : Z) :
  wf_memory m -> Forall op_ok os -> 0 <= b < CODE_END ->
  let m' := foldl (fun m o => run_op o m) m os in
  wf_memory m' /\ read_byte b m' = read_byte b m /\ code_end m' = code_end m.
Proof.
  intros H Ho Hb m'. destruct (run_ops_rel os m Ho H) as (W & _ & E & B). split_and!; auto.
Qed.

Lemma code_is_immutable_witness :
  let m := (load_code [7; 8; 9] Memory_new).1 in
  wf_memory m /\
  read_byte 0x1001 (foldl (fun m o => run_op o m) m [OpStore 8 0x1000 0; OpWriteSlice 0x0FFE [0; 0; 0; 0]]) = 8.
Proof.
  intros m.
  assert (wf_memory m) as H.
  { unfold m, load_code. cbn -[write_bytes Memory_new Z.to_nat]. 
    assert (wf_memory (write_bytes CODE_START [7; 8; 9] Memory_new)) as W.
    { apply write_bytes_wf, Memory_new_wf.
      repeat (constructor; [split; [discriminate|reflexivity]|]); constructor. }
    destruct W. split; try assumption. split; discriminate. }
  split; [exact H|].
  rewrite (proj1 (proj2 (code_is_immutable
    [OpStore 8 0x1000 0; OpWriteSlice 0x0FFE [0; 0; 0; 0]] m 0x1001 H
    ltac:(repeat (constructor; [try exact I; simpl; repeat (constructor; [split; [discriminate|reflexivity]|]); constructor|]); constructor)
    ltac:(split; [discriminate|reflexivity])))).
  vm_compute. reflexivity.
Defined.

(** Page metering: over any sequence of memory operations the gas added to
    the counter is 200 for each page that became touched, so no page is charged
    twice, and the total can never exceed 200 times the 1024 pages. *)
Theorem page_gas_exact (os : list mem_op) (m : Memory) :
  wf_memory m -> Forall op_ok os ->
  let m' := foldl (fun m o => run_op o m) m os in
  page_gas_used m' - page_gas_used m = PAGE_ALLOC_GAS * (pages_allocated m' - pages_allocated m) /\
  (forall i, pages_touched m !! i = Some true -> pages_touched m' !! i = Some true) /\
  0 <= page_gas_used m' <= PAGE_ALLOC_GAS * PAGE_COUNT.
Proof.
  intros H Ho m'. subst m'. destruct (run_ops_rel os m Ho H) as (W & [C T] & _).
  pose proof (wf_page_gas _ W). pose proof (pages_allocated_le _ W). split_and!; try done; mem_lia.
Qed.

Lemma page_gas_exact_witness :
  wf_memory Memory_new /\
  (let m' := foldl (fun m o => run_op o m) Memory_new [OpStore 8 0x10FFC 5; OpLoad 8 0x10FFC] in
   page_gas_used m' = 400 /\
   page_gas_used m' - page_gas_used Memory_new = 200 * (pages_allocated m' - pages_allocated Memory_new)).
Proof.
  split; [exact Memory_new_wf|].
  pose proof (page_gas_exact [OpStore 8 0x10FFC 5; OpLoad 8 0x10FFC] Memory_new Memory_new_wf
    ltac:(repeat constructor)) as (E & _).
  cbv zeta. split; [vm_compute; reflexivity|exact E].
Defined.

(** Heap and stack allocation never let the two regions overlap: from a state
    in which they do not, an allocation succeeds exactly when the regions stay
    apart, and returns the start of a fresh block. *)
Theorem alloc_no_collision (n : Z) (m : Memory) :
  wf_memory m -> in_range u32 n -> heap_top m <= stack_pointer m ->
  let (mh, rh) := heap_alloc n m in
  let (ms, rs) := stack_alloc n m in
  heap_top mh <= stack_pointer mh /\ heap_top ms <= stack_pointer ms /\
  (is_ok rh = true <-> heap_top m + n <= stack_pointer m) /\
  (is_ok rs = true <-> heap_top m + n <= stack_pointer m) /\
  (forall a, rh = Ok a -> a = heap_top m /\ heap_top mh = a + n) /\
  (forall a, rs = Ok a -> a = stack_pointer m - n /\ stack_pointer ms = a).
Proof.
  intros H Hn Hc. unfold heap_alloc, stack_alloc, checked_add, checked_sub.
  pose proof (wf_heap_top _ H). pose proof (wf_stack_pointer _ H).
  destruct (Z.ltb_spec (heap_top m + n) (2 ^ u32)), (Z.leb_spec n (stack_pointer m)).
  all: try destruct (Z.ltb_spec (stack_pointer m) (heap_top m + n)).
  all: try destruct (Z.ltb_spec (stack_pointer m - n) (heap_top m)).
  all: mem_proj; simpl; split_and!; try mem_lia.
  all: try (intros a [= <-]; mem_lia).
  all: try (split; [done|mem_lia]).
Qed.

Lemma alloc_no_collision_witness :
  wf_memory Memory_new /\
  (is_ok (heap_alloc 64 Memory_new).2 = true <-> heap_top Memory_new + 64 <= stack_pointer Memory_new).
Proof.
  split; [exact Memory_new_wf|].
  pose proof (alloc_no_collision 64 Memory_new Memory_new_wf) as H.
  destruct (heap_alloc 64 Memory_new) as [mh rh]. destruct (stack_alloc 64 Memory_new).
  apply H; [unfold in_range; vm_compute; split; congruence|vm_compute; congruence].
Defined.
