(* ===== verification/Vm.v ===== *)
(** * The PVM's state ([crates/pvm/src/vm.rs], data and bookkeeping)

    The [Vm] struct with its execution context, the journals that undo storage
    and balance writes, gas charging, program loading and the interpreter's
    choke points.  The instructions are in [VmStep]. *)

From stdpp Require Import base numbers list option gmap.
From Stdlib Require Import ZArith Lia.
From S2P Require Import Prelude Crypto Isa Cpu Memory.

#[local] Open Scope Z_scope.
#[local] Open Scope pyde_scope.

Definition MAX_CALL_DEPTH : Z := 1024.
Definition MAX_EXT_CALL_DEPTH : Z := 64.

(** Sub-codes of [Caller] and [Callvalue]. *)
Module env_gp.
Definition BLOCK_NUMBER : Z := 0.
Definition TIMESTAMP : Z := 1.
Definition GAS_REMAINING : Z := 2.
Definition TX_NONCE : Z := 3.
Definition TX_GAS_LIMIT : Z := 4.
End env_gp.

Module env_wide.
Definition CALL_VALUE : Z := 0.
Definition GAS_PRICE : Z := 1.
Definition BALANCE : Z := 2.
Definition CALLER : Z := 3.
Definition ADDRESS : Z := 4.
Definition TX_HASH : Z := 5.
Definition BLOCK_PROPOSER : Z := 6.
End env_wide.

Record ExecutionContext : Type := mkCtx {
  caller : Address;
  self_address : Address;
  call_value : Z;
  block_number : Z;
  timestamp : Z;
  gas_price : Z;
  tx_nonce : Z;
  tx_gas_limit : Z;
  tx_hash : Z;
  block_proposer : Address;
  block_hashes : list Z;
  balances : gmap Address Z
}.

Definition ExecutionContext_default : ExecutionContext :=
  {| caller := ZERO_ADDRESS; self_address := ZERO_ADDRESS; call_value := 0; block_number := 0;
     timestamp := 0; gas_price := 0; tx_nonce := 0; tx_gas_limit := 0; tx_hash := 0;
     block_proposer := ZERO_ADDRESS; block_hashes := []; balances := ∅ |}.

Definition set_balances (b : gmap Address Z) (c : ExecutionContext) : ExecutionContext :=
  mkCtx (caller c) (self_address c) (call_value c) (block_number c) (timestamp c) (gas_price c)
    (tx_nonce c) (tx_gas_limit c) (tx_hash c) (block_proposer c) (block_hashes c) b.

Record CallFrame : Type := mkFrame {
  return_addr : Z;
  frame_pointer : Z
}.

Record CallResult : Type := mkCallResult {
  call_success : bool;
  call_return_data : list Z;
  call_gas_used : Z
}.

Inductive ExecResult : Type := Halted | Reverted.

Inductive Outcome : Type :=
| Success
| RevertOutcome
| OutOfGasOutcome
| TrapOutcome (t : Trap).

#[global] Instance Outcome_eq_dec : EqDecision Outcome.
Proof. solve_decision. Defined.

Record EventLog : Type := mkLog {
  log_address : Address;
  topics : list Z;
  log_data : list Z
}.

Record ExecutionOutput : Type := mkOutput {
  outcome : Outcome;
  out_gas_used : Z;
  out_gas_used_raw : Z;
  out_gas_refund : Z;
  out_logs : list EventLog
}.

(** [HashMap] and [HashSet] are finite maps and sets.  The two lazy-loading
    backends are functions; the source shares them between parent and child. *)
Record Vm : Type := mkVm {
  pc : Z;
  fp : Z;
  gas_used_total : Z;
  gas_limit : Z;
  gas_refund : Z;
  cpu : Cpu;
  decoded_cache : list DecodedInstruction;
  memory : Memory;
  ctx : ExecutionContext;
  storage : gmap Z (list Z);
  storage_backend : option (Z -> option (list Z));
  call_stack : list CallFrame;
  logs : list EventLog;
  storage_journal : list (Z * option (list Z));
  storage_journal_keys : gset Z;
  balance_journal : list (Address * option Z);
  balance_journal_keys : gset Address;
  contracts : gmap Address (list Z);
  code_backend : option (Address -> option (list Z));
  calldata : list Z;
  return_data : list Z;
  static_mode : bool;
  ext_call_depth : Z;
  allowed_storage_keys : option (gset Z);
  warm_storage_keys : gset Z;
  accessed_raw_slots : gset Z;
  written_raw_slots : gset Z;
  create_counter : gmap Address Z
}.

Definition set_pc (x : Z) (v : Vm) : Vm :=
  mkVm x (fp v) (gas_used_total v) (gas_limit v) (gas_refund v) (cpu v) (decoded_cache v)
    (memory v) (ctx v) (storage v) (storage_backend v) (call_stack v) (logs v)
    (storage_journal v) (storage_journal_keys v) (balance_journal v)
    (balance_journal_keys v) (contracts v) (code_backend v) (calldata v)
    (return_data v) (static_mode v) (ext_call_depth v) (allowed_storage_keys v)
    (warm_storage_keys v) (accessed_raw_slots v) (written_raw_slots v)
    (create_counter v).
Definition set_fp (x : Z) (v : Vm) : Vm :=
  mkVm (pc v) x (gas_used_total v) (gas_limit v) (gas_refund v) (cpu v) (decoded_cache v)
    (memory v) (ctx v) (storage v) (storage_backend v) (call_stack v) (logs v)
    (storage_journal v) (storage_journal_keys v) (balance_journal v)
    (balance_journal_keys v) (contracts v) (code_backend v) (calldata v)
    (return_data v) (static_mode v) (ext_call_depth v) (allowed_storage_keys v)
    (warm_storage_keys v) (accessed_raw_slots v) (written_raw_slots v)
    (create_counter v).
Definition set_gas_used_total (x : Z) (v : Vm) : Vm :=
  mkVm (pc v) (fp v) x (gas_limit v) (gas_refund v) (cpu v) (decoded_cache v) (memory v)
    (ctx v) (storage v) (storage_backend v) (call_stack v) (logs v)
    (storage_journal v) (storage_journal_keys v) (balance_journal v)
    (balance_journal_keys v) (contracts v) (code_backend v) (calldata v)
    (return_data v) (static_mode v) (ext_call_depth v) (allowed_storage_keys v)
    (warm_storage_keys v) (accessed_raw_slots v) (written_raw_slots v)
    (create_counter v).
Definition set_gas_limit (x : Z) (v : Vm) : Vm :=
  mkVm (pc v) (fp v) (gas_used_total v) x (gas_refund v) (cpu v) (decoded_cache v)
    (memory v) (ctx v) (storage v) (storage_backend v) (call_stack v) (logs v)
    (storage_journal v) (storage_journal_keys v) (balance_journal v)
    (balance_journal_keys v) (contracts v) (code_backend v) (calldata v)
    (return_data v) (static_mode v) (ext_call_depth v) (allowed_storage_keys v)
    (warm_storage_keys v) (accessed_raw_slots v) (written_raw_slots v)
    (create_counter v).
Definition set_gas_refund (x : Z) (v : Vm) : Vm :=
  mkVm (pc v) (fp v) (gas_used_total v) (gas_limit v) x (cpu v) (decoded_cache v) (memory v)
    (ctx v) (storage v) (storage_backend v) (call_stack v) (logs v)
    (storage_journal v) (storage_journal_keys v) (balance_journal v)
    (balance_journal_keys v) (contracts v) (code_backend v) (calldata v)
    (return_data v) (static_mode v) (ext_call_depth v) (allowed_storage_keys v)
    (warm_storage_keys v) (accessed_raw_slots v) (written_raw_slots v)
    (create_counter v).
Definition set_cpu (x : Cpu) (v : Vm) : Vm :=
  mkVm (pc v) (fp v) (gas_used_total v) (gas_limit v) (gas_refund v) x (decoded_cache v)
    (memory v) (ctx v) (storage v) (storage_backend v) (call_stack v) (logs v)
    (storage_journal v) (storage_journal_keys v) (balance_journal v)
    (balance_journal_keys v) (contracts v) (code_backend v) (calldata v)
    (return_data v) (static_mode v) (ext_call_depth v) (allowed_storage_keys v)
    (warm_storage_keys v) (accessed_raw_slots v) (written_raw_slots v)
    (create_counter v).
Definition set_decoded_cache (x : list DecodedInstruction) (v : Vm) : Vm :=
  mkVm (pc v) (fp v) (gas_used_total v) (gas_limit v) (gas_refund v) (cpu v) x (memory v)
    (ctx v) (storage v) (storage_backend v) (call_stack v) (logs v)
    (storage_journal v) (storage_journal_keys v) (balance_journal v)
    (balance_journal_keys v) (contracts v) (code_backend v) (calldata v)
    (return_data v) (static_mode v) (ext_call_depth v) (allowed_storage_keys v)
    (warm_storage_keys v) (accessed_raw_slots v) (written_raw_slots v)
    (create_counter v).
Definition set_memory (x : Memory) (v : Vm) : Vm :=
  mkVm (pc v) (fp v) (gas_used_total v) (gas_limit v) (gas_refund v) (cpu v)
    (decoded_cache v) x (ctx v) (storage v) (storage_backend v) (call_stack v)
    (logs v) (storage_journal v) (storage_journal_keys v) (balance_journal v)
    (balance_journal_keys v) (contracts v) (code_backend v) (calldata v)
    (return_data v) (static_mode v) (ext_call_depth v) (allowed_storage_keys v)
    (warm_storage_keys v) (accessed_raw_slots v) (written_raw_slots v)
    (create_counter v).
Definition set_ctx (x : ExecutionContext) (v : Vm) : Vm :=
  mkVm (pc v) (fp v) (gas_used_total v) (gas_limit v) (gas_refund v) (cpu v)
    (decoded_cache v) (memory v) x (storage v) (storage_backend v) (call_stack v)
    (logs v) (storage_journal v) (storage_journal_keys v) (balance_journal v)
    (balance_journal_keys v) (contracts v) (code_backend v) (calldata v)
    (return_data v) (static_mode v) (ext_call_depth v) (allowed_storage_keys v)
    (warm_storage_keys v) (accessed_raw_slots v) (written_raw_slots v)
    (create_counter v).
Definition set_storage (x : gmap Z (list Z)) (v : Vm) : Vm :=
  mkVm (pc v) (fp v) (gas_used_total v) (gas_limit v) (gas_refund v) (cpu v)
    (decoded_cache v) (memory v) (ctx v) x (storage_backend v) (call_stack v)
    (logs v) (storage_journal v) (storage_journal_keys v) (balance_journal v)
    (balance_journal_keys v) (contracts v) (code_backend v) (calldata v)
    (return_data v) (static_mode v) (ext_call_depth v) (allowed_storage_keys v)
    (warm_storage_keys v) (accessed_raw_slots v) (written_raw_slots v)
    (create_counter v).
Definition set_storage_backend (x : option (Z -> option (list Z))) (v : Vm) : Vm :=
  mkVm (pc v) (fp v) (gas_used_total v) (gas_limit v) (gas_refund v) (cpu v)
    (decoded_cache v) (memory v) (ctx v) (storage v) x (call_stack v) (logs v)
    (storage_journal v) (storage_journal_keys v) (balance_journal v)
    (balance_journal_keys v) (contracts v) (code_backend v) (calldata v)
    (return_data v) (static_mode v) (ext_call_depth v) (allowed_storage_keys v)
    (warm_storage_keys v) (accessed_raw_slots v) (written_raw_slots v)
    (create_counter v).
Definition set_call_stack (x : list CallFrame) (v : Vm) : Vm :=
  mkVm (pc v) (fp v) (gas_used_total v) (gas_limit v) (gas_refund v) (cpu v)
    (decoded_cache v) (memory v) (ctx v) (storage v) (storage_backend v) x (logs v)
    (storage_journal v) (storage_journal_keys v) (balance_journal v)
    (balance_journal_keys v) (contracts v) (code_backend v) (calldata v)
    (return_data v) (static_mode v) (ext_call_depth v) (allowed_storage_keys v)
    (warm_storage_keys v) (accessed_raw_slots v) (written_raw_slots v)
    (create_counter v).
Definition set_logs (x : list EventLog) (v : Vm) : Vm :=
  mkVm (pc v) (fp v) (gas_used_total v) (gas_limit v) (gas_refund v) (cpu v)
    (decoded_cache v) (memory v) (ctx v) (storage v) (storage_backend v)
    (call_stack v) x (storage_journal v) (storage_journal_keys v) (balance_journal v)
    (balance_journal_keys v) (contracts v) (code_backend v) (calldata v)
    (return_data v) (static_mode v) (ext_call_depth v) (allowed_storage_keys v)
    (warm_storage_keys v) (accessed_raw_slots v) (written_raw_slots v)
    (create_counter v).
Definition set_storage_journal (x : list (Z * option (list Z))) (v : Vm) : Vm :=
  mkVm (pc v) (fp v) (gas_used_total v) (gas_limit v) (gas_refund v) (cpu v)
    (decoded_cache v) (memory v) (ctx v) (storage v) (storage_backend v)
    (call_stack v) (logs v) x (storage_journal_keys v) (balance_journal v)
    (balance_journal_keys v) (contracts v) (code_backend v) (calldata v)
    (return_data v) (static_mode v) (ext_call_depth v) (allowed_storage_keys v)
    (warm_storage_keys v) (accessed_raw_slots v) (written_raw_slots v)
    (create_counter v).
Definition set_storage_journal_keys (x : gset Z) (v : Vm) : Vm :=
  mkVm (pc v) (fp v) (gas_used_total v) (gas_limit v) (gas_refund v) (cpu v)
    (decoded_cache v) (memory v) (ctx v) (storage v) (storage_backend v)
    (call_stack v) (logs v) (storage_journal v) x (balance_journal v)
    (balance_journal_keys v) (contracts v) (code_backend v) (calldata v)
    (return_data v) (static_mode v) (ext_call_depth v) (allowed_storage_keys v)
    (warm_storage_keys v) (accessed_raw_slots v) (written_raw_slots v)
    (create_counter v).
Definition set_balance_journal (x : list (Address * option Z)) (v : Vm) : Vm :=
  mkVm (pc v) (fp v) (gas_used_total v) (gas_limit v) (gas_refund v) (cpu v)
    (decoded_cache v) (memory v) (ctx v) (storage v) (storage_backend v)
    (call_stack v) (logs v) (storage_journal v) (storage_journal_keys v) x
    (balance_journal_keys v) (contracts v) (code_backend v) (calldata v)
    (return_data v) (static_mode v) (ext_call_depth v) (allowed_storage_keys v)
    (warm_storage_keys v) (accessed_raw_slots v) (written_raw_slots v)
    (create_counter v).
Definition set_balance_journal_keys (x : gset Address) (v : Vm) : Vm :=
  mkVm (pc v) (fp v) (gas_used_total v) (gas_limit v) (gas_refund v) (cpu v)
    (decoded_cache v) (memory v) (ctx v) (storage v) (storage_backend v)
    (call_stack v) (logs v) (storage_journal v) (storage_journal_keys v)
    (balance_journal v) x (contracts v) (code_backend v) (calldata v) (return_data v)
    (static_mode v) (ext_call_depth v) (allowed_storage_keys v) (warm_storage_keys v)
    (accessed_raw_slots v) (written_raw_slots v) (create_counter v).
Definition set_contracts (x : gmap Address (list Z)) (v : Vm) : Vm :=
  mkVm (pc v) (fp v) (gas_used_total v) (gas_limit v) (gas_refund v) (cpu v)
    (decoded_cache v) (memory v) (ctx v) (storage v) (storage_backend v)
    (call_stack v) (logs v) (storage_journal v) (storage_journal_keys v)
    (balance_journal v) (balance_journal_keys v) x (code_backend v) (calldata v)
    (return_data v) (static_mode v) (ext_call_depth v) (allowed_storage_keys v)
    (warm_storage_keys v) (accessed_raw_slots v) (written_raw_slots v)
    (create_counter v).
Definition set_code_backend (x : option (Address -> option (list Z))) (v : Vm) : Vm :=
  mkVm (pc v) (fp v) (gas_used_total v) (gas_limit v) (gas_refund v) (cpu v)
    (decoded_cache v) (memory v) (ctx v) (storage v) (storage_backend v)
    (call_stack v) (logs v) (storage_journal v) (storage_journal_keys v)
    (balance_journal v) (balance_journal_keys v) (contracts v) x (calldata v)
    (return_data v) (static_mode v) (ext_call_depth v) (allowed_storage_keys v)
    (warm_storage_keys v) (accessed_raw_slots v) (written_raw_slots v)
    (create_counter v).
Definition set_calldata (x : list Z) (v : Vm) : Vm :=
  mkVm (pc v) (fp v) (gas_used_total v) (gas_limit v) (gas_refund v) (cpu v)
    (decoded_cache v) (memory v) (ctx v) (storage v) (storage_backend v)
    (call_stack v) (logs v) (storage_journal v) (storage_journal_keys v)
    (balance_journal v) (balance_journal_keys v) (contracts v) (code_backend v) x
    (return_data v) (static_mode v) (ext_call_depth v) (allowed_storage_keys v)
    (warm_storage_keys v) (accessed_raw_slots v) (written_raw_slots v)
    (create_counter v).
Definition set_return_data (x : list Z) (v : Vm) : Vm :=
  mkVm (pc v) (fp v) (gas_used_total v) (gas_limit v) (gas_refund v) (cpu v)
    (decoded_cache v) (memory v) (ctx v) (storage v) (storage_backend v)
    (call_stack v) (logs v) (storage_journal v) (storage_journal_keys v)
    (balance_journal v) (balance_journal_keys v) (contracts v) (code_backend v)
    (calldata v) x (static_mode v) (ext_call_depth v) (allowed_storage_keys v)
    (warm_storage_keys v) (accessed_raw_slots v) (written_raw_slots v)
    (create_counter v).
Definition set_static_mode (x : bool) (v : Vm) : Vm :=
  mkVm (pc v) (fp v) (gas_used_total v) (gas_limit v) (gas_refund v) (cpu v)
    (decoded_cache v) (memory v) (ctx v) (storage v) (storage_backend v)
    (call_stack v) (logs v) (storage_journal v) (storage_journal_keys v)
    (balance_journal v) (balance_journal_keys v) (contracts v) (code_backend v)
    (calldata v) (return_data v) x (ext_call_depth v) (allowed_storage_keys v)
    (warm_storage_keys v) (accessed_raw_slots v) (written_raw_slots v)
    (create_counter v).
Definition set_ext_call_depth (x : Z) (v : Vm) : Vm :=
  mkVm (pc v) (fp v) (gas_used_total v) (gas_limit v) (gas_refund v) (cpu v)
    (decoded_cache v) (memory v) (ctx v) (storage v) (storage_backend v)
    (call_stack v) (logs v) (storage_journal v) (storage_journal_keys v)
    (balance_journal v) (balance_journal_keys v) (contracts v) (code_backend v)
    (calldata v) (return_data v) (static_mode v) x (allowed_storage_keys v)
    (warm_storage_keys v) (accessed_raw_slots v) (written_raw_slots v)
    (create_counter v).
Definition set_allowed_storage_keys (x : option (gset Z)) (v : Vm) : Vm :=
  mkVm (pc v) (fp v) (gas_used_total v) (gas_limit v) (gas_refund v) (cpu v)
    (decoded_cache v) (memory v) (ctx v) (storage v) (storage_backend v)
    (call_stack v) (logs v) (storage_journal v) (storage_journal_keys v)
    (balance_journal v) (balance_journal_keys v) (contracts v) (code_backend v)
    (calldata v) (return_data v) (static_mode v) (ext_call_depth v) x
    (warm_storage_keys v) (accessed_raw_slots v) (written_raw_slots v)
    (create_counter v).
Definition set_warm_storage_keys (x : gset Z) (v : Vm) : Vm :=
  mkVm (pc v) (fp v) (gas_used_total v) (gas_limit v) (gas_refund v) (cpu v)
    (decoded_cache v) (memory v) (ctx v) (storage v) (storage_backend v)
    (call_stack v) (logs v) (storage_journal v) (storage_journal_keys v)
    (balance_journal v) (balance_journal_keys v) (contracts v) (code_backend v)
    (calldata v) (return_data v) (static_mode v) (ext_call_depth v)
    (allowed_storage_keys v) x (accessed_raw_slots v) (written_raw_slots v)
    (create_counter v).
Definition set_accessed_raw_slots (x : gset Z) (v : Vm) : Vm :=
  mkVm (pc v) (fp v) (gas_used_total v) (gas_limit v) (gas_refund v) (cpu v)
    (decoded_cache v) (memory v) (ctx v) (storage v) (storage_backend v)
    (call_stack v) (logs v) (storage_journal v) (storage_journal_keys v)
    (balance_journal v) (balance_journal_keys v) (contracts v) (code_backend v)
    (calldata v) (return_data v) (static_mode v) (ext_call_depth v)
    (allowed_storage_keys v) (warm_storage_keys v) x (written_raw_slots v)
    (create_counter v).
Definition set_written_raw_slots (x : gset Z) (v : Vm) : Vm :=
  mkVm (pc v) (fp v) (gas_used_total v) (gas_limit v) (gas_refund v) (cpu v)
    (decoded_cache v) (memory v) (ctx v) (storage v) (storage_backend v)
    (call_stack v) (logs v) (storage_journal v) (storage_journal_keys v)
    (balance_journal v) (balance_journal_keys v) (contracts v) (code_backend v)
    (calldata v) (return_data v) (static_mode v) (ext_call_depth v)
    (allowed_storage_keys v) (warm_storage_keys v) (accessed_raw_slots v) x
    (create_counter v).
Definition set_create_counter (x : gmap Address Z) (v : Vm) : Vm :=
  mkVm (pc v) (fp v) (gas_used_total v) (gas_limit v) (gas_refund v) (cpu v)
    (decoded_cache v) (memory v) (ctx v) (storage v) (storage_backend v)
    (call_stack v) (logs v) (storage_journal v) (storage_journal_keys v)
    (balance_journal v) (balance_journal_keys v) (contracts v) (code_backend v)
    (calldata v) (return_data v) (static_mode v) (ext_call_depth v)
    (allowed_storage_keys v) (warm_storage_keys v) (accessed_raw_slots v)
    (written_raw_slots v) x.

(** ** Construction *)

Definition Vm_new : Vm := {|
  cpu := Cpu_new; memory := Memory_new; pc := 0; call_stack := []; fp := 0;
  gas_used_total := 0; gas_limit := 0; gas_refund := 0; ctx := ExecutionContext_default;
  storage := ∅; storage_backend := None; logs := []; storage_journal := [];
  storage_journal_keys := ∅; balance_journal := []; balance_journal_keys := ∅;
  decoded_cache := []; contracts := ∅; code_backend := None; calldata := [];
  return_data := []; static_mode := false; ext_call_depth := 0; allowed_storage_keys := None;
  warm_storage_keys := ∅; accessed_raw_slots := ∅; written_raw_slots := ∅; create_counter := ∅ |}.

Definition with_gas_limit (limit : Z) : Vm := set_gas_limit limit Vm_new.
Definition with_context (c : ExecutionContext) : Vm := set_ctx c Vm_new.
Definition with_gas_limit_and_context (limit : Z) (c : ExecutionContext) : Vm :=
  set_gas_limit limit (set_ctx c Vm_new).

(** ** Computations *)

(** A step of the VM traps; the model of the interpreter may also run out of
    fuel while a child VM executes. *)
Inductive VmErr : Type :=
| Trapped (t : Trap)
| NoFuel.

Definition M (A : Type) : Type := ST Vm VmErr A.

Definition trap {A : Type} (t : Trap) : M A := throw (Trapped t).

Definition lift_trap {A : Type} (r : Result A Trap) : M A := lift_result (map_err Trapped r).

(** [self.memory.f(..).map_err(|_| Trap::MemoryFault)?] *)
Definition with_memory {A : Type} (f : MemM A) : M A := fun v =>
  let (m', r) := f (memory v) in
  (set_memory m' v, map_err (fun _ => Trapped MemoryFault) r).

(** A fallible register operation. *)
Definition with_cpu {A : Type} (f : ST Cpu Trap A) : M A := fun v =>
  let (c', r) := f (cpu v) in (set_cpu c' v, map_err Trapped r).

Definition gp_read (reg : Z) : M Z := gets (fun v => read_gp reg (cpu v)).
Definition gp_write (reg val : Z) : M unit := modify (fun v => set_cpu (write_gp reg val (cpu v)) v).
Definition wide_read (reg : Z) : M Z :=
  r <-- gets (fun v => read_wide_checked reg (cpu v)) ;; lift_trap r.
Definition wide_write (reg val : Z) : M unit := with_cpu (write_wide_checked reg val).
(** The unchecked [write_wide], which masks its index. *)
Definition wide_write_masked (reg val : Z) : M unit :=
  modify (fun v => set_cpu (write_wide reg val (cpu v)) v).

(** [self.pc += 4] *)
Definition next_pc : M unit := modify (fun v => set_pc (wrap u32 (pc v + 4)) v).

(** ** Gas *)

(** [gas_used_total.checked_add(n).ok_or(OutOfGas)?], then the limit check;
    a limit of 0 means no limit. *)
Definition charge_gas (n : Z) : M unit :=
  v <-- get ;;
  match checked_add u64 (gas_used_total v) n with
  | None => trap OutOfGas
  | Some g =>
      modify (set_gas_used_total g) ;;;
      if (0 <? gas_limit v) && (gas_limit v <? g) then trap OutOfGas else ret tt
  end.

(** The page gas accumulated during an instruction is moved to the counter. *)
Definition drain_page_gas : M unit :=
  v <-- get ;;
  if 0 <? page_gas_used (memory v) then
    match checked_add u64 (gas_used_total v) (page_gas_used (memory v)) with
    | None => trap OutOfGas
    | Some g =>
        modify (fun v => set_memory (set_page_gas_used 0 (memory v)) (set_gas_used_total g v)) ;;;
        if (0 <? gas_limit v) && (gas_limit v <? g) then trap OutOfGas else ret tt
    end
  else ret tt.

Definition gas_remaining (v : Vm) : Z :=
  if gas_limit v =? 0 then max_of u64 else saturating_sub (gas_limit v) (gas_used_total v).

Definition effective_gas_used (v : Vm) : Z :=
  let max_refund := gas_used_total v / 2 in
  let refund := Z.min (gas_refund v) max_refund in
  gas_used_total v - refund.

Definition precheck_bulk_page_budget (bytes : Z) : M unit :=
  v <-- get ;;
  if (bytes =? 0) || (gas_limit v =? 0) then ret tt
  else
    let n_pages := div_ceil bytes PAGE_SIZE in
    match checked_mul u64 n_pages PAGE_ALLOC_GAS with
    | None => trap OutOfGas
    | Some worst =>
        match checked_add u64 (gas_used_total v) worst with
        | None => trap OutOfGas
        | Some projected => if gas_limit v <? projected then trap OutOfGas else ret tt
        end
    end.

(** ** Journals *)

Definition journal_storage_write (key : Z) (v : Vm) : Vm :=
  if bool_decide (key ∈ storage_journal_keys v) then v
  else
    set_storage_journal (storage_journal v ++ [(key, storage v !! key)])
      (set_storage_journal_keys ({[key]} ∪ storage_journal_keys v) v).

Definition journal_balance_write (addr : Address) (v : Vm) : Vm :=
  if bool_decide (addr ∈ balance_journal_keys v) then v
  else
    set_balance_journal (balance_journal v ++ [(addr, balances (ctx v) !! addr)])
      (set_balance_journal_keys ({[addr]} ∪ balance_journal_keys v) v).

(** Undoes one journal entry: restores the old value or removes the key. *)
Definition restore {K V : Type} `{Countable K} (m : gmap K V) (e : K * option V) : gmap K V :=
  match e with
  | (k, Some x) => <[k := x]> m
  | (k, None) => delete k m
  end.

Definition rollback_storage (v : Vm) : Vm :=
  set_storage (foldl restore (storage v) (rev (storage_journal v)))
    (set_storage_journal [] (set_storage_journal_keys ∅ v)).

Definition rollback_balances (v : Vm) : Vm :=
  set_ctx (set_balances (foldl restore (balances (ctx v)) (rev (balance_journal v))) (ctx v))
    (set_balance_journal [] (set_balance_journal_keys ∅ v)).

Definition rollback_storage_pub (v : Vm) : Vm := rollback_storage v.

Definition clear_journal (v : Vm) : Vm := set_storage_journal [] (set_storage_journal_keys ∅ v).

(** ** Storage keys *)

(** [slot_bytes.iter().rev().take_while(|&&b| b == 0).count()] *)
Fixpoint leading_zeros (l : list Z) : nat :=
  match l with
  | 0 :: l' => S (leading_zeros l')
  | _ => O
  end.

Definition derive_storage_key {P : Primitives} (v : Vm) (slot : Z) : Z :=
  let slot_bytes := le_encode 32 slot in
  let significant_len := (32 - leading_zeros (rev slot_bytes))%nat in
  let slot_len := Nat.max significant_len 8 in
  le_decode (poseidon2_hash (self_address (ctx v) ++ [0x04] ++ take slot_len slot_bytes)).

(** ** Loading a program *)

(** The little-endian words of the bytecode; a trailing partial word is
    dropped, as [bytecode.len() / 4] does. *)
Fixpoint words (bytecode : list Z) : list Z :=
  match bytecode with
  | b0 :: b1 :: b2 :: b3 :: rest => le_decode [b0; b1; b2; b3] :: words rest
  | _ => []
  end.

Definition map_calldata : M unit :=
  v <-- get ;;
  let n := len (calldata v) in
  if n =? 0 then ret tt
  else if MEMORY_SIZE - HEAP_START <? n then trap MemoryFault
  else
    with_memory (checked_write_slice HEAP_START (calldata v)) ;;;
    let aligned_len := Z.land (n + 7) (Z.lnot 7) in
    modify (fun v => set_memory (set_heap_top (wrap u32 (HEAP_START + aligned_len)) (memory v)) v) ;;;
    gp_write 4 n ;;;
    gp_write 5 HEAP_START.

Definition load (bytecode : list Z) : M unit :=
  with_memory (load_code bytecode) ;;;
  modify (set_pc 0) ;;;
  modify (set_decoded_cache (decode <$> words bytecode)) ;;;
  v <-- get ;;
  if negb (len (calldata v) =? 0) then map_calldata else ret tt.

(** ** The program counter *)

Definition check_pc_bounds : M unit :=
  v <-- get ;;
  if negb (Z.land (pc v) 3 =? 0) then trap InvalidOpcode
  else if len (decoded_cache v) <=? pc v / 4 then trap InvalidOpcode
  else ret tt.

Definition fetch : M Z :=
  check_pc_bounds ;;;
  v <-- get ;;
  ret (fetch_code_u32 (wrap u32 (CODE_START + pc v)) (memory v)).

(** Safe address calculation: base (u64) + offset (i64). *)
Definition safe_addr (base offset : Z) : Result Z Trap :=
  let result := base + offset in
  if (result <? 0) || (max_of u32 <? result) then Err MemoryFault else Ok result.

Definition call_depth (v : Vm) : Z := len (call_stack v).
