(* ===== verification/VmStep.v ===== *)
(** * The PVM interpreter ([crates/pvm/src/vm.rs], instructions and execution)

    One definition per instruction or group of [step]'s arms, the external
    call and deployment machinery, and the execution loop.  A child VM runs
    through the argument [exec_child], which the fuelled loop ties to itself. *)

From stdpp Require Import base numbers list option gmap.
From Stdlib Require Import ZArith Lia.
From S2P Require Import Prelude Crypto Isa Cpu Memory Vm.

#[local] Open Scope Z_scope.
#[local] Open Scope pyde_scope.

(** How an arm of [step] ends: it falls through to the page-gas drain at the
    end, or returns. *)
Inductive Flow : Type :=
| Next
| Return (r : option ExecResult).

(** A memory operation whose failure the caller inspects. *)
Definition try_memory {A : Type} (f : MemM A) : M (Result A MemoryError) := fun v =>
  let (m', r) := f (memory v) in (set_memory m' v, Ok r).

(** [as u32] *)
Definition as_u32 (x : Z) : Z := wrap u32 x.

(** [(d.rs2_or_imm >> n) & 0xF] *)
Definition imm_reg (n : Z) (d : DecodedInstruction) : Z := Z.land (Z.shiftr (rs2_or_imm d) n) 0xF.
Definition imm_bit (n : Z) (d : DecodedInstruction) : bool :=
  Z.land (Z.shiftr (rs2_or_imm d) n) 1 =? 1.

(** ** Control flow *)

Definition jump_rel (d : DecodedInstruction) : M unit :=
  modify (fun v => set_pc (wrap u32 (pc v + of_signed u32 (sign_extend_18 (rs2_or_imm d)))) v).

Definition branch (test : Z -> Z -> bool) (d : DecodedInstruction) : M unit :=
  rs1_val <-- gp_read (rd d) ;;
  rs2_val <-- gp_read (rs1 d) ;;
  if test rs1_val rs2_val then jump_rel d else next_pc.

Definition exec_call (d : DecodedInstruction) : M unit :=
  v <-- get ;;
  if MAX_CALL_DEPTH <=? len (call_stack v) then trap StackOverflow
  else
    modify (fun v => set_call_stack (mkFrame (wrap u32 (pc v + 4)) (fp v) :: call_stack v) v) ;;;
    modify (fun v => set_fp (stack_pointer (memory v)) v) ;;;
    jump_rel d.

Definition exec_ret : M unit :=
  v <-- get ;;
  match call_stack v with
  | [] => trap StackUnderflow
  | frame :: rest =>
      modify (set_call_stack rest) ;;;
      modify (set_pc (return_addr frame)) ;;;
      modify (set_fp (frame_pointer frame))
  end.

Definition exec_revert (d : DecodedInstruction) : M Flow :=
  when (negb (rs1 d =? 0))
    (ptr <-- gp_read (rs1 d) ;;
     n <-- gp_read (imm_reg 0 d) ;;
     when (0 <? n)
       (r <-- try_memory (checked_read_slice (as_u32 ptr) n) ;;
        match r with
        | Ok data => modify (set_return_data data)
        | Err _ => ret tt
        end)) ;;;
  ret (Return (Some Reverted)).

(** ** 64-bit arithmetic, inlined in the interpreter *)

Definition exec_alu_inline (d : DecodedInstruction) : M unit :=
  a <-- gp_read (rs1 d) ;;
  b <-- gp_read (Z.land (rs2_or_imm d) 0xF) ;;
  let write r := gp_write (rd d) r ;;; next_pc in
  match opcode d with
  | Opcode.Add => r <-- lift_trap (ok_or (checked_add u64 a b) Overflow) ;; write r
  | Opcode.Sub => r <-- lift_trap (ok_or (checked_sub a b) Underflow) ;; write r
  | Opcode.Mul => r <-- lift_trap (ok_or (checked_mul u64 a b) Overflow) ;; write r
  | Opcode.Div => if b =? 0 then trap DivisionByZero else write (a / b)
  | Opcode.Mod => if b =? 0 then trap DivisionByZero else write (a mod b)
  | Opcode.Addi =>
      let imm := sign_extend_18 (rs2_or_imm d) in
      (* ((a as i64).wrapping_add(imm)) as u64 *)
      write (of_signed u64 (to_signed u64 a + imm))
  | Opcode.And => write (Z.land a b)
  | Opcode.Or => write (Z.lor a b)
  | Opcode.Xor => write (Z.lxor a b)
  | Opcode.Not => write (not64 a)
  | Opcode.Shl => write (if 64 <=? b then 0 else wrap u64 (Z.shiftl a b))
  | Opcode.Shr => write (if 64 <=? b then 0 else Z.shiftr a b)
  | Opcode.Sar =>
      let a := to_signed u64 a in
      write (if 64 <=? b then (if a <? 0 then max_of u64 else 0) else of_signed u64 (Z.shiftr a b))
  | Opcode.Lt => write (b2z (a <? b))
  | Opcode.Gt => write (b2z (b <? a))
  | Opcode.Eq => write (b2z (a =? b))
  | Opcode.Slt => write (b2z (to_signed u64 a <? to_signed u64 b))
  | Opcode.Sgt => write (b2z (to_signed u64 b <? to_signed u64 a))
  | _ => trap InvalidOpcode
  end.

Definition exec_wide_op (d : DecodedInstruction) : M unit :=
  with_cpu (exec_wide (encode (opcode d) (rd d) (rs1 d) (rs2_or_imm d))) ;;;
  next_pc.

(** ** Memory instructions *)

Definition exec_load (d : DecodedInstruction) : M unit :=
  base <-- gp_read (rs1 d) ;;
  addr <-- lift_trap (safe_addr base (decode_mem_offset (rs2_or_imm d))) ;;
  val <-- match decode_mem_width (rs2_or_imm d) with
          | W8 => with_memory (load8 addr)
          | W16 => with_memory (load16 addr)
          | W32 => with_memory (load32 addr)
          | W64 => with_memory (load64 addr)
          end ;;
  gp_write (rd d) val ;;;
  next_pc.

Definition exec_store (d : DecodedInstruction) : M unit :=
  base <-- gp_read (rs1 d) ;;
  addr <-- lift_trap (safe_addr base (decode_mem_offset (rs2_or_imm d))) ;;
  val <-- gp_read (rd d) ;;
  match decode_mem_width (rs2_or_imm d) with
  | W8 => with_memory (store8 addr (wrap u8 val))
  | W16 => with_memory (store16 addr (wrap u16 val))
  | W32 => with_memory (store32 addr (wrap u32 val))
  | W64 => with_memory (store64 addr val)
  end ;;;
  next_pc.

Definition exec_wload (d : DecodedInstruction) : M unit :=
  base <-- gp_read (rs1 d) ;;
  addr <-- lift_trap (safe_addr base (sign_extend_18 (rs2_or_imm d))) ;;
  bytes <-- with_memory (load256 addr) ;;
  wide_write (rd d) (le_decode bytes) ;;;
  next_pc.

Definition exec_wstore (d : DecodedInstruction) : M unit :=
  base <-- gp_read (rs1 d) ;;
  addr <-- lift_trap (safe_addr base (sign_extend_18 (rs2_or_imm d))) ;;
  val <-- wide_read (rd d) ;;
  with_memory (store256 addr (le_encode 32 val)) ;;;
  next_pc.

Definition exec_push (d : DecodedInstruction) : M unit :=
  val <-- gp_read (rd d) ;;
  sp <-- with_memory (stack_alloc 8) ;;
  with_memory (store64 sp val) ;;;
  next_pc.

Definition exec_pop (d : DecodedInstruction) : M unit :=
  sp <-- gets (fun v => stack_pointer (memory v)) ;;
  if negb (is_some (checked_add u32 sp 8)) || (STACK_TOP <? sp + 8) then trap MemoryFault
  else
    val <-- with_memory (load64 sp) ;;
    gp_write (rd d) val ;;;
    modify (fun v => set_memory (set_stack_pointer (sp + 8) (memory v)) v) ;;;
    next_pc.

(** ** Environment queries *)

Definition exec_caller (d : DecodedInstruction) : M unit :=
  v <-- get ;;
  let sub := rs2_or_imm d in
  val <-- (if sub =? env_gp.BLOCK_NUMBER then ret (block_number (ctx v))
           else if sub =? env_gp.TIMESTAMP then ret (timestamp (ctx v))
           else if sub =? env_gp.GAS_REMAINING then ret (gas_remaining v)
           else if sub =? env_gp.TX_NONCE then ret (tx_nonce (ctx v))
           else if sub =? env_gp.TX_GAS_LIMIT then ret (tx_gas_limit (ctx v))
           else trap InvalidOpcode) ;;
  gp_write (rd d) val ;;;
  next_pc.

Definition exec_callvalue (d : DecodedInstruction) : M unit :=
  v <-- get ;;
  let sub := rs2_or_imm d in
  val <-- (if sub =? env_wide.CALL_VALUE then ret (call_value (ctx v))
           else if sub =? env_wide.GAS_PRICE then ret (gas_price (ctx v))
           else if sub =? env_wide.BALANCE then
             a <-- wide_read (rs1 d) ;; ret (default 0 (balances (ctx v) !! le_encode 32 a))
           else if sub =? env_wide.CALLER then ret (le_decode (caller (ctx v)))
           else if sub =? env_wide.ADDRESS then ret (le_decode (self_address (ctx v)))
           else if sub =? env_wide.TX_HASH then ret (tx_hash (ctx v))
           else if sub =? env_wide.BLOCK_PROPOSER then ret (le_decode (block_proposer (ctx v)))
           else trap InvalidOpcode) ;;
  wide_write (rd d) val ;;;
  next_pc.

Definition exec_blockhash (d : DecodedInstruction) : M unit :=
  height <-- gp_read (rs1 d) ;;
  v <-- get ;;
  let current := block_number (ctx v) in
  let hash :=
    if (height <? current) && (current - height <=? 256)
    then default 0 (block_hashes (ctx v) !! Z.to_nat (current - height - 1))
    else 0 in
  wide_write (rd d) hash ;;;
  next_pc.

Section Instructions.
Context {P : Primitives}.

(** ** Hashing *)

Definition exec_poseidon (d : DecodedInstruction) : M unit :=
  addr <-- gp_read (rs1 d) ;;
  byte_len <-- gp_read (imm_reg 0 d) ;;
  charge_gas (wrap u64 (div_ceil byte_len 32 * 250)) ;;;
  data <-- with_memory (checked_read_slice (as_u32 addr) byte_len) ;;
  wide_write (rd d) (le_decode (poseidon2_hash data)) ;;;
  next_pc.

(** ** Storage *)

(** Strict access-list enforcement. *)
Definition check_access_list (key : Z) : M unit :=
  v <-- get ;;
  match allowed_storage_keys v with
  | Some allowed => if bool_decide (key ∈ allowed) then ret tt else trap AccessListViolation
  | None => ret tt
  end.

(** First touch of a key in the transaction. *)
Definition warm_up (key : Z) : M unit :=
  v <-- get ;;
  if bool_decide (key ∈ warm_storage_keys v) then ret tt
  else
    modify (fun v => set_warm_storage_keys ({[key]} ∪ warm_storage_keys v) v) ;;;
    charge_gas 1800.

Definition note_access (slot : Z) : M unit :=
  modify (fun v => set_accessed_raw_slots ({[slot]} ∪ accessed_raw_slots v) v).
Definition note_write (slot : Z) : M unit :=
  modify (fun v => set_written_raw_slots ({[slot]} ∪ written_raw_slots v) v).

(** The value a load sees: the overlay, then the backend. *)
Definition storage_lookup (v : Vm) (key : Z) : option (list Z) :=
  match storage v !! key with
  | Some x => Some x
  | None => match storage_backend v with Some backend => backend key | None => None end
  end.

(** A backend result is cached in the overlay. *)
Definition cache_storage (key : Z) (val : option (list Z)) (v : Vm) : Vm :=
  match storage v !! key, val with
  | None, Some x => set_storage (<[key := x]> (storage v)) v
  | _, _ => v
  end.

(** [buf[..min(len, n)].copy_from_slice(..)] into a zeroed buffer of [n] bytes. *)
Definition fit (n : nat) (data : list Z) : list Z :=
  take n data ++ replicate (n - length data) 0.

Definition exec_sload (d : DecodedInstruction) : M unit :=
  slot <-- wide_read (rs1 d) ;;
  note_access slot ;;;
  v0 <-- get ;;
  let key := derive_storage_key v0 slot in
  check_access_list key ;;;
  warm_up key ;;;
  v <-- get ;;
  let storage_value := storage_lookup v key in
  modify (cache_storage key storage_value) ;;;
  let mode := Z.land (rs2_or_imm d) 0x3 in
  (if mode =? 0 then
     wide_write_masked (rd d) (le_decode (fit 32 (default [] storage_value)))
   else if mode =? 1 then
     ptr <-- gp_read (imm_reg 2 d) ;;
     match storage_value with
     | Some data =>
         charge_gas (wrap u64 (div_ceil (len data) 8 * 3)) ;;;
         precheck_bulk_page_budget (len data) ;;;
         with_memory (checked_write_slice (as_u32 ptr) data) ;;;
         gp_write (rd d) (len data)
     | None => gp_write (rd d) 0
     end
   else if mode =? 2 then
     gp_write (rd d) (le_decode (fit 8 (default [] storage_value)))
   else trap InvalidOpcode) ;;;
  next_pc.

Definition storage_insert (key : Z) (val : list Z) : M unit :=
  modify (fun v => set_storage (<[key := val]> (storage v)) v).

Definition exec_sstore (d : DecodedInstruction) : M unit :=
  s <-- gets static_mode ;;
  if (s : bool) then trap StaticModeViolation
  else
    slot <-- wide_read (rs1 d) ;;
    note_access slot ;;;
    note_write slot ;;;
    v0 <-- get ;;
    let key := derive_storage_key v0 slot in
    check_access_list key ;;;
    warm_up key ;;;
    modify (journal_storage_write key) ;;;
    let mode := Z.land (rs2_or_imm d) 0x3 in
    (if mode =? 0 then
       value <-- wide_read (rd d) ;;
       storage_insert key (le_encode 32 value)
     else if mode =? 2 then
       value <-- gp_read (rd d) ;;
       storage_insert key (le_encode 8 value)
     else if mode =? 1 then
       ptr <-- gp_read (imm_reg 2 d) ;;
       n <-- gp_read (imm_reg 6 d) ;;
       charge_gas (wrap u64 (div_ceil n 8 * 3)) ;;;
       precheck_bulk_page_budget n ;;;
       data <-- with_memory (checked_read_slice (as_u32 ptr) n) ;;
       storage_insert key data
     else trap InvalidOpcode) ;;;
    next_pc.

Definition exec_sdelete (d : DecodedInstruction) : M unit :=
  s <-- gets static_mode ;;
  if (s : bool) then trap StaticModeViolation
  else
    slot <-- wide_read (rs1 d) ;;
    note_access slot ;;;
    note_write slot ;;;
    v0 <-- get ;;
    let key := derive_storage_key v0 slot in
    warm_up key ;;;
    modify (journal_storage_write key) ;;;
    v <-- get ;;
    match storage v !! key with
    | Some (_ :: _) => modify (fun v => set_gas_refund (wrap u64 (gas_refund v + 1500)) v)
    | _ => ret tt
    end ;;;
    storage_insert key [] ;;;
    next_pc.

(** ** Events *)

Definition exec_log (d : DecodedInstruction) : M unit :=
  s <-- gets static_mode ;;
  if (s : bool) then trap StaticModeViolation
  else
    let num_topics := Z.land (rs2_or_imm d) 0x7 in
    if 4 <? num_topics then trap InvalidOpcode
    else
      p <-- gp_read (rs1 d) ;;
      let desc_ptr := as_u32 p in
      tops <-- traverse (fun t : nat =>
          let offset := wrap u32 (desc_ptr + Z.of_nat t * 32) in
          buf <-- traverse (fun j : nat => with_memory (load8 (wrap u32 (offset + Z.of_nat j))))
                    (seq 0 32) ;;
          ret (le_decode buf))
        (seq 0 (Z.to_nat num_topics)) ;;
      let after_topics := wrap u32 (desc_ptr + num_topics * 32) in
      dp <-- with_memory (load64 after_topics) ;;
      data_len <-- with_memory (load64 (wrap u32 (after_topics + 8))) ;;
      data <-- with_memory (checked_read_slice (as_u32 dp) data_len) ;;
      charge_gas (wrap u64 (100 + data_len * 8 + num_topics * 50)) ;;;
      modify (fun v => set_logs (logs v ++ [mkLog (self_address (ctx v)) tops data]) v) ;;;
      next_pc.

(** ** Signatures *)

(** The early returns of [VerifySig] and [MerkleVerify]: write 0, step over,
    and drain the page gas here since the end of [step] is skipped. *)
Definition return_zero (d : DecodedInstruction) : M Flow :=
  gp_write (rd d) 0 ;;;
  next_pc ;;;
  drain_page_gas ;;;
  ret (Return None).

Definition exec_verifysig (d : DecodedInstruction) : M Flow :=
  p <-- gp_read (rs1 d) ;;
  let desc_addr := as_u32 p in
  let field n := with_memory (load64 (wrap u32 (desc_addr + n))) in
  msg_ptr <-- with_memory (load64 desc_addr) ;;
  msg_len <-- field 8 ;;
  sig_ptr <-- field 16 ;;
  sig_len <-- field 24 ;;
  pk_ptr <-- field 32 ;;
  pk_len <-- field 40 ;;
  msg <-- with_memory (checked_read_slice (as_u32 msg_ptr) msg_len) ;;
  sig_bytes <-- with_memory (checked_read_slice (as_u32 sig_ptr) sig_len) ;;
  pk_bytes <-- with_memory (checked_read_slice (as_u32 pk_ptr) pk_len) ;;
  match FalconPublicKey_from_bytes pk_bytes with
  | None => return_zero d
  | Some pk =>
      match FalconSignature_from_bytes sig_bytes with
      | None => return_zero d
      | Some sig =>
          gp_write (rd d) (b2z (falcon_verify pk msg sig)) ;;;
          next_pc ;;;
          ret Next
      end
  end.

(** The proof walk of [MerkleVerify], [i] counting the siblings consumed. *)
Fixpoint merkle_walk (desc_ptr : Z) (i : Z) (fuel : nat) (current : list Z) : M (list Z) :=
  match fuel with
  | O => ret current
  | S f =>
      match checked_add u32 desc_ptr (72 + i * 32) with
      | None => trap MemoryFault
      | Some sib_offset =>
          sib <-- with_memory (checked_read_slice sib_offset 32) ;;
          sibling <-- lift_trap (ok_or (Hash256_from_slice sib) MemoryFault) ;;
          merkle_walk desc_ptr (i + 1) f (poseidon2_pair current sibling)
      end
  end.

Definition exec_merkle_verify (d : DecodedInstruction) : M Flow :=
  p <-- gp_read (rs1 d) ;;
  let desc_ptr := as_u32 p in
  root_bytes <-- with_memory (checked_read_slice desc_ptr 32) ;;
  leaf_bytes <-- with_memory (checked_read_slice (wrap u32 (desc_ptr + 32)) 32) ;;
  proof_len <-- with_memory (load64 (wrap u32 (desc_ptr + 64))) ;;
  if 256 <? proof_len then return_zero d
  else
    charge_gas (proof_len * 1000) ;;;
    leaf <-- lift_trap (ok_or (Hash256_from_slice leaf_bytes) MemoryFault) ;;
    current <-- merkle_walk desc_ptr 0 (Z.to_nat proof_len) leaf ;;
    root <-- lift_trap (ok_or (Hash256_from_slice root_bytes) MemoryFault) ;;
    gp_write (rd d) (b2z (bool_decide (current = root))) ;;;
    next_pc ;;;
    ret Next.

(** ** Assertions and bulk copies *)

Definition exec_assert (d : DecodedInstruction) : M Flow :=
  val <-- gp_read (rs1 d) ;;
  if val =? 0 then ret (Return (Some Reverted)) else next_pc ;;; ret Next.

Definition exec_memcpy (d : DecodedInstruction) : M unit :=
  dst <-- gp_read (rd d) ;;
  src <-- gp_read (rs1 d) ;;
  n <-- gp_read (imm_reg 0 d) ;;
  if MEMORY_SIZE <? n then trap MemoryFault
  else
    when (0 <? n)
      (charge_gas (wrap u64 (div_ceil n 8 * 3)) ;;;
       precheck_bulk_page_budget (saturating_mul u64 n 2) ;;;
       data <-- with_memory (checked_read_slice (as_u32 src) n) ;;
       with_memory (checked_write_slice (as_u32 dst) data)) ;;;
    next_pc.

Definition exec_selfdestruct : M unit :=
  s <-- gets static_mode ;;
  if (s : bool) then trap StaticModeViolation else trap InvalidOpcode.

(** ** External calls

    [exec_child] runs a loaded child VM to its end: [Vm::execute] on it, or
    [None] when the model's fuel is spent. *)

Variable exec_child : Vm -> option (Vm * ExecutionOutput).

Definition run_child (child : Vm) : M (Vm * ExecutionOutput) :=
  match exec_child child with Some r => ret r | None => throw NoFuel end.

(** [child.load(code).map_err(|_| Trap::MemoryFault)?] *)
Definition load_child (code : list Z) (child : Vm) : M Vm :=
  match load code child with
  | (child', Ok _) => ret child'
  | (_, Err _) => trap MemoryFault
  end.

(** The bytecode at an address: the local registry, then the lazy backend,
    whose answer is cached in the registry. *)
Definition lookup_code (addr : Address) : M (option (list Z)) :=
  v <-- get ;;
  match contracts v !! addr with
  | Some code => ret (Some code)
  | None =>
      match code_backend v with
      | None => ret None
      | Some backend =>
          match backend addr with
          | Some code =>
              modify (fun v => set_contracts (<[addr := code]> (contracts v)) v) ;;;
              ret (Some code)
          | None => ret None
          end
      end
  end.

(** At most 63/64 of the remaining gas. *)
Definition max_forward_63_64 (v : Vm) : Z :=
  let available_gas :=
    if 0 <? gas_limit v then saturating_sub (gas_limit v) (gas_used_total v) else max_of u64 in
  available_gas - available_gas / 64.

Definition forwarded_gas (v : Vm) (gas_to_forward : Z) : Z :=
  if gas_to_forward =? 0 then max_forward_63_64 v
  else Z.min gas_to_forward (max_forward_63_64 v).

(** Debit [from], credit [to]; [None] when [from] cannot pay.  The sum of two
    balances wraps at 256 bits. *)
Definition transfer_value (from to : Address) (cv : Z) (b : gmap Address Z) :
    option (gmap Address Z) :=
  if 0 <? cv then
    let caller_bal := default 0 (b !! from) in
    if caller_bal <? cv then None
    else
      let b' := <[from := caller_bal - cv]> b in
      let target_bal := default 0 (b' !! to) in
      Some (<[to := wrap u256 (target_bal + cv)]> b')
  else Some b.

(** The context of a called or deployed contract. *)
Definition callee_ctx (c : ExecutionContext) (target : Address) (cv : Z)
    (b : gmap Address Z) : ExecutionContext :=
  mkCtx (self_address c) target cv (block_number c) (timestamp c) (gas_price c) (tx_nonce c)
    (tx_gas_limit c) (tx_hash c) (block_proposer c) (block_hashes c) b.

(** One step of the loops that journal and apply the child's balances. *)
Definition merge_balance (v : Vm) (e : Address * Z) : Vm :=
  let '(addr, child_bal) := e in
  if bool_decide (balances (ctx v) !! addr = Some child_bal) then v
  else
    let v := journal_balance_write addr v in
    set_ctx (set_balances (<[addr := child_bal]> (balances (ctx v))) (ctx v)) v.

Definition merge_balances (b : gmap Address Z) (v : Vm) : Vm :=
  foldl merge_balance v (map_to_list b).

(** One step of the loop that moves the child's journal into the parent's. *)
Definition merge_journal_entry (v : Vm) (e : Z * option (list Z)) : Vm :=
  if bool_decide (e.1 ∈ storage_journal_keys v) then v
  else
    set_storage_journal (storage_journal v ++ [e])
      (set_storage_journal_keys ({[e.1]} ∪ storage_journal_keys v) v).

(** Warm keys and raw slots persist whether the child succeeds or fails. *)
Definition merge_tracking (child v : Vm) : Vm :=
  set_written_raw_slots (written_raw_slots v ∪ written_raw_slots child)
    (set_accessed_raw_slots (accessed_raw_slots v ∪ accessed_raw_slots child)
       (set_warm_storage_keys (warm_storage_keys v ∪ warm_storage_keys child) v)).

Definition merge_success (is_delegate : bool) (child : Vm) (output : ExecutionOutput) (v : Vm) : Vm :=
  let v := foldl merge_journal_entry v (storage_journal child) in
  let v := set_storage (storage child) v in
  let v := if is_delegate then v else merge_balances (balances (ctx child)) v in
  let v := set_logs (logs v ++ out_logs output) v in
  set_gas_refund (wrap u64 (gas_refund v + out_gas_refund output)) v.

(** Explicit return data, else the blob convention (r1 = pointer, r2 = length),
    else r1 as 8 bytes. *)
Definition child_return_data (child : Vm) (success : bool) : list Z :=
  match return_data child with
  | [] =>
      if success then
        let r1 := read_gp 1 (cpu child) in
        let r2 := read_gp 2 (cpu child) in
        if 0 <? r2 then
          let ptr := as_u32 r1 in
          let n := Z.min r2 MEMORY_SIZE in
          if saturating_add u64 ptr n <=? MEMORY_SIZE then load_bytes ptr n (memory child)
          else le_encode 8 r1
        else le_encode 8 r1
      else []
  | data => data
  end.

Definition failed_call : CallResult := mkCallResult false [] 0.

(** The child as it is spawned; the parent's storage overlay moves into it. *)
Definition spawn_child (v : Vm) (limit : Z) (c : ExecutionContext) (static : bool)
    (data : list Z) : Vm :=
  let child := with_gas_limit_and_context limit c in
  let child := set_static_mode static child in
  let child := set_contracts (contracts v) child in
  let child := set_storage_backend (storage_backend v) child in
  let child := set_code_backend (code_backend v) child in
  let child := set_ext_call_depth (ext_call_depth v + 1) child in
  let child := set_calldata data child in
  set_warm_storage_keys (warm_storage_keys v) child.

(** From the spawned child to the call's result. *)
Definition run_call (is_delegate : bool) (bytecode : list Z) (child : Vm) : M CallResult :=
  storage0 <-- gets storage ;;
  let child := set_storage storage0 child in
  modify (set_storage ∅) ;;;
  child <-- load_child bytecode child ;;
  co <-- run_child child ;;
  let '(child, output) := co in
  charge_gas (out_gas_used output) ;;;
  let success := bool_decide (outcome output = Success) in
  (if success then modify (merge_success is_delegate child output)
   else modify (set_storage (storage child))) ;;;
  modify (merge_tracking child) ;;;
  ret (mkCallResult success (child_return_data child success) (out_gas_used output)).

(** The child's context: a delegate keeps the caller's, a call runs as the
    target with the value of r8 when bit 13 of the immediate is set; [None] when
    the caller cannot pay. *)
Definition call_ctx (v : Vm) (d : DecodedInstruction) (is_delegate : bool) (target_addr : Address) :
    option ExecutionContext :=
  if is_delegate then Some (ctx v)
  else
    let cv := if imm_bit 13 d then read_gp 8 (cpu v) else 0 in
    match transfer_value (self_address (ctx v)) target_addr cv (balances (ctx v)) with
    | None => None
    | Some b => Some (callee_ctx (ctx v) target_addr cv b)
    end.

Definition do_ext_call (d : DecodedInstruction) (is_static is_delegate : bool) : M CallResult :=
  depth <-- gets ext_call_depth ;;
  if MAX_EXT_CALL_DEPTH <=? depth then trap StackOverflow
  else
    target <-- wide_read (rd d) ;;
    let target_addr := le_encode 32 target in
    calldata_ptr <-- gp_read (rs1 d) ;;
    calldata_len <-- gp_read (imm_reg 0 d) ;;
    gas_to_forward <-- gp_read (imm_reg 4 d) ;;
    let is_static_call := is_static || imm_bit 12 d in
    data <-- with_memory (checked_read_slice (as_u32 calldata_ptr) calldata_len) ;;
    code <-- lookup_code target_addr ;;
    match code with
    | None => ret failed_call
    | Some bytecode =>
        v <-- get ;;
        let forwarded := forwarded_gas v gas_to_forward in
        match call_ctx v d is_delegate target_addr with
        | None => ret failed_call
        | Some c =>
            run_call is_delegate bytecode
              (spawn_child v forwarded c (is_static_call || static_mode v) data)
        end
    end.

(** The return convention of [CallExt] and [Delegate]: a blob goes to the heap
    at r12, up to 8 bytes go to r1. *)
Definition write_call_result (d : DecodedInstruction) (result : CallResult) : M unit :=
  let data := call_return_data result in
  gp_write (imm_reg 8 d) (b2z (call_success result)) ;;;
  when (call_success result && negb (len data =? 0))
    (if 8 <? len data then
       r12 <-- gp_read 12 ;;
       let heap := as_u32 r12 in
       r <-- try_memory (checked_write_slice heap data) ;;
       match r with
       | Ok _ => gp_write 1 heap ;;; gp_write 2 (len data)
       | Err _ => gp_write 1 (le_decode (take 8 data)) ;;; gp_write 2 0
       end
     else gp_write 1 (le_decode (fit 8 data)) ;;; gp_write 2 0) ;;;
  modify (set_return_data data) ;;;
  next_pc.

Definition exec_call_ext (d : DecodedInstruction) : M unit :=
  let is_static_flag := imm_bit 12 d in
  s <-- gets static_mode ;;
  if (s : bool) && negb is_static_flag then trap StaticModeViolation
  else result <-- do_ext_call d is_static_flag false ;; write_call_result d result.

Definition exec_delegate (d : DecodedInstruction) : M unit :=
  result <-- do_ext_call d false true ;; write_call_result d result.

(** ** Deployment *)

(** [clen:4][rlen:4][constructor][runtime][args], or the whole blob as the
    runtime code when the header does not fit. *)
Definition parse_deploy (init_code : list Z) : option (list Z) * list Z * list Z :=
  if 8 <=? len init_code then
    let clen := le_decode (take 4 init_code) in
    let rlen := le_decode (take 4 (drop 4 init_code)) in
    if (0 <? clen) && (0 <? rlen) && (8 + clen + rlen <=? len init_code) then
      (Some (slice 8 (Z.to_nat clen) init_code),
       slice (Z.to_nat (8 + clen)) (Z.to_nat rlen) init_code,
       drop (Z.to_nat (8 + clen + rlen)) init_code)
    else (None, init_code, [])
  else (None, init_code, []).

Definition create_address (init_code : list Z) : M Address :=
  v <-- get ;;
  let self := self_address (ctx v) in
  let nonce := default 0 (create_counter v !! self) in
  match checked_add u64 nonce 1 with
  | None => trap OutOfGas
  | Some n =>
      modify (fun v => set_create_counter (<[self := n]> (create_counter v)) v) ;;;
      ret (poseidon2_hash (self ++ le_encode 32 (tx_hash (ctx v)) ++ le_encode 8 nonce ++ init_code))
  end.

Definition create2_address (init_code : list Z) : M Address :=
  salt <-- wide_read 0 ;;
  v <-- get ;;
  ret (poseidon2_hash ([0xFF] ++ self_address (ctx v) ++ le_encode 32 salt ++
                       poseidon2_hash init_code)).

Definition merge_storage_entry (v : Vm) (e : Z * list Z) : Vm :=
  let v := journal_storage_write e.1 v in
  set_storage (<[e.1 := e.2]> (storage v)) v.

(** The constructor runs in a child with an empty overlay. *)
Definition run_constructor (code args : list Z) (limit : Z) (c : ExecutionContext) :
    M (gmap Address Z) :=
  v <-- get ;;
  child <-- load_child code (spawn_child v limit c false args) ;;
  co <-- run_child child ;;
  let '(child, output) := co in
  charge_gas (out_gas_used output) ;;;
  match outcome output with
  | Success =>
      modify (fun v => foldl merge_storage_entry v (map_to_list (storage child))) ;;;
      modify (merge_tracking child) ;;;
      ret (balances (ctx child))
  | OutOfGasOutcome => trap OutOfGas
  | TrapOutcome t => trap t
  | RevertOutcome => trap MemoryFault
  end.

Definition do_create (d : DecodedInstruction) (is_create2 : bool) : M Address :=
  depth <-- gets ext_call_depth ;;
  if MAX_EXT_CALL_DEPTH <=? depth then trap StackOverflow
  else
    code_ptr <-- gp_read (rs1 d) ;;
    code_len <-- gp_read (imm_reg 0 d) ;;
    init_code <-- with_memory (checked_read_slice (as_u32 code_ptr) code_len) ;;
    new_addr <-- (if is_create2 then create2_address init_code else create_address init_code) ;;
    v <-- get ;;
    if is_some (contracts v !! new_addr) then trap MemoryFault
    else
      let '(constructor, runtime, constructor_args) := parse_deploy init_code in
      let max_forward := max_forward_63_64 v in
      let cv := read_gp 8 (cpu v) in
      match transfer_value (self_address (ctx v)) new_addr cv (balances (ctx v)) with
      | None => trap MemoryFault
      | Some b =>
          let child_ctx := callee_ctx (ctx v) new_addr cv b in
          final_balances <--
            match constructor with
            | Some code => run_constructor code constructor_args max_forward child_ctx
            | None => ret (balances child_ctx)
            end ;;
          modify (merge_balances final_balances) ;;;
          charge_gas (wrap u64 (len runtime * 200)) ;;;
          modify (fun v => set_contracts (<[new_addr := runtime]> (contracts v)) v) ;;;
          ret new_addr
      end.

(** A failed deployment gives the zero address, except out of gas. *)
Definition exec_create (d : DecodedInstruction) : M unit :=
  s <-- gets static_mode ;;
  if (s : bool) then trap StaticModeViolation
  else
    r <-- catch (do_create d false) ;;
    match r with
    | Ok new_addr => wide_write_masked (rd d) (le_decode new_addr)
    | Err NoFuel => throw NoFuel
    | Err (Trapped OutOfGas) => trap OutOfGas
    | Err (Trapped _) => wide_write_masked (rd d) 0
    end ;;;
    next_pc.

(** ** The interpreter *)

Definition next (m : M unit) : M Flow := m ;;; ret Next.

Definition dispatch (d : DecodedInstruction) : M Flow :=
  match opcode d with
  | Opcode.Jmp => next (jump_rel d)
  | Opcode.Beq => next (branch (fun a b => a =? b) d)
  | Opcode.Bne => next (branch (fun a b => negb (a =? b)) d)
  | Opcode.Blt => next (branch (fun a b => a <? b) d)
  | Opcode.Bge => next (branch (fun a b => b <=? a) d)
  | Opcode.Call => next (exec_call d)
  | Opcode.Ret => next exec_ret
  | Opcode.Halt => ret (Return (Some Halted))
  | Opcode.Revert => exec_revert d
  | Opcode.Add | Opcode.Sub | Opcode.Mul | Opcode.Div | Opcode.Mod | Opcode.Addi
  | Opcode.And | Opcode.Or | Opcode.Xor | Opcode.Not | Opcode.Shl | Opcode.Shr | Opcode.Sar
  | Opcode.Lt | Opcode.Gt | Opcode.Eq | Opcode.Slt | Opcode.Sgt => next (exec_alu_inline d)
  | Opcode.Wadd | Opcode.Wsub | Opcode.Wmul | Opcode.Wdiv | Opcode.Wmod | Opcode.Wand
  | Opcode.Wor | Opcode.Wxor | Opcode.Wnot | Opcode.Wshift | Opcode.Wmov | Opcode.Narrow
  | Opcode.Widen | Opcode.Weq | Opcode.Wlt => next (exec_wide_op d)
  | Opcode.Load => next (exec_load d)
  | Opcode.Store => next (exec_store d)
  | Opcode.Wload => next (exec_wload d)
  | Opcode.Wstore => next (exec_wstore d)
  | Opcode.Push => next (exec_push d)
  | Opcode.Pop => next (exec_pop d)
  | Opcode.Caller => next (exec_caller d)
  | Opcode.Callvalue => next (exec_callvalue d)
  | Opcode.Blockhash => next (exec_blockhash d)
  | Opcode.Poseidon => next (exec_poseidon d)
  | Opcode.Sload => next (exec_sload d)
  | Opcode.Sstore => next (exec_sstore d)
  | Opcode.Sdelete => next (exec_sdelete d)
  | Opcode.Log => next (exec_log d)
  | Opcode.VerifySig => exec_verifysig d
  | Opcode.CallExt => next (exec_call_ext d)
  | Opcode.Delegate => next (exec_delegate d)
  | Opcode.Create => next (exec_create d)
  | Opcode.Assert => exec_assert d
  | Opcode.Memcpy => next (exec_memcpy d)
  | Opcode.Selfdestruct => next exec_selfdestruct
  | Opcode.MerkleVerify => exec_merkle_verify d
  | _ => trap InvalidOpcode
  end.

Definition step : M (option ExecResult) :=
  check_pc_bounds ;;;
  v <-- get ;;
  match decoded_cache v !! Z.to_nat (pc v / 4) with
  | None => trap InvalidOpcode
  | Some d =>
      charge_gas (total_gas (Opcode.to_u8 (opcode d))) ;;;
      flow <-- dispatch d ;;
      match flow with
      | Next => drain_page_gas ;;; ret None
      | Return r => ret r
      end
  end.

(** One instruction outside the loaded program, for the ahead-of-time host. *)
Definition exec_single (d : DecodedInstruction) : M (option ExecResult) := fun v =>
  let (v', r) := step (set_pc 0 (set_decoded_cache [d] v)) in
  (set_pc (pc v) (set_decoded_cache (decoded_cache v) v'), r).

End Instructions.

(** ** Execution *)

Section Execution.
Context {P : Primitives}.

Definition clear_journals (v : Vm) : Vm :=
  set_balance_journal [] (set_balance_journal_keys ∅ (clear_journal v)).

(** What [execute] undoes on revert, out of gas and trap. *)
Definition undo (logs_snapshot_len : nat) (v : Vm) : Vm :=
  set_gas_refund 0 (set_logs (take logs_snapshot_len (logs v)) (rollback_balances (rollback_storage v))).

(** [execute], given its loop. *)
Definition execute_with (loop : nat -> Vm -> option (Vm * Outcome)) (v : Vm) :
    option (Vm * ExecutionOutput) :=
  let v := clear_journals v in
  let logs_snapshot_len := length (logs v) in
  match loop logs_snapshot_len v with
  | None => None
  | Some (v, o) =>
      let v := clear_journals v in
      Some (v, mkOutput o (effective_gas_used v) (gas_used_total v) (gas_refund v)
                 (drop logs_snapshot_len (logs v)))
  end.

(** The loop of [execute]: [fuel] bounds the instructions of one VM and the
    depth of its children. *)
Fixpoint execute_loop (fuel : nat) (logs_snapshot_len : nat) (v : Vm) : option (Vm * Outcome) :=
  match fuel with
  | O => None
  | S f =>
      match step (execute_with (execute_loop f)) v with
      | (v', Ok (Some Halted)) => Some (v', Success)
      | (v', Ok (Some Reverted)) => Some (undo logs_snapshot_len v', RevertOutcome)
      | (v', Ok None) => execute_loop f logs_snapshot_len v'
      | (v', Err (Trapped OutOfGas)) => Some (undo logs_snapshot_len v', OutOfGasOutcome)
      | (v', Err (Trapped t)) => Some (undo logs_snapshot_len v', TrapOutcome t)
      | (_, Err NoFuel) => None
      end
  end.

Definition execute (fuel : nat) : Vm -> option (Vm * ExecutionOutput) :=
  execute_with (execute_loop fuel).

Fixpoint run (fuel : nat) (v : Vm) : option (Vm * Result ExecResult Trap) :=
  match fuel with
  | O => None
  | S f =>
      match step (execute f) v with
      | (v', Ok (Some r)) => Some (v', Ok r)
      | (v', Ok None) => run f v'
      | (v', Err (Trapped t)) => Some (v', Err t)
      | (_, Err NoFuel) => None
      end
  end.

End Execution.
