(* ===== verification/VmInv.v ===== *)
(** * Invariants of the PVM

    The type invariant of a [Vm], the two relations its operations respect, and
    the triples the instruction proofs compose.  [frame] relates the states
    around an operation that only computes: registers, memory, gas and the
    program counter may change, the contract's world may not.  [evolves] is what
    any instruction may do to the world. *)

From stdpp Require Import base numbers list option gmap.
From Stdlib Require Import ZArith Lia.
From S2P Require Import Prelude Crypto Isa Cpu Memory Vm VmStep.

#[local] Open Scope Z_scope.
#[local] Open Scope pyde_scope.

(** ** Journals over any map *)

(** The map before the writes a journal recorded. *)
Definition original {K V : Type} `{Countable K} (m : gmap K V) (j : list (K * option V)) : gmap K V :=
  foldl restore m (rev j).
#[global] Arguments original : simpl never.

Section Journal.
Context {K V : Type} `{Countable K}.
Implicit Types (m : gmap K V) (j : list (K * option V)).

Lemma original_snoc m j e : original m (j ++ [e]) = original (restore m e) j.
Proof. unfold original. rewrite rev_app_distr. done. Qed.

Lemma restore_same m k : restore m (k, m !! k) = m.
Proof. destruct (m !! k) eqn:E; simpl; [by apply insert_id|by apply delete_id]. Qed.

(** Journaling a key's current value records nothing new. *)
Lemma original_journal m j k : original m (j ++ [(k, m !! k)]) = original m j.
Proof. by rewrite original_snoc, restore_same. Qed.

Lemma restore_insert_ne m e k x :
  e.1 <> k -> restore (<[k := x]> m) e = <[k := x]> (restore m e).
Proof.
  destruct e as [k' [y|]]; simpl; intros Hne; [by apply insert_insert_ne|].
  by rewrite delete_insert_ne by done.
Qed.

Lemma restore_insert_eq m k o x : restore (<[k := x]> m) (k, o) = restore m (k, o).
Proof. destruct o; simpl; [by rewrite insert_insert_eq|by rewrite delete_insert_eq]. Qed.

(** A write to a journaled key is undone by the journal. *)
Lemma original_insert_in m j k x :
  k ∈ j.*1 -> original (<[k := x]> m) j = original m j.
Proof.
  revert m. induction j as [|e j IH] using rev_ind; intros m Hk; [by apply elem_of_nil in Hk|].
  rewrite !original_snoc. destruct (decide (e.1 = k)) as [<-|Hne].
  - destruct e as [k o]. cbn [fst]. by rewrite restore_insert_eq.
  - rewrite restore_insert_ne by done. apply IH.
    rewrite fmap_app in Hk. apply elem_of_app in Hk as [?|Hk]; [done|].
    simpl in Hk. apply list_elem_of_singleton in Hk. congruence.
Qed.

Lemma original_insert_notin m j k x :
  k ∉ j.*1 -> original (<[k := x]> m) j = <[k := x]> (original m j).
Proof.
  revert m. induction j as [|e j IH] using rev_ind; intros m Hk; [done|].
  rewrite fmap_app, not_elem_of_app in Hk. destruct Hk as [Hk He]. simpl in He.
  rewrite list_elem_of_singleton in He.
  rewrite !original_snoc, restore_insert_ne by congruence. by apply IH.
Qed.

Lemma original_lookup_notin m j k : k ∉ j.*1 -> original m j !! k = m !! k.
Proof.
  revert m. induction j as [|e j IH] using rev_ind; intros m Hk; [done|].
  rewrite fmap_app, not_elem_of_app in Hk. destruct Hk as [Hk He]. simpl in He.
  rewrite list_elem_of_singleton in He. rewrite original_snoc, IH by done.
  destruct e as [k' [y|]]; simpl in *; [by apply lookup_insert_ne|by apply lookup_delete_ne].
Qed.

Lemma original_forall (Q : V -> Prop) m j :
  map_Forall (fun _ => Q) m -> Forall (fun e => forall x, e.2 = Some x -> Q x) j ->
  map_Forall (fun _ => Q) (original m j).
Proof.
  intros Hm. revert m Hm. induction j as [|e j IH] using rev_ind; intros m Hm Hj; [done|].
  apply Forall_app in Hj as [Hj He]. inversion_clear He as [|?? Hx _].
  rewrite original_snoc. apply IH; [|done].
  destruct e as [k [y|]]; simpl in *; [|by apply map_Forall_delete].
  apply map_Forall_insert_2; [by apply Hx|done].
Qed.
End Journal.

(** ** Balances *)

(** The sum of all balances of a context. *)
Definition total (b : gmap Address Z) : Z := map_fold (fun _ x acc => x + acc) 0 b.

Definition good_balances (b : gmap Address Z) : Prop :=
  map_Forall (fun _ x => 0 <= x) b /\ total b < 2 ^ 256.

Lemma total_empty : total ∅ = 0.
Proof. apply map_fold_empty. Qed.

Lemma total_insert_fresh (b : gmap Address Z) (a : Address) (x : Z) :
  b !! a = None -> total (<[a := x]> b) = x + total b.
Proof. intros E. unfold total. rewrite map_fold_insert_L; [done|intros; lia|done]. Qed.

Lemma total_insert (b : gmap Address Z) (a : Address) (x : Z) :
  total (<[a := x]> b) = total b - default 0 (b !! a) + x.
Proof.
  destruct (b !! a) as [y|] eqn:E; simpl; [|rewrite total_insert_fresh by done; lia].
  rewrite <- (insert_delete_id _ _ _ E) at 2. rewrite <- insert_delete_eq.
  rewrite !total_insert_fresh by apply lookup_delete_eq. lia.
Qed.

Lemma total_nonneg (b : gmap Address Z) : map_Forall (fun _ x => 0 <= x) b -> 0 <= total b.
Proof.
  induction b as [|a x b E IH] using map_ind; [rewrite total_empty; lia|].
  rewrite map_Forall_insert by done. intros [Hx Hb]. rewrite total_insert_fresh by done.
  specialize (IH Hb). lia.
Qed.

Lemma balance_le_total (b : gmap Address Z) (a : Address) :
  map_Forall (fun _ x => 0 <= x) b -> 0 <= default 0 (b !! a) <= total b.
Proof.
  intros Hb. destruct (b !! a) as [x|] eqn:E; simpl; [|pose proof (total_nonneg b Hb); lia].
  pose proof (Hb _ _ E). pose proof (total_nonneg (delete a b) (map_Forall_delete _ _ _ Hb)) as Hd.
  rewrite <- (insert_delete_id _ _ _ E), total_insert_fresh by apply lookup_delete_eq.
  simpl in *. lia.
Qed.

(** A transfer moves value and creates or destroys none, also when an account
    pays itself. *)
Lemma transfer_value_ok (from to : Address) (cv : Z) (b b' : gmap Address Z) :
  good_balances b -> transfer_value from to cv b = Some b' ->
  good_balances b' /\ total b' = total b /\ dom b ⊆ dom b'.
Proof.
  intros [Hb Ht] E. unfold transfer_value in E. destruct (Z.ltb_spec 0 cv); [|by simplify_eq].
  destruct (Z.ltb_spec (default 0 (b !! from)) cv); [done|].
  injection E as <-. pose proof (balance_le_total b from Hb) as Hf.
  set (b1 := <[from := default 0 (b !! from) - cv]> b).
  assert (map_Forall (fun _ x => 0 <= x) b1) as Hb1 by (apply map_Forall_insert_2; [lia|done]).
  assert (total b1 = total b - cv) as Ht1 by (unfold b1; rewrite total_insert; lia).
  pose proof (balance_le_total b1 to Hb1) as Hto.
  rewrite wrap_small by (unfold in_range; lia).
  assert (total (<[to := default 0 (b1 !! to) + cv]> b1) = total b) as Ht2
    by (rewrite total_insert; lia).
  repeat split; [apply map_Forall_insert_2; [lia|done]|lia|done|].
  unfold b1. rewrite !dom_insert. clear. set_solver.
Qed.

(** ** The type invariant *)

Record wf_ctx (c : ExecutionContext) : Prop := {
  wc_caller : address_ok (caller c);
  wc_self : address_ok (self_address c);
  wc_proposer : address_ok (block_proposer c);
  wc_value : in_range u256 (call_value c);
  wc_block : in_range u64 (block_number c);
  wc_time : in_range u64 (timestamp c);
  wc_price : in_range u256 (gas_price c);
  wc_nonce : in_range u64 (tx_nonce c);
  wc_limit : in_range u64 (tx_gas_limit c);
  wc_hash : in_range u256 (tx_hash c);
  wc_hashes : Forall (in_range u256) (block_hashes c);
  wc_balances : good_balances (balances c)
}.

(** The fields a computation changes. *)
Record wf_core (v : Vm) : Prop := {
  wf_cpu_ : wf_cpu (cpu v);
  wf_memory_ : wf_memory (memory v);
  wf_pc : in_range u32 (pc v);
  wf_fp : in_range u32 (fp v);
  wf_gas_used : in_range u64 (gas_used_total v);
  wf_gas_refund : in_range u64 (gas_refund v);
  wf_frames : Forall (fun f => in_range u32 (return_addr f) /\ in_range u32 (frame_pointer f))
                (call_stack v);
  wf_return_data : bytes_ok (return_data v)
}.

(** The fields that make up the contract's world. *)
Record wf_rest (v : Vm) : Prop := {
  wf_gas_limit : in_range u64 (gas_limit v);
  wf_ctx_ : wf_ctx (ctx v);
  wf_cache : Forall wf_decoded (decoded_cache v);
  wf_storage : map_Forall (fun _ => bytes_ok) (storage v);
  wf_backend : forall b k x, storage_backend v = Some b -> b k = Some x -> bytes_ok x;
  wf_contracts : map_Forall (fun _ => bytes_ok) (contracts v);
  wf_code_backend : forall b k x, code_backend v = Some b -> b k = Some x -> bytes_ok x;
  wf_calldata : bytes_ok (calldata v);
  wf_depth : 0 <= ext_call_depth v;
  wf_counter : map_Forall (fun _ => in_range u64) (create_counter v);
  wf_storage_keys : storage_journal_keys v = list_to_set (storage_journal v).*1;
  wf_storage_old : Forall (fun e => forall x, e.2 = Some x -> bytes_ok x) (storage_journal v);
  wf_balance_keys : balance_journal_keys v = list_to_set (balance_journal v).*1;
  wf_balance_old : good_balances (original (balances (ctx v)) (balance_journal v))
}.

Definition wf_vm (v : Vm) : Prop := wf_core v /\ wf_rest v.

(** The balances and the storage before the running [execute] wrote to them. *)
Definition orig_balances (v : Vm) : gmap Address Z := original (balances (ctx v)) (balance_journal v).
Definition orig_storage (v : Vm) : gmap Z (list Z) := original (storage v) (storage_journal v).

(** A key in an overlay over the VM's backend. *)
Definition view (v : Vm) (s : gmap Z (list Z)) (key : Z) : option (list Z) :=
  match s !! key with
  | Some x => Some x
  | None => match storage_backend v with Some backend => backend key | None => None end
  end.

(** The code at an address: the registry over the VM's backend. *)
Definition code_at (v : Vm) (a : Address) : option (list Z) :=
  match contracts v !! a with
  | Some code => Some code
  | None => match code_backend v with Some backend => backend a | None => None end
  end.

(** The limit holds; a limit of 0 is no limit. *)
Definition gas_ok (v : Vm) : Prop := gas_limit v = 0 \/ gas_used_total v <= gas_limit v.

(** ** Relations *)

Definition rest (v : Vm) :=
  (gas_limit v, ctx v, decoded_cache v, (storage v, storage_backend v, logs v),
   (storage_journal v, storage_journal_keys v, balance_journal v, balance_journal_keys v),
   (contracts v, code_backend v, create_counter v),
   (calldata v, static_mode v, ext_call_depth v, allowed_storage_keys v)).

(** The null page and the code are as they were. *)
Definition same_code (m m' : Memory) : Prop :=
  code_end m' = code_end m /\ forall b, 0 <= b < CODE_END -> read_byte b m' = read_byte b m.

Record frame (v v' : Vm) : Prop := {
  fr_gas : gas_used_total v <= gas_used_total v';
  fr_code : same_code (memory v) (memory v');
  fr_rest : rest v' = rest v
}.

(** The immutable part of a VM. *)
Definition fixed (v : Vm) :=
  (gas_limit v, set_balances ∅ (ctx v), decoded_cache v, storage_backend v, code_backend v,
   (calldata v, static_mode v, ext_call_depth v, allowed_storage_keys v)).

(** Storage: a rollback would give the same view as before, and in static mode
    nothing of the world has changed.  External calls break this, so it is
    demanded only of [call_free] code. *)
Record storage_evolves (v v' : Vm) : Prop := {
  se_orig : forall key, view v' (orig_storage v') key = view v (orig_storage v) key;
  se_static : static_mode v = true ->
    ctx v' = ctx v /\ contracts v' = contracts v /\
    forall key, storage_lookup v' key = storage_lookup v key
}.

Record evolves (call_free : bool) (v v' : Vm) : Prop := {
  ev_gas : gas_used_total v <= gas_used_total v';
  ev_code : same_code (memory v) (memory v');
  ev_fixed : fixed v' = fixed v;
  ev_logs : logs v `prefix_of` logs v';
  ev_dom : dom (balances (ctx v)) ⊆ dom (balances (ctx v'));
  ev_total : total (balances (ctx v')) = total (balances (ctx v));
  ev_orig : orig_balances v' = orig_balances v;
  ev_static : static_mode v = true ->
    logs v' = logs v /\ create_counter v' = create_counter v /\
    forall a, code_at v' a = code_at v a;
  ev_storage : call_free = true -> storage_evolves v v'
}.

(** ** Preorders *)

#[global] Instance same_code_preorder : PreOrder same_code.
Proof.
  split; [done|]. intros m1 m2 m3 [E12 B12] [E23 B23].
  split; [congruence|]. intros b Hb. by rewrite B23, B12.
Qed.

#[global] Instance frame_preorder : PreOrder frame.
Proof.
  split; [by intros v; split|]. intros v1 v2 v3 [] []. split; [lia|by etrans|congruence].
Qed.

Lemma mem_rel_same_code (m m' : Memory) : wf_memory m -> mem_rel m m' -> same_code m m'.
Proof. intros W H. destruct (H W) as (_ & _ & ? & ?). by split. Qed.

Lemma fixed_fields (v v' : Vm) :
  fixed v' = fixed v ->
  gas_limit v' = gas_limit v /\ set_balances ∅ (ctx v') = set_balances ∅ (ctx v) /\
  decoded_cache v' = decoded_cache v /\ storage_backend v' = storage_backend v /\
  code_backend v' = code_backend v /\ calldata v' = calldata v /\
  static_mode v' = static_mode v /\ ext_call_depth v' = ext_call_depth v /\
  allowed_storage_keys v' = allowed_storage_keys v.
Proof. unfold fixed. intros E. split_and!; congruence. Qed.

Lemma fixed_view (v v' : Vm) (s : gmap Z (list Z)) : fixed v' = fixed v -> view v' s = view v s.
Proof.
  unfold fixed, view. intros E. by replace (storage_backend v') with (storage_backend v) by congruence.
Qed.

Lemma fixed_static (v v' : Vm) : fixed v' = fixed v -> static_mode v' = static_mode v.
Proof. unfold fixed. congruence. Qed.

Lemma fixed_code_at (v v' : Vm) :
  fixed v' = fixed v -> contracts v' = contracts v -> forall a, code_at v' a = code_at v a.
Proof.
  unfold fixed, code_at. intros E -> a.
  by replace (code_backend v') with (code_backend v) by congruence.
Qed.

#[global] Instance evolves_preorder (cf : bool) : PreOrder (evolves cf).
Proof.
  split.
  - intros v. by split.
  - intros v1 v2 v3 [] []. split; try (etrans; done); try congruence.
    + intros S1. destruct (ev_static0 S1) as (<- & <- & C1).
      destruct ev_static1 as (? & ? & C2); [by rewrite (fixed_static _ _ ev_fixed0)|].
      split_and!; [done..|]. intros a. by rewrite C2, C1.
    + intros C. destruct (ev_storage0 C) as [O1 S1], (ev_storage1 C) as [O2 S2]. split.
      * intros key. by rewrite O2, O1.
      * intros Hs. destruct (S1 Hs) as (<- & <- & L1).
        rewrite <- (fixed_static _ _ ev_fixed0) in Hs. destruct (S2 Hs) as (-> & -> & L2).
        split_and!; try done. intros key. by rewrite L2, L1.
Qed.

Lemma frame_evolves (cf : bool) (v v' : Vm) : frame v v' -> evolves cf v v'.
Proof.
  intros [G C E]. unfold rest in E.
  split; try done; unfold fixed, orig_balances, orig_storage; try congruence.
  - replace (logs v') with (logs v) by congruence. reflexivity.
  - intros _. split_and!; [congruence..|]. intros a. unfold code_at.
    replace (contracts v') with (contracts v) by congruence.
    by replace (code_backend v') with (code_backend v) by congruence.
  - intros _. split; unfold view, orig_storage, storage_lookup; [|intros _; split_and!];
      try congruence.
    + intros key.
      replace (storage v') with (storage v) by congruence.
      replace (storage_journal v') with (storage_journal v) by congruence.
      by replace (storage_backend v') with (storage_backend v) by congruence.
    + intros key.
      replace (storage v') with (storage v) by congruence.
      by replace (storage_backend v') with (storage_backend v) by congruence.
Qed.

Lemma wf_rest_eq (v v' : Vm) : rest v' = rest v -> wf_rest v -> wf_rest v'.
Proof.
  unfold rest. intros E []. injection E as E1 E2 E3 E4 E5 E6 E7 E8 E9 E10 E11 E12 E13 E14 E15 E16 E17.
  split; rewrite ?E1, ?E2, ?E3, ?E4, ?E5, ?E6, ?E7, ?E8, ?E9, ?E10, ?E11, ?E12, ?E13, ?E14,
    ?E15, ?E16, ?E17; done.
Qed.

Definition core_fields (v : Vm) :=
  (cpu v, memory v, (pc v, fp v, call_stack v), (gas_used_total v, gas_refund v), return_data v).

Lemma wf_core_eq (v v' : Vm) : core_fields v' = core_fields v -> wf_core v -> wf_core v'.
Proof.
  unfold core_fields. intros E []. injection E as E1 E2 E3 E4 E5 E6 E7 E8.
  split; rewrite ?E1, ?E2, ?E3, ?E4, ?E5, ?E6, ?E7, ?E8; done.
Qed.

(** ** Triples *)

(** Results after which the gas limit still holds: everything but running out
    of gas, or of the model's fuel. *)
Definition soft {A : Type} (r : Result A VmErr) : Prop :=
  match r with
  | Ok _ => True
  | Err (Trapped OutOfGas) | Err NoFuel => False
  | Err (Trapped _) => True
  end.

(** From a state in [I], [m] ends in [I], related by [R] to the first state,
    failing or not; its value, if any, satisfies [Q]; and unless it runs out of
    gas it keeps the gas limit. *)
Definition triple {A : Type} (I : Vm -> Prop) (R : Vm -> Vm -> Prop) (m : M A) (Q : A -> Prop) : Prop :=
  forall v, I v ->
    I (m v).1 /\ R v (m v).1 /\ (soft (m v).2 -> gas_ok v -> gas_ok (m v).1) /\
    (forall a, (m v).2 = Ok a -> Q a).

(** The same from one state. *)
Definition holds {A : Type} (I : Vm -> Prop) (R : Vm -> Vm -> Prop) (v : Vm) (m : M A)
    (Q : A -> Prop) : Prop :=
  I (m v).1 /\ R v (m v).1 /\ (soft (m v).2 -> gas_ok v -> gas_ok (m v).1) /\
  (forall a, (m v).2 = Ok a -> Q a).

(** Invariants that imply the type invariant and that computations keep. *)
Class Stable (I : Vm -> Prop) : Prop := {
  stable_wf : forall v, I v -> wf_vm v;
  stable_frame : forall v v', I v -> wf_vm v' -> frame v v' -> I v'
}.

#[global] Instance stable_wf_vm : Stable wf_vm.
Proof. by split. Qed.

Lemma stable_and (I Q : Vm -> Prop) :
  Stable I -> (forall v v', rest v' = rest v -> Q v -> Q v') -> Stable (fun v => I v /\ Q v).
Proof.
  intros HI HQ. split; [intros v [? _]; by apply stable_wf|].
  intros v v' [Hv Hq] W F. split; [by eapply stable_frame|]. exact (HQ _ _ (fr_rest _ _ F) Hq).
Qed.

(** Outside static mode. *)
Definition writable (v : Vm) : Prop := wf_vm v /\ static_mode v = false.

(** Outside static mode, with [key] already in the storage journal. *)
Definition journaled (key : Z) (v : Vm) : Prop := writable v /\ key ∈ storage_journal_keys v.

#[global] Instance stable_writable : Stable writable.
Proof. apply stable_and; [apply _|]. unfold rest. intros. congruence. Qed.

#[global] Instance stable_journaled (key : Z) : Stable (journaled key).
Proof.
  apply stable_and; [apply _|]. unfold rest. intros v v' E H.
  by replace (storage_journal_keys v') with (storage_journal_keys v) by congruence.
Qed.

Section Triples.
Context (I : Vm -> Prop) (R : Vm -> Vm -> Prop) `{!PreOrder R}.

Lemma triple_ret {A : Type} (a : A) (Q : A -> Prop) : Q a -> triple I R (ret a) Q.
Proof. intros H v Hv. split_and!; try done. intros a' E. by simplify_eq/=. Qed.

Lemma triple_throw {A : Type} (e : VmErr) (Q : A -> Prop) : triple I R (throw e) Q.
Proof. intros v Hv. by split_and!. Qed.

Lemma triple_get (Q : Vm -> Prop) : (forall v, I v -> Q v) -> triple I R get Q.
Proof. intros H v Hv. split_and!; try done. intros a' E. simplify_eq/=. by apply H. Qed.

Lemma triple_gets {A : Type} (f : Vm -> A) (Q : A -> Prop) :
  (forall v, I v -> Q (f v)) -> triple I R (gets f) Q.
Proof. intros H v Hv. split_and!; try done. intros a' E. simplify_eq/=. by apply H. Qed.

Lemma triple_lift_result {A : Type} (r : Result A VmErr) (Q : A -> Prop) :
  (forall a, r = Ok a -> Q a) -> triple I R (lift_result r) Q.
Proof. intros H v Hv. by split_and!. Qed.

Lemma triple_bind {A B : Type} (m : M A) (k : A -> M B) (Q : A -> Prop) (T : B -> Prop) :
  triple I R m Q -> (forall a, Q a -> triple I R (k a) T) -> triple I R (bind m k) T.
Proof.
  intros Hm Hk v Hv. destruct (Hm v Hv) as (I1 & R1 & G1 & Q1). unfold bind.
  destruct (m v) as [v1 [a|e]]; simpl in *; [|split_and!; try done].
  destruct (Hk a (Q1 a eq_refl) v1 I1) as (I2 & R2 & G2 & Q2).
  split_and!; [done|by etrans| |done]. intros. by apply G2, G1.
Qed.

(** The first part of a computation may run under a stronger invariant [J],
    which the rest may assume. *)
Lemma holds_bind {A B : Type} (J : Vm -> Prop) (v : Vm) (m : M A) (k : A -> M B)
    (Q : A -> Prop) (T : B -> Prop) :
  holds J R v m Q -> (forall v', J v' -> I v') ->
  (forall a v', Q a -> J v' -> holds I R v' (k a) T) -> holds I R v (bind m k) T.
Proof.
  intros (I1 & R1 & G1 & Q1) HJ Hk. unfold holds, bind.
  destruct (m v) as [v1 [a|e]]; simpl in *; [|split_and!; auto; done].
  destruct (Hk a v1 (Q1 a eq_refl) I1) as (I2 & R2 & G2 & Q2).
  split_and!; [done|by etrans| |done]. intros. by apply G2, G1.
Qed.

Lemma holds_get {A : Type} (v : Vm) (k : Vm -> M A) (Q : A -> Prop) :
  holds I R v (k v) Q -> holds I R v (bind get k) Q.
Proof. done. Qed.

Lemma triple_modify (f : Vm -> Vm) (Q : unit -> Prop) :
  (forall v, I v -> I (f v) /\ R v (f v) /\ (gas_ok v -> gas_ok (f v))) -> Q tt ->
  triple I R (modify f) Q.
Proof.
  intros H HQ v Hv. destruct (H v Hv) as (? & ? & ?). split_and!; try done.
  by intros [] _.
Qed.

Lemma triple_weaken {A : Type} (m : M A) (Q Q' : A -> Prop) :
  triple I R m Q -> (forall a, Q a -> Q' a) -> triple I R m Q'.
Proof. intros Hm HQ v Hv. destruct (Hm v Hv) as (? & ? & ? & ?). split_and!; auto. Qed.

Lemma triple_when (b : bool) (m : M unit) :
  (b = true -> triple I R m (fun _ => True)) -> triple I R (when b m) (fun _ => True).
Proof. destruct b; intros H; [by apply H|by apply triple_ret]. Qed.

Lemma triple_traverse {A B : Type} (f : A -> M B) (l : list A) (Q : B -> Prop) :
  (forall a, triple I R (f a) Q) ->
  triple I R (traverse f l) (fun bs => Forall Q bs /\ length bs = length l).
Proof.
  intros Hf. induction l as [|a l IH]; simpl; [by apply triple_ret|].
  eapply triple_bind; [apply Hf|]. intros b Hb. eapply triple_bind; [apply IH|].
  intros bs [Hbs E]. apply triple_ret. split; [by constructor|simpl; lia].
Qed.
End Triples.

(** A computation may run where more is known and more is demanded. *)
Lemma triple_lift {A : Type} (I : Vm -> Prop) `{!Stable I} (R : Vm -> Vm -> Prop)
    (m : M A) (Q : A -> Prop) :
  (forall v v', frame v v' -> R v v') ->
  triple wf_vm frame m Q -> triple I R m Q.
Proof.
  intros HR Hm v Hv. destruct (Hm v (stable_wf v Hv)) as (W & F & ? & ?).
  split_and!; try done; [by eapply stable_frame|by apply HR].
Qed.

(** ** Computations *)

Create HintDb triple.
#[export] Hint Resolve triple_ret triple_throw : triple.

Lemma triple_core (f : Vm -> Vm) :
  (forall v, wf_core v ->
     wf_core (f v) /\ gas_used_total (f v) = gas_used_total v /\
     same_code (memory v) (memory (f v)) /\ rest (f v) = rest v) ->
  triple wf_vm frame (modify f) (fun _ => True).
Proof.
  intros H. apply triple_modify; [|done]. intros v [C W]. destruct (H v C) as (C' & G & S & E).
  assert (gas_limit (f v) = gas_limit v) as EL by (unfold rest in E; congruence).
  split_and!; [split; [done|by eapply wf_rest_eq]| |].
  - split; [lia|done|done].
  - unfold gas_ok. by rewrite G, EL.
Qed.

(** Shows that an update of the core fields is a computation. *)
Ltac core :=
  apply triple_core; intros v []; split_and!; [split; cbn; auto with pyde|done|done|done].

Lemma triple_with_memory {A : Type} (f : MemM A) (Q : A -> Prop) :
  respects mem_rel f -> (forall m m' a, wf_memory m -> f m = (m', Ok a) -> Q a) ->
  triple wf_vm frame (with_memory f) Q.
Proof.
  intros Hr HQ v [C W]. unfold with_memory. pose proof (Hr (memory v)) as Hm.
  pose proof (HQ (memory v)) as Hq. destruct (f (memory v)) as [m' r] eqn:E. simpl in Hm.
  destruct C as [? Wm]. pose proof (Hm Wm) as (W' & _).
  split_and!; [split; [split; done|by apply (wf_rest_eq v)]| | |].
  - split; [done| |done]. by apply mem_rel_same_code.
  - done.
  - destruct r as [a|e]; simpl; intros a' Ea; simplify_eq. by eapply Hq.
Qed.

Lemma triple_try_memory {A : Type} (f : MemM A) (Q : A -> Prop) :
  respects mem_rel f -> (forall m m' a, wf_memory m -> f m = (m', Ok a) -> Q a) ->
  triple wf_vm frame (try_memory f) (fun r => forall a, r = Ok a -> Q a).
Proof.
  intros Hr HQ v [C W]. unfold try_memory. pose proof (Hr (memory v)) as Hm.
  pose proof (HQ (memory v)) as Hq. destruct (f (memory v)) as [m' r] eqn:E. simpl in Hm.
  destruct C as [? Wm]. pose proof (Hm Wm) as (W' & _).
  split_and!; [split; [split; done|by apply (wf_rest_eq v)]| | |].
  - split; [done| |done]. by apply mem_rel_same_code.
  - done.
  - intros r' Er a Ea. simplify_eq/=. by eapply Hq.
Qed.

Lemma triple_with_cpu (f : ST Cpu Trap unit) :
  (forall c, wf_cpu c -> wf_cpu (f c).1) -> triple wf_vm frame (with_cpu f) (fun _ => True).
Proof.
  intros H v [C W]. unfold with_cpu. destruct C as [Wc]. pose proof (H _ Wc) as W'.
  destruct (f (cpu v)) as [c' r]. simpl in *.
  split_and!; [split; [split; done|by apply (wf_rest_eq v)]|by split|done|done].
Qed.

Lemma triple_lift_trap {A : Type} (r : Result A Trap) :
  triple wf_vm frame (lift_trap r) (fun a => r = Ok a).
Proof. apply triple_lift_result; [apply _|]. intros a. by destruct r; intros [= ->]. Qed.

Lemma triple_gp_read (r : Z) : triple wf_vm frame (gp_read r) (in_range u64).
Proof. apply triple_gets; [apply _|]. intros v [[] _]. auto with pyde. Qed.

Lemma triple_gp_write (r x : Z) :
  in_range u64 x -> triple wf_vm frame (gp_write r x) (fun _ => True).
Proof. intros Hx. core. Qed.

Lemma triple_wide_read (r : Z) : triple wf_vm frame (wide_read r) (in_range u256).
Proof.
  eapply triple_bind; [apply _| |].
  - apply (triple_gets _ _ _ (fun r => forall x, r = Ok x -> in_range u256 x)).
    intros v [[] _] x. by apply read_wide_checked_range.
  - intros res Hr. apply triple_lift_result; [apply _|]. intros a E.
    destruct res; simplify_eq/=. by apply Hr.
Qed.

Lemma triple_wide_write (r x : Z) :
  in_range u256 x -> triple wf_vm frame (wide_write r x) (fun _ => True).
Proof. intros Hx. apply triple_with_cpu. auto with pyde. Qed.

Lemma triple_wide_write_masked (r x : Z) :
  in_range u256 x -> triple wf_vm frame (wide_write_masked r x) (fun _ => True).
Proof. intros Hx. core. Qed.

Lemma triple_set_pc (f : Vm -> Z) :
  (forall v, in_range u32 (f v)) -> triple wf_vm frame (modify (fun v => set_pc (f v) v)) (fun _ => True).
Proof. intros H. core. Qed.

Lemma triple_next_pc : triple wf_vm frame next_pc (fun _ => True).
Proof. apply triple_set_pc. intros v. apply wrap_range. done. Qed.

Lemma triple_charge_gas (n : Z) : 0 <= n -> triple wf_vm frame (charge_gas n) (fun _ => True).
Proof.
  intros Hn v [C W]. unfold charge_gas, bind, get.
  destruct (checked_add u64 (gas_used_total v) n) as [g|] eqn:E;
    [apply checked_add_Some in E as [-> E]|split_and!; done].
  unfold modify. destruct C.
  assert (frame v (set_gas_used_total (gas_used_total v + n) v)) as F by (split; cbn; [lia|done|done]).
  assert (wf_vm (set_gas_used_total (gas_used_total v + n) v)) as W'.
  { split; [split; cbn; try done; unfold in_range in *; lia|by apply (wf_rest_eq v)]. }
  destruct ((0 <? gas_limit v) && (gas_limit v <? gas_used_total v + n)) eqn:L; split_and!; try done.
  intros _ _. unfold gas_ok. cbn. destruct W as [[? _]]. lia.
Qed.

(** A successful charge leaves the limit respected, whatever held before. *)
Lemma charge_gas_ok (n : Z) (v v' : Vm) :
  wf_vm v -> charge_gas n v = (v', Ok tt) ->
  gas_ok v' /\ v' = set_gas_used_total (gas_used_total v + n) v.
Proof.
  intros [C [[? _]]]. unfold charge_gas, bind, get, modify.
  destruct (checked_add u64 (gas_used_total v) n) as [g|] eqn:E;
    [apply checked_add_Some in E as [-> E]|done].
  destruct ((0 <? gas_limit v) && (gas_limit v <? gas_used_total v + n)) eqn:L; [done|].
  intros [= <-]. split; [|done]. unfold gas_ok. cbn. lia.
Qed.

Lemma set_page_gas_0_wf (m : Memory) : wf_memory m -> wf_memory (set_page_gas_used 0 m).
Proof. intros []. split; mem_proj; try done. unfold pages_allocated in *. mem_proj. mem_lia. Qed.

Lemma triple_drain_page_gas : triple wf_vm frame drain_page_gas (fun _ => True).
Proof.
  intros v [C W]. unfold drain_page_gas, bind, get.
  destruct (Z.ltb_spec 0 (page_gas_used (memory v))); [|split_and!; done].
  destruct (checked_add u64 (gas_used_total v) (page_gas_used (memory v))) as [g|] eqn:E;
    [apply checked_add_Some in E as [-> E]|split_and!; done].
  unfold modify. set (v' := set_memory _ _). destruct C.
  assert (frame v v') as F by (split; cbn; [lia|done|done]).
  assert (wf_vm v') as W'.
  { split; [|by apply (wf_rest_eq v)].
    split; cbn; try done; [by apply set_page_gas_0_wf|unfold in_range in *; lia]. }
  destruct ((0 <? gas_limit v) && (gas_limit v <? _)) eqn:L; split_and!; try done.
  intros _ _. unfold gas_ok, v'. cbn. destruct W as [[? _]]. lia.
Qed.

Lemma triple_precheck (n : Z) :
  triple wf_vm frame (precheck_bulk_page_budget n) (fun _ => True).
Proof.
  intros v W. unfold precheck_bulk_page_budget, bind, get.
  repeat case_match; split_and!; done.
Qed.

#[export] Hint Resolve triple_gp_read triple_gp_write triple_wide_read triple_wide_write
  triple_wide_write_masked triple_next_pc triple_charge_gas triple_drain_page_gas
  triple_precheck triple_with_cpu triple_lift_trap : triple.

(** *** Memory operations as the instructions use them *)

Lemma triple_load8 (a : Z) : triple wf_vm frame (with_memory (load8 a)) byte_ok.
Proof. apply triple_with_memory; [apply load8_rel|]. intros m m' x. apply load8_range. Qed.

Lemma triple_load_le (n : nat) (a : Z) :
  triple wf_vm frame (with_memory (load_le n a)) (in_range (8 * Z.of_nat n)).
Proof. apply triple_with_memory; [apply load_le_rel|]. intros m m' x. apply load_le_range. Qed.

Lemma triple_store_le (n : nat) (a x : Z) :
  triple wf_vm frame (with_memory (store_le n a x)) (fun _ => True).
Proof. apply triple_with_memory; [apply store_le_rel|done]. Qed.

Lemma triple_store8 (a x : Z) :
  in_range u32 a -> byte_ok x -> triple wf_vm frame (with_memory (store8 a x)) (fun _ => True).
Proof. intros. apply triple_with_memory; [by apply store8_rel|done]. Qed.

Lemma triple_load256 (a : Z) :
  triple wf_vm frame (with_memory (load256 a)) (fun l => length l = 32%nat /\ bytes_ok l).
Proof. apply triple_with_memory; [apply load256_rel|]. intros m m' x. apply load256_bytes. Qed.

Lemma triple_store256 (a : Z) (l : list Z) :
  length l = 32%nat -> bytes_ok l -> triple wf_vm frame (with_memory (store256 a l)) (fun _ => True).
Proof. intros. apply triple_with_memory; [by apply store256_rel|done]. Qed.

Lemma triple_read_slice (a n : Z) :
  0 <= n ->
  triple wf_vm frame (with_memory (checked_read_slice a n))
    (fun l => len l = n /\ n <= MEMORY_SIZE /\ bytes_ok l).
Proof.
  intros. apply triple_with_memory; [apply checked_read_slice_rel|].
  intros m m' x W. by apply checked_read_slice_bytes.
Qed.

Lemma checked_write_slice_len (a : Z) (data : list Z) (m m' : Memory) (u : unit) :
  checked_write_slice a data m = (m', Ok u) -> len data <= MEMORY_SIZE.
Proof.
  unfold checked_write_slice. destruct (Z.eqb_spec (len data) 0) as [->|]; [done|].
  by destruct (Z.ltb_spec MEMORY_SIZE (len data)); [|intros; lia].
Qed.

Lemma triple_write_slice (a : Z) (data : list Z) :
  bytes_ok data ->
  triple wf_vm frame (with_memory (checked_write_slice a data)) (fun _ => len data <= MEMORY_SIZE).
Proof.
  intros. apply triple_with_memory; [by apply checked_write_slice_rel|].
  intros m m' u _. apply checked_write_slice_len.
Qed.

Lemma triple_stack_alloc (n : Z) :
  0 <= n -> triple wf_vm frame (with_memory (stack_alloc n)) (fun _ => True).
Proof. intros. apply triple_with_memory; [by apply stack_alloc_rel|done]. Qed.

#[export] Hint Resolve triple_load8 triple_load_le triple_store_le triple_store8 triple_load256
  triple_store256 triple_read_slice triple_write_slice triple_stack_alloc : triple.

(** Walks through a computation: binds, branches, and the operations of the
    hint database. *)
Ltac tstep :=
  cbv beta zeta in *;
  lazymatch goal with
  | |- triple _ _ (bind _ _) _ => eapply triple_bind; [apply _| |intros ? ?]
  | |- triple _ _ (ret _) _ => apply triple_ret; [apply _|]
  | |- triple _ _ (trap _) _ => apply triple_throw; apply _
  | |- triple _ _ (throw _) _ => apply triple_throw; apply _
  | |- triple _ _ get _ => apply (triple_get _ _ wf_vm); intros ?; apply stable_wf
  | |- triple _ _ (gets _) _ => apply (triple_gets _ _ _ (fun _ => True)); done
  | |- triple _ _ (if ?b then _ else _) _ => destruct b eqn:?
  | |- triple _ _ (match ?x with _ => _ end) _ => destruct x eqn:?
  | |- triple wf_vm frame _ _ => solve [eauto with triple pyde]
  | |- triple _ _ _ _ =>
      eapply triple_lift; [apply _|first [by auto | apply frame_evolves]|solve [eauto with triple pyde]]
  end.
