(* ===== verification/VmSafe.v ===== *)
(** * Every instruction respects the VM's invariants

    One lemma per instruction, then [step] and [execute]: the type invariant
    is kept, gas only grows, code and context are immutable, balances are
    conserved and journaled, whatever the program does and however it ends. *)

From stdpp Require Import base numbers list option gmap.
From Stdlib Require Import ZArith Lia.
From S2P Require Import Prelude Crypto Isa Cpu Memory Vm VmStep VmInv.

#[local] Open Scope Z_scope.
#[local] Open Scope pyde_scope.

Abbreviation computes m := (triple wf_vm frame m (fun _ => True)) (only parsing).

(** ** Ranges *)

Lemma as_u32_range (x : Z) : in_range u32 (as_u32 x).
Proof. apply wrap_range. done. Qed.

Lemma wrap64_nonneg (x : Z) : 0 <= wrap u64 x.
Proof. apply wrap_range. done. Qed.

Lemma range64_nonneg (x : Z) : in_range u64 x -> 0 <= x.
Proof. intros []. done. Qed.

Lemma le_decode_32_range (l : list Z) :
  length l = 32%nat -> bytes_ok l -> in_range u256 (le_decode l).
Proof. intros E H. pose proof (le_decode_range l H) as R. by rewrite E in R. Qed.

Lemma fit_ok (n : nat) (l : list Z) : bytes_ok l -> length (fit n l) = n /\ bytes_ok (fit n l).
Proof.
  intros H. unfold fit. split.
  - rewrite length_app, length_take, length_replicate. lia.
  - apply Forall_app. split; [by apply Forall_take|]. by apply Forall_replicate.
Qed.

Lemma fit_range (n : nat) (l : list Z) : bytes_ok l -> in_range (8 * Z.of_nat n) (le_decode (fit n l)).
Proof.
  intros H. destruct (fit_ok n l H) as [E B]. pose proof (le_decode_range _ B) as R.
  unfold in_range. rewrite <- pow256. by rewrite E in R.
Qed.

#[export] Hint Resolve as_u32_range wrap64_nonneg range64_nonneg le_decode_32_range : pyde.

(** ** Instructions that only compute *)

Lemma jump_rel_computes (d : DecodedInstruction) : computes (jump_rel d).
Proof. apply triple_set_pc. intros v. apply wrap_range. done. Qed.
#[export] Hint Resolve jump_rel_computes : triple.

Lemma branch_computes (test : Z -> Z -> bool) (d : DecodedInstruction) : computes (branch test d).
Proof. unfold branch. repeat tstep. Qed.

Lemma exec_call_computes (d : DecodedInstruction) : computes (exec_call d).
Proof.
  unfold exec_call. repeat tstep.
  - core. constructor; [|done]. split; [apply wrap_range|]; done.
  - core. destruct wf_memory_. unfold in_range. mem_lia.
Qed.

Lemma exec_ret_computes : computes exec_ret.
Proof.
  intros v W. unfold exec_ret, bind, get, modify. destruct W as [C W].
  destruct (call_stack v) as [|f fs] eqn:E; [by split_and!|].
  destruct C. rewrite E in wf_frames. inversion_clear wf_frames as [|?? [? ?] ?].
  split_and!; [split; [by split|by apply (wf_rest_eq v)]|by split|done|done].
Qed.

Lemma exec_alu_inline_computes (d : DecodedInstruction) : computes (exec_alu_inline d).
Proof.
  unfold exec_alu_inline. tstep; [tstep|]. tstep; [tstep|].
  assert (forall r, in_range u64 r -> computes (gp_write (rd d) r ;;; next_pc)) as Hw
    by (intros; repeat tstep).
  destruct (opcode d); try (apply Hw; unfold not64; repeat case_match; eauto with pyde);
    try (tstep; [tstep|apply Hw; apply ok_or_Ok in H1; eauto with pyde]);
    try (tstep; [tstep|apply Hw; eauto with pyde]); tstep.
Qed.

Lemma exec_wide_op_computes (d : DecodedInstruction) : computes (exec_wide_op d).
Proof. unfold exec_wide_op. repeat tstep. apply triple_with_cpu, exec_wide_wf. Qed.

Lemma safe_addr_range (base offset a : Z) : safe_addr base offset = Ok a -> in_range u32 a.
Proof. unfold safe_addr. case_match; intros [= <-]. unfold in_range, max_of in *. lia. Qed.

Lemma byte_range64 (x : Z) : byte_ok x -> in_range u64 x.
Proof. unfold byte_ok, in_range. lia. Qed.

Lemma exec_load_computes (d : DecodedInstruction) : computes (exec_load d).
Proof.
  unfold exec_load. do 2 (tstep; [tstep|]). eapply (triple_bind _ _ _ _ (in_range u64)).
  - destruct (decode_mem_width _).
    + eapply triple_weaken; [apply triple_load8|]. apply byte_range64.
    + eapply triple_weaken; [apply triple_load_le|]. intros x. by apply in_range_weaken.
    + eapply triple_weaken; [apply triple_load_le|]. intros x. by apply in_range_weaken.
    + apply triple_load_le.
  - intros x Hx. repeat tstep.
Qed.

Lemma exec_store_computes (d : DecodedInstruction) : computes (exec_store d).
Proof.
  unfold exec_store. do 3 (tstep; [tstep|]). tstep; [|tstep].
  apply safe_addr_range in H0. destruct (decode_mem_width _); try apply triple_store_le.
  apply triple_store8; [done|]. apply wrap_range. done.
Qed.

Lemma exec_wload_computes (d : DecodedInstruction) : computes (exec_wload d).
Proof.
  unfold exec_wload. do 3 (tstep; [tstep|]). destruct H1 as [E B]. repeat tstep.
Qed.

Lemma exec_wstore_computes (d : DecodedInstruction) : computes (exec_wstore d).
Proof.
  unfold exec_wstore. do 3 (tstep; [tstep|]). tstep; [|tstep].
  apply triple_store256; [apply length_le_encode|apply le_encode_bytes].
Qed.

Lemma exec_push_computes (d : DecodedInstruction) : computes (exec_push d).
Proof.
  unfold exec_push. tstep; [tstep|]. tstep; [apply triple_stack_alloc; done|].
  tstep; [apply triple_store_le|]. tstep.
Qed.

Lemma set_stack_pointer_wf (sp : Z) (m : Memory) :
  HEAP_START <= sp <= STACK_TOP -> wf_memory m -> wf_memory (set_stack_pointer sp m).
Proof. intros Hs []. by split. Qed.

Lemma exec_pop_computes (d : DecodedInstruction) : computes (exec_pop d).
Proof.
  unfold exec_pop.
  eapply (triple_bind _ _ _ _ (fun sp => HEAP_START <= sp <= STACK_TOP)).
  { apply triple_gets; [apply _|]. intros v [[_ []] _]. done. }
  intros sp Hsp. tstep; [tstep|]. tstep; [apply triple_load_le|]. do 2 (tstep; [try tstep|]); [|tstep].
  core. apply set_stack_pointer_wf; [|done]. unfold is_some, checked_add in *.
  repeat case_match; simpl in *; try done. lia.
Qed.

Lemma gas_remaining_range (v : Vm) : wf_vm v -> in_range u64 (gas_remaining v).
Proof.
  intros [[] []]. unfold gas_remaining, saturating_sub, max_of, in_range in *. case_match; lia.
Qed.

Lemma exec_caller_computes (d : DecodedInstruction) : computes (exec_caller d).
Proof.
  unfold exec_caller. tstep; [tstep|]. pose proof H as [_ [_ [] _]].
  eapply (triple_bind _ _ _ _ (in_range u64)).
  - repeat (tstep; eauto using gas_remaining_range).
  - intros x Hx. repeat tstep.
Qed.

Lemma address_range (a : Address) : address_ok a -> in_range u256 (le_decode a).
Proof. intros []. by apply le_decode_32_range. Qed.

Lemma balance_range (c : ExecutionContext) (a : Address) :
  wf_ctx c -> in_range u256 (default 0 (balances c !! a)).
Proof. intros []. destruct wc_balances as [Hb Ht]. pose proof (balance_le_total _ a Hb). unfold in_range. lia. Qed.

Lemma exec_callvalue_computes (d : DecodedInstruction) : computes (exec_callvalue d).
Proof.
  unfold exec_callvalue. tstep; [tstep|]. pose proof H as [_ [_ Hc _]]. pose proof Hc as [].
  eapply (triple_bind _ _ _ _ (in_range u256)).
  - repeat (tstep; eauto using address_range, balance_range).
  - intros x Hx. repeat tstep.
Qed.

Lemma exec_blockhash_computes (d : DecodedInstruction) : computes (exec_blockhash d).
Proof.
  unfold exec_blockhash. do 2 (tstep; [tstep|]). pose proof H0 as [_ [_ [] _]].
  tstep; [|tstep]. apply triple_wide_write. case_match; [|done]. by apply default_lookup_range.
Qed.

Lemma exec_revert_computes (d : DecodedInstruction) : computes (exec_revert d).
Proof.
  unfold exec_revert. tstep; [|by tstep]. apply triple_when; [apply _|]. intros _.
  do 2 (tstep; [tstep|]). apply triple_when; [apply _|]. intros _.
  eapply triple_bind; [apply _| |].
  - apply (triple_try_memory _ bytes_ok); [apply checked_read_slice_rel|].
    intros m m' l W E. by apply checked_read_slice_bytes in E as (_ & _ & ?); [|done|auto with pyde].
  - intros r Hr. destruct r as [l|]; [|by tstep]. specialize (Hr l eq_refl). core.
Qed.

Lemma exec_assert_computes (d : DecodedInstruction) : computes (exec_assert d).
Proof. unfold exec_assert. repeat tstep. all: done. Qed.

Lemma exec_memcpy_computes (d : DecodedInstruction) : computes (exec_memcpy d).
Proof.
  unfold exec_memcpy. do 3 (tstep; [tstep|]). tstep; [tstep|]. tstep; [|tstep].
  apply triple_when; [apply _|]. intros _. do 2 (tstep; [tstep|]).
  tstep; [tstep|]. destruct H4 as (_ & _ & ?).
  eapply triple_weaken; [by apply triple_write_slice|done].
Qed.

Lemma exec_selfdestruct_computes : computes exec_selfdestruct.
Proof. unfold exec_selfdestruct. repeat tstep. Qed.

Section Safe.
Context {P : Primitives} {POk : PrimitivesOk P}.

Lemma poseidon2_hash_range (data : list Z) : in_range u256 (le_decode (poseidon2_hash data)).
Proof. apply le_decode_32_range; [apply poseidon2_hash_length|apply poseidon2_hash_bytes]. Qed.

Lemma exec_poseidon_computes (d : DecodedInstruction) : computes (exec_poseidon d).
Proof.
  unfold exec_poseidon. do 4 (tstep; [tstep|]). tstep; [|tstep].
  apply triple_wide_write, poseidon2_hash_range.
Qed.

Lemma return_zero_computes (d : DecodedInstruction) : computes (return_zero d).
Proof. unfold return_zero. repeat tstep. done. Qed.
#[local] Hint Resolve return_zero_computes : triple.

Lemma exec_verifysig_computes (d : DecodedInstruction) : computes (exec_verifysig d).
Proof.
  unfold exec_verifysig. tstep; [tstep|].
  do 6 (tstep; [apply triple_load_le|]). do 3 (tstep; [tstep|]).
  repeat tstep. done.
Qed.

Lemma merkle_walk_computes (ptr i : Z) (fuel : nat) (current : list Z) :
  computes (merkle_walk ptr i fuel current).
Proof.
  revert i current. induction fuel as [|f IH]; intros i current; simpl; [by tstep|].
  tstep; [|tstep]. do 2 (tstep; [tstep|]). apply IH.
Qed.
#[local] Hint Resolve merkle_walk_computes : triple.

Lemma exec_merkle_verify_computes (d : DecodedInstruction) : computes (exec_merkle_verify d).
Proof.
  unfold exec_merkle_verify. do 3 (tstep; [tstep|]). tstep; [apply triple_load_le|].
  tstep; [tstep|]. destruct H2. repeat tstep. done.
Qed.

(** ** Instructions that change the world *)

(** The guard of every state-changing instruction. *)
Lemma triple_static_guard {A : Type} (R : Vm -> Vm -> Prop) `{!PreOrder R} (t : Trap) (k : M A) (Q : A -> Prop) :
  triple writable R k Q ->
  triple wf_vm R (s <-- gets static_mode ;; if (s : bool) then trap t else k) Q.
Proof.
  intros Hk v W. unfold bind, gets. destruct (static_mode v) eqn:E; [by split_and!|].
  destruct (Hk v (conj W E)) as ([? _] & ? & ? & ?). by split_and!.
Qed.

(** Reads the state and updates it from what was read. *)
Lemma triple_get_modify {A : Type} (I : Vm -> Prop) (R : Vm -> Vm -> Prop) `{!PreOrder R}
    (f : Vm -> Vm -> Vm) (k : Vm -> M A) (Q : A -> Prop) :
  (forall v, I v -> I (f v v) /\ R v (f v v) /\ (gas_ok v -> gas_ok (f v v))) ->
  (forall v, I v -> triple I R (k v) Q) ->
  triple I R (v <-- get ;; modify (f v) ;;; k v) Q.
Proof.
  intros Hf Hk v Hv. unfold bind at 1, get. destruct (Hf v Hv) as (I1 & R1 & G1).
  unfold bind, modify. destruct (Hk v Hv (f v v) I1) as (? & ? & ? & ?).
  split_and!; try done; [by etrans|]. intros. auto.
Qed.

Lemma journal_storage_write_fields (key : Z) (v : Vm) :
  let v' := journal_storage_write key v in
  wf_vm v ->
  wf_vm v' /\ key ∈ storage_journal_keys v' /\ orig_storage v' = orig_storage v /\
  storage v' = storage v /\ gas_used_total v' = gas_used_total v /\ memory v' = memory v /\
  fixed v' = fixed v /\ ctx v' = ctx v /\ logs v' = logs v /\ contracts v' = contracts v /\
  create_counter v' = create_counter v /\ balance_journal v' = balance_journal v.
Proof.
  intros v' [C W]. unfold v', journal_storage_write. case_bool_decide as Hk; [by split_and!|].
  split_and!; try done.
  - split; [by destruct C; split|]. destruct W; split; cbn; try done.
    + rewrite wf_storage_keys, fmap_app, list_to_set_app_L. cbn.
      by rewrite (right_id_L ∅ (∪)), (comm_L (∪)).
    + apply Forall_app. split; [done|]. constructor; [|done]. intros x E. cbn in E.
      exact (wf_storage _ _ E).
  - cbn. clear. set_solver.
  - unfold orig_storage. cbn. apply original_journal.
Qed.

Lemma triple_journal {A : Type} (cf : bool) (key : Z) (k : M A) (Q : A -> Prop) :
  triple (journaled key) (evolves cf) k Q ->
  triple writable (evolves cf) (modify (journal_storage_write key) ;;; k) Q.
Proof.
  intros Hk v [W S]. unfold bind, modify.
  destruct (journal_storage_write_fields key v W) as
    (W' & Hin & HO & Hst & Hg & Hm & Hf & Hc & Hl & Hcs & Hcc & Hb).
  set (v' := journal_storage_write key v) in *. clearbody v'.
  assert (static_mode v' = false) as S' by by rewrite (fixed_static _ _ Hf).
  destruct (Hk v' (conj (conj W' S') Hin)) as ([[? ?] ?] & ? & G & ?).
  split_and!; try done.
  - etrans; [|done]. split; try congruence.
    + lia.
    + by rewrite Hm.
    + by rewrite Hl.
    + unfold orig_balances. by rewrite Hc, Hb.
    + intros _. split; [intros key'; rewrite (fixed_view _ _ _ Hf); congruence|congruence].
  - intros Hs Hv. apply G; [done|]. unfold gas_ok in *. rewrite Hg.
    unfold fixed in Hf. by replace (gas_limit v') with (gas_limit v) by congruence.
Qed.

Lemma triple_storage_insert (cf : bool) (key : Z) (x : list Z) :
  bytes_ok x -> triple (journaled key) (evolves cf) (storage_insert key x) (fun _ => True).
Proof.
  intros Hx. apply triple_modify; [|done]. intros v [[[C W] S] Hk].
  split_and!; [|split; try done|done].
  - split; [split; [|done]|done]. split; [by destruct C; split|].
    destruct W; split; try done. cbn. by apply map_Forall_insert_2.
  - intros ->. split; [|congruence]. intros key'. unfold view, orig_storage. cbn.
    rewrite original_insert_in; [done|]. rewrite (wf_storage_keys _ W) in Hk.
    by apply elem_of_list_to_set in Hk.
Qed.

Lemma storage_lookup_bytes (v : Vm) (key : Z) (x : list Z) :
  wf_vm v -> storage_lookup v key = Some x -> bytes_ok x.
Proof.
  intros [_ []]. unfold storage_lookup. destruct (storage v !! key) eqn:E.
  - intros [= <-]. exact (wf_storage _ _ E).
  - destruct (storage_backend v) eqn:B; [|done]. by apply (wf_backend _ key x eq_refl).
Qed.

(** Caching what the backend answered changes no view of the storage. *)
Lemma cache_storage_evolves (cf : bool) (key : Z) (v : Vm) :
  let v' := cache_storage key (storage_lookup v key) v in
  wf_vm v -> wf_vm v' /\ evolves cf v v' /\ (gas_ok v -> gas_ok v').
Proof.
  intros v' W. subst v'. unfold cache_storage.
  destruct (storage v !! key) eqn:E; [by split_and!|].
  destruct (storage_lookup v key) as [x|] eqn:L; [|by split_and!].
  pose proof (storage_lookup_bytes _ _ _ W L) as Hx. destruct W as [C W].
  assert (forall k, view v (<[key := x]> (storage v)) k = view v (storage v) k) as Hview.
  { intros k. unfold view, storage_lookup in *. rewrite E in L.
    destruct (decide (key = k)) as [<-|]; [by rewrite lookup_insert_eq, E|by rewrite lookup_insert_ne]. }
  split_and!; [|split; try done|done].
  - split; [by destruct C; split|]. destruct W; split; try done. cbn. by apply map_Forall_insert_2.
  - intros _. split; [|intros _; split_and!; try done; exact Hview].
    intros k. unfold orig_storage. change (view v (original (<[key := x]> (storage v)) (storage_journal v)) k
      = view v (original (storage v) (storage_journal v)) k).
    destruct (decide (key ∈ (storage_journal v).*1)) as [Hk|Hk].
    + by rewrite original_insert_in.
    + rewrite original_insert_notin by done. unfold view. unfold storage_lookup in L. rewrite E in L.
      destruct (decide (key = k)) as [<-|]; [|by rewrite lookup_insert_ne].
      by rewrite lookup_insert_eq, original_lookup_notin, E by done.
Qed.

Lemma check_access_list_computes (key : Z) : computes (check_access_list key).
Proof. unfold check_access_list. repeat tstep; done. Qed.

Lemma note_access_computes (slot : Z) : computes (note_access slot).
Proof. core. Qed.

Lemma note_write_computes (slot : Z) : computes (note_write slot).
Proof. core. Qed.

Lemma warm_up_computes (key : Z) : computes (warm_up key).
Proof. unfold warm_up. tstep; [tstep|]. tstep; [by tstep|]. tstep; [core|]. by apply triple_charge_gas. Qed.

#[local] Hint Resolve check_access_list_computes note_access_computes note_write_computes
  warm_up_computes : triple.

Lemma exec_sload_evolves (cf : bool) (d : DecodedInstruction) :
  triple wf_vm (evolves cf) (exec_sload d) (fun _ => True).
Proof.
  unfold exec_sload. do 5 (tstep; [tstep|]).
  apply triple_get_modify; [apply _| |].
  { intros v Hv. by apply cache_storage_evolves. }
  intros v Hv. assert (forall x, storage_lookup v (derive_storage_key a1 a) = Some x -> bytes_ok x) as HB
    by (intros x; by apply storage_lookup_bytes).
  assert (bytes_ok (default [] (storage_lookup v (derive_storage_key a1 a)))) as HD.
  { destruct (storage_lookup _ _); simpl; [by apply HB|constructor]. }
  apply (triple_lift wf_vm); [apply frame_evolves|].
  tstep; [|tstep]. tstep; [|tstep; [|tstep; [|tstep]]].
  - apply triple_wide_write_masked. exact (fit_range 32 _ HD).
  - tstep; [tstep|]. destruct (storage_lookup _ _) as [x|]; [|by apply triple_gp_write].
    do 2 (tstep; [tstep|]). tstep; [apply triple_write_slice; by apply HB|].
    apply triple_gp_write. unfold in_range. cbv beta in *. unfold len in *. mem_lia.
  - apply triple_gp_write. exact (fit_range 8 _ HD).
Qed.

Lemma exec_sstore_evolves (cf : bool) (d : DecodedInstruction) :
  triple wf_vm (evolves cf) (exec_sstore d) (fun _ => True).
Proof.
  apply triple_static_guard; [apply _|]. do 6 (tstep; [tstep|]).
  apply triple_journal. tstep; [|tstep].
  tstep; [|tstep; [|tstep; [|tstep]]].
  - tstep; [tstep|]. apply triple_storage_insert, le_encode_bytes.
  - tstep; [tstep|]. apply triple_storage_insert, le_encode_bytes.
  - do 5 (tstep; [tstep|]). apply triple_storage_insert. cbv beta in *. tauto.
Qed.

Lemma add_refund_computes (n : Z) :
  computes (modify (fun v => set_gas_refund (wrap u64 (gas_refund v + n)) v)).
Proof. core. Qed.
#[local] Hint Resolve add_refund_computes : triple.

Lemma exec_sdelete_evolves (cf : bool) (d : DecodedInstruction) :
  triple wf_vm (evolves cf) (exec_sdelete d) (fun _ => True).
Proof.
  apply triple_static_guard; [apply _|]. do 5 (tstep; [tstep|]).
  apply triple_journal. tstep; [tstep|]. tstep; [repeat tstep; done|].
  tstep; [|tstep]. apply triple_storage_insert. constructor.
Qed.

Lemma triple_append_log (cf : bool) (f : Vm -> EventLog) :
  triple writable (evolves cf) (modify (fun v => set_logs (logs v ++ [f v]) v)) (fun _ => True).
Proof.
  apply triple_modify; [|done]. intros v [[C W] S]. split_and!; [|split; try done; cbn|done].
  - split; [split; [by destruct C; split|by destruct W; split]|done].
  - by apply prefix_app_r.
  - congruence.
Qed.

Lemma exec_log_evolves (cf : bool) (d : DecodedInstruction) :
  triple wf_vm (evolves cf) (exec_log d) (fun _ => True).
Proof.
  apply triple_static_guard; [apply _|]. tstep; [tstep|]. tstep; [tstep|].
  eapply triple_bind; [apply _| |intros tops _].
  { eapply triple_lift; [apply _|apply frame_evolves|]. apply (triple_traverse _ _ _ _ (fun _ => True)). intros t.
    eapply triple_bind; [apply _|apply triple_traverse; [apply _|intros j; apply triple_load8]|].
    intros buf _. apply triple_ret; [apply _|]. exact Logic.I. }
  do 2 (tstep; [eapply triple_lift; [apply _|apply frame_evolves|apply triple_load_le]|]).
  cbv beta in *. change (8 * Z.of_nat 8) with 64 in *.
  tstep; [tstep|]. tstep; [tstep|]. tstep; [apply triple_append_log|tstep].
Qed.
End Safe.
