(* ===== verification/VmCalls.v ===== *)
(** * External calls, deployment, and execution respect the invariants

    The specification a child execution meets ([child_spec]), the lemmas that
    show that [do_ext_call] and [do_create] respect [evolves] for any child
    that meets it, and the induction on fuel that shows that [execute] does. *)

From stdpp Require Import base numbers list option gmap.
From Stdlib Require Import ZArith Lia.
From S2P Require Import Prelude Crypto Isa Cpu Memory Vm VmStep VmInv VmSafe.

#[local] Open Scope Z_scope.
#[local] Open Scope pyde_scope.

(** ** What a caller may rely on *)

(** [execute] on a child [c] ended in [c'] with output [o]. *)
Record child_ok (c c' : Vm) (o : ExecutionOutput) : Prop := {
  co_wf : wf_vm c';
  co_dom : dom (balances (ctx c)) ⊆ dom (balances (ctx c'));
  co_total : total (balances (ctx c')) = total (balances (ctx c));
  co_fail : outcome o <> Success -> balances (ctx c') = balances (ctx c);
  co_journal : storage_journal c' = [];
  co_logs : static_mode c = true -> out_logs o = [];
  co_gas : in_range u64 (out_gas_used o);
  co_refund : in_range u64 (out_gas_refund o)
}.

Definition child_spec (exec_child : Vm -> option (Vm * ExecutionOutput)) : Prop :=
  forall c c' o, wf_vm c -> exec_child c = Some (c', o) -> child_ok c c' o.

(** ** Spawning and loading *)

Lemma spawn_child_wf (v : Vm) (limit : Z) (c : ExecutionContext) (static : bool) (data : list Z) :
  wf_vm v -> in_range u64 limit -> wf_ctx c -> bytes_ok data ->
  wf_vm (spawn_child v limit c static data).
Proof.
  intros [_ W] Hl Hc Hd. destruct W. split.
  - split; cbn; first [done|apply Cpu_new_wf|apply Memory_new_wf|constructor].
  - split; cbn; try done; try lia; try (by destruct Hc); constructor.
Qed.

Lemma words_range (code : list Z) : bytes_ok code -> Forall (in_range u32) (words code).
Proof.
  intros H. remember (length code) as n eqn:E. assert (length code <= n)%nat as Hn by lia. clear E.
  revert code H Hn. induction n as [|n IH]; intros code H Hn.
  - destruct code; [constructor|simpl in Hn; lia].
  - destruct code as [|b0 [|b1 [|b2 [|b3 code]]]]; cbn [words]; try constructor.
    + apply (Forall_take _ 4) in H. cbn in H. exact (le_decode_range _ H).
    + apply IH; [by apply (Forall_drop _ 4) in H|simpl in Hn; lia].
Qed.

Lemma words_wf (code : list Z) : bytes_ok code -> Forall wf_decoded (decode <$> words code).
Proof.
  intros H. apply Forall_fmap. eapply Forall_impl; [by apply words_range|].
  intros w [Hw _]. by apply decode_wf.
Qed.

Lemma load_code_wf (code : list Z) (m : Memory) :
  bytes_ok code -> wf_memory m -> wf_memory (load_code code m).1.
Proof.
  intros Hc W. unfold load_code. destruct (Z.ltb_spec CODE_END (CODE_START + len code)); [done|].
  destruct (write_bytes_wf CODE_START code m Hc W). split; mem_proj; try done.
  unfold len in *. rewrite wrap_small by mem_lia. mem_lia.
Qed.

Lemma set_heap_top_wf (h : Z) (m : Memory) :
  HEAP_START <= h <= STACK_TOP -> wf_memory m -> wf_memory (set_heap_top h m).
Proof. intros Hs []. by split. Qed.

Lemma align8 (x : Z) : Z.land x (Z.lnot 7) = x - x mod 8.
Proof. rewrite <- Z.sub_land_same_l. f_equal. exact (Z.land_ones x 3 ltac:(lia)). Qed.

Lemma map_calldata_computes : computes map_calldata.
Proof.
  unfold map_calldata. tstep; [tstep|]. tstep; [by tstep|]. tstep; [tstep|].
  tstep; [apply triple_write_slice; by destruct H as [_ []]|].
  assert (0 <= len (calldata a)) by (unfold len; lia).
  tstep; [|tstep; [|by apply triple_gp_write]].
  - core. apply set_heap_top_wf; [|done].
    rewrite align8. unfold wrap. mem_lia.
  - apply triple_gp_write. unfold in_range. mem_lia.
Qed.

(** Loading replaces the code and the instruction cache, and nothing else of
    the world. *)
Lemma load_ok (code : list Z) (c c' : Vm) (r : Result unit VmErr) :
  wf_vm c -> bytes_ok code -> load code c = (c', r) ->
  wf_vm c' /\ rest (set_decoded_cache (decoded_cache c) c') = rest c /\
  (r = Ok tt ->
     decoded_cache c' = decode <$> words code /\
     same_code (load_code code (memory c)).1 (memory c')).
Proof.
  intros [C W] Hc. unfold load, bind at 1, with_memory.
  pose proof (load_code_wf code (memory c) Hc) as Hm.
  destruct (load_code code (memory c)) as [m' r'] eqn:E. cbn [fst] in *.
  destruct C. specialize (Hm wf_memory_).
  destruct r' as [u|e]; cbn [map_err].
  2:{ intros [= <- <-]. split_and!; [split; [by split|by apply (wf_rest_eq c)]|done|done]. }
  unfold bind at 1 2, modify. set (c1 := set_decoded_cache _ _).
  assert (wf_vm c1) as W1.
  { split; [by split|]. pose proof (words_wf code Hc). destruct W. by split. }
  assert (triple wf_vm frame (v <-- get ;; if negb (len (calldata v) =? 0) then map_calldata else ret tt)
            (fun _ => True)) as Hk.
  { tstep; [tstep|]. tstep; [apply map_calldata_computes|by tstep]. }
  intros EL. destruct (Hk c1 W1) as (W2 & [G S E2] & _). rewrite EL in *. cbn [fst] in *.
  unfold rest in *. split_and!; [done|cbn in *; congruence|].
  intros _. split; [cbn in *; congruence|done].
Qed.

(** ** Merging balances *)

Lemma foldl_insert_union (l : list (Address * Z)) (m : gmap Address Z) :
  NoDup l.*1 -> foldl (fun m e => <[e.1 := e.2]> m) m l = list_to_map l ∪ m.
Proof.
  revert m. induction l as [|[k x] l IH]; intros m Hn; cbn in *; [by rewrite (left_id_L ∅ (∪))|].
  inversion_clear Hn as [|?? Hk Hl]. rewrite IH by done.
  rewrite <- insert_union_l. symmetry. apply insert_union_r. by apply not_elem_of_list_to_map_1.
Qed.

Lemma merge_map_to_list (b m : gmap Address Z) :
  dom m ⊆ dom b -> foldl (fun m e => <[e.1 := e.2]> m) m (map_to_list b) = b.
Proof.
  intros Hd. rewrite foldl_insert_union, list_to_map_to_list by apply NoDup_fst_map_to_list.
  apply map_eq. intros a. rewrite lookup_union.
  destruct (b !! a) eqn:E; [by destruct (m !! a)|].
  destruct (m !! a) eqn:E2; [|done].
  apply elem_of_dom_2, Hd, elem_of_dom in E2 as [x Ex]. congruence.
Qed.

(** The fields that merging balances leaves alone. *)
Definition but_balances (v : Vm) :=
  (fixed v, core_fields v, (storage v, logs v, contracts v, create_counter v),
   (storage_journal v, storage_journal_keys v)).

Lemma but_balances_fields (v v' : Vm) :
  but_balances v' = but_balances v ->
  fixed v' = fixed v /\ core_fields v' = core_fields v /\
  storage v' = storage v /\ logs v' = logs v /\ contracts v' = contracts v /\
  create_counter v' = create_counter v /\ storage_journal v' = storage_journal v /\
  storage_journal_keys v' = storage_journal_keys v.
Proof. unfold but_balances. intros E. split_and!; congruence. Qed.

(** What merging keeps, entry by entry; the balances are only required to be
    good once all entries are merged. *)
Record merging (v v' : Vm) : Prop := {
  mg_but : but_balances v' = but_balances v;
  mg_keys : balance_journal_keys v = list_to_set (balance_journal v).*1 ->
    balance_journal_keys v' = list_to_set (balance_journal v').*1 /\
    orig_balances v' = orig_balances v
}.

#[global] Instance merging_preorder : PreOrder merging.
Proof.
  split; [by intros v; split|]. intros v1 v2 v3 [B1 K1] [B2 K2]. split; [congruence|].
  intros H1. destruct (K1 H1) as [H2 O2], (K2 H2) as [H3 O3]. split; congruence.
Qed.

Lemma journal_balance_merging (a : Address) (v : Vm) :
  merging v (journal_balance_write a v) /\
  ctx (journal_balance_write a v) = ctx v /\ a ∈ balance_journal_keys (journal_balance_write a v).
Proof.
  unfold journal_balance_write. case_bool_decide as Ha; [by split_and!|].
  split_and!; [split; [done|]|done|cbn; clear; set_solver].
  intros E. cbn. split.
  - rewrite E, fmap_app, list_to_set_app_L. cbn. by rewrite (right_id_L ∅ (∪)), (comm_L (∪)).
  - unfold orig_balances. cbn. apply original_journal.
Qed.

Lemma merge_balance_merging (v : Vm) (e : Address * Z) :
  merging v (merge_balance v e) /\
  balances (ctx (merge_balance v e)) = <[e.1 := e.2]> (balances (ctx v)).
Proof.
  destruct e as [a x]. unfold merge_balance. case_bool_decide as E; cbn [fst snd].
  { split; [done|]. by rewrite insert_id. }
  destruct (journal_balance_merging a v) as (M1 & C1 & K1).
  set (v1 := journal_balance_write a v) in *. clearbody v1.
  split; [|cbn; by rewrite C1]. etrans; [done|]. split; [by destruct v1|]. intros Hk. cbn.
  split; [done|]. unfold orig_balances. cbn. apply original_insert_in.
  rewrite Hk in K1. by apply elem_of_list_to_set in K1.
Qed.

Lemma merge_list_merging (l : list (Address * Z)) (v : Vm) :
  merging v (foldl merge_balance v l) /\
  balances (ctx (foldl merge_balance v l)) = foldl (fun m e => <[e.1 := e.2]> m) (balances (ctx v)) l.
Proof.
  revert v. induction l as [|e l IH]; intros v; cbn; [done|].
  destruct (merge_balance_merging v e) as [M1 B1], (IH (merge_balance v e)) as [M2 B2].
  split; [by etrans|]. by rewrite B2, B1.
Qed.

Lemma set_balances_ctx (c c' : ExecutionContext) :
  set_balances ∅ c' = set_balances ∅ c -> c' = set_balances (balances c') c.
Proof. destruct c, c'. unfold set_balances. cbn. congruence. Qed.

Lemma merge_balances_ok (cf : bool) (b : gmap Address Z) (v : Vm) :
  let v' := merge_balances b v in
  wf_vm v -> good_balances b -> dom (balances (ctx v)) ⊆ dom b ->
  total b = total (balances (ctx v)) -> (cf = true -> static_mode v = false) ->
  wf_vm v' /\ evolves cf v v' /\ (gas_ok v -> gas_ok v') /\ but_balances v' = but_balances v.
Proof.
  intros v' [C W] Hb Hd Ht Hcf. destruct (merge_list_merging (map_to_list b) v) as [[M1 M2] B1].
  rewrite merge_map_to_list in B1 by done.
  change (foldl merge_balance v (map_to_list b)) with v' in *. clearbody v'.
  pose proof W as []. destruct (M2 wf_balance_keys) as [K O].
  destruct (but_balances_fields _ _ M1) as (EF & EC & Est & El & Ect & Ecc & Ej & Ek).
  destruct (fixed_fields _ _ EF) as (EL & Ectx & Ed & Esb & Ecb & Ecd & Esm & Edp & Eal).
  assert (memory v' = memory v) as Em by (unfold core_fields in EC; congruence).
  assert (gas_used_total v' = gas_used_total v) as Eg by (unfold core_fields in EC; congruence).
  assert (wf_vm v') as W'.
  { split; [by apply (wf_core_eq v)|]. destruct wf_ctx_.
    pose proof (set_balances_ctx _ _ Ectx) as Ec. rewrite B1 in Ec.
    split; rewrite ?EL, ?Ed, ?Esb, ?Ecb, ?Ecd, ?Edp, ?Est, ?Ect, ?Ecc, ?Ej, ?Ek; try done.
    - rewrite Ec. by split.
    - change (good_balances (orig_balances v')). by rewrite O. }
  split_and!; [done| |unfold gas_ok; by rewrite Eg, EL|unfold but_balances; congruence].
  split; try done; rewrite ?Eg, ?Em, ?El, ?B1, ?Ecc; try done.
  { intros _. split_and!; [done..|]. by apply fixed_code_at. }
  intros Ecf. split; [|intros Hs; specialize (Hcf Ecf); congruence].
  intros key. unfold orig_storage. by rewrite (fixed_view _ _ _ EF), Est, Ej.
Qed.

(** ** Calls *)

(** A caller that waits for its child: its balances are those the child was
    spawned from. *)
Definition caller_at (b : gmap Address Z) (s : bool) (v : Vm) : Prop :=
  wf_vm v /\ balances (ctx v) = b /\ static_mode v = s.

#[global] Instance stable_caller_at (b : gmap Address Z) (s : bool) : Stable (caller_at b s).
Proof. apply stable_and; [apply _|]. unfold rest. intros v v' E [? ?]. split; congruence. Qed.

(** A child spawned from balances [b] by a caller in static mode or not. *)
Definition child_of (b : gmap Address Z) (s : bool) (c : Vm) : Prop :=
  wf_vm c /\ dom b ⊆ dom (balances (ctx c)) /\ total (balances (ctx c)) = total b /\
  (s = true -> static_mode c = true).

(** What the caller gets back. *)
Definition returned (b : gmap Address Z) (s : bool) (c' : Vm) (o : ExecutionOutput) : Prop :=
  wf_vm c' /\ dom b ⊆ dom (balances (ctx c')) /\ total (balances (ctx c')) = total b /\
  storage_journal c' = [] /\ (s = true -> out_logs o = []) /\
  in_range u64 (out_gas_used o) /\ in_range u64 (out_gas_refund o).

Lemma child_of_returned (b : gmap Address Z) (s : bool) (c c' : Vm) (o : ExecutionOutput) :
  child_of b s c -> child_ok c c' o -> returned b s c' o.
Proof.
  intros (W & D & T & S) []. unfold returned. split_and!; try done.
  - by etrans.
  - congruence.
  - intros Hs. by apply co_logs0, S.
Qed.

Lemma set_storage_evolves (st : gmap Z (list Z)) (v : Vm) :
  wf_vm v -> map_Forall (fun _ => bytes_ok) st ->
  wf_vm (set_storage st v) /\ evolves false v (set_storage st v).
Proof.
  intros [C W] Hs. split; [split; [by destruct C; split|by destruct W; split]|]. by split.
Qed.

Lemma set_logs_evolves (l : list EventLog) (v : Vm) :
  wf_vm v -> (static_mode v = true -> l = []) ->
  wf_vm (set_logs (logs v ++ l) v) /\ evolves false v (set_logs (logs v ++ l) v).
Proof.
  intros [C W] Hs. split; [split; [by destruct C; split|by destruct W; split]|].
  split; try done; cbn; [by apply prefix_app_r|].
  intros S. by rewrite (Hs S), app_nil_r.
Qed.

Lemma set_refund_evolves (n : Z) (v : Vm) :
  wf_vm v -> in_range u64 n ->
  wf_vm (set_gas_refund n v) /\ evolves false v (set_gas_refund n v).
Proof.
  intros [C W] Hn. split; [split; [by destruct C; split|by destruct W; split]|]. by split.
Qed.

Lemma merge_success_ok (del : bool) (b : gmap Address Z) (s : bool) (c' v : Vm) (o : ExecutionOutput) :
  let v' := merge_success del c' o v in
  caller_at b s v -> returned b s c' o ->
  wf_vm v' /\ evolves false v v' /\ (gas_ok v -> gas_ok v').
Proof.
  intros v' (W & Eb & Es) (Wc & D & T & J & L & _ & HR). unfold v', merge_success. rewrite J. cbn [foldl].
  destruct (set_storage_evolves (storage c') v W (wf_storage _ (proj2 Wc))) as [W1 E1].
  set (v1 := set_storage _ v) in *.
  set (v2 := if del then v1 else _).
  assert (wf_vm v2 /\ evolves false v1 v2 /\ (gas_ok v1 -> gas_ok v2)) as (W2 & E2 & G2).
  { subst v2. destruct del; [done|].
    destruct (merge_balances_ok false (balances (ctx c')) v1) as (? & ? & ? & ?); try done.
    - by destruct Wc as [_ [_ []]].
    - unfold v1. cbn. by rewrite Eb.
    - unfold v1. cbn. by rewrite T, Eb. }
  destruct (set_logs_evolves (out_logs o) v2 W2) as [W3 E3].
  { rewrite (fixed_static _ _ (ev_fixed _ _ _ E2)). intros Hs. apply L. subst v1. cbn in Hs. congruence. }
  set (v3 := set_logs _ v2) in *.
  destruct (set_refund_evolves (wrap u64 (gas_refund v3 + out_gas_refund o)) v3 W3) as [W4 E4].
  { apply wrap_range. lia. }
  split_and!; [done|by repeat (etrans; [done|])|].
  intros G. apply (G2 G).
Qed.

Lemma merge_tracking_computes (c : Vm) : computes (modify (merge_tracking c)).
Proof. core. Qed.

Lemma read_bytes_bytes (a n : Z) (m : Memory) : wf_memory m -> bytes_ok (load_bytes a n m).
Proof. intros W. apply Forall_fmap, Forall_true. intros i. by apply read_byte_ok. Qed.

Lemma child_return_data_bytes (c : Vm) (success : bool) :
  wf_vm c -> bytes_ok (child_return_data c success).
Proof.
  intros [C _]. destruct C. unfold child_return_data. destruct (return_data c); [|done].
  repeat case_match; try apply le_encode_bytes; [by apply read_bytes_bytes|constructor].
Qed.

Section Calls.
Context {P : Primitives} {POk : PrimitivesOk P}.
Context (exec_child : Vm -> option (Vm * ExecutionOutput)) (Hchild : child_spec exec_child).

Lemma triple_load_child (b : gmap Address Z) (s : bool) (code : list Z) (c : Vm) :
  bytes_ok code -> child_of b s c ->
  triple wf_vm frame (load_child code c) (child_of b s).
Proof.
  intros Hc (W & D & T & S). unfold load_child. destruct (load code c) as [c' [u|e]] eqn:E; [|tstep].
  destruct (load_ok _ _ _ _ W Hc E) as (W' & Er & _). tstep. unfold rest in Er.
  assert (ctx c' = ctx c) as Ec by (cbn in Er; congruence).
  assert (static_mode c' = static_mode c) as Es by (cbn in Er; congruence).
  unfold child_of. by rewrite Ec, Es.
Qed.

Lemma triple_run_child (b : gmap Address Z) (s : bool) (c : Vm) :
  child_of b s c ->
  triple wf_vm frame (run_child exec_child c) (fun r => returned b s r.1 r.2).
Proof.
  intros Hc. unfold run_child. destruct (exec_child c) as [[c' o]|] eqn:E; [|tstep].
  tstep. pose proof (Hchild _ _ _ (proj1 Hc) E). by eapply child_of_returned.
Qed.

Lemma run_call_holds (del : bool) (code : list Z) (b : gmap Address Z) (s : bool) (c v : Vm) :
  caller_at b s v -> child_of b s c -> bytes_ok code ->
  holds wf_vm (evolves false) v (run_call exec_child del code c)
    (fun r => bytes_ok (call_return_data r)).
Proof.
  intros HJ (W & D & T & S) Hcode. pose proof HJ as (Wv & Eb & Es).
  destruct (set_storage_evolves ∅ v Wv) as [W1 E1]; [apply map_Forall_empty|].
  unfold run_call. apply (holds_bind _ _ (caller_at b s) _ _ _
    (fun st => map_Forall (fun _ => bytes_ok) st)).
  { split_and!; try done. intros st [= <-]. by destruct Wv as [_ []]. }
  { by intros v' []. }
  intros st v' Hst HJ'. pose proof HJ' as (Wv' & Eb' & Es').
  apply (holds_bind _ _ (caller_at b s) _ _ _ (fun _ => True)).
  { destruct (set_storage_evolves ∅ v' Wv') as [W1' E1']; [apply map_Forall_empty|].
    by split_and!. }
  { by intros v2 []. }
  clear v' HJ' Wv' Eb' Es'. intros _ v' _ HJ'.
  assert (child_of b s (set_storage st c)) as Hc.
  { split_and!; try done. by apply set_storage_evolves. }
  assert (forall v1 v2, frame v1 v2 -> evolves false v1 v2) as HF by apply frame_evolves.
  eapply (holds_bind _ _ (caller_at b s));
    [apply (triple_lift (caller_at b s) _ _ _ HF (triple_load_child b s code _ Hcode Hc) v' HJ')|by intros ? []|].
  clear c W D T S Hc v' HJ'. intros c v' Hc HJ'.
  eapply (holds_bind _ _ (caller_at b s));
    [apply (triple_lift (caller_at b s) _ _ _ HF (triple_run_child b s c Hc) v' HJ')|by intros ? []|].
  clear v' HJ'. intros [c' o] v' Hr HJ'. cbn [fst snd] in Hr. pose proof Hr as (Wc' & _ & _ & _ & _ & Hg & _).
  eapply (holds_bind _ _ (caller_at b s));
    [apply (triple_lift (caller_at b s) _ _ _ HF (triple_charge_gas (out_gas_used o) (proj1 Hg)) v' HJ')|by intros ? []|].
  clear v' HJ'. intros _ v' _ HJ'.
  eapply (holds_bind _ _ wf_vm _ _ _ (fun _ => True)); [|done|].
  - destruct (bool_decide _).
    + destruct (merge_success_ok del b s c' v' o HJ' Hr) as (? & ? & ?). by split_and!.
    + destruct (set_storage_evolves (storage c') v' (proj1 HJ') (wf_storage _ (proj2 Wc'))). by split_and!.
  - clear v' HJ'. intros _ v' _ Wv'.
    assert (triple wf_vm (evolves false) (modify (merge_tracking c') ;;;
      ret (mkCallResult (bool_decide (outcome o = Success))
             (child_return_data c' (bool_decide (outcome o = Success))) (out_gas_used o)))
      (fun r => bytes_ok (call_return_data r))) as Ht.
    { tstep; [apply (triple_lift wf_vm _ _ _ HF), merge_tracking_computes|].
      tstep. by apply child_return_data_bytes. }
    exact (Ht v' Wv').
Qed.

Lemma max_forward_range (v : Vm) : wf_vm v -> in_range u64 (max_forward_63_64 v).
Proof.
  intros [[] []]. unfold max_forward_63_64, saturating_sub, max_of, in_range in *.
  case_match; lia_pow.
Qed.

Lemma forwarded_gas_range (v : Vm) (g : Z) :
  wf_vm v -> in_range u64 g -> in_range u64 (forwarded_gas v g).
Proof.
  intros W Hg. pose proof (max_forward_range v W). unfold forwarded_gas, in_range in *.
  case_match; lia.
Qed.

Lemma set_contracts_wf (a : Address) (code : list Z) (v : Vm) :
  wf_vm v -> bytes_ok code -> wf_vm (set_contracts (<[a := code]> (contracts v)) v).
Proof.
  intros [C W] Hc. split; [by destruct C; split|]. destruct W; split; try done.
  cbn. by apply map_Forall_insert_2.
Qed.

Lemma lookup_code_evolves (a : Address) :
  triple wf_vm (evolves false) (lookup_code a) (fun o => forall code, o = Some code -> bytes_ok code).
Proof.
  intros v W. unfold lookup_code, bind, get, ret, modify. cbn [fst snd].
  pose proof W as [_ []]. destruct (contracts v !! a) as [code|] eqn:E.
  { split_and!; try done. intros ? [= <-] ? [= <-]. exact (wf_contracts _ _ E). }
  destruct (code_backend v) as [backend|] eqn:B;
    [|split_and!; try done; by intros ? [= <-]].
  destruct (backend a) as [code|] eqn:Eb; [|split_and!; try done; by intros ? [= <-]]. cbn [fst snd].
  assert (bytes_ok code) as Hc by by eapply wf_code_backend.
  split_and!; [by apply set_contracts_wf| |done|by intros ? [= <-] ? [= <-]].
  split; try done. intros _. split_and!; [done..|]. intros a'. unfold code_at. cbn. rewrite B.
  destruct (decide (a = a')) as [<-|]; [by rewrite lookup_insert_eq, E|by rewrite lookup_insert_ne].
Qed.

Lemma callee_ctx_wf (c : ExecutionContext) (target : Address) (cv : Z) (b : gmap Address Z) :
  wf_ctx c -> address_ok target -> in_range u256 cv -> good_balances b ->
  wf_ctx (callee_ctx c target cv b).
Proof. intros [] ???. by split. Qed.

Lemma le_encode_address (x : Z) : address_ok (le_encode 32 x).
Proof. split; [apply length_le_encode|apply le_encode_bytes]. Qed.

Lemma spawned_child_of (v : Vm) (limit : Z) (c : ExecutionContext) (static : bool) (data : list Z) :
  wf_vm v -> in_range u64 limit -> wf_ctx c -> bytes_ok data ->
  dom (balances (ctx v)) ⊆ dom (balances c) -> total (balances c) = total (balances (ctx v)) ->
  (static_mode v = true -> static = true) ->
  child_of (balances (ctx v)) (static_mode v) (spawn_child v limit c static data).
Proof. intros. split_and!; try done. by apply spawn_child_wf. Qed.

Lemma call_ctx_ok (v : Vm) (d : DecodedInstruction) (del : bool) (target : Address) (x : ExecutionContext) :
  wf_vm v -> address_ok target -> call_ctx v d del target = Some x ->
  wf_ctx x /\ dom (balances (ctx v)) ⊆ dom (balances x) /\
  total (balances x) = total (balances (ctx v)).
Proof.
  intros [Cc Wr] Ha. pose proof (wf_ctx_ _ Wr) as Wctx. unfold call_ctx. destruct del; [by intros [= <-]|].
  set (cv := if imm_bit 13 d then _ else _).
  assert (in_range u256 cv) as Hcv.
  { subst cv. case_match; [|done]. eapply in_range_weaken; [|apply read_gp_range; by destruct Cc]. lia. }
  destruct (transfer_value _ _ _ _) as [b|] eqn:E; [|done]. intros [= <-].
  destruct (transfer_value_ok _ _ _ _ _ (wc_balances _ Wctx) E) as (? & ? & ?).
  split_and!; try done. by apply callee_ctx_wf.
Qed.

Definition result_ok (r : CallResult) : Prop := bytes_ok (call_return_data r).

Lemma do_ext_call_evolves (d : DecodedInstruction) (is_static del : bool) :
  triple wf_vm (evolves false) (do_ext_call exec_child d is_static del) result_ok.
Proof.
  unfold do_ext_call. tstep; [tstep|]. tstep; [tstep|]. do 5 (tstep; [tstep|]).
  tstep; [apply lookup_code_evolves|]. destruct a5 as [code|]; [|tstep; constructor].
  assert (bytes_ok code) as Hcode by by apply H5.
  destruct H4 as (_ & _ & Hdata).
  intros v W. apply holds_get.
  pose proof (forwarded_gas_range v a3 W H3) as Hf.
  destruct (call_ctx v d del (le_encode 32 a0)) as [x|] eqn:Ec;
    [|by split_and!; [|done|done|intros r [= <-]; constructor]].
  destruct (call_ctx_ok v d del _ x W (le_encode_address _) Ec) as (Hx & Hd & Ht).
  eapply run_call_holds; [done| |done]. apply spawned_child_of; try done.
  intros ->. by rewrite orb_true_r.
Qed.

Lemma write_call_result_computes (d : DecodedInstruction) (r : CallResult) :
  result_ok r -> computes (write_call_result d r).
Proof.
  intros Hr. unfold write_call_result. tstep; [tstep|]. tstep.
  - apply triple_when; [apply _|]. intros _. destruct (Z.ltb_spec 8 (len (call_return_data r))).
    + tstep; [tstep|]. eapply triple_bind; [apply _| |].
      { apply (triple_try_memory _ (fun _ => len (call_return_data r) <= MEMORY_SIZE));
          [by apply checked_write_slice_rel|]. intros m m' u _. apply checked_write_slice_len. }
      intros [u|e] Hu; (tstep; [|apply triple_gp_write]); [apply triple_gp_write| | |done].
      * eapply in_range_weaken; [|apply as_u32_range]. lia.
      * specialize (Hu u eq_refl). unfold in_range, len in *. mem_lia.
      * apply triple_gp_write. apply (in_range_weaken (8 * Z.of_nat 8)); [lia|].
        unfold in_range. rewrite <- pow256.
        pose proof (le_decode_range (take 8 (call_return_data r)) (Forall_take _ _ _ Hr)) as R.
        unfold len in *. rewrite length_take in R.
        replace (8 `min` length (call_return_data r))%nat with 8%nat in R by lia. done.
    + tstep; [|by apply triple_gp_write]. apply triple_gp_write. exact (fit_range 8 _ Hr).
  - tstep; [|tstep]. core.
Qed.

Lemma exec_call_ext_evolves (d : DecodedInstruction) :
  triple wf_vm (evolves false) (exec_call_ext exec_child d) (fun _ => True).
Proof.
  unfold exec_call_ext. tstep; [tstep|]. tstep; [tstep|]. tstep; [apply do_ext_call_evolves|].
  eapply triple_lift; [apply _|apply frame_evolves|by apply write_call_result_computes].
Qed.

Lemma exec_delegate_evolves (d : DecodedInstruction) :
  triple wf_vm (evolves false) (exec_delegate exec_child d) (fun _ => True).
Proof.
  unfold exec_delegate. tstep; [apply do_ext_call_evolves|].
  eapply triple_lift; [apply _|apply frame_evolves|by apply write_call_result_computes].
Qed.

(** ** Deployment *)

Lemma caller_at_writable (b : gmap Address Z) (v : Vm) :
  caller_at b false v <-> writable v /\ balances (ctx v) = b.
Proof. unfold caller_at, writable. tauto. Qed.

Lemma merge_storage_ok (cf : bool) (b : gmap Address Z) (l : list (Z * list Z)) (v : Vm) :
  Forall (fun e => bytes_ok e.2) l -> caller_at b false v ->
  let v' := foldl merge_storage_entry v l in
  caller_at b false v' /\ evolves cf v v' /\ (gas_ok v -> gas_ok v').
Proof.
  intros Hl. revert v. induction Hl as [|[k x] l Hx Hl IH]; intros v HJ; [done|]. cbn [foldl].
  pose proof HJ as [Hw Hb]%caller_at_writable.
  destruct (triple_journal cf k (storage_insert k x) (fun _ => True)
              (triple_storage_insert cf k x Hx) v Hw) as (Hw1 & E1 & G1 & _).
  change (_ v).1 with (merge_storage_entry v (k, x)) in *.
  assert (caller_at b false (merge_storage_entry v (k, x))) as HJ1.
  { apply caller_at_writable. split; [done|]. rewrite <- Hb. unfold merge_storage_entry, journal_storage_write.
    by destruct (bool_decide _). }
  destruct (IH _ HJ1) as (HJ2 & E2 & G2). split_and!; [done|by etrans|].
  intros G. by apply G2, G1.
Qed.

Lemma run_constructor_evolves (cf : bool) (b : gmap Address Z) (code args : list Z) (limit : Z)
    (c : ExecutionContext) :
  bytes_ok code -> bytes_ok args -> in_range u64 limit -> wf_ctx c ->
  dom b ⊆ dom (balances c) -> total (balances c) = total b ->
  triple (caller_at b false) (evolves cf) (run_constructor exec_child code args limit c)
    (fun b' => good_balances b' /\ dom b ⊆ dom b' /\ total b' = total b).
Proof.
  intros Hcode Hargs Hl Hc Hd Ht. unfold run_constructor.
  eapply (triple_bind _ _ _ _ (caller_at b false)); [by apply (triple_get _ _ (caller_at b false))|]. intros v (W & Eb & Es).
  assert (child_of b false (spawn_child v limit c false args)) as Hsp.
  { split_and!; try done. by apply spawn_child_wf. }
  assert (forall v1 v2, frame v1 v2 -> evolves cf v1 v2) as HF by apply frame_evolves.
  tstep; [apply (triple_lift (caller_at b false) _ _ _ HF (triple_load_child b false code _ Hcode Hsp))|].
  tstep; [apply (triple_lift (caller_at b false) _ _ _ HF (triple_run_child b false a H))|].
  destruct a0 as [c' o]. cbn [fst snd] in H0. destruct H0 as (Wc' & D & T & J & L & Hg & _).
  tstep; [tstep; by destruct Hg|]. destruct (outcome o); [|tstep|tstep|tstep].
  tstep; [|tstep; [apply (triple_lift _ _ _ _ HF), merge_tracking_computes|]].
  - apply (triple_modify _ _ _ (fun _ => True)); [|done]. intros v' HJ. apply merge_storage_ok; [|done].
    apply Forall_forall. intros [k x] Hin%elem_of_map_to_list. exact (wf_storage _ (proj2 Wc') _ _ Hin).
  - tstep. split_and!; try done. by destruct Wc' as [_ [_ []]].
Qed.

Lemma parse_deploy_bytes (init : list Z) :
  bytes_ok init ->
  let '(c, r, args) := parse_deploy init in
  (forall code, c = Some code -> bytes_ok code) /\ bytes_ok r /\ bytes_ok args.
Proof.
  intros H. unfold parse_deploy, slice. repeat case_match; simplify_eq.
  all: split_and!; try done; try constructor; try (by apply Forall_take, Forall_drop);
    try by apply Forall_drop.
  intros ? [= <-]. by apply Forall_take, Forall_drop.
Qed.

Lemma triple_new_address (cf is_create2 : bool) (init : list Z) :
  triple writable (evolves cf)
    (if is_create2 then create2_address init else create_address init) address_ok.
Proof.
  assert (forall data, address_ok (poseidon2_hash data)) as Hp.
  { intros data. split; [apply poseidon2_hash_length|apply poseidon2_hash_bytes]. }
  destruct is_create2.
  { unfold create2_address. repeat tstep. apply Hp. }
  unfold create_address. intros v Hw. pose proof Hw as [[C W] S]. unfold bind, get, modify, ret.
  destruct (checked_add _ _ _) as [n|] eqn:E; [|by split_and!].
  apply checked_add_Some in E as [-> E].
  cbn [fst snd].
  assert (0 <= default 0 (create_counter v !! self_address (ctx v))) as H0.
  { destruct (create_counter v !! _) eqn:El; cbn; [|lia]. exact (proj1 (wf_counter _ W _ _ El)). }
  split_and!; [split; [split; [by destruct C; split|]|done]| |done|].
  - destruct W; split; try done. cbn. apply map_Forall_insert_2; [unfold in_range; lia|done].
  - split; try done; cbn. congruence.
  - intros a [= <-]. apply Hp.
Qed.

Lemma set_contracts_evolves (cf : bool) (a : Address) (code : list Z) :
  bytes_ok code ->
  triple writable (evolves cf) (modify (fun v => set_contracts (<[a := code]> (contracts v)) v))
    (fun _ => True).
Proof.
  intros Hc. apply triple_modify; [|done]. intros v [W S].
  split_and!; [by split; [apply set_contracts_wf|]| |done].
  split; try done; [cbn; congruence|]. intros _. split; [done|congruence].
Qed.

Lemma do_create_evolves (cf : bool) (d : DecodedInstruction) (is_create2 : bool) :
  triple writable (evolves cf) (do_create exec_child d is_create2) address_ok.
Proof.
  unfold do_create. tstep; [tstep|]. tstep; [tstep|]. do 3 (tstep; [tstep|]).
  destruct H2 as (_ & _ & Hinit). tstep; [apply triple_new_address|]. cbv beta in *.
  intros v Hw. apply holds_get. pose proof Hw as [[Cc Wr] S]. pose proof (wf_ctx_ _ Wr) as Wctx.
  destruct (is_some _); [by split_and!|].
  pose proof (parse_deploy_bytes a2 Hinit) as Hp.
  destruct (parse_deploy a2) as [[ctor runtime] args]. destruct Hp as (Hctor & Hrun & Hargs).
  assert (in_range u256 (read_gp 8 (cpu v))) as Hcv.
  { eapply in_range_weaken; [|apply read_gp_range; by destruct Cc]. lia. }
  destruct (transfer_value _ _ _ _) as [b|] eqn:E; [|by split_and!].
  destruct (transfer_value_ok _ _ _ _ _ (wc_balances _ Wctx) E) as (Hb & Ht & Hd).
  set (b0 := balances (ctx v)) in *.
  assert (caller_at b0 false v) as HJ by done.
  pose proof (callee_ctx_wf (ctx v) a3 _ b Wctx H2 Hcv Hb) as Hcc.
  apply (holds_bind _ _ (caller_at b0 false) _ _ _
    (fun b' => good_balances b' /\ dom b0 ⊆ dom b' /\ total b' = total b0)).
  - destruct ctor as [code|]; [|by split_and!; [| | |intros ? [= <-]]].
    apply run_constructor_evolves; try done; [by apply Hctor|by apply max_forward_range].
  - intros v' (? & _ & ?). done.
  - intros b' v' (Hb' & Hd' & Ht') (W' & Eb & S').
    apply (holds_bind _ _ writable _ _ _ (fun _ => True)); [|done|].
    + destruct (merge_balances_ok cf b' v' W' Hb') as (W2 & E2 & G2 & _);
        [by rewrite Eb|by rewrite Eb|done|].
      split_and!; try done. split; [done|]. exact (eq_trans (fixed_static _ _ (ev_fixed _ _ _ E2)) S').
    + intros _ v2 _ Hw2. clear - Hw2 H2 Hrun.
      assert (triple writable (evolves cf) (charge_gas (wrap u64 (len runtime * 200)) ;;;
        modify (fun v => set_contracts (<[a3 := runtime]> (contracts v)) v) ;;; ret a3) address_ok) as Ht.
      { tstep; [tstep|]. tstep; [by apply set_contracts_evolves|]. by tstep. }
      exact (Ht v2 Hw2).
Qed.

Lemma exec_create_evolves (cf : bool) (d : DecodedInstruction) :
  triple wf_vm (evolves cf) (exec_create exec_child d) (fun _ => True).
Proof.
  apply triple_static_guard; [apply _|]. intros v Hw.
  destruct (do_create_evolves cf d false v Hw) as (W1 & E1 & G1 & Q1).
  assert (forall x, in_range u256 x ->
    triple writable (evolves cf) (wide_write_masked (rd d) x ;;; next_pc) (fun _ => True)) as Ht.
  { intros x Hx. repeat tstep. }
  unfold bind, catch. destruct (do_create exec_child d false v) as [v1 r]. cbn [fst snd] in *.
  destruct r as [a|[t|]]; [|destruct (decide (t = OutOfGas)) as [->|Ht']|].
  - pose proof (address_range a (Q1 a eq_refl)) as Ha.
    destruct (Ht _ Ha v1 W1) as (W2 & E2 & G2 & _). unfold bind in *.
    split_and!; [done|by etrans| |by intros []]. intros. apply G2; [done|]. by apply G1.
  - by split_and!.
  - assert (holds writable (evolves cf) v1 (wide_write_masked (rd d) 0 ;;; next_pc) (fun _ => True))
      as (W2 & E2 & G2 & _) by by apply Ht.
    unfold bind in *. destruct t; try done;
      (split_and!; [done|by etrans| |by intros []]; intros; apply G2; [done|]; by apply G1).
  - by split_and!.
Qed.
End Calls.
