(* ===== verification/VmExec.v ===== *)
(** * What [step] and [execute] guarantee

    The instruction lemmas composed: one step, the execution loop by induction
    on fuel, and the specification [executed] of a whole execution. *)

From stdpp Require Import base numbers list option gmap.
From Stdlib Require Import ZArith Lia.
From S2P Require Import Prelude Crypto Isa Cpu Memory Vm VmStep VmInv VmSafe VmCalls.

#[local] Open Scope Z_scope.
#[local] Open Scope pyde_scope.

(** Instructions that run another contract on this contract's storage overlay. *)
Definition is_call (op : Opcode.t) : bool :=
  match op with
  | Opcode.CallExt | Opcode.Delegate => true
  | _ => false
  end.

Definition call_free (v : Vm) : Prop :=
  Forall (fun d => is_call (opcode d) = false) (decoded_cache v).

(** ** Shapes of states *)

Lemma clear_journals_wf (v : Vm) : wf_vm v -> wf_vm (clear_journals v).
Proof.
  intros [C W]. split; [by destruct C; split|]. destruct W; split; try done; cbn.
  destruct wf_ctx_. done.
Qed.

(** What clearing the journals keeps. *)
Record cleared (v v' : Vm) : Prop := {
  cl_ctx : ctx v' = ctx v;
  cl_fixed : fixed v' = fixed v;
  cl_memory : memory v' = memory v;
  cl_gas : gas_used_total v' = gas_used_total v;
  cl_refund : gas_refund v' = gas_refund v;
  cl_logs : logs v' = logs v;
  cl_contracts : contracts v' = contracts v;
  cl_counter : create_counter v' = create_counter v;
  cl_lookup : forall key, storage_lookup v' key = storage_lookup v key;
  cl_orig : forall key, view v' (orig_storage v') key = storage_lookup v key;
  cl_orig_balances : orig_balances v' = balances (ctx v);
  cl_journals : storage_journal v' = [] /\ balance_journal v' = []
}.

Lemma clear_journals_cleared (v : Vm) : cleared v (clear_journals v).
Proof. by split. Qed.

Lemma cleared_gas_ok (v v' : Vm) : cleared v v' -> gas_ok v <-> gas_ok v'.
Proof.
  intros []. unfold gas_ok. destruct (fixed_fields _ _ cl_fixed0) as (-> & _). by rewrite cl_gas0.
Qed.

Lemma undo_fields (n : nat) (v : Vm) :
  balances (ctx (undo n v)) = orig_balances v /\ storage (undo n v) = orig_storage v /\
  logs (undo n v) = take n (logs v) /\ gas_refund (undo n v) = 0 /\
  gas_used_total (undo n v) = gas_used_total v /\ memory (undo n v) = memory v /\
  fixed (undo n v) = fixed v /\ contracts (undo n v) = contracts v /\
  create_counter (undo n v) = create_counter v /\
  (forall key, storage_lookup (undo n v) key = view v (orig_storage v) key).
Proof. split_and!; done. Qed.

Lemma undo_wf (n : nat) (v : Vm) : wf_vm v -> wf_vm (undo n v).
Proof.
  intros [C W]. split; [by destruct C; split|]. destruct W; split; try done; cbn.
  - destruct wf_ctx_. by split.
  - by apply original_forall.
Qed.

Create HintDb computes.
Create HintDb evolve.

Section Exec.
Context {P : Primitives} {POk : PrimitivesOk P}.

(** ** One step *)

Section Step.
Context (exec_child : Vm -> option (Vm * ExecutionOutput)) (Hchild : child_spec exec_child).

Lemma triple_next (cf : bool) (m : M unit) :
  triple wf_vm (evolves cf) m (fun _ => True) -> triple wf_vm (evolves cf) (next m) (fun _ => True).
Proof. intros H. unfold next. tstep; [done|by tstep]. Qed.

Lemma lift_computes {A : Type} (cf : bool) (m : M A) :
  computes m -> triple wf_vm (evolves cf) m (fun _ => True).
Proof. apply triple_lift; [apply _|]. apply frame_evolves. Qed.

#[local] Hint Resolve jump_rel_computes branch_computes exec_call_computes exec_ret_computes
  exec_revert_computes exec_alu_inline_computes exec_wide_op_computes exec_load_computes
  exec_store_computes exec_wload_computes exec_wstore_computes exec_push_computes exec_pop_computes
  exec_caller_computes exec_callvalue_computes exec_blockhash_computes exec_poseidon_computes
  exec_verifysig_computes exec_assert_computes exec_memcpy_computes exec_selfdestruct_computes
  exec_merkle_verify_computes : computes.

#[local] Hint Resolve exec_sload_evolves exec_sstore_evolves exec_sdelete_evolves exec_log_evolves
  exec_call_ext_evolves exec_delegate_evolves exec_create_evolves : evolve.

Lemma dispatch_evolves (cf : bool) (d : DecodedInstruction) :
  (cf = true -> is_call (opcode d) = false) ->
  triple wf_vm (evolves cf) (dispatch exec_child d) (fun _ => True).
Proof.
  intros Hcf. unfold dispatch. destruct (opcode d); try (destruct cf; [discriminate (Hcf eq_refl)|]);
    lazymatch goal with
    | |- triple _ _ (trap _) _ => apply triple_throw; apply _
    | |- triple _ _ (ret _) _ => by apply triple_ret; [apply _|]
    | |- triple _ _ (next _) _ =>
        apply triple_next; first [apply lift_computes; solve [auto with computes] | solve [auto with evolve]]
    | |- _ => apply lift_computes; solve [auto with computes]
    end.
Qed.

(** The part of [step] after the instruction was paid. *)
Definition step_tail (d : DecodedInstruction) : M (option ExecResult) :=
  flow <-- dispatch exec_child d ;;
  match flow with
  | Next => drain_page_gas ;;; ret None
  | Return r => ret r
  end.

Lemma step_tail_evolves (cf : bool) (d : DecodedInstruction) :
  (cf = true -> is_call (opcode d) = false) ->
  triple wf_vm (evolves cf) (step_tail d) (fun _ => True).
Proof. intros Hcf. unfold step_tail. tstep; [by apply dispatch_evolves|]. repeat tstep; done. Qed.

(** [step] either rejects the program counter and changes nothing, or pays for
    the instruction at the program counter and then runs it. *)
Lemma step_shape (v : Vm) :
  step exec_child v = (v, Err (Trapped InvalidOpcode)) \/
  exists d, decoded_cache v !! Z.to_nat (pc v / 4) = Some d /\
    step exec_child v = (charge_gas (total_gas (Opcode.to_u8 (opcode d))) ;;; step_tail d) v.
Proof.
  unfold step, check_pc_bounds, step_tail, bind, get, ret, trap, throw.
  destruct (negb _); [by left|]. destruct (_ <=? _); [by left|].
  destruct (decoded_cache v !! _) as [d|] eqn:E; [|by left]. right. by exists d.
Qed.

Lemma step_holds (cf : bool) (v : Vm) :
  wf_vm v -> (cf = true -> call_free v) ->
  holds wf_vm (evolves cf) v (step exec_child) (fun _ => True).
Proof.
  intros W Hcf. unfold holds. destruct (step_shape v) as [E|(d & Hd & E)]; rewrite E; [by split_and!|].
  assert (triple wf_vm (evolves cf)
    (charge_gas (total_gas (Opcode.to_u8 (opcode d))) ;;; step_tail d) (fun _ => True)) as Ht.
  { tstep; [apply lift_computes, triple_charge_gas; pose proof (total_gas_bounds (opcode d)); lia|].
    apply step_tail_evolves. intros Ecf. exact (Forall_lookup_1 _ _ _ _ (Hcf Ecf) Hd). }
  exact (Ht v W).
Qed.

(** A step that succeeds paid at least 3 gas and respects the limit. *)
Lemma step_gas (v v' : Vm) (r : option ExecResult) :
  wf_vm v -> step exec_child v = (v', Ok r) ->
  gas_ok v' /\ gas_used_total v + 3 <= gas_used_total v'.
Proof.
  intros W Es. destruct (step_shape v) as [E|(d & Hd & E)]; rewrite E in Es; [done|].
  unfold bind in Es. destruct (charge_gas _ v) as [v1 [[]|]] eqn:Ec; [|done].
  destruct (charge_gas_ok _ _ _ W Ec) as [G ->].
  pose proof (total_gas_bounds (opcode d)) as Hb.
  assert (0 <= total_gas (Opcode.to_u8 (opcode d))) as Hn by lia.
  destruct (triple_charge_gas _ Hn v W) as (W1 & _). rewrite Ec in W1. cbn [fst] in W1.
  destruct (step_tail_evolves false d ltac:(done) _ W1) as (_ & Hev & Hg & _).
  rewrite Es in *. cbn [fst snd] in *.
  split; [by apply Hg|]. destruct Hev. cbn in *. lia.
Qed.
End Step.

(** ** The loop *)

Definition loop_ok (loop : nat -> Vm -> option (Vm * Outcome)) : Prop :=
  forall cf n v v' o,
    wf_vm v -> (cf = true -> call_free v) -> loop n v = Some (v', o) ->
    exists vm, wf_vm vm /\ evolves cf v vm /\
      (gas_ok v -> o <> OutOfGasOutcome -> gas_ok vm) /\
      (o = Success /\ v' = vm \/ o <> Success /\ v' = undo n vm).

(** A whole execution from [v], ending in [v'] with output [out]. *)
Record executed (cf : bool) (v v' : Vm) (out : ExecutionOutput) : Prop := {
  ex_wf : wf_vm v';
  ex_fixed : fixed v' = fixed v;
  ex_code : same_code (memory v) (memory v');
  ex_gas : gas_used_total v <= gas_used_total v';
  ex_limit : gas_ok v -> outcome out <> OutOfGasOutcome -> gas_ok v';
  ex_dom : dom (balances (ctx v)) ⊆ dom (balances (ctx v'));
  ex_total : total (balances (ctx v')) = total (balances (ctx v));
  ex_logs : logs v' = logs v ++ out_logs out;
  ex_fail : outcome out <> Success ->
    ctx v' = ctx v /\ out_logs out = [] /\ gas_refund v' = 0;
  ex_fail_storage : cf = true -> outcome out <> Success ->
    forall key, storage_lookup v' key = storage_lookup v key;
  ex_static : static_mode v = true ->
    out_logs out = [] /\ create_counter v' = create_counter v /\
    forall a, code_at v' a = code_at v a;
  ex_static_free : cf = true -> static_mode v = true ->
    ctx v' = ctx v /\ contracts v' = contracts v /\
    forall key, storage_lookup v' key = storage_lookup v key;
  ex_journals : storage_journal v' = [] /\ balance_journal v' = [];
  ex_out : out_gas_used out = effective_gas_used v' /\
    out_gas_used_raw out = gas_used_total v' /\ out_gas_refund out = gas_refund v'
}.

Lemma effective_gas_range (v : Vm) : wf_vm v -> in_range u64 (effective_gas_used v).
Proof. intros [[] _]. unfold effective_gas_used, in_range in *. lia_pow. Qed.

Lemma ctx_eq (v v' : Vm) :
  fixed v' = fixed v -> balances (ctx v') = balances (ctx v) -> ctx v' = ctx v.
Proof.
  intros Ef Eb. destruct (fixed_fields _ _ Ef) as (_ & Ec & _).
  rewrite (set_balances_ctx _ _ Ec), Eb. by destruct (ctx v).
Qed.

Lemma executed_success (cf : bool) (v v0 vm : Vm) (n : nat) :
  n = length (logs v) -> cleared v v0 -> wf_vm vm -> evolves cf v0 vm -> (gas_ok v0 -> gas_ok vm) ->
  let v' := clear_journals vm in
  executed cf v v' (mkOutput Success (effective_gas_used v') (gas_used_total v') (gas_refund v')
                      (drop n (logs v'))).
Proof.
  intros -> [] Wm [] Hg v'. pose proof (clear_journals_wf vm Wm) as W'.
  pose proof (clear_journals_cleared vm) as [C1 C2 C3 C4 C5 C6 C7 C8 C9 C10 C11 C12].
  assert (clear_journals vm = v') as E by done. rewrite E in *. clearbody v'. clear E.
  rewrite cl_ctx0, cl_logs0, cl_memory0, cl_gas0, cl_fixed0, cl_counter0 in *.
  rewrite (fixed_static _ _ cl_fixed0) in ev_static. destruct ev_logs as [k Ek].
  split; cbn [out_logs outcome out_gas_used out_gas_used_raw out_gas_refund]; rewrite ?C1, ?C3, ?C4; try done.
  - congruence.
  - intros G _. apply (cleared_gas_ok vm); [by split|]. apply Hg. by apply (cleared_gas_ok v); [split|].
  - by rewrite C6, Ek, drop_app_length.
  - intros Hs. rewrite C6, C8. destruct (ev_static Hs) as (-> & -> & Hco).
    split_and!; [by rewrite drop_all|done|]. intros a.
    by rewrite (fixed_code_at vm v' C2 C7), Hco, (fixed_code_at v v0 cl_fixed0 cl_contracts0).
  - intros Ecf Hs. destruct (ev_storage Ecf) as [_ H]. rewrite (fixed_static _ _ cl_fixed0) in H.
    destruct (H Hs) as (E1 & E2 & E3). rewrite C7. split_and!; [congruence..|].
    intros key. by rewrite C9, E3, cl_lookup0.
Qed.

Lemma executed_failure (cf : bool) (v v0 vm : Vm) (n : nat) (o : Outcome) :
  n = length (logs v) -> cleared v v0 -> wf_vm vm -> evolves cf v0 vm ->
  (gas_ok v0 -> o <> OutOfGasOutcome -> gas_ok vm) ->
  let v' := clear_journals (undo n vm) in
  executed cf v v' (mkOutput o (effective_gas_used v') (gas_used_total v') (gas_refund v')
                      (drop n (logs v'))).
Proof.
  intros -> Hcl Wm [] Hg v'. pose proof Hcl as [].
  pose proof (clear_journals_wf _ (undo_wf (length (logs v)) vm Wm)) as W'.
  pose proof (clear_journals_cleared (undo (length (logs v)) vm)) as Hcl'.
  destruct (undo_fields (length (logs v)) vm) as (B & _ & L & R & G & M & F & C & CC & V).
  assert (clear_journals (undo (length (logs v)) vm) = v') as E by done. rewrite E in *. clearbody v'.
  clear E. pose proof Hcl' as [C1 C2 C3 C4 C5 C6 C7 C8 C9 C10 C11 C12].
  set (v1 := undo _ vm) in *. clearbody v1.
  destruct ev_logs as [k Ek]. rewrite Ek, cl_logs0, take_app_length in L.
  assert (fixed v1 = fixed v) as Hf by congruence.
  assert (ctx v1 = ctx v) as Hc by (apply ctx_eq; congruence).
  assert (cf = true -> forall key, storage_lookup v' key = storage_lookup v key) as Hst.
  { intros Ecf key. by rewrite C9, V, (se_orig _ _ (ev_storage Ecf)), cl_orig0. }
  split; cbn [out_logs outcome out_gas_used out_gas_used_raw out_gas_refund];
    rewrite ?C1, ?C2, ?C3, ?C4, ?C6, ?L, ?drop_all, ?app_nil_r, ?Hc, ?Hf, ?G, ?M; try done.
  - congruence.
  - lia.
  - intros Gv Ho. apply (cleared_gas_ok v1); [done|]. unfold gas_ok in *. rewrite G.
    destruct (fixed_fields _ _ F) as (-> & _). apply Hg; [|done].
    destruct (fixed_fields _ _ cl_fixed0) as (-> & _). by rewrite cl_gas0.
  - intros _. split_and!; [done..|congruence].
  - auto.
  - intros Hs. destruct ev_static as (_ & Hcc & Hco); [by rewrite (fixed_static _ _ cl_fixed0)|].
    split_and!; [done|congruence|]. intros a.
    rewrite (fixed_code_at v1 v' C2 C7), (fixed_code_at vm v1 F C), Hco.
    by apply fixed_code_at.
  - intros Ecf Hs. split_and!; [done| |auto]. rewrite C7, C, <- cl_contracts0.
    apply (se_static _ _ (ev_storage Ecf)). by rewrite (fixed_static _ _ cl_fixed0).
Qed.

Lemma execute_with_ok (loop : nat -> Vm -> option (Vm * Outcome)) (cf : bool) (v v' : Vm)
    (out : ExecutionOutput) :
  loop_ok loop -> wf_vm v -> (cf = true -> call_free v) ->
  execute_with loop v = Some (v', out) -> executed cf v v' out.
Proof.
  intros Hloop W Hcf E. unfold execute_with in E. pose proof (clear_journals_wf v W) as W0.
  pose proof (clear_journals_cleared v) as Hcl.
  assert (cf = true -> call_free (clear_journals v)) as Hcf0 by done.
  set (v0 := clear_journals v) in *. clearbody v0.
  destruct (loop _ v0) as [[v1 o]|] eqn:El; [|done].
  injection E as <- <-. destruct (Hloop cf _ _ _ _ W0 Hcf0 El) as (vm & Wm & Ev & Hg & Hcase).
  pose proof (f_equal length (cl_logs _ _ Hcl)) as En. destruct Hcase as [[-> ->]|[Ho ->]].
  - apply (executed_success cf v v0 vm); try done. intros G. by apply Hg.
  - by apply (executed_failure cf v v0 vm).
Qed.

Lemma executed_child_ok (cf : bool) (v v' : Vm) (out : ExecutionOutput) :
  executed cf v v' out -> child_ok v v' out.
Proof.
  intros []. destruct ex_out0 as (E1 & E2 & E3). split; try done.
  - intros Ho. by destruct (ex_fail0 Ho) as (-> & _).
  - by destruct ex_journals0.
  - intros Hs. by destruct (ex_static0 Hs).
  - rewrite E1. by apply effective_gas_range.
  - rewrite E3. by destruct ex_wf0 as [[] _].
Qed.

Lemma execute_loop_ok (fuel : nat) : loop_ok (execute_loop fuel).
Proof.
  induction fuel as [|f IH]; intros cf n v v' o W Hcf El; [done|]. cbn [execute_loop] in El.
  assert (child_spec (execute_with (execute_loop f))) as Hchild.
  { intros c c' oc Wc Ec. eapply (executed_child_ok false), execute_with_ok; done. }
  pose proof (step_holds _ Hchild cf v W Hcf) as (W1 & E1 & G1 & _).
  destruct (step _ v) as [v1 r] eqn:Es. cbn [fst snd] in *.
  destruct r as [[[|]|]|[t|]].
  - injection El as <- <-. exists v1. split_and!; [done..| |by left]. intros G _. by apply G1.
  - injection El as <- <-. exists v1. split_and!; [done..| |by right]. intros G _. by apply G1.
  - assert (cf = true -> call_free v1) as Hcf1.
    { intros Ecf. unfold call_free. destruct (fixed_fields _ _ (ev_fixed _ _ _ E1)) as (_ & _ & -> & _).
      by apply Hcf. }
    destruct (IH cf n v1 v' o W1 Hcf1 El) as (vm & W2 & E2 & G2 & Hc).
    exists vm. split_and!; [done|by etrans| |done]. intros G. by apply G2, G1.
  - destruct (decide (t = OutOfGas)) as [->|Ht].
    + injection El as <- <-. exists v1. split_and!; [done..| |by right]. done.
    + assert (v' = undo n v1 /\ o = TrapOutcome t) as [-> ->].
      { destruct t; try done; by simplify_eq. }
      exists v1. split_and!; [done..| |by right]. intros G _. apply G1; [|done]. by destruct t.
  - done.
Qed.

(** Every execution that ends meets [executed]. *)
Lemma execute_ok (cf : bool) (fuel : nat) (v v' : Vm) (out : ExecutionOutput) :
  wf_vm v -> (cf = true -> call_free v) -> execute fuel v = Some (v', out) -> executed cf v v' out.
Proof. apply execute_with_ok, execute_loop_ok. Qed.

Lemma execute_child_spec (fuel : nat) : child_spec (execute fuel).
Proof. intros c c' o W E. eapply (executed_child_ok false), execute_ok; done. Qed.
End Exec.
