(* ===== verification/VmTerm.v ===== *)
(** * Every execution ends

    The model runs child VMs on fuel.  This file shows that fuel is only a
    device of the model: more fuel never changes a result, and enough fuel
    exists for every program, because each instruction costs gas, the 64-bit
    gas counter traps when it overflows, and calls nest at most 64 deep. *)

From stdpp Require Import base numbers list option gmap.
From Stdlib Require Import ZArith Lia.
From S2P Require Import Prelude Crypto Isa Cpu Memory Vm VmStep VmInv VmSafe VmCalls VmExec.

#[local] Open Scope Z_scope.
#[local] Open Scope pyde_scope.

(** ** Computations that never ask for a child *)

Definition settled {A : Type} (r : Result A VmErr) : Prop := r <> Err NoFuel.

Definition settles {A : Type} (m : M A) : Prop := forall v, settled (m v).2.

Create HintDb settles.

Section Settles.
Context {A B : Type}.

Lemma settles_ret (a : A) : settles (ret a).
Proof. by intros v. Qed.

Lemma settles_trap (t : Trap) : settles (trap (A := A) t).
Proof. by intros v. Qed.

Lemma settles_gets (f : Vm -> A) : settles (gets f).
Proof. by intros v. Qed.

Lemma settles_bind (m : M A) (k : A -> M B) :
  settles m -> (forall a, settles (k a)) -> settles (bind m k).
Proof.
  intros Hm Hk v. unfold bind. pose proof (Hm v) as H. destruct (m v) as [v1 [a|e]]; [apply Hk|].
  unfold settled in *. cbn in *. congruence.
Qed.

Lemma settles_lift_trap (r : Result A Trap) : settles (lift_trap r).
Proof. intros v. by destruct r. Qed.

Lemma settles_with_memory (f : MemM A) : settles (with_memory f).
Proof. intros v. unfold with_memory. by destruct (f _) as [m' []]. Qed.

Lemma settles_try_memory (f : MemM A) : settles (try_memory f).
Proof. intros v. unfold try_memory. by destruct (f _). Qed.

Lemma settles_with_cpu (f : ST Cpu Trap A) : settles (with_cpu f).
Proof. intros v. unfold with_cpu. by destruct (f _) as [m' []]. Qed.

Lemma settles_traverse (f : A -> M B) (l : list A) :
  (forall a, settles (f a)) -> settles (traverse f l).
Proof.
  intros Hf. induction l as [|a l IH]; [by intros v|]. cbn [traverse] in *.
  intros v. unfold bind. pose proof (Hf a v) as H. destruct (f a v) as [v1 [b|e]]; [|by unfold settled in *; cbn in *; congruence].
  pose proof (IH v1) as H1. destruct (traverse f l v1) as [v2 [bs|e]]; [done|].
  unfold settled in *; cbn in *; congruence.
Qed.
End Settles.

Lemma settles_get : settles get.
Proof. by intros v. Qed.

Lemma settles_modify (f : Vm -> Vm) : settles (modify f).
Proof. by intros v. Qed.

Lemma settles_when (b : bool) (m : M unit) : settles m -> settles (when b m).
Proof. by destruct b. Qed.

#[export] Hint Resolve settles_ret settles_trap settles_gets settles_get settles_modify
  settles_lift_trap settles_with_memory settles_try_memory settles_with_cpu settles_when
  settles_traverse : settles.

(** Unfolds a computation down to its parts. *)
Ltac settle :=
  repeat lazymatch goal with
  | |- settles (bind _ _) => apply settles_bind; [|intros ?]
  | |- settles (if ?b then _ else _) => destruct b
  | |- settles (match ?x with _ => _ end) => destruct x
  | |- settles (when _ _) => apply settles_when
  | |- settles (traverse _ _) => apply settles_traverse; intros ?
  | |- settles _ => first [solve [auto with settles]
      | progress unfold gp_read, gp_write, wide_read, wide_write, wide_write_masked, next_pc,
          charge_gas, drain_page_gas, precheck_bulk_page_budget, storage_insert, warm_up,
          check_access_list, note_access, note_write, return_zero, jump_rel, next]
  end.

(** ** Computations that ask for at most one child *)

(** At depth [D], a computation that depends on how children run either does
    not run one, or runs one child that is a level deeper and then settles. *)
Section Asks.
Context {P : Primitives} {POk : PrimitivesOk P} (D : Z) (s : bool).

Abbreviation runner := (Vm -> option (Vm * ExecutionOutput)) (only parsing).

Definition at_depth (v : Vm) : Prop := wf_vm v /\ ext_call_depth v = D /\ static_mode v = s.

#[local] Instance stable_at_depth : Stable at_depth.
Proof. apply stable_and; [apply _|]. unfold rest. intros v v' E []. split; congruence. Qed.

Definition asks {A : Type} (F : runner -> M A) : Prop :=
  forall v, at_depth v ->
    (exists res, settled res.2 /\ forall ec, F ec v = res) \/
    (D < MAX_EXT_CALL_DEPTH /\ exists c v0 k,
       wf_vm c /\ ext_call_depth c = D + 1 /\ (forall r, settled (k r).2) /\
       forall ec, F ec v = match ec c with Some r => k r | None => (v0, Err NoFuel) end).

Lemma triple_at_depth {A : Type} (m : M A) (Q : A -> Prop) :
  triple wf_vm (evolves false) m Q -> triple at_depth (evolves false) m Q.
Proof.
  intros Hm v (W & Ed & Es). destruct (Hm v W) as (W1 & E1 & G1 & Q1). split_and!; try done.
  split; [done|]. destruct (fixed_fields _ _ (ev_fixed _ _ _ E1)) as (_ & _ & _ & _ & _ & _ & -> & -> & _).
  done.
Qed.

Lemma triple_writable_at_depth {A : Type} (m : M A) (Q : A -> Prop) :
  s = false -> triple writable (evolves false) m Q -> triple at_depth (evolves false) m Q.
Proof.
  intros Hs Hm v (W & Ed & Es). destruct (Hm v) as ([W1 _] & E1 & G1 & Q1); [split; [done|congruence]|].
  split_and!; try done. split; [done|].
  destruct (fixed_fields _ _ (ev_fixed _ _ _ E1)) as (_ & _ & _ & _ & _ & _ & -> & -> & _). done.
Qed.

Lemma asks_settles {A : Type} (m : M A) : settles m -> asks (fun _ => m).
Proof. intros Hm v _. left. exists (m v). split; [apply Hm|done]. Qed.

Lemma asks_prefix {A B : Type} (m : M A) (F : A -> runner -> M B) (Q : A -> Prop) :
  settles m -> triple at_depth (evolves false) m Q -> (forall a, Q a -> asks (F a)) ->
  asks (fun ec => bind m (fun a => F a ec)).
Proof.
  intros Hs Ht HF v Hv. destruct (Ht v Hv) as (Hv1 & _ & _ & HQ). pose proof (Hs v) as Hm.
  unfold bind. destruct (m v) as [v1 [a|e]]; cbn [fst snd] in *.
  - exact (HF a (HQ a eq_refl) v1 Hv1).
  - left. eexists. split; [|done]. unfold settled in *. cbn. congruence.
Qed.

Lemma asks_get {A : Type} (F : Vm -> runner -> M A) :
  (forall v, at_depth v -> asks (F v)) -> asks (fun ec => bind get (fun v => F v ec)).
Proof.
  intros HF. apply (asks_prefix get F at_depth); [apply settles_get| |done].
  by apply (triple_get _ _ at_depth).
Qed.

Lemma asks_suffix {A B : Type} (F : runner -> M A) (k : A -> M B) :
  asks F -> (forall a, settles (k a)) -> asks (fun ec => bind (F ec) k).
Proof.
  intros HF Hk v Hv. destruct (HF v Hv) as [([v1 r] & Hr & E)|(HD & c & v0 & kc & Wc & Dc & Hs & E)].
  - left. unfold bind. destruct r as [a|e].
    + exists (k a v1). split; [apply Hk|]. intros ec. by rewrite E.
    + exists (v1, Err e). split; [by unfold settled in *; cbn in *; congruence|]. intros ec. by rewrite E.
  - right. split; [done|]. exists c, v0, (fun r => bind (fun _ => kc r) k v0).
    split_and!; try done.
    + intros r. unfold bind. specialize (Hs r). destruct (kc r) as [v1 [a|e]]; [apply Hk|].
      unfold settled in *; cbn in *; congruence.
    + intros ec. unfold bind. rewrite E. by destruct (ec c).
Qed.

Lemma asks_run_child (c : Vm) :
  D < MAX_EXT_CALL_DEPTH -> wf_vm c -> ext_call_depth c = D + 1 -> asks (fun ec => run_child ec c).
Proof.
  intros HD Wc Dc v Hv. right. split; [done|]. exists c, v, (fun r => (v, Ok r)).
  split_and!; try done. intros ec. unfold run_child. by destruct (ec c).
Qed.

Lemma asks_catch {A B : Type} (F : runner -> M A) (k : Result A VmErr -> M B) :
  asks F -> (forall r, settled r -> settles (k r)) -> k (Err NoFuel) = throw NoFuel ->
  asks (fun ec => bind (catch (F ec)) k).
Proof.
  intros HF Hk Hno v Hv. destruct (HF v Hv) as [([v1 r] & Hr & E)|(HD & c & v0 & kc & Wc & Dc & Hs & E)].
  - left. exists (k r v1). split; [by apply Hk|]. intros ec. unfold bind, catch. by rewrite E.
  - right. split; [done|]. exists c, v0, (fun r => k (kc r).2 (kc r).1).
    split_and!; try done; [intros r; by apply Hk|].
    intros ec. unfold bind, catch. rewrite E. destruct (ec c) as [r|]; [by destruct (kc r)|].
    by rewrite Hno.
Qed.

(** ** The three instructions that run children *)

Lemma settles_load_child (code : list Z) (c : Vm) : settles (load_child code c).
Proof. unfold load_child. destruct (load code c) as [? []]; settle. Qed.

Lemma settles_lookup_code (a : Address) : settles (lookup_code a).
Proof. unfold lookup_code. settle. Qed.

#[local] Hint Resolve settles_load_child settles_lookup_code : settles.

Lemma asks_load_run {B : Type} (code : list Z) (c : Vm) (k : Vm * ExecutionOutput -> M B) :
  D < MAX_EXT_CALL_DEPTH -> wf_vm c -> ext_call_depth c = D + 1 -> bytes_ok code ->
  (forall r, settles (k r)) ->
  asks (fun ec => child <-- load_child code c ;; r <-- run_child ec child ;; k r).
Proof.
  intros HD Wc Dc Hcode Hk.
  apply (asks_prefix _ (fun child ec => bind (run_child ec child) k)
    (fun child => wf_vm child /\ ext_call_depth child = D + 1)); [apply settles_load_child| |].
  - apply triple_at_depth. unfold load_child. destruct (load code c) as [c' [u|e]] eqn:E; [|tstep].
    destruct (load_ok _ _ _ _ Wc Hcode E) as (W' & Er & _). tstep. split; [done|].
    unfold rest in Er. cbn in Er. congruence.
  - intros child [W' D']. apply asks_suffix; [by apply asks_run_child|done].
Qed.

Lemma asks_run_call (del : bool) (code : list Z) (c : Vm) :
  D < MAX_EXT_CALL_DEPTH -> wf_vm c -> ext_call_depth c = D + 1 -> bytes_ok code ->
  asks (fun ec => run_call ec del code c).
Proof.
  intros HD Wc Dc Hcode. unfold run_call.
  apply (asks_prefix _ (fun st ec => _) (fun st => map_Forall (fun _ => bytes_ok) st));
    [apply settles_gets| |].
  { apply triple_gets; [apply _|]. by intros v ([_ []] & _). }
  intros st Hst. apply (asks_prefix _ (fun _ ec => _) (fun _ => True)); [apply settles_modify| |].
  { apply triple_at_depth, triple_modify; [|done]. intros v W.
    destruct (set_storage_evolves ∅ v W); [apply map_Forall_empty|]. by split_and!. }
  intros _ _. apply asks_load_run; try done; [by apply set_storage_evolves|].
  intros [c' o]. settle.
Qed.

(** A settling prefix whose value satisfies [Q]. *)
Lemma asks_read {A B : Type} (m : M A) (F : A -> runner -> M B) (Q : A -> Prop) :
  settles m -> triple wf_vm frame m Q -> (forall a, Q a -> asks (F a)) ->
  asks (fun ec => bind m (fun a => F a ec)).
Proof.
  intros Hs Ht. apply asks_prefix; [done|]. by apply triple_lift; [apply _|apply frame_evolves|].
Qed.

(** The depth guard of calls and deployments. *)
Lemma asks_depth_guard {A : Type} (t : Trap) (F : runner -> M A) :
  (D < MAX_EXT_CALL_DEPTH -> asks F) ->
  asks (fun ec => depth <-- gets ext_call_depth ;;
                  if MAX_EXT_CALL_DEPTH <=? depth then trap t else F ec).
Proof.
  intros HF. apply (asks_prefix _ (fun depth ec => _) (fun depth => depth = D)); [apply settles_gets| |].
  { apply triple_gets; [apply _|]. by intros v (_ & ? & _). }
  intros depth ->. destruct (Z.leb_spec MAX_EXT_CALL_DEPTH D); [apply asks_settles; settle|by apply HF].
Qed.

Ltac settles_op := solve [unfold gp_read, wide_read; settle].

Lemma asks_do_ext_call (d : DecodedInstruction) (is_static del : bool) :
  asks (fun ec => do_ext_call ec d is_static del).
Proof.
  unfold do_ext_call. apply asks_depth_guard. intros HD.
  eapply (asks_read _ (fun target ec => _)); [settles_op|apply triple_wide_read|intros target Ht].
  do 3 (eapply (asks_read _ (fun x ec => _)); [settles_op|apply triple_gp_read|intros ? ?]). cbv zeta.
  eapply (asks_read _ (fun data ec => _)); [apply settles_with_memory
    |apply triple_read_slice; auto with pyde|intros data (_ & _ & Hdata)].
  eapply (asks_prefix _ (fun code ec => _)); [apply settles_lookup_code|apply triple_at_depth, lookup_code_evolves|].
  intros [code|] Hcode; [|apply asks_settles; settle].
  apply (asks_get (fun v ec => _)). intros v (W & Dv & Sv).
  destruct (call_ctx v d del _) as [x|] eqn:Ec; [|apply asks_settles; settle].
  destruct (call_ctx_ok v d del _ x W (le_encode_address _) Ec) as (Hx & _ & _).
  apply asks_run_call; try done.
  - apply spawn_child_wf; try done. by apply forwarded_gas_range.
  - cbn. by rewrite Dv.
  - by apply Hcode.
Qed.

Lemma asks_run_constructor (code args : list Z) (limit : Z) (c : ExecutionContext) :
  D < MAX_EXT_CALL_DEPTH -> bytes_ok code -> bytes_ok args -> in_range u64 limit -> wf_ctx c ->
  asks (fun ec => run_constructor ec code args limit c).
Proof.
  intros HD Hcode Hargs Hl Hc. unfold run_constructor. apply (asks_get (fun v ec => _)).
  intros v (W & Dv & Sv). apply asks_load_run; try done.
  - by apply spawn_child_wf.
  - cbn. by rewrite Dv.
  - intros [c' o]. settle.
Qed.

Lemma asks_do_create (d : DecodedInstruction) (is_create2 : bool) :
  s = false -> asks (fun ec => do_create ec d is_create2).
Proof.
  intros Hs. unfold do_create. apply asks_depth_guard. intros HD.
  do 2 (eapply (asks_read _ (fun x ec => _)); [settles_op|apply triple_gp_read|intros ? ?]).
  eapply (asks_read _ (fun init ec => _)); [apply settles_with_memory
    |apply triple_read_slice; auto with pyde|intros init (_ & _ & Hinit)].
  eapply (asks_prefix _ (fun addr ec => _)); [unfold create2_address, create_address; settle
    |by apply triple_writable_at_depth, triple_new_address|intros addr Haddr].
  apply (asks_get (fun v ec => _)). intros v (W & Dv & Sv).
  destruct (is_some _); [apply asks_settles; settle|].
  pose proof (parse_deploy_bytes init Hinit) as Hp.
  destruct (parse_deploy init) as [[ctor runtime] args]. destruct Hp as (Hctor & _ & Hargs).
  pose proof W as [Cc [_ Wctx]].
  destruct (transfer_value _ _ _ _) as [b|] eqn:E; [|apply asks_settles; settle].
  destruct (transfer_value_ok _ _ _ _ _ (wc_balances _ Wctx) E) as (Hb & _ & _).
  apply (asks_suffix (fun ec => _)); [|intros final; settle].
  destruct ctor as [code|]; [|apply asks_settles; settle].
  apply asks_run_constructor; try done; [by apply Hctor|by apply max_forward_range|].
  apply callee_ctx_wf; try done. eapply in_range_weaken; [|apply read_gp_range; by destruct Cc]. lia.
Qed.

Lemma asks_exec_create (d : DecodedInstruction) : asks (fun ec => exec_create ec d).
Proof.
  unfold exec_create.
  apply (asks_prefix _ (fun st ec => _) (fun st => st = s)); [apply settles_gets| |].
  { apply triple_gets; [apply _|]. by intros v (_ & _ & ?). }
  intros [] Hst; [apply asks_settles; settle|].
  apply (asks_catch (fun ec => do_create ec d false)); [by apply asks_do_create| |done].
  intros r Hr. apply settles_bind; [|intros; settle]. destruct r as [a|[t|]]; [settle| |done].
  destruct t; settle.
Qed.

Lemma settles_write_call_result (d : DecodedInstruction) (r : CallResult) :
  settles (write_call_result d r).
Proof. unfold write_call_result. settle. Qed.

Lemma asks_exec_call_ext (d : DecodedInstruction) : asks (fun ec => exec_call_ext ec d).
Proof.
  unfold exec_call_ext. cbv zeta. eapply (asks_read _ (fun st ec => _) (fun _ => True)); [settle|tstep|].
  intros st _. destruct (_ && _); [apply asks_settles; settle|].
  apply asks_suffix; [apply asks_do_ext_call|]. intros r. apply settles_write_call_result.
Qed.

Lemma asks_exec_delegate (d : DecodedInstruction) : asks (fun ec => exec_delegate ec d).
Proof.
  unfold exec_delegate. apply asks_suffix; [apply asks_do_ext_call|].
  intros r. apply settles_write_call_result.
Qed.

Lemma settles_merkle_walk (ptr i : Z) (n : nat) (current : list Z) :
  settles (merkle_walk ptr i n current).
Proof.
  revert i current. induction n as [|n IH]; intros i current; cbn [merkle_walk]; settle.
Qed.

Lemma settles_exec_alu_inline (d : DecodedInstruction) : settles (exec_alu_inline d).
Proof.
  unfold exec_alu_inline. do 2 (apply settles_bind; [apply settles_gets|intros ?]).
  destruct (opcode d); settle.
Qed.

Lemma asks_dispatch (d : DecodedInstruction) : asks (fun ec => dispatch ec d).
Proof.
  unfold dispatch. destruct (opcode d);
    lazymatch goal with
    | |- asks (fun ec => next (exec_call_ext _ _)) => apply (asks_suffix (fun ec => exec_call_ext ec d)); [apply asks_exec_call_ext|intros ?; settle]
    | |- asks (fun ec => next (exec_delegate _ _)) => apply (asks_suffix (fun ec => exec_delegate ec d)); [apply asks_exec_delegate|intros ?; settle]
    | |- asks (fun ec => next (exec_create _ _)) => apply (asks_suffix (fun ec => exec_create ec d)); [apply asks_exec_create|intros ?; settle]
    | |- asks (fun _ => next _) => apply asks_settles, settles_bind; [|intros ?; settle]
    | |- _ => apply asks_settles
    end.
  all: try apply settles_exec_alu_inline.
  all: unfold jump_rel, branch, exec_call, exec_ret, exec_revert, exec_wide_op, exec_load, exec_store,
    exec_wload, exec_wstore, exec_push, exec_pop, exec_caller, exec_callvalue, exec_blockhash,
    exec_poseidon, exec_sload, exec_sstore, exec_sdelete, exec_log, exec_verifysig, exec_assert,
    exec_memcpy, exec_selfdestruct, exec_merkle_verify; settle.
  all: apply settles_merkle_walk.
Qed.

Lemma asks_step : asks step.
Proof.
  unfold step. apply (asks_read _ (fun _ ec => _) (fun _ => True)).
  { unfold check_pc_bounds. settle. }
  { unfold check_pc_bounds. repeat tstep; done. }
  intros _ _. apply (asks_get (fun v ec => _)). intros v _.
  destruct (_ !! _) as [d|]; [|apply asks_settles; settle].
  apply (asks_read _ (fun _ ec => _) (fun _ => True)); [settle| |].
  { apply triple_charge_gas. pose proof (total_gas_bounds (opcode d)). lia. }
  intros _ _. apply (asks_suffix (fun ec => dispatch ec d)); [apply asks_dispatch|]. intros f. settle.
Qed.
End Asks.

(** ** More fuel changes no result *)

Section Termination.
Context {P : Primitives} {POk : PrimitivesOk P}.

(** [ec'] knows every result [ec] knows. *)
Definition extends (ec ec' : Vm -> option (Vm * ExecutionOutput)) : Prop :=
  forall c r, wf_vm c -> ec c = Some r -> ec' c = Some r.

Lemma step_extends (ec ec' : Vm -> option (Vm * ExecutionOutput)) (v : Vm) :
  wf_vm v -> extends ec ec' -> settled (step ec v).2 -> step ec' v = step ec v.
Proof.
  intros W He Hs.
  destruct (asks_step _ _ v (conj W (conj eq_refl eq_refl)))
    as [(res & _ & E)|(_ & c & v0 & k & Wc & _ & _ & E)]; [by rewrite !E|].
  rewrite !E in *. destruct (ec c) as [r|] eqn:Ec; [by rewrite (He c r Wc Ec)|]. done.
Qed.

Lemma execute_loop_eq (f n : nat) (v : Vm) :
  execute_loop (S f) n v =
  match step (execute f) v with
  | (v', Ok (Some Halted)) => Some (v', Success)
  | (v', Ok (Some Reverted)) => Some (undo n v', RevertOutcome)
  | (v', Ok None) => execute_loop f n v'
  | (v', Err (Trapped OutOfGas)) => Some (undo n v', OutOfGasOutcome)
  | (v', Err (Trapped t)) => Some (undo n v', TrapOutcome t)
  | (_, Err NoFuel) => None
  end.
Proof. done. Qed.

Lemma step_wf (f : nat) (v : Vm) : wf_vm v -> wf_vm (step (execute f) v).1.
Proof.
  intros W. by destruct (step_holds (execute f) (execute_child_spec f) false v W) as (W1 & _).
Qed.

Lemma execute_extends (f f' : nat) :
  (forall n v r, wf_vm v -> execute_loop f n v = Some r -> execute_loop f' n v = Some r) ->
  extends (execute f) (execute f').
Proof.
  intros H c r Wc Ec. unfold execute, execute_with in *.
  destruct (execute_loop f _ _) as [[v1 o1]|] eqn:El; [|done].
  by rewrite (H _ _ _ (clear_journals_wf c Wc) El).
Qed.

Lemma execute_loop_S (f n : nat) (v : Vm) (r : Vm * Outcome) :
  wf_vm v -> execute_loop f n v = Some r -> execute_loop (S f) n v = Some r.
Proof.
  revert n v r. induction f as [|f IH]; intros n v r W E; [done|].
  rewrite execute_loop_eq in E |- *. pose proof (step_wf f v W) as W1.
  rewrite (step_extends (execute f) (execute (S f)) v W (execute_extends _ _ IH)).
  - destruct (step (execute f) v) as [v1 [[[]|]|]]; try done. by apply IH.
  - destruct (step (execute f) v) as [v1 [?|[?|]]]; done.
Qed.

Lemma execute_loop_mono (f f' n : nat) (v : Vm) (r : Vm * Outcome) :
  (f <= f')%nat -> wf_vm v -> execute_loop f n v = Some r -> execute_loop f' n v = Some r.
Proof. induction 1 as [|f' _ IH]; [done|]. intros W E. by apply execute_loop_S, IH. Qed.

Lemma execute_mono_extends (f f' : nat) : (f <= f')%nat -> extends (execute f) (execute f').
Proof. intros H. apply execute_extends. intros. by eapply execute_loop_mono. Qed.

(** ** Enough fuel exists *)

(** The first step settles once the children one level deeper have ended. *)
Lemma step_settles (v : Vm) :
  wf_vm v ->
  (forall c, wf_vm c -> ext_call_depth v < MAX_EXT_CALL_DEPTH ->
     ext_call_depth c = ext_call_depth v + 1 -> exists f r, execute f c = Some r) ->
  exists f, settled (step (execute f) v).2.
Proof.
  intros W Hc.
  destruct (asks_step _ _ v (conj W (conj eq_refl eq_refl)))
    as [(res & Hs & E)|(HD & c & v0 & k & Wc & Dc & Hs & E)].
  - exists O. by rewrite E.
  - destruct (Hc c Wc HD Dc) as (f & r & Ef). exists f. rewrite E, Ef. apply Hs.
Qed.

Lemma execute_loop_ends (b g : nat) (n : nat) (v : Vm) :
  wf_vm v -> MAX_EXT_CALL_DEPTH - ext_call_depth v <= Z.of_nat b ->
  2 ^ 64 - gas_used_total v <= Z.of_nat g -> exists f r, execute_loop f n v = Some r.
Proof.
  revert g n v. induction b as [b IHb] using lt_wf_ind. intros g. induction g as [g IHg] using lt_wf_ind.
  intros n v W Hb Hg. destruct (step_settles v W) as [f0 Hs].
  { intros c Wc HD Dc. pose proof W as [_ []].
    destruct (IHb (Nat.pred b) ltac:(lia) (Z.to_nat (2 ^ 64)) (length (logs c)) (clear_journals c))
      as (f & [c1 o] & E); [by apply clear_journals_wf|cbn; lia| |].
    { destruct Wc as [[] _]. cbn. unfold in_range in *. lia. }
    exists f. unfold execute, execute_with. change (logs (clear_journals c)) with (logs c). rewrite E. by eexists. }
  pose proof (step_wf f0 v W) as W1. destruct (step (execute f0) v) as [v1 r] eqn:Es.
  cbn [fst snd] in *. destruct r as [[[]|]|[t|]].
  - exists (S f0). rewrite execute_loop_eq, Es. by eexists.
  - exists (S f0). rewrite execute_loop_eq, Es. by eexists.
  - destruct (step_gas (execute f0) (execute_child_spec f0) v v1 None W Es) as [_ Hgas].
    pose proof (step_holds (execute f0) (execute_child_spec f0) false v W ltac:(done)) as (_ & Ev & _).
    rewrite Es in Ev. destruct (fixed_fields _ _ (ev_fixed _ _ _ Ev)) as (_ & _ & _ & _ & _ & _ & _ & Ed & _).
    cbn [fst] in Ed. pose proof W1 as [[] _]. unfold in_range in wf_gas_used.
    destruct (IHg (g - 3)%nat ltac:(lia) n v1 W1) as (f1 & r1 & E1); [rewrite Ed; lia|lia|].
    exists (S (max f0 f1)), r1. rewrite execute_loop_eq.
    rewrite (step_extends (execute f0) _ v W (execute_mono_extends f0 (max f0 f1) ltac:(lia))) by (by rewrite Es).
    rewrite Es. by apply (execute_loop_mono f1); [lia| |].
  - exists (S f0). rewrite execute_loop_eq, Es. destruct t; by eexists.
  - done.
Qed.

(** Every execution ends. *)
Lemma execute_ends (v : Vm) : wf_vm v -> exists f v' out, execute f v = Some (v', out).
Proof.
  intros W. destruct (execute_loop_ends (Z.to_nat (MAX_EXT_CALL_DEPTH - ext_call_depth v))
    (Z.to_nat (2 ^ 64)) (length (logs v)) (clear_journals v)) as (f & [v1 o] & E).
  - by apply clear_journals_wf.
  - cbn. lia.
  - destruct W as [[] _]. cbn. unfold in_range in *. lia.
  - exists f. unfold execute, execute_with. change (logs (clear_journals v)) with (logs v). rewrite E.
    by do 2 eexists.
Qed.
End Termination.
