(* ===== verification/VmProps.v ===== *)
(** * Properties of PVM executions

    The theorems a client of the VM relies on, each with a program it applies
    to: termination, the type invariant, atomicity of failed executions,
    conservation of balances, the gas limit, static mode, and the coherence of
    the instruction cache with the loaded code. *)

From stdpp Require Import base numbers list option gmap.
From Stdlib Require Import ZArith Lia.
From S2P Require Import Prelude Crypto Isa Cpu Memory Vm VmStep VmInv VmSafe VmCalls VmExec VmTerm.

#[local] Open Scope Z_scope.
#[local] Open Scope pyde_scope.

(** ** Programs *)

Definition ins (op : Opcode.t) (r s i : Z) : list Z := le_encode 4 (encode op r s i).

Definition addr (n : Z) : Address := le_encode 32 n.

(** Contract 10, called by account 1, with the given balances. *)
Definition test_ctx (b : gmap Address Z) : ExecutionContext :=
  mkCtx (addr 1) (addr 10) 0 1 1 1 0 0 0 (addr 9) [] b.

(** A VM ready to run [code], with other contracts deployed. *)
Definition boot (limit : Z) (b : gmap Address Z) (cs : gmap Address (list Z)) (code : list Z) : Vm :=
  (load code (set_contracts cs (with_gas_limit_and_context limit (test_ctx b)))).1.

Lemma ins_bytes (op : Opcode.t) (r s i : Z) : bytes_ok (ins op r s i).
Proof. apply le_encode_bytes. Qed.

Lemma addr_ok (n : Z) : address_ok (addr n).
Proof. apply le_encode_address. Qed.

Lemma test_ctx_wf (b : gmap Address Z) : good_balances b -> wf_ctx (test_ctx b).
Proof. intros Hb. split; cbn; try apply addr_ok; try done. Qed.

Lemma Vm_new_wf (limit : Z) (c : ExecutionContext) :
  in_range u64 limit -> wf_ctx c -> wf_vm (with_gas_limit_and_context limit c).
Proof.
  intros Hl Hc. split.
  - split; cbn; first [done|apply Cpu_new_wf|apply Memory_new_wf|constructor].
  - split; cbn; try done; try (by destruct Hc); constructor.
Qed.

Lemma boot_wf (limit : Z) (b : gmap Address Z) (cs : gmap Address (list Z)) (code : list Z) :
  in_range u64 limit -> good_balances b -> map_Forall (fun _ => bytes_ok) cs -> bytes_ok code ->
  wf_vm (boot limit b cs code).
Proof.
  intros Hl Hb Hcs Hcode. unfold boot.
  assert (wf_vm (set_contracts cs (with_gas_limit_and_context limit (test_ctx b)))) as W.
  { destruct (Vm_new_wf limit _ Hl (test_ctx_wf b Hb)) as [C W]. split; [by destruct C; split|].
    destruct W. by split. }
  destruct (load code _) as [v r] eqn:E. by destruct (load_ok _ _ _ _ W Hcode E).
Qed.

Lemma empty_good : good_balances ∅.
Proof. split; [apply map_Forall_empty|done]. Qed.

Section Properties.
Context {P : Primitives} {POk : PrimitivesOk P}.

(** ** Whole executions *)

(** [C1] Every execution of a well-formed machine ends, for every program,
    including nested calls and deployments, and its result does not depend on
    how much fuel the model is given beyond what it needs. *)
Theorem execution_terminates (v : Vm) :
  wf_vm v ->
  exists fuel v' out, forall fuel', (fuel <= fuel')%nat -> execute fuel' v = Some (v', out).
Proof.
  intros W. destruct (execute_ends v W) as (f & v' & out & E). exists f, v', out.
  intros f' Hf. exact (execute_mono_extends f f' Hf v _ W E).
Qed.

(** [C11] Type safety: an execution keeps the machine well-formed, whatever the
    program and however it ends; registers, gas counters and the program counter
    stay in their widths, memory stays well-formed, the code section and the
    immutable part of the machine are unchanged. *)
Theorem execution_type_safe (fuel : nat) (v v' : Vm) (out : ExecutionOutput) :
  wf_vm v -> execute fuel v = Some (v', out) ->
  wf_vm v' /\ fixed v' = fixed v /\ same_code (memory v) (memory v') /\
  in_range u64 (out_gas_used out) /\ in_range u64 (out_gas_used_raw out).
Proof.
  intros W E. destruct (execute_ok false fuel v v' out W ltac:(done) E).
  destruct ex_out as (-> & -> & _). split_and!; try done; [by apply effective_gas_range|].
  by destruct ex_wf as [[] _].
Qed.

(** [C4] Atomicity: an execution that reverts, runs out of gas or traps leaves
    the context (all balances included) and the event log exactly as they were
    and earns no refund, for every program, nested calls included. *)
Theorem failed_execution_restores (fuel : nat) (v v' : Vm) (out : ExecutionOutput) :
  wf_vm v -> execute fuel v = Some (v', out) -> outcome out <> Success ->
  ctx v' = ctx v /\ logs v' = logs v /\ out_logs out = [] /\ out_gas_refund out = 0.
Proof.
  intros W E Ho. destruct (execute_ok false fuel v v' out W ltac:(done) E).
  destruct (ex_fail Ho) as (Ec & El & Er), ex_out as (_ & _ & ->).
  rewrite ex_logs, El, app_nil_r. done.
Qed.

(** [C2] Conservation: an execution neither creates nor destroys value; the sum
    of all balances after it is the sum before it. *)
Theorem execution_conserves_value (fuel : nat) (v v' : Vm) (out : ExecutionOutput) :
  wf_vm v -> execute fuel v = Some (v', out) ->
  total (balances (ctx v')) = total (balances (ctx v)) /\
  dom (balances (ctx v)) ⊆ dom (balances (ctx v')) /\ good_balances (balances (ctx v')).
Proof.
  intros W E. destruct (execute_ok false fuel v v' out W ltac:(done) E).
  split_and!; try done. by destruct ex_wf as [_ [_ []]].
Qed.

(** Storage atomicity of code without external calls: a failed execution
    leaves every storage slot as a contract sees it (overlay, then backend)
    unchanged. *)
Theorem failed_call_free_execution_restores_storage (fuel : nat) (v v' : Vm)
    (out : ExecutionOutput) (key : Z) :
  wf_vm v -> call_free v -> execute fuel v = Some (v', out) -> outcome out <> Success ->
  storage_lookup v' key = storage_lookup v key.
Proof. intros W Hcf E Ho. destruct (execute_ok true fuel v v' out W ltac:(done) E). auto. Qed.

(** [C26] Static mode: an execution in static mode emits no event, and neither
    deploys a contract nor replaces one, nested calls included; without external
    calls it also changes no storage slot and no balance. *)
Theorem static_execution_is_readonly (fuel : nat) (v v' : Vm) (out : ExecutionOutput) :
  wf_vm v -> static_mode v = true -> execute fuel v = Some (v', out) ->
  logs v' = logs v /\ out_logs out = [] /\ create_counter v' = create_counter v /\
  (forall a, code_at v' a = code_at v a) /\
  (call_free v -> ctx v' = ctx v /\ contracts v' = contracts v /\
                  forall key, storage_lookup v' key = storage_lookup v key).
Proof.
  intros W Hs E. pose proof (execute_ok false fuel v v' out W ltac:(done) E) as [].
  destruct (ex_static Hs) as (El & Ec & Hco). rewrite ex_logs, El, app_nil_r. split_and!; try done.
  intros Hcf. pose proof (execute_ok true fuel v v' out W ltac:(done) E) as []. by auto.
Qed.

(** [C27] The gas limit: an execution that does not run out of gas used no more
    than its limit, gas used never decreases, and the refund returns at most half
    of it. *)
Theorem execution_respects_gas_limit (fuel : nat) (v v' : Vm) (out : ExecutionOutput) :
  wf_vm v -> gas_ok v -> execute fuel v = Some (v', out) ->
  gas_used_total v <= out_gas_used_raw out /\
  out_gas_used_raw out - out_gas_used_raw out / 2 <= out_gas_used out <= out_gas_used_raw out /\
  (outcome out <> OutOfGasOutcome -> gas_limit v = 0 \/ out_gas_used_raw out <= gas_limit v).
Proof.
  intros W G E. destruct (execute_ok false fuel v v' out W ltac:(done) E).
  destruct ex_out as (-> & -> & _), ex_wf as [[] _]. split_and!; [done|..].
  1,2: unfold effective_gas_used, in_range in *; lia_pow.
  intros Ho. destruct (fixed_fields _ _ ex_fixed) as (El & _). rewrite <- El. by apply ex_limit.
Qed.

(** Metering: a step that succeeds charges at least 3 gas and leaves the
    machine within its limit. *)
Theorem step_pays (fuel : nat) (v v' : Vm) (r : option ExecResult) :
  wf_vm v -> step (execute fuel) v = (v', Ok r) ->
  gas_used_total v + 3 <= gas_used_total v' /\
  (gas_limit v' = 0 \/ gas_used_total v' <= gas_limit v').
Proof.
  intros W E. by destruct (step_gas (execute fuel) (execute_child_spec fuel) v v' r W E).
Qed.
End Properties.

(** ** The theorems at work *)

(** Contract 10 calls contract 11 with a value of 30 and ends with [last]. *)
Definition payer (last : Opcode.t) : list Z :=
  ins Opcode.Addi 1 0 11 ++ ins Opcode.Widen 1 1 0 ++ ins Opcode.Addi 8 0 30 ++
  ins Opcode.CallExt 1 0 (3 * 2 ^ 8 + 2 ^ 13) ++ ins last 0 0 0.

Definition payer_vm (last : Opcode.t) : Vm :=
  boot 100000 {[addr 10 := 100]} {[addr 11 := ins Opcode.Halt 0 0 0]} (payer last).

(** A call-free program: writes slot 0 and ends with [last]. *)
Definition writer (last : Opcode.t) : list Z :=
  ins Opcode.Addi 1 0 7 ++ ins Opcode.Sstore 1 0 2 ++ ins last 0 0 0.

Definition writer_vm (last : Opcode.t) : Vm := boot 100000 ∅ ∅ (writer last).

Definition result_of (v : Vm) : Vm * ExecutionOutput :=
  default (v, mkOutput Success 0 0 0 []) (execute 40 v).

Lemma payer_wf (last : Opcode.t) : wf_vm (payer_vm last).
Proof.
  apply boot_wf; [split; [discriminate|reflexivity]| | |].
  - split; [by apply map_Forall_singleton|reflexivity].
  - apply map_Forall_singleton, ins_bytes.
  - repeat (apply Forall_app; split); apply ins_bytes.
Qed.

Lemma writer_wf (last : Opcode.t) : wf_vm (writer_vm last).
Proof.
  apply boot_wf; [split; [discriminate|reflexivity]|apply empty_good|apply map_Forall_empty|].
  repeat (apply Forall_app; split); apply ins_bytes.
Qed.

Lemma set_static_mode_wf (b : bool) (v : Vm) : wf_vm v -> wf_vm (set_static_mode b v).
Proof. intros [C W]. split; [by destruct C; split|]. by destruct W; split. Qed.

Lemma execution_terminates_witness :
  wf_vm (payer_vm Opcode.Halt) /\
  exists fuel v' out, forall fuel', (fuel <= fuel')%nat ->
    execute fuel' (payer_vm Opcode.Halt) = Some (v', out).
Proof.
  pose proof (payer_wf Opcode.Halt) as W. split; [exact W|]. exact (execution_terminates _ W).
Defined.

Lemma execution_type_safe_witness :
  wf_vm (payer_vm Opcode.Halt) /\ wf_vm (result_of (payer_vm Opcode.Halt)).1.
Proof.
  pose proof (payer_wf Opcode.Halt) as W. split; [exact W|].
  assert (execute 40 (payer_vm Opcode.Halt) =
    Some ((result_of (payer_vm Opcode.Halt)).1, (result_of (payer_vm Opcode.Halt)).2)) as E
    by (vm_compute; reflexivity).
  exact (proj1 (execution_type_safe 40 _ _ _ W E)).
Defined.

Lemma failed_execution_restores_witness :
  outcome (result_of (payer_vm Opcode.Revert)).2 = RevertOutcome /\
  ctx (result_of (payer_vm Opcode.Revert)).1 = ctx (payer_vm Opcode.Revert).
Proof.
  assert (execute 40 (payer_vm Opcode.Revert) =
    Some ((result_of (payer_vm Opcode.Revert)).1, (result_of (payer_vm Opcode.Revert)).2)) as E
    by (vm_compute; reflexivity).
  assert (outcome (result_of (payer_vm Opcode.Revert)).2 = RevertOutcome) as Ho by (vm_compute; reflexivity).
  split; [exact Ho|].
  apply (failed_execution_restores 40 _ _ _ (payer_wf Opcode.Revert) E). rewrite Ho. discriminate.
Defined.

Lemma execution_conserves_value_witness :
  balances (ctx (result_of (payer_vm Opcode.Halt)).1) !! addr 11 = Some 30 /\
  total (balances (ctx (result_of (payer_vm Opcode.Halt)).1)) = total {[addr 10 := 100]}.
Proof.
  split; [vm_compute; reflexivity|].
  assert (execute 40 (payer_vm Opcode.Halt) =
    Some ((result_of (payer_vm Opcode.Halt)).1, (result_of (payer_vm Opcode.Halt)).2)) as E
    by (vm_compute; reflexivity).
  exact (proj1 (execution_conserves_value 40 _ _ _ (payer_wf Opcode.Halt) E)).
Defined.

Lemma failed_call_free_execution_restores_storage_witness :
  storage (result_of (writer_vm Opcode.Halt)).1 <> ∅ /\
  forall key, storage_lookup (result_of (writer_vm Opcode.Revert)).1 key = None.
Proof.
  split; [vm_compute; discriminate|]. intros key.
  assert (execute 40 (writer_vm Opcode.Revert) =
    Some ((result_of (writer_vm Opcode.Revert)).1, (result_of (writer_vm Opcode.Revert)).2)) as E
    by (vm_compute; reflexivity).
  assert (call_free (writer_vm Opcode.Revert)) as Hcf by (repeat constructor).
  apply (failed_call_free_execution_restores_storage 40 _ _ _ key (writer_wf Opcode.Revert) Hcf E).
  vm_compute. discriminate.
Defined.

Lemma static_execution_is_readonly_witness :
  let v := set_static_mode true (writer_vm Opcode.Halt) in
  outcome (result_of v).2 = TrapOutcome StaticModeViolation /\
  forall key, storage_lookup (result_of v).1 key = None.
Proof.
  intros v. split; [vm_compute; reflexivity|]. intros key.
  pose proof (set_static_mode_wf true _ (writer_wf Opcode.Halt)) as W.
  assert (execute 40 v = Some ((result_of v).1, (result_of v).2)) as E by (vm_compute; reflexivity).
  destruct (static_execution_is_readonly 40 v _ _ W eq_refl E) as (_ & _ & _ & _ & H).
  assert (call_free v) as Hcf by (repeat constructor).
  destruct (H Hcf) as (_ & _ & Hst). rewrite Hst. reflexivity.
Defined.

Lemma execution_respects_gas_limit_witness :
  gas_limit (payer_vm Opcode.Halt) = 100000 /\
  out_gas_used_raw (result_of (payer_vm Opcode.Halt)).2 <= 100000.
Proof.
  split; [reflexivity|].
  assert (execute 40 (payer_vm Opcode.Halt) =
    Some ((result_of (payer_vm Opcode.Halt)).1, (result_of (payer_vm Opcode.Halt)).2)) as E
    by (vm_compute; reflexivity).
  assert (gas_ok (payer_vm Opcode.Halt)) as G by (right; vm_compute; discriminate).
  destruct (execution_respects_gas_limit 40 _ _ _ (payer_wf Opcode.Halt) G E) as (_ & _ & H).
  destruct H as [H|H]; [vm_compute; discriminate|discriminate H|exact H].
Defined.

Lemma step_pays_witness :
  exists v', step (execute 0) (writer_vm Opcode.Halt) = (v', Ok None) /\
    gas_used_total (writer_vm Opcode.Halt) + 3 <= gas_used_total v'.
Proof.
  assert (step (execute 0) (writer_vm Opcode.Halt) =
    ((step (execute 0) (writer_vm Opcode.Halt)).1, Ok None)) as E by (vm_compute; reflexivity).
  exists (step (execute 0) (writer_vm Opcode.Halt)).1. split; [exact E|].
  exact (proj1 (step_pays 0 _ _ _ (writer_wf Opcode.Halt) E)).
Defined.
