(* ===== verification/VmFun.v ===== *)
(** * Functional behaviour of the instructions

    The inlined 64-bit arithmetic against the reference executor, the
    instruction cache against the code in memory, and round trips through the
    stack, the call stack, storage and the deployment format. *)

From stdpp Require Import base numbers list option gmap.
From Stdlib Require Import ZArith Lia.
From S2P Require Import Prelude Crypto Isa Cpu Memory Vm VmStep VmInv VmSafe VmCalls VmExec VmTerm VmProps.

#[local] Open Scope Z_scope.
#[local] Open Scope pyde_scope.

(** ** Arithmetic *)

Definition is_alu (op : Opcode.t) : bool :=
  match op with
  | Opcode.Add | Opcode.Sub | Opcode.Mul | Opcode.Div | Opcode.Mod | Opcode.Addi | Opcode.And
  | Opcode.Or | Opcode.Xor | Opcode.Not | Opcode.Shl | Opcode.Shr | Opcode.Sar | Opcode.Lt
  | Opcode.Gt | Opcode.Eq | Opcode.Slt | Opcode.Sgt => true
  | _ => false
  end.

(** The instruction through the reference executor, as [step] runs the wide
    ones. *)
Definition exec_alu_reference (d : DecodedInstruction) : M unit :=
  with_cpu (exec_alu (encode (opcode d) (rd d) (rs1 d) (rs2_or_imm d))) ;;; next_pc.

(** The sum [Addi] computes in the reference executor fits. *)
Definition addi_fits (d : DecodedInstruction) (v : Vm) : Prop :=
  - 2 ^ 63 <= to_signed u64 (read_gp (rs1 d) (cpu v)) + sign_extend_18 (rs2_or_imm d) < 2 ^ 63.

Lemma rs2_reg_land (d : DecodedInstruction) : rs2_reg d = Z.land (rs2_or_imm d) 0xF.
Proof.
  unfold rs2_reg, wrap. change 0x0F with (Z.ones 4). rewrite !Z.land_ones by lia.
  apply Z.mod_mod_divide. by exists 16.
Qed.

Lemma set_cpu_same (v : Vm) : set_cpu (cpu v) v = v.
Proof. by destruct v. Qed.

(** The arithmetic inlined in the interpreter computes exactly what the
    reference executor computes, traps included, for every 64-bit instruction
    (for [Addi], when the signed sum fits). *)
Theorem inlined_alu_agrees (d : DecodedInstruction) (v : Vm) :
  wf_decoded d -> is_alu (opcode d) = true ->
  (opcode d = Opcode.Addi -> addi_fits d v) ->
  exec_alu_inline d v = exec_alu_reference d v.
Proof.
  intros Hd Hop Hfit. unfold exec_alu_reference, exec_alu, with_cpu.
  rewrite decode_encode_fields, rs2_reg_land by done.
  unfold exec_alu_inline, gp_read, bind, gets, lift_trap, lift_result, trap, throw, gp_write, modify.
  set (a := read_gp (rs1 d) (cpu v)) in *. set (b := read_gp (Z.land _ 0xF) (cpu v)).
  destruct (opcode d); try discriminate Hop; cbn [map_err ok_or];
    unfold checked_div; repeat case_match; simplify_eq/=; try done;
    rewrite ?set_cpu_same; try done.
  - specialize (Hfit eq_refl). unfold addi_fits in Hfit. fold a in Hfit. lia.
Qed.

Lemma inlined_alu_agrees_witness :
  let d := mkDecoded Opcode.Div 1 2 3 in
  exec_alu_inline d Vm_new = exec_alu_reference d Vm_new /\
  (exec_alu_inline d Vm_new).2 = Err (Trapped DivisionByZero).
Proof.
  intros d. split; [|vm_compute; reflexivity]. apply inlined_alu_agrees.
  - split; [intros [=]|]. cbn. repeat split; done.
  - reflexivity.
  - discriminate.
Defined.

(** ** The instruction cache *)

Lemma words_lookup (code : list Z) (i : nat) (w : Z) :
  words code !! i = Some w ->
  exists b0 b1 b2 b3, w = le_decode [b0; b1; b2; b3] /\
    code !! (4 * i)%nat = Some b0 /\ code !! (4 * i + 1)%nat = Some b1 /\
    code !! (4 * i + 2)%nat = Some b2 /\ code !! (4 * i + 3)%nat = Some b3.
Proof.
  revert code. induction i as [|i IH]; intros code E;
    destruct code as [|b0 [|b1 [|b2 [|b3 code]]]]; try done; cbn [words] in E.
  - injection E as <-. by exists b0, b1, b2, b3.
  - destruct (IH code E) as (c0 & c1 & c2 & c3 & -> & E0 & E1 & E2 & E3).
    exists c0, c1, c2, c3. split; [done|].
    replace (4 * S i)%nat with (S (S (S (S (4 * i))))) by lia. done.
Qed.

Lemma load_code_read (code : list Z) (m : Memory) (i : nat) (b : Z) :
  wf_memory m -> bytes_ok code -> CODE_START + len code <= CODE_END -> code !! i = Some b ->
  read_byte (CODE_START + Z.of_nat i) (load_code code m).1 = b.
Proof.
  intros W Hc Hl E. unfold load_code. destruct (Z.ltb_spec CODE_END (CODE_START + len code)); [lia|].
  pose proof (lookup_lt_Some _ _ _ E) as Hi. cbn [fst].
  change (read_byte ?a (set_code_end _ ?m)) with (read_byte a m).
  rewrite read_write_bytes; [|done..|unfold range_ok, len in *; mem_lia|unfold in_memory, len in *; mem_lia].
  destruct (Z.leb_spec CODE_START (CODE_START + Z.of_nat i)); [|lia].
  destruct (Z.ltb_spec (CODE_START + Z.of_nat i) (CODE_START + len code)); [|unfold len in *; lia].
  cbn [andb]. replace (Z.to_nat _) with i by lia. by rewrite E.
Qed.

Section Coherence.
Context {P : Primitives} {POk : PrimitivesOk P}.

(** Coherence of the instruction cache: after a program was loaded and
    run, however the run ended and whatever it stored, the word at each program
    counter in the code section still decodes to the instruction the interpreter
    executes there. *)
Theorem cache_matches_code (code : list Z) (fuel : nat) (v0 v v' : Vm) (out : ExecutionOutput)
    (i : nat) :
  wf_vm v0 -> bytes_ok code -> load code v0 = (v, Ok tt) -> execute fuel v = Some (v', out) ->
  (i < length (words code))%nat ->
  decoded_cache v' !! i = Some (decode (fetch_code_u32 (CODE_START + 4 * Z.of_nat i) (memory v'))).
Proof.
  intros W Hc El Ee Hi. destruct (load_ok _ _ _ _ W Hc El) as (Wv & _ & Hl).
  destruct (Hl eq_refl) as [Ed Sc].
  assert (CODE_START + len code <= CODE_END) as Hfit.
  { unfold load, with_memory, bind at 1, load_code in El.
    destruct (Z.ltb_spec CODE_END (CODE_START + len code)); [done|lia]. }
  destruct (execute_ok false fuel v v' out Wv ltac:(done) Ee).
  destruct (fixed_fields _ _ ex_fixed) as (_ & _ & Ecache & _). rewrite Ecache, Ed.
  destruct (lookup_lt_is_Some_2 _ _ Hi) as [w Ew]. rewrite list_lookup_fmap, Ew. cbn. do 2 f_equal.
  destruct (words_lookup _ _ _ Ew) as (b0 & b1 & b2 & b3 & -> & E0 & E1 & E2 & E3).
  pose proof (lookup_lt_Some _ _ _ E3) as Hlen. unfold len in *.
  assert (forall j b, code !! j = Some b -> read_byte (CODE_START + Z.of_nat j) (memory v') = b) as Hr.
  { intros j b Ej. pose proof (lookup_lt_Some _ _ _ Ej).
    rewrite (proj2 ex_code), (proj2 Sc) by mem_lia.
    apply load_code_read; try done. by destruct W as [[] _]. }
  unfold fetch_code_u32. rewrite !wrap_small by mem_lia.
  rewrite <- (Hr _ _ E0), <- (Hr _ _ E1), <- (Hr _ _ E2), <- (Hr _ _ E3).
  rewrite !Nat2Z.inj_add, !Nat2Z.inj_mul, <- !Z.add_assoc. reflexivity.
Qed.
End Coherence.

(** A program that tries to overwrite its own code. *)
Definition self_patcher : list Z :=
  ins Opcode.Addi 1 0 0x1000 ++ ins Opcode.Store 0 1 3 ++ ins Opcode.Halt 0 0 0.

Lemma cache_matches_code_witness :
  let v := boot 100000 ∅ ∅ self_patcher in
  outcome (result_of v).2 = TrapOutcome MemoryFault /\
  decoded_cache (result_of v).1 !! 0%nat =
    Some (decode (fetch_code_u32 (CODE_START + 4 * Z.of_nat 0) (memory (result_of v).1))).
Proof.
  intros v. split; [vm_compute; reflexivity|].
  assert (bytes_ok self_patcher) as Hc by (repeat (apply Forall_app; split); apply ins_bytes).
  assert (wf_vm (set_contracts ∅ (with_gas_limit_and_context 100000 (test_ctx ∅)))) as W.
  { apply (Vm_new_wf 100000 (test_ctx ∅)); [split; [discriminate|reflexivity]|].
    apply test_ctx_wf, empty_good. }
  apply (cache_matches_code self_patcher 40 _ v _ (result_of v).2 0 W Hc).
  - vm_compute. reflexivity.
  - vm_compute. reflexivity.
  - vm_compute. lia.
Defined.

(** ** The stack *)

Lemma exec_push_ok (d : DecodedInstruction) (v : Vm) :
  wf_vm v -> heap_top (memory v) + 8 <= stack_pointer (memory v) ->
  exists m', exec_push d v = (set_pc (wrap u32 (pc v + 4)) (set_memory m' v), Ok tt) /\
    wf_memory m' /\ heap_top m' = heap_top (memory v) /\
    stack_pointer m' = stack_pointer (memory v) - 8 /\
    le_decode (read_bytes (stack_pointer m') 8 m') = read_gp (rd d) (cpu v).
Proof.
  intros [C _] Hroom. destruct C. pose proof wf_memory_ as [].
  unfold exec_push, gp_read, gets, bind, with_memory, stack_alloc, checked_sub, store64.
  set (sp := stack_pointer (memory v)) in *.
  destruct (Z.leb_spec 8 sp); [|mem_lia].
  destruct (Z.ltb_spec (sp - 8) (heap_top (memory v))); [mem_lia|]. cbn [map_err memory set_memory].
  set (m1 := set_stack_pointer (sp - 8) (memory v)).
  assert (wf_memory m1) as W1 by (apply set_stack_pointer_wf; [mem_lia|done]).
  assert (in_range u64 (read_gp (rd d) (cpu v))) as Hv by auto with pyde.
  destruct (store_le_ok 8 (sp - 8) (read_gp (rd d) (cpu v)) m1 W1 Hv) as
    (m' & E & W' & Hh & Hp & Er & _); [split; mem_lia|].
  exists m'. rewrite E. cbn [map_err].
  rewrite Hp in *. by split_and!.
Qed.

(** Push and pop are inverse: where there is room for a push, the push
    succeeds, a pop after it succeeds, delivers the pushed value in the target
    register and restores the stack pointer. *)
Theorem push_pop (dp dq : DecodedInstruction) (v : Vm) :
  wf_vm v -> wf_decoded dq -> heap_top (memory v) + 8 <= stack_pointer (memory v) ->
  exists v1 v2, exec_push dp v = (v1, Ok tt) /\ exec_pop dq v1 = (v2, Ok tt) /\
    stack_pointer (memory v2) = stack_pointer (memory v) /\
    read_gp (rd dq) (cpu v2) = (if rd dq =? 0 then 0 else read_gp (rd dp) (cpu v)).
Proof.
  intros W Hd Hroom. destruct (exec_push_ok dp v W Hroom) as (m1 & E1 & W1 & Hh & Hp & Er).
  pose proof W as [[] _]. pose proof wf_memory_ as []. pose proof W1 as [].
  exists (set_pc (wrap u32 (pc v + 4)) (set_memory m1 v)). rewrite E1.
  unfold exec_pop, gets, bind, is_some, checked_add. cbn [memory set_memory set_pc].
  rewrite Hp in *. set (sp := stack_pointer (memory v)) in *.
  replace (sp - 8 + 8) with sp by lia.
  destruct (Z.ltb_spec sp (2 ^ 32)); [|mem_lia]. destruct (Z.ltb_spec STACK_TOP sp); [mem_lia|].
  cbn [negb orb]. unfold with_memory, load64. cbn [memory set_memory set_pc].
  destruct (load_le_flat 8 (sp - 8) m1 W1) as (m2 & -> & W2 & _); [split; mem_lia|].
  eexists. split; [done|]. split; [reflexivity|]. split; [reflexivity|].
  cbn [cpu set_cpu set_pc set_memory map_err].
  destruct Hd as (_ & Hrd & _). rewrite read_write_gp, Z.eqb_refl, Er by done. cbn.
  by destruct (Z.eqb_spec (rd dq) 0) as [->|].
Qed.

Lemma push_pop_witness :
  let v := gp_write 1 77 Vm_new in
  exists v1 v2, exec_push (mkDecoded Opcode.Push 1 0 0) v.1 = (v1, Ok tt) /\
    exec_pop (mkDecoded Opcode.Pop 2 0 0) v1 = (v2, Ok tt) /\
    stack_pointer (memory v2) = stack_pointer (memory v.1) /\ read_gp 2 (cpu v2) = 77.
Proof.
  intros v.
  assert (wf_vm Vm_new) as W.
  { apply (Vm_new_wf 0 ExecutionContext_default); [done|].
    assert (address_ok ZERO_ADDRESS) by (split; [reflexivity|by apply Forall_replicate]).
    by split; try done; cbn; try constructor; try apply map_Forall_empty. }
  assert (in_range u64 77) as H77 by done.
  pose proof (proj1 (triple_gp_write 1 77 H77 Vm_new W)) as W1.
  apply (push_pop (mkDecoded Opcode.Push 1 0 0) (mkDecoded Opcode.Pop 2 0 0) v.1 W1).
  - split; [intros [=]|]. cbn. repeat split; done.
  - vm_compute. discriminate.
Defined.

(** Call and return are inverse: a call that is not too deep pushes one
    frame, and a return after it resumes at the next instruction with the frame
    pointer and the call stack of before. *)
Theorem call_ret (d : DecodedInstruction) (v : Vm) :
  wf_vm v ->
  (call_depth v < MAX_CALL_DEPTH ->
   exists v1 v2, exec_call d v = (v1, Ok tt) /\ call_depth v1 = call_depth v + 1 /\
     exec_ret v1 = (v2, Ok tt) /\ v2 = set_pc (wrap u32 (pc v + 4)) v) /\
  (MAX_CALL_DEPTH <= call_depth v -> exec_call d v = (v, Err (Trapped StackOverflow))).
Proof.
  intros [[] _]. unfold exec_call, bind, get, modify, call_depth.
  destruct (Z.leb_spec MAX_CALL_DEPTH (len (call_stack v))); (split; [intros Hd|try lia; done]); [lia|].
  do 2 eexists. split; [reflexivity|]. cbn. split; [unfold len; cbn; lia|].
  unfold exec_ret, bind, get, modify. cbn. split; [reflexivity|]. by destruct v.
Qed.

Lemma call_ret_witness :
  let d := mkDecoded Opcode.Call 0 0 40 in let v := payer_vm Opcode.Halt in
  exists v1 v2, exec_call d v = (v1, Ok tt) /\ pc v1 = 40 /\ exec_ret v1 = (v2, Ok tt) /\ pc v2 = 4.
Proof.
  intros d v. destruct (call_ret d v (payer_wf Opcode.Halt)) as [H _].
  destruct H as (v1 & v2 & E1 & _ & E2 & E3); [reflexivity|].
  exists v1, v2. split; [exact E1|]. split; [|split; [exact E2|rewrite E3; reflexivity]].
  assert (v1 = (exec_call d v).1) as -> by (rewrite E1; reflexivity). reflexivity.
Defined.

(** ** Storage *)

Lemma bind_Ok {A B : Type} (m : M A) (k : A -> M B) (v v' : Vm) (b : B) :
  bind m k v = (v', Ok b) -> exists a v1, m v = (v1, Ok a) /\ k a v1 = (v', Ok b).
Proof. unfold bind. destruct (m v) as [v1 [a|e]]; [|done]. intros E. by exists a, v1. Qed.

Lemma wide_read_Ok (r x : Z) (v v' : Vm) :
  wide_read r v = (v', Ok x) -> v' = v /\ read_wide_checked r (cpu v) = Ok x.
Proof.
  unfold wide_read, bind, gets, lift_trap, lift_result.
  destruct (read_wide_checked r (cpu v)); cbn; intros; by simplify_eq.
Qed.

Definition allowed (v : Vm) (key : Z) : Prop :=
  match allowed_storage_keys v with Some ks => key ∈ ks | None => True end.

Lemma check_access_list_Ok (key : Z) (v v' : Vm) (u : unit) :
  check_access_list key v = (v', Ok u) -> v' = v /\ allowed v key.
Proof.
  unfold check_access_list, allowed, bind, get. destruct (allowed_storage_keys v); [|by intros [= <-]].
  case_bool_decide; [by intros [= <-]|done].
Qed.

(** The fields storage instructions compute with. *)
Definition store_fields (v : Vm) := (cpu v, ctx v, storage v, allowed_storage_keys v, static_mode v).

Lemma warm_up_Ok (key : Z) (v v' : Vm) (u : unit) :
  warm_up key v = (v', Ok u) ->
  store_fields v' = store_fields v /\ key ∈ warm_storage_keys v' /\
  gas_used_total v' = gas_used_total v + (if bool_decide (key ∈ warm_storage_keys v) then 0 else 1800).
Proof.
  unfold warm_up, charge_gas, bind, get, modify. case_bool_decide.
  { intros [= <-]. by split_and!; [| |lia]. }
  destruct (checked_add _ _ _) eqn:E; [|done]. apply checked_add_Some in E as [-> _].
  destruct (_ && _); [done|]. intros [= <-]. cbn. split_and!; [done| |done]. clear. set_solver.
Qed.

Lemma warm_up_warm (key : Z) (v : Vm) :
  key ∈ warm_storage_keys v -> warm_up key v = (v, Ok tt).
Proof. intros H. unfold warm_up, bind, get. by rewrite bool_decide_true. Qed.

Lemma journal_store_fields (key : Z) (v : Vm) :
  store_fields (journal_storage_write key v) = store_fields v /\
  warm_storage_keys (journal_storage_write key v) = warm_storage_keys v.
Proof. unfold journal_storage_write. by case_bool_decide. Qed.

Lemma fit_exact (n : nat) (l : list Z) : length l = n -> fit n l = l.
Proof.
  intros <-. unfold fit. by rewrite firstn_all, Nat.sub_diag, app_nil_r.
Qed.

Lemma read_write_wide (r x : Z) (c : Cpu) : wf_cpu c -> read_wide r (write_wide r x c) = x.
Proof.
  intros (_ & H & _). unfold read_wide, write_wide. cbn [wide set_wide].
  rewrite list_lookup_insert_eq; [done|]. rewrite H. change 0x07 with (Z.ones 3).
  rewrite Z.land_ones by lia. unfold WIDE_REG_COUNT. lia_pow.
Qed.

Definition mode (d : DecodedInstruction) : Z := Z.land (rs2_or_imm d) 0x3.

Section Storage.
Context {P : Primitives}.

(** What a register store leaves behind. *)
Lemma exec_sstore_effect (d : DecodedInstruction) (v v' : Vm) :
  mode d = 0 -> exec_sstore d v = (v', Ok tt) ->
  exists slot x,
    read_wide_checked (rs1 d) (cpu v) = Ok slot /\ read_wide_checked (rd d) (cpu v) = Ok x /\
    storage v' = <[derive_storage_key v slot := le_encode 32 x]> (storage v) /\
    derive_storage_key v slot ∈ warm_storage_keys v' /\ allowed v (derive_storage_key v slot) /\
    cpu v' = cpu v /\ ctx v' = ctx v /\ allowed_storage_keys v' = allowed_storage_keys v /\
    static_mode v = false.
Proof.
  unfold mode. intros Hm E. unfold exec_sstore in E. rewrite Hm in E.
  apply bind_Ok in E as (st & v0 & [= <- <-] & E). destruct (static_mode v) eqn:Hst; [done|].
  apply bind_Ok in E as (slot & v1 & [-> Es]%wide_read_Ok & E).
  apply bind_Ok in E as (u1 & v2 & [= <- <-] & E). apply bind_Ok in E as (u2 & v3 & [= <- <-] & E).
  apply bind_Ok in E as (v4 & v5 & [= <- <-] & E). set (v0 := set_written_raw_slots _ _) in *.
  change (derive_storage_key v0 slot) with (derive_storage_key v slot) in E.
  set (key := derive_storage_key v slot) in *. cbv zeta in E.
  apply bind_Ok in E as (u3 & v1 & [-> Ha]%check_access_list_Ok & E).
  apply bind_Ok in E as (u4 & v1 & (Ef & Hw & _)%warm_up_Ok & E).
  apply bind_Ok in E as (u5 & v2 & [= <- <-] & E).
  destruct (journal_store_fields key v1) as [Ej Ew]. set (v2 := journal_storage_write key v1) in *.
  clearbody v2. change (0 =? 0) with true in E. cbv iota in E.
  apply bind_Ok in E as (u6 & v3 & E & [= <-]).
  apply bind_Ok in E as (x & v4 & [-> Ex]%wide_read_Ok & [= <-]).
  unfold store_fields in *. change (cpu v0) with (cpu v) in *. change (ctx v0) with (ctx v) in *.
  change (storage v0) with (storage v) in *. change (allowed_storage_keys v0) with (allowed_storage_keys v) in *.
  injection Ej as E1 E2 E3 E4 E5. injection Ef as F1 F2 F3 F4 F5.
  exists slot, x. cbn. rewrite E1, F1 in *. rewrite E2, E3, E4, F2, F3, F4, Ew. done.
Qed.

(** Storage round trip: after a register store that succeeds, loading the
    same slot succeeds without a cold surcharge and delivers the stored 256-bit
    value; every other key keeps its value. *)
Theorem sstore_sload (ds dl : DecodedInstruction) (v v1 : Vm) :
  wf_vm v -> mode ds = 0 -> mode dl = 0 -> rs1 dl = rs1 ds ->
  exec_sstore ds v = (v1, Ok tt) ->
  exists v2 slot x,
    read_wide_checked (rs1 ds) (cpu v) = Ok slot /\ read_wide_checked (rd ds) (cpu v) = Ok x /\
    exec_sload dl v1 = (v2, Ok tt) /\ gas_used_total v2 = gas_used_total v1 /\
    read_wide (rd dl) (cpu v2) = x /\
    forall key, key <> derive_storage_key v slot -> storage v1 !! key = storage v !! key.
Proof.
  intros W Hs Hl Hr E. destruct (exec_sstore_effect ds v v1 Hs E)
    as (slot & x & Es & Ex & Est & Hw & Ha & Ec & Ect & Eal & _).
  exists (exec_sload dl v1).1, slot, x. set (key := derive_storage_key v slot) in *.
  assert (exists m, exec_sload dl v1 =
    (set_pc (wrap u32 (pc v1 + 4)) (set_cpu (write_wide (rd dl) x (cpu v1)) m), Ok tt) /\
    gas_used_total m = gas_used_total v1) as (m & El & Hg).
  { unfold exec_sload. unfold mode in Hl. rewrite Hl, Hr.
    unfold bind at 1, wide_read, bind at 1, gets, lift_trap, lift_result. rewrite Ec, Es. cbn [map_err].
    unfold note_access, modify, bind at 1, bind at 1, get.
    set (u := set_accessed_raw_slots _ _).
    assert (derive_storage_key u slot = key) as ->.
    { unfold key, derive_storage_key, u. cbn [ctx set_accessed_raw_slots]. by rewrite Ect. }
    assert (check_access_list key u = (u, Ok tt)) as Hca.
    { unfold check_access_list, bind, get. change (allowed_storage_keys u) with (allowed_storage_keys v1).
      unfold allowed in Ha. rewrite Eal. destruct (allowed_storage_keys v); [by rewrite bool_decide_true|done]. }
    unfold bind at 1. rewrite Hca. unfold bind at 1. rewrite warm_up_warm by done.
    assert (storage_lookup u key = Some (le_encode 32 x)) as Hlk.
    { unfold storage_lookup. cbn [storage u set_accessed_raw_slots]. by rewrite Est, lookup_insert_eq. }
    unfold bind, next_pc, wide_write_masked, modify. rewrite Hlk.
    assert (cache_storage key (Some (le_encode 32 x)) u = u) as ->.
    { unfold cache_storage. cbn [storage u set_accessed_raw_slots]. by rewrite Est, lookup_insert_eq. }
    change (0 =? 0) with true. cbv iota.
    change (default [] (Some (le_encode 32 x))) with (le_encode 32 x).
    rewrite fit_exact, le_decode_encode by first [apply length_le_encode
      | exact (read_wide_checked_range _ _ _ (wf_cpu_ _ (proj1 W)) Ex)].
    exists u. rewrite <- Ec. done. }
  rewrite El. cbn. split_and!; try done.
  - apply read_write_wide. rewrite Ec. by destruct W as [[] _].
  - intros k Hk. by rewrite Est, lookup_insert_ne.
Qed.
End Storage.

Lemma sstore_sload_witness :
  let ds := mkDecoded Opcode.Sstore 1 0 0 in let dl := mkDecoded Opcode.Sload 2 0 0 in
  let v := (wide_write_masked 1 (2 ^ 200 + 9) (writer_vm Opcode.Halt)).1 in
  let v1 := (exec_sstore ds v).1 in
  read_wide 2 (cpu (exec_sload dl v1).1) = 2 ^ 200 + 9.
Proof.
  intros ds dl v v1.
  assert (in_range u256 (2 ^ 200 + 9)) as Hx by done.
  pose proof (proj1 (triple_wide_write_masked 1 _ Hx _ (writer_wf Opcode.Halt))) as W.
  assert (exec_sstore ds v = (v1, Ok tt)) as E by (vm_compute; reflexivity).
  destruct (sstore_sload ds dl v v1 W eq_refl eq_refl eq_refl E) as (v2 & slot & x & _ & Ex & El & _ & Hr & _).
  rewrite El. cbn [fst]. change (rd dl) with 2 in Hr. rewrite Hr.
  assert (read_wide_checked (rd ds) (cpu v) = Ok (2 ^ 200 + 9)) as Ex' by (vm_compute; reflexivity).
  congruence.
Defined.

(** ** The deployment format *)

(** A constructor, a runtime and constructor arguments, as a deployer sends
    them. *)
Definition deploy_blob (constructor runtime args : list Z) : list Z :=
  le_encode 4 (len constructor) ++ le_encode 4 (len runtime) ++ constructor ++ runtime ++ args.

Lemma le_encode_len4 {A : Type} (l : list A) :
  len l < 2 ^ 32 -> le_decode (le_encode 4 (len l)) = len l.
Proof. intros H. apply le_decode_encode. unfold len in *. change (256 ^ Z.of_nat 4) with (2 ^ 32). lia. Qed.

(** Deployment round trip: the blob of a constructor, a runtime and
    arguments is split back into exactly these, so the constructor that runs and
    the code that is deployed are the ones that were sent. *)
Theorem parse_deploy_blob (constructor runtime args : list Z) :
  0 < len constructor < 2 ^ 32 -> 0 < len runtime < 2 ^ 32 ->
  parse_deploy (deploy_blob constructor runtime args) = (Some constructor, runtime, args).
Proof.
  intros Hc Hr. unfold parse_deploy, deploy_blob.
  set (h1 := le_encode 4 (len constructor)). set (h2 := le_encode 4 (len runtime)).
  assert (length h1 = 4%nat /\ length h2 = 4%nat) as [L1 L2] by (split; apply length_le_encode).
  rewrite take_app_length', drop_app_length', take_app_length' by done.
  rewrite (le_encode_len4 constructor ltac:(lia) : le_decode h1 = _).
  rewrite (le_encode_len4 runtime ltac:(lia) : le_decode h2 = _).
  assert (len (h1 ++ h2 ++ constructor ++ runtime ++ args)
          = 8 + len constructor + len runtime + len args) as ->.
  { unfold len. rewrite !length_app. lia. }
  assert (0 <= len args) by (unfold len; lia).
  destruct (Z.leb_spec 8 (8 + len constructor + len runtime + len args)); [|lia].
  destruct (Z.ltb_spec 0 (len constructor)), (Z.ltb_spec 0 (len runtime)); try lia. cbn [andb].
  destruct (Z.leb_spec (8 + len constructor + len runtime) (8 + len constructor + len runtime + len args)); [|lia].
  unfold len in *. rewrite !Z2Nat.inj_add, !Nat2Z.id by lia. change (Z.to_nat 8) with 8%nat.
  rewrite !(app_assoc h1). unfold slice.
  assert (length (h1 ++ h2) = 8%nat) as L by (rewrite length_app; lia).
  rewrite drop_app_length' by done. rewrite take_app_length.
  rewrite <- Nat.add_assoc, <- L, !drop_app_add, drop_app_length, take_app_length.
  by rewrite drop_app_length.
Qed.

Lemma parse_deploy_blob_witness :
  parse_deploy (deploy_blob [1; 2] [3] [4; 5]) = (Some [1; 2], [3], [4; 5]).
Proof. apply parse_deploy_blob; split; reflexivity. Defined.

(** ** Merkle proofs *)

Lemma read_slice_Ok (a n : Z) (l : list Z) (v v' : Vm) :
  wf_vm v -> 0 < n <= 2 ^ 22 -> with_memory (checked_read_slice a n) v = (v', Ok l) ->
  wf_vm v' /\ cpu v' = cpu v /\ same_data (memory v) (memory v') /\
  l = read_bytes a (Z.to_nat n) (memory v).
Proof.
  intros W Hn E.
  pose proof (triple_with_memory (checked_read_slice a n) (fun _ => True) (checked_read_slice_rel a n)
    ltac:(done) v W) as (W' & _). rewrite E in W'. cbn in W'.
  unfold with_memory, checked_read_slice in E.
  destruct (Z.eqb_spec n 0); [lia|]. destruct (Z.ltb_spec MEMORY_SIZE n); [mem_lia|].
  unfold bind in E. destruct (decide (access_ok a n)) as [Ha|Ha]; rewrite wrap_small in E by (split; lia).
  - destruct (check_access_ok a n (memory v) ltac:(by destruct W as [[] _]) ltac:(lia) Ha)
      as (m' & Ec & _ & S & _). rewrite Ec in E. cbn in E. injection E as <- <-.
    split_and!; try done. unfold read_slice. by rewrite (same_data_read_bytes _ _ _ _ S).
  - destruct (check_access_err a n (memory v) ltac:(lia) Ha) as [e Ec]. by rewrite Ec in E.
Qed.

Lemma load64_Ok (a x : Z) (v v' : Vm) :
  wf_vm v -> with_memory (load64 a) v = (v', Ok x) ->
  wf_vm v' /\ cpu v' = cpu v /\ same_data (memory v) (memory v') /\
  x = le_decode (read_bytes a 8 (memory v)).
Proof.
  intros W E. pose proof (triple_load_le 8 a v W) as (W' & _). 
  change (load_le 8 a) with (load64 a) in W'. rewrite E in W'. cbn in W'.
  unfold with_memory, load64, load_le, bind in E. change (Z.of_nat 8) with 8 in E.
  destruct (decide (access_ok a 8)) as [Ha|Ha].
  - destruct (check_access_ok a 8 (memory v) ltac:(by destruct W as [[] _]) ltac:(lia) Ha)
      as (m' & Ec & _ & S & _). rewrite Ec in E. unfold gets in E. cbn [map_err] in E.
    assert (v' = set_memory m' v) as -> by congruence.
    assert (x = le_decode (read_bytes a 8 m')) as -> by congruence.
    split_and!; try done. by rewrite (same_data_read_bytes _ _ _ _ S).
  - destruct (check_access_err a 8 (memory v) ltac:(lia) Ha) as [e Ec]. by rewrite Ec in E.
Qed.

#[local] Arguments read_bytes : simpl never.

Lemma hash_of_bytes_Ok (a : Z) (m : Memory) (t : Trap) (h : list Z) (v v' : Vm) :
  lift_trap (ok_or (Hash256_from_slice (read_bytes a 32 m)) t) v = (v', Ok h) ->
  v' = v /\ h = read_bytes a 32 m.
Proof.
  unfold lift_trap, lift_result, Hash256_from_slice, len. rewrite length_read_bytes.
  change (Z.of_nat 32 =? 32) with true. cbn [ok_or map_err]. intros. split; congruence.
Qed.

Section Merkle.
Context {P : Primitives} {POk : PrimitivesOk P}.

(** The siblings a proof descriptor at [ptr] lists. *)
Definition siblings (ptr : Z) (n : nat) (m : Memory) : list (list Z) :=
  (fun i : nat => read_bytes (ptr + (72 + Z.of_nat i * 32)) 32 m) <$> seq 0 n.

Lemma merkle_walk_Ok (ptr : Z) (i fuel : nat) (current res : list Z) (v v' : Vm) :
  wf_vm v -> merkle_walk ptr (Z.of_nat i) fuel current v = (v', Ok res) ->
  cpu v' = cpu v /\
  res = foldl poseidon2_pair current
          ((fun j : nat => read_bytes (ptr + (72 + Z.of_nat j * 32)) 32 (memory v)) <$> seq i fuel).
Proof.
  revert i current v. induction fuel as [|f IH]; intros i current v W E; cbn [merkle_walk] in E.
  { injection E as <- <-. done. }
  destruct (checked_add u32 ptr _) as [off|] eqn:Ea; [apply checked_add_Some in Ea as [-> _]|done].
  apply bind_Ok in E as (sib & v1 & (W1 & Ec & Hsame & ->)%read_slice_Ok & E); [|done|lia].
  change (Z.to_nat 32) with 32%nat in E.
  apply bind_Ok in E as (s2 & v2 & [-> ->]%hash_of_bytes_Ok & E).
  replace (Z.of_nat i + 1) with (Z.of_nat (S i)) in E by lia.
  destruct (IH _ _ _ W1 E) as [Ec2 ->]. split; [congruence|]. cbn [seq fmap list_fmap foldl]. f_equal.
  apply list_fmap_ext. intros j y _. by apply same_data_read_bytes.
Qed.

(** Merkle verification: when the instruction completes, it has written 1
    exactly if hashing the leaf with the listed siblings, bottom up, gives the
    listed root. *)
Theorem merkle_verify_sound (d : DecodedInstruction) (v v' : Vm) :
  wf_vm v -> wf_decoded d -> rd d <> 0 -> exec_merkle_verify d v = (v', Ok Next) ->
  let ptr := as_u32 (read_gp (rs1 d) (cpu v)) in
  let m := memory v in
  let n := le_decode (read_bytes (wrap u32 (ptr + 64)) 8 m) in
  n <= 256 /\
  (read_gp (rd d) (cpu v') = 1 <->
   foldl poseidon2_pair (read_bytes (wrap u32 (ptr + 32)) 32 m) (siblings ptr (Z.to_nat n) m)
   = read_bytes ptr 32 m).
Proof.
  intros W Hd Hrd E ptr m n. unfold exec_merkle_verify in E.
  apply bind_Ok in E as (p & v0 & [= <- <-] & E). fold ptr in E. cbv zeta in E.
  apply bind_Ok in E as (root & v1 & (W1 & C1 & S1 & ->)%read_slice_Ok & E); [|done|lia].
  apply bind_Ok in E as (leaf & v2 & (W2 & C2 & S2 & ->)%read_slice_Ok & E); [|done|lia].
  apply bind_Ok in E as (n' & v3 & (W3 & C3 & S3 & ->)%load64_Ok & E); [|done].
  assert (same_data m (memory v2)) as S02 by (by etrans).
  assert (same_data m (memory v3)) as S03 by (by etrans).
  rewrite (same_data_read_bytes m (memory v2)) in E by done. fold n in E.
  rewrite (same_data_read_bytes m (memory v1)) in E by done. fold m in E.
  destruct (Z.ltb_spec 256 n).
  { unfold return_zero in E. repeat apply bind_Ok in E as (? & ? & _ & E). done. }
  split; [done|].
  assert (0 <= n) as Hn0.
  { pose proof (le_decode_range _ (read_bytes_ok (wrap u32 (ptr + 64)) 8 m ltac:(by destruct W as [[] _]))). lia. }
  apply bind_Ok in E as (u & v4 & E4 & E).
  pose proof (triple_charge_gas (n * 1000) ltac:(lia) v3 W3) as (W4 & _). rewrite E4 in W4. cbn in W4.
  destruct u. destruct (charge_gas_ok _ _ _ W3 E4) as [_ ->].
  change (Z.to_nat 32) with 32%nat in E.
  apply bind_Ok in E as (lf & v5 & [-> ->]%hash_of_bytes_Ok & E).
  apply bind_Ok in E as (cur & v6 & E6 & E).
  destruct (merkle_walk_Ok ptr 0 _ _ _ _ _ W4 E6) as [C6 ->].
  apply bind_Ok in E as (rt & v7 & [-> ->]%hash_of_bytes_Ok & E).
  apply bind_Ok in E as (u8' & v8 & [= <- <-] & E). apply bind_Ok in E as (u9 & v9 & [= <- <-] & E).
  injection E as <-. cbn [cpu set_cpu set_pc].
  destruct Hd as (_ & Hr & _).
  assert (wf_cpu (cpu v6)) as Wc6. { rewrite C6. cbn. by destruct W3 as [[] _]. }
  rewrite read_write_gp, Z.eqb_refl by done. destruct (Z.eqb_spec (rd d) 0); [done|]. cbn [andb negb].
  assert (((fun j : nat => read_bytes (ptr + (72 + Z.of_nat j * 32)) 32 (memory v3))
             <$> seq 0 (Z.to_nat n)) = siblings ptr (Z.to_nat n) m) as ->.
  { apply list_fmap_ext. intros j y _. by apply same_data_read_bytes. }
  case_bool_decide; cbn; split; done.
Qed.
End Merkle.

Lemma set_memory_wf (m : Memory) (v : Vm) : wf_vm v -> wf_memory m -> wf_vm (set_memory m v).
Proof. intros [C W] Hm. split; [by destruct C; split|by apply (wf_rest_eq v)]. Qed.

(** A proof of two levels in memory at 0x10000: leaf 5, siblings 6 and 7. *)
Definition proof_vm (root : list Z) : Vm :=
  set_memory (write_bytes 0x10000
    (root ++ le_encode 32 5 ++ le_encode 8 2 ++ le_encode 32 6 ++ le_encode 32 7) Memory_new)
    (gp_write 1 0x10000 (boot 100000 ∅ ∅ [])).1.

Definition proof_root : list Z :=
  poseidon2_pair (poseidon2_pair (le_encode 32 5) (le_encode 32 6)) (le_encode 32 7).

Lemma merkle_verify_sound_witness :
  let d := mkDecoded Opcode.MerkleVerify 2 1 0 in
  read_gp 2 (cpu (exec_merkle_verify d (proof_vm proof_root)).1) = 1 /\
  read_gp 2 (cpu (exec_merkle_verify d (proof_vm (le_encode 32 0))).1) = 0.
Proof.
  intros d. split; [|vm_compute; reflexivity].
  assert (wf_vm (proof_vm proof_root)) as W.
  { apply set_memory_wf.
    - apply (triple_gp_write 1 0x10000); [done|].
      apply boot_wf; [done|apply empty_good|apply map_Forall_empty|constructor].
    - apply write_bytes_wf; [|apply Memory_new_wf].
      apply Forall_app; split; [apply elements_to_hash_bytes|].
      do 3 (apply Forall_app; split; [apply le_encode_bytes|]). apply le_encode_bytes. }
  assert (exec_merkle_verify d (proof_vm proof_root) =
    ((exec_merkle_verify d (proof_vm proof_root)).1, Ok Next)) as E by (vm_compute; reflexivity).
  assert (wf_decoded d) as Hd by (split; [intros [=]|cbn; repeat split; done]).
  apply (merkle_verify_sound d _ _ W Hd ltac:(discriminate) E). vm_compute. reflexivity.
Defined.
