(* ===== verification/VmFindings.v ===== *)
(** * Where the PVM departs from its documentation

    Concrete programs, run by the model, on which the VM does not do what the
    comments of [vm.rs] and [cpu.rs] say.  Each theorem states the observed
    outcome; [VmProps] states what does hold. *)

From stdpp Require Import base numbers list option gmap.
From Stdlib Require Import ZArith Lia.
From S2P Require Import Prelude Crypto Isa Cpu Memory Vm VmStep VmInv VmSafe VmCalls VmExec VmTerm VmProps.
From S2P Require Import VmFun.

#[local] Open Scope Z_scope.
#[local] Open Scope pyde_scope.

(** Contract 10 calls contract 11, which writes slot 0, and then reverts. *)
Definition reverting_caller : list Z :=
  ins Opcode.Addi 1 0 11 ++ ins Opcode.Widen 1 1 0 ++ ins Opcode.CallExt 1 0 (3 * 2 ^ 8) ++
  ins Opcode.Revert 0 0 0.

Definition reverting_vm : Vm :=
  boot 100000 ∅ {[addr 11 := writer Opcode.Halt]} reverting_caller.

(** The key of slot 0 of contract [n]. *)
Definition slot0_of (n : Z) : Z :=
  derive_storage_key (with_context (mkCtx (addr 1) (addr n) 0 1 1 1 0 0 0 (addr 9) [] ∅)) 0.

(** The storage journal of a child is cleared before its caller can merge
    it ([execute] clears it, [do_ext_call] drains it afterwards), so when the
    caller reverts, the write of its successful callee stays. *)
Theorem callee_write_survives_caller_revert :
  outcome (result_of reverting_vm).2 = RevertOutcome /\
  storage_lookup reverting_vm (slot0_of 11) = None /\
  storage_lookup (result_of reverting_vm).1 (slot0_of 11) = Some (le_encode 8 7).
Proof. vm_compute. split_and!; reflexivity. Qed.

(** Contract 10 writes 5 to slot 0 and calls 11 with 10000 gas; 11 calls 12,
    which overruns its gas with one hash of 2560 bytes; 10 then halts. *)
Definition overrunning_callee : list Z :=
  ins Opcode.Addi 1 0 2560 ++ ins Opcode.Poseidon 1 0 1 ++ ins Opcode.Halt 0 0 0.
Definition forwarding_callee : list Z :=
  ins Opcode.Addi 1 0 12 ++ ins Opcode.Widen 1 1 0 ++ ins Opcode.CallExt 1 0 (3 * 2 ^ 8) ++
  ins Opcode.Halt 0 0 0.
Definition careful_caller : list Z :=
  ins Opcode.Addi 1 0 5 ++ ins Opcode.Sstore 1 0 2 ++ ins Opcode.Addi 1 0 11 ++
  ins Opcode.Widen 1 1 0 ++ ins Opcode.Addi 4 0 10000 ++
  ins Opcode.CallExt 1 0 (3 * 2 ^ 8 + 4 * 2 ^ 4) ++ ins Opcode.Halt 0 0 0.

Definition careful_vm : Vm :=
  boot 100000 ∅ (<[addr 11 := forwarding_callee]> {[addr 12 := overrunning_callee]}) careful_caller.

(** The overlay is moved into the callee and is not restored when the call
    fails between the move and the merge, so a callee that runs out of gas on
    account of its own callee empties the overlay: the caller succeeds and its own
    earlier write is gone. *)
Theorem nested_out_of_gas_loses_callers_write :
  outcome (result_of careful_vm).2 = Success /\
  read_gp 3 (cpu (result_of careful_vm).1) = 0 /\
  storage (result_of careful_vm).1 = ∅.
Proof. vm_compute. split_and!; reflexivity. Qed.

(** Contract 10 writes 5 to slot 0 and deploys a contract whose constructor
    calls 10 back, which reads slot 0. *)
Definition calling_constructor : list Z :=
  ins Opcode.Addi 1 0 10 ++ ins Opcode.Widen 1 1 0 ++ ins Opcode.Addi 5 0 0x1000 ++
  ins Opcode.Addi 6 0 1 ++ ins Opcode.CallExt 1 5 (3 * 2 ^ 8 + 6) ++ ins Opcode.Halt 0 0 0.
Definition deployer : list Z :=
  ins Opcode.Bne 4 0 28 ++ ins Opcode.Addi 1 0 5 ++ ins Opcode.Sstore 1 0 2 ++
  ins Opcode.Addi 2 0 (0x1000 + 36) ++ ins Opcode.Addi 3 0 36 ++ ins Opcode.Create 1 2 3 ++
  ins Opcode.Halt 0 0 0 ++ ins Opcode.Sload 6 0 2 ++ ins Opcode.Halt 0 0 0 ++
  deploy_blob calling_constructor (ins Opcode.Halt 0 0 0) [].

(** The state below holds 1 in every slot. *)
Definition deployer_vm : Vm :=
  set_storage_backend (Some (fun _ => Some (le_encode 8 1)))
    (boot 1000000 ∅ {[addr 10 := deployer]} deployer).

(** A constructor runs on an empty overlay and what it reads is merged
    back as if it had been written, so a constructor that causes a read of its
    deployer's slot replaces the deployer's uncommitted write with the old value. *)
Theorem constructor_read_reverts_deployers_write :
  outcome (result_of deployer_vm).2 = Success /\
  storage_lookup deployer_vm (slot0_of 10) = Some (le_encode 8 1) /\
  storage_lookup (result_of deployer_vm).1 (slot0_of 10) = Some (le_encode 8 1) /\
  storage_lookup (nat_rect (fun _ => Vm) deployer_vm (fun _ v => (step (execute 0) v).1) 3)
    (slot0_of 10) = Some (le_encode 8 5).
Proof. vm_compute. split_and!; reflexivity. Qed.

(** A static machine that makes a static call with a value. *)
Definition static_payer_vm : Vm :=
  set_static_mode true
    (boot 100000 {[addr 10 := 100]} {[addr 11 := ins Opcode.Halt 0 0 0]}
       (ins Opcode.Addi 1 0 11 ++ ins Opcode.Widen 1 1 0 ++ ins Opcode.Addi 8 0 30 ++
        ins Opcode.CallExt 1 0 (3 * 2 ^ 8 + 2 ^ 12 + 2 ^ 13) ++ ins Opcode.Halt 0 0 0)).

(** Static mode does not forbid value: a static call with the value bit
    set moves balances in static mode. *)
Theorem static_call_moves_value :
  static_mode static_payer_vm = true /\
  outcome (result_of static_payer_vm).2 = Success /\
  balances (ctx (result_of static_payer_vm).1) !! addr 10 = Some 70 /\
  balances (ctx (result_of static_payer_vm).1) !! addr 11 = Some 30.
Proof. vm_compute. split_and!; reflexivity. Qed.

(** The inlined [Addi] wraps where the reference executor traps. *)
Theorem inlined_addi_wraps :
  let d := mkDecoded Opcode.Addi 2 1 1 in
  let v := (gp_write 1 (2 ^ 63 - 1) (writer_vm Opcode.Halt)).1 in
  (exec_alu_inline d v).2 = Ok tt /\ read_gp 2 (cpu (exec_alu_inline d v).1) = 2 ^ 63 /\
  (exec_alu_reference d v).2 = Err (Trapped Overflow).
Proof. vm_compute. split_and!; reflexivity. Qed.

(** ** A call with no gas left *)

(** A program that jumps to itself. *)
Definition spinner : list Z := ins Opcode.Jmp 0 0 0.

(** Contract 10 spends its last gas on a call of the spinner. *)
Definition exhausted_vm : Vm :=
  boot 2506 ∅ {[addr 11 := spinner]}
    (ins Opcode.Addi 1 0 11 ++ ins Opcode.Widen 1 1 0 ++ ins Opcode.CallExt 1 0 (3 * 2 ^ 8) ++
     ins Opcode.Halt 0 0 0).

Definition spinning (v : Vm) : bool :=
  match decoded_cache v with
  | [mkDecoded Opcode.Jmp 0 0 0] =>
      (pc v =? 0) && (gas_limit v =? 0) && (page_gas_used (memory v) =? 0) && (0 <=? gas_used_total v)
  | _ => false
  end.

Lemma spinning_spec (v : Vm) :
  spinning v = true ->
  pc v = 0 /\ decoded_cache v = [mkDecoded Opcode.Jmp 0 0 0] /\ gas_limit v = 0 /\
  page_gas_used (memory v) = 0 /\ 0 <= gas_used_total v.
Proof. unfold spinning. repeat case_match; try done. intros. split_and!; lia || done. Qed.

Lemma step_spins (ec : Vm -> option (Vm * ExecutionOutput)) (v : Vm) :
  spinning v = true -> gas_used_total v + 3 < 2 ^ 64 ->
  step ec v = (set_pc 0 (set_gas_used_total (gas_used_total v + 3) v), Ok None).
Proof.
  intros (Hpc & Hc & Hl & Hp & H0)%spinning_spec Hg. unfold step, check_pc_bounds, bind, get. rewrite Hpc, Hc.
  change (negb (Z.land 0 3 =? 0)) with false. change (len [_] <=? 0 / 4) with false. cbv iota beta.
  unfold ret. rewrite Hpc, Hc. change ([_] !! Z.to_nat (0 / 4)) with (Some (mkDecoded Opcode.Jmp 0 0 0)).
  unfold charge_gas, bind, get, checked_add. change (total_gas _) with 3.
  destruct (Z.ltb_spec (gas_used_total v + 3) (2 ^ 64)); [|lia]. unfold modify. rewrite Hl.
  cbn -[Z.add]. rewrite Hp, Hpc. reflexivity.
Qed.

Lemma spins_on (f n : nat) (v : Vm) :
  spinning v = true -> gas_used_total v + 3 * Z.of_nat f < 2 ^ 64 -> execute_loop f n v = None.
Proof.
  revert v. induction f as [|f IH]; intros v Hs Hg; [done|].
  rewrite execute_loop_eq, step_spins by (done || lia). apply IH; [|cbn; lia].
  destruct (spinning_spec v Hs) as (? & Hc & Hl & Hp & ?). unfold spinning.
  cbn [decoded_cache set_pc set_gas_used_total pc gas_limit memory gas_used_total].
  rewrite Hc, Hl, Hp. cbn. lia.
Qed.

Definition after (n : nat) (v : Vm) : Vm :=
  Nat.iter n (fun v => (step (fun _ => None) v).1) v.

Lemma exhausted_wf (n : nat) : wf_vm (after n exhausted_vm).
Proof.
  induction n as [|n IH].
  - apply boot_wf; [split; [discriminate|reflexivity]|apply empty_good| |].
    + apply map_Forall_singleton, ins_bytes.
    + repeat (apply Forall_app; split); apply ins_bytes.
  - by destruct (step_holds (fun _ => None) ltac:(done) false (after n exhausted_vm) IH) as (? & _).
Qed.

(** Runs every child but a fresh spinning one. *)
Definition not_spinning (c : Vm) : option (Vm * ExecutionOutput) :=
  if spinning c && (gas_used_total c =? 0) then None else Some (c, mkOutput Success 0 0 0 []).

Lemma exhausted_steps (ec : Vm -> option (Vm * ExecutionOutput)) :
  step ec exhausted_vm = (after 1 exhausted_vm, Ok None) /\
  step ec (after 1 exhausted_vm) = (after 2 exhausted_vm, Ok None) /\
  ((forall c, spinning c = true -> gas_used_total c = 0 -> ec c = None) ->
   (step ec (after 2 exhausted_vm)).2 = Err NoFuel).
Proof.
  split; [vm_compute; reflexivity|]. split; [vm_compute; reflexivity|]. intros Hec.
  destruct (asks_step _ _ _ (conj (exhausted_wf 2) (conj eq_refl eq_refl)))
    as [(res & Hs & E)|(_ & c & v0 & k & _ & _ & Hk & E)].
  - destruct Hs. rewrite <- (E (fun _ => None)). vm_compute. reflexivity.
  - assert ((step not_spinning (after 2 exhausted_vm)).2 = Err NoFuel) as En by (vm_compute; reflexivity).
    rewrite E in En |- *. unfold not_spinning in En. destruct (spinning c) eqn:Hc; [|by destruct (Hk _ En)].
    destruct (Z.eqb_spec (gas_used_total c) 0); [|by destruct (Hk _ En)]. by rewrite Hec.
Qed.

Lemma spinning_child_unfinished (f : nat) (c : Vm) :
  Z.of_nat f <= 2 ^ 60 -> spinning c = true -> gas_used_total c = 0 -> execute f c = None.
Proof.
  intros Hf Hs Hg. unfold execute, execute_with. rewrite spins_on; [done| |].
  - exact Hs.
  - change (gas_used_total (clear_journals c)) with (gas_used_total c). lia.
Qed.

(** A limit of 0 means no limit, and a caller that spent exactly its limit
    forwards 0: its callee runs unmetered.  Under a limit of 2506 gas, this
    execution runs more than [2 ^ 60] instructions. *)
Theorem exhausted_caller_runs_unmetered_callee :
  gas_limit exhausted_vm = 2506 /\
  (forall v g, gas_limit v > 0 -> 0 <= gas_used_total v -> 0 <= g ->
     forwarded_gas v g = 0 <-> gas_limit v <= gas_used_total v) /\
  forall fuel, Z.of_nat fuel <= 2 ^ 60 -> execute fuel exhausted_vm = None.
Proof.
  split; [reflexivity|]. split.
  { intros v g Hl Hu Hg. unfold forwarded_gas, max_forward_63_64, saturating_sub.
    destruct (Z.ltb_spec 0 (gas_limit v)); [|lia]. destruct (Z.eqb_spec g 0); lia_pow. }
  intros fuel Hf. unfold execute, execute_with.
  assert (clear_journals exhausted_vm = exhausted_vm) as -> by (vm_compute; reflexivity).
  assert (execute_loop fuel (length (logs exhausted_vm)) exhausted_vm = None) as ->; [|done].
  destruct fuel as [|f]; [done|].
  rewrite execute_loop_eq. destruct (exhausted_steps (execute f)) as (-> & _ & _). destruct f as [|f]; [done|].
  rewrite execute_loop_eq. destruct (exhausted_steps (execute f)) as (_ & -> & _). destruct f as [|f]; [done|].
  rewrite execute_loop_eq. destruct (exhausted_steps (execute f)) as (_ & _ & H).
  destruct (step (execute f) (after 2 exhausted_vm)) as [v r]. cbn [snd] in H. rewrite H; [done|].
  intros c. apply spinning_child_unfinished. lia.
Qed.
