(* ===== verification/Wire.v ===== *)
(** * Byte formats

    What the codecs of the chain share: reading fields at fixed offsets, bytes
    by index, and length-prefixed byte strings read with a cursor.  A cursor is
    the rest of the input; [offset + n > data.len()] is [len rest < n].  The
    tactic [wire] computes the fields of a concatenation of known parts. *)

From stdpp Require Import base numbers list option strings pretty.
From Stdlib Require Import ZArith Lia.
From S2P Require Import Prelude.

#[local] Open Scope Z_scope.

(** [data[i]], for an index the code has checked. *)
Definition byte_at (i : nat) (data : list Z) : Z := default 0 (data !! i).

(** [u32::from_le_bytes(data[off..off + 4])] and the like. *)
Definition le_at (off n : nat) (data : list Z) : Z := le_decode (slice off n data).

(** A cursor over [data]: [n] bytes, or failure past the end. *)
Definition read_bytes_n (n : Z) (rest : list Z) : option (list Z * list Z) :=
  if len rest <? n then None else Some (take (Z.to_nat n) rest, drop (Z.to_nat n) rest).

(** A little-endian length of [w] bytes, then that many bytes. *)
Definition read_prefixed (w : nat) (rest : list Z) : option (list Z * list Z) :=
  match read_bytes_n (Z.of_nat w) rest with
  | Some (n, rest) => read_bytes_n (le_decode n) rest
  | None => None
  end.

Definition write_prefixed (w : nat) (b : list Z) : list Z := le_encode w (len b) ++ b.

(** [n] items, one after another. *)
Fixpoint read_many {A : Type} (item : list Z -> option (A * list Z)) (n : nat) (rest : list Z) :
    option (list A * list Z) :=
  match n with
  | O => Some ([], rest)
  | S n' =>
      match item rest with
      | Some (a, rest) =>
          match read_many item n' rest with
          | Some (l, rest) => Some (a :: l, rest)
          | None => None
          end
      | None => None
      end
  end.

(** [b"..."] and [as_bytes()] of an ASCII string; [{}] of an unsigned integer is
    [pretty]. *)
Definition bytes_of_string (s : string) : list Z :=
  (fun c => Z.of_N (Ascii.N_of_ascii c)) <$> String.list_ascii_of_string s.

(** ** Fields of concatenations *)

Lemma slice_here (n : nat) (a b : list Z) : length a = n -> slice 0 n (a ++ b) = a.
Proof. intros <-. unfold slice. rewrite drop_0. apply take_app_length. Qed.

Lemma slice_all (n : nat) (a : list Z) : length a = n -> slice 0 n a = a.
Proof. intros <-. unfold slice. rewrite drop_0. apply firstn_all. Qed.

Lemma slice_skip (off n : nat) (a b : list Z) :
  (length a <= off)%nat -> slice off n (a ++ b) = slice (off - length a) n b.
Proof. intros H. unfold slice. by rewrite drop_app_ge. Qed.

Lemma byte_at_skip (i : nat) (a b : list Z) :
  (length a <= i)%nat -> byte_at i (a ++ b) = byte_at (i - length a) b.
Proof. intros H. unfold byte_at. by rewrite lookup_app_r. Qed.

Lemma byte_at_here (x : Z) (b : list Z) : byte_at 0 ([x] ++ b) = x.
Proof. done. Qed.

Lemma drop_skip (n : nat) (a b : list Z) :
  (length a <= n)%nat -> drop n (a ++ b) = drop (n - length a) b.
Proof. apply drop_app_ge. Qed.

Lemma slice_bytes (off n : nat) (l : list Z) : bytes_ok l -> bytes_ok (slice off n l).
Proof. intros H. by apply Forall_take, Forall_drop. Qed.

Lemma le_at_range (off n : nat) (l : list Z) :
  bytes_ok l -> 0 <= le_at off n l < 256 ^ Z.of_nat n.
Proof.
  intros H. unfold le_at. pose proof (le_decode_range _ (slice_bytes off n l H)) as R.
  split; [lia|]. eapply Z.lt_le_trans; [apply R|]. apply Z.pow_le_mono_r; [lia|].
  unfold slice. rewrite length_take. lia.
Qed.

(** What was written at an offset is read there. *)
Lemma le_at_write (off n : nat) (x : Z) (a b : list Z) :
  length a = off -> 0 <= x < 256 ^ Z.of_nat n -> le_at off n (a ++ le_encode n x ++ b) = x.
Proof.
  intros <- Hx. unfold le_at. rewrite slice_skip, Nat.sub_diag, slice_here by
    (rewrite ?length_le_encode; lia). by apply le_decode_encode.
Qed.

(** The fields of a buffer, in order, are the buffer. *)
Lemma drop_slice (off n : nat) (b : list Z) : drop off b = slice off n b ++ drop (off + n) b.
Proof. unfold slice. by rewrite <- drop_drop, take_drop. Qed.

Lemma le_encode_at (off n : nat) (b : list Z) :
  bytes_ok b -> (off + n <= length b)%nat -> le_encode n (le_at off n b) = slice off n b.
Proof.
  intros H L. unfold le_at. pose proof (le_encode_decode _ (slice_bytes off n b H)) as E.
  replace (length (slice off n b)) with n in E; [done|].
  unfold slice. rewrite length_take, length_drop. lia.
Qed.

Lemma byte_at_slice (i : nat) (b : list Z) : (i < length b)%nat -> [byte_at i b] = slice i 1 b.
Proof.
  intros H. unfold byte_at, slice. destruct (lookup_lt_is_Some_2 b i H) as [x E].
  by rewrite E, (drop_S _ _ _ E).
Qed.

Lemma byte_at_ok (i : nat) (b : list Z) : bytes_ok b -> byte_ok (byte_at i b).
Proof.
  intros H. unfold byte_at, byte_ok. destruct (b !! i) as [x|] eqn:E; [|cbn; lia].
  exact (Forall_lookup_1 _ _ _ _ H E).
Qed.

(** ** The reader and the writer of length-prefixed strings are inverse *)

Lemma read_bytes_n_app (b rest : list Z) : read_bytes_n (len b) (b ++ rest) = Some (b, rest).
Proof.
  unfold read_bytes_n, len. rewrite length_app, Nat2Z.id, take_app_length, drop_app_length.
  destruct (Z.ltb_spec (Z.of_nat (length b + length rest)) (Z.of_nat (length b))); [lia|done].
Qed.

Lemma read_bytes_n_exact (n : Z) (b rest : list Z) :
  len b = n -> read_bytes_n n (b ++ rest) = Some (b, rest).
Proof. intros <-. apply read_bytes_n_app. Qed.

Lemma read_bytes_n_Some (n : Z) (l b rest : list Z) :
  0 <= n -> read_bytes_n n l = Some (b, rest) -> l = b ++ rest /\ len b = n.
Proof.
  unfold read_bytes_n, len. intros Hn. destruct (Z.ltb_spec (Z.of_nat (length l)) n); [done|].
  intros [= <- <-]. rewrite take_drop, length_take. split; [done|lia].
Qed.

Lemma read_prefixed_write (w : nat) (b rest : list Z) :
  len b < 256 ^ Z.of_nat w -> read_prefixed w (write_prefixed w b ++ rest) = Some (b, rest).
Proof.
  intros H. unfold read_prefixed, write_prefixed. rewrite <- app_assoc.
  replace (Z.of_nat w) with (len (le_encode w (len b))) by (unfold len; by rewrite length_le_encode).
  rewrite read_bytes_n_app, le_decode_encode by (unfold len in *; lia). apply read_bytes_n_app.
Qed.

Lemma read_prefixed_Some (w : nat) (l b rest : list Z) :
  bytes_ok l -> read_prefixed w l = Some (b, rest) ->
  l = write_prefixed w b ++ rest /\ len b < 256 ^ Z.of_nat w.
Proof.
  unfold read_prefixed, write_prefixed. intros Hl.
  destruct (read_bytes_n (Z.of_nat w) l) as [[n r]|] eqn:E; [|done]. intros E2.
  apply read_bytes_n_Some in E as [-> Ln]; [|lia]. apply Forall_app in Hl as [Bn _].
  pose proof (le_decode_range n Bn) as Rn. apply read_bytes_n_Some in E2 as [-> Lb]; [|lia].
  assert (length n = w) as Hw by (unfold len in Ln; lia). rewrite Lb, <- Hw.
  split; [|lia]. by rewrite le_encode_decode, app_assoc.
Qed.

Section ReadMany.
Context {A : Type} (item : list Z -> option (A * list Z)) (write : A -> list Z).

Lemma read_many_write (l : list A) (rest : list Z) :
  (forall a rest, a ∈ l -> item (write a ++ rest) = Some (a, rest)) ->
  read_many item (length l) (concat (write <$> l) ++ rest) = Some (l, rest).
Proof.
  revert rest. induction l as [|a l IH]; intros rest H; [done|].
  cbn [length read_many fmap list_fmap concat]. rewrite <- app_assoc, H by by left.
  rewrite IH; [done|]. intros b r Hb. apply H. by right.
Qed.

Lemma read_many_inv (Q : list Z -> Prop) (R : A -> Prop) (n : nat) (s rest : list Z) (l : list A) :
  (forall s a rest, Q s -> item s = Some (a, rest) -> s = write a ++ rest /\ R a /\ Q rest) ->
  Q s -> read_many item n s = Some (l, rest) ->
  s = concat (write <$> l) ++ rest /\ length l = n /\ Forall R l /\ Q rest.
Proof.
  intros H. revert s l rest. induction n as [|n IH]; intros s l rest Hs; cbn [read_many].
  { by intros [= <- <-]. }
  destruct (item s) as [[a r]|] eqn:E; [|done].
  destruct (read_many item n r) as [[l' r']|] eqn:E2; [|done]. intros [= <- <-].
  destruct (H _ _ _ Hs E) as (-> & Ra & Hr). destruct (IH _ _ _ Hr E2) as (-> & <- & Rl & Hq).
  split_and!; [by cbn; rewrite app_assoc|done|by constructor|done].
Qed.
End ReadMany.

(** ** Automation *)

Ltac wire_len :=
  unfold write_prefixed, len; rewrite ?length_app, ?length_le_encode, ?length_replicate, ?length_cons;
  cbn [length]; first [done | lia].

(** Replaces the length of [a] in an offset by what is known of it. *)
Ltac wire_norm a :=
  let H := fresh in
  eassert (length a = _) as H by (rewrite ?length_le_encode; first [eassumption | reflexivity]);
  try rewrite H; clear H; cbn [Nat.sub length].

Ltac wire_step :=
  match goal with
  | |- context [slice 0 ?n (?a ++ _)] => rewrite (slice_here n a) by wire_len
  | |- context [slice 0 ?n ?a] => rewrite (slice_all n a) by wire_len
  | |- context [slice ?o ?n (?a ++ ?b)] => rewrite (slice_skip o n a b) by wire_len; wire_norm a
  | |- context [byte_at 0 ([?x] ++ ?b)] => rewrite (byte_at_here x b)
  | |- context [byte_at ?i (?a ++ ?b)] => rewrite (byte_at_skip i a b) by wire_len; wire_norm a
  | |- context [drop 0 ?b] => rewrite (drop_0 b)
  | |- context [drop ?n (?a ++ ?b)] => rewrite (drop_skip n a b) by wire_len; wire_norm a
  end.

Ltac wire := unfold le_at; repeat wire_step.
