(* ===== verification/Keys.v ===== *)
(** * State keys ([crates/state/src/keys.rs])

    Every record of the chain lives in one sparse Merkle tree under a 32-byte
    key that is the Poseidon2 hash of a preimage built from an address, a
    discriminator byte and an index.  [state_key] names the records; the theorem
    of the file is that their preimages are separated, so that two records share
    a key only if the sponge collides on two byte strings that the derivation of
    these very keys hashes.  The storage keys of the virtual machine
    ([Vm::derive_storage_key]) are among them. *)

From stdpp Require Import base numbers list option gmap.
From Stdlib Require Import ZArith Lia.
From S2P Require Import Prelude Crypto Vm.

#[local] Open Scope Z_scope.

Module discriminator.
Definition BALANCE : Z := 0x00.
Definition NONCE : Z := 0x01.
Definition CODE : Z := 0x02.
Definition CODE_HASH : Z := 0x03.
Definition STORAGE_SLOT : Z := 0x04.
Definition MAP_ENTRY : Z := 0x05.
Definition AOT_CODE : Z := 0x06.
Definition VALIDATOR : Z := 0x10.
Definition VALIDATOR_COUNT : Z := 0x11.
Definition SUPPLY : Z := 0x12.
Definition TOTAL_BURNED : Z := 0x13.
Definition REWARDS_PER_VALIDATOR : Z := 0x14.
Definition ACTIVE_VALIDATOR_COUNT : Z := 0x15.
Definition VESTING : Z := 0x16.
Definition VALIDATOR_SUBSIDY : Z := 0x17.
Definition AIRDROP_ROOT : Z := 0x18.
Definition AIRDROP_DEADLINE : Z := 0x19.
Definition AIRDROP_CLAIMED : Z := 0x1A.
Definition AIRDROP_EXPECTED_SUM : Z := 0x1B.
Definition MULTISIG_SIGNERS : Z := 0x1C.
Definition MULTISIG_THRESHOLD : Z := 0x1D.
Definition MULTISIG_NONCE : Z := 0x1E.
Definition EMERGENCY_PAUSE_END_SLOT : Z := 0x1F.
End discriminator.

Section Keys.
Context {P : Primitives}.

Definition derive_address (falcon_public_key : list Z) : Address := poseidon2_hash falcon_public_key.

Definition balance_key (address : Address) : list Z :=
  poseidon2_hash (address ++ [discriminator.BALANCE]).
Definition nonce_key (address : Address) : list Z :=
  poseidon2_hash (address ++ [discriminator.NONCE]).
Definition code_key (address : Address) : list Z :=
  poseidon2_hash (address ++ [discriminator.CODE]).
Definition code_hash_key (address : Address) : list Z :=
  poseidon2_hash (address ++ [discriminator.CODE_HASH]).

Definition storage_slot_key (contract : Address) (slot : Z) : list Z :=
  poseidon2_hash (contract ++ [discriminator.STORAGE_SLOT] ++ le_encode 8 slot).

Definition map_entry_key (contract : Address) (slot : Z) (map_key : list Z) : list Z :=
  let slot_hash := storage_slot_key contract slot in
  poseidon2_hash (slot_hash ++ [discriminator.MAP_ENTRY] ++ map_key).

Definition nested_map_key (contract : Address) (slot : Z) (key1 key2 : list Z) : list Z :=
  let level1 := map_entry_key contract slot key1 in
  poseidon2_hash (level1 ++ [discriminator.MAP_ENTRY] ++ key2).

Definition aot_code_key (address : Address) : list Z :=
  poseidon2_hash (address ++ [discriminator.AOT_CODE]).
Definition validator_key (address : Address) : list Z :=
  poseidon2_hash (address ++ [discriminator.VALIDATOR]).
Definition validator_count_key : list Z := poseidon2_hash [discriminator.VALIDATOR_COUNT].
Definition validator_index_key (index : Z) : list Z :=
  poseidon2_hash ([discriminator.VALIDATOR_COUNT] ++ le_encode 8 index).
Definition supply_key : list Z := poseidon2_hash [discriminator.SUPPLY].
Definition total_burned_key : list Z := poseidon2_hash [discriminator.TOTAL_BURNED].
Definition rewards_per_validator_key : list Z :=
  poseidon2_hash [discriminator.REWARDS_PER_VALIDATOR].
Definition active_validator_count_key : list Z :=
  poseidon2_hash [discriminator.ACTIVE_VALIDATOR_COUNT].
Definition vesting_key (address : Address) : list Z :=
  poseidon2_hash (address ++ [discriminator.VESTING]).
Definition validator_subsidy_key : list Z := poseidon2_hash [discriminator.VALIDATOR_SUBSIDY].
Definition airdrop_root_key : list Z := poseidon2_hash [discriminator.AIRDROP_ROOT].
Definition airdrop_deadline_key : list Z := poseidon2_hash [discriminator.AIRDROP_DEADLINE].
Definition airdrop_expected_sum_key : list Z :=
  poseidon2_hash [discriminator.AIRDROP_EXPECTED_SUM].
Definition airdrop_claimed_key (leaf_index : Z) : list Z :=
  poseidon2_hash ([discriminator.AIRDROP_CLAIMED] ++ le_encode 8 leaf_index).
Definition multisig_signers_key : list Z := poseidon2_hash [discriminator.MULTISIG_SIGNERS].
Definition multisig_threshold_key : list Z := poseidon2_hash [discriminator.MULTISIG_THRESHOLD].
Definition multisig_nonce_key : list Z := poseidon2_hash [discriminator.MULTISIG_NONCE].
Definition emergency_pause_end_slot_key : list Z :=
  poseidon2_hash [discriminator.EMERGENCY_PAUSE_END_SLOT].

(** ** The records of the tree *)

Inductive state_key : Type :=
| KBalance (a : Address) | KNonce (a : Address) | KCode (a : Address) | KCodeHash (a : Address)
| KAotCode (a : Address) | KValidator (a : Address) | KVesting (a : Address)
| KVmSlot (contract : Address) (slot : Z)
| KMapEntry (contract : Address) (slot : Z) (key : list Z)
| KNestedMap (contract : Address) (slot : Z) (key1 key2 : list Z)
| KValidatorIndex (i : Z) | KAirdropClaimed (i : Z)
| KValidatorCount | KSupply | KTotalBurned | KRewardsPerValidator | KActiveValidatorCount
| KValidatorSubsidy | KAirdropRoot | KAirdropDeadline | KAirdropExpectedSum
| KMultisigSigners | KMultisigThreshold | KMultisigNonce | KPauseEndSlot.

(** A machine that runs as [contract]. *)
Definition running_as (contract : Address) : Vm :=
  with_context (mkCtx ZERO_ADDRESS contract 0 0 0 0 0 0 0 ZERO_ADDRESS [] ∅).

(** The key of a record; a VM slot is stored under the bytes of the word that
    the machine running as [contract] derives. *)
Definition key_of (k : state_key) : list Z :=
  match k with
  | KBalance a => balance_key a | KNonce a => nonce_key a
  | KCode a => code_key a | KCodeHash a => code_hash_key a
  | KAotCode a => aot_code_key a | KValidator a => validator_key a | KVesting a => vesting_key a
  | KVmSlot c slot =>
      le_encode 32 (derive_storage_key (running_as c) slot)
  | KMapEntry c slot key => map_entry_key c slot key
  | KNestedMap c slot key1 key2 => nested_map_key c slot key1 key2
  | KValidatorIndex i => validator_index_key i | KAirdropClaimed i => airdrop_claimed_key i
  | KValidatorCount => validator_count_key | KSupply => supply_key
  | KTotalBurned => total_burned_key | KRewardsPerValidator => rewards_per_validator_key
  | KActiveValidatorCount => active_validator_count_key
  | KValidatorSubsidy => validator_subsidy_key | KAirdropRoot => airdrop_root_key
  | KAirdropDeadline => airdrop_deadline_key | KAirdropExpectedSum => airdrop_expected_sum_key
  | KMultisigSigners => multisig_signers_key | KMultisigThreshold => multisig_threshold_key
  | KMultisigNonce => multisig_nonce_key | KPauseEndSlot => emergency_pause_end_slot_key
  end.

(** ** Preimages: a 32-byte prefix or none, a discriminator, a suffix *)

Definition slot_bytes (slot : Z) : list Z :=
  let b := le_encode 32 slot in
  take (Nat.max (32 - leading_zeros (rev b)) 8) b.

Definition prefix (k : state_key) : list Z :=
  match k with
  | KBalance a | KNonce a | KCode a | KCodeHash a | KAotCode a | KValidator a | KVesting a => a
  | KVmSlot c _ => c
  | KMapEntry c slot _ => storage_slot_key c slot
  | KNestedMap c slot key1 _ => map_entry_key c slot key1
  | _ => []
  end.

Definition tag (k : state_key) : Z :=
  match k with
  | KBalance _ => discriminator.BALANCE | KNonce _ => discriminator.NONCE
  | KCode _ => discriminator.CODE | KCodeHash _ => discriminator.CODE_HASH
  | KAotCode _ => discriminator.AOT_CODE | KValidator _ => discriminator.VALIDATOR
  | KVesting _ => discriminator.VESTING | KVmSlot _ _ => discriminator.STORAGE_SLOT
  | KMapEntry _ _ _ | KNestedMap _ _ _ _ => discriminator.MAP_ENTRY
  | KValidatorIndex _ | KValidatorCount => discriminator.VALIDATOR_COUNT
  | KAirdropClaimed _ => discriminator.AIRDROP_CLAIMED
  | KSupply => discriminator.SUPPLY | KTotalBurned => discriminator.TOTAL_BURNED
  | KRewardsPerValidator => discriminator.REWARDS_PER_VALIDATOR
  | KActiveValidatorCount => discriminator.ACTIVE_VALIDATOR_COUNT
  | KValidatorSubsidy => discriminator.VALIDATOR_SUBSIDY
  | KAirdropRoot => discriminator.AIRDROP_ROOT | KAirdropDeadline => discriminator.AIRDROP_DEADLINE
  | KAirdropExpectedSum => discriminator.AIRDROP_EXPECTED_SUM
  | KMultisigSigners => discriminator.MULTISIG_SIGNERS
  | KMultisigThreshold => discriminator.MULTISIG_THRESHOLD
  | KMultisigNonce => discriminator.MULTISIG_NONCE
  | KPauseEndSlot => discriminator.EMERGENCY_PAUSE_END_SLOT
  end.

Definition suffix (k : state_key) : list Z :=
  match k with
  | KVmSlot _ slot => slot_bytes slot
  | KMapEntry _ _ key | KNestedMap _ _ _ key => key
  | KValidatorIndex i | KAirdropClaimed i => le_encode 8 i
  | _ => []
  end.

Definition preimage (k : state_key) : list Z := prefix k ++ [tag k] ++ suffix k.

(** What the derivation of a key hashes, the last input first. *)
Definition hash_inputs (k : state_key) : list (list Z) :=
  match k with
  | KMapEntry c slot _ => [preimage k; c ++ [discriminator.STORAGE_SLOT] ++ le_encode 8 slot]
  | KNestedMap c slot key1 _ =>
      [preimage k; storage_slot_key c slot ++ [discriminator.MAP_ENTRY] ++ key1;
       c ++ [discriminator.STORAGE_SLOT] ++ le_encode 8 slot]
  | _ => [preimage k]
  end.

(** The arguments have the widths of their Rust types; a map key fits memory. *)
Definition wf_key (k : state_key) : Prop :=
  match k with
  | KBalance a | KNonce a | KCode a | KCodeHash a | KAotCode a | KValidator a | KVesting a =>
      address_ok a
  | KVmSlot c slot => address_ok c /\ in_range u256 slot
  | KMapEntry c slot key => address_ok c /\ in_range u64 slot /\ bytes_ok key /\ len key < 2 ^ 62
  | KNestedMap c slot key1 key2 => address_ok c /\ in_range u64 slot /\
      bytes_ok key1 /\ len key1 < 2 ^ 62 /\ bytes_ok key2 /\ len key2 < 2 ^ 62
  | KValidatorIndex i | KAirdropClaimed i => in_range u64 i
  | _ => True
  end.

(** Two derivations that meet: some pair of their hash inputs is a collision of
    the sponge. *)
Definition keys_collide (k1 k2 : state_key) : Prop :=
  exists d1 d2, d1 ∈ hash_inputs k1 /\ d2 ∈ hash_inputs k2 /\ sponge_collision d1 d2.
End Keys.

(** ** Slots *)

Lemma leading_zeros_split (l : list Z) :
  exists r, l = replicate (leading_zeros l) 0 ++ r /\ (leading_zeros l <= length l)%nat.
Proof.
  induction l as [|[|p|p] l (r & E & L)]; [by exists []|..]; cbn [leading_zeros replicate app length].
  - exists r. split; [by f_equal|lia].
  - exists (Z.pos p :: l). split; [done|lia].
  - exists (Z.neg p :: l). split; [done|lia].
Qed.

Lemma rev_replicate {A : Type} (n : nat) (x : A) : rev (replicate n x) = replicate n x.
Proof. rewrite rev_alt. apply reverse_replicate. Qed.

(** Dropping the trailing zero bytes of a little-endian number keeps its value. *)
Lemma le_decode_trim (l : list Z) (n : nat) :
  (length l - leading_zeros (rev l) <= n)%nat -> le_decode (take n l) = le_decode l.
Proof.
  intros Hn. destruct (leading_zeros_split (rev l)) as (r & E & L). rewrite length_rev in L.
  assert (l = rev r ++ replicate (leading_zeros (rev l)) 0) as El.
  { rewrite <- (rev_involutive l) at 1. rewrite E at 1. rewrite rev_app_distr. f_equal.
    apply rev_replicate. }
  assert (length (rev r) = length l - leading_zeros (rev l))%nat as Lr.
  { apply (f_equal length) in El. rewrite length_app, length_replicate in El. lia. }
  set (z := leading_zeros (rev l)) in *. clearbody z. rewrite El, take_app_ge, take_replicate by lia.
  by rewrite !le_decode_app_zeros.
Qed.

Lemma slot_bytes_decode (slot : Z) : in_range u256 slot -> le_decode (slot_bytes slot) = slot.
Proof.
  intros H. unfold slot_bytes. rewrite le_decode_trim by (rewrite length_le_encode; lia).
  by apply le_decode_encode.
Qed.

Lemma slot_bytes_inj (s1 s2 : Z) :
  in_range u256 s1 -> in_range u256 s2 -> slot_bytes s1 = slot_bytes s2 -> s1 = s2.
Proof. intros H1 H2 E. by rewrite <- (slot_bytes_decode s1), <- (slot_bytes_decode s2), E. Qed.

Lemma slot_bytes_ok (slot : Z) : bytes_ok (slot_bytes slot) /\ (length (slot_bytes slot) <= 32)%nat.
Proof.
  unfold slot_bytes. split; [apply Forall_take, le_encode_bytes|].
  rewrite length_take, length_le_encode. lia.
Qed.

Lemma leading_zeros_replicate (n : nat) (l : list Z) :
  (n <= leading_zeros (replicate n 0%Z ++ l))%nat.
Proof. induction n; cbn; lia. Qed.

(** A 64-bit slot is written with exactly eight bytes. *)
Lemma slot_bytes_u64 (slot : Z) : in_range u64 slot -> slot_bytes slot = le_encode 8 slot.
Proof.
  intros H. unfold slot_bytes.
  assert (le_encode 32 slot = le_encode 8 slot ++ replicate 24 0) as ->.
  { rewrite (le_encode_app 8 24), <- le_encode_0. do 2 f_equal. apply Z.div_small. exact H. }
  cbv zeta. rewrite rev_app_distr, rev_replicate.
  pose proof (leading_zeros_replicate 24 (rev (le_encode 8 slot))).
  rewrite Nat.max_r by lia. apply take_app_length'. by rewrite length_le_encode.
Qed.

(** ** Separation *)

Section Separation.
Context {P : Primitives} {POk : PrimitivesOk P}.

Lemma hash_address_ok (d : list Z) : address_ok (poseidon2_hash d).
Proof. split; [apply poseidon2_hash_length|apply poseidon2_hash_bytes]. Qed.

Lemma derive_storage_key_bytes (v : Vm) (slot : Z) :
  le_encode 32 (derive_storage_key v slot)
  = poseidon2_hash (self_address (ctx v) ++ [discriminator.STORAGE_SLOT] ++ slot_bytes slot).
Proof.
  unfold derive_storage_key. set (h := poseidon2_hash _).
  rewrite <- (poseidon2_hash_length _ : length h = 32%nat). apply le_encode_decode, poseidon2_hash_bytes.
Qed.

Lemma key_of_preimage (k : state_key) : key_of k = poseidon2_hash (preimage k).
Proof.
  destruct k; try reflexivity; unfold preimage; cbn [prefix tag suffix app].
  - apply derive_storage_key_bytes.
Qed.

(** A preimage without a prefix is short. *)
Lemma prefix_ok (k : state_key) :
  wf_key k -> (prefix k = [] /\ (length (preimage k) <= 9)%nat) \/ address_ok (prefix k).
Proof.
  destruct k; cbn [wf_key prefix]; intros W; try (right; first [apply hash_address_ok | tauto]);
    left; (split; [done|]); unfold preimage; cbn [prefix tag suffix app length];
    rewrite ?length_le_encode; lia.
Qed.

Lemma suffix_ok (k : state_key) : wf_key k -> bytes_ok (suffix k) /\ len (suffix k) < 2 ^ 62.
Proof.
  destruct k; cbn [suffix wf_key]; intros W; try (by split; [constructor|]);
    try (split; [apply le_encode_bytes|unfold len; rewrite length_le_encode; lia]); try tauto.
  destruct (slot_bytes_ok slot). split; [done|]. unfold len. lia.
Qed.

Lemma preimage_alloc (k : state_key) : wf_key k -> alloc_ok (preimage k).
Proof.
  intros W. destruct (suffix_ok k W) as [Hs Ls]. unfold preimage, len in *. split.
  - apply Forall_app. split; [destruct (prefix_ok k W) as [[-> _]|[]]; [constructor|done]|].
    constructor; [|done]. destruct k; done.
  - unfold len. rewrite !length_app. destruct (prefix_ok k W) as [[-> _]|[-> _]]; cbn; lia.
Qed.

Lemma slot_preimage_alloc (c : Address) (slot : Z) :
  address_ok c -> alloc_ok (c ++ [discriminator.STORAGE_SLOT] ++ le_encode 8 slot).
Proof.
  intros [L B]. split; [|unfold len; rewrite !length_app, length_le_encode, L; cbn; lia].
  apply Forall_app. split; [done|]. constructor; [done|apply le_encode_bytes].
Qed.

(** The length of the prefix is read off a preimage, so its parts are. *)
Lemma preimage_parts (k1 k2 : state_key) :
  wf_key k1 -> wf_key k2 -> preimage k1 = preimage k2 ->
  prefix k1 = prefix k2 /\ tag k1 = tag k2 /\ suffix k1 = suffix k2.
Proof.
  intros W1 W2 E.
  assert (length (prefix k1) = length (prefix k2)) as L.
  { pose proof (f_equal length E) as EL.
    assert (forall k, address_ok (prefix k) -> (33 <= length (preimage k))%nat) as Hlong.
    { intros k [L _]. unfold preimage. rewrite length_app, L. cbn. lia. }
    destruct (prefix_ok k1 W1) as [[E1 S1]|A1], (prefix_ok k2 W2) as [[E2 S2]|A2].
    - by rewrite E1, E2.
    - pose proof (Hlong k2 A2). lia.
    - pose proof (Hlong k1 A1). lia.
    - destruct A1 as [-> _], A2 as [-> _]. done. }
  unfold preimage in E. apply app_inj_1 in E as [-> E]; [|done]. by injection E as -> ->.
Qed.

Definition slot_preimage (c : Address) (slot : Z) : list Z :=
  c ++ [discriminator.STORAGE_SLOT] ++ le_encode 8 slot.

Definition entry_preimage (h key : list Z) : list Z := h ++ [discriminator.MAP_ENTRY] ++ key.

Lemma entry_preimage_alloc (h key : list Z) :
  address_ok h -> bytes_ok key -> len key < 2 ^ 62 -> alloc_ok (entry_preimage h key).
Proof.
  intros [L B] Hk Hl. unfold entry_preimage, len in *. split; [|unfold len; rewrite !length_app, L; cbn; lia].
  apply Forall_app. split; [done|]. by constructor.
Qed.

Lemma slot_key_eq (c1 c2 : Address) (s1 s2 : Z) :
  address_ok c1 -> address_ok c2 -> in_range u64 s1 -> in_range u64 s2 ->
  storage_slot_key c1 s1 = storage_slot_key c2 s2 ->
  (c1 = c2 /\ s1 = s2) \/ sponge_collision (slot_preimage c1 s1) (slot_preimage c2 s2).
Proof.
  intros A1 A2 H1 H2 E. apply poseidon2_hash_eq in E; [|by apply slot_preimage_alloc..].
  destruct E as [E|E]; [left|by right].
  apply app_inj_1 in E as [-> E]; [|by destruct A1 as [-> _], A2 as [-> _]].
  apply app_inv_head in E. split; [done|]. by eapply (le_encode_inj 8).
Qed.

Lemma entry_key_eq (h1 h2 key1 key2 : list Z) :
  address_ok h1 -> address_ok h2 -> bytes_ok key1 -> bytes_ok key2 ->
  len key1 < 2 ^ 62 -> len key2 < 2 ^ 62 ->
  poseidon2_hash (entry_preimage h1 key1) = poseidon2_hash (entry_preimage h2 key2) ->
  (h1 = h2 /\ key1 = key2) \/ sponge_collision (entry_preimage h1 key1) (entry_preimage h2 key2).
Proof.
  intros A1 A2 B1 B2 L1 L2 E. apply poseidon2_hash_eq in E; [|by apply entry_preimage_alloc..].
  destruct E as [E|E]; [left|by right].
  apply app_inj_1 in E as [-> E]; [|by destruct A1 as [-> _], A2 as [-> _]].
  by apply app_inv_head in E.
Qed.

(** A slot key is never the key of a map entry. *)
Lemma slot_entry_key (c : Address) (slot : Z) (h key : list Z) :
  address_ok c -> address_ok h -> bytes_ok key -> len key < 2 ^ 62 ->
  storage_slot_key c slot = poseidon2_hash (entry_preimage h key) ->
  sponge_collision (slot_preimage c slot) (entry_preimage h key).
Proof.
  intros A Ah B L E.
  apply poseidon2_hash_eq in E; [|by apply slot_preimage_alloc|by apply entry_preimage_alloc].
  destruct E as [E|E]; [|done]. apply app_inj_1 in E as [_ E]; [done|].
  by destruct A as [-> _], Ah as [-> _].
Qed.

Lemma last_input (k : state_key) : preimage k ∈ hash_inputs k.
Proof. destruct k; left. Qed.

Lemma collision_sym (d1 d2 : list Z) : sponge_collision d1 d2 -> sponge_collision d2 d1.
Proof. intros []. split; congruence. Qed.

(** Domain separation of the state tree: two records (balances, nonces,
    code, validator entries, vesting schedules, the storage slots a contract
    reads and writes through the virtual machine, map entries and the global
    records) have the same key only if they are the same record, or the sponge
    collides on two of the byte strings hashed to derive these two keys.  In
    particular no contract can reach an account record, the code of a contract
    or another contract's storage by its choice of slots. *)
Theorem state_keys_separated (k1 k2 : state_key) :
  wf_key k1 -> wf_key k2 -> key_of k1 = key_of k2 -> k1 = k2 \/ keys_collide k1 k2.
Proof.
  intros W1 W2 E. rewrite !key_of_preimage in E.
  destruct (poseidon2_hash_eq _ _ (preimage_alloc k1 W1) (preimage_alloc k2 W2) E) as [E'|C].
  2: { right. exists (preimage k1), (preimage k2). split_and!; [by apply last_input..|done]. }
  destruct (preimage_parts k1 k2 W1 W2 E') as (Ep & Et & Es). clear E E'.
  destruct k1, k2; try discriminate Et; cbn [prefix suffix wf_key] in *; try discriminate Es;
    try (left; congruence).
  - destruct W1, W2. left. f_equal; [done|]. by apply slot_bytes_inj.
  - destruct W1 as (? & ? & ? & ?), W2 as (? & ? & ? & ?).
    apply slot_key_eq in Ep; [|done..]. destruct Ep as [[-> ->]|C].
    + left. congruence.
    + right. do 2 eexists. split_and!; [do 2 constructor..|exact C].
  - destruct W1 as (? & ? & ? & ?), W2 as (? & ? & ? & ? & ? & ?). right.
    apply slot_entry_key in Ep; [|done|apply hash_address_ok|done..].
    do 2 eexists. split_and!; [do 2 constructor..|exact Ep].
  - destruct W1 as (? & ? & ? & ? & ? & ?), W2 as (? & ? & ? & ?). right.
    symmetry in Ep. apply slot_entry_key in Ep; [|done|apply hash_address_ok|done..].
    do 2 eexists. split_and!; [do 2 constructor..|exact (collision_sym _ _ Ep)].
  - destruct W1 as (? & ? & ? & ? & ? & ?), W2 as (? & ? & ? & ? & ? & ?).
    apply entry_key_eq in Ep; [|apply hash_address_ok..|done|done|done|done].
    destruct Ep as [[Eh ->]|C]; [|right; do 2 eexists; split_and!; [do 2 constructor..|exact C]].
    apply slot_key_eq in Eh; [|done..]. destruct Eh as [[-> ->]|C].
    + left. congruence.
    + right. do 2 eexists. split_and!; [do 3 constructor..|exact C].
  - left. f_equal. by eapply (le_encode_inj 8).
  - left. f_equal. by eapply (le_encode_inj 8).
Qed.

(** The key the virtual machine derives for a 64-bit slot is the key that
    the state crate derives for it, so the node and the machine agree on where a
    slot is stored. *)
Theorem vm_storage_key_matches_state (v : Vm) (slot : Z) :
  in_range u64 slot ->
  le_encode 32 (derive_storage_key v slot) = storage_slot_key (self_address (ctx v)) slot.
Proof. intros H. by rewrite derive_storage_key_bytes, slot_bytes_u64. Qed.
End Separation.

(** With a sponge that maps everything to zero, a balance and a storage slot do
    meet, and the theorem names the colliding preimages. *)
Lemma state_keys_separated_witness :
  let P := {| sponge := fun _ => [0; 0; 0; 0]; fn_dsa_verify := fun _ _ _ => false |} in
  keys_collide (KBalance ZERO_ADDRESS) (KVmSlot ZERO_ADDRESS 7).
Proof.
  intros P.
  assert (PrimitivesOk P) as PO.
  { split; [reflexivity|]. intros l.
    repeat (constructor; [split; [discriminate|reflexivity]|]). constructor. }
  assert (address_ok ZERO_ADDRESS) as HZ by (split; [reflexivity|by apply Forall_replicate]).
  destruct (state_keys_separated (KBalance ZERO_ADDRESS) (KVmSlot ZERO_ADDRESS 7) HZ) as [E|C].
  - split; [exact HZ|]. split; [discriminate|reflexivity].
  - vm_compute. reflexivity.
  - discriminate E.
  - exact C.
Defined.

Lemma vm_storage_key_matches_state_witness :
  le_encode 32 (derive_storage_key (running_as ZERO_ADDRESS) 258) = storage_slot_key ZERO_ADDRESS 258.
Proof. apply vm_storage_key_matches_state. split; [discriminate|reflexivity]. Defined.
