(* ===== verification/Nonce.v ===== *)
(** * The nonce window ([crates/account/src/nonce.rs])

    An account accepts nonces out of order inside a window of sixteen.  The base
    and the bitmap refine the set of consumed nonces: [use_nonce_spec] is the
    refinement, and the theorem of the file that every nonce is accepted exactly
    once follows from it. *)

From stdpp Require Import base numbers list option gmap.
From Stdlib Require Import ZArith Lia.
From S2P Require Import Prelude Wire.

#[local] Open Scope Z_scope.
#[local] Open Scope pyde_scope.

(** ** Operations *)

Definition WINDOW_SIZE : Z := 16.

Record NonceState : Type := mkNonce {
  base : Z;
  used : Z
}.

Inductive NonceError : Type := BelowWindow | AboveWindow | AlreadyUsed.

#[global] Instance NonceError_eq_dec : EqDecision NonceError.
Proof. solve_decision. Defined.

Definition NonceState_new : NonceState := mkNonce 0 0.
Definition with_base (b : Z) : NonceState := mkNonce b 0.

Definition validate (ns : NonceState) (nonce : Z) : Result Z NonceError :=
  if nonce <? base ns then Err BelowWindow
  else
    let above :=
      match checked_add u64 (base ns) WINDOW_SIZE with
      | Some window_end => window_end <=? nonce
      | None => false
      end in
    if above then Err AboveWindow
    else
      let bit := wrap u8 (nonce - base ns) in
      if negb (Z.land (used ns) (wrap u16 (Z.shiftl 1 bit)) =? 0) then Err AlreadyUsed
      else Ok bit.

Definition is_valid (ns : NonceState) (nonce : Z) : bool := is_ok (validate ns nonce).

(** [while self.used & 1 == 1]: each turn drops a set bit of the 16, so
    seventeen turns reach the exit. *)
Fixpoint advance_loop (fuel : nat) (ns : NonceState) : NonceState :=
  match fuel with
  | O => ns
  | S f =>
      if Z.land (used ns) 1 =? 1 then
        match checked_add u64 (base ns) 1 with
        | Some b => advance_loop f (mkNonce b (Z.shiftr (used ns) 1))
        | None => ns
        end
      else ns
  end.

Definition advance (ns : NonceState) : NonceState := advance_loop 17 ns.

Definition use_nonce (nonce : Z) : ST NonceState NonceError unit := fun ns =>
  match validate ns nonce with
  | Ok bit =>
      (advance (mkNonce (base ns) (Z.lor (used ns) (wrap u16 (Z.shiftl 1 bit)))), Ok tt)
  | Err e => (ns, Err e)
  end.

Definition max_nonce (ns : NonceState) : Z := saturating_add u64 (base ns) (WINDOW_SIZE - 1).

Definition count_ones (w : nat) (x : Z) : Z :=
  len (filter (fun i => Z.testbit x (Z.of_nat i) = true) (seq 0 w)).

Definition available_slots (ns : NonceState) : Z := WINDOW_SIZE - count_ones 16 (used ns).

Definition NonceState_to_bytes (ns : NonceState) : list Z :=
  le_encode 8 (base ns) ++ le_encode 2 (used ns).

Definition NonceState_from_bytes (data : list Z) : option NonceState :=
  if len data <? 10 then None
  else Some (mkNonce (le_decode (slice 0 8 data)) (le_decode (slice 8 2 data))).

(** ** The window as a set of nonces *)

(** A nonce that can no longer be used. *)
Definition consumed (ns : NonceState) (n : Z) : Prop :=
  n < base ns \/ Z.testbit (used ns) (n - base ns) = true.

(** The window starts at an unused nonce, unless it has reached the last one. *)
Definition wf_nonce (ns : NonceState) : Prop :=
  in_range u64 (base ns) /\ in_range u16 (used ns) /\
  (Z.testbit (used ns) 0 = false \/ base ns = max_of u64).

(** The nonces a list of attempts gets accepted, in order. *)
Fixpoint accepted (ns : NonceState) (l : list Z) : list Z :=
  match l with
  | [] => []
  | n :: l' => let (ns', r) := use_nonce n ns in
               (if is_ok r then [n] else []) ++ accepted ns' l'
  end.

Lemma testbit_high (x n : Z) : in_range u16 x -> 16 <= n -> Z.testbit x n = false.
Proof. intros H Hn. eapply in_range_bits; [..|exact H|]; lia. Qed.

Lemma validate_spec (ns : NonceState) (n : Z) :
  wf_nonce ns -> in_range u64 n ->
  validate ns n =
    if n <? base ns then Err BelowWindow
    else if base ns + 16 <=? n then Err AboveWindow
    else if Z.testbit (used ns) (n - base ns) then Err AlreadyUsed
    else Ok (n - base ns).
Proof.
  intros (Hb & Hu & _) Hn. unfold validate, checked_add, WINDOW_SIZE, in_range in *.
  destruct (Z.ltb_spec n (base ns)); [done|].
  assert ((match (if base ns + 16 <? 2 ^ 64 then Some (base ns + 16) else None) with
           | Some window_end => window_end <=? n | None => false end) = (base ns + 16 <=? n)) as ->.
  { destruct (Z.ltb_spec (base ns + 16) (2 ^ 64)); [done|]. symmetry. apply Z.leb_gt. lia. }
  destruct (Z.leb_spec (base ns + 16) n); [done|].
  assert (0 <= n - base ns < 16) as Hd by lia. set (d := n - base ns) in *.
  rewrite (wrap_small u8) by (unfold in_range; lia).
  rewrite (wrap_small u16).
  - rewrite test_bit_pow2, negb_involutive by lia. done.
  - rewrite Z.shiftl_1_l. split; [apply Z.pow_nonneg; lia|apply Z.pow_lt_mono_r; lia].
Qed.

Lemma land_1_testbit (x : Z) : (Z.land x 1 =? 1) = Z.testbit x 0.
Proof.
  change (Z.land x 1) with (Z.land x (Z.ones 1)). rewrite Z.land_ones by lia.
  change (2 ^ 1) with 2. rewrite Z.bit0_odd, Zmod_odd.
  by destruct (Z.odd x).
Qed.

(** Advancing keeps what is consumed and stops at an unused nonce, or at the
    last one. *)
Lemma advance_loop_spec (fuel : nat) (k : Z) (ns : NonceState) :
  0 <= k < Z.of_nat fuel -> k <= 16 -> in_range u64 (base ns) -> in_range k (used ns) ->
  let ns' := advance_loop fuel ns in
  wf_nonce ns' /\ base ns <= base ns' /\
  forall m, in_range u64 m -> (consumed ns' m <-> consumed ns m).
Proof.
  revert k ns. induction fuel as [|f IH]; intros k ns Hk H16 Hb Hu; [lia|].
  assert (in_range u16 (used ns)) as Hu16 by (eapply in_range_weaken; [|exact Hu]; lia).
  cbn [advance_loop]. rewrite land_1_testbit. destruct (Z.testbit (used ns) 0) eqn:E0.
  2: { split; [split; [done|by split; [|left]]|]. split; [lia|done]. }
  unfold checked_add. destruct (Z.ltb_spec (base ns + 1) (2 ^ 64)).
  2: { split; [split; [done|split; [done|right]]|]; [unfold in_range, max_of in *; lia|].
       split; [lia|done]. }
  assert (0 < k) as Hk0.
  { destruct (Z.eq_dec k 0) as [->|]; [|lia]. unfold in_range in Hu.
    assert (used ns = 0) as Z0 by lia. by rewrite Z0 in E0. }
  destruct (IH (k - 1) (mkNonce (base ns + 1) (Z.shiftr (used ns) 1))) as (W & B & C);
    [lia|lia|unfold in_range in *; cbn; lia| |].
  { cbn. unfold in_range in *. rewrite Z.shiftr_div_pow2 by lia. change (2 ^ 1) with 2.
    replace k with (Z.succ (k - 1)) in Hu by lia. rewrite Z.pow_succ_r in Hu by lia.
    split; [apply Z.div_pos; lia|apply Z.div_lt_upper_bound; lia]. }
  cbn [base] in B. split_and!; [done|lia|]. intros m Hm. rewrite (C m Hm). unfold consumed. cbn.
  destruct (Z.lt_trichotomy m (base ns)) as [|[->|]].
  - split; intros; left; lia.
  - split; intros _; [right; by rewrite Z.sub_diag|left; lia].
  - rewrite Z.shiftr_spec by lia. replace (m - (base ns + 1) + 1) with (m - base ns) by lia.
    split; (intros [?|?]; [left; lia|by right]).
Qed.

Lemma advance_spec (ns : NonceState) :
  in_range u64 (base ns) -> in_range u16 (used ns) ->
  wf_nonce (advance ns) /\ base ns <= base (advance ns) /\
  forall m, in_range u64 m -> (consumed (advance ns) m <-> consumed ns m).
Proof. intros Hb Hu. apply (advance_loop_spec 17 16); done || lia. Qed.

(** What an attempt does: it is accepted exactly when the nonce is in the window
    and not consumed, and then consumes this nonce and no other. *)
Lemma use_nonce_spec (ns : NonceState) (n : Z) :
  wf_nonce ns -> in_range u64 n ->
  let (ns', r) := use_nonce n ns in
  wf_nonce ns' /\ base ns <= base ns' /\
  (is_ok r = true <-> ~ consumed ns n /\ n < base ns + 16) /\
  forall m, in_range u64 m -> (consumed ns' m <-> consumed ns m \/ (is_ok r = true /\ m = n)).
Proof.
  intros W Hn. unfold use_nonce. rewrite validate_spec by done. pose proof W as (Hb & Hu & _).
  assert (forall e, consumed ns n \/ base ns + 16 <= n ->
    wf_nonce ns /\ base ns <= base ns /\
    (@is_ok unit NonceError (Err e) = true <-> ~ consumed ns n /\ n < base ns + 16) /\
    forall m, in_range u64 m ->
      (consumed ns m <-> consumed ns m \/ (@is_ok unit NonceError (Err e) = true /\ m = n))) as Hno.
  { intros e H. cbn. split_and!; [done|lia| |].
    - split; [done|]. intros [Hc Hlt]. destruct H; [done|lia].
    - intros m _. split; [by left|by intros [?|[]]]. }
  destruct (Z.ltb_spec n (base ns)); [apply Hno; left; by left|].
  destruct (Z.leb_spec (base ns + 16) n); [apply Hno; by right|].
  destruct (Z.testbit (used ns) (n - base ns)) eqn:E; [apply Hno; left; by right|].
  assert (in_range u16 (Z.shiftl 1 (n - base ns))) as Hs.
  { rewrite Z.shiftl_1_l. split; [apply Z.pow_nonneg; lia|apply Z.pow_lt_mono_r; lia]. }
  rewrite (wrap_small u16) by done.
  destruct (advance_spec (mkNonce (base ns) (Z.lor (used ns) (Z.shiftl 1 (n - base ns)))))
    as (W' & B & C); [done|by apply lor_range|].
  split_and!; [done..| |].
  { split; [|done]. intros _. split; [|done]. intros [?|?]; [lia|congruence]. }
  intros m Hm. rewrite (C m Hm). unfold consumed. cbn [base used].
  rewrite Z.lor_spec, Z.shiftl_1_l, orb_true_iff, Z.pow2_bits_eqb, Z.eqb_eq by lia.
  cbn. intuition lia.
Qed.

(** [C29] Exactly once: whatever sequence of nonces is tried, in any order, no
    nonce is accepted twice and none that was consumed before is accepted; every
    nonce of the initial window that was not consumed is accepted when it is
    tried.  This holds up to the last nonce [u64::MAX]. *)
Theorem nonce_exactly_once (ns : NonceState) (l : list Z) :
  wf_nonce ns -> Forall (in_range u64) l ->
  NoDup (accepted ns l) /\
  (forall n, n ∈ accepted ns l -> n ∈ l /\ ~ consumed ns n) /\
  (forall n, n ∈ l -> ~ consumed ns n -> n < base ns + 16 -> n ∈ accepted ns l).
Proof.
  intros W Hl. revert ns W. induction Hl as [|a l Ha Hl IH]; intros ns W; cbn [accepted].
  { split_and!; [constructor|set_solver..]. }
  pose proof (use_nonce_spec ns a W Ha) as H. destruct (use_nonce a ns) as [ns' r].
  destruct H as (W' & B & Hok & C). destruct (IH ns' W') as (D & I & K).
  rewrite Forall_forall in Hl.
  assert (forall n, n ∈ accepted ns' l -> n ∈ l /\ ~ consumed ns n /\ (is_ok r = true -> n <> a)) as I'.
  { intros n Hn. destruct (I n Hn) as [Hnl Hc]. rewrite (C n (Hl n Hnl)) in Hc.
    split_and!; [done|tauto|]. intros Hr ->. tauto. }
  split_and!.
  - destruct (is_ok r) eqn:Er; [|done]. cbn. constructor; [|done].
    intros Hin. destruct (I' a Hin) as (_ & _ & Hne). by apply Hne.
  - intros n [Hn|Hn]%elem_of_app.
    + destruct (is_ok r); [|by apply not_elem_of_nil in Hn].
      apply list_elem_of_singleton in Hn as ->. split; [by left|tauto].
    + destruct (I' n Hn) as (? & ? & _). split; [by right|done].
  - intros n Hn Hc Hw. apply elem_of_app. destruct (decide (n = a /\ is_ok r = true)) as [[-> Er]|Hne].
    { left. rewrite Er. by apply list_elem_of_singleton. }
    right. apply elem_of_cons in Hn as [->|Hn]; [tauto|].
    apply K; [done|rewrite (C n (Hl n Hn)); tauto|lia].
Qed.

Lemma nonce_exactly_once_witness :
  accepted (with_base (2 ^ 64 - 2)) [2 ^ 64 - 1; 2 ^ 64 - 1; 2 ^ 64 - 2; 2 ^ 64 - 1; 2 ^ 64 - 2]
    = [2 ^ 64 - 1; 2 ^ 64 - 2] /\
  NoDup (accepted (with_base (2 ^ 64 - 2)) [2 ^ 64 - 1; 2 ^ 64 - 1; 2 ^ 64 - 2]).
Proof.
  split; [vm_compute; reflexivity|].
  apply (nonce_exactly_once (with_base (2 ^ 64 - 2)) [2 ^ 64 - 1; 2 ^ 64 - 1; 2 ^ 64 - 2]).
  - split; [split; [discriminate|reflexivity]|]. split; [split; [discriminate|reflexivity]|by left].
  - repeat (constructor; [split; [discriminate|reflexivity]|]). constructor.
Defined.

(** The stored form of a window is read back, whatever follows it. *)
Lemma NonceState_bytes (ns : NonceState) (rest : list Z) :
  in_range u64 (base ns) -> in_range u16 (used ns) ->
  NonceState_from_bytes (NonceState_to_bytes ns ++ rest) = Some ns.
Proof.
  intros Hb Hu. unfold NonceState_from_bytes, NonceState_to_bytes. rewrite <- app_assoc.
  destruct (Z.ltb_spec (len (le_encode 8 (base ns) ++ le_encode 2 (used ns) ++ rest)) 10) as [L|_].
  { unfold len in L. rewrite !length_app, !length_le_encode in L. lia. }
  wire. rewrite !le_decode_encode by done. by destruct ns.
Qed.
