(* ===== verification/Account.v ===== *)
(** * Accounts ([crates/account/src/{address,types,auth}.rs])

    Address derivation and formatting, the account record with its byte format,
    and signature validation.  Formats round-trip, derived addresses are
    separated up to collisions of the sponge, and a multisig account authorises
    a message exactly with enough valid signatures of different keys. *)

From stdpp Require Import base numbers list option gmap.
From Stdlib Require Import ZArith Lia.
From S2P Require Import Prelude Wire Crypto Keys.

#[local] Open Scope Z_scope.

(** ** [address.rs] *)

Section Addresses.
Context {P : Primitives}.

Definition derive_eoa_address (falcon_public_key : list Z) : Address :=
  poseidon2_hash falcon_public_key.

Definition derive_create_address (deployer : Address) (nonce : Z) : Address :=
  poseidon2_hash (deployer ++ le_encode 8 nonce).

Definition derive_create2_address (deployer salt code : list Z) : Address :=
  let code_hash := poseidon2_hash code in
  poseidon2_hash ([0xFF] ++ deployer ++ salt ++ code_hash).

(** [b"pyde-treasury"] and [b"pyde-airdrop-pool"] *)
Definition TREASURY_LABEL : list Z := [112; 121; 100; 101; 45; 116; 114; 101; 97; 115; 117; 114; 121].
Definition AIRDROP_POOL_LABEL : list Z :=
  [112; 121; 100; 101; 45; 97; 105; 114; 100; 114; 111; 112; 45; 112; 111; 111; 108].

Definition treasury_address : Address := poseidon2_hash TREASURY_LABEL.
Definition airdrop_pool_address : Address := poseidon2_hash AIRDROP_POOL_LABEL.
End Addresses.

(** Strings are their UTF-8 bytes.  [{:02x}] of a byte. *)
Definition hex_digit (d : Z) : Z := if d <? 10 then 48 + d else 87 + d.
Definition hex_byte (b : Z) : list Z := [hex_digit (b / 16); hex_digit (b mod 16)].

Definition format_address (addr : Address) : list Z := [48; 120] ++ concat (hex_byte <$> addr).

(** [char::to_digit(16)] *)
Definition to_digit_16 (c : Z) : option Z :=
  if (48 <=? c) && (c <=? 57) then Some (c - 48)
  else if (97 <=? c) && (c <=? 102) then Some (c - 87)
  else if (65 <=? c) && (c <=? 70) then Some (c - 55)
  else None.

(** [u8::from_str_radix(s, 16)] of a string of two bytes: a leading plus sign is
    accepted before a digit. *)
Definition from_str_radix_16 (c0 c1 : Z) : option Z :=
  if c0 =? 43 then to_digit_16 c1
  else match to_digit_16 c0, to_digit_16 c1 with
       | Some d0, Some d1 => Some (16 * d0 + d1)
       | _, _ => None
       end.

(** A byte index where a character of the string starts; slicing elsewhere
    panics. *)
Definition is_char_boundary (i : nat) (s : list Z) : bool :=
  match s !! i with
  | Some b => negb ((128 <=? b) && (b <? 192))
  | None => Nat.eqb i (length s)
  end.

Inductive ParsedAddress : Type := Parsed (a : Address) | Rejected | Panicked.

Fixpoint parse_pairs (i n : nat) (hex : list Z) : ParsedAddress :=
  match n with
  | O => Parsed []
  | S n' =>
      if is_char_boundary (2 * i) hex && is_char_boundary (2 * i + 2) hex then
        match from_str_radix_16 (byte_at (2 * i) hex) (byte_at (2 * i + 1) hex) with
        | Some b =>
            match parse_pairs (S i) n' hex with Parsed a => Parsed (b :: a) | r => r end
        | None => Rejected
        end
      else Panicked
  end.

Definition strip_prefix_0x (s : list Z) : list Z :=
  match s with 48 :: 120 :: rest => rest | _ => s end.

Definition parse_address (s : list Z) : ParsedAddress :=
  let hex := strip_prefix_0x s in
  if negb (len hex =? 64) then Rejected else parse_pairs 0 32 hex.

(** ** [types.rs] *)

Inductive AccountType : Type := EOA | Contract | System.

#[global] Instance AccountType_eq_dec : EqDecision AccountType.
Proof. solve_decision. Defined.

Definition AccountType_from_u8 (v : Z) : option AccountType :=
  if v =? 0 then Some EOA else if v =? 1 then Some Contract else if v =? 2 then Some System else None.

(** [account_type as u8] *)
Definition AccountType_u8 (t : AccountType) : Z :=
  match t with EOA => 0 | Contract => 1 | System => 2 end.

Inductive AuthKeys : Type :=
| NoAuth
| Single (pk : list Z)
| MultiSig (keys : list (list Z)) (threshold : Z).

#[global] Instance AuthKeys_eq_dec : EqDecision AuthKeys.
Proof. solve_decision. Defined.

Definition AuthKeys_to_bytes (k : AuthKeys) : list Z :=
  match k with
  | NoAuth => [0x00]
  | Single pk => [0x01] ++ write_prefixed 4 pk
  | MultiSig keys threshold =>
      [0x02] ++ le_encode 4 threshold ++ le_encode 4 (len keys) ++ concat (write_prefixed 4 <$> keys)
  end.

(** The key loop reads with a cursor; bytes after the last key are ignored.
    Sorting the keys and comparing neighbours finds exactly the duplicates. *)
Definition AuthKeys_from_bytes (data : list Z) : option AuthKeys :=
  match data with
  | [] => None
  | tag :: _ =>
      if tag =? 0x00 then Some NoAuth
      else if tag =? 0x01 then
        if len data <? 5 then None
        else
          let n := le_at 1 4 data in
          if len data <? 5 + n then None else Some (Single (slice 5 (Z.to_nat n) data))
      else if tag =? 0x02 then
        if len data <? 9 then None
        else
          let threshold := le_at 1 4 data in
          let num_keys := le_at 5 4 data in
          match read_many (read_prefixed 4) (Z.to_nat num_keys) (drop 9 data) with
          | Some (keys, _) => if bool_decide (NoDup keys) then Some (MultiSig keys threshold) else None
          | None => None
          end
      else None
  end.

Record Account : Type := mkAccount {
  address : Address;
  nonce : Z;
  balance : Z;
  code_hash : list Z;
  storage_root : list Z;
  account_type : AccountType;
  auth_keys : AuthKeys;
  gas_tank : Z;
  key_nonce : Z
}.

(** [H256::zero()] *)
Definition H256_zero : list Z := replicate 32 0.

Section Constructors.
Context {P : Primitives}.

Definition new_eoa (falcon_public_key : list Z) : Account :=
  mkAccount (derive_address falcon_public_key) 0 0 H256_zero H256_zero EOA
    (Single falcon_public_key) 0 0.

Definition new_contract (addr : Address) (code : list Z) : Account :=
  mkAccount addr 0 0 (poseidon2_hash code) H256_zero Contract NoAuth 0 0.

Definition new_system (addr : Address) : Account :=
  mkAccount addr 0 0 H256_zero H256_zero System NoAuth 0 0.
End Constructors.

Definition Account_to_bytes (a : Account) : list Z :=
  let auth_bytes := AuthKeys_to_bytes (auth_keys a) in
  address a ++ le_encode 8 (nonce a) ++ le_encode 16 (balance a) ++ code_hash a ++ storage_root a ++
  [AccountType_u8 (account_type a)] ++ le_encode 16 (gas_tank a) ++ le_encode 4 (key_nonce a) ++
  le_encode 4 (len auth_bytes) ++ auth_bytes.

Definition Account_from_bytes (data : list Z) : option Account :=
  if len data <? 145 then None
  else
    match AccountType_from_u8 (byte_at 120 data) with
    | None => None
    | Some ty =>
        let auth_len := le_at 141 4 data in
        if len data <? 145 + auth_len then None
        else
          match AuthKeys_from_bytes (slice 145 (Z.to_nat auth_len) data) with
          | None => None
          | Some auth =>
              Some (mkAccount (slice 0 32 data) (le_at 32 8 data) (le_at 40 16 data)
                      (slice 56 32 data) (slice 88 32 data) ty auth (le_at 121 16 data)
                      (le_at 137 4 data))
          end
    end.

Definition is_eoa (a : Account) : bool := bool_decide (account_type a = EOA).
Definition is_contract (a : Account) : bool := bool_decide (account_type a = Contract).
Definition is_system (a : Account) : bool := bool_decide (account_type a = System).

(** ** [auth.rs] *)

Inductive AuthResult : Type := Valid | Invalid | NoKeys | CustomValidation.

#[global] Instance AuthResult_eq_dec : EqDecision AuthResult.
Proof. solve_decision. Defined.

Section Auth.
Context {P : Primitives}.

(** The loop over the keys: stops when the signatures end, skips empty
    signatures and keys that were counted before. *)
Fixpoint count_multisig (message : list Z) (keys signatures : list (list Z))
    (counted : gset (list Z)) (valid_count : Z) : Z :=
  match keys, signatures with
  | pk_bytes :: keys', sig :: signatures' =>
      match sig with
      | [] => count_multisig message keys' signatures' counted valid_count
      | _ =>
          if bool_decide (pk_bytes ∈ counted) then
            count_multisig message keys' signatures' counted valid_count
          else
            count_multisig message keys' signatures' ({[pk_bytes]} ∪ counted)
              (if verifies pk_bytes message sig then valid_count + 1 else valid_count)
      end
  | _, _ => valid_count
  end.

Definition validate_signature (account : Account) (message : list Z) (signatures : list (list Z)) :
    AuthResult :=
  if negb (bool_decide (code_hash account = H256_zero)) && is_contract account then CustomValidation
  else
    match auth_keys account with
    | NoAuth => NoKeys
    | Single pk_bytes =>
        match signatures with
        | [] => Invalid
        | sig :: _ => if verifies pk_bytes message sig then Valid else Invalid
        end
    | MultiSig keys threshold =>
        if len signatures <? threshold then Invalid
        else if threshold <=? count_multisig message keys signatures ∅ 0 then Valid
        else Invalid
    end.

Definition rotate_keys (account : Account) (new_keys : AuthKeys) (current_sig : list (list Z))
    (rotation_message : list Z) : option Account :=
  if negb (bool_decide (validate_signature account rotation_message current_sig = Valid)) then None
  else Some (mkAccount (address account) (nonce account) (balance account) (code_hash account)
               (storage_root account) (account_type account) new_keys (gas_tank account)
               (wrap u32 (key_nonce account + 1))).

(** [b"key_rotation"] *)
Definition ROTATION_LABEL : list Z := [107; 101; 121; 95; 114; 111; 116; 97; 116; 105; 111; 110].

Definition build_rotation_message (account : Account) (new_keys : AuthKeys) : list Z :=
  poseidon2_hash (ROTATION_LABEL ++ address account ++ le_encode 4 (key_nonce account) ++
                  AuthKeys_to_bytes new_keys).
End Auth.

(** ** Formatted addresses are parsed back *)

Lemma hex_digit_parses (d : Z) : 0 <= d < 16 -> to_digit_16 (hex_digit d) = Some d.
Proof.
  intros H. unfold hex_digit, to_digit_16. destruct (Z.ltb_spec d 10).
  - destruct (Z.leb_spec 48 (48 + d)), (Z.leb_spec (48 + d) 57); try lia. cbn. f_equal. lia.
  - destruct (Z.leb_spec 48 (87 + d)), (Z.leb_spec (87 + d) 57); try lia.
    destruct (Z.leb_spec 97 (87 + d)), (Z.leb_spec (87 + d) 102); try lia. cbn. f_equal. lia.
Qed.

Lemma hex_byte_digits (b : Z) :
  byte_ok b ->
  exists c0 c1, hex_byte b = [c0; c1] /\ from_str_radix_16 c0 c1 = Some b /\ 48 <= c0 < 103 /\ 48 <= c1 < 103.
Proof.
  intros H. unfold byte_ok in H. eexists _, _. split; [reflexivity|].
  assert (0 <= b / 16 < 16 /\ 0 <= b mod 16 < 16) as [H0 H1] by lia_pow.
  assert (forall d, 0 <= d < 16 -> 48 <= hex_digit d < 103) as Hd.
  { intros d ?. unfold hex_digit. destruct (Z.ltb_spec d 10); lia. }
  split_and!; try by apply Hd. unfold from_str_radix_16.
  destruct (Z.eqb_spec (hex_digit (b / 16)) 43) as [E|_]; [pose proof (Hd _ H0); lia|].
  rewrite !hex_digit_parses by done. f_equal. lia_pow.
Qed.

Lemma hex_concat_lookup (a : list Z) (i : nat) (b : Z) :
  a !! i = Some b -> slice (2 * i) 2 (concat (hex_byte <$> a)) = hex_byte b.
Proof.
  revert i. induction a as [|x a IH]; intros [|i] E; try done.
  - injection E as <-. unfold slice. by rewrite drop_0.
  - cbn [fmap list_fmap concat]. rewrite slice_skip by (cbn; lia).
    replace (2 * S i - length (hex_byte x))%nat with (2 * i)%nat by (cbn; lia). by apply IH.
Qed.

Lemma hex_concat_length (a : list Z) : length (concat (hex_byte <$> a)) = (2 * length a)%nat.
Proof. induction a as [|x a IH]; [done|]. cbn. cbn in IH. rewrite IH. lia. Qed.

Lemma slice_pair (i : nat) (s : list Z) (c0 c1 : Z) :
  slice i 2 s = [c0; c1] -> s !! i = Some c0 /\ s !! S i = Some c1.
Proof.
  intros E. unfold slice in E. split.
  - rewrite <- (Nat.add_0_r i), <- lookup_drop, <- (lookup_take_lt _ 2) by lia. by rewrite E.
  - rewrite <- Nat.add_1_r, <- lookup_drop, <- (lookup_take_lt _ 2) by lia. by rewrite E.
Qed.

Lemma parse_pairs_hex (a : list Z) (i n : nat) :
  bytes_ok a -> (i + n = length a)%nat ->
  parse_pairs i n (concat (hex_byte <$> a)) = Parsed (drop i a).
Proof.
  intros Ha. set (hex := concat (hex_byte <$> a)).
  assert (length hex = 2 * length a)%nat as Lh by apply hex_concat_length.
  assert (forall j b, a !! j = Some b -> exists c0 c1, hex !! (2 * j)%nat = Some c0 /\
    hex !! (2 * j + 1)%nat = Some c1 /\ from_str_radix_16 c0 c1 = Some b /\ 48 <= c0 < 103) as Hj.
  { intros j b Ej. destruct (hex_byte_digits b) as (c0 & c1 & Eb & Hr & H0 & _).
    { by eapply Forall_lookup_1. }
    pose proof (hex_concat_lookup a j b Ej) as Es. rewrite Eb in Es. apply slice_pair in Es as [E0 E1].
    exists c0, c1. split_and!; try done; [by rewrite Nat.add_1_r|lia..]. }
  assert (forall j, (j <= length a)%nat -> is_char_boundary (2 * j) hex = true) as Hb.
  { intros j Hjl. unfold is_char_boundary. destruct (decide (j = length a)) as [->|].
    - rewrite lookup_ge_None_2 by lia. apply Nat.eqb_eq. lia.
    - destruct (lookup_lt_is_Some_2 a j) as [b Eb]; [lia|]. destruct (Hj j b Eb) as (c0 & _ & -> & _ & _ & R).
      apply negb_true_iff, andb_false_iff. left. apply Z.leb_gt. lia. }
  revert i. induction n as [|n IH]; intros i Hi; cbn [parse_pairs].
  { by rewrite drop_ge by lia. }
  destruct (lookup_lt_is_Some_2 a i) as [b Eb]; [lia|]. destruct (Hj i b Eb) as (c0 & c1 & E0 & E1 & Hr & _).
  replace (2 * i + 2)%nat with (2 * S i)%nat by lia.
  rewrite !Hb by lia. unfold byte_at. cbn [andb].
  rewrite E0, E1. cbn [default from_option id]. rewrite Hr, IH by lia. by rewrite (drop_S _ b i Eb).
Qed.

(** Formatting an address and parsing the text gives the address back, with
    and without its prefix. *)
Theorem parse_format_address (a : Address) :
  address_ok a ->
  parse_address (format_address a) = Parsed a /\ parse_address (drop 2 (format_address a)) = Parsed a.
Proof.
  intros [L B]. pose proof (parse_pairs_hex a 0 32 B ltac:(lia)) as Hp. rewrite drop_0 in Hp.
  pose proof (hex_concat_length a) as Lh. rewrite L in Lh.
  assert (forall s, strip_prefix_0x s = concat (hex_byte <$> a) -> parse_address s = Parsed a) as H.
  { intros s E. unfold parse_address. rewrite E. unfold len. by rewrite Lh. }
  split; [by apply H|]. apply H. unfold format_address. change (drop 2 _) with (concat (hex_byte <$> a)).
  destruct a as [|b a]; [done|]. destruct (hex_byte_digits b) as (c0 & c1 & Eb & _ & _ & R1).
  { by inversion B. }
  cbn [fmap list_fmap concat]. rewrite Eb. unfold strip_prefix_0x. cbn [app].
  assert (c1 <> 120) as Hx by lia. repeat (case_match; try done); congruence.
Qed.

Lemma parse_format_address_witness :
  parse_address (format_address (replicate 32 0xAB)) = Parsed (replicate 32 0xAB).
Proof.
  refine (proj1 (parse_format_address (replicate 32 0xAB) _)).
  split; [reflexivity|]. by apply Forall_replicate.
Defined.

(** ** Byte formats *)

(** Keys whose lengths and count fit the 32-bit fields; a multisig slate has no
    duplicates. *)
Definition wf_auth (k : AuthKeys) : Prop :=
  match k with
  | NoAuth => True
  | Single pk => len pk < 2 ^ 32
  | MultiSig keys threshold =>
      in_range u32 threshold /\ len keys < 2 ^ 32 /\ NoDup keys /\ Forall (fun pk => len pk < 2 ^ 32) keys
  end.

Record wf_account (a : Account) : Prop := {
  wa_address : length (address a) = 32%nat;
  wa_nonce : in_range u64 (nonce a);
  wa_balance : in_range u128 (balance a);
  wa_code_hash : length (code_hash a) = 32%nat;
  wa_storage_root : length (storage_root a) = 32%nat;
  wa_auth : wf_auth (auth_keys a);
  wa_auth_len : len (AuthKeys_to_bytes (auth_keys a)) < 2 ^ 32;
  wa_gas_tank : in_range u128 (gas_tank a);
  wa_key_nonce : in_range u32 (key_nonce a)
}.

Lemma AuthKeys_bytes (k : AuthKeys) (rest : list Z) :
  wf_auth k -> AuthKeys_from_bytes (AuthKeys_to_bytes k ++ rest) = Some k.
Proof.
  destruct k as [|pk|keys threshold]; cbn [wf_auth AuthKeys_to_bytes]; [done|intros Hpk|intros (Ht & Hn & Hd & Hk)].
  - unfold write_prefixed. rewrite <- !app_assoc. set (d := [1] ++ _).
    assert (le_at 1 4 d = len pk) as E1. { apply (le_at_write 1 4 _ [1]); [done|unfold len in *; lia]. }
    assert (slice 5 (length pk) d = pk) as E2. { unfold d. by wire. }
    assert (len d = 5 + len pk + len rest) as L.
    { unfold d, len. rewrite !length_app, length_le_encode. cbn. lia. }
    unfold AuthKeys_from_bytes. rewrite E1, L. change d with (1 :: (le_encode 4 (len pk) ++ pk ++ rest)).
    cbn [Z.eqb Pos.eqb]. unfold len. rewrite Nat2Z.id. fold d.
    destruct (Z.ltb_spec (5 + Z.of_nat (length pk) + Z.of_nat (length rest)) 5); [lia|].
    destruct (Z.ltb_spec (5 + Z.of_nat (length pk) + Z.of_nat (length rest)) (5 + Z.of_nat (length pk))); [lia|].
    by change (1 :: _) with d; rewrite E2.
  - rewrite <- !app_assoc. set (body := concat _ ++ rest). set (d := [2] ++ _).
    assert (le_at 1 4 d = threshold) as E1 by by apply (le_at_write 1 4 _ [2]).
    assert (le_at 5 4 d = len keys) as E2.
    { unfold d. rewrite app_assoc. apply le_at_write; [wire_len|unfold len in *; lia]. }
    assert (drop 9 d = body) as E3. { unfold d. by wire. }
    assert (9 <= len d) as L. { unfold d, len. rewrite !length_app, !length_le_encode. cbn. lia. }
    unfold AuthKeys_from_bytes. rewrite E1, E2, E3. unfold d at 1. cbn [app Z.eqb Pos.eqb].
    destruct (Z.ltb_spec (len d) 9); [lia|]. unfold len. rewrite Nat2Z.id. unfold body.
    rewrite read_many_write. { by rewrite bool_decide_true. }
    intros pk r Hpk. apply read_prefixed_write. rewrite Forall_forall in Hk. by apply Hk.
Qed.

Lemma Account_bytes (a : Account) (rest : list Z) :
  wf_account a -> Account_from_bytes (Account_to_bytes a ++ rest) = Some a.
Proof.
  intros []. unfold Account_from_bytes. set (d := Account_to_bytes a ++ rest).
  set (auth := AuthKeys_to_bytes (auth_keys a)) in *.
  assert (d = address a ++ le_encode 8 (nonce a) ++ le_encode 16 (balance a) ++ code_hash a ++
    storage_root a ++ [AccountType_u8 (account_type a)] ++ le_encode 16 (gas_tank a) ++
    le_encode 4 (key_nonce a) ++ le_encode 4 (len auth) ++ auth ++ rest) as Ed.
  { unfold d, Account_to_bytes. cbv zeta. fold auth. by rewrite <- !app_assoc. }
  assert (len d = 145 + len auth + len rest) as Ld.
  { rewrite Ed. unfold len. rewrite !length_app, !length_le_encode, wa_address0, wa_code_hash0,
      wa_storage_root0. cbn [length]. lia. }
  clearbody d. pose proof (le_decode_encode 4 (len auth)) as El.
  rewrite Ld, Ed. wire. rewrite !le_decode_encode by (done || unfold len in *; lia).
  unfold len in *. rewrite Nat2Z.id. wire.
  destruct (Z.ltb_spec (145 + Z.of_nat (length auth) + Z.of_nat (length rest)) 145); [lia|].
  destruct (Z.ltb_spec (145 + Z.of_nat (length auth) + Z.of_nat (length rest)) (145 + Z.of_nat (length auth))); [lia|].
  assert (AccountType_from_u8 (AccountType_u8 (account_type a)) = Some (account_type a)) as ->
    by by destruct (account_type a).
  rewrite <- (app_nil_r auth). unfold auth. rewrite AuthKeys_bytes by done. by destruct a.
Qed.

(** Storage round trip: the bytes of an account are read back as the same
    account, whatever follows them in the buffer. *)
Theorem account_roundtrip (a : Account) (rest : list Z) :
  wf_account a -> Account_from_bytes (Account_to_bytes a ++ rest) = Some a.
Proof. apply Account_bytes. Qed.

Lemma account_roundtrip_witness :
  Account_from_bytes (Account_to_bytes (new_eoa [1; 2; 3]) ++ [9]) = Some (new_eoa [1; 2; 3]).
Proof.
  apply account_roundtrip.
  split; try reflexivity; try (split; [discriminate|reflexivity]).
Defined.

Lemma AuthKeys_to_bytes_inj (k1 k2 : AuthKeys) :
  wf_auth k1 -> wf_auth k2 -> AuthKeys_to_bytes k1 = AuthKeys_to_bytes k2 -> k1 = k2.
Proof.
  intros W1 W2 E. apply (f_equal AuthKeys_from_bytes) in E.
  rewrite <- (app_nil_r (AuthKeys_to_bytes k1)), <- (app_nil_r (AuthKeys_to_bytes k2)) in E.
  rewrite !AuthKeys_bytes in E by done. congruence.
Qed.

(** ** Multisig authorisation *)

Section Multisig.
Context {P : Primitives}.

(** A key that signed: it stands in the slate next to a signature it verifies. *)
Definition signed_by (message : list Z) (keys signatures : list (list Z)) (k : list Z) : Prop :=
  exists i s, keys !! i = Some k /\ signatures !! i = Some s /\ verifies k message s = true.

Definition valid_pairs (message : list Z) (keys signatures : list (list Z)) : list (list Z * list Z) :=
  filter (fun p => verifies p.1 message p.2 = true) (zip keys signatures).

Lemma signed_by_cons (message k s : list Z) (keys sigs : list (list Z)) (k' : list Z) :
  signed_by message keys sigs k' -> signed_by message (k :: keys) (s :: sigs) k'.
Proof. intros (i & s' & ?). by exists (S i), s'. Qed.

Lemma count_multisig_sound (message : list Z) (keys sigs : list (list Z)) (counted : gset (list Z)) (n : Z) :
  exists ks, count_multisig message keys sigs counted n = n + len ks /\ NoDup ks /\
    forall k, k ∈ ks -> (k ∉ counted) /\ signed_by message keys sigs k.
Proof.
  revert sigs counted n. induction keys as [|k keys IH]; intros [|s sigs] counted n;
    try (exists []; split_and!; [unfold len; cbn; lia|constructor|by intros ? ?%not_elem_of_nil]).
  assert (forall counted n, exists ks, count_multisig message keys sigs counted n = n + len ks /\
    NoDup ks /\ forall k', k' ∈ ks -> (k' ∉ counted) /\ signed_by message (k :: keys) (s :: sigs) k') as Hrec.
  { intros c m. destruct (IH sigs c m) as (ks & E & D & H). exists ks. split_and!; try done.
    intros k' Hk'. destruct (H k' Hk'). split; [done|by apply signed_by_cons]. }
  cbn [count_multisig]. destruct s as [|b s]; [apply Hrec|].
  case_bool_decide as Hc; [apply Hrec|].
  destruct (verifies k message (b :: s)) eqn:Ev.
  - destruct (Hrec ({[k]} ∪ counted) (n + 1)) as (ks & E & D & H). exists (k :: ks).
    split_and!; [rewrite E; unfold len; cbn; lia| |].
    + constructor; [|done]. intros Hk. destruct (H k Hk) as [Hn _]. set_solver.
    + intros k' [->|Hk']%elem_of_cons; [split; [done|by exists 0%nat, (b :: s)]|].
      destruct (H k' Hk'). split; [set_solver|done].
  - destruct (Hrec ({[k]} ∪ counted) n) as (ks & E & D & H). exists ks. split_and!; try done.
    intros k' Hk'. destruct (H k' Hk'). split; [set_solver|done].
Qed.

Lemma count_multisig_complete (message : list Z) (keys sigs : list (list Z)) (counted : gset (list Z)) (n : Z) :
  NoDup keys -> (forall k, k ∈ keys -> k ∉ counted) ->
  count_multisig message keys sigs counted n = n + len (valid_pairs message keys sigs).
Proof.
  intros D. revert sigs counted n. induction D as [|k keys Hk D IH]; intros [|s sigs] counted n Hd;
    try (unfold valid_pairs, len; cbn; lia).
  unfold valid_pairs. change (zip (k :: keys) (s :: sigs)) with ((k, s) :: zip keys sigs).
  rewrite filter_cons. cbn [fst snd count_multisig]. fold (valid_pairs message keys sigs).
  destruct s as [|b s].
  - assert (verifies k message [] = false) as -> by (unfold verifies; by case_match).
    cbn. apply IH. set_solver.
  - rewrite bool_decide_false by (apply Hd; by left).
    rewrite IH by set_solver. case_decide as E.
    + rewrite E. unfold len. cbn. lia.
    + by apply not_true_iff_false in E as ->.
Qed.

(** A multisig account authorises a message only if at least [threshold]
    different keys of its slate have a verifying signature at their position,
    even when the slate repeats keys; and when the slate has no repeats, enough
    such signatures are always accepted. *)
Theorem multisig_threshold (a : Account) (keys : list (list Z)) (threshold : Z)
    (message : list Z) (sigs : list (list Z)) :
  is_contract a = false -> auth_keys a = MultiSig keys threshold ->
  (validate_signature a message sigs = Valid ->
     exists ks, NoDup ks /\ threshold <= len ks /\ forall k, k ∈ ks -> signed_by message keys sigs k) /\
  (NoDup keys -> threshold <= len (valid_pairs message keys sigs) ->
     validate_signature a message sigs = Valid).
Proof.
  intros Hc Ha. unfold validate_signature. rewrite Hc, andb_false_r, Ha. split.
  - destruct (count_multisig_sound message keys sigs ∅ 0) as (ks & -> & D & H). intros Hv.
    exists ks. split_and!; [done| |intros k Hk; by apply H].
    destruct (len sigs <? threshold); [done|]. destruct (Z.leb_spec threshold (0 + len ks)); [lia|done].
  - intros D Ht. rewrite count_multisig_complete by (done || set_solver).
    assert (len (valid_pairs message keys sigs) <= len sigs) as Hl.
    { unfold len, valid_pairs. pose proof (length_filter (fun p => verifies p.1 message p.2 = true) (zip keys sigs)).
      rewrite length_zip in *. lia. }
    destruct (Z.ltb_spec (len sigs) threshold); [lia|].
    by destruct (Z.leb_spec threshold (0 + len (valid_pairs message keys sigs))); [|lia].
Qed.
End Multisig.

Lemma multisig_threshold_witness :
  let keys := [replicate 897 1; replicate 897 2] in
  let a := mkAccount ZERO_ADDRESS 0 0 H256_zero H256_zero EOA (MultiSig keys 1) 0 0 in
  validate_signature a [7] [[]; 7 :: replicate 600 0] = Valid.
Proof.
  intros keys a.
  apply (proj2 (multisig_threshold a keys 1 [7] [[]; 7 :: replicate 600 0] eq_refl eq_refl)).
  - constructor; [|constructor; [apply not_elem_of_nil|constructor]].
    intros H. apply list_elem_of_singleton in H. discriminate H.
  - vm_compute. discriminate.
Defined.

(** A threshold of zero, which the byte format accepts, authorises every
    message without a signature. *)
Theorem zero_threshold_authorises_everything {P : Primitives} (a : Account) (keys : list (list Z))
    (message : list Z) (sigs : list (list Z)) :
  is_contract a = false -> auth_keys a = MultiSig keys 0 ->
  validate_signature a message sigs = Valid /\
  (wf_auth (auth_keys a) -> AuthKeys_from_bytes (AuthKeys_to_bytes (auth_keys a)) = Some (auth_keys a)).
Proof.
  intros Hc Ha. unfold validate_signature. rewrite Hc, andb_false_r, Ha. split.
  - destruct (count_multisig_sound message keys sigs ∅ 0) as (ks & -> & _). unfold len.
    destruct (Z.ltb_spec (Z.of_nat (length sigs)) 0); [lia|].
    by destruct (Z.leb_spec 0 (0 + Z.of_nat (length ks))); [|lia].
  - intros W. rewrite <- (app_nil_r (AuthKeys_to_bytes _)). by apply AuthKeys_bytes.
Qed.

Lemma zero_threshold_authorises_everything_witness :
  validate_signature (mkAccount ZERO_ADDRESS 0 0 H256_zero H256_zero EOA (MultiSig [] 0) 0 0) [7] [] = Valid.
Proof.
  exact (proj1 (zero_threshold_authorises_everything
    (mkAccount ZERO_ADDRESS 0 0 H256_zero H256_zero EOA (MultiSig [] 0) 0 0) [] [7] [] eq_refl eq_refl)).
Defined.

(** ** Derived addresses and rotation messages are separated *)

(** The ways an address comes into being. *)
Inductive origin : Type :=
| OEoa (pk : list Z)
| OCreate (deployer : Address) (nonce : Z)
| OCreate2 (deployer salt code : list Z)
| OTreasury
| OAirdropPool.

Section Origins.
Context {P : Primitives} {POk : PrimitivesOk P}.

Definition address_of (o : origin) : Address :=
  match o with
  | OEoa pk => derive_eoa_address pk
  | OCreate d n => derive_create_address d n
  | OCreate2 d s c => derive_create2_address d s c
  | OTreasury => treasury_address
  | OAirdropPool => airdrop_pool_address
  end.

Definition origin_preimage (o : origin) : list Z :=
  match o with
  | OEoa pk => pk
  | OCreate d n => d ++ le_encode 8 n
  | OCreate2 d s c => [0xFF] ++ d ++ s ++ poseidon2_hash c
  | OTreasury => TREASURY_LABEL
  | OAirdropPool => AIRDROP_POOL_LABEL
  end.

(** FALCON keys have 897 bytes, addresses and salts 32. *)
Definition wf_origin (o : origin) : Prop :=
  match o with
  | OEoa pk => length pk = 897%nat /\ bytes_ok pk
  | OCreate d n => address_ok d /\ in_range u64 n
  | OCreate2 d s c => address_ok d /\ address_ok s /\ alloc_ok c
  | _ => True
  end.

(** The byte strings hashed to derive an address. *)
Definition origin_inputs (o : origin) : list (list Z) :=
  match o with OCreate2 _ _ c => [origin_preimage o; c] | _ => [origin_preimage o] end.

Lemma origin_alloc (o : origin) : wf_origin o -> alloc_ok (origin_preimage o).
Proof.
  destruct o as [pk|d n|d s c| |]; cbn [wf_origin origin_preimage].
  - intros [L B]. split; [done|]. unfold len. rewrite L. done.
  - intros [[L B] _]. split; [apply Forall_app; split; [done|apply le_encode_bytes]|].
    unfold len. rewrite length_app, length_le_encode, L. done.
  - intros ([L1 B1] & [L2 B2] & _). pose proof (poseidon2_hash_bytes c).
    split; [constructor; [done|]; apply Forall_app; split; [done|]; by apply Forall_app|].
    unfold len. rewrite !length_app, L1, L2, poseidon2_hash_length. done.
  - by split; [repeat constructor|].
  - by split; [repeat constructor|].
Qed.

Lemma origin_length (o : origin) :
  wf_origin o ->
  length (origin_preimage o) =
    match o with OEoa _ => 897 | OCreate _ _ => 40 | OCreate2 _ _ _ => 97 | OTreasury => 13 | OAirdropPool => 17 end%nat.
Proof.
  destruct o as [pk|d n|d s c| |]; cbn [wf_origin origin_preimage]; try done.
  - by intros [].
  - intros [[L _] _]. by rewrite length_app, length_le_encode, L.
  - intros ([L1 _] & [L2 _] & _). by rewrite !length_app, L1, L2, poseidon2_hash_length.
Qed.

(** Addresses of different origin (external accounts, CREATE, CREATE2, the
    treasury and the airdrop pool) differ, and so do those of the same origin
    with different parameters, unless the sponge collides on two byte strings
    hashed to derive them. *)
Theorem addresses_separated (o1 o2 : origin) :
  wf_origin o1 -> wf_origin o2 -> address_of o1 = address_of o2 ->
  o1 = o2 \/ exists d1 d2, d1 ∈ origin_inputs o1 /\ d2 ∈ origin_inputs o2 /\ sponge_collision d1 d2.
Proof.
  intros W1 W2 E.
  assert (forall o, origin_preimage o ∈ origin_inputs o) as Hin by (intros []; left).
  assert (poseidon2_hash (origin_preimage o1) = poseidon2_hash (origin_preimage o2)) as Eh by by destruct o1, o2.
  destruct (poseidon2_hash_eq _ _ (origin_alloc o1 W1) (origin_alloc o2 W2) Eh) as [Ep|C];
    [|right; by exists (origin_preimage o1), (origin_preimage o2)].
  pose proof (f_equal length Ep) as EL. rewrite !origin_length in EL by done.
  destruct o1 as [pk|d n|d s c| |], o2 as [pk'|d' n'|d' s' c'| |]; try discriminate EL; cbn [origin_preimage] in Ep;
    try (left; congruence).
  - destruct W1 as [[L1 _] R1], W2 as [[L2 _] R2]. left.
    apply app_inj_1 in Ep as [-> Ep]; [|congruence]. f_equal. by eapply (le_encode_inj 8).
  - destruct W1 as ([L1 _] & [L2 _] & A1), W2 as ([L3 _] & [L4 _] & A2). injection Ep as Ep.
    apply app_inj_1 in Ep as [-> Ep]; [|congruence]. apply app_inj_1 in Ep as [-> Ep]; [|congruence].
    destruct (poseidon2_hash_eq c c' A1 A2 Ep) as [->|C]; [by left|right].
    exists c, c'. split_and!; [do 2 constructor..|done].
Qed.

(** A byte string that leaves room for the fixed fields in front of it. *)
Definition small_bytes (b : list Z) : Prop := bytes_ok b /\ len b < 2 ^ 62.

(** A rotation message binds the account, its key nonce and the new keys:
    signatures for one rotation are signatures for another only if the two are
    the same or the sponge collides on the two messages. *)
Theorem rotation_message_binds (a1 a2 : Account) (k1 k2 : AuthKeys) :
  address_ok (address a1) -> address_ok (address a2) ->
  in_range u32 (key_nonce a1) -> in_range u32 (key_nonce a2) -> wf_auth k1 -> wf_auth k2 ->
  small_bytes (AuthKeys_to_bytes k1) -> small_bytes (AuthKeys_to_bytes k2) ->
  build_rotation_message a1 k1 = build_rotation_message a2 k2 ->
  (address a1 = address a2 /\ key_nonce a1 = key_nonce a2 /\ k1 = k2) \/
  sponge_collision
    (ROTATION_LABEL ++ address a1 ++ le_encode 4 (key_nonce a1) ++ AuthKeys_to_bytes k1)
    (ROTATION_LABEL ++ address a2 ++ le_encode 4 (key_nonce a2) ++ AuthKeys_to_bytes k2).
Proof.
  intros [L1 B1] [L2 B2] R1 R2 W1 W2 A1 A2 E.
  assert (forall a n k, length a = 32%nat -> bytes_ok a -> small_bytes (AuthKeys_to_bytes k) ->
    alloc_ok (ROTATION_LABEL ++ a ++ le_encode 4 n ++ AuthKeys_to_bytes k)) as Hal.
  { intros a n k L B [Bk Lk]. split.
    - apply Forall_app; split; [by repeat constructor|]. apply Forall_app; split; [done|].
      apply Forall_app; split; [apply le_encode_bytes|done].
    - unfold len in *. rewrite !length_app, length_le_encode, L in *. cbn. lia. }
  unfold build_rotation_message in E.
  destruct (poseidon2_hash_eq _ _ (Hal _ _ _ L1 B1 A1) (Hal _ _ _ L2 B2 A2) E) as [Ep|C]; [left|by right].
  apply app_inv_head in Ep. apply app_inj_1 in Ep as [-> Ep]; [|congruence].
  apply app_inj_1 in Ep as [En Ep]; [|by rewrite !length_le_encode].
  split_and!; [done|by eapply (le_encode_inj 4)|by apply AuthKeys_to_bytes_inj].
Qed.
End Origins.

Lemma addresses_separated_witness :
  let P := {| sponge := fun _ => [0; 0; 0; 0]; fn_dsa_verify := fun _ _ _ => false |} in
  exists d1 d2, d1 ∈ origin_inputs OTreasury /\ d2 ∈ origin_inputs (OCreate ZERO_ADDRESS 1) /\
    sponge_collision d1 d2.
Proof.
  intros P.
  assert (PrimitivesOk P) as PO.
  { split; [reflexivity|]. intros l.
    repeat (constructor; [split; [discriminate|reflexivity]|]). constructor. }
  destruct (addresses_separated OTreasury (OCreate ZERO_ADDRESS 1) I) as [E|C].
  - split; [split; [reflexivity|by apply Forall_replicate]|split; [discriminate|reflexivity]].
  - vm_compute. reflexivity.
  - discriminate E.
  - exact C.
Defined.
