(* ===== verification/Economics.v ===== *)
(** * Fees, rewards, vesting and gas tanks
      ([crates/tx/src/{fee,vesting,gas_tank}.rs])

    The base fee is adjusted between blocks, rewards follow an inflation
    schedule, genesis allocations unlock along a linear curve with a cliff, and
    contracts sponsor gas from a tank.  Arithmetic is on [u128] and wraps where
    the code uses plain operators. *)

From stdpp Require Import base numbers list option.
From Stdlib Require Import ZArith Lia.
From S2P Require Import Prelude Wire Crypto Account.

#[local] Open Scope Z_scope.

(** ** [fee.rs] *)

Definition GAS_TARGET : Z := 400000000.
Definition GAS_CEILING : Z := 1600000000.
Definition MIN_BASE_FEE : Z := 1.
Definition GENESIS_BASE_FEE : Z := 50000000000.
Definition ADJUSTMENT_DIVISOR : Z := 8.

Definition adjust_base_fee (parent_base_fee parent_gas_used parent_gas_target : Z) : Z :=
  if parent_gas_target =? 0 then parent_base_fee
  else if parent_gas_used =? parent_gas_target then parent_base_fee
  else
    let new_fee :=
      if parent_gas_target <? parent_gas_used then
        let gas_delta := parent_gas_used - parent_gas_target in
        let fee_delta :=
          wrap u128 (parent_base_fee * gas_delta) / parent_gas_target / ADJUSTMENT_DIVISOR in
        let fee_delta := Z.max fee_delta 1 in
        wrap u128 (parent_base_fee + fee_delta)
      else
        let gas_delta := parent_gas_target - parent_gas_used in
        let fee_delta :=
          wrap u128 (parent_base_fee * gas_delta) / parent_gas_target / ADJUSTMENT_DIVISOR in
        let fee_delta := if 0 <? gas_delta then Z.max fee_delta 1 else fee_delta in
        saturating_sub parent_base_fee fee_delta in
    Z.max new_fee MIN_BASE_FEE.

Definition is_within_gas_limit (gas_used gas_ceiling : Z) : bool := gas_used <=? gas_ceiling.

Definition BLOCKS_PER_YEAR : Z := 78892800.
Definition GENESIS_TOTAL_SUPPLY : Z := 1000000000 * 1000000000.

Definition inflation_rate_bps (year : Z) : Z :=
  if year =? 0 then 500 else if year =? 1 then 300 else if year =? 2 then 200 else 100.

Definition block_reward (slot : Z) : Z :=
  let year := slot / BLOCKS_PER_YEAR in
  let rate := inflation_rate_bps year in
  let per_block_base := GENESIS_TOTAL_SUPPLY / BLOCKS_PER_YEAR in
  wrap u128 (per_block_base * rate) / 10000.

(** ** [vesting.rs] *)

Record VestingSchedule : Type := mkVesting {
  start_slot : Z;
  cliff_slots : Z;
  duration_slots : Z;
  total_amount : Z
}.

Definition VESTING_ENCODED_LEN : Z := 8 + 8 + 8 + 16.

Definition vesting_encode (s : VestingSchedule) : list Z :=
  le_encode 8 (start_slot s) ++ le_encode 8 (cliff_slots s) ++ le_encode 8 (duration_slots s) ++
  le_encode 16 (total_amount s).

Definition vesting_decode (bytes : list Z) : option VestingSchedule :=
  if len bytes <? VESTING_ENCODED_LEN then None
  else Some (mkVesting (le_at 0 8 bytes) (le_at 8 8 bytes) (le_at 16 8 bytes) (le_at 24 16 bytes)).

Definition unlocked_at (s : VestingSchedule) (current_slot : Z) : Z :=
  if duration_slots s =? 0 then total_amount s
  else
    let vest_end := saturating_add u64 (start_slot s) (duration_slots s) in
    if vest_end <=? current_slot then total_amount s
    else if current_slot <? saturating_add u64 (start_slot s) (cliff_slots s) then 0
    else
      let elapsed := saturating_sub current_slot (start_slot s) in
      saturating_mul u128 (total_amount s) elapsed / duration_slots s.

Definition locked_at (s : VestingSchedule) (current_slot : Z) : Z :=
  saturating_sub (total_amount s) (unlocked_at s current_slot).

(** ** [gas_tank.rs] *)

Definition DEFAULT_PER_TX_LIMIT : Z := max_of u128.

Record GasTankConfig : Type := mkTank {
  tank_owner : Address;
  whitelist : list Address;
  per_tx_limit : Z;
  active : bool
}.

Definition tank_open (owner : Address) : GasTankConfig := mkTank owner [] DEFAULT_PER_TX_LIMIT true.

Definition tank_whitelisted (owner : Address) (allowed : list Address) (limit : Z) : GasTankConfig :=
  mkTank owner allowed limit true.

Definition is_allowed (c : GasTankConfig) (sender : Address) : bool :=
  if negb (active c) then false
  else match whitelist c with
       | [] => true
       | _ => bool_decide (sender ∈ whitelist c)
       end.

Definition set_gas_tank (x : Z) (a : Account) : Account :=
  mkAccount (address a) (nonce a) (balance a) (code_hash a) (storage_root a) (account_type a)
    (auth_keys a) x (key_nonce a).

(** The errors are messages in the source; one constructor for each. *)
Inductive TankError : Type := NotOwner | InsufficientTank | Inactive | NotWhitelisted | OverLimit.

Definition deposit (amount : Z) (a : Account) : Account :=
  set_gas_tank (wrap u128 (gas_tank a + amount)) a.

Definition withdraw (amount : Z) (caller : Address) : ST Account TankError unit := fun a =>
  if negb (bool_decide (caller = address a)) then (a, Err NotOwner)
  else if gas_tank a <? amount then (a, Err InsufficientTank)
  else (set_gas_tank (gas_tank a - amount) a, Ok tt).

Definition check_sponsorship (a : Account) (c : GasTankConfig) (sender : Address) (gas_cost : Z) :
    Result Z TankError :=
  if negb (active c) then Err Inactive
  else if negb (is_allowed c sender) then Err NotWhitelisted
  else if per_tx_limit c <? gas_cost then Err OverLimit
  else if gas_tank a <? gas_cost then Err InsufficientTank
  else Ok gas_cost.

Definition deduct_gas (amount : Z) : ST Account TankError unit := fun a =>
  if gas_tank a <? amount then (a, Err InsufficientTank)
  else (set_gas_tank (gas_tank a - amount) a, Ok tt).

(** ** The base fee *)

(** The fee without machine arithmetic. *)
Definition ideal_fee (fee used target : Z) : Z :=
  if used =? target then fee
  else if target <? used then Z.max 1 (fee + Z.max 1 (fee * (used - target) / target / 8))
  else Z.max 1 (fee - Z.max 1 (fee * (target - used) / target / 8)).

(** Below [2^64] quanta nothing wraps, whatever the gas figures. *)
Lemma adjust_base_fee_ideal (fee used target : Z) :
  in_range u64 fee -> in_range u64 used -> 0 < target < 2 ^ 64 ->
  adjust_base_fee fee used target = ideal_fee fee used target.
Proof.
  intros Hf Hu Ht. unfold adjust_base_fee, ideal_fee, ADJUSTMENT_DIVISOR, MIN_BASE_FEE, saturating_sub, in_range in *.
  destruct (Z.eqb_spec target 0); [lia|]. destruct (Z.eqb_spec used target); [done|]. cbv zeta.
  assert (forall d, 0 <= d < 2 ^ 64 -> wrap u128 (fee * d) = fee * d) as Hw.
  { intros d Hd. apply wrap_small. unfold in_range. nia. }
  destruct (Z.ltb_spec target used).
  - rewrite Hw by lia. set (q := fee * (used - target) / target / 8).
    assert (0 <= q < 2 ^ 127) as Hq.
    { assert (0 <= fee * (used - target) < 2 ^ 128) as Hp by nia.
      unfold q. set (p := fee * (used - target)) in *. clearbody p.
      assert (0 <= p / target <= p) by (split; [apply Z.div_pos; lia|apply Z.div_le_upper_bound; nia]).
      lia_pow. }
    rewrite wrap_small by (unfold in_range; lia). lia.
  - rewrite Hw by lia. destruct (Z.ltb_spec 0 (target - used)); lia.
Qed.

Lemma ideal_delta (fee d target : Z) :
  0 <= fee -> 0 <= d -> 0 < target ->
  0 <= fee * d / target / 8 /\ 8 * target * (fee * d / target / 8) <= fee * d.
Proof.
  intros Hf Hd Ht. rewrite Z.div_div by lia. split; [apply Z.div_pos; nia|].
  pose proof (Z.mul_div_le (fee * d) (target * 8) ltac:(lia)). nia.
Qed.

Lemma ideal_delta_mono (fee d1 d2 target : Z) :
  0 <= fee -> d1 <= d2 -> 0 < target -> fee * d1 / target / 8 <= fee * d2 / target / 8.
Proof. intros. apply Z.div_le_mono; [lia|]. apply Z.div_le_mono; [lia|nia]. Qed.

(** The base fee follows the gas used: a block at the target leaves the fee
    alone, a fuller block raises it by at least 1 and at most the proportional
    amount, an emptier one lowers it by at most an eighth (but at least by 1,
    down to the floor), and the next fee is monotone in the gas used.  No step
    wraps for fees below [2^64] quanta. *)
Theorem base_fee_follows_usage (fee used used' target : Z) :
  MIN_BASE_FEE <= fee < 2 ^ 64 -> in_range u64 used -> in_range u64 used' -> 0 < target < 2 ^ 64 ->
  let next := adjust_base_fee fee used target in
  (used = target -> next = fee) /\
  (target < used -> fee < next /\
     (8 * target * (next - fee) <= fee * (used - target) \/ next = fee + 1)) /\
  (used < target -> MIN_BASE_FEE <= next /\ (next < fee \/ next = MIN_BASE_FEE) /\
     (8 * (fee - next) <= fee \/ next = fee - 1)) /\
  (used <= used' -> next <= adjust_base_fee fee used' target).
Proof.
  intros Hf Hu Hu' Ht next. unfold next, MIN_BASE_FEE in *. clear next.
  rewrite !adjust_base_fee_ideal by (done || unfold in_range; lia). unfold ideal_fee, in_range in *.
  split_and!.
  - intros ->. by rewrite Z.eqb_refl.
  - intros H. destruct (Z.eqb_spec used target); [lia|]. destruct (Z.ltb_spec target used); [|lia].
    destruct (ideal_delta fee (used - target) target); [lia..|]. set (q := _ / _ / 8) in *.
    destruct (Z.max_spec 1 q) as [[? ->]|[? ->]]; [|lia]. rewrite Z.max_r by lia. split; [lia|left; lia].
  - intros H. destruct (Z.eqb_spec used target); [lia|]. destruct (Z.ltb_spec target used); [lia|].
    destruct (ideal_delta fee (target - used) target) as [Q0 Q1]; [lia..|]. set (q := _ / _ / 8) in *.
    assert (8 * q <= fee) as Hq by nia. clearbody q. lia.
  - intros H. pose proof (fun d1 d2 => ideal_delta_mono fee d1 d2 target) as Hm.
    destruct (Z.eqb_spec used target), (Z.eqb_spec used' target);
      destruct (Z.ltb_spec target used), (Z.ltb_spec target used'); try lia.
    + specialize (Hm (used - target) (used' - target)). lia.
    + specialize (Hm (target - used') (target - used)). lia.
Qed.

Lemma base_fee_follows_usage_witness :
  adjust_base_fee GENESIS_BASE_FEE 0 GAS_TARGET = 43750000000 /\
  8 * (GENESIS_BASE_FEE - adjust_base_fee GENESIS_BASE_FEE 0 GAS_TARGET) <= GENESIS_BASE_FEE.
Proof.
  split; [vm_compute; reflexivity|].
  destruct (base_fee_follows_usage GENESIS_BASE_FEE 0 0 GAS_TARGET) as (_ & _ & H & _).
  - split; [discriminate|reflexivity].
  - split; [discriminate|reflexivity].
  - split; [discriminate|reflexivity].
  - split; reflexivity.
  - destruct H as (_ & _ & [H|H]); [reflexivity|exact H|]. vm_compute in H. discriminate H.
Defined.

(** Elastic blocks reach four times the target, and then the fee rises by
    37.5 percent, not by the 12.5 percent that is documented as the cap. *)
Theorem full_block_raises_fee_by_three_eighths :
  is_within_gas_limit GAS_CEILING GAS_CEILING = true /\
  adjust_base_fee GENESIS_BASE_FEE GAS_CEILING GAS_TARGET
    = GENESIS_BASE_FEE + 3 * (GENESIS_BASE_FEE / 8).
Proof. vm_compute. done. Qed.

(** The multiplication wraps for large fees: at the ceiling a fee of
    [2^128 / 1.2 * 10^9] or more is raised by less than a smaller fee is. *)
Theorem large_fee_wraps :
  let f := 2 ^ 128 / (GAS_CEILING - GAS_TARGET) + 1 in
  adjust_base_fee f GAS_CEILING GAS_TARGET = f + 1.
Proof. vm_compute. done. Qed.

(** ** Rewards *)

(** The rewards of a year never exceed its inflation rate on the genesis
    supply, and the reward never rises. *)
Theorem rewards_within_inflation (slot slot' : Z) :
  0 <= slot <= slot' ->
  0 < block_reward slot /\
  block_reward slot * BLOCKS_PER_YEAR * 10000 <= GENESIS_TOTAL_SUPPLY * inflation_rate_bps (slot / BLOCKS_PER_YEAR) /\
  block_reward slot' <= block_reward slot.
Proof.
  intros H.
  assert (0 <= slot / BLOCKS_PER_YEAR <= slot' / BLOCKS_PER_YEAR) as Hy.
  { split; [apply Z.div_pos; unfold BLOCKS_PER_YEAR; lia|apply Z.div_le_mono; unfold BLOCKS_PER_YEAR; lia]. }
  unfold block_reward. cbv zeta. set (y := slot / BLOCKS_PER_YEAR) in *. set (y' := slot' / BLOCKS_PER_YEAR) in *.
  clearbody y y'. unfold inflation_rate_bps.
  destruct (Z.eqb_spec y 0), (Z.eqb_spec y 1), (Z.eqb_spec y 2), (Z.eqb_spec y' 0), (Z.eqb_spec y' 1),
    (Z.eqb_spec y' 2); try lia; vm_compute; repeat split; discriminate.
Qed.

Lemma rewards_within_inflation_witness :
  block_reward (3 * BLOCKS_PER_YEAR) <= block_reward 0 /\ block_reward 0 = 633771396.
Proof.
  split; [|vm_compute; reflexivity].
  apply (rewards_within_inflation 0 (3 * BLOCKS_PER_YEAR)). split; vm_compute; discriminate.
Defined.

(** ** Vesting *)

Record wf_vesting (s : VestingSchedule) : Prop := {
  wv_start : in_range u64 (start_slot s);
  wv_cliff : in_range u64 (cliff_slots s);
  wv_duration : in_range u64 (duration_slots s);
  wv_total : in_range u128 (total_amount s)
}.

(** The unlock curve: what is unlocked never exceeds the allocation and
    never decreases, nothing is unlocked before the cliff of a proper schedule,
    everything from the end on, and locked and unlocked always add up. *)
Theorem vesting_curve (s : VestingSchedule) (slot slot' : Z) :
  wf_vesting s -> in_range u64 slot -> in_range u64 slot' -> slot <= slot' ->
  0 <= unlocked_at s slot <= total_amount s /\
  unlocked_at s slot <= unlocked_at s slot' /\
  locked_at s slot + unlocked_at s slot = total_amount s /\
  (start_slot s + duration_slots s <= slot -> unlocked_at s slot = total_amount s) /\
  (0 < duration_slots s -> cliff_slots s <= duration_slots s -> slot < start_slot s + cliff_slots s ->
     start_slot s + cliff_slots s < 2 ^ 64 -> unlocked_at s slot = 0).
Proof.
  intros [] Hs Hs' Hle. unfold locked_at, unlocked_at, saturating_sub, saturating_add, saturating_mul, in_range in *.
  set (st := start_slot s) in *. set (c := cliff_slots s) in *. set (d := duration_slots s) in *.
  set (t := total_amount s) in *. clearbody st c d t.
  destruct (Z.eqb_spec d 0) as [->|Hd]; [split_and!; lia|].
  assert (forall x, x < st + d -> 0 <= Z.min (t * Z.max 0 (x - st)) (2 ^ 128 - 1) / d <= t) as Hb.
  { intros x Hx. split; [apply Z.div_pos; nia|]. apply Z.div_le_upper_bound; nia. }
  assert (Z.min (t * Z.max 0 (slot - st)) (2 ^ 128 - 1) / d
          <= Z.min (t * Z.max 0 (slot' - st)) (2 ^ 128 - 1) / d) as M.
  { apply Z.div_le_mono; [lia|]. apply Z.min_le_compat_r. nia. }
  pose proof (Hb slot) as B1. pose proof (Hb slot') as B2. clear Hb.
  set (u := _ / d) in B1, M |- *. set (u' := _ / d) in B2, M |- *. clearbody u u'.
  destruct (Z.leb_spec (Z.min (st + d) (2 ^ 64 - 1)) slot),
    (Z.leb_spec (Z.min (st + d) (2 ^ 64 - 1)) slot'),
    (Z.ltb_spec slot (Z.min (st + c) (2 ^ 64 - 1))), (Z.ltb_spec slot' (Z.min (st + c) (2 ^ 64 - 1))); try lia.
  all: split_and!; lia.
Qed.

Lemma vesting_curve_witness :
  let s := mkVesting 100 50 200 1000 in
  unlocked_at s 149 = 0 /\ unlocked_at s 150 = 250 /\ unlocked_at s 150 <= unlocked_at s 299.
Proof.
  intros s. split; [vm_compute; reflexivity|]. split; [vm_compute; reflexivity|].
  apply (vesting_curve s 150 299).
  - split; (split; [discriminate|reflexivity]).
  - split; [discriminate|reflexivity].
  - split; [discriminate|reflexivity].
  - discriminate.
Defined.

(** A stored schedule is read back. *)
Lemma vesting_bytes (s : VestingSchedule) (rest : list Z) :
  wf_vesting s -> vesting_decode (vesting_encode s ++ rest) = Some s.
Proof.
  intros []. unfold vesting_decode, vesting_encode. rewrite <- !app_assoc. wire.
  rewrite !le_decode_encode by done.
  match goal with |- (if ?b then _ else _) = _ => destruct b eqn:E end; [|by destruct s].
  apply Z.ltb_lt in E. unfold len, VESTING_ENCODED_LEN in E. rewrite !length_app, !length_le_encode in E. lia.
Qed.

(** ** Gas tanks *)

(** Sponsorship: a transaction that passes the check was allowed by an
    active tank, within its limit, and the deduction that follows cannot fail
    and takes exactly the cost; a deduction or withdrawal that fails changes
    nothing, and only the account itself withdraws. *)
Theorem sponsorship_sound (a : Account) (c : GasTankConfig) (sender caller : Address) (cost amount : Z) :
  (forall x, check_sponsorship a c sender cost = Ok x ->
     x = cost /\ active c = true /\ is_allowed c sender = true /\ cost <= per_tx_limit c /\
     deduct_gas x a = (set_gas_tank (gas_tank a - cost) a, Ok tt)) /\
  (forall a' e, deduct_gas amount a = (a', Err e) -> a' = a) /\
  (forall a' r, withdraw amount caller a = (a', r) ->
     if is_ok r then caller = address a /\ gas_tank a' = gas_tank a - amount /\ (amount <= gas_tank a)
     else a' = a).
Proof.
  unfold check_sponsorship, deduct_gas, withdraw. split_and!.
  - intros x. destruct (active c) eqn:Ea; [|done]. destruct (is_allowed c sender); [|done]. cbn [negb].
    destruct (Z.ltb_spec (per_tx_limit c) cost); [done|]. destruct (Z.ltb_spec (gas_tank a) cost); [done|].
    intros [= <-]. split_and!; try done. by destruct (Z.ltb_spec (gas_tank a) cost); [lia|].
  - intros a' e. destruct (gas_tank a <? amount); [|done]. by intros [= <- _].
  - intros a' r. case_bool_decide; cbn [negb]; [|by intros [= <- <-]].
    destruct (Z.ltb_spec (gas_tank a) amount); [by intros [= <- <-]|]. intros [= <- <-]. by split_and!.
Qed.
