(* ===== verification/Airdrop.v ===== *)
(** * Airdrop claims ([crates/tx/src/airdrop.rs])

    A claim carries the path of its leaf to the root of a Merkle tree that was
    fixed at genesis.  The payload codec is a bijection; every leaf of a tree
    built by [build_tree] is accepted with its proof; and a claim that is
    accepted against such a tree is one of its leaves, for proofs of any length,
    as long as the sponge does not collide on the inputs hashed when building
    the tree and checking the claim. *)

From stdpp Require Import base numbers list option gmap.
From Stdlib Require Import ZArith Lia.
From S2P Require Import Prelude Wire Crypto.

#[local] Open Scope Z_scope.

Definition LEAF_TAG : Z := 0x00.
Definition MAX_PROOF_LEN : Z := 255.
Definition MIN_CLAIM_DATA_LEN : Z := 25.

Record ClaimPayload : Type := mkClaim {
  leaf_index : Z;
  amount : Z;
  proof : list (list Z)
}.

(** The siblings are the 32-byte chunks after the header. *)
Definition claim_decode (bytes : list Z) : option ClaimPayload :=
  if len bytes <? MIN_CLAIM_DATA_LEN then None
  else
    let proof_len := byte_at 24 bytes in
    let expected := MIN_CLAIM_DATA_LEN + proof_len * 32 in
    if negb (len bytes =? expected) then None
    else Some (mkClaim (le_at 0 8 bytes) (le_at 8 16 bytes)
                 ((fun i => slice (25 + i * 32) 32 bytes) <$> seq 0 (Z.to_nat proof_len))).

(** [None] is the failed assertion on the length of the proof. *)
Definition claim_encode (c : ClaimPayload) : option (list Z) :=
  if MAX_PROOF_LEN <? len (proof c) then None
  else Some (le_encode 8 (leaf_index c) ++ le_encode 16 (amount c) ++ [len (proof c)] ++ concat (proof c)).

Section Merkle.
Context {P : Primitives}.

Definition leaf_preimage (index : Z) (address : Address) (amt : Z) : list Z :=
  [LEAF_TAG] ++ le_encode 8 index ++ address ++ le_encode 16 amt.

Definition leaf_hash (index : Z) (address : Address) (amt : Z) : list Z :=
  poseidon2_hash (leaf_preimage index address amt).

Fixpoint walk (index : Z) (node : list Z) (siblings : list (list Z)) : list Z :=
  match siblings with
  | [] => node
  | sibling :: siblings' =>
      let node' :=
        if Z.land index 1 =? 0 then poseidon2_pair node sibling else poseidon2_pair sibling node in
      walk (Z.shiftr index 1) node' siblings'
  end.

Definition compute_root (index : Z) (address : Address) (amt : Z) (siblings : list (list Z)) : list Z :=
  walk index (leaf_hash index address amt) siblings.

Definition verify_proof (index : Z) (address : Address) (amt : Z) (siblings : list (list Z))
    (root : list Z) : bool :=
  bool_decide (compute_root index address amt siblings = root).

(** [build_tree]: the padded leaf level, one level up, the siblings of the
    leaves at a level. *)
Definition tree_depth (n : nat) : nat :=
  if (n <=? 1)%nat then 0 else S (Nat.log2 (n - 1)).

Definition leaf_level (leaves : list (Address * Z)) : list (list Z) :=
  imap (fun i '(addr, amt) => leaf_hash (Z.of_nat i) addr amt) leaves.

Definition pad (level : list (list Z)) : list (list Z) :=
  level ++ replicate (2 ^ tree_depth (length level) - length level) (replicate 32 0).

Fixpoint parents (level : list (list Z)) : list (list Z) :=
  match level with
  | l :: r :: level' => poseidon2_pair l r :: parents level'
  | _ => []
  end.

Definition sibling_at (level : list (list Z)) (d leaf_i : nat) : list Z :=
  default [] (level !! Nat.lxor (Nat.shiftr leaf_i d) 1).

Fixpoint build_levels (todo d : nat) (level : list (list Z)) (sibs : list (list (list Z))) :
    list Z * list (list (list Z)) :=
  match todo with
  | O => (default [] (level !! 0%nat), sibs)
  | S t =>
      let sibs' := imap (fun leaf_i s => s ++ [sibling_at level d leaf_i]) sibs in
      build_levels t (S d) (parents level) sibs'
  end.

(** [None] is the failed assertion on an empty list of leaves. *)
Definition build_tree (leaves : list (Address * Z)) : option (list Z * list (list (list Z))) :=
  match leaves with
  | [] => None
  | _ =>
      let level := leaf_level leaves in
      let depth := tree_depth (length level) in
      Some (build_levels depth 0 (pad level) (replicate (length leaves) []))
  end.
End Merkle.

(** ** Payloads *)

Record wf_claim (c : ClaimPayload) : Prop := {
  wc_index : in_range u64 (leaf_index c);
  wc_amount : in_range u128 (amount c);
  wc_proof : Forall (fun s => length s = 32%nat /\ bytes_ok s) (proof c);
  wc_len : len (proof c) <= MAX_PROOF_LEN
}.

Lemma concat_chunk (l : list (list Z)) (i : nat) (x : list Z) (n : nat) :
  Forall (fun s => length s = n) l -> l !! i = Some x -> slice (i * n) n (concat l) = x.
Proof.
  intros H. revert i. induction H as [|y l Hy H IH]; intros [|i] E; try done; cbn [concat].
  - injection E as <-. by apply slice_here.
  - rewrite slice_skip by (rewrite Hy; lia). rewrite Hy.
    replace (S i * n - n)%nat with (i * n)%nat by lia. by apply IH.
Qed.

Lemma concat_length (l : list (list Z)) (n : nat) :
  Forall (fun s => length s = n) l -> length (concat l) = (length l * n)%nat.
Proof. induction 1 as [|y l Hy H IH]; [done|]. cbn. rewrite length_app, Hy, IH. lia. Qed.

Lemma concat_chunks (l : list (list Z)) (n : nat) :
  Forall (fun s => length s = n) l ->
  (fun i => slice (i * n) n (concat l)) <$> seq 0 (length l) = l.
Proof.
  intros H. apply list_eq. intros i. rewrite list_lookup_fmap.
  destruct (l !! i) as [x|] eqn:E.
  - rewrite lookup_seq_lt by by eapply lookup_lt_Some. cbn. f_equal. by apply concat_chunk.
  - rewrite lookup_seq_ge; [done|]. by apply lookup_ge_None_1.
Qed.

(** Cutting a string of the right length into chunks loses nothing. *)
Lemma chunks_concat (k n : nat) (b : list Z) :
  length b = (k * n)%nat -> concat ((fun i => slice (i * n) n b) <$> seq 0 k) = b.
Proof.
  revert b. induction k as [|k IH]; intros b L; [by destruct b|].
  cbn [seq fmap list_fmap concat]. change (slice (0 * n) n b) with (take n b).
  transitivity (take n b ++ drop n b); [f_equal|apply take_drop].
  rewrite <- (IH (drop n b)) by (rewrite length_drop; lia). f_equal.
  rewrite <- fmap_S_seq, <- list_fmap_compose. apply list_fmap_ext. intros _ i _. unfold slice; cbn.
  by rewrite drop_drop.
Qed.

Lemma claim_decode_encode (c : ClaimPayload) :
  wf_claim c -> exists b, claim_encode c = Some b /\ claim_decode b = Some c.
Proof.
  intros []. unfold claim_encode. destruct (Z.ltb_spec MAX_PROOF_LEN (len (proof c))); [lia|].
  eexists. split; [done|].
  assert (Forall (fun s => length s = 32%nat) (proof c)) as H32 by (eapply Forall_impl; [exact wc_proof0|]; by intros s []).
  set (b := le_encode 8 _ ++ _).
  assert (len b = 25 + len (proof c) * 32) as Lb.
  { unfold b, len. rewrite !length_app, !length_le_encode, (concat_length _ 32) by done. cbn [length]. lia. }
  unfold claim_decode, MIN_CLAIM_DATA_LEN. rewrite Lb.
  assert (byte_at 24 b = len (proof c)) as ->. { unfold b. by wire. }
  destruct (Z.ltb_spec (25 + len (proof c) * 32) 25); [unfold len in *; lia|].
  rewrite Z.eqb_refl. cbn [negb].
  assert (forall i, slice (25 + i * 32) 32 b = slice (i * 32) 32 (concat (proof c))) as Hs.
  { intros i. unfold b. rewrite !slice_skip by wire_len. rewrite !length_le_encode. cbn [length].
    f_equal. lia. }
  unfold b at 1 2. wire. rewrite !le_decode_encode by done. unfold len. rewrite Nat2Z.id.
  rewrite (list_fmap_ext _ (fun i => slice (i * 32) 32 (concat (proof c)))), concat_chunks by done.
  by destruct c.
Qed.

Lemma claim_encode_decode (b : list Z) (c : ClaimPayload) :
  bytes_ok b -> claim_decode b = Some c -> wf_claim c /\ claim_encode c = Some b.
Proof.
  intros Hb. unfold claim_decode, MIN_CLAIM_DATA_LEN. destruct (Z.ltb_spec (len b) 25) as [|L]; [done|].
  destruct (Z.eqb_spec (len b) (25 + byte_at 24 b * 32)) as [Lb|]; [cbn [negb]|done]. intros Hc%(inj Some). subst c.
  pose proof (byte_at_ok 24 b Hb) as Hk.
  set (k := Z.to_nat (byte_at 24 b)). assert (byte_at 24 b = Z.of_nat k) as Ek by (unfold byte_ok in Hk; lia).
  assert (length b = 25 + k * 32)%nat as Lk by (unfold len in Lb; lia).
  set (body := drop 25 b). assert (length body = k * 32)%nat as Lbody by (unfold body; rewrite length_drop; lia).
  assert ((fun i => slice (25 + i * 32) 32 b) <$> seq 0 k = (fun i => slice (i * 32) 32 body) <$> seq 0 k) as ->.
  { apply list_fmap_ext. intros _ i _. unfold slice, body. by rewrite drop_drop. }
  assert (len ((fun i => slice (i * 32) 32 body) <$> seq 0 k) = Z.of_nat k) as Lp.
  { unfold len. by rewrite length_fmap, length_seq. }
  split.
  + split; cbn [leaf_index amount proof].
    * by apply (le_at_range 0 8).
    * by apply (le_at_range 8 16).
    * apply Forall_fmap, Forall_forall. intros i Hi%elem_of_seq. unfold compose, slice.
      rewrite length_take, length_drop. split; [lia|]. by do 3 apply Forall_take || apply Forall_drop.
    * rewrite Lp. unfold byte_ok, MAX_PROOF_LEN in *. lia.
  + unfold claim_encode. cbn [leaf_index amount proof]. rewrite Lp.
    destruct (Z.ltb_spec MAX_PROOF_LEN (Z.of_nat k)); [unfold byte_ok, MAX_PROOF_LEN in *; lia|].
    f_equal. rewrite chunks_concat, <- Ek, !le_encode_at, byte_at_slice by (done || lia).
    unfold body. by rewrite <- (drop_slice 24 1), <- (drop_slice 8 16), <- (drop_slice 0 8), drop_0.
Qed.

(** The claim codec is a bijection: a payload that is encoded is decoded to
    itself, and a byte string that is accepted is the only encoding of the
    payload it was decoded to, so claims are not malleable. *)
Theorem claim_codec :
  (forall c, wf_claim c -> exists b, claim_encode c = Some b /\ claim_decode b = Some c) /\
  (forall b c, bytes_ok b -> claim_decode b = Some c -> wf_claim c /\ claim_encode c = Some b).
Proof. split; [apply claim_decode_encode|apply claim_encode_decode]. Qed.

(** ** Trees accept their leaves *)

Section Tree.
Context {P : Primitives}.

(** The element string hashed for a pair of nodes. *)
Definition pair_input (l r : list Z) : list Z := hash256_to_elements l ++ hash256_to_elements r.

Definition hash_elements (e : list Z) : list Z := elements_to_hash (sponge e).

(** The level [k] steps above [level]. *)
Definition above (k : nat) (level : list (list Z)) : list (list Z) := Nat.iter k parents level.

Lemma parents_length (m : nat) (level : list (list Z)) :
  length level = (2 * m)%nat -> length (parents level) = m.
Proof.
  revert level. induction m as [|m IH]; intros [|l [|r level]] H; cbn in *; try lia. rewrite IH; lia.
Qed.

Lemma parents_lookup (level : list (list Z)) (j : nat) (l r : list Z) :
  level !! (2 * j)%nat = Some l -> level !! (2 * j + 1)%nat = Some r ->
  parents level !! j = Some (poseidon2_pair l r).
Proof.
  revert level. induction j as [|j IH]; intros level El Er.
  - destruct level as [|l' [|r' level]]; try done. by injection El as ->; injection Er as ->.
  - replace (2 * S j)%nat with (S (S (2 * j)))%nat in * by lia.
    replace (S (S (2 * j)) + 1)%nat with (S (S (2 * j + 1)))%nat in Er by lia.
    destruct level as [|l' [|r' level]]; try done. by apply IH.
Qed.

Lemma above_length (k t : nat) (level : list (list Z)) :
  length level = (2 ^ (k + t))%nat -> length (above k level) = (2 ^ t)%nat.
Proof.
  revert t. induction k as [|k IH]; intros t H; [done|].
  cbn. apply parents_length. change (2 * 2 ^ t)%nat with (2 ^ S t)%nat. apply IH. by rewrite <- plus_n_Sm.
Qed.

(** One step of the walk from a node to its parent. *)
Lemma land_1_even (j : nat) : (Z.land (Z.of_nat j) 1 =? 0) = Nat.even j.
Proof.
  change 1 with (Z.ones 1). rewrite Z.land_ones by lia. change (2 ^ 1) with 2.
  destruct (Nat.even j) eqn:E.
  - apply Nat.even_spec in E as [m ->]. apply Z.eqb_eq. lia_pow.
  - rewrite <- Nat.negb_odd, negb_false_iff in E. apply Nat.odd_spec in E as [m ->]. apply Z.eqb_neq. lia_pow.
Qed.

Lemma lxor_1 (m : nat) :
  Nat.lxor (2 * m) 1 = (2 * m + 1)%nat /\ Nat.lxor (2 * m + 1) 1 = (2 * m)%nat.
Proof.
  assert (forall n, Nat.testbit 1 (S n) = false) as H1 by (intros n; cbn; apply Nat.bits_0).
  split; apply Nat.bits_inj; intros [|n]; rewrite Nat.lxor_spec.
  - by rewrite Nat.testbit_even_0, Nat.testbit_odd_0.
  - by rewrite H1, Nat.testbit_even_succ, Nat.testbit_odd_succ, xorb_false_r by lia.
  - by rewrite Nat.testbit_even_0, Nat.testbit_odd_0.
  - by rewrite H1, Nat.testbit_even_succ, Nat.testbit_odd_succ, xorb_false_r by lia.
Qed.

Lemma walk_step (level : list (list Z)) (j : nat) (node : list Z) (sibs : list (list Z)) :
  Nat.Even (length level) -> level !! j = Some node ->
  exists node', parents level !! (j / 2)%nat = Some node' /\
    walk (Z.of_nat j) node (default [] (level !! Nat.lxor j 1) :: sibs)
    = walk (Z.of_nat (j / 2)) node' sibs.
Proof.
  intros [h Hh] Ej. pose proof (lookup_lt_Some _ _ _ Ej) as Lj. cbn [walk].
  assert (Z.shiftr (Z.of_nat j) 1 = Z.of_nat (j / 2)) as ->.
  { rewrite Z.shiftr_div_pow2 by lia. by rewrite Nat2Z.inj_div. }
  rewrite land_1_even. destruct (Nat.Even_or_Odd j) as [[m ->]|[m ->]].
  - destruct (lookup_lt_is_Some_2 level (2 * m + 1)) as [r Er]; [lia|].
    rewrite (proj1 (lxor_1 m)), Er. replace (2 * m / 2)%nat with m by (apply (Nat.div_unique _ 2 m 0); lia).
    rewrite Nat.even_even. eexists. split; [by apply parents_lookup|done].
  - destruct (lookup_lt_is_Some_2 level (2 * m)) as [l El]; [lia|].
    rewrite (proj2 (lxor_1 m)), El. replace ((2 * m + 1) / 2)%nat with m by (apply (Nat.div_unique _ 2 m 1); lia).
    rewrite Nat.even_odd. eexists. split; [by apply parents_lookup|done].
Qed.

(** The siblings a leaf collects from level [d] on. *)
Fixpoint path (todo d : nat) (level : list (list Z)) (i : nat) : list (list Z) :=
  match todo with
  | O => []
  | S t => sibling_at level d i :: path t (S d) (parents level) i
  end.

Lemma build_levels_spec (todo d : nat) (level : list (list Z)) (sibs : list (list (list Z))) :
  build_levels todo d level sibs
  = (default [] (above todo level !! 0%nat), imap (fun i s => s ++ path todo d level i) sibs).
Proof.
  revert d level sibs. induction todo as [|t IH]; intros d level sibs; cbn [build_levels path above].
  - f_equal. apply list_eq. intros i. rewrite list_lookup_imap.
    destruct (sibs !! i); cbn; by rewrite ?app_nil_r.
  - rewrite IH. f_equal.
    + unfold above. by rewrite Nat.iter_succ_r.
    + apply list_eq. intros i. rewrite !list_lookup_imap. destruct (sibs !! i); cbn; by rewrite <- ?app_assoc.
Qed.

Lemma walk_path (todo d i : nat) (level : list (list Z)) (node : list Z) :
  length level = (2 ^ todo)%nat -> level !! (Nat.shiftr i d) = Some node ->
  walk (Z.of_nat (Nat.shiftr i d)) node (path todo d level i) = default [] (above todo level !! 0%nat).
Proof.
  revert d level node. induction todo as [|t IH]; intros d level node L E; cbn [path].
  - apply lookup_lt_Some in E as Ls. rewrite L in Ls. cbn in Ls.
    assert (Nat.shiftr i d = 0)%nat as E0 by lia. rewrite E0 in E. cbn. by rewrite E.
  - destruct (walk_step level (Nat.shiftr i d) node (path t (S d) (parents level) i)) as (node' & E' & W).
    { rewrite L. exists (2 ^ t)%nat. done. }
    { done. }
    unfold sibling_at. rewrite W. assert (Nat.shiftr i d / 2 = Nat.shiftr i (S d))%nat as Es.
    { rewrite !Nat.shiftr_div_pow2, Nat.pow_succ_r', (Nat.mul_comm 2), Nat.Div0.div_div. done. }
    rewrite Es in *. rewrite (IH (S d) (parents level) node');
      [unfold above; by rewrite Nat.iter_succ_r|by apply parents_length|done].
Qed.

Lemma tree_depth_spec (n : nat) : (0 < n)%nat -> (n <= 2 ^ tree_depth n)%nat.
Proof.
  intros H. unfold tree_depth. destruct (Nat.leb_spec n 1); [cbn; lia|].
  pose proof (Nat.log2_spec (n - 1)). lia.
Qed.

Lemma pad_length (level : list (list Z)) :
  (0 < length level)%nat -> length (pad level) = (2 ^ tree_depth (length level))%nat.
Proof.
  intros H. unfold pad. rewrite length_app, length_replicate. pose proof (tree_depth_spec _ H). lia.
Qed.

Lemma leaf_level_lookup (leaves : list (Address * Z)) (i : nat) :
  leaf_level leaves !! i = (fun p => leaf_hash (Z.of_nat i) p.1 p.2) <$> leaves !! i.
Proof. unfold leaf_level. rewrite list_lookup_imap. by destruct (leaves !! i) as [[]|]. Qed.

(** Completeness: every leaf of a tree built off chain is accepted by the
    on-chain check with the proof that was built for it. *)
Theorem built_proofs_verify (leaves : list (Address * Z)) (root : list Z)
    (proofs : list (list (list Z))) (i : nat) (addr : Address) (amt : Z) :
  build_tree leaves = Some (root, proofs) -> leaves !! i = Some (addr, amt) ->
  exists pf, proofs !! i = Some pf /\ verify_proof (Z.of_nat i) addr amt pf root = true.
Proof.
  intros E Ei. pose proof (lookup_lt_Some _ _ _ Ei) as Li.
  destruct leaves as [|x leaves']; [done|]. set (leaves := x :: leaves') in *.
  apply (inj Some) in E. cbv zeta in E. rewrite build_levels_spec in E.
  pose proof (f_equal fst E) as E1. pose proof (f_equal snd E) as E2. cbn [fst snd] in E1, E2. subst root proofs.
  set (lv := leaf_level leaves) in *.
  assert (length lv = length leaves) as Ll by (unfold lv, leaf_level; apply length_imap).
  exists (path (tree_depth (length lv)) 0 (pad lv) i). split.
  - rewrite list_lookup_imap, lookup_replicate_2 by done. done.
  - apply bool_decide_eq_true. unfold compute_root. apply (walk_path _ 0).
    + apply pad_length. lia.
    + change (Nat.shiftr i 0) with i. unfold pad. rewrite lookup_app_l by by rewrite Ll. unfold lv. by rewrite leaf_level_lookup, Ei.
Qed.
End Tree.

Lemma built_proofs_verify_witness :
  let leaves := [(replicate 32 1, 10); (replicate 32 2, 20); (replicate 32 3, 30)] in
  exists pf, match build_tree leaves with Some (root, proofs) =>
    proofs !! 2%nat = Some pf /\ verify_proof 2 (replicate 32 3) 30 pf root = true | None => False end.
Proof.
  intros leaves. destruct (build_tree leaves) as [[root proofs]|] eqn:E; [|discriminate E].
  destruct (built_proofs_verify leaves root proofs 2 (replicate 32 3) 30 E eq_refl) as (pf & H).
  exists pf. exact H.
Defined.

(** ** Accepted claims are leaves *)

Section Sound.
Context {P : Primitives} {POk : PrimitivesOk P}.

(** The element strings hashed when a level is folded into the next, up to the
    root. *)
Fixpoint pair_inputs (level : list (list Z)) : list (list Z) :=
  match level with
  | l :: r :: level' => pair_input l r :: pair_inputs level'
  | _ => []
  end.

Fixpoint level_inputs (todo : nat) (level : list (list Z)) : list (list Z) :=
  match todo with
  | O => []
  | S t => pair_inputs level ++ level_inputs t (parents level)
  end.

Definition leaf_input (i : Z) (a : Address) (amt : Z) : list Z := bytes_to_elements (leaf_preimage i a amt).

Definition tree_inputs (leaves : list (Address * Z)) : list (list Z) :=
  imap (fun i p => leaf_input (Z.of_nat i) p.1 p.2) leaves ++
  level_inputs (tree_depth (length leaves)) (pad (leaf_level leaves)).

(** The element strings hashed when a claim is checked. *)
Definition step_input (index : Z) (node sibling : list Z) : list Z :=
  if Z.land index 1 =? 0 then pair_input node sibling else pair_input sibling node.

Fixpoint walk_inputs (index : Z) (node : list Z) (siblings : list (list Z)) : list (list Z) :=
  match siblings with
  | [] => []
  | s :: siblings' =>
      let e := step_input index node s in
      e :: walk_inputs (Z.shiftr index 1) (hash_elements e) siblings'
  end.

Definition claim_inputs (index : Z) (a : Address) (amt : Z) (siblings : list (list Z)) : list (list Z) :=
  leaf_input index a amt :: walk_inputs index (leaf_hash index a amt) siblings.

(** No two of these strings collide, and none hashes to the padding. *)
Definition no_collision (s : list (list Z)) : Prop :=
  (forall x y, x ∈ s -> y ∈ s -> sponge x = sponge y -> x = y) /\
  (forall x, x ∈ s -> sponge x <> [0; 0; 0; 0]).

Definition wf_leaf (i : Z) (a : Address) (amt : Z) : Prop :=
  in_range u64 i /\ address_ok a /\ in_range u128 amt.

(** *** Nodes *)

(** The padding, as the hash of no input of these. *)
Definition hash_elements_zero : list Z := replicate 32 0.

Lemma hash_elements_inj (x y : list Z) : hash_elements x = hash_elements y -> sponge x = sponge y.
Proof.
  intros E. eapply elements_to_hash_inj; [..|exact E]; [|apply sponge_canonical..]. by rewrite !sponge_length.
Qed.

Lemma elements_of_hash (l : list Z) :
  length l = 4%nat -> Forall (fun x => 0 <= x < GOLDILOCKS_P) l ->
  hash256_to_elements (elements_to_hash l) = l.
Proof.
  intros L H. destruct l as [|a [|b [|c [|d []]]]]; try discriminate L.
  rewrite !Forall_cons_iff in H. destruct H as (Ha & Hb & Hc & Hd & _).
  unfold hash256_to_elements, elements_to_hash, goldilocks_to_u64, u64_to_goldilocks.
  cbn [fmap list_fmap concat]. rewrite app_nil_r. wire.
  rewrite !le_decode_encode by (unfold GOLDILOCKS_P in *; cbn; lia). by rewrite !Z.mod_small.
Qed.

Lemma pair_input_hashes (x y : list Z) :
  pair_input (hash_elements x) (hash_elements y) = sponge x ++ sponge y.
Proof.
  unfold pair_input, hash_elements.
  by rewrite !elements_of_hash by (apply sponge_length || apply sponge_canonical).
Qed.

Lemma elements_of_hash_elements (x : list Z) : hash256_to_elements (hash_elements x) = sponge x.
Proof. apply elements_of_hash; [apply sponge_length|apply sponge_canonical]. Qed.

Lemma pair_input_length (l r : list Z) : length (pair_input l r) = 8%nat.
Proof. done. Qed.

Lemma leaf_preimage_length (i : Z) (a : Address) (amt : Z) :
  address_ok a -> length (leaf_preimage i a amt) = 57%nat.
Proof. intros [L _]. unfold leaf_preimage. by rewrite !length_app, !length_le_encode, L. Qed.

Lemma leaf_input_length (i : Z) (a : Address) (amt : Z) :
  address_ok a -> length (leaf_input i a amt) = 10%nat.
Proof.
  intros A. pose proof (leaf_preimage_length i a amt A) as L. unfold leaf_input, bytes_to_elements.
  set (d := leaf_preimage i a amt) in *. clearbody d.
  do 57 (destruct d as [|? d]; [discriminate L|]). destruct d; [reflexivity|discriminate L].
Qed.

Lemma leaf_input_inj (i j : Z) (a b : Address) (x y : Z) :
  wf_leaf i a x -> wf_leaf j b y -> leaf_input i a x = leaf_input j b y -> i = j /\ a = b /\ x = y.
Proof.
  intros (Hi & Ha & Hx) (Hj & Hb & Hy) E.
  assert (forall k c z, wf_leaf k c z -> alloc_ok (leaf_preimage k c z)) as Hal.
  { intros k c z (_ & [L B] & _). split; [|unfold len; rewrite leaf_preimage_length; done].
    unfold leaf_preimage. constructor; [done|]. apply Forall_app; split; [apply le_encode_bytes|].
    apply Forall_app; split; [done|apply le_encode_bytes]. }
  apply bytes_to_elements_inj in E; [|by apply Hal..]. unfold leaf_preimage in E.
  apply app_inv_head in E. apply app_inj_1 in E as [Ei E]; [|by rewrite !length_le_encode].
  apply app_inj_1 in E as [-> Ea]; [|by destruct Ha as [-> _], Hb as [-> _]].
  split_and!; [by eapply (le_encode_inj 8)|done|by eapply (le_encode_inj 16)].
Qed.

(** *** Levels *)

Lemma parents_inv (level : list (list Z)) (j : nat) (h : list Z) :
  parents level !! j = Some h ->
  exists l r, level !! (2 * j)%nat = Some l /\ level !! (2 * j + 1)%nat = Some r /\
    h = hash_elements (pair_input l r) /\ pair_input l r ∈ pair_inputs level.
Proof.
  revert level. induction j as [|j IH]; intros [|l [|r level]] E; try done.
  - injection E as <-. exists l, r. split_and!; try done. by left.
  - destruct (IH level E) as (l' & r' & El & Er & Eh & Hin). exists l', r'.
    replace (2 * S j)%nat with (S (S (2 * j)))%nat by lia.
    replace (S (S (2 * j)) + 1)%nat with (S (S (2 * j + 1)))%nat by lia.
    split_and!; try done. by right.
Qed.

Lemma above_inputs (k todo : nat) (level : list (list Z)) (x : list Z) :
  (k < todo)%nat -> x ∈ pair_inputs (above k level) -> x ∈ level_inputs todo level.
Proof.
  revert k level. induction todo as [|t IH]; intros k level Hk Hx; [lia|]. cbn [level_inputs].
  apply elem_of_app. destruct k as [|k]; [by left|right].
  apply (IH k); [lia|]. unfold above in *. by rewrite <- Nat.iter_succ_r.
Qed.

(** A level entry: a leaf or the padding below, a hashed pair above. *)
Lemma level_entry (leaves : list (Address * Z)) (k j : nat) (h : list Z) :
  (k <= tree_depth (length leaves))%nat -> above k (pad (leaf_level leaves)) !! j = Some h ->
  match k with
  | O => h = hash_elements_zero \/
         exists p, leaves !! j = Some p /\ h = hash_elements (leaf_input (Z.of_nat j) p.1 p.2) /\
           leaf_input (Z.of_nat j) p.1 p.2 ∈ tree_inputs leaves
  | S k' => exists l r, above k' (pad (leaf_level leaves)) !! (2 * j)%nat = Some l /\
      above k' (pad (leaf_level leaves)) !! (2 * j + 1)%nat = Some r /\
      h = hash_elements (pair_input l r) /\ pair_input l r ∈ tree_inputs leaves
  end.
Proof.
  intros Hk E. destruct k as [|k].
  - cbn in E. unfold pad in E. apply lookup_app_Some in E as [E|[_ E]].
    + right. rewrite leaf_level_lookup in E. destruct (leaves !! j) as [p|] eqn:Ep; [|done].
      injection E as <-. exists p. split_and!; try done. apply elem_of_app. left.
      apply list_elem_of_lookup. exists j. by rewrite list_lookup_imap, Ep.
    + left. by apply lookup_replicate in E as [-> _].
  - apply parents_inv in E as (l & r & El & Er & -> & Hin). exists l, r. split_and!; try done.
    apply elem_of_app. right. by apply (above_inputs k).
Qed.

(** *** The walk *)

Lemma walk_cons (index : Z) (node x : list Z) (s : list (list Z)) :
  walk index node (x :: s) = walk (Z.shiftr index 1) (hash_elements (step_input index node x)) s.
Proof. cbn [walk]. unfold step_input. by destruct (Z.land index 1 =? 0). Qed.

Lemma walk_snoc (index : Z) (node x : list Z) (s : list (list Z)) :
  let e := step_input (Z.shiftr index (len s)) (walk index node s) x in
  walk index node (s ++ [x]) = hash_elements e /\
  walk_inputs index node (s ++ [x]) = walk_inputs index node s ++ [e].
Proof.
  revert index node. induction s as [|y s IH]; intros index node; cbv zeta.
  - cbn [app]. rewrite walk_cons. change (len []) with 0. by rewrite Z.shiftr_0_r.
  - assert (Z.shiftr index (len (y :: s)) = Z.shiftr (Z.shiftr index 1) (len s)) as ->.
    { rewrite Z.shiftr_shiftr by (unfold len; lia). f_equal. unfold len. cbn. lia. }
    cbn [app walk_inputs]. rewrite !walk_cons.
    destruct (IH (Z.shiftr index 1) (hash_elements (step_input index node y))) as [-> ->]. done.
Qed.

(** Everything on the way is the hash of an input of the claim. *)
Lemma walk_hashed (index : Z) (a : Address) (amt : Z) (s : list (list Z)) :
  exists e, e ∈ claim_inputs index a amt s /\ compute_root index a amt s = hash_elements e.
Proof.
  destruct s as [|x s _] using rev_ind; [eexists; split; [left|done]|].
  destruct (walk_snoc index (leaf_hash index a amt) x s) as [E1 E2].
  eexists. split; [|exact E1]. right. rewrite E2. apply elem_of_app. right. by left.
Qed.

Lemma claim_inputs_snoc (index : Z) (a : Address) (amt : Z) (x : list Z) (s : list (list Z)) :
  claim_inputs index a amt s ⊆ claim_inputs index a amt (s ++ [x]).
Proof.
  unfold claim_inputs. destruct (walk_snoc index (leaf_hash index a amt) x s) as [_ ->]. set_solver.
Qed.

(** Nodes are determined by their elements. *)
Definition is_node (h : list Z) : Prop := elements_to_hash (hash256_to_elements h) = h.

Lemma is_node_hash (e : list Z) : is_node (hash_elements e).
Proof. unfold is_node. by rewrite elements_of_hash_elements. Qed.

Lemma is_node_inj (h1 h2 : list Z) :
  is_node h1 -> is_node h2 -> hash256_to_elements h1 = hash256_to_elements h2 -> h1 = h2.
Proof. unfold is_node. congruence. Qed.

Lemma level_node (leaves : list (Address * Z)) (k j : nat) (h : list Z) :
  (k <= tree_depth (length leaves))%nat -> above k (pad (leaf_level leaves)) !! j = Some h -> is_node h.
Proof.
  intros Hk E. apply level_entry in E; [|done].
  destruct k; [destruct E as [->|(p & _ & -> & _)]|destruct E as (l & r & _ & _ & -> & _)];
    [reflexivity|apply is_node_hash..].
Qed.

Lemma step_input_length (index : Z) (node x : list Z) : length (step_input index node x) = 8%nat.
Proof. unfold step_input. by destruct (Z.land index 1 =? 0). Qed.

Lemma pair_input_inj (l r l' r' : list Z) :
  pair_input l r = pair_input l' r' ->
  hash256_to_elements l = hash256_to_elements l' /\ hash256_to_elements r = hash256_to_elements r'.
Proof. intros E. by apply app_inj_1 in E. Qed.

Lemma hash_not_zero (e : list Z) : sponge e <> [0; 0; 0; 0] -> hash_elements e <> hash_elements_zero.
Proof.
  intros H E. apply H. rewrite <- (elements_of_hash_elements e), E. reflexivity.
Qed.

(** A path that meets a node of the tree leads down to the claimed leaf. *)
Lemma walk_sound (leaves : list (Address * Z)) (index : Z) (a : Address) (amt : Z) (S : list (list Z)) :
  no_collision S -> tree_inputs leaves ⊆ S ->
  (forall i p, leaves !! i = Some p -> wf_leaf (Z.of_nat i) p.1 p.2) -> wf_leaf index a amt ->
  forall s k j, claim_inputs index a amt s ⊆ S -> (k <= tree_depth (length leaves))%nat ->
  above k (pad (leaf_level leaves)) !! j = Some (compute_root index a amt s) ->
  leaves !! Z.to_nat index = Some (a, amt).
Proof.
  intros [Hnc Hnz] Ht Hl Hc s. induction s as [|x s IH] using rev_ind; intros k j Hs Hk E.
  - assert (leaf_input index a amt ∈ S) as Hin by (apply Hs; by left).
    pose proof (leaf_input_length index a amt (proj1 (proj2 Hc))) as L1.
    apply level_entry in E; [|done]. destruct k as [|k].
    + destruct E as [E|([b y] & Ej & E & Hy)]; [by apply hash_not_zero in E; [|apply Hnz]|].
      apply hash_elements_inj, Hnc in E; [|done|by apply Ht].
      apply leaf_input_inj in E as (-> & -> & ->); [|done|exact (Hl j _ Ej)]. by rewrite Nat2Z.id.
    + destruct E as (l & r & _ & _ & E & Hy).
      apply hash_elements_inj, Hnc in E; [|done|by apply Ht].
      assert (leaf_input index a amt = pair_input l r) as E' by exact E. by rewrite E', pair_input_length in L1.
  - destruct (walk_snoc index (leaf_hash index a amt) x s) as [E1 E2]. set (e := step_input _ _ x) in *.
    assert (e ∈ S) as Hin.
    { apply Hs. right. rewrite E2. apply elem_of_app. right. by left. }
    unfold compute_root in E. rewrite E1 in E. apply level_entry in E as H; [|done]. destruct k as [|k].
    + destruct H as [H|([b y] & Ej & H & Hy)]; [by apply hash_not_zero in H; [|apply Hnz]|].
      apply hash_elements_inj, Hnc in H; [|done|by apply Ht].
      pose proof (leaf_input_length (Z.of_nat j) b y (proj1 (proj2 (Hl j _ Ej)))) as L.
      cbn [fst snd] in H. by rewrite <- H in L; unfold e in L; rewrite step_input_length in L.
    + destruct H as (l & r & El & Er & H & Hy). apply hash_elements_inj, Hnc in H; [|done|by apply Ht].
      assert (claim_inputs index a amt s ⊆ S) as Hs' by (etrans; [apply claim_inputs_snoc|exact Hs]).
      assert (is_node (compute_root index a amt s)) as Hn.
      { destruct (walk_hashed index a amt s) as (e' & _ & ->). apply is_node_hash. }
      fold (compute_root index a amt s) in e. unfold e, step_input in H.
      destruct (Z.land _ 1 =? 0); apply pair_input_inj in H as [H1 H2].
      * apply is_node_inj in H1; [|done|apply (level_node leaves k _ _ ltac:(lia) El)].
        apply (IH k (2 * j)%nat); [done|lia|by rewrite El, H1].
      * apply is_node_inj in H2; [|done|apply (level_node leaves k _ _ ltac:(lia) Er)].
        apply (IH k (2 * j + 1)%nat); [done|lia|by rewrite Er, H2].
Qed.

(** Soundness: a claim that is accepted against the root of a tree is a leaf
    of that tree, at the claimed index and with the claimed address and amount,
    for a proof of any length and any siblings, provided the sponge has no
    collision among the inputs hashed to build this tree and to check this
    claim, and maps none of them to the padding. *)
Theorem accepted_claim_is_leaf (leaves : list (Address * Z)) (root : list Z)
    (proofs : list (list (list Z))) (index : Z) (a : Address) (amt : Z) (siblings : list (list Z)) :
  build_tree leaves = Some (root, proofs) -> len leaves < 2 ^ 64 ->
  Forall (fun p => address_ok p.1 /\ in_range u128 p.2) leaves -> wf_leaf index a amt ->
  no_collision (tree_inputs leaves ++ claim_inputs index a amt siblings) ->
  verify_proof index a amt siblings root = true ->
  leaves !! Z.to_nat index = Some (a, amt).
Proof.
  intros E Hn Hl Hc Hnc Hv. apply bool_decide_eq_true in Hv.
  destruct leaves as [|x leaves']; [done|]. set (leaves := x :: leaves') in *.
  apply (inj Some) in E. cbv zeta in E. rewrite build_levels_spec in E.
  apply (f_equal fst) in E. cbn [fst] in E.
  assert (length (leaf_level leaves) = length leaves) as Ll by apply length_imap.
  rewrite Ll in E. set (d := tree_depth (length leaves)) in *.
  assert (length (above d (pad (leaf_level leaves))) = 1)%nat as L1.
  { change 1%nat with (2 ^ 0)%nat. apply above_length. rewrite pad_length, Ll, Nat.add_0_r; [done|cbn; lia]. }
  destruct (lookup_lt_is_Some_2 (above d (pad (leaf_level leaves))) 0) as [h Eh]; [lia|].
  rewrite Eh in E. cbn in E. subst h. rewrite <- Hv in Eh.
  eapply (walk_sound leaves index a amt _ Hnc); [..|exact Eh]; try done; [set_solver|..|set_solver].
  intros i p Ep. rewrite Forall_forall in Hl. destruct (Hl p) as [Ha Hp].
  { by eapply list_elem_of_lookup_2. }
  apply lookup_lt_Some in Ep. unfold len in Hn. split; [unfold in_range; lia|done].
Qed.
End Sound.

(** [no_collision] of a concrete list, by evaluation. *)
Definition collision_free {P : Primitives} (s : list (list Z)) : bool :=
  bool_decide (Forall (fun x => sponge x <> [0; 0; 0; 0] /\ Forall (fun y => sponge x = sponge y -> x = y) s) s).

Lemma collision_free_spec {P : Primitives} (s : list (list Z)) : collision_free s = true -> no_collision s.
Proof.
  intros H%bool_decide_eq_true. rewrite Forall_forall in H. split.
  - intros x y Hx Hy. destruct (H x Hx) as [_ Hf]. rewrite Forall_forall in Hf. by apply Hf.
  - intros x Hx. by destruct (H x Hx).
Qed.

Lemma accepted_claim_is_leaf_witness :
  let leaves := [(replicate 32 1, 10); (replicate 32 2, 20); (replicate 32 3, 30)] in
  match build_tree leaves with
  | Some (root, proofs) =>
      verify_proof 2 (replicate 32 3) 30 (default [] (proofs !! 2%nat)) root = true /\
      leaves !! Z.to_nat 2 = Some (replicate 32 3, 30)
  | None => False
  end.
Proof.
  intros leaves. destruct (build_tree leaves) as [[root proofs]|] eqn:E; [|discriminate E].
  assert (verify_proof 2 (replicate 32 3) 30 (default [] (proofs !! 2%nat)) root = true) as Hv.
  { vm_compute in E. injection E as <- <-. vm_compute. reflexivity. }
  split; [exact Hv|].
  assert (forall k, byte_ok k -> address_ok (replicate 32 k)) as Ha.
  { intros k Hk. split; [reflexivity|by apply Forall_replicate]. }
  apply (accepted_claim_is_leaf leaves root proofs 2 (replicate 32 3) 30 _ E) in Hv.
  - exact Hv.
  - reflexivity.
  - repeat (constructor; [split; [apply Ha|]; split; discriminate || reflexivity|]). constructor.
  - split; [split; discriminate || reflexivity|]. split; [apply Ha|]; split; discriminate || reflexivity.
  - apply collision_free_spec. vm_compute in E. injection E as <- <-. vm_compute. reflexivity.
Defined.
