(* ===== verification/Multisig.v ===== *)
(** * Treasury multisig and emergency payloads

    The wire formats, signed preimages and signature counting of
    [tx/src/multisig.rs].  An [assert!] that fails is [None]; error messages are
    the strings of the source. *)

From stdpp Require Import base numbers list option strings gmap.
From Stdlib Require Import ZArith Lia.
From S2P Require Import Prelude Crypto Wire.

#[local] Open Scope Z_scope.

Definition MULTISIG_VERSION : Z := 0x01.
Definition MAX_SIGNERS : Z := 16.

Record SigEntry : Type := mkSig {
  signer_index : Z;
  sig_bytes : list Z
}.

Record MultisigSpend : Type := mkSpend {
  target : Address;
  spend_value : Z;
  data_digest : list Z
}.

Record MultisigRotate : Type := mkRotate {
  new_signer_pks : list (list Z);
  new_threshold : Z
}.

Inductive MultisigPayload : Type :=
| Spend (spend : MultisigSpend) (sigs : list SigEntry)
| Rotate (rotate : MultisigRotate) (sigs : list SigEntry).

Definition EMERGENCY_PAUSE_TAG : Z := 0x03.
Definition EMERGENCY_RESUME_TAG : Z := 0x04.
Definition SPEND_TAG : Z := 0x01.
Definition ROTATE_TAG : Z := 0x02.

Record EmergencyPausePayload : Type := mkPause {
  duration_slots : Z;
  pause_sigs : list SigEntry
}.

Record EmergencyResumePayload : Type := mkResume {
  resume_sigs : list SigEntry
}.

(** ** Signature slates *)

Definition encode_sig (e : SigEntry) : list Z :=
  [signer_index e] ++ write_prefixed 2 (sig_bytes e).

Definition encode_sigs (sigs : list SigEntry) : option (list Z) :=
  if MAX_SIGNERS <? len sigs then None
  else Some ([len sigs] ++ concat (encode_sig <$> sigs)).

(** One turn of the loop of [decode_sigs]. *)
Definition decode_sig (rest : list Z) : option (SigEntry * list Z) :=
  if len rest <? 3 then None
  else
    match read_bytes_n (le_at 1 2 rest) (drop 3 rest) with
    | Some (signature, rest') => Some (mkSig (byte_at 0 rest) signature, rest')
    | None => None
    end.

Definition decode_sigs (bytes : list Z) : option (list SigEntry) :=
  match bytes with
  | [] => None
  | count :: rest =>
      if (count =? 0) || (MAX_SIGNERS <? count) then None
      else
        match read_many decode_sig (Z.to_nat count) rest with
        | Some (out, []) => Some out
        | _ => None
        end
  end.

(** ** Spend and rotate bodies *)

Definition spend_encode_body (s : MultisigSpend) : list Z :=
  target s ++ le_encode 16 (spend_value s) ++ data_digest s.

Definition spend_decode_body (bytes : list Z) : option (MultisigSpend * list Z) :=
  if len bytes <? 32 + 16 + 32 then None
  else Some (mkSpend (slice 0 32 bytes) (le_at 32 16 bytes) (slice 48 32 bytes), drop 80 bytes).

(** [assert_eq!(pk.len(), 897)] on every key. *)
Definition pks_ok (pks : list (list Z)) : bool := forallb (fun pk => len pk =? 897) pks.

Definition rotate_encode_body (r : MultisigRotate) : option (list Z) :=
  if pks_ok (new_signer_pks r) then
    Some ([wrap u8 (len (new_signer_pks r))] ++ concat (new_signer_pks r) ++ [new_threshold r])
  else None.

(** [bytes[off..off + 897]] for [off = 1 + i * 897], [i] in [0..count]. *)
Definition pk_rows (count : nat) (bytes : list Z) : list (list Z) :=
  (fun i => slice (1 + i * 897) 897 bytes) <$> seq 0 count.

Definition rotate_decode_body (bytes : list Z) : option (MultisigRotate * list Z) :=
  match bytes with
  | [] => None
  | count :: _ =>
      if (count =? 0) || (MAX_SIGNERS <? count) then None
      else
        let needed := 1 + count * 897 + 1 in
        if len bytes <? needed then None
        else
          let pks := pk_rows (Z.to_nat count) bytes in
          let threshold := byte_at (Z.to_nat (1 + count * 897)) bytes in
          Some (mkRotate pks threshold, drop (Z.to_nat needed) bytes)
  end.

(** ** Payloads *)

Definition payload_encode (p : MultisigPayload) : option (list Z) :=
  match p with
  | Spend spend sigs =>
      match encode_sigs sigs with
      | Some s => Some ([MULTISIG_VERSION; SPEND_TAG] ++ spend_encode_body spend ++ s)
      | None => None
      end
  | Rotate rotate sigs =>
      match rotate_encode_body rotate, encode_sigs sigs with
      | Some b, Some s => Some ([MULTISIG_VERSION; ROTATE_TAG] ++ b ++ s)
      | _, _ => None
      end
  end.

Definition payload_decode (bytes : list Z) : option MultisigPayload :=
  match bytes with
  | version :: tag :: rest =>
      if negb (version =? MULTISIG_VERSION) then None
      else if tag =? SPEND_TAG then
        match spend_decode_body rest with
        | Some (spend, rest) => Spend spend <$> decode_sigs rest
        | None => None
        end
      else if tag =? ROTATE_TAG then
        match rotate_decode_body rest with
        | Some (rotate, rest) => Rotate rotate <$> decode_sigs rest
        | None => None
        end
      else None
  | _ => None
  end.

Definition pause_encode (p : EmergencyPausePayload) : option (list Z) :=
  match encode_sigs (pause_sigs p) with
  | Some s => Some ([MULTISIG_VERSION; EMERGENCY_PAUSE_TAG] ++ le_encode 8 (duration_slots p) ++ s)
  | None => None
  end.

Definition pause_decode (bytes : list Z) : option EmergencyPausePayload :=
  if (len bytes <? 2 + 8) || negb (byte_at 0 bytes =? MULTISIG_VERSION) ||
     negb (byte_at 1 bytes =? EMERGENCY_PAUSE_TAG) then None
  else mkPause (le_at 2 8 bytes) <$> decode_sigs (drop 10 bytes).

Definition resume_encode (p : EmergencyResumePayload) : option (list Z) :=
  match encode_sigs (resume_sigs p) with
  | Some s => Some ([MULTISIG_VERSION; EMERGENCY_RESUME_TAG] ++ s)
  | None => None
  end.

Definition resume_decode (bytes : list Z) : option EmergencyResumePayload :=
  if (len bytes <? 2) || negb (byte_at 0 bytes =? MULTISIG_VERSION) ||
     negb (byte_at 1 bytes =? EMERGENCY_RESUME_TAG) then None
  else mkResume <$> decode_sigs (drop 2 bytes).

(** ** The signer set in state *)

Definition encode_signer_set (pks : list (list Z)) : option (list Z) :=
  if (MAX_SIGNERS <? len pks) || negb (pks_ok pks) then None
  else Some ([len pks] ++ concat pks).

Definition decode_signer_set (bytes : list Z) : option (list (list Z)) :=
  match bytes with
  | [] => None
  | count :: _ =>
      if (count =? 0) || (MAX_SIGNERS <? count) then None
      else if negb (len bytes =? 1 + count * 897) then None
      else Some (pk_rows (Z.to_nat count) bytes)
  end.

(** ** What the signers sign *)

(** [b"PAUSE"] and [b"RESUME"] *)
Definition PAUSE_LABEL : list Z := [80; 65; 85; 83; 69].
Definition RESUME_LABEL : list Z := [82; 69; 83; 85; 77; 69].

Definition spend_preimage (s : MultisigSpend) (nonce chain_id : Z) : list Z :=
  le_encode 8 chain_id ++ le_encode 8 nonce ++ target s ++ le_encode 16 (spend_value s) ++ data_digest s.

Definition rotate_preimage (r : MultisigRotate) (nonce chain_id : Z) : list Z :=
  le_encode 8 chain_id ++ le_encode 8 nonce ++ [wrap u8 (len (new_signer_pks r))] ++
  concat (new_signer_pks r) ++ [new_threshold r].

Definition pause_preimage (duration nonce chain_id : Z) : list Z :=
  le_encode 8 chain_id ++ le_encode 8 nonce ++ PAUSE_LABEL ++ le_encode 8 duration.

Definition resume_preimage (nonce chain_id : Z) : list Z :=
  le_encode 8 chain_id ++ le_encode 8 nonce ++ RESUME_LABEL.

Section Signing.
Context {P : Primitives}.

Definition spend_signing_bytes (s : MultisigSpend) (nonce chain_id : Z) : list Z :=
  poseidon2_hash (spend_preimage s nonce chain_id).
Definition rotate_signing_bytes (r : MultisigRotate) (nonce chain_id : Z) : list Z :=
  poseidon2_hash (rotate_preimage r nonce chain_id).
Definition pause_signing_bytes (p : EmergencyPausePayload) (nonce chain_id : Z) : list Z :=
  poseidon2_hash (pause_preimage (duration_slots p) nonce chain_id).
Definition resume_signing_bytes (nonce chain_id : Z) : list Z :=
  poseidon2_hash (resume_preimage nonce chain_id).

(** ** Signature verification *)

Definition verify_sig_entry (entry : SigEntry) (signer_pks : list (list Z)) (signing_bytes : list Z) :
    option Z :=
  match signer_pks !! Z.to_nat (signer_index entry) with
  | None => None
  | Some pk_bytes =>
      match FalconPublicKey_from_bytes pk_bytes, FalconSignature_from_bytes (sig_bytes entry) with
      | Some pk, Some sig => if falcon_verify pk signing_bytes sig then Some (signer_index entry) else None
      | _, _ => None
      end
  end.

(** The loop of [count_valid_sigs]: the array of seen indices and the count. *)
Fixpoint count_sigs (signer_pks : list (list Z)) (signing_bytes : list Z) (seen : list bool) (valid : Z)
    (sigs : list SigEntry) : Result Z string :=
  match sigs with
  | [] => Ok valid
  | entry :: sigs' =>
      let idx := signer_index entry in
      if MAX_SIGNERS <=? idx then Err "signer_index out of bounds"%string
      else if default false (seen !! Z.to_nat idx) then Err "duplicate signer_index in payload"%string
      else
        let valid' := if is_some (verify_sig_entry entry signer_pks signing_bytes) then valid + 1 else valid in
        count_sigs signer_pks signing_bytes (<[Z.to_nat idx := true]> seen) valid' sigs'
  end.

Definition count_valid_sigs (sigs : list SigEntry) (signer_pks : list (list Z)) (signing_bytes : list Z) :
    Result Z string :=
  count_sigs signer_pks signing_bytes (replicate (Z.to_nat MAX_SIGNERS) false) 0 sigs.
End Signing.

(** ** The codecs *)

Definition wf_sig (e : SigEntry) : Prop := byte_ok (signer_index e) /\ len (sig_bytes e) < 2 ^ 16.

Definition wf_sigs (sigs : list SigEntry) : Prop :=
  1 <= len sigs <= MAX_SIGNERS /\ Forall wf_sig sigs.

Definition wf_pks (pks : list (list Z)) : Prop :=
  1 <= len pks <= MAX_SIGNERS /\ Forall (fun pk => length pk = 897%nat) pks.

Definition wf_spend (s : MultisigSpend) : Prop :=
  length (target s) = 32%nat /\ in_range u128 (spend_value s) /\ length (data_digest s) = 32%nat.

Definition wf_payload (p : MultisigPayload) : Prop :=
  match p with
  | Spend s sigs => wf_spend s /\ wf_sigs sigs
  | Rotate r sigs => wf_pks (new_signer_pks r) /\ wf_sigs sigs
  end.

Lemma decode_sig_write (e : SigEntry) (rest : list Z) :
  wf_sig e -> decode_sig (encode_sig e ++ rest) = Some (e, rest).
Proof.
  intros [_ Hs]. unfold encode_sig, write_prefixed. rewrite <- !app_assoc. unfold decode_sig.
  rewrite (le_at_write 1 2 _ [signer_index e]) by (done || unfold len in *; lia).
  rewrite byte_at_here. wire. rewrite read_bytes_n_app.
  destruct (Z.ltb_spec (len ([signer_index e] ++ le_encode 2 (len (sig_bytes e)) ++ sig_bytes e ++ rest)) 3) as [H|_];
    [|by destruct e].
  unfold len in H at 1. rewrite !length_app, length_le_encode in H. cbn in H. lia.
Qed.

Lemma decode_sig_Some (s : list Z) (e : SigEntry) (rest : list Z) :
  bytes_ok s -> decode_sig s = Some (e, rest) -> s = encode_sig e ++ rest /\ wf_sig e /\ bytes_ok rest.
Proof.
  intros Hs. unfold decode_sig. destruct (Z.ltb_spec (len s) 3) as [|L]; [done|].
  destruct (read_bytes_n _ _) as [[sg r]|] eqn:E; [|done]. intros [= <- <-].
  pose proof (le_at_range 1 2 s Hs) as Rl. apply read_bytes_n_Some in E as [Ed Lsg]; [|lia].
  assert (s = slice 0 1 s ++ slice 1 2 s ++ sg ++ r) as Es.
  { rewrite <- Ed. rewrite <- (drop_0 s) at 1. by rewrite (drop_slice 0 1), (drop_slice 1 2). }
  pose proof (Forall_drop _ 3 _ Hs) as Hd. rewrite Ed in Hd. apply Forall_app in Hd as [_ Hr].
  unfold len in L. split; [|split; [split; [by apply byte_at_ok|]|done]].
  - unfold encode_sig, write_prefixed. cbn [signer_index sig_bytes].
    rewrite Lsg, le_encode_at, byte_at_slice by (done || lia). rewrite <- !app_assoc. exact Es.
  - cbn [sig_bytes]. rewrite Lsg. exact (proj2 Rl).
Qed.

Lemma decode_encode_sigs (sigs : list SigEntry) :
  wf_sigs sigs -> exists b, encode_sigs sigs = Some b /\ decode_sigs b = Some sigs.
Proof.
  intros [L W]. unfold encode_sigs. destruct (Z.ltb_spec MAX_SIGNERS (len sigs)); [lia|].
  eexists. split; [done|]. cbn [app decode_sigs].
  destruct (Z.eqb_spec (len sigs) 0); [lia|]. destruct (Z.ltb_spec MAX_SIGNERS (len sigs)); [lia|].
  unfold len at 1. rewrite Nat2Z.id, <- (app_nil_r (concat _)). cbn [orb].
  rewrite (read_many_write decode_sig encode_sig); [done|]. intros e rest He.
  apply decode_sig_write. rewrite Forall_forall in W. by apply W.
Qed.

Lemma encode_decode_sigs (b : list Z) (sigs : list SigEntry) :
  bytes_ok b -> decode_sigs b = Some sigs -> wf_sigs sigs /\ encode_sigs sigs = Some b.
Proof.
  intros Hb. unfold decode_sigs. destruct b as [|c rest]; [done|].
  apply Forall_cons in Hb as [Hc Hrest]. unfold byte_ok in Hc.
  destruct (Z.eqb_spec c 0); [done|]. destruct (Z.ltb_spec MAX_SIGNERS c) as [|Hm]; [done|]. cbn [orb].
  destruct (read_many _ _ _) as [[out [|]]|] eqn:E; [|done..]. intros [= <-].
  destruct (read_many_inv _ _ _ _ _ _ _ _ decode_sig_Some Hrest E) as (-> & Hl & W & _).
  assert (len out = c) as Hlen by (unfold len; lia). unfold wf_sigs, encode_sigs. rewrite Hlen.
  destruct (Z.ltb_spec MAX_SIGNERS c); [lia|]. rewrite app_nil_r. split; [|done]. split; [lia|done].
Qed.

(** Rows of equal length. *)
Lemma length_rows (n : nat) (l : list (list Z)) :
  Forall (fun r => length r = n) l -> length (concat l) = (length l * n)%nat.
Proof. induction 1 as [|x l Hx _ IH]; [done|]. cbn [concat length]. rewrite length_app, Hx, IH. lia. Qed.

Lemma pk_rows_concat (c : Z) (pks : list (list Z)) (rest : list Z) :
  Forall (fun pk => length pk = 897%nat) pks -> pk_rows (length pks) ([c] ++ concat pks ++ rest) = pks.
Proof.
  intros H. unfold pk_rows. apply list_eq. intros i. rewrite list_lookup_fmap.
  destruct (lt_dec i (length pks)) as [Hi|Hi].
  - rewrite lookup_seq_lt by done. cbn [fmap option_fmap option_map]. destruct (lookup_lt_is_Some_2 pks i Hi) as [pk E].
    rewrite E. f_equal. rewrite <- (take_drop_middle pks i pk E) at 1.
    pose proof (take_drop_middle pks i pk E) as Ep. rewrite <- Ep in H.
    apply Forall_app in H as [Ht H]. apply Forall_cons in H as [Hpk _].
    rewrite concat_app. cbn [concat]. rewrite <- !app_assoc.
    assert (length (concat (take i pks)) = (i * 897)%nat) as Lc.
    { rewrite (length_rows 897), length_take_le by (done || lia). lia. }
    rewrite slice_skip by (cbn; lia). cbn [length].
    replace (1 + (0 + i) * 897 - 1)%nat with (i * 897)%nat by lia.
    rewrite slice_skip by lia. rewrite Lc, Nat.sub_diag. by apply slice_here.
  - rewrite lookup_seq_ge by lia. symmetry. apply lookup_ge_None. lia.
Qed.

Lemma pk_rows_spec (n : nat) (bytes : list Z) :
  (1 + n * 897 <= length bytes)%nat ->
  concat (pk_rows n bytes) = slice 1 (n * 897) bytes /\
  Forall (fun pk => length pk = 897%nat) (pk_rows n bytes) /\ length (pk_rows n bytes) = n.
Proof.
  induction n as [|n IH]; intros H; [done|]. destruct IH as (E & F & L); [lia|].
  assert (pk_rows (S n) bytes = pk_rows n bytes ++ [slice (1 + n * 897) 897 bytes]) as Er.
  { unfold pk_rows. by rewrite seq_S, fmap_app. }
  rewrite Er, concat_app, E, length_app, L. cbn [concat length]. rewrite app_nil_r. split_and!.
  - unfold slice. rewrite <- drop_drop, take_take_drop. f_equal. lia.
  - apply Forall_app. split; [done|]. constructor; [|done].
    unfold slice. rewrite length_take, length_drop. lia.
  - lia.
Qed.

Lemma pks_ok_true (pks : list (list Z)) :
  Forall (fun pk => length pk = 897%nat) pks -> pks_ok pks = true.
Proof.
  intros H. unfold pks_ok. apply forallb_forall. intros pk Hpk. apply Z.eqb_eq.
  rewrite Forall_forall in H. unfold len. rewrite H; [done|]. by apply list_elem_of_In.
Qed.

Lemma spend_body_codec (s : MultisigSpend) (rest : list Z) :
  wf_spend s -> spend_decode_body (spend_encode_body s ++ rest) = Some (s, rest).
Proof.
  intros (Ht & Hv & Hd). unfold spend_encode_body, spend_decode_body. rewrite <- !app_assoc.
  destruct (Z.ltb_spec (len (target s ++ le_encode 16 (spend_value s) ++ data_digest s ++ rest)) (32 + 16 + 32)) as [L|_].
  { unfold len in L. rewrite !length_app, length_le_encode in L. lia. }
  wire. rewrite le_decode_encode by done. by destruct s.
Qed.

Lemma spend_body_Some (b rest : list Z) (s : MultisigSpend) :
  bytes_ok b -> spend_decode_body b = Some (s, rest) ->
  b = spend_encode_body s ++ rest /\ wf_spend s /\ bytes_ok rest.
Proof.
  intros Hb. unfold spend_decode_body. destruct (Z.ltb_spec (len b) (32 + 16 + 32)) as [|L]; [done|].
  intros [= <- <-]. unfold len in L. unfold spend_encode_body, wf_spend. cbn [target spend_value data_digest].
  rewrite le_encode_at by (done || lia). rewrite <- !app_assoc. split_and!; [| |exact (le_at_range 32 16 b Hb)| |].
  - rewrite <- (drop_0 b) at 1. by rewrite (drop_slice 0 32), (drop_slice 32 16), (drop_slice 48 32).
  - unfold slice. rewrite length_take, length_drop. lia.
  - unfold slice. rewrite length_take, length_drop. lia.
  - by apply Forall_drop.
Qed.

Lemma rotate_body_codec (r : MultisigRotate) (rest : list Z) :
  wf_pks (new_signer_pks r) ->
  exists b, rotate_encode_body r = Some b /\ rotate_decode_body (b ++ rest) = Some (r, rest).
Proof.
  intros [L F]. unfold rotate_encode_body. rewrite pks_ok_true by done. eexists. split; [done|].
  destruct r as [pks t]. cbn [new_signer_pks new_threshold] in *. change MAX_SIGNERS with 16 in *.
  rewrite wrap_small by (unfold in_range; lia). rewrite <- !app_assoc.
  pose proof (length_rows 897 pks F) as Lc. unfold rotate_decode_body. change MAX_SIGNERS with 16.
  set (d := [len pks] ++ _). unfold len in L.
  assert (length d = 1 + length pks * 897 + 1 + length rest)%nat as Ld.
  { unfold d. rewrite !length_app, Lc. cbn [length]. lia. }
  change d with (len pks :: (concat pks ++ [t] ++ rest)) at 1. cbv iota.
  unfold len. destruct (Z.eqb_spec (Z.of_nat (length pks)) 0); [lia|].
  destruct (Z.ltb_spec 16 (Z.of_nat (length pks))); [lia|]. cbn [orb].
  destruct (Z.ltb_spec (Z.of_nat (length d)) (1 + Z.of_nat (length pks) * 897 + 1)); [lia|].
  replace (Z.to_nat (1 + Z.of_nat (length pks) * 897 + 1)) with (1 + length pks * 897 + 1)%nat by lia.
  replace (Z.to_nat (1 + Z.of_nat (length pks) * 897)) with (1 + length pks * 897)%nat by lia.
  rewrite Nat2Z.id. unfold d. rewrite pk_rows_concat by done.
  assert (d = ([len pks] ++ concat pks) ++ [t] ++ rest) as Ed by (unfold d; by rewrite <- app_assoc).
  fold d. rewrite Ed, byte_at_skip, drop_skip; rewrite ?length_app, ?Lc; cbn [length]; [|lia..].
  replace (1 + length pks * 897 - (1 + length pks * 897))%nat with 0%nat by lia.
  by replace (1 + length pks * 897 + 1 - (1 + length pks * 897))%nat with 1%nat by lia.
Qed.

Lemma rotate_body_Some (b rest : list Z) (r : MultisigRotate) :
  bytes_ok b -> rotate_decode_body b = Some (r, rest) ->
  exists h, rotate_encode_body r = Some h /\ b = h ++ rest /\ wf_pks (new_signer_pks r) /\ bytes_ok rest.
Proof.
  intros Hb. unfold rotate_decode_body. destruct b as [|c b']; [done|]. set (b := c :: b') in *.
  pose proof (Forall_inv Hb) as Hc. unfold byte_ok in Hc. change MAX_SIGNERS with 16.
  destruct (Z.eqb_spec c 0); [done|]. destruct (Z.ltb_spec 16 c) as [|Hm]; [done|]. cbn [orb].
  destruct (Z.ltb_spec (len b) (1 + c * 897 + 1)) as [|L]; [done|]. intros [= <- <-].
  unfold len in L. set (k := Z.to_nat c). assert (Z.of_nat k = c) as Hk by lia.
  replace (Z.to_nat (1 + c * 897 + 1)) with (1 + k * 897 + 1)%nat by lia.
  replace (Z.to_nat (1 + c * 897)) with (1 + k * 897)%nat by lia.
  destruct (pk_rows_spec k b) as (Ec & F & Lr); [lia|].
  exists ([c] ++ slice 1 (k * 897) b ++ slice (1 + k * 897) 1 b). split_and!.
  - unfold rotate_encode_body. cbn [new_signer_pks new_threshold]. rewrite pks_ok_true by done.
    unfold len. rewrite Lr, Hk, wrap_small, Ec, byte_at_slice by (unfold in_range; lia). done.
  - change [c] with (slice 0 1 b). rewrite <- !app_assoc, <- (drop_0 b) at 1.
    by rewrite (drop_slice 0 1), (drop_slice 1 (k * 897)), (drop_slice (1 + k * 897) 1).
  - unfold wf_pks, len. cbn [new_signer_pks]. change MAX_SIGNERS with 16. rewrite Lr. split; [lia|done].
  - by apply Forall_drop.
Qed.

Lemma payload_decode_encode (p : MultisigPayload) :
  wf_payload p -> exists b, payload_encode p = Some b /\ payload_decode b = Some p.
Proof.
  destruct p as [s sigs|r sigs]; intros [W1 W2]; destruct (decode_encode_sigs sigs W2) as (bs & E & D);
    cbn [payload_encode]; rewrite E.
  - eexists. split; [done|]. cbn [app payload_decode Z.eqb Pos.eqb negb MULTISIG_VERSION SPEND_TAG].
    by rewrite spend_body_codec, D.
  - destruct (rotate_body_codec r bs W1) as (b & -> & Db). eexists. split; [done|].
    cbn [app payload_decode Z.eqb Pos.eqb negb MULTISIG_VERSION SPEND_TAG ROTATE_TAG]. by rewrite Db, D.
Qed.

Lemma payload_encode_decode (b : list Z) (p : MultisigPayload) :
  bytes_ok b -> payload_decode b = Some p -> wf_payload p /\ payload_encode p = Some b.
Proof.
  unfold payload_decode. destruct b as [|v [|tag rest]]; [done..|]. intros Hb.
  apply Forall_cons in Hb as [_ Hb]. apply Forall_cons in Hb as [_ Hr].
  destruct (Z.eqb_spec v MULTISIG_VERSION) as [->|]; [|done]. cbn [negb].
  destruct (Z.eqb_spec tag SPEND_TAG) as [->|_]; [|destruct (Z.eqb_spec tag ROTATE_TAG) as [->|_]; [|done]].
  - destruct (spend_decode_body rest) as [[s r]|] eqn:E; [|done].
    destruct (decode_sigs r) as [sigs|] eqn:Es; [|done]. intros [= <-].
    apply spend_body_Some in E as (-> & Ws & Br); [|done]. apply encode_decode_sigs in Es as [W Es]; [|done].
    cbn [payload_encode wf_payload]. by rewrite Es.
  - destruct (rotate_decode_body rest) as [[s r]|] eqn:E; [|done].
    destruct (decode_sigs r) as [sigs|] eqn:Es; [|done]. intros [= <-].
    apply rotate_body_Some in E as (h & Eh & -> & Ws & Br); [|done].
    apply encode_decode_sigs in Es as [W Es]; [|done].
    cbn [payload_encode wf_payload]. by rewrite Eh, Es.
Qed.

Lemma pause_decode_encode (p : EmergencyPausePayload) :
  in_range u64 (duration_slots p) -> wf_sigs (pause_sigs p) ->
  exists b, pause_encode p = Some b /\ pause_decode b = Some p.
Proof.
  intros Hd Ws. destruct (decode_encode_sigs _ Ws) as (bs & E & D). unfold pause_encode. rewrite E.
  eexists. split; [done|]. unfold pause_decode. set (d := _ ++ le_encode 8 _ ++ bs).
  destruct (Z.ltb_spec (len d) (2 + 8)) as [L|_].
  { unfold len, d in L. rewrite !length_app, length_le_encode in L. cbn in L. lia. }
  change (byte_at 0 d) with MULTISIG_VERSION. change (byte_at 1 d) with EMERGENCY_PAUSE_TAG.
  rewrite !Z.eqb_refl. cbn [negb orb]. unfold d. wire. rewrite D, le_decode_encode by done. by destruct p.
Qed.

Lemma pause_encode_decode (b : list Z) (p : EmergencyPausePayload) :
  bytes_ok b -> pause_decode b = Some p ->
  in_range u64 (duration_slots p) /\ wf_sigs (pause_sigs p) /\ pause_encode p = Some b.
Proof.
  intros Hb. unfold pause_decode. destruct (Z.ltb_spec (len b) (2 + 8)) as [|L]; [done|]. cbn [orb].
  destruct (Z.eqb_spec (byte_at 0 b) MULTISIG_VERSION) as [E0|]; [|done].
  destruct (Z.eqb_spec (byte_at 1 b) EMERGENCY_PAUSE_TAG) as [E1|]; [|done]. cbn [negb orb].
  destruct (decode_sigs (drop 10 b)) as [sigs|] eqn:Es; [|done]. intros [= <-].
  apply encode_decode_sigs in Es as [W Es]; [|by apply Forall_drop]. unfold len in L.
  split_and!; [exact (le_at_range 2 8 b Hb)|done|]. unfold pause_encode. cbn [pause_sigs duration_slots].
  rewrite Es, le_encode_at by (done || lia). rewrite <- E0, <- E1.
  change [?x; ?y] with ([x] ++ [y]). rewrite !byte_at_slice by lia. rewrite <- !app_assoc. f_equal.
  rewrite <- (drop_0 b) at 5. by rewrite (drop_slice 0 1), (drop_slice 1 1), (drop_slice 2 8).
Qed.

Lemma resume_decode_encode (p : EmergencyResumePayload) :
  wf_sigs (resume_sigs p) -> exists b, resume_encode p = Some b /\ resume_decode b = Some p.
Proof.
  intros Ws. destruct (decode_encode_sigs _ Ws) as (bs & E & D). unfold resume_encode. rewrite E.
  eexists. split; [done|]. unfold resume_decode. set (d := _ ++ bs).
  destruct (Z.ltb_spec (len d) 2) as [L|_]; [unfold len, d in L; rewrite length_app in L; cbn in L; lia|].
  change (byte_at 0 d) with MULTISIG_VERSION. change (byte_at 1 d) with EMERGENCY_RESUME_TAG.
  rewrite !Z.eqb_refl. cbn [negb orb]. unfold d. wire. rewrite D. by destruct p.
Qed.

Lemma resume_encode_decode (b : list Z) (p : EmergencyResumePayload) :
  bytes_ok b -> resume_decode b = Some p -> wf_sigs (resume_sigs p) /\ resume_encode p = Some b.
Proof.
  intros Hb. unfold resume_decode. destruct (Z.ltb_spec (len b) 2) as [|L]; [done|]. cbn [orb].
  destruct (Z.eqb_spec (byte_at 0 b) MULTISIG_VERSION) as [E0|]; [|done].
  destruct (Z.eqb_spec (byte_at 1 b) EMERGENCY_RESUME_TAG) as [E1|]; [|done]. cbn [negb orb].
  destruct (decode_sigs (drop 2 b)) as [sigs|] eqn:Es; [|done]. intros [= <-].
  apply encode_decode_sigs in Es as [W Es]; [|by apply Forall_drop]. unfold len in L.
  split; [done|]. unfold resume_encode. cbn [resume_sigs]. rewrite Es, <- E0, <- E1.
  change [?x; ?y] with ([x] ++ [y]). rewrite !byte_at_slice by lia. rewrite <- !app_assoc. f_equal.
  rewrite <- (drop_0 b) at 4. by rewrite (drop_slice 0 1), (drop_slice 1 1).
Qed.

Lemma signer_set_codec (pks : list (list Z)) :
  wf_pks pks -> exists b, encode_signer_set pks = Some b /\ decode_signer_set b = Some pks.
Proof.
  intros [L F]. unfold encode_signer_set. rewrite pks_ok_true by done.
  destruct (Z.ltb_spec MAX_SIGNERS (len pks)); [lia|]. eexists. split; [done|].
  unfold decode_signer_set. set (d := [len pks] ++ concat pks).
  assert (len d = 1 + len pks * 897) as Ld.
  { unfold d, len. rewrite length_app, (length_rows 897) by done. cbn [length]. lia. }
  rewrite Ld. unfold d at 1. cbn [app]. destruct (Z.eqb_spec (len pks) 0); [lia|].
  destruct (Z.ltb_spec MAX_SIGNERS (len pks)); [lia|]. rewrite Z.eqb_refl. cbn [orb negb].
  f_equal. unfold len. rewrite Nat2Z.id. unfold d. rewrite <- (app_nil_r (concat pks)) at 1.
  by apply pk_rows_concat.
Qed.

(** The governance payloads have one encoding each: encoding a well-formed
    payload (between 1 and 16 signatures, and for a rotation between 1 and 16
    keys of 897 bytes) succeeds and decodes back to it, and whatever byte string
    a decoder accepts is the encoding of a well-formed payload, so no two byte
    strings carry the same payload and none carries hidden trailing data. *)
Theorem governance_codec :
  (forall p, wf_payload p -> exists b, payload_encode p = Some b /\ payload_decode b = Some p) /\
  (forall b p, bytes_ok b -> payload_decode b = Some p -> wf_payload p /\ payload_encode p = Some b) /\
  (forall p, in_range u64 (duration_slots p) -> wf_sigs (pause_sigs p) ->
     exists b, pause_encode p = Some b /\ pause_decode b = Some p) /\
  (forall b p, bytes_ok b -> pause_decode b = Some p ->
     in_range u64 (duration_slots p) /\ wf_sigs (pause_sigs p) /\ pause_encode p = Some b) /\
  (forall p, wf_sigs (resume_sigs p) -> exists b, resume_encode p = Some b /\ resume_decode b = Some p) /\
  (forall b p, bytes_ok b -> resume_decode b = Some p ->
     wf_sigs (resume_sigs p) /\ resume_encode p = Some b).
Proof.
  split_and!; [apply payload_decode_encode|apply payload_encode_decode|apply pause_decode_encode|
    apply pause_encode_decode|apply resume_decode_encode|apply resume_encode_decode].
Qed.

(** ** What a signature authorises *)

Inductive Action : Type :=
| DoSpend (s : MultisigSpend)
| DoRotate (r : MultisigRotate)
| DoPause (duration : Z)
| DoResume.

Definition action_preimage (a : Action) (nonce chain_id : Z) : list Z :=
  match a with
  | DoSpend s => spend_preimage s nonce chain_id
  | DoRotate r => rotate_preimage r nonce chain_id
  | DoPause d => pause_preimage d nonce chain_id
  | DoResume => resume_preimage nonce chain_id
  end.

Definition action_message {P : Primitives} (a : Action) (nonce chain_id : Z) : list Z :=
  match a with
  | DoSpend s => spend_signing_bytes s nonce chain_id
  | DoRotate r => rotate_signing_bytes r nonce chain_id
  | DoPause d => pause_signing_bytes (mkPause d []) nonce chain_id
  | DoResume => resume_signing_bytes nonce chain_id
  end.

Definition wf_action (a : Action) : Prop :=
  match a with
  | DoSpend s => wf_spend s /\ bytes_ok (target s) /\ bytes_ok (data_digest s)
  | DoRotate r => wf_pks (new_signer_pks r) /\ Forall bytes_ok (new_signer_pks r) /\ byte_ok (new_threshold r)
  | DoPause d => in_range u64 d
  | DoResume => True
  end.

Lemma concat_rows_inj (n : nat) (l1 l2 : list (list Z)) :
  (0 < n)%nat -> Forall (fun r => length r = n) l1 -> Forall (fun r => length r = n) l2 ->
  concat l1 = concat l2 -> l1 = l2.
Proof.
  intros Hn F1. revert l2. induction F1 as [|x l1 Hx F1 IH]; intros [|y l2] F2 E; [done| | |].
  - apply Forall_cons in F2 as [Hy _]. apply (f_equal length) in E. cbn in E. rewrite length_app in E. lia.
  - apply (f_equal length) in E. cbn in E. rewrite length_app in E. lia.
  - apply Forall_cons in F2 as [Hy F2]. cbn in E. apply app_inj_1 in E as [-> E]; [|lia].
    f_equal. by apply IH.
Qed.

Definition action_body (a : Action) : list Z :=
  match a with
  | DoSpend s => spend_encode_body s
  | DoRotate r => [wrap u8 (len (new_signer_pks r))] ++ concat (new_signer_pks r) ++ [new_threshold r]
  | DoPause d => PAUSE_LABEL ++ le_encode 8 d
  | DoResume => RESUME_LABEL
  end.

Lemma action_preimage_body (a : Action) (n c : Z) :
  action_preimage a n c = le_encode 8 c ++ le_encode 8 n ++ action_body a.
Proof. by destruct a. Qed.

Lemma action_body_length (a : Action) :
  wf_action a ->
  length (action_body a) =
    match a with
    | DoSpend _ => 80
    | DoRotate r => 2 + length (new_signer_pks r) * 897
    | DoPause _ => 13
    | DoResume => 6
    end%nat.
Proof.
  destruct a as [s|r|d|]; cbn [wf_action action_body]; [intros ((H1 & _ & H2) & _)|intros ([_ F] & _)|done|done].
  - unfold spend_encode_body. by rewrite !length_app, length_le_encode, H1, H2.
  - rewrite !length_app, (length_rows 897) by done. cbn [length]. lia.
Qed.

Lemma action_body_inj (a1 a2 : Action) :
  wf_action a1 -> wf_action a2 -> action_body a1 = action_body a2 -> a1 = a2.
Proof.
  intros W1 W2 E. pose proof (f_equal length E) as L. rewrite !action_body_length in L by done.
  destruct a1 as [s1|r1|d1|], a2 as [s2|r2|d2|]; try lia; cbn [wf_action action_body] in *.
  - destruct W1 as ((A1 & A2 & A3) & _), W2 as ((B1 & B2 & B3) & _), s1, s2. unfold spend_encode_body in E.
    cbn [target spend_value data_digest] in *. apply app_inj_1 in E as [-> E]; [|lia].
    apply app_inj_1 in E as [E ->]; [|by rewrite !length_le_encode]. by apply le_encode_inj in E as ->.
  - destruct W1 as ([_ F1] & _), W2 as ([_ F2] & _), r1, r2. cbn [new_signer_pks new_threshold] in *.
    apply app_inj_1 in E as [_ E]; [|done]. apply app_inj_tail in E as [E ->].
    by apply (concat_rows_inj 897) in E as ->; [|lia|..].
  - apply app_inv_head in E. by apply le_encode_inj in E as ->.
  - done.
Qed.

Lemma action_preimage_inj (a1 a2 : Action) (n1 n2 c1 c2 : Z) :
  wf_action a1 -> wf_action a2 -> in_range u64 n1 -> in_range u64 n2 -> in_range u64 c1 -> in_range u64 c2 ->
  action_preimage a1 n1 c1 = action_preimage a2 n2 c2 -> a1 = a2 /\ n1 = n2 /\ c1 = c2.
Proof.
  intros W1 W2 Hn1 Hn2 Hc1 Hc2. rewrite !action_preimage_body. intros E.
  apply app_inj_1 in E as [Ec E]; [|by rewrite !length_le_encode].
  apply app_inj_1 in E as [En E]; [|by rewrite !length_le_encode].
  apply le_encode_inj in Ec as ->; [|done..]. apply le_encode_inj in En as ->; [|done..].
  by apply action_body_inj in E as ->.
Qed.

Lemma action_alloc (a : Action) (n c : Z) : wf_action a -> alloc_ok (action_preimage a n c).
Proof.
  intros W. rewrite action_preimage_body. split.
  - do 2 (apply Forall_app; split; [apply le_encode_bytes|]).
    destruct a as [s|r|d|]; cbn [wf_action action_body] in *.
    + destruct W as (_ & H1 & H2). unfold spend_encode_body.
      do 2 (apply Forall_app; split; [first [exact H1|apply le_encode_bytes]|]). done.
    + destruct W as (_ & H1 & H2). apply Forall_app. split; [|apply Forall_app; split; [|by constructor]].
      * constructor; [|done]. apply (wrap_range 8). lia.
      * by apply Forall_concat.
    + apply Forall_app; split; [|apply le_encode_bytes]. repeat (constructor; [unfold byte_ok; lia|]). done.
    + repeat (constructor; [unfold byte_ok; lia|]). done.
  - unfold len. rewrite !length_app, !length_le_encode, action_body_length by done.
    destruct a as [s|r|d|]; try lia. destruct W as ([H _] & _). unfold len, MAX_SIGNERS in H. lia.
Qed.

Section Authority.
Context {P : Primitives} {PO : PrimitivesOk P}.

(** A governance signature authorises one action, once, on one chain: the
    messages of two actions (spend, rotate, pause or resume, with a multisig
    nonce and a chain id) are equal only when action, nonce and chain id are
    equal, or the sponge collides on the two given preimages. *)
Theorem governance_messages_bind (a1 a2 : Action) (n1 n2 c1 c2 : Z) :
  wf_action a1 -> wf_action a2 -> in_range u64 n1 -> in_range u64 n2 -> in_range u64 c1 -> in_range u64 c2 ->
  action_message a1 n1 c1 = action_message a2 n2 c2 ->
  (a1 = a2 /\ n1 = n2 /\ c1 = c2) \/
  sponge_collision (action_preimage a1 n1 c1) (action_preimage a2 n2 c2).
Proof.
  intros W1 W2 Hn1 Hn2 Hc1 Hc2 E.
  assert (poseidon2_hash (action_preimage a1 n1 c1) = poseidon2_hash (action_preimage a2 n2 c2)) as Eh
    by by destruct a1, a2.
  apply poseidon2_hash_eq in Eh as [Eh|]; [left|by right|by apply action_alloc..].
  by apply action_preimage_inj.
Qed.
End Authority.

Lemma governance_messages_bind_witness :
  let P := {| sponge := fun _ => [0; 0; 0; 0]; fn_dsa_verify := fun _ _ _ => false |} in
  (DoPause 5 = DoResume /\ 0 = 1 /\ 7 = 7) \/
  @sponge_collision P (action_preimage (DoPause 5) 0 7) (action_preimage DoResume 1 7).
Proof.
  intros P. assert (PrimitivesOk P) as PO.
  { split; [reflexivity|]. intros l. repeat (constructor; [split; [discriminate|reflexivity]|]). constructor. }
  apply (governance_messages_bind (DoPause 5) DoResume 0 1 7 7); try (split; [discriminate|reflexivity]);
    [exact I|reflexivity].
Defined.

(** ** Counting signers *)

Section Counting.
Context {P : Primitives}.

Definition unseen (seen : list bool) (e : SigEntry) : Prop :=
  signer_index e < MAX_SIGNERS /\ default false (seen !! Z.to_nat (signer_index e)) = false.

(** Signer [i] of the set has a verifying entry in the slate. *)
Definition signed (sigs : list SigEntry) (pks : list (list Z)) (msg : list Z) (i : Z) : Prop :=
  exists e pk, e ∈ sigs /\ signer_index e = i /\ pks !! Z.to_nat i = Some pk /\
    verifies pk msg (sig_bytes e) = true.

Definition valid_entry (pks : list (list Z)) (msg : list Z) (e : SigEntry) : bool :=
  is_some (verify_sig_entry e pks msg).

Lemma count_sigs_Ok (pks : list (list Z)) (msg : list Z) (sigs : list SigEntry) (seen : list bool) (v w : Z) :
  length seen = 16%nat -> Forall (fun e => 0 <= signer_index e) sigs ->
  count_sigs pks msg seen v sigs = Ok w <->
  NoDup (signer_index <$> sigs) /\ Forall (unseen seen) sigs /\
  w = v + len (List.filter (valid_entry pks msg) sigs).
Proof.
  intros Hl Hi. revert seen v Hl. induction Hi as [|e sigs He Hi IH]; intros seen v Hl; cbn [count_sigs]; cbn beta in *.
  { cbn [List.filter]. change (len []) with 0. rewrite Z.add_0_r.
    split; [intros [= ->]; split_and!; [constructor..|done]|by intros (_ & _ & ->)]. }
  unfold MAX_SIGNERS. destruct (Z.leb_spec 16 (signer_index e)) as [Hb|Hb].
  { split; [done|]. intros (_ & F & _). apply Forall_cons in F as [[F _] _]. unfold MAX_SIGNERS in F. lia. }
  destruct (default false (seen !! Z.to_nat (signer_index e))) eqn:Es.
  { split; [done|]. intros (_ & F & _). apply Forall_cons in F as [[_ F] _]. congruence. }
  rewrite IH by by rewrite length_insert. rewrite fmap_cons, NoDup_cons, Forall_cons.
  cbn [List.filter]. fold (valid_entry pks msg e).
  assert (Forall (unseen (<[Z.to_nat (signer_index e) := true]> seen)) sigs <->
          (signer_index e ∉ (signer_index <$> sigs)) /\ Forall (unseen seen) sigs) as ->.
  { rewrite !Forall_forall. split.
    - intros F. split.
      + intros (e' & Ee & He')%list_elem_of_fmap. destruct (F e' He') as [_ F']. rewrite <- Ee in F'.
        rewrite list_lookup_insert_eq in F' by lia. done.
      + intros e' He'. destruct (F e' He') as [F1 F2]. split; [done|].
        destruct (decide (Z.to_nat (signer_index e') = Z.to_nat (signer_index e))) as [E|E].
        * by rewrite E, list_lookup_insert_eq in F2 by lia.
        * by rewrite list_lookup_insert_ne in F2 by done.
    - intros [Hn F] e' He'. destruct (F e' He') as [F1 F2]. split; [done|].
      rewrite list_lookup_insert_ne; [done|]. intros E. apply Hn. apply list_elem_of_fmap. exists e'.
      split; [|done]. rewrite Forall_forall in Hi. specialize (Hi e' He'). cbn in Hi. lia. }
  assert (unseen seen e) as Hu by (split; [exact Hb|exact Es]).
  destruct (valid_entry pks msg e); unfold len; cbn [length]; naive_solver lia.
Qed.

Lemma valid_entry_signed (pks : list (list Z)) (msg : list Z) (e : SigEntry) :
  valid_entry pks msg e = true <->
  exists pk, pks !! Z.to_nat (signer_index e) = Some pk /\ verifies pk msg (sig_bytes e) = true.
Proof.
  unfold valid_entry, verify_sig_entry.
  destruct (pks !! Z.to_nat (signer_index e)) as [pk|]; [|by split; [|intros (? & ? & _)]].
  transitivity (verifies pk msg (sig_bytes e) = true); [|by split; [eauto|intros (? & [= ->] & ?)]].
  unfold verifies.
  destruct (FalconPublicKey_from_bytes pk) as [k|], (FalconSignature_from_bytes (sig_bytes e)) as [g|]; [|done..].
  by destruct (falcon_verify k msg g).
Qed.

(** Signature counting is exact: a slate is counted (rather than refused)
    exactly when its signer indices are distinct and below 16, and the count is
    then the number of different signers of the set that have a verifying
    entry, so repeating an entry never adds to a quorum. *)
Theorem count_valid_sigs_exact (sigs : list SigEntry) (pks : list (list Z)) (msg : list Z) :
  Forall (fun e => byte_ok (signer_index e)) sigs ->
  (is_ok (count_valid_sigs sigs pks msg) = true <->
   NoDup (signer_index <$> sigs) /\ Forall (fun e => signer_index e < MAX_SIGNERS) sigs) /\
  (forall v, count_valid_sigs sigs pks msg = Ok v ->
   exists signers, NoDup signers /\ len signers = v /\ forall i, i ∈ signers <-> signed sigs pks msg i).
Proof.
  intros Hb. unfold count_valid_sigs.
  assert (Forall (fun e => 0 <= signer_index e) sigs) as Hi.
  { eapply Forall_impl; [exact Hb|]. unfold byte_ok. cbn. lia. }
  pose proof (fun w => count_sigs_Ok pks msg sigs (replicate 16 false) 0 w eq_refl Hi) as S.
  split.
  - assert (Forall (unseen (replicate 16 false)) sigs <-> Forall (fun e => signer_index e < MAX_SIGNERS) sigs) as <-.
    { rewrite !Forall_forall. unfold unseen, MAX_SIGNERS. split; intros F e He; [by apply F|].
      split; [by apply F|]. specialize (F e He). rewrite Forall_forall in Hi. specialize (Hi e He). cbn beta in *.
      by rewrite lookup_replicate_2 by lia. }
    change (Z.to_nat MAX_SIGNERS) with 16%nat. split.
    + destruct (count_sigs _ _ _ _ _) as [w|]; [|done]. by destruct (proj1 (S w) eq_refl) as (? & ? & _).
    + intros [N F]. by rewrite (proj2 (S _) (conj N (conj F eq_refl))).
  - intros v E. apply S in E as (N & _ & ->).
    exists (signer_index <$> List.filter (valid_entry pks msg) sigs). split_and!.
    + clear -N. induction sigs as [|e l IH]; [constructor|]. cbn [fmap list_fmap] in N.
      apply NoDup_cons in N as [Hn N]. cbn [List.filter]. destruct (valid_entry pks msg e); [|by apply IH].
      rewrite fmap_cons. apply NoDup_cons. split; [|by apply IH].
      intros (e' & E & He')%list_elem_of_fmap. apply Hn. apply list_elem_of_fmap. exists e'. split; [done|].
      apply list_elem_of_In, filter_In in He' as [He' _]. by apply list_elem_of_In.
    + unfold len. by rewrite length_fmap.
    + intros i. rewrite list_elem_of_fmap. unfold signed. setoid_rewrite list_elem_of_In.
      setoid_rewrite filter_In. setoid_rewrite valid_entry_signed. naive_solver.
Qed.
End Counting.

Lemma count_valid_sigs_exact_witness :
  let e := mkSig 1 (replicate 500 0) in
  let pks := [replicate 897 1; replicate 897 2] in
  exists signers, NoDup signers /\ len signers = 1 /\
    forall i, i ∈ signers <-> signed [e] pks [0; 0] i.
Proof.
  intros e pks. apply (count_valid_sigs_exact [e] pks [0; 0]).
  - constructor; [split; [discriminate|reflexivity]|constructor].
  - reflexivity.
Defined.
