(* ===== verification/State.v ===== *)
(** * The state as the pipeline sees it

    The trait [StateAccess] of [state/src/smt.rs] is a class of operations with
    a class of laws; [PydeSMT], a wrapper of the third-party sparse Merkle tree,
    and [StateOverlay], the write buffer of block execution, are its instances.
    An empty value is an absent key, in every implementation. *)

From stdpp Require Import base numbers list option gmap strings sorting.
From Stdlib Require Import ZArith Lia.
From S2P Require Import Prelude Crypto Account.

#[local] Open Scope Z_scope.

(** [H256] keys and values are byte strings. *)
Abbreviation Key := (list Z) (only parsing).
Abbreviation Bytes := (list Z) (only parsing).

Class StateAccess (S : Type) : Type := {
  smt_get : S -> Key -> option Bytes;
  smt_insert : Key -> Bytes -> ST S string Bytes;
  smt_root : S -> Bytes;
  smt_update_all : list (Key * Bytes) -> ST S string Bytes
}.

(** The default method: one insert after the other. *)
Fixpoint default_update_all {S : Type} (insert : Key -> Bytes -> ST S string Bytes) (root : Bytes)
    (entries : list (Key * Bytes)) : ST S string Bytes :=
  match entries with
  | [] => ret root
  | (k, v) :: entries' => (r <-- insert k v ;; default_update_all insert r entries')%pyde
  end.

(** What a read returns after [v] was written. *)
Definition stored (v : Bytes) : option Bytes := match v with [] => None | _ => Some v end.

(** What an implementation promises: reads never return an empty value, writes
    succeed, a read after a write returns what was written, and a batch with
    distinct keys is its writes. *)
Class StateAccessOk (S : Type) `{StateAccess S} : Prop := {
  get_nonempty s k : smt_get s k <> Some [];
  insert_ok s k v : is_ok (smt_insert k v s).2 = true;
  get_insert s k v k' :
    smt_get (smt_insert k v s).1 k' = (if decide (k = k') then stored v else smt_get s k');
  get_update_all s l k :
    NoDup l.*1 ->
    smt_get (smt_update_all l s).1 k =
      match (list_to_map l : gmap Key Bytes) !! k with Some v => stored v | None => smt_get s k end
}.

(** ** [PydeSMT]

    The tree of the crate [sparse-merkle-tree] is a parameter.  Its documented
    behaviour: reading an absent leaf gives the zero value, an update sets one
    leaf, a batch update sets each of its leaves. *)

Class NervosTree (T : Type) : Type := {
  tree_default : T;
  tree_root : T -> Bytes;
  tree_get : T -> Key -> Result Bytes unit;
  tree_update : Key -> Bytes -> ST T unit unit;
  tree_update_all : list (Key * Bytes) -> ST T unit unit
}.

Class NervosTreeOk (T : Type) `{NervosTree T} : Prop := {
  tree_update_ok t k v : is_ok (tree_update k v t).2 = true;
  tree_get_update t k v k' :
    tree_get (tree_update k v t).1 k' = (if decide (k = k') then Ok v else tree_get t k');
  tree_get_update_all t l k :
    NoDup l.*1 ->
    tree_get (tree_update_all l t).1 k =
      match (list_to_map l : gmap Key Bytes) !! k with Some v => Ok v | None => tree_get t k end
}.

Section PydeSMT.
Context {T : Type} `{NervosTree T}.

Definition PydeSMT : Type := T.

Definition PydeSMT_new : PydeSMT := tree_default.
Definition PydeSMT_root (t : PydeSMT) : Bytes := tree_root t.

Definition PydeSMT_get (t : PydeSMT) (key : Key) : option Bytes :=
  match tree_get t key with
  | Ok v => stored v
  | Err _ => None
  end.

Definition PydeSMT_insert (key : Key) (value : Bytes) : ST PydeSMT string Bytes := fun t =>
  match tree_update key value t with
  | (t', Ok _) => (t', Ok (PydeSMT_root t'))
  | (t', Err _) => (t', Err "SMT update failed"%string)
  end.

Definition PydeSMT_delete (key : Key) : ST PydeSMT string bool := fun t =>
  if is_some (PydeSMT_get t key) then
    match tree_update key [] t with
    | (t', Ok _) => (t', Ok true)
    | (t', Err _) => (t', Err "SMT delete failed"%string)
    end
  else (t, Ok false).

Definition PydeSMT_update_all (entries : list (Key * Bytes)) : ST PydeSMT string Bytes := fun t =>
  match tree_update_all entries t with
  | (t', Ok _) => (t', Ok (PydeSMT_root t'))
  | (t', Err _) => (t', Err "SMT batch update failed"%string)
  end.

#[global] Instance PydeSMT_access : StateAccess PydeSMT := {|
  smt_get := PydeSMT_get;
  smt_insert := PydeSMT_insert;
  smt_root := PydeSMT_root;
  smt_update_all := PydeSMT_update_all
|}.
End PydeSMT.

(** ** [StateOverlay] *)

Record StateOverlay (B : Type) : Type := mkOverlay {
  ov_base : B;
  writes : gmap Key Bytes
}.
Arguments mkOverlay {B}.
Arguments ov_base {B}.
Arguments writes {B}.

Record UndoEntry : Type := mkUndo {
  undo_key : Key;
  old_value : option Bytes
}.

Section Overlay.
Context {B : Type} `{StateAccess B}.

Definition Overlay_new (b : B) : StateOverlay B := mkOverlay b ∅.

Definition Overlay_get (o : StateOverlay B) (key : Key) : option Bytes :=
  match writes o !! key with
  | Some v => stored v
  | None => smt_get (ov_base o) key
  end.

Definition Overlay_insert (key : Key) (value : Bytes) : ST (StateOverlay B) string Bytes := fun o =>
  (mkOverlay (ov_base o) (<[key := value]> (writes o)), Ok H256_zero).

Definition Overlay_root (o : StateOverlay B) : Bytes := smt_root (ov_base o).

#[global] Instance Overlay_access : StateAccess (StateOverlay B) := {|
  smt_get := Overlay_get;
  smt_insert := Overlay_insert;
  smt_root := Overlay_root;
  smt_update_all := fun entries o => default_update_all Overlay_insert (Overlay_root o) entries o
|}.

(** A [BTreeMap] iterates in the order of its keys, the third-party order of
    [H256]. *)
Context (key_le : Key * Bytes -> Key * Bytes -> Prop) `{!RelDecision key_le}.

Definition into_writes (o : StateOverlay B) : list (Key * Bytes) :=
  merge_sort key_le (map_to_list (writes o)).

Definition into_writes_with_undo (o : StateOverlay B) : list (Key * Bytes) * list UndoEntry :=
  let undo := (fun k => mkUndo k (smt_get (ov_base o) k)) <$> (into_writes o).*1 in
  (into_writes o, undo).

Definition write_count (o : StateOverlay B) : Z := Z.of_nat (size (writes o)).
End Overlay.

(** ** The instances keep the promise *)

Lemma stored_Some (v b : Bytes) : stored v = Some b -> b = v.
Proof. destruct v; [done|]. by intros [= ->]. Qed.

#[global] Instance PydeSMT_access_ok {T : Type} `{NervosTreeOk T} : StateAccessOk (PydeSMT (T := T)).
Proof.
  split; cbn [smt_insert smt_get smt_update_all PydeSMT_access].
  - intros t k. unfold PydeSMT_get. destruct (tree_get t k) as [[]|]; done.
  - intros t k v. unfold PydeSMT_insert. pose proof (tree_update_ok t k v) as Hok.
    by destruct (tree_update k v t) as [t' []].
  - intros t k v k'. unfold PydeSMT_insert, PydeSMT_get. pose proof (tree_get_update t k v k') as E.
    destruct (tree_update k v t) as [t' []]; cbn [fst] in *; rewrite E; by destruct (decide (k = k')).
  - intros t l k Hl. unfold PydeSMT_update_all, PydeSMT_get.
    pose proof (tree_get_update_all t l k Hl) as E.
    destruct (tree_update_all l t) as [t' []]; cbn [fst] in *; rewrite E; by destruct (list_to_map l !! k).
Qed.

Section OverlayOk.
Context {B : Type} `{StateAccessOk B}.
#[local] Open Scope pyde_scope.

Lemma Overlay_update_all (l : list (Key * Bytes)) (r : Bytes) (o : StateOverlay B) :
  (default_update_all Overlay_insert r l o).1 =
  mkOverlay (ov_base o) (foldl (fun m '(k, v) => <[k := v]> m) (writes o) l).
Proof.
  revert r o. induction l as [|[k v] l IH]; intros r o; cbn [default_update_all foldl].
  { by destruct o. }
  unfold bind. cbn [Overlay_insert]. by rewrite IH.
Qed.

Lemma foldl_insert_lookup (l : list (Key * Bytes)) (m : gmap Key Bytes) (k : Key) :
  NoDup l.*1 ->
  foldl (fun m '(k, v) => <[k := v]> m) m l !! k =
    match (list_to_map l : gmap Key Bytes) !! k with Some v => Some v | None => m !! k end.
Proof.
  revert m. induction l as [|[k' v] l IH]; intros m; cbn [foldl fmap list_fmap]; [done|].
  intros Hn. apply NoDup_cons in Hn as [Hk Hn]. rewrite IH by done. change (list_to_map ((k', v) :: l) !! k)
    with ((<[k' := v]> (list_to_map l : gmap Key Bytes)) !! k).
  destruct (decide (k' = k)) as [->|Hne].
  - rewrite (not_elem_of_list_to_map_1 _ _ Hk). by rewrite !lookup_insert_eq.
  - by rewrite !lookup_insert_ne by done.
Qed.

#[global] Instance Overlay_access_ok : StateAccessOk (StateOverlay B).
Proof.
  split; cbn [smt_insert smt_get smt_update_all Overlay_access]; [|done|..].
  - intros o k. unfold Overlay_get. destruct (writes o !! k) as [[]|]; [done..|apply get_nonempty].
  - intros o k v k'. unfold Overlay_get. cbn [Overlay_insert fst writes ov_base].
    destruct (decide (k = k')) as [->|]; [by rewrite lookup_insert_eq|by rewrite lookup_insert_ne].
  - intros o l k Hl. rewrite Overlay_update_all. unfold Overlay_get. cbn [writes ov_base].
    rewrite foldl_insert_lookup by done. by destruct (list_to_map l !! k).
Qed.
End OverlayOk.

(** ** Committing and undoing an overlay *)

Section Commit.
Context {B : Type} `{StateAccessOk B}.
Context (key_le : Key * Bytes -> Key * Bytes -> Prop) `{!RelDecision key_le}.

Lemma into_writes_Permutation (o : StateOverlay B) : into_writes key_le o ≡ₚ map_to_list (writes o).
Proof. apply merge_sort_Permutation. Qed.

Lemma into_writes_NoDup (o : StateOverlay B) : NoDup (into_writes key_le o).*1.
Proof. rewrite into_writes_Permutation. apply NoDup_fst_map_to_list. Qed.

Lemma into_writes_map (o : StateOverlay B) : list_to_map (into_writes key_le o) = writes o.
Proof.
  rewrite <- (list_to_map_to_list (writes o)). apply list_to_map_proper; [apply into_writes_NoDup|].
  apply into_writes_Permutation.
Qed.

(** The writes that take an undo log back. *)
Definition undo_writes (undo : list UndoEntry) : list (Key * Bytes) :=
  (fun e => (undo_key e, default [] (old_value e))) <$> undo.

Lemma undo_writes_keys (o : StateOverlay B) :
  (undo_writes (into_writes_with_undo key_le o).2).*1 = (into_writes key_le o).*1.
Proof.
  unfold undo_writes, into_writes_with_undo. cbn [snd]. rewrite <- !list_fmap_compose.
  apply list_fmap_ext. by intros.
Qed.

(** Block execution through an overlay is faithful: committing the
    overlay's writes to the base in one batch, in whatever order the map
    iterates, gives the state the overlay showed while executing, and writing
    the recorded old values back afterwards gives the base of before the block,
    for every key. *)
Theorem overlay_commit_and_undo (o : StateOverlay B) (k : Key) :
  let committed := (smt_update_all (into_writes key_le o) (ov_base o)).1 in
  let reverted := (smt_update_all (undo_writes (into_writes_with_undo key_le o).2) committed).1 in
  smt_get committed k = smt_get o k /\ smt_get reverted k = smt_get (ov_base o) k.
Proof.
  intros committed reverted.
  assert (smt_get committed k = smt_get o k) as Ec.
  { unfold committed. rewrite get_update_all by apply into_writes_NoDup. by rewrite into_writes_map. }
  split; [done|]. unfold reverted.
  rewrite get_update_all by (rewrite undo_writes_keys; apply into_writes_NoDup).
  destruct (list_to_map _ !! k) as [v|] eqn:E.
  - apply elem_of_list_to_map_2 in E. unfold undo_writes, into_writes_with_undo in E. cbn [snd] in E.
    rewrite <- list_fmap_compose in E. apply list_elem_of_fmap in E as (k' & [= -> ->] & _). cbn.
    pose proof (get_nonempty (ov_base o) k'). by destruct (smt_get (ov_base o) k') as [[]|].
  - rewrite Ec. cbn [smt_get Overlay_access]. unfold Overlay_get.
    destruct (writes o !! k) as [v|] eqn:Ew; [|done]. exfalso.
    apply not_elem_of_list_to_map_2 in E. apply E. rewrite undo_writes_keys, into_writes_Permutation.
    apply list_elem_of_fmap. exists (k, v). split; [done|]. by apply elem_of_map_to_list.
Qed.
End Commit.

(** ** A concrete tree, for evaluation *)

#[global] Instance map_tree : NervosTree (gmap Key Bytes) := {|
  tree_default := ∅;
  tree_root := fun _ => H256_zero;
  tree_get := fun m k => Ok (default [] (m !! k));
  tree_update := fun k v m => (<[k := v]> m, Ok tt);
  tree_update_all := fun l m => (foldl (fun m '(k, v) => <[k := v]> m) m l, Ok tt)
|}.

#[global] Instance map_tree_ok : NervosTreeOk (gmap Key Bytes).
Proof.
  split; cbn [tree_update tree_get tree_update_all map_tree]; [done|..].
  - intros m k v k'. cbn [fst]. destruct (decide (k = k')) as [->|]; [by rewrite lookup_insert_eq|].
    by rewrite lookup_insert_ne.
  - intros m l k Hl. cbn [fst]. rewrite foldl_insert_lookup by done. by destruct (list_to_map l !! k).
Qed.

(** The in-memory state over it. *)
Abbreviation MapState := (PydeSMT (T := gmap Key Bytes)) (only parsing).

Definition any_order (p q : Key * Bytes) : Prop := True.
#[global] Instance any_order_dec : RelDecision any_order := fun _ _ => left I.

Lemma overlay_commit_and_undo_witness :
  let o := mkOverlay (B := MapState) {[ [1] := [10]; [2] := [20] ]} {[ [1] := [11]; [3] := [30] ]} in
  let committed := (smt_update_all (into_writes any_order o) (ov_base o)).1 in
  smt_get committed [3] = smt_get o [3] /\
  smt_get (smt_update_all (undo_writes (into_writes_with_undo any_order o).2) committed).1 [3] =
    smt_get (ov_base o) [3].
Proof.
  intros o committed. apply (overlay_commit_and_undo (B := MapState) any_order o [3]).
Defined.
