(* ===== verification/StateManager.v ===== *)
(** * The state manager of a node

    [node/src/state_manager.rs]: a cache in front of the persistent tree, writes
    whose Merkle commit is deferred, and undo logs for reorganisations.  The
    tree ([PersistentJMT], a wrapper of the crates [jmt] and [rocksdb]) is any
    implementation of [StateAccess] whose batches apply the last write to a key.
    Locks are not poisoned: a panic aborts the process. *)

From stdpp Require Import base numbers list option gmap strings pretty sorting.
From Stdlib Require Import ZArith Lia.
From S2P Require Import Prelude Crypto Account State.

#[local] Open Scope Z_scope.

(** The value a sequence of writes leaves at a key. *)
Fixpoint last_write (l : list (Key * Bytes)) (k : Key) : option Bytes :=
  match l with
  | [] => None
  | (k', v) :: l' =>
      match last_write l' k with
      | Some v' => Some v'
      | None => if decide (k' = k) then Some v else None
      end
  end.

Class StateBatchOk (S : Type) `{StateAccess S} : Prop := {
  batch_ok s l : is_ok (smt_update_all l s).2 = true;
  get_batch s l k :
    smt_get (smt_update_all l s).1 k =
      match last_write l k with Some v => stored v | None => smt_get s k end
}.

Definition MAX_UNDO_DEPTH : nat := 128.

Record StateManager (J : Type) : Type := mkManager {
  cache : gmap Key Bytes;
  smt : J;
  sm_root : Bytes;
  tracked_keys : gset Key;
  pending_writes : list (Key * Bytes);
  block_undo_logs : list (Z * list UndoEntry)
}.
Arguments mkManager {J}.
Arguments cache {J}.
Arguments smt {J}.
Arguments sm_root {J}.
Arguments tracked_keys {J}.
Arguments pending_writes {J}.
Arguments block_undo_logs {J}.

Section Manager.
Context {J : Type} `{StateAccess J}.
#[local] Abbreviation SM := (StateManager J).
Implicit Types s : SM.

(** [open], on a tree that was opened. *)
Definition sm_open (j : J) : SM := mkManager ∅ j (smt_root j) ∅ [] [].

Definition sm_get s (key : Key) : option Bytes :=
  match cache s !! key with
  | Some v => stored v
  | None => smt_get (smt s) key
  end.

(** The frozen cache over the tree as it is when the closure is called. *)
Definition snapshot_reader s (later : J) (key : Key) : option Bytes :=
  match cache s !! key with
  | Some v => stored v
  | None => smt_get later key
  end.

Definition sm_insert (key : Key) (value : Bytes) : ST SM string Bytes := fun s =>
  let tracked := {[key]} ∪ tracked_keys s in
  let c := <[key := value]> (cache s) in
  match smt_insert key value (smt s) with
  | (j, Ok new_root) => (mkManager c j new_root tracked (pending_writes s) (block_undo_logs s), Ok new_root)
  | (j, Err e) =>
      (mkManager c j (sm_root s) tracked (pending_writes s) (block_undo_logs s),
       Err ("state insert failed: " +:+ e))
  end.

(** [delete] of the tree: a tombstone, when there is something to delete. *)
Definition tree_delete (key : Key) : ST J string bool := fun j =>
  if is_some (smt_get j key) then
    match smt_update_all [(key, [])] j with
    | (j, Ok _) => (j, Ok true)
    | (j, Err e) => (j, Err e)
    end
  else (j, Ok false).

Definition sm_delete (key : Key) : ST SM string bool := fun s =>
  match tree_delete key (smt s) with
  | (j, r) =>
      (mkManager (cache s) j (sm_root s) (tracked_keys s ∖ {[key]}) (pending_writes s) (block_undo_logs s),
       match r with Ok b => Ok b | Err e => Err ("state delete failed: " +:+ e) end)
  end.

Definition update_batch (entries : list (Key * Bytes)) : ST SM string Bytes := fun s =>
  let tracked := list_to_set entries.*1 ∪ tracked_keys s in
  match smt_update_all entries (smt s) with
  | (j, Ok new_root) => (mkManager (cache s) j new_root tracked (pending_writes s) (block_undo_logs s), Ok new_root)
  | (j, Err e) =>
      (mkManager (cache s) j (sm_root s) tracked (pending_writes s) (block_undo_logs s),
       Err ("state batch update failed: " +:+ e))
  end.

Definition update_batch_deferred (entries : list (Key * Bytes)) s : SM :=
  mkManager (foldl (fun m '(k, v) => <[k := v]> m) (cache s) entries) (smt s) (sm_root s)
    (list_to_set entries.*1 ∪ tracked_keys s) (pending_writes s ++ entries) (block_undo_logs s).

Definition set_pending (l : list (Key * Bytes)) s : SM :=
  mkManager (cache s) (smt s) (sm_root s) (tracked_keys s) l (block_undo_logs s).

Definition flush_pending : ST SM string Bytes := fun s =>
  match pending_writes s with
  | [] => (s, Ok (sm_root s))
  | entries => update_batch entries (set_pending [] s)
  end.

Definition take_pending_writes s : SM * list (Key * Bytes) := (set_pending [] s, pending_writes s).

(** On the tree's handle, from a background task. *)
Definition commit_writes_to_smt (entries : list (Key * Bytes)) : ST J string Bytes := fun j =>
  match smt_update_all entries j with
  | (j, Ok root) => (j, Ok root)
  | (j, Err e) => (j, Err ("commit failed: " +:+ e))
  end.

Definition set_root (root : Bytes) s : SM :=
  mkManager (cache s) (smt s) root (tracked_keys s) (pending_writes s) (block_undo_logs s).

Definition refresh_root s : SM := set_root (smt_root (smt s)) s.

(** ** Undo logs *)

Definition set_logs (l : list (Z * list UndoEntry)) s : SM :=
  mkManager (cache s) (smt s) (sm_root s) (tracked_keys s) (pending_writes s) l.

Definition record_block_undo (slot : Z) (entries : list UndoEntry) s : SM :=
  let logs := block_undo_logs s ++ [(slot, entries)] in
  set_logs (drop (length logs - MAX_UNDO_DEPTH) logs) s.

Definition can_revert_to (target_slot : Z) s : bool :=
  match block_undo_logs s with
  | (first, _) :: _ => saturating_sub first 1 <=? target_slot
  | [] => false
  end.

Definition restore_cache (c : gmap Key Bytes) (w : list (Key * Bytes)) : gmap Key Bytes :=
  foldl (fun m '(k, v) => if decide (v = []) then delete k m else <[k := v]> m) c w.

(** The body of the loop of [revert_to]: one log is taken back. *)
Definition revert_log (entries : list UndoEntry) : ST SM string unit := fun s =>
  let restore_writes := undo_writes entries in
  let c := restore_cache (cache s) restore_writes in
  match restore_writes with
  | [] => (mkManager c (smt s) (sm_root s) (tracked_keys s) (pending_writes s) (block_undo_logs s), Ok tt)
  | _ =>
      match smt_update_all restore_writes (smt s) with
      | (j, Ok _) => (mkManager c j (smt_root j) (tracked_keys s) (pending_writes s) (block_undo_logs s), Ok tt)
      | (j, Err e) =>
          (mkManager c j (sm_root s) (tracked_keys s) (pending_writes s) (block_undo_logs s),
           Err ("revert SMT update failed: " +:+ e))
      end
  end.

(** The loop, over the logs from the newest. *)
Fixpoint revert_loop (newest_first : list (Z * list UndoEntry)) (target_slot reverted : Z) : ST SM string Z := fun s =>
  match newest_first with
  | [] => (set_logs [] s, Ok reverted)
  | (slot, entries) :: rest =>
      if slot <=? target_slot then (set_logs (rev newest_first) s, Ok reverted)
      else
        match revert_log entries s with
        | (s, Ok _) => revert_loop rest target_slot (reverted + 1) s
        | (s, Err e) => (set_logs (rev rest) s, Err e)
        end
  end.

Definition revert_to (target_slot : Z) : ST SM string Z := fun s =>
  match block_undo_logs s with
  | (oldest_slot, _) :: _ =>
      if wrap u64 (target_slot + 1) <? oldest_slot then
        (s, Err ("revert target " +:+ pretty target_slot +:+ " is below oldest undo log at slot " +:+
                 pretty oldest_slot))
      else revert_loop (rev (block_undo_logs s)) target_slot 0 s
  | [] => revert_loop (rev (block_undo_logs s)) target_slot 0 s
  end.

(** ** Snapshots *)

(** The order is that of a hash set. *)
Definition export_snapshot s : list (Key * Bytes) :=
  omap (fun k => pair k <$> smt_get (smt s) k) (elements (tracked_keys s)).

Definition import_snapshot (entries : list (Key * Bytes)) : ST SM string Bytes := fun s =>
  let entries := (fun '(k, v) => (if decide (length k = 32%nat) then k else H256_zero, v)) <$> entries in
  let tracked := list_to_set entries.*1 ∪ tracked_keys s in
  match smt_update_all entries (smt s) with
  | (j, Ok new_root) => (mkManager (cache s) j new_root tracked (pending_writes s) (block_undo_logs s), Ok new_root)
  | (j, Err e) =>
      (mkManager (cache s) j (sm_root s) tracked (pending_writes s) (block_undo_logs s),
       Err ("snapshot import failed: " +:+ e))
  end.

(** ** The trait, as the pipeline sees it: deferred *)

Definition deferred_insert (key : Key) (value : Bytes) : ST SM string Bytes := fun s =>
  (update_batch_deferred [(key, value)] s, Ok H256_zero).

#[global] Instance StateManager_access : StateAccess SM := {|
  smt_get := sm_get;
  smt_insert := deferred_insert;
  smt_root := sm_root;
  smt_update_all := fun entries s => default_update_all deferred_insert (sm_root s) entries s
|}.
End Manager.

(** ** Writes in sequence *)

Lemma last_write_app (l1 l2 : list (Key * Bytes)) (k : Key) :
  last_write (l1 ++ l2) k = match last_write l2 k with Some v => Some v | None => last_write l1 k end.
Proof.
  induction l1 as [|[k' v] l1 IH]; cbn [app last_write]; [by destruct (last_write l2 k)|].
  rewrite IH. by destruct (last_write l2 k).
Qed.

Lemma last_write_elem (l : list (Key * Bytes)) (k : Key) (v : Bytes) : last_write l k = Some v -> (k, v) ∈ l.
Proof.
  induction l as [|[k' v'] l IH]; cbn [last_write]; [done|]. destruct (last_write l k) as [v1|]; [intros [= ->]; right; auto|].
  case_decide; [|done]. intros [= ->]. subst. left.
Qed.

Lemma last_write_none (l : list (Key * Bytes)) (k : Key) : last_write l k = None <-> k ∉ l.*1.
Proof.
  induction l as [|[k' v'] l IH]; cbn [last_write fmap list_fmap fst]; [split; [intros _; apply not_elem_of_nil|done]|].
  rewrite not_elem_of_cons, <- IH. destruct (last_write l k); [naive_solver|]. case_decide; naive_solver.
Qed.

Lemma foldl_last_write (l : list (Key * Bytes)) (m : gmap Key Bytes) (k : Key) :
  foldl (fun m '(k, v) => <[k := v]> m) m l !! k = match last_write l k with Some v => Some v | None => m !! k end.
Proof.
  revert m. induction l as [|[k' v] l IH]; intros m; cbn [foldl last_write]; [done|]. rewrite IH.
  destruct (last_write l k); [done|]. destruct (decide (k' = k)) as [->|]; [by rewrite lookup_insert_eq|].
  by rewrite lookup_insert_ne.
Qed.

Lemma restore_cache_lookup (w : list (Key * Bytes)) (c : gmap Key Bytes) (k : Key) :
  restore_cache c w !! k = match last_write w k with Some v => stored v | None => c !! k end.
Proof.
  unfold restore_cache. revert c. induction w as [|[k' v] w IH]; intros c; cbn [foldl last_write]; [done|]. rewrite IH.
  destruct (last_write w k); [done|]. destruct (decide (k' = k)) as [->|].
  - destruct v as [|b v]; [rewrite decide_True by done; apply lookup_delete_eq|].
    rewrite decide_False by done. by rewrite lookup_insert_eq.
  - destruct (decide (v = [])); [by rewrite lookup_delete_ne|by rewrite lookup_insert_ne].
Qed.

(** ** Reads see every write, whenever the tree is committed *)

Section Reads.
Context {J : Type} `{StateAccessOk J} `{!StateBatchOk J}.
#[local] Abbreviation SM := (StateManager J).
Implicit Types s : SM.

Lemma deferred_get s (l : list (Key * Bytes)) (k : Key) :
  sm_get (update_batch_deferred l s) k = match last_write l k with Some v => stored v | None => sm_get s k end.
Proof.
  unfold sm_get, update_batch_deferred. cbn [cache smt]. rewrite foldl_last_write. by destruct (last_write l k).
Qed.

Lemma deferred_all s (r : Bytes) (l : list (Key * Bytes)) (k : Key) :
  sm_get (default_update_all deferred_insert r l s).1 k =
    match last_write l k with Some v => stored v | None => sm_get s k end.
Proof.
  revert r s. induction l as [|[k' v] l IH]; intros r s; cbn [default_update_all last_write]; [done|].
  unfold bind. cbn [deferred_insert]. rewrite IH, deferred_get. cbn [last_write].
  destruct (last_write l k); [done|]. by destruct (decide (k' = k)).
Qed.

#[global] Instance StateManager_access_ok : StateAccessOk SM.
Proof.
  split; cbn [smt_insert smt_get smt_update_all StateManager_access].
  - intros s k. unfold sm_get. destruct (cache s !! k) as [[]|]; [done..|apply get_nonempty].
  - done.
  - intros s k v k'. cbn [deferred_insert fst]. rewrite deferred_get. cbn [last_write]. by destruct (decide (k = k')).
  - intros s l k Hn. rewrite deferred_all.
    assert (last_write l k = (list_to_map l : gmap Key Bytes) !! k) as ->; [|done].
    pose proof (foldl_last_write l ∅ k) as E. rewrite (foldl_insert_lookup l ∅ k Hn) in E. rewrite lookup_empty in E.
    destruct (last_write l k), (list_to_map l !! k); congruence.
Qed.

(** A node at work.  Batches are written; pending writes are handed to
    background tasks; a task commits its batch, which need not be the oldest; the
    pending writes are flushed synchronously, whether or not tasks are under way.
    The labels are what was written, and which keys were overtaken: committed or
    flushed while an older write to them was still in flight. *)
Abbreviation NodeState := (SM * list (list (Key * Bytes)))%type.

Definition overtaken (b : list (Key * Bytes)) (older : list (list (Key * Bytes))) : list Key :=
  filter (fun k => k ∈ (concat older).*1) b.*1.

Inductive node_step : NodeState -> list (Key * Bytes) -> list Key -> NodeState -> Prop :=
| step_write s q l : node_step (s, q) l [] (update_batch_deferred l s, q)
| step_take s q : node_step (s, q) [] [] ((take_pending_writes s).1, q ++ [(take_pending_writes s).2])
| step_commit s q1 b q2 : node_step (s, q1 ++ b :: q2) [] (overtaken b q1)
    (mkManager (cache s) (commit_writes_to_smt b (smt s)).1 (sm_root s) (tracked_keys s) (pending_writes s)
       (block_undo_logs s), q1 ++ q2)
| step_flush s q : node_step (s, q) [] (overtaken (pending_writes s) q) ((flush_pending s).1, q).

Inductive node_run : NodeState -> list (Key * Bytes) -> list Key -> NodeState -> Prop :=
| run_done x : node_run x [] [] x
| run_step x y z l l' o o' : node_step x l o y -> node_run y l' o' z -> node_run x (l ++ l') (o ++ o') z.

(** The cache holds the last of the uncommitted writes, and otherwise what the
    tree holds. *)
Definition coherent_at (k : Key) (x : NodeState) : Prop :=
  let w := last_write (concat x.2 ++ pending_writes x.1) k in
  match cache x.1 !! k with
  | Some v => match w with Some v' => v' = v | None => smt_get (smt x.1) k = stored v end
  | None => w = None
  end.

Definition coherent (x : NodeState) : Prop := forall k, coherent_at k x.

(** What is not cached is not about to be written. *)
Definition cached_at (k : Key) (x : NodeState) : Prop :=
  cache x.1 !! k = None -> last_write (concat x.2 ++ pending_writes x.1) k = None.

Lemma coherent_at_cached (k : Key) x : coherent_at k x -> cached_at k x.
Proof. unfold coherent_at, cached_at. intros C E. by rewrite E in C. Qed.

Lemma not_overtaken (b : list (Key * Bytes)) q (k : Key) (v : Bytes) :
  k ∉ overtaken b q -> last_write b k = Some v -> last_write (concat q) k = None.
Proof.
  unfold overtaken. rewrite list_elem_of_filter. intros N E. apply last_write_none. intros I. apply N.
  split; [done|]. apply list_elem_of_fmap. exists (k, v). split; [done|]. by apply last_write_elem.
Qed.

Lemma update_all_get (b : list (Key * Bytes)) (j : J) (k : Key) :
  smt_get (commit_writes_to_smt b j).1 k = match last_write b k with Some v => stored v | None => smt_get j k end.
Proof.
  unfold commit_writes_to_smt. pose proof (get_batch j b k) as E. by destruct (smt_update_all b j) as [j' []].
Qed.

Lemma flush_spec s :
  cache (flush_pending s).1 = cache s /\ pending_writes (flush_pending s).1 = [] /\
  forall k, smt_get (smt (flush_pending s).1) k =
    match last_write (pending_writes s) k with Some v => stored v | None => smt_get (smt s) k end.
Proof.
  unfold flush_pending. destruct (pending_writes s) as [|e l] eqn:E; [done|]. unfold update_batch.
  pose proof (get_batch (smt (set_pending [] s)) (e :: l)) as G.
  by destruct (smt_update_all (e :: l) (smt (set_pending [] s))) as [j []].
Qed.

(** The queue of writes in flight, in the shapes the steps leave it. *)
Lemma take_writes (q : list (list (Key * Bytes))) (p : list (Key * Bytes)) (k : Key) :
  last_write (concat (q ++ [p]) ++ []) k = last_write (concat q ++ p) k.
Proof. by rewrite concat_app, app_nil_r; cbn [concat]; rewrite app_nil_r. Qed.

Lemma commit_writes (q1 q2 : list (list (Key * Bytes))) (b p : list (Key * Bytes)) (k : Key) :
  last_write (concat (q1 ++ b :: q2) ++ p) k =
    match last_write (concat q2 ++ p) k with
    | Some v => Some v
    | None => match last_write b k with Some v => Some v | None => last_write (concat q1) k end
    end /\
  last_write (concat (q1 ++ q2) ++ p) k =
    match last_write (concat q2 ++ p) k with Some v => Some v | None => last_write (concat q1) k end.
Proof.
  rewrite !concat_app. cbn [concat]. rewrite <- !app_assoc. split; [|apply last_write_app].
  rewrite last_write_app, (last_write_app b). by destruct (last_write (concat q2 ++ p) k).
Qed.

Lemma node_step_cached x l o y (k : Key) : node_step x l o y -> cached_at k x -> cached_at k y.
Proof.
  unfold cached_at. intros S C. destruct S as [s q l|s q|s q1 b q2|s q]; cbn [fst snd] in *.
  - cbn [update_batch_deferred cache pending_writes]. rewrite foldl_last_write, app_assoc, last_write_app.
    by destruct (last_write l k).
  - cbn [take_pending_writes set_pending cache pending_writes fst snd]. by rewrite take_writes.
  - cbn [cache pending_writes]. intros E. specialize (C E). destruct (commit_writes q1 q2 b (pending_writes s) k) as [E1 ->].
    rewrite E1 in C. by destruct (last_write (concat q2 ++ pending_writes s) k), (last_write b k).
  - destruct (flush_spec s) as (-> & -> & _). intros E. specialize (C E). rewrite last_write_app in C. rewrite app_nil_r.
    by destruct (last_write (pending_writes s) k).
Qed.

Lemma node_step_coherent_at x l o y (k : Key) : node_step x l o y -> k ∉ o -> coherent_at k x -> coherent_at k y.
Proof.
  unfold coherent_at. intros S N C. destruct S as [s q l|s q|s q1 b q2|s q]; cbn [fst snd] in *; cbv zeta in *.
  - cbn [update_batch_deferred cache smt pending_writes]. rewrite foldl_last_write, app_assoc, last_write_app.
    by destruct (last_write l k).
  - cbn [take_pending_writes set_pending cache smt pending_writes fst snd] in *. by rewrite take_writes.
  - cbn [cache smt pending_writes]. rewrite update_all_get.
    destruct (commit_writes q1 q2 b (pending_writes s) k) as [E1 ->]. rewrite E1 in C.
    destruct (last_write (concat q2 ++ pending_writes s) k); [done|].
    destruct (last_write b k) as [v|] eqn:Eb; [|done]. rewrite (not_overtaken b q1 k v N Eb).
    destruct (cache s !! k); [by subst|done].
  - destruct (flush_spec s) as (-> & -> & Es). rewrite Es, app_nil_r. rewrite last_write_app in C.
    destruct (last_write (pending_writes s) k) as [v|] eqn:Ep; [|done]. rewrite (not_overtaken _ q k v N Ep).
    destruct (cache s !! k); [by subst|done].
Qed.

Lemma node_step_reads x l o y (k : Key) :
  node_step x l o y -> cached_at k x ->
  sm_get y.1 k = match last_write l k with Some v => stored v | None => sm_get x.1 k end.
Proof.
  unfold cached_at. intros S C. destruct S as [s q l|s q|s q1 b q2|s q]; cbn [fst snd] in *.
  - apply deferred_get.
  - done.
  - unfold sm_get. cbn [cache smt last_write]. destruct (cache s !! k); [done|]. rewrite update_all_get.
    specialize (C eq_refl). destruct (commit_writes q1 q2 b (pending_writes s) k) as [E1 _]. rewrite E1 in C.
    by destruct (last_write (concat q2 ++ pending_writes s) k), (last_write b k).
  - destruct (flush_spec s) as (Ec & _ & Es). unfold sm_get. rewrite Ec, Es. cbn [last_write].
    destruct (cache s !! k); [done|]. specialize (C eq_refl). rewrite last_write_app in C.
    by destruct (last_write (pending_writes s) k).
Qed.

Lemma node_run_reads x l o y (k : Key) :
  node_run x l o y -> cached_at k x ->
  sm_get y.1 k = match last_write l k with Some v => stored v | None => sm_get x.1 k end.
Proof.
  intros R. induction R as [x|x y z l l' o o' S R IH]; intros C; [done|].
  rewrite (IH (node_step_cached x l o y k S C)), last_write_app, (node_step_reads x l o y k S C).
  by destruct (last_write l' k).
Qed.

Lemma node_run_coherent_at x l o y (k : Key) : node_run x l o y -> k ∉ o -> coherent_at k x -> coherent_at k y.
Proof.
  intros R. induction R as [x|x y z l l' o o' S R IH]; [done|]. rewrite not_elem_of_app. intros [N N'] C.
  apply (IH N'). by eapply node_step_coherent_at.
Qed.

(** [C7] Deferring the Merkle commit is invisible to reads.  However writes,
    hand-overs to background tasks, commits and flushes interleave, a read
    returns the last value written (or what it returned at the start).  Once
    nothing is in flight or pending, the persistent tree holds exactly what reads
    return, at every key no commit or flush of which overtook an older write. *)
Theorem deferred_commit_refines s s' (q' : list (list (Key * Bytes))) (written : list (Key * Bytes))
    (late : list Key) (k : Key) :
  coherent (s, []) -> node_run (s, []) written late (s', q') ->
  sm_get s' k = match last_write written k with Some v => stored v | None => sm_get s k end /\
  (k ∉ late -> concat q' = [] -> pending_writes s' = [] -> smt_get (smt s') k = sm_get s' k).
Proof.
  intros C R. split.
  - apply (node_run_reads (s, []) written late (s', q') k R). apply coherent_at_cached, C.
  - intros N Eq Ep. pose proof (node_run_coherent_at _ _ _ _ k R N (C k)) as C'. unfold coherent_at in C'.
    cbn [fst snd] in C'. rewrite Eq, Ep in C'. cbn [app last_write] in C'. unfold sm_get. by destruct (cache s' !! k).
Qed.

(** ** Reverting blocks *)

(** A block whose writes go to the manager with their undo log. *)
Definition undo_of (l : list (Key * Bytes)) s : list UndoEntry := (fun k => mkUndo k (sm_get s k)) <$> l.*1.

Definition apply_block s (b : Z * list (Key * Bytes)) : SM :=
  record_block_undo b.1 (undo_of b.2 s) (update_batch_deferred b.2 s).

Fixpoint block_logs s (bs : list (Z * list (Key * Bytes))) : list (Z * list UndoEntry) :=
  match bs with
  | [] => []
  | b :: bs' => (b.1, undo_of b.2 s) :: block_logs (apply_block s b) bs'
  end.

Lemma block_logs_snoc s bs b :
  block_logs s (bs ++ [b]) = block_logs s bs ++ [(b.1, undo_of b.2 (foldl apply_block s bs))].
Proof. revert s. induction bs as [|b' bs IH]; intros s; [done|]. cbn. by rewrite IH. Qed.

Lemma length_block_logs s bs : length (block_logs s bs) = length bs.
Proof. revert s. induction bs as [|b bs IH]; intros s; [done|]. cbn. by rewrite IH. Qed.

Lemma applied_logs s bs :
  (length (block_undo_logs s) + length bs <= MAX_UNDO_DEPTH)%nat ->
  block_undo_logs (foldl apply_block s bs) = block_undo_logs s ++ block_logs s bs.
Proof.
  revert s. induction bs as [|b bs IH]; intros s Hl; [by rewrite app_nil_r|]. cbn [foldl block_logs length] in *.
  assert (block_undo_logs (apply_block s b) = block_undo_logs s ++ [(b.1, undo_of b.2 s)]) as E.
  { cbn [apply_block record_block_undo set_logs block_undo_logs update_batch_deferred].
    rewrite length_app. cbn [length]. replace (_ - MAX_UNDO_DEPTH)%nat with 0%nat by lia. done. }
  rewrite IH, E, <- app_assoc; [done|]. rewrite E, length_app. cbn [length]. lia.
Qed.

Lemma revert_log_spec s (es : list UndoEntry) :
  exists s', revert_log es s = (s', Ok tt) /\ block_undo_logs s' = block_undo_logs s /\
  forall k, sm_get s' k = match last_write (undo_writes es) k with Some v => stored v | None => sm_get s k end.
Proof.
  unfold revert_log. destruct (undo_writes es) as [|w ws] eqn:E; [by eexists|].
  pose proof (batch_ok (smt s) (w :: ws)) as Ok. pose proof (get_batch (smt s) (w :: ws)) as G.
  destruct (smt_update_all (w :: ws) (smt s)) as [j [r|]]; [|done]. eexists. split; [done|]. split; [done|].
  intros k. unfold sm_get. cbn [cache smt fst] in *. rewrite restore_cache_lookup, G.
  destruct (last_write (w :: ws) k) as [[]|]; [done..|]. done.
Qed.

Lemma undo_last_write (l : list (Key * Bytes)) s (k : Key) :
  last_write (undo_writes (undo_of l s)) k =
    match last_write l k with Some _ => Some (default [] (sm_get s k)) | None => None end.
Proof.
  induction l as [|[k' v] l IH]; [done|]. unfold undo_of, undo_writes in *. rewrite !fmap_cons. cbn [last_write].
  rewrite IH. cbn [undo_key old_value fst]. destruct (last_write l k); [done|]. by destruct (decide (k' = k)) as [->|].
Qed.

Lemma block_undone s s2 (l : list (Key * Bytes)) :
  (forall k, sm_get s2 k = sm_get (update_batch_deferred l s) k) ->
  exists s', revert_log (undo_of l s) s2 = (s', Ok tt) /\ forall k, sm_get s' k = sm_get s k.
Proof.
  intros E. destruct (revert_log_spec s2 (undo_of l s)) as (s' & -> & _ & G). exists s'. split; [done|]. intros k.
  rewrite G, E, deferred_get, undo_last_write. destruct (last_write l k); [|done].
  pose proof (get_nonempty (S := SM) s k) as N. cbn in N. by destruct (sm_get s k) as [[]|].
Qed.

Lemma revert_loop_undoes (t n : Z) (old : list (Z * list UndoEntry)) bs s s2 :
  Forall (fun e => e.1 <= t) old -> Forall (fun b => t < b.1) bs ->
  (forall k, sm_get s2 k = sm_get (foldl apply_block s bs) k) ->
  exists s', revert_loop (rev (old ++ block_logs s bs)) t n s2 = (s', Ok (n + Z.of_nat (length bs))) /\
    block_undo_logs s' = old /\ forall k, sm_get s' k = sm_get s k.
Proof.
  intros Ho. revert n s2. induction bs as [|b bs IH] using rev_ind; intros n s2 Hb E.
  - cbn [block_logs length]. rewrite app_nil_r, Z.add_0_r. eexists (set_logs old s2).
    split; [|split; [done|exact E]].
    destruct (rev old) as [|[slot es] old'] eqn:Eo; cbn [revert_loop].
    { apply (f_equal (@rev _)) in Eo. rewrite rev_involutive in Eo. by rewrite Eo. }
    assert (old = rev ((slot, es) :: old')) as Er by (rewrite <- Eo; by rewrite rev_involutive).
    rewrite Forall_forall in Ho. specialize (Ho (slot, es)). destruct (Z.leb_spec slot t) as [|L].
    + by rewrite <- Er.
    + exfalso. cbn [fst] in Ho. assert (slot <= t); [|lia]. apply Ho. rewrite Er. cbn [rev]. set_solver.
  - apply Forall_app in Hb as [Hb1 Hb2]. apply Forall_cons in Hb2 as [Hb2 _]. cbn beta in Hb2. rewrite foldl_app in E. cbn [foldl] in E.
    rewrite block_logs_snoc, app_assoc, rev_unit. cbn [revert_loop].
    destruct (Z.leb_spec b.1 t); [lia|].
    destruct (block_undone (foldl apply_block s bs) s2 b.2) as (s3 & -> & E3); [exact E|].
    destruct (IH (n + 1) s3 Hb1 E3) as (s' & R & L & G). exists s'. split; [|done].
    rewrite R, length_app. cbn [length]. do 2 f_equal. lia.
Qed.

(** A reorganisation takes back exactly the blocks above its target.  After
    any blocks above slot [t], recorded while the undo log has room, [revert_to t]
    succeeds, counts those blocks, makes every read return what it returned
    before them, and leaves the older undo logs in place. *)
Theorem revert_restores_reads (t : Z) bs s :
  0 <= t < max_of u64 -> Forall (fun e => e.1 <= t) (block_undo_logs s) -> Forall (fun b => t < b.1) bs ->
  match block_undo_logs s ++ block_logs s bs with (first, _) :: _ => first <= t + 1 | [] => True end ->
  (length (block_undo_logs s) + length bs <= MAX_UNDO_DEPTH)%nat ->
  exists s', revert_to t (foldl apply_block s bs) = (s', Ok (Z.of_nat (length bs))) /\
    block_undo_logs s' = block_undo_logs s /\ forall k, sm_get s' k = sm_get s k.
Proof.
  intros Ht Ho Hb Hf Hl. unfold revert_to. rewrite applied_logs by done.
  destruct (revert_loop_undoes t 0 (block_undo_logs s) bs s (foldl apply_block s bs) Ho Hb ltac:(done)) as (s' & R & L & G).
  exists s'. split; [|done]. rewrite R. rewrite wrap_small by (unfold in_range, max_of in *; lia).
  destruct (block_undo_logs s ++ block_logs s bs) as [|[first es] logs]; [done|].
  destruct (Z.ltb_spec (t + 1) first); [lia|done].
Qed.
End Reads.

(** ** The concrete tree, witnesses and findings *)

#[global] Instance map_batch_ok : StateBatchOk MapState.
Proof.
  split; [done|]. intros m l k. cbn. unfold PydeSMT_get. cbn. rewrite foldl_last_write.
  by destruct (last_write l k).
Qed.

Definition empty_manager : StateManager MapState := sm_open PydeSMT_new.

Lemma deferred_commit_refines_witness :
  let s1 := update_batch_deferred [([1], [10])] empty_manager in
  let s2 := update_batch_deferred [([2], [20])] (take_pending_writes s1).1 in
  let s3 := (flush_pending s2).1 in
  let s4 := mkManager (cache s3) (commit_writes_to_smt [([1], [10])] (smt s3)).1 (sm_root s3) (tracked_keys s3)
              (pending_writes s3) (block_undo_logs s3) in
  sm_get s4 [1] = Some [10] /\ smt_get (smt s4) [1] = Some [10].
Proof.
  intros s1 s2 s3 s4.
  destruct (deferred_commit_refines empty_manager s4 [] ([([1], [10])] ++ [] ++ [([2], [20])] ++ [] ++ [] ++ [])
      ([] ++ [] ++ [] ++ overtaken [([2], [20])] [[([1], [10])]] ++ overtaken [([1], [10])] [] ++ []) [1])
    as [E1 E2].
  - intros k. reflexivity.
  - eapply run_step; [apply step_write|]. eapply run_step; [apply step_take|].
    eapply run_step; [apply step_write|]. eapply run_step; [apply step_flush|].
    eapply run_step; [apply (step_commit _ [] _ [])|]. apply run_done.
  - split; [rewrite E1; reflexivity|]. rewrite E2; [rewrite E1; reflexivity| |reflexivity|reflexivity].
    vm_compute. intros E. inversion E.
Defined.

(** What overtaking costs: a flush that passes a batch still in flight leaves the
    older value in the tree, while reads return the newer one. *)
Example overtaken_write_is_lost :
  let s1 := update_batch_deferred [([1], [11])] (take_pending_writes (update_batch_deferred [([1], [10])] empty_manager)).1 in
  let s2 := (flush_pending s1).1 in
  let s3 := mkManager (cache s2) (commit_writes_to_smt [([1], [10])] (smt s2)).1 (sm_root s2) (tracked_keys s2)
              (pending_writes s2) (block_undo_logs s2) in
  overtaken (pending_writes s1) [[([1], [10])]] = [[1]] /\ pending_writes s3 = [] /\
  sm_get s3 [1] = Some [11] /\ smt_get (smt s3) [1] = Some [10].
Proof. vm_compute. auto. Qed.

Lemma revert_restores_reads_witness :
  let bs := [(8, [([1], [11]); ([3], [30])]); (9, [([1], [12])])] in
  let s := apply_block empty_manager (7, [([1], [10])]) in
  exists s', revert_to 7 (foldl apply_block s bs) = (s', Ok 2) /\
    block_undo_logs s' = block_undo_logs s /\ forall k, sm_get s' k = sm_get s k.
Proof.
  intros bs s. apply (revert_restores_reads 7 bs s).
  - split; [discriminate|reflexivity].
  - constructor; [discriminate|constructor].
  - constructor; [reflexivity|constructor; [reflexivity|constructor]].
  - discriminate.
  - cbn. unfold MAX_UNDO_DEPTH. lia.
Defined.

(** A direct insert behind a deferred write is lost: reads return it, but
    the pending write of the same key is committed after it, so the persistent
    tree keeps the older value (the block processor credits the proposer's
    service share this way after its fees were deferred). *)
Theorem direct_insert_is_overwritten :
  let s := (sm_insert [1] [11] (update_batch_deferred [([1], [10])] empty_manager)).1 in
  let s' := (flush_pending s).1 in
  sm_get s' [1] = Some [11] /\ smt_get (smt s') [1] = Some [10].
Proof. split; reflexivity. Qed.

(** A revert keeps the pending writes of the blocks it takes back, and the
    next flush commits them: a key created by the reverted block is back. *)
Theorem reverted_write_comes_back :
  let s := apply_block empty_manager (8, [([1], [11])]) in
  let s1 := (revert_to 7 s).1 in
  let s2 := (flush_pending s1).1 in
  (revert_to 7 s).2 = Ok 1 /\ sm_get s1 [1] = None /\ sm_get s2 [1] = Some [11].
Proof. split_and!; reflexivity. Qed.

(** Without undo logs (after a restart, say) [revert_to] reports success and
    reverts nothing, where its comment promises an error beyond the horizon and
    [can_revert_to] answers no. *)
Theorem revert_without_logs_succeeds :
  let s := update_batch_deferred [([1], [11])] empty_manager in
  can_revert_to 3 s = false /\ revert_to 3 s = (s, Ok 0).
Proof. split; reflexivity. Qed.

(** A deleted or imported value is hidden by the cache. *)
Theorem cache_hides_delete_and_import :
  let s := (sm_insert [1] [11] empty_manager).1 in
  sm_get (sm_delete [1] s).1 [1] = Some [11] /\
  let k := replicate 32 1 in
  let s := (sm_insert k [11] empty_manager).1 in
  sm_get (import_snapshot [(k, [12])] s).1 k = Some [11] /\
  smt_get (smt (import_snapshot [(k, [12])] s).1) k = Some [12].
Proof. vm_compute. split_and!; reflexivity. Qed.
