(* ===== verification/Transaction.v ===== *)
(** * Transactions

    The transaction type of [tx/src/types.rs]: its tags, the fee payer, access
    lists, the hash that is signed, and the wire format.  The fields of the
    record live in the module [Tx], because accounts and machines have fields of
    the same names. *)

From stdpp Require Import base numbers list option gmap.
From Stdlib Require Import ZArith Lia.
From S2P Require Import Prelude Crypto Wire.

#[local] Open Scope Z_scope.

Inductive TransactionType : Type :=
| Standard | Deploy | StakeDeposit | StakeWithdraw | Slash | ClaimReward | ClaimAirdrop
| SweepAirdrop | MultisigTx | RotateMultisig | EmergencyPause | EmergencyResume | RegisterPubkey.

#[global] Instance TransactionType_eq_dec : EqDecision TransactionType.
Proof. solve_decision. Defined.

(** [tx_type as u8]; tag 2 is a gap. *)
Definition TransactionType_u8 (t : TransactionType) : Z :=
  match t with
  | Standard => 0 | Deploy => 1 | StakeDeposit => 3 | StakeWithdraw => 4 | Slash => 5
  | ClaimReward => 6 | ClaimAirdrop => 7 | SweepAirdrop => 8 | MultisigTx => 9
  | RotateMultisig => 10 | EmergencyPause => 11 | EmergencyResume => 12 | RegisterPubkey => 13
  end.

Definition TransactionType_from_u8 (v : Z) : option TransactionType :=
  match v with
  | 0 => Some Standard | 1 => Some Deploy | 3 => Some StakeDeposit | 4 => Some StakeWithdraw
  | 5 => Some Slash | 6 => Some ClaimReward | 7 => Some ClaimAirdrop | 8 => Some SweepAirdrop
  | 9 => Some MultisigTx | 10 => Some RotateMultisig | 11 => Some EmergencyPause
  | 12 => Some EmergencyResume | 13 => Some RegisterPubkey
  | _ => None
  end.

Inductive FeePayer : Type :=
| Sender
| GasTank (addr : Address)
| Paymaster (addr : Address).

Definition FeePayer_tag (f : FeePayer) : Z :=
  match f with Sender => 0 | GasTank _ => 1 | Paymaster _ => 2 end.

Definition FeePayer_to_bytes (f : FeePayer) : list Z :=
  match f with
  | Sender => [0]
  | GasTank addr => [1] ++ addr
  | Paymaster addr => [2] ++ addr
  end.

Definition FeePayer_from_bytes (data : list Z) : option FeePayer :=
  match data with
  | [] => None
  | t :: _ =>
      if t =? 0 then Some Sender
      else if (t =? 1) && (33 <=? len data) then Some (GasTank (slice 1 32 data))
      else if (t =? 2) && (33 <=? len data) then Some (Paymaster (slice 1 32 data))
      else None
  end.

Record AccessEntry : Type := mkAccess {
  entry_address : Address;
  reads : list (list Z);
  writes : list (list Z)
}.

(** ** Access lists *)

Definition access_entry_bytes (e : AccessEntry) : list Z :=
  entry_address e ++ le_encode 4 (len (reads e)) ++ concat (reads e) ++
  le_encode 4 (len (writes e)) ++ concat (writes e).

Definition access_preimage (l : list AccessEntry) : list Z := concat (access_entry_bytes <$> l).

Definition serialize_access_list (l : list AccessEntry) : list Z :=
  le_encode 4 (len l) ++ access_preimage l.

(** A list of 32-byte keys behind a count: each key is checked against the end. *)
Definition read_keys (rest : list Z) : option (list (list Z) * list Z) :=
  match read_bytes_n 4 rest with
  | Some (n, rest) => read_many (read_bytes_n 32) (Z.to_nat (le_decode n)) rest
  | None => None
  end.

Definition read_entry (rest : list Z) : option (AccessEntry * list Z) :=
  if len rest <? 36 then None
  else
    match read_keys (drop 32 rest) with
    | Some (r, rest') =>
        match read_keys rest' with
        | Some (w, rest'') => Some (mkAccess (take 32 rest) r w, rest'')
        | None => None
        end
    | None => None
    end.

(** The error strings are dropped: the only caller turns them into [None].
    Bytes behind the last entry are ignored. *)
Definition deserialize_access_list (data : list Z) : option (list AccessEntry) :=
  match read_bytes_n 4 data with
  | Some (n, rest) => fst <$> read_many read_entry (Z.to_nat (le_decode n)) rest
  | None => None
  end.

(** ** The transaction *)

Module Tx.
Record Transaction : Type := mkTx {
  from : Address;
  to : Address;
  value : Z;
  data : list Z;
  gas_limit : Z;
  nonce : Z;
  signature : list Z;
  fee_payer : FeePayer;
  access_list : list AccessEntry;
  deadline : option Z;
  chain_id : Z;
  tx_type : TransactionType
}.
End Tx.
Abbreviation Transaction := Tx.Transaction.

Definition deadline_bytes (d : option Z) : list Z :=
  match d with Some d => [1] ++ le_encode 8 d | None => [0] end.

Section Hashing.
Context {P : Primitives}.

Definition hash_access_list (l : list AccessEntry) : list Z := poseidon2_hash (access_preimage l).

Definition tx_preimage (tx : Transaction) : list Z :=
  le_encode 8 (Tx.chain_id tx) ++ Tx.from tx ++ Tx.to tx ++ le_encode 16 (Tx.value tx) ++
  poseidon2_hash (Tx.data tx) ++ le_encode 8 (Tx.gas_limit tx) ++ le_encode 8 (Tx.nonce tx) ++
  FeePayer_to_bytes (Tx.fee_payer tx) ++ hash_access_list (Tx.access_list tx) ++
  deadline_bytes (Tx.deadline tx) ++ [TransactionType_u8 (Tx.tx_type tx)].

Definition tx_hash (tx : Transaction) : list Z := poseidon2_hash (tx_preimage tx).

Definition verify_signature (tx : Transaction) (public_key : list Z) : bool :=
  match FalconPublicKey_from_bytes public_key with
  | None => false
  | Some pk =>
      match FalconSignature_from_bytes (Tx.signature tx) with
      | None => false
      | Some sig => falcon_verify pk (tx_hash tx) sig
      end
  end.
End Hashing.

(** ** Wire format *)

Definition tx_to_bytes (tx : Transaction) : list Z :=
  let fee_bytes := FeePayer_to_bytes (Tx.fee_payer tx) in
  let access_bytes := serialize_access_list (Tx.access_list tx) in
  Tx.from tx ++ Tx.to tx ++ le_encode 16 (Tx.value tx) ++ write_prefixed 4 (Tx.data tx) ++
  le_encode 8 (Tx.gas_limit tx) ++ le_encode 8 (Tx.nonce tx) ++ write_prefixed 2 (Tx.signature tx) ++
  write_prefixed 1 fee_bytes ++ write_prefixed 4 access_bytes ++ deadline_bytes (Tx.deadline tx) ++
  le_encode 8 (Tx.chain_id tx) ++ [TransactionType_u8 (Tx.tx_type tx)].

(** Each [data.get(offset..offset + n)?] is a read at the cursor. *)
Definition tx_from_bytes (bytes : list Z) : option Transaction :=
  '(from, r) ← read_bytes_n 32 bytes;
  '(to, r) ← read_bytes_n 32 r;
  '(value, r) ← read_bytes_n 16 r;
  '(data, r) ← read_prefixed 4 r;
  '(gas_limit, r) ← read_bytes_n 8 r;
  '(nonce, r) ← read_bytes_n 8 r;
  '(signature, r) ← read_prefixed 2 r;
  '(fee_bytes, r) ← read_prefixed 1 r;
  fee_payer ← FeePayer_from_bytes fee_bytes;
  '(access_bytes, r) ← read_prefixed 4 r;
  access_list ← deserialize_access_list access_bytes;
  '(flag, r) ← read_bytes_n 1 r;
  '(deadline, r) ← (if byte_at 0 flag =? 1 then
                         '(d, r) ← read_bytes_n 8 r; Some (Some (le_decode d), r)
                       else Some (None, r));
  '(chain_id, r) ← read_bytes_n 8 r;
  '(ty, _) ← read_bytes_n 1 r;
  tx_type ← TransactionType_from_u8 (byte_at 0 ty);
  Some (Tx.mkTx from to (le_decode value) data (le_decode gas_limit) (le_decode nonce) signature
          fee_payer access_list deadline (le_decode chain_id) tx_type).

(** ** Well-formed transactions *)

Definition h256 (k : list Z) : Prop := length k = 32%nat.

Record wf_entry (e : AccessEntry) : Prop := {
  we_address : h256 (entry_address e);
  we_reads : Forall h256 (reads e) /\ len (reads e) < 2 ^ 32;
  we_writes : Forall h256 (writes e) /\ len (writes e) < 2 ^ 32
}.

Definition wf_payer (f : FeePayer) : Prop :=
  match f with Sender => True | GasTank a | Paymaster a => h256 a end.

(** The fields have the widths of their types, and the lengths fit the length
    prefixes (which the size check of validation guarantees). *)
Record wf_tx (tx : Transaction) : Prop := {
  wt_from : h256 (Tx.from tx);
  wt_to : h256 (Tx.to tx);
  wt_value : in_range u128 (Tx.value tx);
  wt_data : len (Tx.data tx) < 2 ^ 32;
  wt_gas_limit : in_range u64 (Tx.gas_limit tx);
  wt_nonce : in_range u64 (Tx.nonce tx);
  wt_signature : len (Tx.signature tx) < 2 ^ 16;
  wt_fee_payer : wf_payer (Tx.fee_payer tx);
  wt_access : Forall wf_entry (Tx.access_list tx) /\ len (Tx.access_list tx) < 2 ^ 32 /\
    len (serialize_access_list (Tx.access_list tx)) < 2 ^ 32;
  wt_deadline : match Tx.deadline tx with Some d => in_range u64 d | None => True end;
  wt_chain_id : in_range u64 (Tx.chain_id tx)
}.

(** ** The wire format round trip *)

Lemma read_keys_write (keys : list (list Z)) (rest : list Z) :
  Forall h256 keys -> len keys < 2 ^ 32 ->
  read_keys (le_encode 4 (len keys) ++ concat keys ++ rest) = Some (keys, rest).
Proof.
  intros Hk Hl. unfold read_keys. rewrite read_bytes_n_exact by wire_len.
  rewrite le_decode_encode by (unfold len in *; lia). unfold len. rewrite Nat2Z.id.
  rewrite <- (list_fmap_id keys) at 2. apply (read_many_write (read_bytes_n 32) id).
  intros k r Hin. rewrite Forall_forall in Hk. specialize (Hk k Hin). unfold h256 in Hk.
  apply read_bytes_n_exact. unfold len, id. lia.
Qed.

Lemma read_entry_write (e : AccessEntry) (rest : list Z) :
  wf_entry e -> read_entry (access_entry_bytes e ++ rest) = Some (e, rest).
Proof.
  intros [Ha [Hr Lr] [Hw Lw]]. unfold access_entry_bytes. rewrite <- !app_assoc. unfold read_entry.
  rewrite take_app_length', drop_app_length' by done.
  destruct (Z.ltb_spec (len (entry_address e ++ le_encode 4 (len (reads e)) ++ concat (reads e) ++
    le_encode 4 (len (writes e)) ++ concat (writes e) ++ rest)) 36) as [L|_].
  { unfold len in L. unfold h256 in Ha. rewrite !length_app, !length_le_encode, Ha in L. lia. }
  rewrite read_keys_write by done. rewrite read_keys_write by done. by destruct e.
Qed.

Lemma access_list_codec (l : list AccessEntry) :
  Forall wf_entry l -> len l < 2 ^ 32 -> deserialize_access_list (serialize_access_list l) = Some l.
Proof.
  intros Hl Hn. unfold deserialize_access_list, serialize_access_list.
  rewrite read_bytes_n_exact by wire_len. rewrite le_decode_encode by (unfold len in *; lia).
  unfold len. rewrite Nat2Z.id. unfold access_preimage.
  rewrite <- (app_nil_r (concat _)), (read_many_write read_entry access_entry_bytes); [done|].
  intros e r He. apply read_entry_write. rewrite Forall_forall in Hl. by apply Hl.
Qed.

Lemma FeePayer_codec (f : FeePayer) : wf_payer f -> FeePayer_from_bytes (FeePayer_to_bytes f) = Some f.
Proof.
  destruct f as [|a|a]; [done|..]; intros Ha; cbn [wf_payer] in Ha; unfold h256 in Ha.
  all: assert (forall x : Z, (33 <=? len (x :: a)) = true) as L
    by (intros; apply Z.leb_le; unfold len; cbn [length]; lia).
  all: cbn [FeePayer_to_bytes FeePayer_from_bytes app Z.eqb Pos.eqb]; rewrite L; cbn [andb]; do 2 f_equal.
  all: unfold slice; cbn [drop]; rewrite <- Ha; apply firstn_all.
Qed.

Lemma TransactionType_codec (t : TransactionType) :
  TransactionType_from_u8 (TransactionType_u8 t) = Some t.
Proof. by destruct t. Qed.

(** Wire round trip: a well-formed transaction is read back from its bytes,
    field for field, whatever follows them. *)
Theorem tx_roundtrip (tx : Transaction) (rest : list Z) :
  wf_tx tx -> tx_from_bytes (tx_to_bytes tx ++ rest) = Some tx.
Proof.
  intros []. unfold tx_to_bytes. cbv zeta. rewrite <- !app_assoc. unfold tx_from_bytes, h256 in *.
  do 3 (rewrite read_bytes_n_exact by (wire_len || unfold len; lia); cbn [mbind option_bind]).
  rewrite read_prefixed_write by done. cbn [mbind option_bind].
  do 2 (rewrite read_bytes_n_exact by (wire_len || unfold len; lia); cbn [mbind option_bind]).
  rewrite read_prefixed_write by done. cbn [mbind option_bind].
  rewrite read_prefixed_write. 2:{ destruct (Tx.fee_payer tx); [done|..]; cbn; unfold len; cbn [length]; unfold wf_payer, h256 in *; lia. }
  cbn [mbind option_bind]. rewrite FeePayer_codec by done. cbn [mbind option_bind].
  destruct wt_access0 as (Wa & La & Ls).
  rewrite read_prefixed_write by done. cbn [mbind option_bind].
  rewrite access_list_codec by done. cbn [mbind option_bind].
  assert (forall x b, read_bytes_n 1 ([x] ++ b) = Some ([x], b)) as R1 by (intros; by apply read_bytes_n_exact).
  destruct tx as [f t v d g n s fp al [dl|] c ty]; cbn [Tx.deadline Tx.from Tx.to Tx.value Tx.data Tx.gas_limit
    Tx.nonce Tx.signature Tx.fee_payer Tx.access_list Tx.chain_id Tx.tx_type deadline_bytes] in *;
    rewrite <- ?app_assoc; rewrite R1; cbn [mbind option_bind]; change (byte_at 0 [?x]) with x; cbn [Z.eqb Pos.eqb mbind option_bind];
    repeat (rewrite read_bytes_n_exact by wire_len; cbn [mbind option_bind]);
    change (byte_at 0 [?x]) with x; rewrite TransactionType_codec; cbn [mbind option_bind];
    by rewrite !le_decode_encode.
Qed.

Lemma tx_roundtrip_witness :
  let tx := Tx.mkTx ZERO_ADDRESS ZERO_ADDRESS 7 [1; 2] 21000 3 [9] (GasTank ZERO_ADDRESS)
    [mkAccess ZERO_ADDRESS [ZERO_ADDRESS] []] (Some 5) 1 Standard in
  tx_from_bytes (tx_to_bytes tx ++ [255]) = Some tx.
Proof.
  intros tx. apply (tx_roundtrip tx [255]).
  split; try reflexivity; try (split; [discriminate|reflexivity]).
  split; [|split; reflexivity]. constructor; [|constructor].
  split; [reflexivity|split; [|reflexivity]..]; repeat (constructor; [reflexivity|]); constructor.
Defined.

(** ** The hash binds every field but the signature *)

Lemma access_preimage_inj (l1 l2 : list AccessEntry) :
  Forall wf_entry l1 -> Forall wf_entry l2 -> access_preimage l1 = access_preimage l2 -> l1 = l2.
Proof.
  assert (forall e l, wf_entry e -> [] <> access_preimage (e :: l)) as Hne.
  { intros e l [Ha _ _] E. apply (f_equal length) in E. unfold access_preimage, access_entry_bytes in E.
    cbn [fmap list_fmap concat length] in E. unfold h256 in Ha. rewrite !length_app, Ha in E. lia. }
  intros H1. revert l2. induction H1 as [|e1 l1 W1 H1 IH]; intros l2 H2 E.
  - inversion H2 as [|e2 l2' W2 H2']; subst; [done|]. by apply Hne in E.
  - inversion H2 as [|e2 l2' W2 H2']; subst. { symmetry in E. by apply Hne in E. }
    unfold access_preimage in E. cbn [fmap list_fmap concat] in E. apply (f_equal read_entry) in E.
    rewrite !read_entry_write in E by done. injection E as -> E. f_equal. by apply IH.
Qed.

Lemma FeePayer_to_bytes_inj (f1 f2 : FeePayer) (r1 r2 : list Z) :
  wf_payer f1 -> wf_payer f2 -> FeePayer_to_bytes f1 ++ r1 = FeePayer_to_bytes f2 ++ r2 -> f1 = f2 /\ r1 = r2.
Proof.
  destruct f1 as [|a1|a1], f2 as [|a2|a2]; unfold wf_payer, h256; intros H1 H2; try done; cbn [FeePayer_to_bytes app].
  - by intros [= ->].
  - intros [= E]. apply app_inj_1 in E as [-> ->]; [done|lia].
  - intros [= E]. apply app_inj_1 in E as [-> ->]; [done|lia].
Qed.

Lemma deadline_bytes_inj (d1 d2 : option Z) :
  match d1 with Some d => in_range u64 d | None => True end ->
  match d2 with Some d => in_range u64 d | None => True end ->
  deadline_bytes d1 = deadline_bytes d2 -> d1 = d2.
Proof.
  destruct d1 as [d1|], d2 as [d2|]; cbn [deadline_bytes]; intros H1 H2 E; try done.
  apply app_inv_head in E. by rewrite (le_encode_inj 8 d1 d2 H1 H2 E).
Qed.

(** The bytes of the fields are bytes. *)
Record bytes_tx (tx : Transaction) : Prop := {
  bt_from : bytes_ok (Tx.from tx);
  bt_to : bytes_ok (Tx.to tx);
  bt_data : bytes_ok (Tx.data tx);
  bt_payer : bytes_ok (FeePayer_to_bytes (Tx.fee_payer tx));
  bt_access : bytes_ok (access_preimage (Tx.access_list tx))
}.

Definition set_signature (s : list Z) (tx : Transaction) : Transaction :=
  Tx.mkTx (Tx.from tx) (Tx.to tx) (Tx.value tx) (Tx.data tx) (Tx.gas_limit tx) (Tx.nonce tx) s
    (Tx.fee_payer tx) (Tx.access_list tx) (Tx.deadline tx) (Tx.chain_id tx) (Tx.tx_type tx).

Section Binding.
Context {P : Primitives} {PO : PrimitivesOk P}.

Lemma tx_preimage_bytes (tx : Transaction) : bytes_tx tx -> bytes_ok (tx_preimage tx).
Proof.
  intros []. unfold tx_preimage, bytes_ok, hash_access_list in *.
  repeat (apply Forall_app; split);
    try first [apply le_encode_bytes | apply poseidon2_hash_bytes | done].
  - destruct (Tx.deadline tx); [apply Forall_app; split; [|apply le_encode_bytes]|];
      (constructor; [split; [discriminate|reflexivity]|constructor]).
  - constructor; [|done]. by destruct (Tx.tx_type tx).
Qed.

Lemma payer_length (f : FeePayer) : wf_payer f -> (length (FeePayer_to_bytes f) <= 33)%nat.
Proof. destruct f; unfold wf_payer, h256; cbn; lia. Qed.

Lemma tx_preimage_length (tx : Transaction) :
  wf_tx tx -> (171 <= length (tx_preimage tx) <= 211)%nat.
Proof.
  intros []. pose proof (payer_length _ wt_fee_payer0). unfold tx_preimage, hash_access_list, h256 in *.
  rewrite !length_app, !length_le_encode, !poseidon2_hash_length, wt_from0, wt_to0. cbn [length].
  assert (1 <= length (FeePayer_to_bytes (Tx.fee_payer tx)))%nat by (destruct (Tx.fee_payer tx); cbn; lia).
  destruct (Tx.deadline tx); cbn [deadline_bytes length app]; rewrite ?length_le_encode; lia.
Qed.

Lemma tx_preimage_inj (tx1 tx2 : Transaction) :
  wf_tx tx1 -> wf_tx tx2 -> tx_preimage tx1 = tx_preimage tx2 ->
  poseidon2_hash (Tx.data tx1) = poseidon2_hash (Tx.data tx2) /\
  hash_access_list (Tx.access_list tx1) = hash_access_list (Tx.access_list tx2) /\
  (Tx.data tx1 = Tx.data tx2 -> Tx.access_list tx1 = Tx.access_list tx2 ->
   tx2 = set_signature (Tx.signature tx2) tx1).
Proof.
  intros [] [] E. unfold h256 in *. unfold tx_preimage in E.
  apply app_inj_1 in E as [Ec E]; [|by rewrite !length_le_encode].
  apply app_inj_1 in E as [Ef E]; [|lia]. apply app_inj_1 in E as [Et E]; [|lia].
  apply app_inj_1 in E as [Ev E]; [|by rewrite !length_le_encode].
  apply app_inj_1 in E as [Ed E]; [|by rewrite !poseidon2_hash_length].
  apply app_inj_1 in E as [Eg E]; [|by rewrite !length_le_encode].
  apply app_inj_1 in E as [En E]; [|by rewrite !length_le_encode].
  apply FeePayer_to_bytes_inj in E as [Ep E]; [|done..].
  apply app_inj_1 in E as [Ea E]; [|unfold hash_access_list; by rewrite !poseidon2_hash_length].
  apply app_inj_tail in E as [El Ey]. apply deadline_bytes_inj in El; [|done..].
  apply le_encode_inj in Ec, Ev, Eg, En; [|done..].
  assert (Tx.tx_type tx1 = Tx.tx_type tx2) as Ey'.
  { apply (f_equal TransactionType_from_u8) in Ey. rewrite !TransactionType_codec in Ey. congruence. }
  split_and!; [done|done|]. intros D A. destruct tx1, tx2.
  unfold set_signature. cbn [Tx.deadline Tx.from Tx.to Tx.value Tx.data Tx.gas_limit
    Tx.nonce Tx.signature Tx.fee_payer Tx.access_list Tx.chain_id Tx.tx_type] in *. congruence.
Qed.

(** The three places where two transaction hashes can meet by collision. *)
Definition tx_collision (tx1 tx2 : Transaction) : Prop :=
  sponge_collision (tx_preimage tx1) (tx_preimage tx2) \/
  sponge_collision (Tx.data tx1) (Tx.data tx2) \/
  sponge_collision (access_preimage (Tx.access_list tx1)) (access_preimage (Tx.access_list tx2)).

(** A signature covers the whole transaction: two well-formed transactions
    with the same hash are equal up to the signature bytes (sender, recipient,
    value, data, gas limit, nonce, fee payer with its address, access list,
    deadline, chain and type all agree), or the sponge collides on one of three
    explicitly given pairs of inputs. *)
Theorem tx_hash_binds (tx1 tx2 : Transaction) :
  wf_tx tx1 -> wf_tx tx2 -> bytes_tx tx1 -> bytes_tx tx2 -> tx_hash tx1 = tx_hash tx2 ->
  tx2 = set_signature (Tx.signature tx2) tx1 \/ tx_collision tx1 tx2.
Proof.
  intros W1 W2 B1 B2 E. unfold tx_collision.
  apply poseidon2_hash_eq in E as [E|]; [|by right; left|..].
  2: split; [by apply tx_preimage_bytes|]; unfold len; pose proof (tx_preimage_length _ W1); lia.
  2: split; [by apply tx_preimage_bytes|]; unfold len; pose proof (tx_preimage_length _ W2); lia.
  apply tx_preimage_inj in E as (Ed & Ea & Hsame); [|done..].
  assert (forall tx, wf_tx tx -> bytes_tx tx -> alloc_ok (Tx.data tx) /\ alloc_ok (access_preimage (Tx.access_list tx))) as Hal.
  { intros tx [] []. split; (split; [done|]); [lia|]. destruct wt_access0 as (_ & _ & L).
    unfold serialize_access_list, len in L. unfold len. rewrite length_app in L. lia. }
  destruct (Hal _ W1 B1) as [A1 A1'], (Hal _ W2 B2) as [A2 A2'].
  apply poseidon2_hash_eq in Ed as [Ed|]; [|by right; right; left|done..].
  apply poseidon2_hash_eq in Ea as [Ea|]; [|by right; right; right|done..].
  left. apply Hsame; [done|]. apply access_preimage_inj; [apply W1|apply W2|done].
Qed.
End Binding.

Lemma tx_hash_binds_witness :
  let P := {| sponge := fun _ => [0; 0; 0; 0]; fn_dsa_verify := fun _ _ _ => false |} in
  let tx v := Tx.mkTx ZERO_ADDRESS ZERO_ADDRESS v [] 21000 0 [] Sender [] None 1 Standard in
  tx 2 = set_signature [] (tx 1) \/ @tx_collision P (tx 1) (tx 2).
Proof.
  intros P tx. assert (PrimitivesOk P) as PO.
  { split; [reflexivity|]. intros l. repeat (constructor; [split; [discriminate|reflexivity]|]). constructor. }
  assert (forall v, in_range u128 v -> wf_tx (tx v)) as W.
  { intros v Hv. split; try reflexivity; try (split; [discriminate|reflexivity]); [exact Hv|].
    split; [constructor|split; reflexivity]. }
  assert (forall v, bytes_tx (tx v)) as B.
  { intros v. split; repeat (constructor; [split; [discriminate|reflexivity]|]); constructor. }
  apply (tx_hash_binds (tx 1) (tx 2)); [apply W; split; [discriminate|reflexivity]..|apply B|apply B|reflexivity].
Defined.
