(* ===== verification/Scheduler.v ===== *)
(** * The conflict scheduler

    [tx/src/parallel.rs]: a union-find over the transactions of a block, an
    inverted index from keys to the transaction that claimed them, and the
    groups that are executed independently. *)

From stdpp Require Import base numbers list option gmap sorting relations.
From Stdlib Require Import ZArith Lia.
From S2P Require Import Prelude Crypto Keys Account Transaction.

#[local] Open Scope Z_scope.

(** A storage location: an address and a 32-byte key. *)
Abbreviation AddrKey := (Address * list Z)%type (only parsing).

(** ** Union-find *)

Record UnionFind : Type := mkUF {
  parent : list nat;
  rank : list nat
}.

Definition UnionFind_new (n : nat) : UnionFind := mkUF (seq 0 n) (replicate n 0%nat).

Definition set_parent (x p : nat) (u : UnionFind) : UnionFind := mkUF (<[x := p]> (parent u)) (rank u).
Definition bump_rank (x : nat) (u : UnionFind) : UnionFind :=
  mkUF (parent u) (<[x := S (rank u !!! x)]> (rank u)).

(** [find] recurses along the parents; ranks grow along the way, so the number
    of elements bounds the depth. *)
Fixpoint find_loop (fuel : nat) (x : nat) (u : UnionFind) : UnionFind * nat :=
  match fuel with
  | O => (u, x)
  | S f =>
      if decide (parent u !!! x = x) then (u, parent u !!! x)
      else
        let '(u, r) := find_loop f (parent u !!! x) u in
        let u := set_parent x r u in
        (u, parent u !!! x)
  end.

Definition find (x : nat) (u : UnionFind) : UnionFind * nat := find_loop (length (parent u)) x u.

Definition union (a b : nat) (u : UnionFind) : UnionFind :=
  let '(u, ra) := find a u in
  let '(u, rb) := find b u in
  if decide (ra = rb) then u
  else if decide (rank u !!! ra < rank u !!! rb)%nat then set_parent ra rb u
  else if decide (rank u !!! rb < rank u !!! ra)%nat then set_parent rb ra u
  else bump_rank ra (set_parent rb ra u).

(** ** Access lists *)

Definition access_list_is_uninformative (access_list : list AccessEntry) : bool :=
  forallb (fun e => bool_decide (reads e = []) && bool_decide (writes e = [])) access_list.

Definition al_writes (access_list : list AccessEntry) : list AddrKey :=
  e ← access_list; (fun k => (entry_address e, k)) <$> writes e.
Definition al_reads (access_list : list AccessEntry) : list AddrKey :=
  e ← access_list; (fun k => (entry_address e, k)) <$> reads e.
Definition al_all (access_list : list AccessEntry) : list AddrKey :=
  e ← access_list; (fun k => (entry_address e, k)) <$> (reads e ++ writes e).

Definition access_lists_conflict (a b : list AccessEntry) : bool :=
  access_list_is_uninformative a || access_list_is_uninformative b ||
  existsb (fun wk => bool_decide (wk ∈ al_all b)) (al_writes a) ||
  existsb (fun wk => bool_decide (wk ∈ al_all a)) (al_writes b).

Definition conflicts (tx_a tx_b : Transaction) : bool :=
  access_lists_conflict (Tx.access_list tx_a) (Tx.access_list tx_b).

Section Scheduler.
Context {P : Primitives}.

Definition implicit_writes (tx : Transaction) : option (list AddrKey) :=
  match Tx.tx_type tx with
  | Standard | Deploy | RegisterPubkey =>
      let writes := [(Tx.from tx, balance_key (Tx.from tx)); (Tx.from tx, nonce_key (Tx.from tx))] in
      Some (if decide (Tx.tx_type tx = Standard /\ Tx.to tx <> ZERO_ADDRESS)
            then writes ++ [(Tx.to tx, balance_key (Tx.to tx))] else writes)
  | _ => None
  end.

(** ** Scheduling *)

Record Scheduling : Type := mkSched {
  uf : UnionFind;
  write_owners : gmap AddrKey nat;
  unknown_representative : option nat
}.

Definition claim (i : nat) (st : Scheduling) (ak : AddrKey) : Scheduling :=
  match write_owners st !! ak with
  | Some other => mkSched (union i other (uf st)) (write_owners st) (unknown_representative st)
  | None => mkSched (uf st) (<[ak := i]> (write_owners st)) (unknown_representative st)
  end.

Definition note_read (i : nat) (st : Scheduling) (ak : AddrKey) : Scheduling :=
  match write_owners st !! ak with
  | Some writer =>
      if decide (writer = i) then st
      else mkSched (union i writer (uf st)) (write_owners st) (unknown_representative st)
  | None => st
  end.

Definition note_unknown (i : nat) (st : Scheduling) : Scheduling :=
  match unknown_representative st with
  | Some rep => mkSched (union i rep (uf st)) (write_owners st) (unknown_representative st)
  | None => mkSched (uf st) (write_owners st) (Some i)
  end.

Definition schedule_tx (i : nat) (tx : Transaction) (st : Scheduling) : Scheduling :=
  let implicit := implicit_writes tx in
  let explicit_informative := negb (access_list_is_uninformative (Tx.access_list tx)) in
  if negb (is_some implicit) && negb explicit_informative then note_unknown i st
  else
    let st := foldl (claim i) st (default [] implicit) in
    if explicit_informative then
      let st := foldl (claim i) st (al_writes (Tx.access_list tx)) in
      foldl (note_read i) st (al_reads (Tx.access_list tx))
    else st.

(** [schedule_from_access_lists]: writes and reads entry by entry. *)
Definition schedule_list (i : nat) (al : list AccessEntry) (st : Scheduling) : Scheduling :=
  if access_list_is_uninformative al then note_unknown i st
  else
    foldl (fun st e =>
      let st := foldl (claim i) st ((fun k => (entry_address e, k)) <$> writes e) in
      foldl (note_read i) st ((fun k => (entry_address e, k)) <$> reads e)) st al.

(** The loop over the transactions. *)
Fixpoint schedule_all {A : Type} (one : nat -> A -> Scheduling -> Scheduling) (i : nat) (l : list A)
    (st : Scheduling) : Scheduling :=
  match l with
  | [] => st
  | x :: l' => schedule_all one (S i) l' (one i x st)
  end.

(** The transactions without a known touch set join everything. *)
Definition join_unknown (n : nat) (st : Scheduling) : UnionFind :=
  match unknown_representative st with
  | Some rep => foldl (fun u i => if decide (i = rep) then u else union i rep u) (uf st) (seq 0 n)
  | None => uf st
  end.

(** ** Groups *)

Definition collect_one (c : UnionFind * gmap nat (list nat)) (i : nat) : UnionFind * gmap nat (list nat) :=
  let '(u, components) := c in
  let '(u, r) := find i u in
  (u, <[r := default [] (components !! r) ++ [i]]> components).

Definition by_first (g h : list nat) : Prop := (g !!! 0%nat <= h !!! 0%nat)%nat.
#[global] Instance by_first_dec : RelDecision by_first.
Proof. unfold by_first. solve_decision. Defined.

Definition collect (n : nat) (u : UnionFind) : list (list nat) :=
  let components := (foldl collect_one (u, ∅) (seq 0 n)).2 in
  merge_sort by_first (map_to_list components).*2.

Definition schedule_with {A : Type} (one : nat -> A -> Scheduling -> Scheduling) (l : list A) : list (list nat) :=
  let n := length l in
  if decide (n = 0%nat) then []
  else collect n (join_unknown n (schedule_all one 0 l (mkSched (UnionFind_new n) ∅ None))).

Definition schedule (txs : list Transaction) : list (list nat) := schedule_with schedule_tx txs.

Definition schedule_from_access_lists (access_lists : list (list AccessEntry)) : list (list nat) :=
  schedule_with schedule_list access_lists.

(** [ExecutionSchedule::max_group_size] *)
Definition max_group_size (groups : list (list nat)) : nat := foldr Nat.max 0%nat (length <$> groups).
End Scheduler.

(** ** Union-find computes connected components *)

Record wf_uf (n : nat) (u : UnionFind) : Prop := {
  wu_parent : length (parent u) = n;
  wu_rank : length (rank u) = n;
  wu_closed : forall x, (x < n)%nat -> (parent u !!! x < n)%nat;
  wu_ranks : forall x, (x < n)%nat -> parent u !!! x <> x -> (rank u !!! x < rank u !!! (parent u !!! x))%nat
}.

Inductive root (u : UnionFind) : nat -> nat -> Prop :=
| root_here x : parent u !!! x = x -> root u x x
| root_up x r : parent u !!! x <> x -> root u (parent u !!! x) r -> root u x r.

Lemma root_unique u x r1 r2 : root u x r1 -> root u x r2 -> r1 = r2.
Proof.
  intros R. revert r2. induction R as [x E|x r N R IH]; intros r2 R2; inversion R2; subst; done || eauto.
Qed.

Lemma root_fixed u x r : root u x r -> parent u !!! r = r.
Proof. by induction 1. Qed.

Lemma root_self u x r : root u x r -> root u r r.
Proof. intros R. constructor. by eapply root_fixed. Qed.

Lemma root_rank n u x r :
  wf_uf n u -> (x < n)%nat -> root u x r -> (r < n)%nat /\ (x = r \/ (rank u !!! x < rank u !!! r)%nat).
Proof.
  intros W Hx R. induction R as [x E|x r N R IH]; [eauto|]. destruct IH as [Hr IH]; [by apply W|].
  split; [done|right]. pose proof (wu_ranks n u W x Hx N). destruct IH as [<-|]; lia.
Qed.

(** The elements of higher rank, which bound the way to the root. *)
Definition above (n : nat) (u : UnionFind) (x : nat) : list nat :=
  filter (fun y => rank u !!! x < rank u !!! y)%nat (seq 0 n).

Lemma above_parent n u x :
  wf_uf n u -> (x < n)%nat -> parent u !!! x <> x -> (length (above n u (parent u !!! x)) < length (above n u x))%nat.
Proof.
  intros W Hx N. pose proof (wu_ranks n u W x Hx N) as Hr. pose proof (wu_closed n u W x Hx) as Hp.
  set (p := parent u !!! x) in *.
  assert (length (p :: above n u p) <= length (above n u x))%nat; [|cbn in *; lia].
  apply submseteq_length, NoDup_submseteq.
  - apply NoDup_cons. split; [|apply NoDup_filter, NoDup_seq]. intros [? _]%list_elem_of_filter. lia.
  - intros y [->|[Hy Hs]%list_elem_of_filter]%elem_of_cons; apply list_elem_of_filter; split; [done| |lia|done].
    apply elem_of_seq. lia.
Qed.

Lemma above_bound n u x : (x < n)%nat -> (length (above n u x) < n)%nat.
Proof.
  intros Hx. assert (length (x :: above n u x) <= length (seq 0 n))%nat as L.
  { apply submseteq_length, NoDup_submseteq.
    - apply NoDup_cons. split; [|apply NoDup_filter, NoDup_seq]. intros [? _]%list_elem_of_filter. lia.
    - intros y [->|[_ Hy]%list_elem_of_filter]%elem_of_cons; [apply elem_of_seq; lia|done]. }
  rewrite length_seq in L. cbn in L. lia.
Qed.

Lemma root_total n u x : wf_uf n u -> (x < n)%nat -> exists r, root u x r.
Proof.
  intros W. remember (length (above n u x)) as m eqn:Em. revert x Em.
  induction (lt_wf m) as [m _ IH]. intros x -> Hx.
  destruct (decide (parent u !!! x = x)) as [E|N]; [exists x; by constructor|].
  destruct (IH _ (above_parent n u x W Hx N) _ eq_refl (wu_closed n u W x Hx)) as [r R].
  exists r. by apply root_up.
Qed.

Lemma set_parent_eq (x p : nat) (u : UnionFind) :
  (x < length (parent u))%nat -> parent (set_parent x p u) !!! x = p.
Proof. intros Hx. cbn. by apply list_lookup_total_insert_eq. Qed.

Lemma set_parent_ne (x p y : nat) (u : UnionFind) : y <> x -> parent (set_parent x p u) !!! y = parent u !!! y.
Proof. intros Hy. cbn. by apply list_lookup_total_insert_ne. Qed.

Lemma set_parent_wf n u x p :
  wf_uf n u -> (p < n)%nat -> (p <> x -> rank u !!! x < rank u !!! p)%nat -> wf_uf n (set_parent x p u).
Proof.
  intros [] Hp Hr. split; [cbn; by rewrite length_insert|done|..]; intros y Hy.
  - destruct (decide (y = x)) as [->|]; [by rewrite set_parent_eq by lia|rewrite set_parent_ne by done; eauto].
  - destruct (decide (y = x)) as [->|]; [rewrite set_parent_eq by lia; eauto|rewrite set_parent_ne by done; eauto].
Qed.

(** Pointing a node at its root changes no root. *)
Lemma compress_root n u x r y z :
  wf_uf n u -> (x < n)%nat -> root u x r -> x <> r -> root u y z -> root (set_parent x r u) y z.
Proof.
  intros W Hx Rx Hne R.
  assert (parent u !!! x <> x) as Nx by (intros E; apply Hne; eapply root_unique; [by apply root_here|done]).
  assert (forall w, root u w w -> root (set_parent x r u) w w) as Fix.
  { intros w Rw. apply root_fixed in Rw. apply root_here. rewrite set_parent_ne; [done|congruence]. }
  induction R as [y E|y z N R IH].
  - apply Fix. by constructor.
  - destruct (decide (y = x)) as [->|].
    + assert (z = r) as -> by (eapply root_unique; [by apply root_up|done]).
      apply root_up; rewrite set_parent_eq by (rewrite (wu_parent n u W); lia); [done|].
      apply Fix. by eapply root_self.
    + apply root_up; rewrite set_parent_ne by done; done.
Qed.

Lemma find_loop_spec n (fuel : nat) (x : nat) (u : UnionFind) :
  wf_uf n u -> (x < n)%nat -> (length (above n u x) < fuel)%nat ->
  let (u', r) := find_loop fuel x u in
  wf_uf n u' /\ rank u' = rank u /\ root u x r /\ forall y z, root u y z -> root u' y z.
Proof.
  revert x u. induction fuel as [|f IH]; intros x u W Hx Hf; [lia|]. cbn [find_loop].
  destruct (decide (parent u !!! x = x)) as [E|N]; [rewrite E; split_and!; [done..|by constructor|done]|].
  pose proof (above_parent n u x W Hx N) as Ha. pose proof (wu_closed n u W x Hx) as Hp.
  specialize (IH (parent u !!! x) u W Hp ltac:(lia)).
  destruct (find_loop f (parent u !!! x) u) as [u1 r]. destruct IH as (W1 & Er & R & K).
  rewrite set_parent_eq by (rewrite (wu_parent n u1 W1); lia).
  assert (root u x r) as Rx by by apply root_up.
  assert (x <> r) as Hne by (intros ->; apply N; by eapply root_fixed).
  destruct (root_rank n u x r W Hx Rx) as [Hrn Hrk].
  split_and!; [|done|done|].
  - apply set_parent_wf; [done|done|]. intros _. rewrite Er. destruct Hrk; [done|lia].
  - intros y z Ryz. eapply compress_root; [exact W1|done|by apply K|done|by apply K].
Qed.

Lemma find_spec n x u :
  wf_uf n u -> (x < n)%nat ->
  let (u', r) := find x u in
  wf_uf n u' /\ rank u' = rank u /\ root u x r /\ forall y z, root u y z -> root u' y z.
Proof.
  intros W Hx. unfold find. rewrite (wu_parent n u W). apply find_loop_spec; [done..|]. by apply above_bound.
Qed.

(** Hanging one root under another. *)
Lemma link_root u a b y z :
  (a < length (parent u))%nat -> root u a a -> root u b b -> a <> b -> root u y z ->
  root (set_parent a b u) y (if decide (z = a) then b else z).
Proof.
  intros Ha Ra Rb Hne R.
  assert (forall w, w <> a -> root u w w -> root (set_parent a b u) w w) as Fix.
  { intros w Hw Rw. apply root_here. rewrite set_parent_ne by done. by eapply root_fixed. }
  induction R as [y E|y z N R IH].
  - destruct (decide (y = a)) as [->|]; [|apply Fix; [done|by constructor]].
    apply root_up; rewrite set_parent_eq by done; [done|by apply Fix].
  - assert (y <> a) by (intros ->; apply N; by eapply root_fixed).
    apply root_up; rewrite set_parent_ne by done; done.
Qed.

Definition same (u : UnionFind) (x y : nat) : Prop := exists r, root u x r /\ root u y r.

Lemma root_bump u a x r : root (bump_rank a u) x r <-> root u x r.
Proof. split; induction 1; constructor; done. Qed.

(** Roots move from [a] to [b]; the classes of [a] and [b] merge. *)
Lemma same_linked n (u u' : UnionFind) (a b x y : nat) :
  wf_uf n u -> wf_uf n u' -> (x < n)%nat -> (y < n)%nat -> root u a a -> root u b b -> a <> b ->
  (forall w z, root u w z -> root u' w (if decide (z = a) then b else z)) ->
  same u' x y <-> same u x y \/ (same u x a /\ same u b y) \/ (same u x b /\ same u a y).
Proof.
  intros W W' Hx Hy Ra Rb Hne K.
  destruct (root_total n u x W Hx) as [rx Rx]. destruct (root_total n u y W Hy) as [ry Ry].
  assert (forall v w rv rw, root u v rv -> root u w rw -> (same u v w <-> rv = rw)) as Sm.
  { intros v w rv rw R1 R2. split; [intros (r & ? & ?)|intros ->; by exists rw].
    transitivity r; [|symmetry]; by eapply root_unique. }
  rewrite (Sm x y rx ry), (Sm x a rx a), (Sm b y b ry), (Sm x b rx b), (Sm a y a ry) by done.
  apply K in Rx, Ry. transitivity ((if decide (rx = a) then b else rx) = (if decide (ry = a) then b else ry)).
  - split; [intros (r & ? & ?)|intros E; eexists; split; [exact Rx|by rewrite E]].
    transitivity r; [|symmetry]; by eapply root_unique.
  - destruct (decide (rx = a)), (decide (ry = a)); subst; naive_solver.
Qed.

Lemma bump_wf n u (a b : nat) :
  wf_uf n u -> (a < n)%nat -> (b < n)%nat -> a <> b -> root u a a -> rank u !!! a = rank u !!! b ->
  wf_uf n (bump_rank a (set_parent b a u)).
Proof.
  intros W Ha Hb Hne Ra Er. pose proof (wu_parent n u W) as Lp. pose proof (wu_rank n u W) as Lr.
  split; [cbn; by rewrite length_insert|cbn; by rewrite length_insert|..]; intros x Hx.
  - change (parent (bump_rank a (set_parent b a u))) with (parent (set_parent b a u)).
    destruct (decide (x = b)) as [->|]; [by rewrite (set_parent_eq b a u) by lia|].
    rewrite (set_parent_ne b a x u) by done. by apply W.
  - intros N. change (parent (bump_rank a (set_parent b a u))) with (parent (set_parent b a u)) in *.
    cbn [rank bump_rank set_parent]. assert (x <> a) as Hxa.
    { intros ->. apply N. rewrite set_parent_ne by done. by eapply root_fixed. }
    rewrite (list_lookup_total_insert_ne _ a x) by done.
    destruct (decide (x = b)) as [->|].
    + rewrite set_parent_eq by lia. rewrite list_lookup_total_insert_eq by lia. lia.
    + rewrite set_parent_ne in * by done. pose proof (wu_ranks n u W x Hx N).
      destruct (decide (parent u !!! x = a)) as [E|]; [rewrite E in *; rewrite list_lookup_total_insert_eq by lia; lia|].
      by rewrite list_lookup_total_insert_ne.
Qed.

Lemma union_spec n a b u :
  wf_uf n u -> (a < n)%nat -> (b < n)%nat ->
  wf_uf n (union a b u) /\
  forall x y, (x < n)%nat -> (y < n)%nat ->
    same (union a b u) x y <-> same u x y \/ (same u x a /\ same u b y) \/ (same u x b /\ same u a y).
Proof.
  intros W Ha Hb. unfold union.
  pose proof (find_spec n a u W Ha) as F. destruct (find a u) as [u1 ra]. destruct F as (W1 & E1 & R1 & K1).
  pose proof (find_spec n b u1 W1 Hb) as F. destruct (find b u1) as [u2 rb]. destruct F as (W2 & E2 & R2 & K2).
  assert (forall w z, root u2 w z -> (w < n)%nat -> root u w z) as B.
  { intros w z R Hw. destruct (root_total n u w W Hw) as [r Rr].
    assert (z = r) as ->; [|done]. eapply root_unique; [exact R|]. by apply K2, K1. }
  assert (root u b rb) as R2'.
  { destruct (root_total n u b W Hb) as [r Rr]. assert (rb = r) as ->; [|done].
    eapply root_unique; [exact R2|by apply K1]. }
  destruct (root_rank n u a ra W Ha R1) as [Hra _]. destruct (root_rank n u b rb W Hb R2') as [Hrb _].
  assert (forall x y, (x < n)%nat -> (y < n)%nat -> same u2 x y <-> same u x y) as S2.
  { intros x y Hx Hy. split; intros (r & ? & ?); exists r; split; [by apply B..|by apply K2, K1|by apply K2, K1]. }
  assert (same u a ra /\ same u b rb) as [Sa Sb]
    by (split; eexists; (split; [done|]); by eapply root_self).
  assert (forall x y z, same u x y -> same u y z -> same u x z) as Tr.
  { intros x y z (r & ? & Ry) (r' & Ry' & ?). assert (r = r') as -> by by eapply root_unique. by exists r'. }
  assert (forall x y, same u x y -> same u y x) as Sy by (intros x y (r & ? & ?); by exists r).
  destruct (decide (ra = rb)) as [->|Hne].
  { split; [done|]. intros x y Hx Hy. rewrite S2 by done. naive_solver. }
  assert (root u2 ra ra /\ root u2 rb rb) as [Rra Rrb] by (split; eapply root_self; [by apply K2, K1|by apply K2, K1]).
  pose proof (wu_parent n u2 W2) as Lp. pose proof (wu_rank n u2 W2) as Lr.
  assert (forall u' c d, (c = ra /\ d = rb \/ c = rb /\ d = ra) -> wf_uf n u' ->
    (forall w z, root (set_parent c d u2) w z -> root u' w z) ->
    forall x y, (x < n)%nat -> (y < n)%nat ->
    same u' x y <-> same u x y \/ (same u x a /\ same u b y) \/ (same u x b /\ same u a y)) as Fin.
  { intros u' c d Hcd W' K' x y Hx Hy.
    rewrite (same_linked n u2 u' c d x y); [|done..|by destruct Hcd as [[-> ->]|[-> ->]]|
      by destruct Hcd as [[-> ->]|[-> ->]]|naive_solver|].
    - rewrite !S2 by (destruct Hcd as [[-> ->]|[-> ->]]; done). destruct Hcd as [[-> ->]|[-> ->]]; naive_solver.
    - intros w z R. apply K', link_root; destruct Hcd as [[-> ->]|[-> ->]]; rewrite ?Lp; done. }
  destruct (decide _) as [L|L]; [|destruct (decide _) as [L'|L']].
  - assert (wf_uf n (set_parent ra rb u2)) as W3 by by apply set_parent_wf.
    split; [done|]. by apply (Fin _ ra rb); [left|..].
  - assert (wf_uf n (set_parent rb ra u2)) as W3 by by apply set_parent_wf.
    split; [done|]. by apply (Fin _ rb ra); [right|..].
  - assert (wf_uf n (bump_rank ra (set_parent rb ra u2))) as W3 by (apply bump_wf; done || lia).
    split; [done|]. apply (Fin _ rb ra); [by right|done|]. intros w z. by rewrite root_bump.
Qed.
