(* ===== verification/SchedulerProps.v ===== *)
(** * Properties of the scheduler

    The groups are the connected components of the links that the scan sees, and
    every transaction is in exactly one of them. *)

From stdpp Require Import base numbers list option gmap sorting relations.
From Stdlib Require Import ZArith Lia.
From S2P Require Import Prelude Crypto Keys Account Transaction Scheduler.

#[local] Open Scope Z_scope.

(** ** Edges *)

Definition conn (es : list (nat * nat)) : nat -> nat -> Prop := rtsc (fun x y => (x, y) ∈ es).

#[global] Instance conn_equivalence (es : list (nat * nat)) : Equivalence (conn es).
Proof. unfold conn. split; apply _. Qed.

Lemma conn_edge (es : list (nat * nat)) (x y : nat) : (x, y) ∈ es -> conn es x y.
Proof. intros E. by apply rtsc_lr. Qed.

Lemma conn_mono (es es' : list (nat * nat)) (x y : nat) : es ⊆ es' -> conn es x y -> conn es' x y.
Proof. intros Hs. apply rtc_subrel. intros a b [E|E]; [left|right]; set_solver. Qed.

Lemma conn_cons (es : list (nat * nat)) (a b x y : nat) :
  conn ((a, b) :: es) x y <-> conn es x y \/ (conn es x a /\ conn es b y) \/ (conn es x b /\ conn es a y).
Proof.
  split.
  - intros C. unfold conn in C. induction C as [x|x z y [S|S] _ IH]; [by left| |];
      apply elem_of_cons in S as [[= -> ->]|S].
    + destruct IH as [?|[[? ?]|[? ?]]]; [right; left|right; left|left]; done.
    + assert (conn es x z) as E by by apply conn_edge. rewrite E. done.
    + destruct IH as [?|[[? ?]|[? ?]]]; [right; right|left|right; right]; done.
    + assert (conn es x z) as E by (symmetry; by apply conn_edge). rewrite E. done.
  - assert (conn ((a, b) :: es) a b) as E by (apply conn_edge; left).
    intros [C|[[C1 C2]|[C1 C2]]];
      [|transitivity a; [|transitivity b]|transitivity b; [|transitivity a; [symmetry|]]];
      try done; (eapply conn_mono; [|done]); intros e He; by right.
Qed.

(** ** Union-find against edges *)

Record uf_ok (n : nat) (u : UnionFind) (es : list (nat * nat)) : Prop := {
  uo_wf : wf_uf n u;
  uo_bound : Forall (fun e => (e.1 < n)%nat /\ (e.2 < n)%nat) es;
  uo_same : forall x y, (x < n)%nat -> (y < n)%nat -> same u x y <-> conn es x y
}.

Lemma uf_new_ok (n : nat) : uf_ok n (UnionFind_new n) [].
Proof.
  assert (forall x, (x < n)%nat -> parent (UnionFind_new n) !!! x = x) as Hp.
  { intros x Hx. unfold UnionFind_new. cbn [parent]. apply list_lookup_total_correct. rewrite lookup_seq. lia. }
  split.
  - split; [apply length_seq|apply length_replicate|..]; intros x Hx; rewrite Hp by done; done.
  - constructor.
  - intros x y Hx Hy. split.
    + intros (r & R1 & R2). inversion R1; inversion R2; subst; [reflexivity|by rewrite Hp in *..].
    + intros C. assert (x = y) as ->.
      { clear -C. unfold conn in C. induction C as [|x z y [S|S] _ _]; [done|set_solver..]. }
      exists y. split; constructor; by apply Hp.
Qed.

Lemma uf_union_ok n u es a b :
  uf_ok n u es -> (a < n)%nat -> (b < n)%nat -> uf_ok n (union a b u) ((a, b) :: es).
Proof.
  intros [W B S] Ha Hb. destruct (union_spec n a b u W Ha Hb) as [W' S'].
  split; [done|by constructor|]. intros x y Hx Hy. rewrite S', conn_cons, !S by done. done.
Qed.

(** ** Descriptions

    Both schedulers scan, for each transaction, a list of claims ([true]) and
    reads ([false]), or mark it as unknown. *)

Abbreviation event := (bool * (Address * list Z))%type (only parsing).

Definition apply_event (i : nat) (st : Scheduling) (ev : event) : Scheduling :=
  if ev.1 then claim i st ev.2 else note_read i st ev.2.

Definition scan (i : nat) (d : option (list event)) (st : Scheduling) : Scheduling :=
  match d with
  | None => note_unknown i st
  | Some evs => foldl (apply_event i) st evs
  end.

Section Describe.
Context {P : Primitives}.

Definition describe (tx : Transaction) : option (list event) :=
  match implicit_writes tx, access_list_is_uninformative (Tx.access_list tx) with
  | None, true => None
  | imp, _ =>
      Some ((pair true <$> default [] imp) ++ (pair true <$> al_writes (Tx.access_list tx)) ++
            (pair false <$> al_reads (Tx.access_list tx)))
  end.

Definition describe_list (al : list AccessEntry) : option (list event) :=
  if access_list_is_uninformative al then None
  else Some (e ← al; (pair true <$> ((fun k => (entry_address e, k)) <$> writes e)) ++
                     (pair false <$> ((fun k => (entry_address e, k)) <$> reads e))).

Lemma uninformative_empty (al : list AccessEntry) :
  access_list_is_uninformative al = true -> al_writes al = [] /\ al_reads al = [].
Proof.
  induction al as [|e al IH]; [done|]. unfold access_list_is_uninformative. cbn [forallb].
  rewrite !andb_true_iff, !bool_decide_eq_true. intros [[Hr Hw] [E1 E2]%IH].
  unfold al_writes, al_reads in *. rewrite !bind_cons, Hr, Hw, E1, E2. done.
Qed.

Lemma foldl_events (i : nat) (b : bool) (l : list (Address * list Z)) (st : Scheduling) :
  foldl (apply_event i) st (pair b <$> l) = foldl (if b then claim i else note_read i) st l.
Proof. revert st. induction l as [|k l IH]; intros st; [done|]. cbn. rewrite IH. by destruct b. Qed.

Lemma schedule_tx_scan (i : nat) (tx : Transaction) (st : Scheduling) :
  schedule_tx i tx st = scan i (describe tx) st.
Proof.
  unfold schedule_tx, describe. destruct (access_list_is_uninformative (Tx.access_list tx)) eqn:U.
  - apply uninformative_empty in U as [-> ->]. destruct (implicit_writes tx); cbn [is_some negb andb scan]; [|done].
    rewrite app_nil_r. by rewrite foldl_events.
  - assert (scan i (Some ((pair true <$> default [] (implicit_writes tx)) ++
              (pair true <$> al_writes (Tx.access_list tx)) ++ (pair false <$> al_reads (Tx.access_list tx)))) st =
            foldl (note_read i) (foldl (claim i) (foldl (claim i) st (default [] (implicit_writes tx)))
              (al_writes (Tx.access_list tx))) (al_reads (Tx.access_list tx))) as <-.
    { cbn [scan]. by rewrite !foldl_app, !foldl_events. }
    by destruct (implicit_writes tx).
Qed.

Lemma schedule_list_scan (i : nat) (al : list AccessEntry) (st : Scheduling) :
  schedule_list i al st = scan i (describe_list al) st.
Proof.
  unfold schedule_list, describe_list. destruct (access_list_is_uninformative al); [done|]. cbn [scan].
  revert st. induction al as [|e al IH]; intros st; [done|].
  rewrite bind_cons, !foldl_app, !foldl_events. cbn [foldl]. apply IH.
Qed.

Lemma schedule_all_scan {A : Type} (one : nat -> A -> Scheduling -> Scheduling) (d : A -> option (list event))
    (i : nat) (l : list A) (st : Scheduling) :
  (forall i x st, one i x st = scan i (d x) st) -> schedule_all one i l st = schedule_all scan i (d <$> l) st.
Proof. intros E. revert i st. induction l as [|x l IH]; intros i st; [done|]. cbn. by rewrite E, IH. Qed.
End Describe.

(** ** The scan *)

Section Scan.
Context (l : list (option (list event))).

Definition event_at (b : bool) (j : nat) (ak : Address * list Z) : Prop := exists evs, l !! j = Some (Some evs) /\ (b, ak) ∈ evs.
Definition unknown_at (j : nat) : Prop := l !! j = Some None.

(** What the scan sees as a conflict: a later transaction claims or reads what
    an earlier one claimed, or one of the two is unknown. *)
Definition links (j k : nat) : Prop :=
  (j < k < length l)%nat /\
  ((exists ak, event_at true j ak /\ (event_at true k ak \/ event_at false k ak)) \/ unknown_at j \/ unknown_at k).

(** The events scanned when transactions below [i] and the events [pre] of [i]
    are done. *)
Definition seen (i : nat) (pre : list event) (b : bool) (j : nat) (ak : Address * list Z) : Prop :=
  ((j < i)%nat /\ event_at b j ak) \/ (j = i /\ (b, ak) ∈ pre).

Record scanned (i : nat) (pre : list event) (es : list (nat * nat)) (st : Scheduling) : Prop := {
  sc_uf : uf_ok (length l) (uf st) es;
  sc_owner : forall ak o, write_owners st !! ak = Some o -> seen i pre true o ak;
  sc_claimed : forall j ak, seen i pre true j ak -> exists o, write_owners st !! ak = Some o /\ conn es j o;
  sc_rep : forall r, unknown_representative st = Some r -> (r < i)%nat /\ unknown_at r;
  sc_unknown : forall j, (j < i)%nat -> unknown_at j -> exists r, unknown_representative st = Some r /\ conn es j r;
  sc_sound : forall a b, (a, b) ∈ es -> a = b \/ links a b \/ links b a;
  sc_complete : forall j k ak, (j < k)%nat -> event_at true j ak -> seen i pre true k ak \/ seen i pre false k ak ->
    conn es j k
}.

Lemma seen_snoc i pre ev b j ak :
  seen i (pre ++ [ev]) b j ak <-> seen i pre b j ak \/ (j = i /\ ev = (b, ak)).
Proof. unfold seen. rewrite elem_of_app, list_elem_of_singleton. naive_solver. Qed.

(** An edge of the scan is added to the union-find and to the edges. *)
Lemma scanned_edge i pre ev es st o :
  scanned i pre es st -> (i < length l)%nat -> (o < length l)%nat -> (o = i \/ links o i) ->
  write_owners st !! ev.2 = Some o ->
  let st' := mkSched (union i o (uf st)) (write_owners st) (unknown_representative st) in
  scanned i (pre ++ [ev]) ((i, o) :: es) st'.
Proof.
  intros S Hi Ho Hl Eo st'. destruct S.
  assert (forall x y, conn es x y -> conn ((i, o) :: es) x y) as Mono
    by (intros x y; apply conn_mono; intros e He; by right).
  assert (conn ((i, o) :: es) i o) as Ei by (apply conn_edge; left).
  split; cbn [uf write_owners unknown_representative st'].
  - by apply uf_union_ok.
  - intros ak o' E. apply seen_snoc. left. eauto.
  - intros j ak [S|[-> ->]]%seen_snoc.
    + destruct (sc_claimed0 j ak S) as (o' & ? & ?). eauto.
    + cbn in Eo. eauto.
  - done.
  - intros j Hj Uj. destruct (sc_unknown0 j Hj Uj) as (r & ? & ?). eauto.
  - intros a b [[= -> ->]|E]%elem_of_cons; [naive_solver|eauto].
  - intros j k ak Hjk Ej Sk. rewrite !seen_snoc in Sk.
    assert ((seen i pre true k ak \/ seen i pre false k ak) \/ (k = i /\ ev.2 = ak)) as [S|[-> <-]] by naive_solver.
    { eauto. }
    destruct (sc_claimed0 j ev.2) as (o' & E' & C); [by left|]. assert (o' = o) as -> by congruence.
    transitivity o; [eauto|by symmetry].
Qed.

(** Without an owner nobody claimed the key before. *)
Lemma scanned_fresh i pre ev es st :
  scanned i pre es st -> (ev.1 = true -> event_at true i ev.2) -> write_owners st !! ev.2 = None ->
  scanned i (pre ++ [ev]) es
    (if ev.1 then mkSched (uf st) (<[ev.2 := i]> (write_owners st)) (unknown_representative st) else st).
Proof.
  intros S He Eo. destruct S. destruct ev as [b ak0]. cbn [fst snd] in *.
  assert (forall j k ak, (j < k)%nat -> event_at true j ak ->
    seen i (pre ++ [(b, ak0)]) true k ak \/ seen i (pre ++ [(b, ak0)]) false k ak -> conn es j k) as Comp.
  { intros j k ak Hjk Ej Sk. rewrite !seen_snoc in Sk.
    assert ((seen i pre true k ak \/ seen i pre false k ak) \/ (k = i /\ ak0 = ak)) as [S|[-> <-]] by naive_solver; [eauto|].
    destruct (sc_claimed0 j ak0) as (o & E & _); [by left|congruence]. }
  destruct b; (split; cbn [uf write_owners unknown_representative]; [done|..]; try done).
  - intros ak o. destruct (decide (ak0 = ak)) as [->|].
    + rewrite lookup_insert_eq. intros [= <-]. apply seen_snoc. right. done.
    + rewrite lookup_insert_ne by done. intros E. apply seen_snoc. left. eauto.
  - intros j ak [S|[-> [= ->]]]%seen_snoc; [|exists i; by rewrite lookup_insert_eq].
    destruct (sc_claimed0 j ak S) as (o & ? & ?). exists o. rewrite lookup_insert_ne by congruence. done.
  - intros ak o E. apply seen_snoc. left. eauto.
  - intros j ak [S|[-> [= ?]]]%seen_snoc. eauto.
Qed.

Lemma event_at_bound b j ak : event_at b j ak -> (j < length l)%nat.
Proof. intros (evs & E & _). by eapply lookup_lt_Some. Qed.

Lemma scanned_event i pre post evs ev es st :
  l !! i = Some (Some evs) -> evs = pre ++ ev :: post -> scanned i pre es st ->
  exists es', scanned i (pre ++ [ev]) es' (apply_event i st ev).
Proof.
  intros Ei Ev S. pose proof (lookup_lt_Some _ _ _ Ei) as Hi.
  assert (event_at ev.1 i ev.2) as Hev by (exists evs; split; [done|]; rewrite <- surjective_pairing, Ev; set_solver).
  assert (forall b ak, (b, ak) ∈ pre -> event_at b i ak) as Hpre by (intros b ak Hp; exists evs; split; [done|]; set_solver).
  destruct (write_owners st !! ev.2) as [o|] eqn:Eo.
  - pose proof (sc_owner _ _ _ _ S _ _ Eo) as So.
    assert (event_at true o ev.2 /\ (o <= i)%nat) as [Co Ho] by (destruct So as [[? ?]|[-> ?]]; split; eauto; lia).
    assert (o = i \/ links o i) as Hl.
    { destruct (decide (o = i)); [by left|right]. split; [lia|left]. exists ev.2. split; [done|].
      destruct ev as [[] ak]; eauto. }
    pose proof (scanned_edge i pre ev es st o S Hi (event_at_bound _ _ _ Co) Hl Eo) as E.
    unfold apply_event, claim, note_read. rewrite Eo. destruct ev as [[] ak0]; [eauto|]. cbn [fst snd] in *.
    destruct (decide (o = i)) as [->|]; [|eauto]. exists es.
    destruct S. split; try done.
    + intros ak o E'. apply seen_snoc. left. eauto.
    + intros j ak [S|[-> [= ?]]]%seen_snoc. eauto.
    + intros j k ak Hjk Ej Sk. rewrite !seen_snoc in Sk.
      assert ((seen i pre true k ak \/ seen i pre false k ak) \/ (k = i /\ ak0 = ak)) as [S|[-> <-]] by naive_solver; [eauto|].
      destruct (sc_claimed0 j ak0) as (o & E' & C); [by left|]. by assert (o = i) as -> by congruence.
  - pose proof (scanned_fresh i pre ev es st S) as E. unfold apply_event, claim, note_read. rewrite Eo.
    destruct ev as [[] ak0]; cbn [fst snd] in *; exists es; by apply E.
Qed.

Lemma scanned_events i evs pre es st :
  l !! i = Some (Some (pre ++ evs)) -> scanned i pre es st ->
  exists es', scanned i (pre ++ evs) es' (foldl (apply_event i) st evs).
Proof.
  revert pre es st. induction evs as [|ev evs IH]; intros pre es st Ei S; [rewrite app_nil_r; eauto|].
  destruct (scanned_event i pre evs (pre ++ ev :: evs) ev es st Ei eq_refl S) as (es' & S').
  cbn [foldl]. rewrite cons_middle, app_assoc in Ei |- *. by apply (IH _ es').
Qed.

Lemma seen_next i b j ak :
  seen (S i) [] b j ak <-> ((j < i)%nat /\ event_at b j ak) \/ (j = i /\ event_at b i ak).
Proof. unfold seen. rewrite elem_of_nil. assert (j < S i <-> j < i \/ j = i)%nat by lia. naive_solver. Qed.

Lemma scanned_known i evs es st :
  l !! i = Some (Some evs) -> scanned i [] es st -> exists es', scanned (S i) [] es' (scan i (Some evs) st).
Proof.
  intros Ei S. destruct (scanned_events i evs [] es st Ei S) as (es' & S'). exists es'. cbn [scan app] in *.
  assert (forall b j ak, seen (Datatypes.S i) [] b j ak <-> seen i evs b j ak) as E.
  { intros b j ak. rewrite seen_next. unfold seen, event_at. naive_solver. }
  destruct S'. split; try done.
  - intros ak o ?. rewrite E. eauto.
  - intros j ak. rewrite E. eauto.
  - intros r Hr. destruct (sc_rep0 r Hr). split; [lia|done].
  - intros j Hj Uj. destruct (decide (j = i)) as [->|]; [unfold unknown_at in Uj; congruence|]. apply sc_unknown0; [lia|done].
  - intros j k ak. rewrite !E. eauto.
Qed.

Lemma scanned_unknown i es st :
  unknown_at i -> scanned i [] es st -> exists es', scanned (S i) [] es' (scan i None st).
Proof.
  intros Ui S. pose proof (lookup_lt_Some _ _ _ Ui) as Hi.
  assert (forall b j ak, seen (Datatypes.S i) [] b j ak <-> seen i [] b j ak) as E.
  { intros b j ak. rewrite seen_next. unfold seen, event_at, unknown_at in *. rewrite elem_of_nil.
    split; [|naive_solver]. intros [?|(_ & evs & ? & _)]; [by left|congruence]. }
  destruct S. cbn [scan]. unfold note_unknown. destruct (unknown_representative st) as [rep|] eqn:Er.
  - destruct (sc_rep0 rep eq_refl) as [Hr Ur]. exists ((i, rep) :: es).
    assert (forall x y, conn es x y -> conn ((i, rep) :: es) x y) as Mono
      by (intros x y; apply conn_mono; intros e He; by right).
    split; cbn [uf write_owners unknown_representative].
    + apply uf_union_ok; [done|done|lia].
    + intros ak o ?. rewrite E. eauto.
    + intros j ak. rewrite E. intros Sj. destruct (sc_claimed0 j ak Sj) as (o & ? & ?). eauto.
    + intros r [= <-]. split; [lia|done].
    + intros j Hj Uj. exists rep. split; [done|]. destruct (decide (j = i)) as [->|]; [apply conn_edge; left|].
      destruct (sc_unknown0 j) as (r & [= <-] & ?); [lia|done|]. eauto.
    + intros a b [[= -> ->]|?]%elem_of_cons; [|eauto]. right. right. split; [lia|]. eauto.
    + intros j k ak. rewrite !E. eauto.
  - exists es. split; cbn [uf write_owners unknown_representative]; try done.
    + intros ak o ?. rewrite E. eauto.
    + intros j ak. rewrite E. eauto.
    + intros r [= <-]. split; [lia|done].
    + intros j Hj Uj. exists i. split; [done|]. destruct (decide (j = i)) as [->|]; [reflexivity|].
      destruct (sc_unknown0 j) as (r & ? & _); [lia|done|done].
    + intros j k ak. rewrite !E. eauto.
Qed.

Lemma scanned_all i es st :
  (i <= length l)%nat -> scanned i [] es st -> exists es', scanned (length l) [] es' (schedule_all scan i (drop i l) st).
Proof.
  intros Hi. remember (length l - i)%nat as m eqn:Em. revert i es st Hi Em.
  induction m as [|m IH]; intros i es st Hi Em S.
  - assert (i = length l) as -> by lia. rewrite drop_all. eauto.
  - destruct (lookup_lt_is_Some_2 l i) as [d Ed]; [lia|]. rewrite (drop_S l d i Ed). cbn [schedule_all].
    assert (exists es', scanned (Datatypes.S i) [] es' (scan i d st)) as (es' & S').
    { destruct d as [evs|]; [by eapply scanned_known|by eapply scanned_unknown]. }
    apply (IH (Datatypes.S i) es'); [lia|lia|done].
Qed.

Lemma scanned_start : scanned 0 [] [] (mkSched (UnionFind_new (length l)) ∅ None).
Proof.
  split; cbn [uf write_owners unknown_representative]; try done.
  - apply uf_new_ok.
  - intros j ak [[? _]|[_ []%elem_of_nil]]. lia.
  - intros j Hj. lia.
  - intros a b []%elem_of_nil.
  - intros j k ak _ _ [[[? _]|[_ []%elem_of_nil]]|[[? _]|[_ []%elem_of_nil]]]; lia.
Qed.
End Scan.

(** ** Components *)

Section Components.
Context (l : list (option (list event))).
#[local] Abbreviation n := (length l).

Lemma conn_links (es : list (nat * nat)) (x y : nat) :
  (forall a b, (a, b) ∈ es -> a = b \/ links l a b \/ links l b a) ->
  (forall a b, links l a b -> conn es a b) -> conn es x y <-> rtsc (links l) x y.
Proof.
  intros Sound Compl. split; intros C.
  - unfold conn in C. induction C as [x|x z y [S|S] _ IH]; [reflexivity| |];
      (destruct (Sound _ _ S) as [->|[L|L]]; [done|..]); (etransitivity; [|exact IH]);
      first [by apply rtsc_lr|by apply rtsc_rl].
  - induction C as [x|x z y [L|L] _ IH]; [reflexivity|..]; (etransitivity; [|exact IH]); [|symmetry]; by apply Compl.
Qed.

Lemma join_edges (r : nat) (L : list nat) (u : UnionFind) (es : list (nat * nat)) :
  (r < n)%nat -> Forall (fun i => i < n)%nat L -> uf_ok n u es ->
  exists es', uf_ok n (foldl (fun u i => if decide (i = r) then u else union i r u) u L) es' /\
    es ⊆ es' /\ (forall i, i ∈ L -> conn es' i r) /\
    (forall a b, (a, b) ∈ es' -> (a, b) ∈ es \/ (b = r /\ a <> r /\ (a < n)%nat)).
Proof.
  intros Hr. revert u es. induction L as [|i L IH]; intros u es F U.
  { exists es. split_and!; [done|done|set_solver|by left]. }
  apply Forall_cons in F as [Hi F]. cbn [foldl]. destruct (decide (i = r)) as [->|Hne].
  - destruct (IH u es F U) as (es' & U' & S & C & E). exists es'. split_and!; [done|done| |done].
    intros j [->|Hj]%elem_of_cons; [reflexivity|eauto].
  - destruct (IH (union i r u) ((i, r) :: es) F) as (es' & U' & S & C & E); [by apply uf_union_ok|].
    exists es'. split_and!; [done|intros e He; apply S; by right| |].
    + intros j [->|Hj]%elem_of_cons; [apply conn_edge, S; left|eauto].
    + intros a b [[[= -> ->]|?]%elem_of_cons|?]%E; eauto.
Qed.

(** The union-find at the end has the components of the links. *)
Lemma joined (es : list (nat * nat)) (st : Scheduling) :
  scanned l n [] es st ->
  exists es', uf_ok n (join_unknown n st) es' /\
    forall x y, (x < n)%nat -> (y < n)%nat -> conn es' x y <-> rtsc (links l) x y.
Proof.
  intros S. unfold join_unknown. destruct (unknown_representative st) as [r|] eqn:Er.
  - destruct (sc_rep _ _ _ _ _ S r Er) as [Hr Ur].
    destruct (join_edges r (seq 0 n) (uf st) es Hr) as (es' & U & Sub & C & E); [|by apply S|].
    { apply Forall_forall. intros i. rewrite elem_of_seq. lia. }
    exists es'. split; [done|]. intros x y Hx Hy.
    assert (forall x, (x < n)%nat -> rtsc (links l) x r) as L.
    { intros z Hz. destruct (decide (z = r)) as [->|]; [reflexivity|].
      destruct (decide (z < r)%nat); [apply rtsc_lr|apply rtsc_rl]; (split; [lia|]); eauto. }
    split; intros _.
    + transitivity r; [by apply L|symmetry; by apply L].
    + transitivity r; [apply C|symmetry; apply C]; apply elem_of_seq; lia.
  - exists es. split; [apply S|]. intros x y _ _. apply conn_links; [apply S|]. intros a b [Hab [(ak & Ea & Eb)|U]].
    + apply (sc_complete _ _ _ _ _ S a b ak); [lia|done|]. destruct Eb; [left|right]; left; (split; [lia|done]).
    + destruct U as [U|U]; [destruct (sc_unknown _ _ _ _ _ S a) as (r & ? & _)|
                            destruct (sc_unknown _ _ _ _ _ S b) as (r & ? & _)]; done || lia || congruence.
Qed.
End Components.

(** ** Groups *)

Section Groups.
Context (n : nat) (u : UnionFind) (W : wf_uf n u).

Definition rep (x : nat) : nat := (find x u).2.
Definition class (i r : nat) : list nat := filter (fun j => rep j = r) (seq 0 i).

Lemma rep_root (x : nat) : (x < n)%nat -> root u x (rep x).
Proof. intros Hx. unfold rep. pose proof (find_spec n x u W Hx) as F. destruct (find x u) as [u' r]. by apply F. Qed.

Lemma rep_same (x y : nat) : (x < n)%nat -> (y < n)%nat -> same u x y <-> rep x = rep y.
Proof.
  intros Hx Hy. split; [intros (r & R1 & R2)|intros E; exists (rep x); split; [|rewrite E]; by apply rep_root].
  transitivity r; [by apply (root_unique u x); [apply rep_root|]|by apply (root_unique u y); [|apply rep_root]].
Qed.

Lemma class_S (i r : nat) : class (S i) r = class i r ++ (if decide (rep i = r) then [i] else []).
Proof. unfold class. rewrite seq_S, filter_app. cbn. by destruct (decide (rep i = r)). Qed.

Lemma collected (i : nat) :
  (i <= n)%nat ->
  let (u', c) := foldl collect_one (u, ∅) (seq 0 i) in
  wf_uf n u' /\ (forall y z, root u y z -> root u' y z) /\
  forall r, c !! r = match class i r with [] => None | g => Some g end.
Proof.
  induction i as [|i IH]; intros Hi; [done|]. rewrite seq_S, foldl_app, Nat.add_0_l. specialize (IH ltac:(lia)).
  destruct (foldl collect_one (u, ∅) (seq 0 i)) as [u' c]. destruct IH as (W' & K & C). cbn [foldl collect_one].
  pose proof (find_spec n i u' W' ltac:(lia)) as F. destruct (find i u') as [u2 r]. destruct F as (W2 & _ & R & K2).
  assert (r = rep i) as -> by (eapply root_unique; [exact R|apply K, rep_root; lia]).
  split; [done|]. split; [eauto|]. intros r. rewrite class_S. destruct (decide (rep i = r)) as [<-|].
  - rewrite lookup_insert_eq, C. by destruct (class i (rep i)).
  - by rewrite lookup_insert_ne, C, app_nil_r.
Qed.

Lemma collect_elem (g : list nat) : g ∈ collect n u <-> exists r, g = class n r /\ g <> [].
Proof.
  unfold collect. pose proof (collected n ltac:(lia)) as C.
  destruct (foldl collect_one (u, ∅) (seq 0 n)) as [u' c]. destruct C as (_ & _ & C).
  rewrite (merge_sort_Permutation by_first). rewrite list_elem_of_fmap. split.
  - intros ([r g'] & -> & E%elem_of_map_to_list). rewrite C in E. exists r. destruct (class n r); naive_solver.
  - intros (r & -> & N). exists (r, class n r). split; [done|]. apply elem_of_map_to_list. rewrite C.
    by destruct (class n r).
Qed.

Lemma elem_of_class (j r : nat) : j ∈ class n r <-> rep j = r /\ (j < n)%nat.
Proof. unfold class. rewrite list_elem_of_filter, elem_of_seq. naive_solver lia. Qed.

Lemma collect_NoDup : NoDup (collect n u).
Proof.
  unfold collect. pose proof (collected n ltac:(lia)) as C.
  destruct (foldl collect_one (u, ∅) (seq 0 n)) as [u' c]. destruct C as (_ & _ & C). cbn [snd].
  rewrite (merge_sort_Permutation by_first). apply NoDup_fmap_2_strong; [|apply NoDup_map_to_list].
  intros [r1 g1] [r2 g2] E1%elem_of_map_to_list E2%elem_of_map_to_list. cbn. intros <-.
  rewrite C in E1, E2. destruct (class n r1) as [|j g] eqn:G1; [done|]. destruct (class n r2) as [|j' g'] eqn:G2; [done|].
  assert (j ∈ class n r1 /\ j ∈ class n r2) as [[? _]%elem_of_class [? _]%elem_of_class].
  { rewrite G1, G2. simplify_eq. set_solver. }
  congruence.
Qed.

Lemma concat_bind {A : Type} (gs : list (list A)) : concat gs = gs ≫= id.
Proof. induction gs as [|g gs IH]; [done|]. cbn. by rewrite IH. Qed.

Lemma collect_partition : concat (collect n u) ≡ₚ seq 0 n.
Proof.
  apply NoDup_Permutation; [|apply NoDup_seq|].
  - rewrite concat_bind. apply NoDup_bind; [|intros g (r & -> & _)%collect_elem|apply collect_NoDup].
    + intros g1 g2 j (r1 & -> & _)%collect_elem (r2 & -> & _)%collect_elem. cbn [id].
      intros [<- _]%elem_of_class [<- _]%elem_of_class. done.
    + apply NoDup_filter, NoDup_seq.
  - intros j. rewrite concat_bind, list_elem_of_bind, elem_of_seq. split.
    + intros (g & Hj & (r & -> & _)%collect_elem). apply elem_of_class in Hj as [_ ?]. lia.
    + intros [_ Hj]. exists (class n (rep j)). assert (j ∈ class n (rep j)) as E by (apply elem_of_class; split; [done|lia]).
      split; [done|]. apply collect_elem. exists (rep j). split; [done|]. intros E0. rewrite E0 in E. by apply elem_of_nil in E.
Qed.

Lemma collect_same (x y : nat) : (x < n)%nat -> (y < n)%nat -> (exists g, g ∈ collect n u /\ x ∈ g /\ y ∈ g) <-> same u x y.
Proof.
  intros Hx Hy. rewrite rep_same by done. split.
  - intros (g & (r & -> & _)%collect_elem & [? _]%elem_of_class & [? _]%elem_of_class). congruence.
  - intros E. assert (x ∈ class n (rep x)) as Ex by by apply elem_of_class.
    exists (class n (rep x)). split_and!; [|done|by apply elem_of_class].
    apply collect_elem. exists (rep x). split; [done|]. intros E0. rewrite E0 in Ex. by apply elem_of_nil in Ex.
Qed.
End Groups.

(** ** The schedules *)

Lemma schedule_with_exact {A : Type} (one : nat -> A -> Scheduling -> Scheduling) (d : A -> option (list event))
    (l : list A) :
  (forall i x st, one i x st = scan i (d x) st) ->
  let groups := schedule_with one l in
  concat groups ≡ₚ seq 0 (length l) /\ Sorted by_first groups /\
  forall i j, (i < length l)%nat -> (j < length l)%nat ->
    (exists g, g ∈ groups /\ i ∈ g /\ j ∈ g) <-> rtsc (links (d <$> l)) i j.
Proof.
  intros E. unfold schedule_with. destruct (decide (length l = 0%nat)) as [E0|].
  { rewrite E0. split_and!; [done|constructor|lia]. }
  rewrite (schedule_all_scan one d) by done. set (l' := d <$> l). assert (length l = length l') as -> by (symmetry; apply length_fmap).
  destruct (scanned_all l' 0 [] _ ltac:(lia) (scanned_start l')) as (es & S). rewrite drop_0 in S.
  destruct (joined l' es _ S) as (es' & U & L).
  split_and!.
  - apply collect_partition, U.
  - unfold collect. apply Sorted_merge_sort. intros g h. unfold by_first. lia.
  - intros i j Hi Hj. rewrite collect_same, (uo_same _ _ _ U), L by (done || apply U). done.
Qed.

Section Schedule.
Context {P : Primitives}.

(** [C23] The schedule of a block is exactly the partition into connected
    components: every transaction is in one group, once; groups come in the
    order of their first transaction; and two transactions share a group exactly
    when a chain of conflicts seen by the scan connects them (a later one claims
    or reads what an earlier one claimed, or one of the two is unknown). *)
Theorem schedule_components (txs : list Transaction) :
  let groups := schedule txs in
  concat groups ≡ₚ seq 0 (length txs) /\ Sorted by_first groups /\
  forall i j, (i < length txs)%nat -> (j < length txs)%nat ->
    (exists g, g ∈ groups /\ i ∈ g /\ j ∈ g) <-> rtsc (links (describe <$> txs)) i j.
Proof. apply schedule_with_exact, schedule_tx_scan. Qed.

(** The same for the scheduler on raw access lists. *)
Lemma schedule_from_access_lists_components (als : list (list AccessEntry)) :
  let groups := schedule_from_access_lists als in
  concat groups ≡ₚ seq 0 (length als) /\ Sorted by_first groups /\
  forall i j, (i < length als)%nat -> (j < length als)%nat ->
    (exists g, g ∈ groups /\ i ∈ g /\ j ∈ g) <-> rtsc (links (describe_list <$> als)) i j.
Proof. apply schedule_with_exact, schedule_list_scan. Qed.

(** Accounts whose balance a transaction of a known type claims. *)
Definition claimed_accounts (tx : Transaction) : list Address :=
  match Tx.tx_type tx with
  | Standard => Tx.from tx :: (if decide (Tx.to tx = ZERO_ADDRESS) then [] else [Tx.to tx])
  | Deploy | RegisterPubkey => [Tx.from tx]
  | _ => []
  end.

Lemma claimed_event (txs : list Transaction) (i : nat) (tx : Transaction) (a : Address) :
  txs !! i = Some tx -> a ∈ claimed_accounts tx -> event_at (describe <$> txs) true i (a, balance_key a).
Proof.
  intros E Ha. unfold event_at.
  assert (exists w, implicit_writes tx = Some w /\ (a, balance_key a) ∈ w) as (w & Ew & Hw).
  { unfold implicit_writes, claimed_accounts in *. destruct (Tx.tx_type tx); try set_solver; eexists; (split; [done|]).
    - destruct (decide (Tx.to tx = ZERO_ADDRESS)); [rewrite decide_False by naive_solver|rewrite decide_True by naive_solver];
        set_solver.
    - rewrite decide_False by naive_solver. set_solver.
    - rewrite decide_False by naive_solver. set_solver. }
  rewrite list_lookup_fmap, E. cbn [fmap option_fmap option_map]. unfold describe. rewrite Ew.
  eexists. split; [done|]. apply elem_of_app. left. by apply list_elem_of_fmap_2.
Qed.

(** Transactions that meet in an account are serialised: two transfers,
    deployments or key registrations of a block that have an account in common,
    as sender or as (nonzero) recipient, are in the same group. *)
Theorem common_account_common_group (txs : list Transaction) (i j : nat) (ti tj : Transaction) (a : Address) :
  txs !! i = Some ti -> txs !! j = Some tj -> a ∈ claimed_accounts ti -> a ∈ claimed_accounts tj ->
  exists g, g ∈ schedule txs /\ i ∈ g /\ j ∈ g.
Proof.
  intros Ei Ej Hi Hj. pose proof (lookup_lt_Some _ _ _ Ei). pose proof (lookup_lt_Some _ _ _ Ej).
  pose proof (claimed_event txs i ti a Ei Hi) as Ci. pose proof (claimed_event txs j tj a Ej Hj) as Cj.
  destruct (schedule_with_exact schedule_tx describe txs schedule_tx_scan) as (_ & _ & S). apply S; [done..|].
  destruct (Nat.lt_trichotomy i j) as [|[->|]]; [apply rtsc_lr|reflexivity|apply rtsc_rl];
    (split; [rewrite length_fmap; lia|]); left; eauto.
Qed.
End Schedule.

(** ** Witness and findings *)

Definition sched_tx (t : TransactionType) (from to : Z) (al : list AccessEntry) : Transaction :=
  Tx.mkTx (replicate 32 from) (replicate 32 to) 1 [] 21000 0 [] Sender al None 1 t.

Lemma common_account_common_group_witness :
  let txs := [sched_tx Standard 1 2 []; sched_tx Standard 3 4 []; sched_tx Standard 2 5 []] in
  exists g, g ∈ schedule txs /\ 0%nat ∈ g /\ 2%nat ∈ g.
Proof.
  intros txs. apply (common_account_common_group txs 0 2 (sched_tx Standard 1 2 []) (sched_tx Standard 2 5 []) (replicate 32 2)).
  - reflexivity.
  - reflexivity.
  - right. left.
  - left.
Defined.

Definition slot_key : list Z := replicate 32 7.
Definition reads_slot : list AccessEntry := [mkAccess (replicate 32 9) [slot_key] []].
Definition writes_slot : list AccessEntry := [mkAccess (replicate 32 9) [] [slot_key]].

(** A reader that comes before the writer is not serialised with it:
    [conflicts] holds of the two transactions, and the schedule runs them in two
    groups (in the other order it runs them in one). *)
Theorem early_reader_is_not_grouped :
  let reader := sched_tx Standard 1 9 reads_slot in
  let writer := sched_tx Deploy 2 0 writes_slot in
  conflicts reader writer = true /\
  schedule [reader; writer] = [[0%nat]; [1%nat]] /\ schedule [writer; reader] = [[0%nat; 1%nat]].
Proof. vm_compute. split_and!; reflexivity. Qed.

(** A declared key hides a special transaction: two transactions of one
    sender, a transfer and an airdrop claim with an informative access list, are
    put in different groups although both write the sender's nonce and balance. *)
Theorem declared_special_is_not_grouped :
  let transfer := sched_tx Standard 1 2 [] in
  let special := sched_tx ClaimAirdrop 1 0 reads_slot in
  schedule [transfer; special] = [[0%nat]; [1%nat]].
Proof. vm_compute. reflexivity. Qed.
