(* ===== verification/Validation.v ===== *)
(** * Transaction validation

    [tx/src/validation.rs]: the preconditions a transaction must meet before it
    is executed, with the error of the first one that fails. *)

From stdpp Require Import base numbers list option gmap strings pretty.
From Stdlib Require Import ZArith Lia.
From S2P Require Import Prelude Crypto Wire Nonce Account Transaction.

#[local] Open Scope Z_scope.
#[local] Open Scope pyde_scope.

Definition MIN_GAS_LIMIT : Z := 21000.
Definition MAX_TX_SIZE : Z := 128 * 1024.
Definition MAX_CALLDATA : Z := 64 * 1024.

(** The development network. *)
Definition DEVNET : Z := 31337.

Record ValidationContext : Type := mkValidation {
  block_height : Z;
  vc_base_fee : Z;
  vc_block_gas_limit : Z;
  vc_chain_id : Z;
  vc_dev_skip_signature : bool;
  sender_locked : Z;
  sig_pre_verified : bool
}.

Inductive ValidationError : Type :=
| InvalidSignature
| InvalidNonce (msg : string)
| InsufficientBalance (required available : Z)
| GasLimitTooLow (limit min : Z)
| GasLimitTooHigh (limit max : Z)
| DeadlineExpired (deadline current : Z)
| TxTooLarge (size max : Z)
| CalldataTooLarge (size max : Z)
| InvalidAccessList (msg : string)
| WrongChainId (expected got : Z)
| InvalidPaymaster
| UnexpectedValue (ty value : Z)
| UnexpectedTo (ty : Z)
| DisabledTxType (ty : Z).

Section Validation.
Context {P : Primitives}.

Definition validate_chain_id (tx : Transaction) (ctx : ValidationContext) : Result unit ValidationError :=
  if negb (Tx.chain_id tx =? vc_chain_id ctx) then Err (WrongChainId (vc_chain_id ctx) (Tx.chain_id tx))
  else Ok tt.

Definition validate_signature (tx : Transaction) (sender : Account) : Result unit ValidationError :=
  match auth_keys sender with
  | Single pk => if negb (verify_signature tx pk) then Err InvalidSignature else Ok tt
  | NoAuth => Ok tt
  | MultiSig _ _ => Ok tt
  end.

Definition NonceError_debug (e : NonceError) : string :=
  match e with
  | BelowWindow => "BelowWindow" | AboveWindow => "AboveWindow" | AlreadyUsed => "AlreadyUsed"
  end.

Definition validate_nonce (tx : Transaction) (nonce_state : NonceState) : Result unit ValidationError :=
  match Nonce.validate nonce_state (Tx.nonce tx) with
  | Ok _ => Ok tt
  | Err e =>
      let next_needed := base nonce_state in
      let window_max := max_nonce nonce_state in
      Err (InvalidNonce (NonceError_debug e +:+ " (got " +:+ pretty (Tx.nonce tx) +:+ ", window [" +:+
        pretty (base nonce_state) +:+ ".." +:+ pretty window_max +:+ "], next usable " +:+
        pretty next_needed +:+ ")"))
  end.

Definition validate_balance (tx : Transaction) (sender : Account) (ctx : ValidationContext) :
    Result unit ValidationError :=
  let spendable := saturating_sub (balance sender) (sender_locked ctx) in
  let overflow := InsufficientBalance (max_of u128) spendable in
  match checked_mul u128 (Tx.gas_limit tx) (vc_base_fee ctx) with
  | None => Err overflow
  | Some gas_cost =>
      match checked_add u128 gas_cost (Tx.value tx) with
      | None => Err overflow
      | Some total_required =>
          match Tx.fee_payer tx with
          | Sender =>
              if spendable <? total_required then Err (InsufficientBalance total_required spendable)
              else Ok tt
          | GasTank _ =>
              if spendable <? Tx.value tx then Err (InsufficientBalance (Tx.value tx) spendable)
              else Ok tt
          | Paymaster addr => if decide (addr = ZERO_ADDRESS) then Err InvalidPaymaster else Ok tt
          end
      end
  end.

Definition validate_gas_limit (tx : Transaction) (ctx : ValidationContext) : Result unit ValidationError :=
  if Tx.gas_limit tx <? MIN_GAS_LIMIT then Err (GasLimitTooLow (Tx.gas_limit tx) MIN_GAS_LIMIT)
  else if vc_block_gas_limit ctx <? Tx.gas_limit tx then
    Err (GasLimitTooHigh (Tx.gas_limit tx) (vc_block_gas_limit ctx))
  else Ok tt.

Definition validate_deadline (tx : Transaction) (ctx : ValidationContext) : Result unit ValidationError :=
  match Tx.deadline tx with
  | Some deadline =>
      if deadline <=? block_height ctx then Err (DeadlineExpired deadline (block_height ctx)) else Ok tt
  | None => Ok tt
  end.

(** The first [j > i] with the address of entry [i]. *)
Fixpoint duplicate_of (a : Address) (j : nat) (l : list AccessEntry) : option nat :=
  match l with
  | [] => None
  | e :: l' => if decide (a = entry_address e) then Some j else duplicate_of a (S j) l'
  end.

Fixpoint validate_entries (i : nat) (l : list AccessEntry) : Result unit ValidationError :=
  match l with
  | [] => Ok tt
  | e :: l' =>
      match duplicate_of (entry_address e) (S i) l' with
      | Some j =>
          Err (InvalidAccessList ("duplicate address at entries " +:+ pretty (Z.of_nat i) +:+ " and " +:+
            pretty (Z.of_nat j)))
      | None => validate_entries (S i) l'
      end
  end.

Definition validate_access_list (tx : Transaction) : Result unit ValidationError :=
  validate_entries 0 (Tx.access_list tx).

Definition validate_size (tx : Transaction) : Result unit ValidationError :=
  if MAX_CALLDATA <? len (Tx.data tx) then Err (CalldataTooLarge (len (Tx.data tx)) MAX_CALLDATA)
  else
    let size := len (tx_to_bytes tx) in
    if MAX_TX_SIZE <? size then Err (TxTooLarge size MAX_TX_SIZE) else Ok tt.

(** [matches!] of the variants. *)
Definition is_multisig (k : AuthKeys) : bool := match k with MultiSig _ _ => true | _ => false end.
Definition is_none (k : AuthKeys) : bool := match k with NoAuth => true | _ => false end.
Definition is_sender (f : FeePayer) : bool := match f with Sender => true | _ => false end.

Definition validate_register_pubkey (tx : Transaction) (sender : Account) (nonce_state : NonceState) :
    Result unit ValidationError :=
  if negb (bool_decide (Tx.signature tx = [])) then Err InvalidSignature
  else if negb (Tx.value tx =? 0) then Err InvalidPaymaster
  else if negb (Tx.gas_limit tx =? 0) then Err (GasLimitTooHigh (Tx.gas_limit tx) 0)
  else if negb (len (Tx.data tx) =? FalconPublicKey_SIZE) then Err InvalidSignature
  else if negb (bool_decide (poseidon2_hash (Tx.data tx) = Tx.from tx)) then Err InvalidSignature
  else if balance sender =? 0 then Err (InsufficientBalance 1 0)
  else if negb (is_none (auth_keys sender)) then Err InvalidSignature
  else (validate_nonce tx nonce_state >>? validate_size tx >>? Ok tt).

(** [Standard] and [Deploy] carry a value and a recipient. *)
Definition carries_value (t : TransactionType) : bool :=
  match t with Standard | Deploy => true | _ => false end.

Definition validate_transaction (tx : Transaction) (sender : Account) (nonce_state : NonceState)
    (ctx : ValidationContext) : Result unit ValidationError :=
  validate_chain_id tx ctx >>?
  (if decide (Tx.tx_type tx = RegisterPubkey) then validate_register_pubkey tx sender nonce_state
   else if negb (vc_chain_id ctx =? DEVNET) && is_none (auth_keys sender) then Err InvalidSignature
   else if negb (vc_chain_id ctx =? DEVNET) && is_multisig (auth_keys sender) then Err InvalidSignature
   else if negb (vc_chain_id ctx =? DEVNET) && negb (is_sender (Tx.fee_payer tx)) then Err InvalidPaymaster
   else if negb (carries_value (Tx.tx_type tx)) && negb (Tx.value tx =? 0) then
     Err (UnexpectedValue (TransactionType_u8 (Tx.tx_type tx)) (Tx.value tx))
   else if negb (carries_value (Tx.tx_type tx)) && negb (bool_decide (Tx.to tx = ZERO_ADDRESS)) then
     Err (UnexpectedTo (TransactionType_u8 (Tx.tx_type tx)))
   else if decide (Tx.tx_type tx = StakeWithdraw) then
     Err (DisabledTxType (TransactionType_u8 (Tx.tx_type tx)))
   else
     (if negb (vc_dev_skip_signature ctx) && negb (sig_pre_verified ctx)
      then validate_signature tx sender else Ok tt) >>?
     validate_nonce tx nonce_state >>?
     validate_balance tx sender ctx >>?
     validate_gas_limit tx ctx >>?
     validate_deadline tx ctx >>?
     validate_access_list tx >>?
     validate_size tx >>?
     Ok tt).
End Validation.

(** ** What validation accepts *)

Section Accepted.
Context {P : Primitives}.

(** The size limits, for every type. *)
Definition sized (tx : Transaction) : Prop :=
  len (Tx.data tx) <= MAX_CALLDATA /\ len (tx_to_bytes tx) <= MAX_TX_SIZE.

(** The first registration of a public key: unsigned, free, and only for a
    funded account without keys whose address is the hash of the key. *)
Record registers (tx : Transaction) (sender : Account) (ns : NonceState) : Prop := {
  rg_unsigned : Tx.signature tx = [];
  rg_value : Tx.value tx = 0;
  rg_gas : Tx.gas_limit tx = 0;
  rg_key : len (Tx.data tx) = FalconPublicKey_SIZE /\ poseidon2_hash (Tx.data tx) = Tx.from tx;
  rg_funded : balance sender <> 0;
  rg_fresh : auth_keys sender = NoAuth;
  rg_nonce : is_valid ns (Tx.nonce tx) = true;
  rg_size : sized tx
}.

(** Who pays, out of the balance that is not locked by vesting. *)
Definition pays (tx : Transaction) (sender : Account) (ctx : ValidationContext) : Prop :=
  let spendable := Z.max 0 (balance sender - sender_locked ctx) in
  Tx.gas_limit tx * vc_base_fee ctx + Tx.value tx < 2 ^ u128 /\
  match Tx.fee_payer tx with
  | Sender => Tx.gas_limit tx * vc_base_fee ctx + Tx.value tx <= spendable
  | GasTank _ => Tx.value tx <= spendable
  | Paymaster a => a <> ZERO_ADDRESS
  end.

(** On every chain but the development network the sender has one key and pays
    the fee; the key has signed, unless the caller vouches for that. *)
Record authorised (tx : Transaction) (sender : Account) (ctx : ValidationContext) : Prop := {
  au_keys : vc_chain_id ctx <> DEVNET -> exists pk, auth_keys sender = Single pk;
  au_payer : vc_chain_id ctx <> DEVNET -> Tx.fee_payer tx = Sender;
  au_signed : vc_dev_skip_signature ctx = false -> sig_pre_verified ctx = false ->
    forall pk, auth_keys sender = Single pk -> verify_signature tx pk = true
}.

Record acceptable (tx : Transaction) (sender : Account) (ns : NonceState) (ctx : ValidationContext) : Prop := {
  ac_authorised : authorised tx sender ctx;
  ac_undeclared : carries_value (Tx.tx_type tx) = false -> Tx.value tx = 0 /\ Tx.to tx = ZERO_ADDRESS;
  ac_enabled : Tx.tx_type tx <> StakeWithdraw;
  ac_nonce : is_valid ns (Tx.nonce tx) = true;
  ac_pays : pays tx sender ctx;
  ac_gas : MIN_GAS_LIMIT <= Tx.gas_limit tx <= vc_block_gas_limit ctx;
  ac_deadline : forall d, Tx.deadline tx = Some d -> block_height ctx < d;
  ac_access : NoDup (entry_address <$> Tx.access_list tx);
  ac_size : sized tx
}.

Lemma and_then_Ok {E : Type} (r k : Result unit E) :
  (r >>? k) = Ok tt <-> r = Ok tt /\ k = Ok tt.
Proof. destruct r as [[]|]; cbn; naive_solver. Qed.

Lemma validate_nonce_Ok (tx : Transaction) (ns : NonceState) :
  validate_nonce tx ns = Ok tt <-> is_valid ns (Tx.nonce tx) = true.
Proof. unfold validate_nonce, is_valid. by destruct (Nonce.validate ns (Tx.nonce tx)). Qed.

Lemma validate_size_Ok (tx : Transaction) : validate_size tx = Ok tt <-> sized tx.
Proof.
  unfold validate_size, sized. destruct (Z.ltb_spec MAX_CALLDATA (len (Tx.data tx))); [split; [done|lia]|].
  destruct (Z.ltb_spec MAX_TX_SIZE (len (tx_to_bytes tx))); [split; [done|lia]|]. split; [lia|done].
Qed.

Lemma validate_balance_Ok (tx : Transaction) (sender : Account) (ctx : ValidationContext) :
  0 <= Tx.value tx -> validate_balance tx sender ctx = Ok tt <-> pays tx sender ctx.
Proof.
  intros Hv. unfold validate_balance, pays, saturating_sub.
  set (spendable := Z.max _ _). set (cost := Tx.gas_limit tx * vc_base_fee ctx).
  unfold checked_mul, checked_add. fold cost.
  destruct (Z.ltb_spec cost (2 ^ u128)); [|split; [done|lia]].
  destruct (Z.ltb_spec (cost + Tx.value tx) (2 ^ u128)); [|split; [done|lia]].
  destruct (Tx.fee_payer tx) as [|a|a].
  - destruct (Z.ltb_spec spendable (cost + Tx.value tx)); split; try done; lia.
  - destruct (Z.ltb_spec spendable (Tx.value tx)); split; try done; lia.
  - destruct (decide (a = ZERO_ADDRESS)); split; try done; naive_solver.
Qed.

Lemma duplicate_of_None (a : Address) (j : nat) (l : list AccessEntry) :
  duplicate_of a j l = None <-> a ∉ (entry_address <$> l).
Proof.
  revert j. induction l as [|e l IH]; intros j; cbn [duplicate_of fmap list_fmap].
  { split; [|done]. intros _. apply not_elem_of_nil. }
  rewrite not_elem_of_cons, <- IH. destruct (decide (a = entry_address e)); naive_solver.
Qed.

Lemma validate_entries_Ok (i : nat) (l : list AccessEntry) :
  validate_entries i l = Ok tt <-> NoDup (entry_address <$> l).
Proof.
  revert i. induction l as [|e l IH]; intros i; cbn [validate_entries fmap list_fmap].
  { split; [|done]. intros _. constructor. }
  rewrite NoDup_cons, <- (duplicate_of_None _ (S i)), <- (IH (S i)).
  destruct (duplicate_of (entry_address e) (S i) l); naive_solver.
Qed.
Lemma gate {E : Type} (b : bool) (e : E) (r : Result unit E) :
  (if b then Err e else r) = Ok tt <-> b = false /\ r = Ok tt.
Proof. destruct b; naive_solver. Qed.

Lemma gate_decide {E : Type} (Q : Prop) `{!Decision Q} (e : E) (r : Result unit E) :
  (if decide Q then Err e else r) = Ok tt <-> (Q -> False) /\ r = Ok tt.
Proof. destruct (decide Q); naive_solver. Qed.

Lemma validate_register_Ok (tx : Transaction) (sender : Account) (ns : NonceState) :
  validate_register_pubkey tx sender ns = Ok tt <-> registers tx sender ns.
Proof.
  unfold validate_register_pubkey.
  rewrite !gate, !and_then_Ok, validate_nonce_Ok, validate_size_Ok, !negb_false_iff, !bool_decide_eq_true,
    !Z.eqb_eq, Z.eqb_neq.
  assert (is_none (auth_keys sender) = true <-> auth_keys sender = NoAuth) as ->
    by (destruct (auth_keys sender); cbn; naive_solver).
  split; [|intros []; naive_solver]. by intros (? & ? & ? & ? & ? & ? & ? & ? & ? & _).
Qed.

Lemma authorised_gates (tx : Transaction) (sender : Account) (ctx : ValidationContext) :
  authorised tx sender ctx <->
  negb (vc_chain_id ctx =? DEVNET) && is_none (auth_keys sender) = false /\
  negb (vc_chain_id ctx =? DEVNET) && is_multisig (auth_keys sender) = false /\
  negb (vc_chain_id ctx =? DEVNET) && negb (is_sender (Tx.fee_payer tx)) = false /\
  (if negb (vc_dev_skip_signature ctx) && negb (sig_pre_verified ctx)
   then validate_signature tx sender else Ok tt) = Ok tt.
Proof.
  assert ((if negb (vc_dev_skip_signature ctx) && negb (sig_pre_verified ctx)
           then validate_signature tx sender else Ok tt) = Ok tt <->
    (vc_dev_skip_signature ctx = false -> sig_pre_verified ctx = false ->
     forall pk, auth_keys sender = Single pk -> verify_signature tx pk = true)) as ->.
  { unfold validate_signature.
    destruct (vc_dev_skip_signature ctx), (sig_pre_verified ctx), (auth_keys sender) as [|pk|]; cbn; try naive_solver.
    destruct (verify_signature tx pk) eqn:E; cbn [negb]; split; try done.
    - by intros _ _ _ ? [= <-].
    - intros H. by rewrite (H eq_refl eq_refl pk eq_refl) in E. }
  destruct (Z.eqb_spec (vc_chain_id ctx) DEVNET) as [|Hne]; cbn [negb andb].
  { split; [intros []; naive_solver|intros (_ & _ & _ & S); by split]. }
  split.
  - intros [K Py S]. destruct (K Hne) as [pk E]. rewrite E in *. by rewrite (Py Hne).
  - intros (K1 & K2 & Py & S). destruct (auth_keys sender) as [|pk|] eqn:Ek; try done.
    destruct (Tx.fee_payer tx) eqn:Ef; try done. split; [by eexists|done|]. by rewrite Ek.
Qed.

Lemma validation_decides (tx : Transaction) (sender : Account) (ns : NonceState) (ctx : ValidationContext) :
  0 <= Tx.value tx ->
  validate_transaction tx sender ns ctx = Ok tt <->
  Tx.chain_id tx = vc_chain_id ctx /\
  (if decide (Tx.tx_type tx = RegisterPubkey) then registers tx sender ns
   else acceptable tx sender ns ctx).
Proof.
  intros Hv. unfold validate_transaction, validate_chain_id.
  rewrite and_then_Ok, gate, negb_false_iff, Z.eqb_eq.
  destruct (decide (Tx.tx_type tx = RegisterPubkey)); [rewrite validate_register_Ok; naive_solver|].
  rewrite !gate, gate_decide, !and_then_Ok, validate_nonce_Ok, validate_balance_Ok, validate_size_Ok by done.
  unfold validate_access_list, validate_gas_limit. rewrite validate_entries_Ok, !gate, !Z.ltb_ge.
  assert (validate_deadline tx ctx = Ok tt <-> forall d, Tx.deadline tx = Some d -> block_height ctx < d) as ->.
  { unfold validate_deadline. destruct (Tx.deadline tx) as [d|]; [|naive_solver].
    rewrite gate, Z.leb_gt. naive_solver. }
  assert (negb (carries_value (Tx.tx_type tx)) && negb (Tx.value tx =? 0) = false /\
          negb (carries_value (Tx.tx_type tx)) && negb (bool_decide (Tx.to tx = ZERO_ADDRESS)) = false <->
          (carries_value (Tx.tx_type tx) = false -> Tx.value tx = 0 /\ Tx.to tx = ZERO_ADDRESS)) as Hu.
  { destruct (carries_value (Tx.tx_type tx)); cbn [negb andb]; [naive_solver|].
    rewrite !negb_false_iff, Z.eqb_eq, bool_decide_eq_true. naive_solver. }
  pose proof (authorised_gates tx sender ctx) as Ha.
  split.
  - intros ((? & _) & G1 & G2 & G3 & G4 & G5 & W & S & N & B & (g1 & g2 & _) & D & A & Z & _).
    split; [done|]. split; try done; [by apply Ha|by apply Hu].
  - intros [? []]. apply Ha in ac_authorised0 as (? & ? & ? & ?). apply Hu in ac_undeclared0 as [? ?].
    split_and!; try done; lia.
Qed.

(** [C34] Validation decides exactly these conditions.  The transaction carries the
    chain id of the context.  A key registration is unsigned, moves no value and
    buys no gas, its data is a key that hashes to the sender, whose account is
    funded and has no keys yet, and its nonce and size are valid.  Any other
    transaction is authorised (off the development network the sender has a single
    key and pays the fee itself; a single key has signed, unless the caller skips
    or vouches for signatures), has neither value nor recipient unless it is a
    standard one or a deployment, is not a stake withdrawal, has a usable nonce, a
    gas limit between the minimum and that of the block, a deadline not yet
    reached, distinct addresses in its access list and a valid size; gas and value
    do not overflow, and of the balance that is not locked by vesting a paying
    sender covers both, and one with a gas tank covers the value, whereas of a
    paymaster only the address is looked at. *)
Theorem validation_exact (tx : Transaction) (sender : Account) (ns : NonceState) (ctx : ValidationContext) :
  0 <= Tx.value tx ->
  validate_transaction tx sender ns ctx = Ok tt <->
  Tx.chain_id tx = vc_chain_id ctx /\
  (if decide (Tx.tx_type tx = RegisterPubkey) then registers tx sender ns
   else acceptable tx sender ns ctx).
Proof. apply validation_decides. Qed.
End Accepted.

Lemma validation_exact_witness :
  let key := replicate 897 5 in let a := replicate 32 1 in
  let tx sig := Tx.mkTx a (replicate 32 2) 50 [] 21000 0 sig Sender [] (Some 9) 7 Standard in
  let signed := tx (tx_hash (tx []) ++ replicate 568 0) in
  let sender := mkAccount a 0 21100 H256_zero H256_zero EOA (Single key) 0 0 in
  let ctx := mkValidation 8 1 30000 7 false 50 false in
  validate_transaction signed sender NonceState_new ctx = Ok tt /\ acceptable signed sender NonceState_new ctx /\
  (acceptable (tx []) sender NonceState_new ctx -> False).
Proof.
  intros key a tx signed sender ctx.
  assert (validate_transaction signed sender NonceState_new ctx = Ok tt) as E by (vm_compute; reflexivity).
  split; [exact E|]. split.
  - apply (validation_exact signed sender NonceState_new ctx) in E; [|discriminate]. exact (proj2 E).
  - intros Ac. assert (validate_transaction (tx []) sender NonceState_new ctx = Ok tt) as E'.
    { apply (validation_exact (tx []) sender NonceState_new ctx); [discriminate|]. split; [reflexivity|exact Ac]. }
    vm_compute in E'. discriminate E'.
Defined.
