(* ===== verification/Execution.v ===== *)
(** * Charges, refunds, fee distribution and receipts

    [tx/src/execution.rs]: what the pipeline does to balances around the
    execution of a transaction.  Balances are [u128], gas is [u64]; unchecked
    sums and products wrap, as in a release build. *)

From stdpp Require Import base numbers list option gmap strings pretty.
From Stdlib Require Import ZArith Lia.
From S2P Require Import Prelude Crypto Wire Transaction.

#[local] Open Scope Z_scope.

Definition FEE_BURN_PCT : Z := 70.
Definition FEE_VALIDATOR_PCT : Z := 20.
Definition FEE_TREASURY_PCT : Z := 10.

Record LogEntry : Type := mkLogEntry {
  log_address : Address;
  log_topics : list (list Z);
  log_data : list Z
}.

Record Receipt : Type := mkReceipt {
  rc_tx_hash : list Z;
  rc_success : bool;
  rc_gas_used : Z;
  rc_gas_refund : Z;
  rc_effective_gas : Z;
  rc_fee_paid : Z;
  fee_burned : Z;
  fee_validator : Z;
  fee_treasury : Z;
  rc_logs : list LogEntry;
  rc_state_root : list Z;
  rc_return_data : list Z
}.

Record FeeDistribution : Type := mkFees {
  burned : Z;
  validator : Z;
  treasury : Z
}.

(** The charged amount with the sender's balance and gas tank after it. *)
Definition pre_execution_charge (tx : Transaction) (sender_balance gas_tank_balance base_fee : Z) :
    Result (Z * Z * Z) string :=
  match checked_mul u128 (Tx.gas_limit tx) base_fee with
  | None =>
      Err ("fee overflow: gas_limit (" +:+ pretty (Tx.gas_limit tx) +:+ ") * base_fee (" +:+
           pretty base_fee +:+ ") > u128::MAX")
  | Some max_gas_cost =>
      match Tx.fee_payer tx with
      | Sender =>
          match checked_add u128 max_gas_cost (Tx.value tx) with
          | None =>
              Err ("fee overflow: max_gas_cost (" +:+ pretty max_gas_cost +:+ ") + value (" +:+
                   pretty (Tx.value tx) +:+ ") > u128::MAX")
          | Some total =>
              if sender_balance <? total then
                Err ("insufficient balance: need " +:+ pretty total +:+ ", have " +:+ pretty sender_balance)
              else Ok (max_gas_cost, sender_balance - max_gas_cost, gas_tank_balance)
          end
      | GasTank _ =>
          if gas_tank_balance <? max_gas_cost then
            Err ("insufficient gas tank: need " +:+ pretty max_gas_cost +:+ ", have " +:+
                 pretty gas_tank_balance)
          else if sender_balance <? Tx.value tx then
            Err ("insufficient balance for value: need " +:+ pretty (Tx.value tx) +:+ ", have " +:+
                 pretty sender_balance)
          else Ok (max_gas_cost, sender_balance, gas_tank_balance - max_gas_cost)
      | Paymaster _ => Ok (0, sender_balance, gas_tank_balance)
      end
  end.

(** The two balances after the transfer. *)
Definition transfer_value (sender_balance recipient_balance value : Z) : Result (Z * Z) string :=
  if value =? 0 then Ok (sender_balance, recipient_balance)
  else if sender_balance <? value then
    Err ("insufficient balance for transfer: need " +:+ pretty value +:+ ", have " +:+ pretty sender_balance)
  else Ok (sender_balance - value, wrap u128 (recipient_balance + value)).

(** [(effective_gas, actual_refund)] and the balance of the fee payer. *)
Definition post_execution_refund (gas_used gas_limit gas_refund_from_sdelete fee_payer_balance base_fee : Z) :
    Z * Z * Z :=
  let max_refund := gas_used / 2 in
  let actual_refund := Z.min gas_refund_from_sdelete max_refund in
  let effective_gas := gas_used - actual_refund in
  let gas_used := Z.min gas_used gas_limit in
  let unused_gas := gas_limit - gas_used in
  let total_refund_gas := wrap u64 (unused_gas + actual_refund) in
  let refund_amount := wrap u128 (total_refund_gas * base_fee) in
  (effective_gas, actual_refund, wrap u128 (fee_payer_balance + refund_amount)).

Definition distribute_fee (effective_gas base_fee : Z) : FeeDistribution :=
  let total_fee := wrap u128 (effective_gas * base_fee) in
  let burned := wrap u128 (total_fee * FEE_BURN_PCT) / 100 in
  let validator := wrap u128 (total_fee * FEE_VALIDATOR_PCT) / 100 in
  let treasury := wrap u128 (total_fee - burned - validator) in
  mkFees burned validator treasury.

Definition generate_receipt {P : Primitives} (tx : Transaction) (success : bool)
    (gas_used gas_refund effective_gas base_fee : Z) (logs : list LogEntry) (state_root return_data : list Z) :
    Receipt :=
  let fee := distribute_fee effective_gas base_fee in
  mkReceipt (tx_hash tx) success gas_used gas_refund effective_gas (wrap u128 (effective_gas * base_fee))
    (burned fee) (validator fee) (treasury fee) logs state_root return_data.

(** ** Where the fee goes *)

Lemma distribute_fee_exact (effective_gas base_fee : Z) :
  0 <= effective_gas -> 0 <= base_fee -> effective_gas * base_fee * 70 < 2 ^ u128 ->
  let d := distribute_fee effective_gas base_fee in
  burned d + validator d + treasury d = effective_gas * base_fee /\
  0 <= burned d /\ 0 <= validator d /\ 0 <= treasury d /\
  treasury d <= effective_gas * base_fee / 10 + 2.
Proof.
  intros Hg Hb Hlt. unfold distribute_fee. set (t := effective_gas * base_fee) in *.
  assert (0 <= t) as Ht by nia. clearbody t.
  rewrite (wrap_small u128 t) by (unfold in_range; lia).
  rewrite (wrap_small u128 (t * FEE_BURN_PCT)) by (unfold in_range, FEE_BURN_PCT; lia).
  rewrite (wrap_small u128 (t * FEE_VALIDATOR_PCT)) by (unfold in_range, FEE_VALIDATOR_PCT; lia).
  cbn [burned validator treasury]. unfold FEE_BURN_PCT, FEE_VALIDATOR_PCT.
  assert (0 <= t * 70 / 100 /\ 0 <= t * 20 / 100 /\ t * 70 / 100 + t * 20 / 100 <= t /\
          t - t * 70 / 100 - t * 20 / 100 <= t / 10 + 2) as (? & ? & ? & ?)
    by (Z.to_euclidean_division_equations; lia).
  rewrite wrap_small by (unfold in_range; lia). lia.
Qed.

Lemma refund_exact (gas_used gas_limit sdelete b base_fee : Z) :
  0 <= gas_used <= gas_limit -> gas_limit < 2 ^ u64 -> 0 <= sdelete -> 0 <= base_fee -> 0 <= b ->
  b + gas_limit * base_fee < 2 ^ u128 ->
  exists eff ref, post_execution_refund gas_used gas_limit sdelete b base_fee =
    (eff, ref, b + gas_limit * base_fee - eff * base_fee) /\
    gas_used - gas_used / 2 <= eff <= gas_used /\ ref = gas_used - eff.
Proof.
  intros Hu Hl Hs Hf Hb Hlt. unfold post_execution_refund.
  set (ref := Z.min sdelete (gas_used / 2)). rewrite (Z.min_l gas_used gas_limit) by lia.
  assert (0 <= gas_used / 2 <= gas_used) by (Z.to_euclidean_division_equations; lia).
  assert (0 <= ref <= gas_used / 2) by lia. clearbody ref.
  rewrite (wrap_small u64) by (unfold in_range; lia).
  assert (0 <= (gas_limit - gas_used + ref) * base_fee <= gas_limit * base_fee) by nia.
  rewrite (wrap_small u128 ((gas_limit - gas_used + ref) * base_fee)) by (unfold in_range; lia).
  rewrite wrap_small by (unfold in_range; lia).
  exists (gas_used - ref), ref. split; [f_equal; ring|lia].
Qed.

(** The fee payer pays exactly the fee of the receipt: when a transaction
    used no more gas than its limit, the charge before the execution minus the
    refund after it is the effective gas times the base fee, whatever happened
    to the balance in between, and the burned, validator and treasury shares of
    the receipt add up to that fee. *)
Theorem payer_pays_the_fee {P : Primitives} (tx : Transaction) (sb gt base_fee c sb' gt' used sdelete b : Z)
    (ok : bool) (logs : list LogEntry) (root out : list Z) :
  Tx.fee_payer tx = Sender -> in_range u64 (Tx.gas_limit tx) -> 0 <= base_fee ->
  pre_execution_charge tx sb gt base_fee = Ok (c, sb', gt') ->
  0 <= used <= Tx.gas_limit tx -> 0 <= sdelete -> 0 <= b -> b + c < 2 ^ u128 ->
  used * base_fee * 70 < 2 ^ u128 ->
  exists eff ref b',
    post_execution_refund used (Tx.gas_limit tx) sdelete b base_fee = (eff, ref, b') /\
    sb' = sb - c /\ gt' = gt /\ b' = b + c - eff * base_fee /\
    let r := generate_receipt tx ok used ref eff base_fee logs root out in
    rc_fee_paid r = eff * base_fee /\ fee_burned r + fee_validator r + fee_treasury r = eff * base_fee.
Proof.
  intros Hp Hl Hf Hc Hu Hs Hb Hlt H70. unfold pre_execution_charge in Hc. rewrite Hp in Hc.
  destruct (checked_mul u128 (Tx.gas_limit tx) base_fee) as [m|] eqn:Em; [|done].
  apply checked_mul_Some in Em as [-> _]. destruct (checked_add u128 _ _) as [t|]; [|done].
  destruct (Z.ltb_spec sb t); [done|]. injection Hc as <- <- <-.
  destruct (refund_exact used (Tx.gas_limit tx) sdelete b base_fee) as (eff & ref & E & He & Hr);
    [lia|apply Hl|lia|lia|lia|lia|].
  assert (0 <= used / 2 <= used) by (Z.to_euclidean_division_equations; lia).
  assert (0 <= eff * base_fee <= used * base_fee) by nia.
  exists eff, ref, (b + Tx.gas_limit tx * base_fee - eff * base_fee). split_and!; [done..|]. cbn zeta.
  cbn [generate_receipt rc_fee_paid fee_burned fee_validator fee_treasury].
  destruct (distribute_fee_exact eff base_fee) as (Esum & _); [lia|lia|lia|].
  split; [|done]. apply wrap_small. unfold in_range. lia.
Qed.

Lemma payer_pays_the_fee_witness :
  let tx := Tx.mkTx [] [] 50 [] 30000 0 [] Sender [] None 1 Standard in
  exists eff ref b',
    post_execution_refund 21000 30000 500 70000 2 = (eff, ref, b') /\
    70000 = 130000 - 60000 /\ 0 = 0 /\ b' = 70000 + 60000 - eff * 2 /\
    let r := generate_receipt tx true 21000 ref eff 2 [] [] [] in
    rc_fee_paid r = eff * 2 /\ fee_burned r + fee_validator r + fee_treasury r = eff * 2.
Proof.
  intros tx. apply (payer_pays_the_fee tx 130000 0 2 60000 70000 0 21000 500 70000 true [] [] []);
    try reflexivity; try discriminate; (split; [discriminate|]); first [reflexivity|discriminate].
Defined.

(** A transaction type that reports more gas than the limit breaks the
    balance: a handler that reports 100000 gas under a limit of 21000 (as the
    slash handler does) charges the sender 21000 gas, while the receipt hands
    30000 gas worth of fees to proposer and treasury. *)
Theorem overreported_gas_mints {P : Primitives} :
  let tx := Tx.mkTx [] [] 0 [] 21000 0 [] Sender [] None 1 Slash in
  exists c eff ref b',
    pre_execution_charge tx 21000 0 1 = Ok (c, 0, 0) /\
    post_execution_refund 100000 21000 0 0 1 = (eff, ref, b') /\
    let r := generate_receipt tx true 100000 ref eff 1 [] [] [] in
    b' = 0 /\ c = 21000 /\ fee_validator r + fee_treasury r = 30000.
Proof. intros tx. eexists _, _, _, _. by split_and!. Qed.
