(* ===== verification/Store.v ===== *)
(** * Records of the state

    The typed accessors of [tx/src/pipeline.rs] over the state of [State]: how
    accounts, nonces, code, supply counters, vesting, subsidy, multisig, pause,
    airdrop and validator records are read and written, and the delta
    application that ends a transaction. *)

From stdpp Require Import base numbers list option gmap strings.
From Stdlib Require Import ZArith Lia.
From S2P Require Import Prelude Crypto Wire Keys Nonce Account Economics Airdrop Multisig State Transaction.
From S2P Require Import Validation Execution.

#[local] Open Scope Z_scope.

Inductive PipelineError : Type :=
| ValidationFailed (e : ValidationError)
| AccountNotFound (a : Address)
| ExecutionFailed (msg : string)
| StateError (msg : string).

Definition empty_account (a : Address) : Account :=
  mkAccount a 0 0 H256_zero H256_zero EOA NoAuth 0 0.

Definition set_balance (x : Z) (a : Account) : Account :=
  mkAccount (address a) (nonce a) x (code_hash a) (storage_root a) (account_type a) (auth_keys a)
    (gas_tank a) (key_nonce a).
Definition set_nonce (x : Z) (a : Account) : Account :=
  mkAccount (address a) x (balance a) (code_hash a) (storage_root a) (account_type a) (auth_keys a)
    (gas_tank a) (key_nonce a).
Definition set_auth_keys (k : AuthKeys) (a : Account) : Account :=
  mkAccount (address a) (nonce a) (balance a) (code_hash a) (storage_root a) (account_type a) k
    (gas_tank a) (key_nonce a).

Definition SERVICE_SHARE_PCT : Z := 25.

(** ** Subsidy schedules and validator entries *)

Record ValidatorSubsidySchedule : Type := mkSubsidy {
  per_block : Z;
  end_slot : Z
}.

Definition SUBSIDY_ENCODED_LEN : Z := 16 + 8.

Definition subsidy_encode (s : ValidatorSubsidySchedule) : list Z :=
  le_encode 16 (per_block s) ++ le_encode 8 (end_slot s).

Definition subsidy_decode (bytes : list Z) : option ValidatorSubsidySchedule :=
  if len bytes <? SUBSIDY_ENCODED_LEN then None
  else Some (mkSubsidy (le_at 0 16 bytes) (le_at 16 8 bytes)).

Definition VALIDATOR_ENTRY_BASE_LEN : Z := 4 + 897 + 16 + 1 + 16.

Record ValidatorEntry : Type := mkValidator {
  pk : list Z;
  stake : Z;
  status : Z;
  last_claimed_at : Z;
  exit_block : option Z;
  kem_pk : option (list Z)
}.

(** [pk_len] is 897 behind the second check, so the offsets are constants. *)
Definition entry_decode (bytes : list Z) : option ValidatorEntry :=
  if len bytes <? VALIDATOR_ENTRY_BASE_LEN then None
  else
    let pk_len := le_at 0 4 bytes in
    if negb (pk_len =? 897) || (len bytes <? 4 + pk_len + 16 + 1 + 16) then None
    else
      let status := byte_at 917 bytes in
      let '(exit_block, tail_pos) :=
        if (status =? 0x01) && (942 <=? len bytes) then (Some (le_at 934 8 bytes), 942%nat)
        else (None, 934%nat) in
      let kem_pk :=
        if Z.of_nat tail_pos + 4 <=? len bytes then
          let kem_pk_len := le_at tail_pos 4 bytes in
          if (0 <? kem_pk_len) && (Z.of_nat tail_pos + 4 + kem_pk_len <=? len bytes)
          then Some (slice (tail_pos + 4) (Z.to_nat kem_pk_len) bytes) else None
        else None in
      Some (mkValidator (slice 4 897 bytes) (le_at 901 16 bytes) status (le_at 918 16 bytes) exit_block kem_pk).

Definition entry_encode (e : ValidatorEntry) : list Z :=
  write_prefixed 4 (pk e) ++ le_encode 16 (stake e) ++ [status e] ++ le_encode 16 (last_claimed_at e) ++
  match exit_block e with Some eb => le_encode 8 eb | None => [] end ++
  le_encode 4 (match kem_pk e with Some kp => len kp | None => 0 end) ++ default [] (kem_pk e).

Section Store.
Context {P : Primitives} {St : Type} `{StateAccess St}.

(** [let _ = smt.insert(key, value)] *)
Definition put (key value : list Z) (s : St) : St := (smt_insert key value s).1.

Definition load_account (s : St) (a : Address) : Account :=
  match smt_get s (balance_key a) with
  | Some bytes => default (empty_account a) (Account_from_bytes bytes)
  | None => empty_account a
  end.

Definition insert_or_fail (key value : list Z) : ST St PipelineError unit := fun s =>
  match smt_insert key value s with
  | (s', Ok _) => (s', Ok tt)
  | (s', Err e) => (s', Err (StateError e))
  end.

Definition store_account (a : Account) : ST St PipelineError unit :=
  insert_or_fail (balance_key (address a)) (Account_to_bytes a).

Definition load_nonce (s : St) (a : Address) : NonceState :=
  default NonceState_new (smt_get s (nonce_key a) ≫= NonceState_from_bytes).

Definition store_nonce (a : Address) (n : NonceState) : ST St PipelineError unit :=
  insert_or_fail (nonce_key a) (NonceState_to_bytes n).

Definition load_code (s : St) (a : Address) : option (list Z) := smt_get s (code_key a).

Definition store_code (a : Address) (code : list Z) : ST St PipelineError unit :=
  insert_or_fail (code_key a) code.

(** ** Counters *)

Definition read_u128_state (s : St) (key : list Z) : option Z :=
  b ← smt_get s key; if 16 <=? len b then Some (le_decode (take 16 b)) else None.

Definition read_u64_state (s : St) (key : list Z) : option Z :=
  b ← smt_get s key; if 8 <=? len b then Some (le_decode (take 8 b)) else None.

Definition read_rewards_per_validator (s : St) : Z :=
  default 0 (read_u128_state s rewards_per_validator_key).
Definition write_rewards_per_validator (v : Z) : St -> St :=
  put rewards_per_validator_key (le_encode 16 v).
Definition read_total_supply (s : St) : Z :=
  default GENESIS_TOTAL_SUPPLY (read_u128_state s supply_key).
Definition write_total_supply (v : Z) : St -> St := put supply_key (le_encode 16 v).
Definition read_total_burned (s : St) : Z := default 0 (read_u128_state s total_burned_key).
Definition write_total_burned (v : Z) : St -> St := put total_burned_key (le_encode 16 v).

Definition read_vesting_schedule (s : St) (a : Address) : option VestingSchedule :=
  bytes ← smt_get s (vesting_key a); vesting_decode bytes.
Definition write_vesting_schedule (a : Address) (v : VestingSchedule) : St -> St :=
  put (vesting_key a) (vesting_encode v).

Definition read_validator_subsidy (s : St) : option ValidatorSubsidySchedule :=
  bytes ← smt_get s validator_subsidy_key; subsidy_decode bytes.
Definition write_validator_subsidy (v : ValidatorSubsidySchedule) : St -> St :=
  put validator_subsidy_key (subsidy_encode v).

(** ** Multisig and pause *)

Definition read_multisig_signers (s : St) : option (list (list Z)) :=
  bytes ← smt_get s multisig_signers_key; decode_signer_set bytes.

(** [None] is a failed assertion of the encoder. *)
Definition write_multisig_signers (pks : list (list Z)) (s : St) : option St :=
  b ← encode_signer_set pks; Some (put multisig_signers_key b s).

Definition read_multisig_threshold (s : St) : Z :=
  default 0 (b ← smt_get s multisig_threshold_key; b !! 0%nat).
Definition write_multisig_threshold (t : Z) : St -> St := put multisig_threshold_key [t].

Definition read_multisig_nonce (s : St) : Z := default 0 (read_u64_state s multisig_nonce_key).
Definition write_multisig_nonce (n : Z) : St -> St := put multisig_nonce_key (le_encode 8 n).

Definition read_emergency_pause_end_slot (s : St) : Z :=
  default 0 (read_u64_state s emergency_pause_end_slot_key).
Definition write_emergency_pause_end_slot (n : Z) : St -> St :=
  put emergency_pause_end_slot_key (le_encode 8 n).
Definition is_paused (s : St) (current_slot : Z) : bool := current_slot <? read_emergency_pause_end_slot s.

(** ** Airdrop *)

Definition read_airdrop_root (s : St) : option (list Z) :=
  bytes ← smt_get s airdrop_root_key; if len bytes =? 32 then Some bytes else None.
Definition write_airdrop_root (root : list Z) : St -> St := put airdrop_root_key root.
Definition read_airdrop_deadline (s : St) : option Z := read_u64_state s airdrop_deadline_key.
Definition write_airdrop_deadline (slot : Z) : St -> St := put airdrop_deadline_key (le_encode 8 slot).
Definition read_airdrop_expected_sum (s : St) : option Z := read_u128_state s airdrop_expected_sum_key.
Definition write_airdrop_expected_sum (amount : Z) : St -> St :=
  put airdrop_expected_sum_key (le_encode 16 amount).
Definition is_airdrop_claimed (s : St) (leaf_index : Z) : bool :=
  is_some (smt_get s (airdrop_claimed_key leaf_index)).
Definition mark_airdrop_claimed (leaf_index : Z) : St -> St :=
  put (airdrop_claimed_key leaf_index) [0x01].

(** ** Validators *)

Definition read_active_validator_count (s : St) : Z :=
  default 0 (read_u64_state s active_validator_count_key).
Definition increment_active_validator_count (s : St) : St :=
  put active_validator_count_key (le_encode 8 (saturating_add u64 (read_active_validator_count s) 1)) s.
Definition decrement_active_validator_count (s : St) : St :=
  put active_validator_count_key (le_encode 8 (saturating_sub (read_active_validator_count s) 1)) s.

(** ** Fees of a block, deltas of a transaction *)

Definition credit (amount : Z) (a : Address) : ST St PipelineError unit := fun s =>
  let acct := load_account s a in
  store_account (set_balance (wrap u128 (balance acct + amount)) acct) s.

#[local] Open Scope pyde_scope.

Definition u128_sum (l : list Z) : Z := wrap u128 (foldr Z.add 0 l).

Definition apply_block_fees (proposer : Address) (receipts : list Receipt) : ST St PipelineError unit :=
  let validator_total := u128_sum (fee_validator <$> receipts) in
  let treasury_total := u128_sum (fee_treasury <$> receipts) in
  when (0 <? validator_total) (credit validator_total proposer) ;;;
  when (0 <? treasury_total) (credit treasury_total treasury_address).

(** [final as i128 - initial as i128], then a saturating addition or subtraction
    of its magnitude. *)
Definition apply_delta (current initial final : Z) : Z :=
  let delta := to_signed u128 (wrap u128 (to_signed u128 final - to_signed u128 initial)) in
  if 0 <=? delta then saturating_add u128 current delta
  else saturating_sub current (wrap u128 (- delta)).

(** The account [apply_account_delta] stores, from the one it loads. *)
Definition delta_account (current initial final : Account) : Account :=
  let current := set_balance (apply_delta (balance current) (balance initial) (balance final)) current in
  let current := set_gas_tank (apply_delta (gas_tank current) (gas_tank initial) (gas_tank final)) current in
  let current := if decide (auth_keys final = auth_keys initial) then current
                 else set_auth_keys (auth_keys final) current in
  if nonce final =? nonce initial then current else set_nonce (nonce final) current.

Definition apply_account_delta (a : Address) (initial final : Account) : ST St PipelineError unit := fun s =>
  store_account (delta_account (load_account s a) initial final) s.
End Store.

(** ** Separation of the records

    Theorems about the state speak of finitely many records; their keys are
    assumed to be different ([Keys.state_keys_separated] shows that otherwise
    the sponge collides on two explicit inputs). *)

#[global] Instance state_key_eq_dec : EqDecision state_key.
Proof. solve_decision. Defined.

Section Separation.
Context {P : Primitives}.

Definition separated (ks : list state_key) : Prop :=
  forall k1 k2, k1 ∈ ks -> k2 ∈ ks -> key_of k1 = key_of k2 -> k1 = k2.

(** A check for concrete lists. *)
Definition separatedb (ks : list state_key) : bool :=
  forallb (fun k1 => forallb (fun k2 => implb (bool_decide (key_of k1 = key_of k2)) (bool_decide (k1 = k2))) ks) ks.

Lemma separatedb_ok (ks : list state_key) : separatedb ks = true -> separated ks.
Proof.
  intros E k1 k2 H1 H2 Ek. unfold separatedb in E. rewrite forallb_forall in E.
  apply list_elem_of_In in H1, H2. specialize (E k1 H1). rewrite forallb_forall in E. specialize (E k2 H2).
  rewrite (bool_decide_true (key_of k1 = key_of k2)) in E by done. by apply bool_decide_eq_true in E.
Qed.

Lemma separated_ne (ks : list state_key) (k1 k2 : state_key) :
  separated ks -> k1 ∈ ks -> k2 ∈ ks -> k1 <> k2 -> key_of k1 <> key_of k2.
Proof. intros S H1 H2 Hne E. by apply Hne, S. Qed.

Lemma separated_incl (ks ks' : list state_key) : ks' ⊆ ks -> separated ks -> separated ks'.
Proof. intros Hi S k1 k2 H1 H2. by apply S; apply Hi. Qed.
End Separation.

(** The record a key belongs to; two keys are different when their records are,
    and a list with both is [separated]. *)
Ltac record_of k :=
  lazymatch k with
  | balance_key ?a => constr:(KBalance a)
  | nonce_key ?a => constr:(KNonce a)
  | code_key ?a => constr:(KCode a)
  | validator_key ?a => constr:(KValidator a)
  | validator_index_key ?i => constr:(KValidatorIndex i)
  | airdrop_claimed_key ?i => constr:(KAirdropClaimed i)
  | validator_count_key => constr:(KValidatorCount)
  | active_validator_count_key => constr:(KActiveValidatorCount)
  | rewards_per_validator_key => constr:(KRewardsPerValidator)
  | supply_key => constr:(KSupply)
  | total_burned_key => constr:(KTotalBurned)
  | validator_subsidy_key => constr:(KValidatorSubsidy)
  | airdrop_root_key => constr:(KAirdropRoot)
  | airdrop_deadline_key => constr:(KAirdropDeadline)
  | multisig_signers_key => constr:(KMultisigSigners)
  | multisig_threshold_key => constr:(KMultisigThreshold)
  | multisig_nonce_key => constr:(KMultisigNonce)
  | emergency_pause_end_slot_key => constr:(KPauseEndSlot)
  | key_of ?r => r
  end.

Ltac separate :=
  lazymatch goal with
  | |- ?x <> ?y =>
      let a := record_of x in
      let b := record_of y in
      match goal with
      | Sep : separated ?l |- _ =>
          apply (separated_ne l a b Sep); [set_solver|set_solver|first [discriminate|congruence]]
      end
  end.

(** ** Laws of the accessors *)

Section Laws.
Context {P : Primitives} {St : Type} `{StateAccessOk St}.
Implicit Types s : St.

Lemma get_put s (k v k' : list Z) :
  smt_get (put k v s) k' = if decide (k = k') then stored v else smt_get s k'.
Proof. apply get_insert. Qed.

Lemma get_put_eq s (k v : list Z) : v <> [] -> smt_get (put k v s) k = Some v.
Proof. intros Hv. rewrite get_put, decide_True by done. by destruct v. Qed.

Lemma get_put_ne s (k v k' : list Z) : k <> k' -> smt_get (put k v s) k' = smt_get s k'.
Proof. intros Hk. by rewrite get_put, decide_False. Qed.

Lemma insert_or_fail_put s (k v : list Z) : insert_or_fail k v s = (put k v s, Ok tt).
Proof.
  unfold insert_or_fail, put. pose proof (insert_ok s k v) as E. by destruct (smt_insert k v s) as [s' []].
Qed.

Lemma read_u64_put s (k : list Z) (x : Z) : in_range u64 x -> read_u64_state (put k (le_encode 8 x) s) k = Some x.
Proof.
  intros Hx. unfold read_u64_state. rewrite get_put_eq by done. cbn [mbind option_bind].
  rewrite take_ge by (by rewrite length_le_encode). by rewrite le_decode_encode.
Qed.

Lemma read_u128_put s (k : list Z) (x : Z) : in_range u128 x -> read_u128_state (put k (le_encode 16 x) s) k = Some x.
Proof.
  intros Hx. unfold read_u128_state. rewrite get_put_eq by done. cbn [mbind option_bind].
  rewrite take_ge by (by rewrite length_le_encode). by rewrite le_decode_encode.
Qed.

Lemma read_u64_ne s (k v k' : list Z) : k <> k' -> read_u64_state (put k v s) k' = read_u64_state s k'.
Proof. intros Hk. unfold read_u64_state. by rewrite get_put_ne. Qed.

Lemma read_u128_ne s (k v k' : list Z) : k <> k' -> read_u128_state (put k v s) k' = read_u128_state s k'.
Proof. intros Hk. unfold read_u128_state. by rewrite get_put_ne. Qed.

Lemma Account_to_bytes_nonempty (a : Account) : wf_account a -> Account_to_bytes a <> [].
Proof.
  intros [Ha _ _ _ _ _ _ _ _] E. apply (f_equal length) in E. unfold Account_to_bytes in E.
  rewrite length_app, Ha in E. cbn in E. lia.
Qed.

Lemma load_account_put_eq s (a : Account) :
  wf_account a -> load_account (put (balance_key (address a)) (Account_to_bytes a) s) (address a) = a.
Proof.
  intros W. unfold load_account. rewrite get_put_eq by by apply Account_to_bytes_nonempty.
  rewrite <- (app_nil_r (Account_to_bytes a)), Account_bytes by done. done.
Qed.

Lemma load_account_put_at s (a : Address) (acct : Account) :
  wf_account acct -> address acct = a -> load_account (put (balance_key a) (Account_to_bytes acct) s) a = acct.
Proof. intros W <-. by apply load_account_put_eq. Qed.

Lemma load_account_ne s s' (a : Address) :
  smt_get s' (balance_key a) = smt_get s (balance_key a) -> load_account s' a = load_account s a.
Proof. unfold load_account. by intros ->. Qed.

(** ** The accounts at a list of addresses *)

Definition good_account s (a : Address) : Prop :=
  wf_account (load_account s a) /\ address (load_account s a) = a.

Definition good_accounts s (l : list Address) : Prop := Forall (good_account s) l.

Lemma good_at s (l : list Address) (a : Address) : good_accounts s l -> a ∈ l -> good_account s a.
Proof. unfold good_accounts. rewrite Forall_forall. eauto. Qed.

Lemma store_account_put s (a : Account) :
  store_account a s = (put (balance_key (address a)) (Account_to_bytes a) s, Ok tt).
Proof. apply insert_or_fail_put. Qed.

(** A store at one address of the list is an update of the list's accounts. *)
Lemma store_account_spec s (l : list Address) (acct : Account) :
  separated (KBalance <$> l) -> good_accounts s l -> address acct ∈ l -> wf_account acct ->
  let s' := put (balance_key (address acct)) (Account_to_bytes acct) s in
  good_accounts s' l /\
  forall b, b ∈ l -> load_account s' b = if decide (b = address acct) then acct else load_account s b.
Proof.
  intros Sep G Hin W s'.
  assert (forall b, b ∈ l -> load_account s' b = if decide (b = address acct) then acct else load_account s b) as E.
  { intros b Hb. destruct (decide (b = address acct)) as [->|Hne]; [by apply load_account_put_eq|].
    apply load_account_ne. unfold s'. apply get_put_ne. intros E. apply Hne.
    assert (KBalance (address acct) = KBalance b) as [= ->]; [|done].
    by apply Sep; [apply list_elem_of_fmap_2..|]. }
  split; [|done]. apply Forall_forall. intros b Hb. unfold good_account. rewrite E by done.
  destruct (decide (b = address acct)) as [->|]; [done|]. unfold good_accounts in G. rewrite Forall_forall in G.
  by apply G.
Qed.

Lemma load_account_put s (k v : list Z) (a : Address) :
  k <> balance_key a -> load_account (put k v s) a = load_account s a.
Proof. intros Hk. apply load_account_ne. by apply get_put_ne. Qed.

Lemma good_accounts_put s (l : list Address) (k v : list Z) :
  (forall a, a ∈ l -> k <> balance_key a) -> good_accounts s l -> good_accounts (put k v s) l.
Proof.
  unfold good_accounts. rewrite !Forall_forall. intros Hk G a Ha. unfold good_account.
  rewrite load_account_put by by apply Hk. by apply G.
Qed.

Lemma set_balance_wf (x : Z) (a : Account) : in_range u128 x -> wf_account a -> wf_account (set_balance x a).
Proof. intros Hx []. by split. Qed.

(** Where balances stay below 2^127, the signed delta is the difference. *)
Lemma apply_delta_exact (current initial final : Z) :
  0 <= initial < 2 ^ 127 -> 0 <= final < 2 ^ 127 -> 0 <= current + (final - initial) < 2 ^ 128 ->
  apply_delta current initial final = current + (final - initial).
Proof.
  intros Hi Hf Hc. unfold apply_delta, to_signed.
  destruct (Z.ltb_spec final (2 ^ (u128 - 1))); [|lia]. destruct (Z.ltb_spec initial (2 ^ (u128 - 1))); [|lia].
  assert (let d := wrap u128 (final - initial) in (if d <? 2 ^ (u128 - 1) then d else d - 2 ^ u128) = final - initial) as ->.
  { unfold wrap. destruct (Z.leb_spec 0 (final - initial)).
    - rewrite Z.mod_small by lia. cbv zeta. destruct (Z.ltb_spec (final - initial) (2 ^ (u128 - 1))); lia.
    - assert ((final - initial) mod 2 ^ u128 = final - initial + 2 ^ u128) as ->
        by (symmetry; apply (Z.mod_unique _ _ (-1)); lia).
      cbv zeta.
      destruct (Z.ltb_spec (final - initial + 2 ^ u128) (2 ^ (u128 - 1))); lia. }
  destruct (Z.leb_spec 0 (final - initial)); unfold saturating_add, saturating_sub; [lia|].
  rewrite wrap_small by (unfold in_range; lia). lia.
Qed.

Lemma apply_delta_same (current x : Z) : in_range u128 current -> apply_delta current x x = current.
Proof.
  intros Hc. unfold apply_delta. rewrite Z.sub_diag. change (to_signed u128 (wrap u128 0)) with 0.
  cbn [Z.leb Z.compare]. unfold saturating_add, in_range in *. lia.
Qed.

(** A final account that differs from the initial one in its balance only. *)
Lemma delta_account_balance (current initial final : Account) :
  gas_tank final = gas_tank initial -> auth_keys final = auth_keys initial -> nonce final = nonce initial ->
  in_range u128 (gas_tank current) ->
  delta_account current initial final =
    set_balance (apply_delta (balance current) (balance initial) (balance final)) current.
Proof.
  intros Eg Ea En Hg. unfold delta_account. rewrite decide_True, En, Z.eqb_refl by done.
  rewrite Eg. cbn [gas_tank set_balance]. by rewrite apply_delta_same.
Qed.

Lemma apply_account_delta_put s (a : Address) (initial final : Account) :
  apply_account_delta a initial final s =
    (let acct := delta_account (load_account s a) initial final in
     put (balance_key (address acct)) (Account_to_bytes acct) s, Ok tt).
Proof. apply store_account_put. Qed.
End Laws.

(** ** A small world for the witnesses *)

Definition bytes_okb (l : list Z) : bool := forallb (fun x => (0 <=? x) && (x <? 256)) l.

Lemma bytes_okb_ok (l : list Z) : bytes_okb l = true -> bytes_ok l.
Proof.
  unfold bytes_okb. rewrite forallb_forall. intros F. apply Forall_forall. intros x Hx%list_elem_of_In.
  specialize (F x Hx). unfold byte_ok. lia.
Qed.

Definition alice : Address := replicate 32 1.
Definition bob : Address := replicate 32 2.
Definition funded (a : Address) (x : Z) : Account := set_balance x (empty_account a).

Definition with_account (acct : Account) (s : MapState) : MapState :=
  put (balance_key (address acct)) (Account_to_bytes acct) s.

Definition small_world : MapState := with_account (funded bob 7) (with_account (funded alice 100000) PydeSMT_new).

Lemma empty_account_wf (a : Address) : length a = 32%nat -> wf_account (empty_account a).
Proof. intros Ha. split; done. Qed.

Lemma funded_good (s : MapState) (a : Address) (x : Z) :
  load_account s a = funded a x -> length a = 32%nat -> in_range u128 x -> good_account s a.
Proof. intros E Ha Hx. split; rewrite E; [by apply set_balance_wf, empty_account_wf|done]. Qed.

Lemma fresh_nonce_wf : wf_nonce NonceState_new.
Proof. split; [done|]. split; [done|by left]. Qed.
