(* ===== verification/Handlers.v ===== *)
(** * Handlers of the special transaction types

    The arms of the dispatch in [execute_transaction_inner]
    ([tx/src/pipeline.rs]) that do not run contract code: staking, slashing,
    reward claims, the airdrop, the treasury multisig and the emergency pause.
    A handler maps the state (and the sender's balance, where the source passes
    it by reference) to the new state and the tuple
    [(success, gas_used, gas_refund, logs, return_data)]. *)

From stdpp Require Import base numbers list option gmap strings pretty.
From Stdlib Require Import ZArith Lia.
From S2P Require Import Prelude Crypto Wire Keys Nonce Account Economics Airdrop Multisig State Transaction.
From S2P Require Import Validation Execution Store.

#[local] Open Scope Z_scope.
#[local] Open Scope pyde_scope.

(** [pyde_slashing] *)
Definition VALIDATOR_STAKE : Z := 10000000000000.
Definition FINDER_FEE_PERCENT : Z := 10.
Definition EVIDENCE_VERSION : Z := 1.

Record BlockContext : Type := mkBlock {
  height : Z;
  block_timestamp : Z;
  base_fee : Z;
  block_gas_limit : Z;
  chain_id : Z;
  validator_address : Address;
  dev_skip_signature : bool;
  block_sigs_pre_verified : bool
}.

(** [(success, gas_used, gas_refund, logs, return_data)] *)
Record TxOut : Type := mkOut {
  success : bool;
  gas_used : Z;
  gas_refund : Z;
  out_logs : list LogEntry;
  return_data : list Z
}.

Definition failed (gas : Z) (msg : string) : TxOut := mkOut false gas 0 [] (bytes_of_string msg).
Definition succeeded (gas : Z) (data : list Z) : TxOut := mkOut true gas 0 [] data.

Definition set_status (st : Z) (eb : option Z) (e : ValidatorEntry) : ValidatorEntry :=
  mkValidator (pk e) (stake e) st (last_claimed_at e) eb (kem_pk e).
Definition set_stake (x : Z) (e : ValidatorEntry) : ValidatorEntry :=
  mkValidator (pk e) x (status e) (last_claimed_at e) (exit_block e) (kem_pk e).
Definition set_last_claimed_at (x : Z) (e : ValidatorEntry) : ValidatorEntry :=
  mkValidator (pk e) (stake e) (status e) x (exit_block e) (kem_pk e).

(** ** Slash evidence *)

Record SlashEvidence : Type := mkEvidence {
  ev_slot : Z;
  block_hash_1 : list Z;
  signature_1 : list Z;
  block_hash_2 : list Z;
  signature_2 : list Z;
  signer : Address;
  submitter : Address
}.

Definition need (data : list Z) (pos n : Z) : Result unit string :=
  if len data <? pos + n then Err ("evidence truncated at offset " +:+ pretty pos) else Ok tt.

Definition decode_slash_evidence (data : list Z) : Result SlashEvidence string :=
  need data 0 1 >>?
  let version := byte_at 0 data in
  if negb (version =? EVIDENCE_VERSION) then Err ("unsupported evidence version: " +:+ pretty version)
  else
    need data 1 8 >>?
    need data 9 32 >>?
    need data 41 4 >>?
    let sig1_len := le_at 41 4 data in
    need data 45 sig1_len >>?
    let p := 45 + sig1_len in
    need data p 32 >>?
    need data (p + 32) 4 >>?
    let sig2_len := le_at (Z.to_nat (p + 32)) 4 data in
    need data (p + 36) sig2_len >>?
    let q := p + 36 + sig2_len in
    need data q 32 >>?
    need data (q + 32) 32 >>?
    Ok (mkEvidence (le_at 1 8 data) (slice 9 32 data) (slice 45 (Z.to_nat sig1_len) data)
          (slice (Z.to_nat p) 32 data) (slice (Z.to_nat (p + 36)) (Z.to_nat sig2_len) data)
          (slice (Z.to_nat q) 32 data) (slice (Z.to_nat (q + 32)) 32 data)).

Definition proposer_sign_message_bytes (chain_id slot : Z) (block_hash : list Z) : list Z :=
  le_encode 8 chain_id ++ le_encode 8 slot ++ block_hash.

(** ** Gas constants *)

Definition AIRDROP_CLAIM_BASE_GAS : Z := 30000.
Definition AIRDROP_CLAIM_PER_LEVEL_GAS : Z := 5000.
Definition AIRDROP_SWEEP_GAS : Z := 40000.
Definition MULTISIG_SPEND_BASE_GAS : Z := 50000.
Definition MULTISIG_PER_SIG_GAS : Z := 50000.
Definition MULTISIG_ROTATE_BASE_GAS : Z := 60000.
Definition MULTISIG_ROTATE_PER_NEW_SIGNER_GAS : Z := 10000.
Definition EMERGENCY_BASE_GAS : Z := 40000.
Definition MAX_PAUSE_DURATION_SLOTS : Z := 6500000.

(** [base.saturating_add(per.saturating_mul(n as u64))] *)
Definition plus_per (base per : Z) (n : Z) : Z := saturating_add u64 base (saturating_mul u64 per n).

Section Handlers.
Context {P : Primitives} {St : Type} `{StateAccess St}.

(** ** Staking *)

(** The new state and the sender's balance. *)
Definition execute_stake_deposit (tx : Transaction) (sender_balance : Z) (s : St) : St * Z * TxOut :=
  if sender_balance <? VALIDATOR_STAKE then
    (s, sender_balance, failed 21000 "insufficient balance for stake deposit")
  else if len (Tx.data tx) <? 897 then
    (s, sender_balance, failed 21000 "tx.data must contain FALCON public key (897 bytes)")
  else
    let pk_bytes := take 897 (Tx.data tx) in
    if negb (bool_decide (derive_eoa_address pk_bytes = Tx.from tx)) then
      (s, sender_balance, failed 21000 "public key does not match sender address")
    else if is_some (smt_get s (validator_key (Tx.from tx))) then
      (s, sender_balance, failed 21000 "already registered as validator")
    else
      let current := read_rewards_per_validator s in
      let val_data := le_encode 4 897 ++ pk_bytes ++ le_encode 16 VALIDATOR_STAKE ++ [0x00] ++
                      le_encode 16 current in
      let s := put (validator_key (Tx.from tx)) val_data s in
      let count := default 0 (read_u64_state s validator_count_key) in
      let s := put validator_count_key (le_encode 8 (count + 1)) s in
      let s := put (validator_index_key count) (Tx.from tx) s in
      let s := increment_active_validator_count s in
      (s, sender_balance - VALIDATOR_STAKE, succeeded 50000 (Tx.from tx)).

Definition execute_stake_withdraw (tx : Transaction) (block_ctx : BlockContext) (s : St) : St * TxOut :=
  match smt_get s (validator_key (Tx.from tx)) with
  | Some val_data =>
      match entry_decode val_data with
      | Some entry =>
          if status entry =? 0x00 then
            let s := put (validator_key (Tx.from tx))
                       (entry_encode (set_status 0x01 (Some (height block_ctx)) entry)) s in
            (decrement_active_validator_count s, succeeded 50000 [])
          else (s, failed 21000 "validator is not active")
      | None => (s, failed 21000 "invalid validator entry")
      end
  | None => (s, failed 21000 "not a registered validator")
  end.

Definition execute_claim_reward (tx : Transaction) (sender_balance : Z) (s : St) : St * Z * TxOut :=
  match smt_get s (validator_key (Tx.from tx)) with
  | Some val_data =>
      match entry_decode val_data with
      | Some entry =>
          if status entry =? 0x02 then
            (s, sender_balance, failed 21000 "validator has exited; no further claims")
          else
            let current := read_rewards_per_validator s in
            let owed := saturating_sub current (last_claimed_at entry) in
            if 0 <? owed then
              (put (validator_key (Tx.from tx)) (entry_encode (set_last_claimed_at current entry)) s,
               saturating_add u128 sender_balance owed, succeeded 21000 (le_encode 16 owed))
            else (s, sender_balance, succeeded 21000 (le_encode 16 owed))
      | None => (s, sender_balance, failed 21000 "validator entry corrupt")
      end
  | None => (s, sender_balance, failed 21000 "not a registered validator")
  end.

Definition execute_slash (chain : Z) (tx : Transaction) (submitter_balance : Z) (s : St) : St * Z * TxOut :=
  let fail msg := (s, submitter_balance, failed 21000 msg) in
  match decode_slash_evidence (Tx.data tx) with
  | Err e => fail e
  | Ok ev =>
      if bool_decide (block_hash_1 ev = block_hash_2 ev) then fail "evidence blocks must differ"
      else
        match smt_get s (validator_key (signer ev)) with
        | None => fail "accused signer is not a registered validator"
        | Some val_data =>
            match entry_decode val_data with
            | None => fail "corrupt validator entry"
            | Some entry =>
                if status entry =? 0x02 then fail "signer already ejected"
                else
                  match FalconPublicKey_from_bytes (pk entry) with
                  | None => fail "validator public key is malformed"
                  | Some key =>
                      match FalconSignature_from_bytes (signature_1 ev) with
                      | None => fail "signature_1 malformed"
                      | Some sig_1 =>
                          match FalconSignature_from_bytes (signature_2 ev) with
                          | None => fail "signature_2 malformed"
                          | Some sig_2 =>
                              let msg_1 := proposer_sign_message_bytes chain (ev_slot ev) (block_hash_1 ev) in
                              let msg_2 := proposer_sign_message_bytes chain (ev_slot ev) (block_hash_2 ev) in
                              if negb (falcon_verify key msg_1 sig_1) || negb (falcon_verify key msg_2 sig_2)
                              then fail "evidence signatures failed FALCON verification"
                              else
                                let slash_amount := Z.min (stake entry) VALIDATOR_STAKE in
                                let finder_fee := slash_amount * FINDER_FEE_PERCENT / 100 in
                                let entry' := set_status 0x02 None
                                                (set_stake (saturating_sub (stake entry) slash_amount) entry) in
                                let s := put (validator_key (signer ev)) (entry_encode entry') s in
                                let s := if status entry =? 0x00 then decrement_active_validator_count s else s in
                                (s, saturating_add u128 submitter_balance finder_fee, succeeded 100000 (signer ev))
                          end
                      end
                  end
            end
        end
  end.

(** ** Airdrop *)

Definition execute_claim_airdrop (tx : Transaction) (block_ctx : BlockContext) (sender_balance : Z) (s : St) :
    St * Z * TxOut :=
  match claim_decode (Tx.data tx) with
  | None => (s, sender_balance, failed AIRDROP_CLAIM_BASE_GAS "airdrop payload malformed")
  | Some payload =>
      let gas := plus_per AIRDROP_CLAIM_BASE_GAS AIRDROP_CLAIM_PER_LEVEL_GAS (len (proof payload)) in
      let fail msg := (s, sender_balance, failed gas msg) in
      if Tx.gas_limit tx <? gas then
        (s, sender_balance, failed (Tx.gas_limit tx) "airdrop claim gas_limit below required cost")
      else
        match read_airdrop_deadline s with
        | None => fail "airdrop not configured"
        | Some deadline =>
            if deadline <? height block_ctx then fail "airdrop deadline passed"
            else
              match read_airdrop_root s with
              | None => fail "airdrop root missing"
              | Some root =>
                  if is_airdrop_claimed s (leaf_index payload) then fail "airdrop leaf already claimed"
                  else if negb (verify_proof (leaf_index payload) (Tx.from tx) (amount payload) (proof payload) root)
                  then fail "airdrop proof invalid"
                  else
                    let pool := load_account s airdrop_pool_address in
                    if balance pool <? amount payload then fail "airdrop pool insufficient"
                    else
                      match store_account (set_balance (balance pool - amount payload) pool) s with
                      | (s', Err _) => (s', sender_balance, failed gas "airdrop pool write failed")
                      | (s', Ok _) =>
                          (mark_airdrop_claimed (leaf_index payload) s',
                           saturating_add u128 sender_balance (amount payload),
                           succeeded gas (le_encode 16 (amount payload)))
                      end
              end
        end
  end.

Definition execute_sweep_airdrop (tx : Transaction) (block_ctx : BlockContext) (s : St) : St * TxOut :=
  if Tx.gas_limit tx <? AIRDROP_SWEEP_GAS then
    (s, failed (Tx.gas_limit tx) "sweep gas_limit below required cost")
  else
    match read_airdrop_deadline s with
    | None => (s, failed AIRDROP_SWEEP_GAS "airdrop not configured")
    | Some deadline =>
        if height block_ctx <=? deadline then (s, failed AIRDROP_SWEEP_GAS "airdrop still active")
        else
          let pool := load_account s airdrop_pool_address in
          let residue := balance pool in
          if residue =? 0 then (s, succeeded AIRDROP_SWEEP_GAS [])
          else
            let treasury := load_account s treasury_address in
            let treasury := set_balance (saturating_add u128 (balance treasury) residue) treasury in
            match store_account (set_balance 0 pool) s with
            | (s, Err _) => (s, failed AIRDROP_SWEEP_GAS "sweep state write failed")
            | (s, Ok _) =>
                match store_account treasury s with
                | (s, Err _) => (s, failed AIRDROP_SWEEP_GAS "sweep state write failed")
                | (s, Ok _) => (s, succeeded AIRDROP_SWEEP_GAS (le_encode 16 residue))
                end
            end
    end.

(** ** Treasury multisig *)

Definition below_threshold (what : string) (valid threshold : Z) : string :=
  what +:+ " below threshold: " +:+ pretty valid +:+ " valid of " +:+ pretty threshold +:+ " required".

(** The signature check the four governance handlers share: the signers, the
    threshold, the count.  Spend and rotate have it inline, pause and resume
    through [multisig_ok]; the text of the last error names the operation. *)
Definition multisig_check (what : string) (s : St) (sigs : list SigEntry) (signing_bytes : list Z) (gas : Z) :
    Result unit TxOut :=
  match read_multisig_signers s with
  | None => Err (failed gas "multisig not configured")
  | Some signer_pks =>
      let threshold := read_multisig_threshold s in
      if threshold =? 0 then Err (failed gas "multisig threshold = 0")
      else
        match count_valid_sigs sigs signer_pks signing_bytes with
        | Err e => Err (failed gas e)
        | Ok valid =>
            if valid <? threshold then Err (failed gas (below_threshold what valid threshold)) else Ok tt
        end
  end.

Definition multisig_ok : St -> list SigEntry -> list Z -> Z -> Result unit TxOut := multisig_check "emergency".

Definition execute_multisig_spend (tx : Transaction) (block_ctx : BlockContext) (s : St) : St * TxOut :=
  match payload_decode (Tx.data tx) with
  | None => (s, failed MULTISIG_SPEND_BASE_GAS "multisig payload malformed")
  | Some (Rotate _ _) => (s, failed MULTISIG_SPEND_BASE_GAS "wrong payload tag for MultisigTx")
  | Some (Spend spend sigs) =>
      let gas := plus_per MULTISIG_SPEND_BASE_GAS MULTISIG_PER_SIG_GAS (len sigs) in
      if Tx.gas_limit tx <? gas then
        (s, failed (Tx.gas_limit tx) "multisig gas_limit below required cost")
      else if spend_value spend =? 0 then (s, failed gas "multisig value must be > 0")
      else if bool_decide (target spend = ZERO_ADDRESS) then (s, failed gas "multisig target must not be zero")
      else if bool_decide (target spend = treasury_address) then
        (s, failed gas "multisig cannot spend to treasury itself")
      else if bool_decide (target spend = Tx.from tx) then
        (s, failed gas "multisig target must not be the submitter")
      else if negb (bool_decide (Tx.to tx = ZERO_ADDRESS)) then
        (s, failed gas "MultisigTx must set tx.to = ZERO_ADDRESS")
      else
        let nonce := read_multisig_nonce s in
        let msg := spend_signing_bytes spend nonce (chain_id block_ctx) in
        match multisig_check "multisig" s sigs msg gas with
        | Err out => (s, out)
        | Ok _ =>
            let treasury_account := load_account s treasury_address in
            if balance treasury_account <? spend_value spend then (s, failed gas "treasury balance insufficient")
            else
              let target_account := load_account s (target spend) in
              let treasury_account := set_balance (balance treasury_account - spend_value spend) treasury_account in
              let target_account :=
                set_balance (saturating_add u128 (balance target_account) (spend_value spend)) target_account in
              match store_account treasury_account s with
              | (s, Err _) => (s, failed gas "multisig state write failed")
              | (s, Ok _) =>
                  match store_account target_account s with
                  | (s, Err _) => (s, failed gas "multisig state write failed")
                  | (s, Ok _) =>
                      (write_multisig_nonce (saturating_add u64 nonce 1) s,
                       succeeded gas (le_encode 16 (spend_value spend)))
                  end
              end
        end
  end.

(** The loop over the new keys: well-formed and not seen before. *)
Fixpoint check_new_pks (seen pks : list (list Z)) : option string :=
  match pks with
  | [] => None
  | pk :: pks' =>
      if negb (is_some (FalconPublicKey_from_bytes pk)) then Some "rotate contains malformed pk"%string
      else if bool_decide (pk ∈ seen) then Some "rotate contains duplicate pk"%string
      else check_new_pks (seen ++ [pk]) pks'
  end.

Definition execute_rotate_multisig (tx : Transaction) (block_ctx : BlockContext) (s : St) : St * TxOut :=
  match payload_decode (Tx.data tx) with
  | None => (s, failed MULTISIG_ROTATE_BASE_GAS "multisig payload malformed")
  | Some (Spend _ _) => (s, failed MULTISIG_ROTATE_BASE_GAS "wrong payload tag for RotateMultisig")
  | Some (Rotate rotate sigs) =>
      let pks := new_signer_pks rotate in
      let gas := saturating_add u64
                   (plus_per MULTISIG_ROTATE_BASE_GAS MULTISIG_PER_SIG_GAS (len sigs))
                   (saturating_mul u64 MULTISIG_ROTATE_PER_NEW_SIGNER_GAS (len pks)) in
      if Tx.gas_limit tx <? gas then
        (s, failed (Tx.gas_limit tx) "multisig rotate gas_limit below required cost")
      else if (len pks =? 0) || (MAX_SIGNERS <? len pks) then (s, failed gas "rotate signer count out of range")
      else if (new_threshold rotate =? 0) || (len pks <? new_threshold rotate) then
        (s, failed gas "rotate threshold invalid")
      else
        match check_new_pks [] pks with
        | Some msg => (s, failed gas msg)
        | None =>
            let nonce := read_multisig_nonce s in
            let msg := rotate_signing_bytes rotate nonce (chain_id block_ctx) in
            match multisig_check "rotate" s sigs msg gas with
            | Err out => (s, out)
            | Ok _ =>
                (* the assertions of the encoder hold behind the checks above *)
                let s := default s (write_multisig_signers pks s) in
                let s := write_multisig_threshold (new_threshold rotate) s in
                let s := write_multisig_nonce (saturating_add u64 nonce 1) s in
                (s, succeeded gas [wrap u8 (len pks); new_threshold rotate])
            end
        end
  end.

(** ** Emergency pause *)

Definition execute_emergency_pause (tx : Transaction) (block_ctx : BlockContext) (s : St) : St * TxOut :=
  match pause_decode (Tx.data tx) with
  | None => (s, failed EMERGENCY_BASE_GAS "pause payload malformed")
  | Some payload =>
      let gas := plus_per EMERGENCY_BASE_GAS MULTISIG_PER_SIG_GAS (len (pause_sigs payload)) in
      if Tx.gas_limit tx <? gas then (s, failed (Tx.gas_limit tx) "pause gas_limit below required cost")
      else if (duration_slots payload =? 0) || (MAX_PAUSE_DURATION_SLOTS <? duration_slots payload) then
        (s, failed gas ("pause duration_slots " +:+ pretty (duration_slots payload) +:+ " outside 1..=" +:+
                        pretty MAX_PAUSE_DURATION_SLOTS))
      else if is_paused s (height block_ctx) then (s, failed gas "chain already paused")
      else
        let nonce := read_multisig_nonce s in
        let msg := pause_signing_bytes payload nonce (chain_id block_ctx) in
        match multisig_ok s (pause_sigs payload) msg gas with
        | Err out => (s, out)
        | Ok _ =>
            let end_slot := saturating_add u64 (height block_ctx) (duration_slots payload) in
            let s := write_emergency_pause_end_slot end_slot s in
            (write_multisig_nonce (saturating_add u64 nonce 1) s, succeeded gas (le_encode 8 end_slot))
        end
  end.

Definition execute_emergency_resume (tx : Transaction) (block_ctx : BlockContext) (s : St) : St * TxOut :=
  match resume_decode (Tx.data tx) with
  | None => (s, failed EMERGENCY_BASE_GAS "resume payload malformed")
  | Some payload =>
      let gas := plus_per EMERGENCY_BASE_GAS MULTISIG_PER_SIG_GAS (len (resume_sigs payload)) in
      if Tx.gas_limit tx <? gas then (s, failed (Tx.gas_limit tx) "resume gas_limit below required cost")
      else if negb (is_paused s (height block_ctx)) then (s, failed gas "chain already unpaused")
      else
        let nonce := read_multisig_nonce s in
        let msg := resume_signing_bytes nonce (chain_id block_ctx) in
        match multisig_ok s (resume_sigs payload) msg gas with
        | Err out => (s, out)
        | Ok _ =>
            let s := write_emergency_pause_end_slot 0 s in
            (write_multisig_nonce (saturating_add u64 nonce 1) s, succeeded gas [])
        end
  end.
End Handlers.
