(* ===== verification/HandlerProps.v ===== *)
(** * Properties of the special transactions

    Each handler of [Handlers] succeeds under exactly the stated conditions,
    changes nothing when it fails, and moves exactly the stated amounts when it
    succeeds; validators, airdrop leaves, multisig nonces and pauses are used
    once. *)

From stdpp Require Import base numbers list option gmap strings pretty.
From Stdlib Require Import ZArith Lia.
From S2P Require Import Prelude Crypto Wire Keys Nonce Account Economics Airdrop Multisig State Transaction.
From S2P Require Import Validation Execution Store Handlers.

#[local] Open Scope Z_scope.
#[local] Open Scope pyde_scope.

(** ** Validator entries *)

(** An exit block is recorded exactly while the validator is unbonding. *)
Record wf_entry (e : ValidatorEntry) : Prop := {
  we_pk : length (pk e) = 897%nat;
  we_stake : in_range u128 (stake e);
  we_claimed : in_range u128 (last_claimed_at e);
  we_exit : match exit_block e with Some b => status e = 1 /\ in_range u64 b | None => status e <> 1 end;
  we_kem : match kem_pk e with Some k => 0 < len k < 2 ^ 32 | None => True end
}.

(** The part of an entry in front of the optional fields. *)
Definition entry_head (key : list Z) (st claimed : Z) (x : Z) : list Z :=
  le_encode 4 897 ++ key ++ le_encode 16 x ++ [st] ++ le_encode 16 claimed.

Lemma slice_tail (o n : nat) (a b : list Z) : slice (length a + o) n (a ++ b) = slice o n b.
Proof. rewrite slice_skip by lia. f_equal. lia. Qed.

Lemma entry_decode_head (key : list Z) (st claimed x : Z) (tail : list Z) :
  length key = 897%nat -> in_range u128 x -> in_range u128 claimed ->
  entry_decode (entry_head key st claimed x ++ tail) =
    (let unbonding := (st =? 1) && (8 <=? len tail) in
     let rest := if unbonding then drop 8 tail else tail in
     let n := le_at 0 4 rest in
     Some (mkValidator key x st claimed (if unbonding then Some (le_at 0 8 tail) else None)
             (if (4 <=? len rest) && (0 <? n) && (4 + n <=? len rest)
              then Some (slice 4 (Z.to_nat n) rest) else None))).
Proof.
  intros Hk Hx Hc. set (h := entry_head key st claimed x).
  assert (length h = 934%nat) as Lh by (unfold h, entry_head; rewrite !length_app, !length_le_encode, Hk; done).
  assert (len (h ++ tail) = 934 + len tail) as Lb by (unfold len; rewrite length_app, Lh; lia).
  assert (forall o n, slice (934 + o) n (h ++ tail) = slice o n tail) as Ht by (intros; rewrite <- Lh; apply slice_tail).
  assert (le_at 0 4 (h ++ tail) = 897 /\ slice 4 897 (h ++ tail) = key /\ le_at 901 16 (h ++ tail) = x /\
          byte_at 917 (h ++ tail) = st /\ le_at 918 16 (h ++ tail) = claimed) as (E1 & E2 & E3 & E4 & E5).
  { unfold h, entry_head. rewrite <- !app_assoc. wire. rewrite !le_decode_encode by done. done. }
  unfold entry_decode, VALIDATOR_ENTRY_BASE_LEN. rewrite E1, E2, E3, E4, E5, Lb.
  pose proof (Zle_0_nat (length tail)) as L0. fold (len tail) in L0.
  change (4 + 897 + 16 + 1 + 16) with 934. rewrite Z.eqb_refl.
  destruct (Z.ltb_spec (934 + len tail) 934); [lia|]. cbn [negb orb].
  replace (942 <=? 934 + len tail) with (8 <=? len tail) by lia. cbv zeta.
  destruct ((st =? 1) && (8 <=? len tail)) eqn:U.
  - apply andb_true_iff in U as [_ U]. apply Z.leb_le in U.
    assert (len (drop 8 tail) = len tail - 8) as -> by (unfold len in *; rewrite length_drop; lia).
    assert (forall o n, slice (942 + o) n (h ++ tail) = slice o n (drop 8 tail)) as Ht2.
    { intros o n. rewrite (Ht (8 + o)%nat). unfold slice. by rewrite drop_drop. }
    unfold le_at. rewrite (Ht 0%nat 8%nat : slice 934 8 _ = _), (Ht2 0%nat 4%nat : slice 942 4 _ = _).
    change (942 + 4)%nat with 946%nat. rewrite (Ht2 4%nat : forall n, slice 946 n _ = _).
    change (Z.of_nat 942) with 942. replace (942 + 4 <=? 934 + len tail) with (4 <=? len tail - 8) by lia.
    set (n := le_decode (slice 0 4 _)). replace (942 + 4 + n <=? 934 + len tail) with (4 + n <=? len tail - 8) by lia.
    by destruct (4 <=? len tail - 8).
  - unfold le_at. rewrite (Ht 0%nat 4%nat : slice 934 4 _ = _).
    change (934 + 4)%nat with 938%nat. rewrite (Ht 4%nat : forall n, slice 938 n _ = _).
    change (Z.of_nat 934) with 934. replace (934 + 4 <=? 934 + len tail) with (4 <=? len tail) by lia.
    set (n := le_decode _). replace (934 + 4 + n <=? 934 + len tail) with (4 + n <=? len tail) by lia.
    by destruct (4 <=? len tail).
Qed.

(** A decoded entry is what was encoded. *)
Lemma entry_bytes (e : ValidatorEntry) : wf_entry e -> entry_decode (entry_encode e) = Some e.
Proof.
  intros [Hk Hs Hc He Hp]. destruct e as [key x st c eb kp]. cbn [pk stake status last_claimed_at exit_block kem_pk] in *.
  assert (entry_encode (mkValidator key x st c eb kp) = entry_head key st c x ++
            (match eb with Some b => le_encode 8 b | None => [] end ++
             le_encode 4 (match kp with Some k => len k | None => 0 end) ++ default [] kp)) as ->.
  { unfold entry_encode, entry_head, write_prefixed. cbn [pk stake status last_claimed_at exit_block kem_pk].
    unfold len at 1. rewrite Hk. by rewrite <- !app_assoc. }
  rewrite entry_decode_head by done. cbv zeta.
  set (kt := le_encode 4 _ ++ _).
  assert ((if (4 <=? len kt) && (0 <? le_at 0 4 kt) && (4 + le_at 0 4 kt <=? len kt)
           then Some (slice 4 (Z.to_nat (le_at 0 4 kt)) kt) else None) = kp) as Ek.
  { unfold kt. destruct kp as [k|].
    - change (default [] (Some k)) with k. wire. rewrite le_decode_encode by (split; [lia|apply Hp]).
      assert (len (le_encode 4 (len k) ++ k) = 4 + len k) as -> by (unfold len; rewrite length_app, length_le_encode; lia).
      destruct (Z.leb_spec 4 (4 + len k)), (Z.ltb_spec 0 (len k)), (Z.leb_spec (4 + len k) (4 + len k)); try lia.
      cbn [andb]. f_equal. apply slice_all. unfold len. lia.
    - done. }
  destruct eb as [b|].
  - destruct He as [-> Hb].
    assert ((8 <=? len (le_encode 8 b ++ kt)) = true) as ->
      by (apply Z.leb_le; unfold len; rewrite length_app, length_le_encode; lia).
    cbn [Z.eqb Pos.eqb andb]. wire. rewrite le_decode_encode by done. do 2 f_equal. exact Ek.
  - destruct (Z.eqb_spec st 1); [done|]. cbn [andb app]. do 2 f_equal. exact Ek.
Qed.

(** A fresh deposit, which ends behind the head, has no optional field. *)
Lemma deposit_bytes (key : list Z) (claimed x : Z) :
  length key = 897%nat -> in_range u128 x -> in_range u128 claimed ->
  entry_decode (entry_head key 0 claimed x) = Some (mkValidator key x 0 claimed None None).
Proof. intros. rewrite <- (app_nil_r (entry_head _ _ _ _)), entry_decode_head by done. done. Qed.

(** What decoding promises of any stored bytes; only the exit block of a
    truncated entry can be missing. *)
Lemma entry_decode_wf (b : list Z) (e : ValidatorEntry) :
  bytes_ok b -> entry_decode b = Some e ->
  length (pk e) = 897%nat /\ in_range u128 (stake e) /\ in_range u128 (last_claimed_at e) /\
  match kem_pk e with Some k => 0 < len k < 2 ^ 32 | None => True end /\
  match exit_block e with Some x => status e = 1 /\ in_range u64 x | None => True end.
Proof.
  intros Hb. unfold entry_decode, VALIDATOR_ENTRY_BASE_LEN. change (4 + 897 + 16 + 1 + 16) with 934.
  destruct (Z.ltb_spec (len b) 934); [done|].
  destruct (Z.eqb_spec (le_at 0 4 b) 897) as [->|]; [|done]. cbn [negb orb].
  change (4 + 897 + 16 + 1 + 16) with 934. destruct (Z.ltb_spec (len b) 934); [lia|].
  pose proof (fun o n => le_at_range o n b Hb) as R.
  set (t := (if (byte_at 917 b =? 1) && (942 <=? len b) then (Some (le_at 934 8 b), 942%nat) else (None, 934%nat))).
  assert (match t.1 with Some x => byte_at 917 b = 1 /\ in_range u64 x | None => True end) as Hx.
  { unfold t. destruct (Z.eqb_spec (byte_at 917 b) 1); cbn [andb]; [|done].
    destruct (942 <=? len b); [|done]. split; [done|apply R]. }
  destruct t as [eb tp]. cbn [fst] in Hx. intros [= <-]. cbn [pk stake last_claimed_at kem_pk exit_block status].
  split. { unfold slice. rewrite length_take, length_drop. unfold len in *. lia. }
  split; [apply R|]. split; [apply R|]. split; [|done].
  destruct (Z.leb_spec (Z.of_nat tp + 4) (len b)); [|done].
  destruct (Z.ltb_spec 0 (le_at tp 4 b)); [|done]. cbn [andb].
  destruct (Z.leb_spec (Z.of_nat tp + 4 + le_at tp 4 b) (len b)); [|done].
  assert (len (slice (tp + 4) (Z.to_nat (le_at tp 4 b)) b) = le_at tp 4 b) as ->.
  { unfold slice, len in *. rewrite length_take, length_drop. lia. }
  split; [done|apply R].
Qed.

Section Validators.
Context {P : Primitives} {St : Type} `{StateAccessOk St}.
Implicit Types s : St.

Definition entry_of s (v : Address) : option ValidatorEntry := smt_get s (validator_key v) ≫= entry_decode.

Definition stored_bytes_ok s (k : list Z) : Prop := match smt_get s k with Some b => bytes_ok b | None => True end.

Lemma entry_of_wf s (v : Address) (e : ValidatorEntry) :
  stored_bytes_ok s (validator_key v) -> entry_of s v = Some e -> exists b, smt_get s (validator_key v) = Some b /\
    bytes_ok b /\ entry_decode b = Some e.
Proof.
  unfold stored_bytes_ok, entry_of. destruct (smt_get s (validator_key v)) as [b|]; [|done]. cbn. eauto.
Qed.

Lemma entry_encode_nonempty (e : ValidatorEntry) : entry_encode e <> [].
Proof. intros E. apply (f_equal length) in E. unfold entry_encode, write_prefixed in E.
  rewrite !length_app, length_le_encode in E. cbn in E. lia. Qed.

Lemma entry_of_put s (v : Address) (e : ValidatorEntry) :
  wf_entry e -> entry_of (put (validator_key v) (entry_encode e) s) v = Some e.
Proof.
  intros W. unfold entry_of. rewrite get_put_eq by apply entry_encode_nonempty. cbn. by apply entry_bytes.
Qed.

Lemma entry_of_ne s (v : Address) (k b : list Z) :
  k <> validator_key v -> entry_of (put k b s) v = entry_of s v.
Proof. intros Hk. unfold entry_of. by rewrite get_put_ne. Qed.

(** ** Slashing *)

Definition ejected (e : ValidatorEntry) : ValidatorEntry :=
  set_status 2 None (set_stake (stake e - Z.min (stake e) VALIDATOR_STAKE) e).

(** Evidence that convicts: two different blocks of one slot, both signed with
    the key the state has for a validator that is not ejected. *)
Record convicts (chain : Z) (tx : Transaction) s (ev : SlashEvidence) (e : ValidatorEntry) : Prop := {
  cv_decode : decode_slash_evidence (Tx.data tx) = Ok ev;
  cv_differ : block_hash_1 ev <> block_hash_2 ev;
  cv_entry : entry_of s (signer ev) = Some e;
  cv_status : status e <> 2;
  cv_sig_1 : verifies (pk e) (proposer_sign_message_bytes chain (ev_slot ev) (block_hash_1 ev)) (signature_1 ev) = true;
  cv_sig_2 : verifies (pk e) (proposer_sign_message_bytes chain (ev_slot ev) (block_hash_2 ev)) (signature_2 ev) = true
}.

Lemma slash_cases (chain : Z) (tx : Transaction) (sb : Z) s :
  (exists msg, execute_slash chain tx sb s = (s, sb, failed 21000 msg) /\ forall ev e, ~ convicts chain tx s ev e) \/
  (exists ev e, convicts chain tx s ev e /\
    execute_slash chain tx sb s =
      (let s1 := put (validator_key (signer ev))
                   (entry_encode (set_status 2 None
                      (set_stake (saturating_sub (stake e) (Z.min (stake e) VALIDATOR_STAKE)) e))) s in
       if status e =? 0 then decrement_active_validator_count s1 else s1,
       saturating_add u128 sb (Z.min (stake e) VALIDATOR_STAKE * FINDER_FEE_PERCENT / 100),
       succeeded 100000 (signer ev))).
Proof.
  unfold execute_slash.
  destruct (decode_slash_evidence (Tx.data tx)) as [ev|msg] eqn:Ed.
  2:{ left. eexists. split; [done|]. intros ev e []. congruence. }
  assert (forall ev' e, convicts chain tx s ev' e -> ev' = ev /\ convicts chain tx s ev e) as Hev.
  { intros ev' e C. assert (ev' = ev) as ->; [|done]. destruct C. congruence. }
  case_bool_decide as Eb. { left. eexists. split; [done|]. intros ev' e [-> []]%Hev. congruence. }
  destruct (smt_get s (validator_key (signer ev))) as [b|] eqn:Es.
  2:{ left. eexists. split; [done|]. intros ev' e [-> []]%Hev. unfold entry_of in *. by rewrite Es in *. }
  destruct (entry_decode b) as [e|] eqn:Ee.
  2:{ left. eexists. split; [done|]. intros ev' e [-> []]%Hev. unfold entry_of in *. rewrite Es in *. cbn in *. congruence. }
  assert (entry_of s (signer ev) = Some e) as Een by (unfold entry_of; rewrite Es; done).
  assert (forall ev' e', convicts chain tx s ev' e' -> convicts chain tx s ev e) as Hev'.
  { intros ev' e' [-> C]%Hev. assert (e' = e) as ->; [|done]. destruct C. congruence. }
  destruct (Z.eqb_spec (status e) 2). { left. eexists. split; [done|]. by intros ev' e' []%Hev'. }
  pose proof (cv_sig_1 chain tx s ev e) as S1. pose proof (cv_sig_2 chain tx s ev e) as S2.
  assert (verifies (pk e) (proposer_sign_message_bytes chain (ev_slot ev) (block_hash_1 ev)) (signature_1 ev) = true ->
          verifies (pk e) (proposer_sign_message_bytes chain (ev_slot ev) (block_hash_2 ev)) (signature_2 ev) = true ->
          convicts chain tx s ev e) as C by by split.
  unfold verifies in *.
  destruct (FalconPublicKey_from_bytes (pk e)); [|left; eexists; split; [done|]; by intros ? ? ?%Hev'%S1].
  destruct (FalconSignature_from_bytes (signature_1 ev)); [|left; eexists; split; [done|]; by intros ? ? ?%Hev'%S1].
  destruct (FalconSignature_from_bytes (signature_2 ev)); [|left; eexists; split; [done|]; by intros ? ? ?%Hev'%S2].
  destruct (falcon_verify _ _ _); [|left; eexists; split; [done|]; by intros ? ? ?%Hev'%S1].
  destruct (falcon_verify _ _ _); [|left; eexists; split; [done|]; by intros ? ? ?%Hev'%S2].
  right. exists ev, e. split; [by apply C|done].
Qed.
Lemma ejected_wf (e : ValidatorEntry) (b : list Z) :
  bytes_ok b -> entry_decode b = Some e -> wf_entry (ejected e).
Proof.
  intros Hb E. apply entry_decode_wf in E as (? & ? & ? & ? & _); [|done].
  split; cbn; try done. unfold in_range in *. unfold VALIDATOR_STAKE. lia.
Qed.

(** [C38] Slashing is exact and happens once.  It succeeds precisely on evidence
    that convicts: a decodable report of two different blocks of the same chain
    and slot, both signed with the key the state records for the accused, who is
    not ejected yet.  Otherwise nothing changes.  A conviction takes the stake
    (up to the fixed validator stake), pays a tenth of it to the submitter, and
    leaves an ejected entry that no further evidence, on any chain id, convicts. *)
Theorem slash_exact (chain : Z) (tx : Transaction) (sb : Z) s s' (sb' : Z) (out : TxOut) :
  execute_slash chain tx sb s = (s', sb', out) ->
  (success out = true <-> exists ev e, convicts chain tx s ev e) /\
  (success out = false -> s' = s /\ sb' = sb) /\
  (forall ev e, convicts chain tx s ev e ->
     separated [KValidator (signer ev); KActiveValidatorCount] -> stored_bytes_ok s (validator_key (signer ev)) ->
     sb + VALIDATOR_STAKE < 2 ^ 128 ->
     entry_of s' (signer ev) = Some (ejected e) /\
     sb' = sb + Z.min (stake e) VALIDATOR_STAKE / 10 /\
     forall chain2 tx2 ev2 e2, signer ev2 = signer ev -> ~ convicts chain2 tx2 s' ev2 e2).
Proof.
  intros E. destruct (slash_cases chain tx sb s) as [(msg & E' & N)|(ev & e & C & E')]; rewrite E' in E;
    injection E as <- <- <-.
  { cbn. split; [split; [done|intros (ev & e & C); by destruct (N ev e)]|]. split; [done|]. intros ev e C.
    by destruct (N ev e). }
  cbn [success succeeded]. split; [split; eauto|]. split; [done|]. intros ev' e' C' Sep Sb Hb.
  assert (ev' = ev) as -> by (destruct C, C'; congruence).
  assert (e' = e) as -> by (destruct C, C'; congruence).
  destruct (entry_of_wf s (signer ev) e Sb (cv_entry _ _ _ _ _ C)) as (b & _ & Hok & Eb).
  set (s' := if status e =? 0 then _ else _).
  assert (entry_of s' (signer ev) = Some (ejected e)) as Es'.
  { transitivity (entry_of (put (validator_key (signer ev)) (entry_encode (ejected e)) s) (signer ev));
      [|by apply entry_of_put, (ejected_wf e b)].
    unfold s', ejected, saturating_sub. rewrite Z.max_r by lia. destruct (status e =? 0); [|done].
    apply entry_of_ne. apply (separated_ne _ KActiveValidatorCount (KValidator (signer ev)) Sep); set_solver. }
  split; [done|]. split.
  - apply entry_decode_wf in Eb as (_ & [Hs _] & _); [|done]. unfold saturating_add, FINDER_FEE_PERCENT.
    unfold VALIDATOR_STAKE in *. Z.to_euclidean_division_equations. lia.
  - intros chain2 tx2 ev2 e2 Hs C2. destruct C2. rewrite Hs, Es' in cv_entry0. injection cv_entry0 as <-. done.
Qed.

(** ** Deposits and rewards *)

(** A deposit that is accepted. *)
Record may_deposit (tx : Transaction) (sb : Z) s : Prop := {
  md_funds : VALIDATOR_STAKE <= sb;
  md_data : 897 <= len (Tx.data tx);
  md_key : derive_eoa_address (take 897 (Tx.data tx)) = Tx.from tx;
  md_new : smt_get s (validator_key (Tx.from tx)) = None
}.

Definition deposit_keys (a : Address) (count : Z) : list state_key :=
  [KValidator a; KValidatorCount; KValidatorIndex count; KActiveValidatorCount; KRewardsPerValidator].

Definition validator_count s : Z := default 0 (read_u64_state s validator_count_key).

Lemma deposit_cases (tx : Transaction) (sb : Z) s :
  (exists msg, execute_stake_deposit tx sb s = (s, sb, failed 21000 msg) /\ ~ may_deposit tx sb s) \/
  (may_deposit tx sb s /\ exists s',
    execute_stake_deposit tx sb s = (s', sb - VALIDATOR_STAKE, succeeded 50000 (Tx.from tx)) /\
    (separated (deposit_keys (Tx.from tx) (validator_count s)) ->
     in_range u128 (read_rewards_per_validator s) -> 0 <= validator_count s < max_of u64 ->
     entry_of s' (Tx.from tx) =
       Some (mkValidator (take 897 (Tx.data tx)) VALIDATOR_STAKE 0 (read_rewards_per_validator s) None None) /\
     smt_get s' (validator_index_key (validator_count s)) = stored (Tx.from tx) /\
     validator_count s' = validator_count s + 1 /\
     read_rewards_per_validator s' = read_rewards_per_validator s)).
Proof.
  unfold execute_stake_deposit. destruct (Z.ltb_spec sb VALIDATOR_STAKE).
  { left. eexists. split; [done|]. intros []. lia. }
  destruct (Z.ltb_spec (len (Tx.data tx)) 897). { left. eexists. split; [done|]. intros []. lia. }
  case_bool_decide as Ek. 2:{ left. eexists. split; [done|]. by intros []. }
  cbn [negb]. destruct (smt_get s (validator_key (Tx.from tx))) as [b|] eqn:En.
  { left. eexists. split; [done|]. intros []. congruence. }
  right. split; [by split|]. cbn [is_some]. eexists. split; [done|]. intros Sep Hr Hc.
  set (a := Tx.from tx) in *. set (s1 := put (validator_key a) _ s).
  assert (default 0 (read_u64_state s1 validator_count_key) = validator_count s) as Ec.
  { unfold validator_count, s1. by rewrite read_u64_ne by separate. }
  rewrite Ec. unfold increment_active_validator_count. set (n := validator_count s) in *.
  unfold deposit_keys in Sep. split_and!.
  - rewrite !entry_of_ne by separate. unfold entry_of, s1. rewrite get_put_eq by done. cbn [mbind option_bind].
    apply deposit_bytes; [|done..]. rewrite length_take. unfold len in *. lia.
  - rewrite get_put_ne by separate. by rewrite get_put, decide_True.
  - unfold validator_count at 1. rewrite !read_u64_ne, read_u64_put by first [separate|unfold in_range, max_of in *; lia].
    done.
  - unfold read_rewards_per_validator, s1. by rewrite !read_u128_ne by separate.
Qed.
Lemma claim_pays (tx : Transaction) (sb : Z) s (e : ValidatorEntry) :
  let r := read_rewards_per_validator s in
  entry_of s (Tx.from tx) = Some e -> status e <> 2 -> wf_entry e -> in_range u128 r ->
  last_claimed_at e <= r -> 0 <= sb -> sb + r < 2 ^ 128 ->
  separated [KValidator (Tx.from tx); KRewardsPerValidator] ->
  exists s', execute_claim_reward tx sb s =
    (s', sb + (r - last_claimed_at e), succeeded 21000 (le_encode 16 (r - last_claimed_at e))) /\
    entry_of s' (Tx.from tx) = Some (set_last_claimed_at r e) /\ read_rewards_per_validator s' = r /\
    (forall k, k <> validator_key (Tx.from tx) -> smt_get s' k = smt_get s k).
Proof.
  intros r Ee Hs We Hr Hl Hcb Hb Sep. pose proof We as [? ? Hc0 ? ?]. unfold in_range in Hr, Hc0.
  unfold execute_claim_reward, entry_of in *.
  destruct (smt_get s (validator_key (Tx.from tx))) as [b|] eqn:Eg; [|done]. cbn [mbind option_bind] in Ee. rewrite Ee.
  destruct (Z.eqb_spec (status e) 2); [done|]. fold r. unfold saturating_sub, saturating_add. rewrite Z.max_r by lia.
  destruct (Z.ltb_spec 0 (r - last_claimed_at e)) as [Ho|Ho].
  - eexists. split; [by rewrite Z.min_l by lia|]. split; [|split].
    + rewrite get_put_eq by apply entry_encode_nonempty. apply entry_bytes. by split.
    + unfold r, read_rewards_per_validator. by rewrite read_u128_ne by separate.
    + intros k Hk. apply get_put_ne. congruence.
  - exists s. assert (r = last_claimed_at e) as Er by lia. split; [by rewrite Er, Z.sub_diag, Z.add_0_r|].
    split; [|done]. rewrite Eg. cbn [mbind option_bind]. rewrite Ee, Er. by destruct e.
Qed.

(** A stake earns its share once.  A deposit is accepted exactly when the
    sender can pay the fixed stake, shows the key of the address and is not
    registered; it takes the stake and nothing else.  Whenever the accumulator
    has grown from [r0] at the deposit to [r] and the entry was left alone, a
    claim pays exactly [r - r0], a second claim pays nothing, and a second
    deposit is refused. *)
Theorem stake_earns_its_share (td tc : Transaction) (sb cb db : Z) s s1 s2 (sb1 : Z) (out : TxOut) :
  let a := Tx.from td in
  let r0 := read_rewards_per_validator s in let r := read_rewards_per_validator s2 in
  execute_stake_deposit td sb s = (s1, sb1, out) ->
  separated (deposit_keys a (validator_count s)) -> in_range u128 r0 -> 0 <= validator_count s < max_of u64 ->
  Tx.from tc = a -> smt_get s2 (validator_key a) = smt_get s1 (validator_key a) ->
  r0 <= r -> in_range u128 r -> 0 <= cb -> cb + r < 2 ^ 128 ->
  (success out = true <-> may_deposit td sb s) /\
  (success out = false -> s1 = s /\ sb1 = sb) /\
  (success out = true -> sb1 = sb - VALIDATOR_STAKE /\
     exists s3, execute_claim_reward tc cb s2 = (s3, cb + (r - r0), succeeded 21000 (le_encode 16 (r - r0))) /\
       execute_claim_reward tc cb s3 = (s3, cb, succeeded 21000 (le_encode 16 0)) /\
       success (execute_stake_deposit td db s3).2 = false).
Proof.
  intros a r0 r E Sep Hr0 Hn Ha Hs2 Hle Hr Hcb Hb.
  destruct (deposit_cases td sb s) as [(msg & E' & N)|(M & s' & E' & L)]; rewrite E' in E; injection E as <- <- <-;
    [by split; [split|]|].
  split; [done|]. split; [done|]. intros _. split; [done|]. destruct (L Sep Hr0 Hn) as (Ee & _). fold a in Ee.
  set (e := mkValidator _ _ _ _ _ _) in Ee.
  assert (wf_entry e) as We.
  { split; try done. cbn. rewrite length_take. destruct M. unfold len in *. lia. }
  assert (entry_of s2 (Tx.from tc) = Some e) as Ee2 by (unfold entry_of in *; by rewrite Ha, Hs2).
  assert (separated [KValidator (Tx.from tc); KRewardsPerValidator]) as Sep'.
  { rewrite Ha. eapply separated_incl; [|exact Sep]. unfold deposit_keys. set_solver. }
  destruct (claim_pays tc cb s2 e) as (s3 & E3 & Ee3 & Er3 & _); [done..|]. fold r in E3, Ee3, Er3.
  exists s3. split; [exact E3|]. split.
  - unfold execute_claim_reward. unfold entry_of in Ee3.
    destruct (smt_get s3 (validator_key (Tx.from tc))); [|done]. cbn [mbind option_bind] in Ee3. rewrite Ee3, Er3.
    cbn [status set_last_claimed_at last_claimed_at]. unfold saturating_sub. by rewrite Z.sub_diag.
  - destruct (deposit_cases td db s3) as [(msg & -> & _)|([] & _)]; [done|].
    rewrite Ha in Ee3. unfold entry_of in Ee3. fold a in md_new0. by rewrite md_new0 in Ee3.
Qed.
End Validators.

(** ** Witnesses *)

Definition staked_world : MapState :=
  put (validator_key bob) (entry_encode (mkValidator (replicate 897 0) VALIDATOR_STAKE 0 5 None None)) PydeSMT_new.

(** Two signed blocks of slot 0, as the toy signature scheme signs them. *)
Definition double_sign : SlashEvidence :=
  mkEvidence 0 (replicate 32 0) (replicate 666 0) (replicate 32 1) (replicate 16 0 ++ replicate 32 1 ++ replicate 618 0)
    bob alice.

Definition evidence_encode (ev : SlashEvidence) : list Z :=
  [EVIDENCE_VERSION] ++ le_encode 8 (ev_slot ev) ++ block_hash_1 ev ++ write_prefixed 4 (signature_1 ev) ++
  block_hash_2 ev ++ write_prefixed 4 (signature_2 ev) ++ signer ev ++ submitter ev.

Definition special_tx (t : TransactionType) (data : list Z) : Transaction :=
  Tx.mkTx alice ZERO_ADDRESS 0 data 200000 0 [] Sender [] None DEVNET t.

Lemma slash_exact_witness :
  let r := execute_slash 0 (special_tx Slash (evidence_encode double_sign)) 50 staked_world in
  success r.2 = true /\ r.1.2 = 50 + 1000000000000 /\
  entry_of r.1.1 bob = Some (mkValidator (replicate 897 0) 0 2 5 None None).
Proof.
  intros r.
  assert (convicts 0 (special_tx Slash (evidence_encode double_sign)) staked_world double_sign
            (mkValidator (replicate 897 0) VALIDATOR_STAKE 0 5 None None)) as C.
  { split; try discriminate; vm_compute; reflexivity. }
  destruct (slash_exact 0 (special_tx Slash (evidence_encode double_sign)) 50 staked_world r.1.1 r.1.2 r.2)
    as (S & _ & T).
  - unfold r. destruct (execute_slash _ _ _ _) as [[? ?] ?]. reflexivity.
  - split; [apply S; eauto|].
    destruct (T _ _ C) as (E & Eb & _).
    + apply separatedb_ok. vm_compute. reflexivity.
    + unfold stored_bytes_ok.
      assert (exists b, smt_get staked_world (validator_key (signer double_sign)) = Some b /\ bytes_okb b = true)
        as (b & -> & F) by (eexists; split; vm_compute; reflexivity).
      by apply bytes_okb_ok.
    + reflexivity.
    + split; [exact Eb|exact E].
Defined.

Definition deposit_tx : Transaction :=
  let data := replicate 897 0 in
  Tx.mkTx (derive_eoa_address data) ZERO_ADDRESS 0 data 200000 0 [] Sender [] None DEVNET StakeDeposit.

Lemma stake_earns_its_share_witness :
  let s := write_rewards_per_validator 5 (PydeSMT_new : MapState) in
  let d := execute_stake_deposit deposit_tx (VALIDATOR_STAKE + 3) s in
  let s2 := write_rewards_per_validator 9 d.1.1 in
  success d.2 = true /\ d.1.2 = VALIDATOR_STAKE + 3 - VALIDATOR_STAKE /\
  exists s3, execute_claim_reward deposit_tx 100 s2 = (s3, 100 + (9 - 5), succeeded 21000 (le_encode 16 (9 - 5))) /\
    execute_claim_reward deposit_tx 100 s3 = (s3, 100, succeeded 21000 (le_encode 16 0)) /\
    success (execute_stake_deposit deposit_tx 0 s3).2 = false.
Proof.
  intros s d s2.
  assert (success d.2 = true) as Sd by (vm_compute; reflexivity).
  assert (read_rewards_per_validator s = 5) as R0 by (vm_compute; reflexivity).
  assert (read_rewards_per_validator s2 = 9) as R by (vm_compute; reflexivity).
  assert (validator_count s = 0) as C0 by (vm_compute; reflexivity).
  split; [exact Sd|]. rewrite <- R, <- R0.
  apply (stake_earns_its_share deposit_tx deposit_tx (VALIDATOR_STAKE + 3) 100 0 s d.1.1 s2 d.1.2 d.2);
    rewrite ?R, ?R0, ?C0.
  - unfold d. destruct (execute_stake_deposit _ _ _) as [[? ?] ?]. reflexivity.
  - apply separatedb_ok. vm_compute. reflexivity.
  - split; [discriminate|reflexivity].
  - split; [discriminate|reflexivity].
  - reflexivity.
  - vm_compute. reflexivity.
  - discriminate.
  - split; [discriminate|reflexivity].
  - discriminate.
  - reflexivity.
  - exact Sd.
Defined.
