(* ===== verification/GovernanceProps.v ===== *)
(** * Properties of airdrop, multisig and pause

    The handlers of [Handlers] that move the money of the protocol's own
    accounts or stop the chain: success under exactly the stated conditions,
    exact amounts, no effect on failure. *)

From stdpp Require Import base numbers list option gmap strings pretty.
From Stdlib Require Import ZArith Lia.
From S2P Require Import Prelude Crypto Wire Keys Nonce Account Economics Airdrop Multisig State Transaction.
From S2P Require Import Validation Execution Store Handlers.

#[local] Open Scope Z_scope.
#[local] Open Scope pyde_scope.

Section Governance.
Context {P : Primitives} {St : Type} `{StateAccessOk St}.
Implicit Types s : St.

(** A refused handler: its message, its gas, and the reason. *)
Ltac refused := left; eexists _, _; split; [done|].

(** ** Airdrop *)

Record claimable (tx : Transaction) (ctx : BlockContext) s (p : ClaimPayload) : Prop := {
  ca_decode : claim_decode (Tx.data tx) = Some p;
  ca_gas : plus_per AIRDROP_CLAIM_BASE_GAS AIRDROP_CLAIM_PER_LEVEL_GAS (len (proof p)) <= Tx.gas_limit tx;
  ca_open : exists d, read_airdrop_deadline s = Some d /\ height ctx <= d;
  ca_proof : exists root, read_airdrop_root s = Some root /\
    verify_proof (leaf_index p) (Tx.from tx) (amount p) (proof p) root = true;
  ca_unclaimed : is_airdrop_claimed s (leaf_index p) = false;
  ca_funds : amount p <= balance (load_account s airdrop_pool_address)
}.

Lemma claim_cases (tx : Transaction) (ctx : BlockContext) (sb : Z) s :
  (exists gas msg, execute_claim_airdrop tx ctx sb s = (s, sb, failed gas msg) /\ forall p, ~ claimable tx ctx s p) \/
  (exists p gas, claimable tx ctx s p /\
    let pool := load_account s airdrop_pool_address in
    execute_claim_airdrop tx ctx sb s =
      (mark_airdrop_claimed (leaf_index p) (store_account (set_balance (balance pool - amount p) pool) s).1,
       saturating_add u128 sb (amount p), succeeded gas (le_encode 16 (amount p)))).
Proof.
  unfold execute_claim_airdrop. destruct (claim_decode (Tx.data tx)) as [p|] eqn:Ed.
  2:{ refused. intros p []. congruence. }
  assert (forall p', claimable tx ctx s p' -> claimable tx ctx s p) as Hp.
  { intros p' C. assert (p' = p) as ->; [|done]. destruct C. congruence. }
  destruct (Z.ltb_spec (Tx.gas_limit tx) (plus_per AIRDROP_CLAIM_BASE_GAS AIRDROP_CLAIM_PER_LEVEL_GAS (len (proof p)))).
  { refused. intros p' []%Hp. lia. }
  destruct (read_airdrop_deadline s) as [d|] eqn:Edl; [|refused; intros p' [? ? (? & ? & _)]%Hp; congruence].
  destruct (Z.ltb_spec d (height ctx)).
  { refused. intros p' [? ? (d' & ? & ?)]%Hp. assert (d' = d) by congruence. lia. }
  destruct (read_airdrop_root s) as [root|] eqn:Er; [|refused; intros p' [? ? ? (? & ? & _)]%Hp; congruence].
  destruct (is_airdrop_claimed s (leaf_index p)) eqn:Ec; [refused; intros p' []%Hp; congruence|].
  destruct (verify_proof _ _ _ _ _) eqn:Ev; cbn [negb];
    [|refused; intros p' [? ? ? (r & ? & ?)]%Hp; assert (r = root) by congruence; congruence].
  destruct (Z.ltb_spec (balance (load_account s airdrop_pool_address)) (amount p)); [refused; intros p' []%Hp; lia|].
  right. exists p. eexists. split; [by split; eauto|]. cbv zeta. by rewrite store_account_put.
Qed.

(** An airdrop leaf is paid once, from the pool.  A claim succeeds exactly
    when it decodes, brings the gas, is in time, proves its leaf against the
    stored root, and the leaf is unclaimed and covered; otherwise nothing
    changes.  A success moves the amount from pool to claimant and marks the
    leaf, whereupon no claim of that leaf, by anyone at any height, succeeds. *)
Theorem airdrop_claim_exact (tx : Transaction) (ctx : BlockContext) (sb : Z) s s' (sb' : Z) (out : TxOut) :
  execute_claim_airdrop tx ctx sb s = (s', sb', out) ->
  (success out = true <-> exists p, claimable tx ctx s p) /\
  (success out = false -> s' = s /\ sb' = sb) /\
  (forall p, claimable tx ctx s p ->
     let pool := airdrop_pool_address in
     separated [KBalance pool; KAirdropClaimed (leaf_index p)] -> good_account s pool ->
     0 <= sb -> 0 <= amount p -> sb + amount p < 2 ^ 128 ->
     balance (load_account s' pool) + sb' = balance (load_account s pool) + sb /\ sb' = sb + amount p /\
     (forall k, k <> balance_key pool -> k <> airdrop_claimed_key (leaf_index p) -> smt_get s' k = smt_get s k) /\
     forall tx2 ctx2 p2, leaf_index p2 = leaf_index p -> ~ claimable tx2 ctx2 s' p2).
Proof.
  intros E. destruct (claim_cases tx ctx sb s) as [(gas & msg & E' & N)|(p & gas & C & E')]; rewrite E' in E;
    injection E as <- <- <-.
  { cbn. split; [split; [done|intros (p & C); by destruct (N p)]|]. split; [done|]. intros p C. by destruct (N p). }
  cbn [success succeeded]. split; [split; eauto|]. split; [done|]. intros p' C' Sep [Wp Ap] H1 H2 H3. set (pool := airdrop_pool_address) in *.
  assert (p' = p) as -> by (destruct C, C'; congruence). fold pool.
  rewrite store_account_put. cbn [fst address set_balance]. fold pool in Ap. rewrite Ap. unfold mark_airdrop_claimed.
  assert (wf_account (set_balance (balance (load_account s pool) - amount p) (load_account s pool))) as W'.
  { apply set_balance_wf; [|done]. pose proof (ca_funds _ _ _ _ C). fold pool in H4. destruct Wp.
    unfold in_range in *. lia. }
  rewrite load_account_put by separate.
  rewrite load_account_put_at by done.
  cbn [balance set_balance]. unfold saturating_add. rewrite Z.min_l by lia. split_and!; [lia|lia| |].
  - intros k Hk1 Hk2. by rewrite !get_put_ne by congruence.
  - intros tx2 ctx2 p2 Ei []. unfold is_airdrop_claimed in *. rewrite Ei, get_put_eq in ca_unclaimed0; done.
Qed.

(** ** Quorum *)

(** Enough different signers of the stored set signed [msg]. *)
Definition quorum s (sigs : list SigEntry) (msg : list Z) : Prop :=
  exists pks v, read_multisig_signers s = Some pks /\ read_multisig_threshold s <> 0 /\
    count_valid_sigs sigs pks msg = Ok v /\ read_multisig_threshold s <= v.

Lemma multisig_check_Ok (what : string) s (sigs : list SigEntry) (msg : list Z) (gas : Z) :
  (multisig_check what s sigs msg gas = Ok tt /\ quorum s sigs msg) \/
  (exists m, multisig_check what s sigs msg gas = Err (failed gas m) /\ ~ quorum s sigs msg).
Proof.
  unfold multisig_check, quorum.
  destruct (read_multisig_signers s) as [pks|]; [|right; eexists; split; [done|by intros (? & ? & ? & _)]].
  destruct (Z.eqb_spec (read_multisig_threshold s) 0); [right; eexists; split; [done|by intros (? & ? & _ & ? & _)]|].
  destruct (count_valid_sigs sigs pks msg) as [v|m] eqn:Ec.
  2:{ right. eexists. split; [done|]. intros (? & ? & [= <-] & _ & ? & _). congruence. }
  destruct (Z.ltb_spec v (read_multisig_threshold s)).
  - right. eexists. split; [done|]. intros (pks' & v' & [= <-] & _ & Ev & ?). assert (v' = v) by congruence. lia.
  - left. split; [done|]. by exists pks, v.
Qed.

(** ** Treasury spends *)

Record authorised_spend (tx : Transaction) (ctx : BlockContext) s (sp : MultisigSpend) (sigs : list SigEntry) : Prop := {
  as_decode : payload_decode (Tx.data tx) = Some (Spend sp sigs);
  as_gas : plus_per MULTISIG_SPEND_BASE_GAS MULTISIG_PER_SIG_GAS (len sigs) <= Tx.gas_limit tx;
  as_value : spend_value sp <> 0;
  as_target : target sp <> ZERO_ADDRESS /\ target sp <> treasury_address /\ target sp <> Tx.from tx;
  as_to : Tx.to tx = ZERO_ADDRESS;
  as_quorum : quorum s sigs (spend_signing_bytes sp (read_multisig_nonce s) (chain_id ctx));
  as_funds : spend_value sp <= balance (load_account s treasury_address)
}.

Lemma spend_cases (tx : Transaction) (ctx : BlockContext) s :
  (exists gas msg, execute_multisig_spend tx ctx s = (s, failed gas msg) /\
     forall sp sigs, ~ authorised_spend tx ctx s sp sigs) \/
  (exists sp sigs gas, authorised_spend tx ctx s sp sigs /\
    let t := load_account s treasury_address in let a := load_account s (target sp) in
    let t' := set_balance (balance t - spend_value sp) t in
    let a' := set_balance (saturating_add u128 (balance a) (spend_value sp)) a in
    execute_multisig_spend tx ctx s =
      (write_multisig_nonce (saturating_add u64 (read_multisig_nonce s) 1)
         (put (balance_key (address a)) (Account_to_bytes a') (put (balance_key (address t)) (Account_to_bytes t') s)),
       succeeded gas (le_encode 16 (spend_value sp)))).
Proof.
  unfold execute_multisig_spend. destruct (payload_decode (Tx.data tx)) as [[sp sigs|r sigs]|] eqn:Ed.
  2,3: refused; intros ? ? []; congruence.
  assert (forall sp' sigs', authorised_spend tx ctx s sp' sigs' -> authorised_spend tx ctx s sp sigs) as Hp.
  { intros sp' sigs' C. assert (sp' = sp /\ sigs' = sigs) as [-> ->]; [|done]. destruct C. split; congruence. }
  destruct (Z.ltb_spec (Tx.gas_limit tx) (plus_per MULTISIG_SPEND_BASE_GAS MULTISIG_PER_SIG_GAS (len sigs)));
    [refused; intros ? ? []%Hp; lia|].
  destruct (Z.eqb_spec (spend_value sp) 0); [refused; by intros ? ? []%Hp|].
  case_bool_decide; [refused; by intros ? ? [? ? ? (? & ? & ?)]%Hp|].
  case_bool_decide; [refused; by intros ? ? [? ? ? (? & ? & ?)]%Hp|].
  case_bool_decide; [refused; by intros ? ? [? ? ? (? & ? & ?)]%Hp|].
  case_bool_decide; cbn [negb]; [|refused; by intros ? ? []%Hp].
  destruct (multisig_check_Ok "multisig" s sigs (spend_signing_bytes sp (read_multisig_nonce s) (chain_id ctx))
              (plus_per MULTISIG_SPEND_BASE_GAS MULTISIG_PER_SIG_GAS (len sigs))) as [[-> Q]|(m & -> & N)];
    [|refused; by intros ? ? []%Hp].
  destruct (Z.ltb_spec (balance (load_account s treasury_address)) (spend_value sp)); [refused; intros ? ? []%Hp; lia|].
  right. exists sp, sigs. eexists. split; [by split|]. cbv zeta. by rewrite !store_account_put.
Qed.

(** A treasury spend is authorised, exact and ordered.  It succeeds exactly
    when the payload is a spend of a positive amount to a third party, carries
    the gas, is covered by the treasury, and a quorum of the stored signers
    signed it for the current multisig nonce on this chain; otherwise nothing
    changes.  A success moves the amount from treasury to target, advances the
    nonce by one, and touches no other record. *)
Theorem multisig_spend_exact (tx : Transaction) (ctx : BlockContext) s s' (out : TxOut) :
  execute_multisig_spend tx ctx s = (s', out) ->
  (success out = true <-> exists sp sigs, authorised_spend tx ctx s sp sigs) /\
  (success out = false -> s' = s) /\
  (forall sp sigs, authorised_spend tx ctx s sp sigs ->
     let t := treasury_address in let a := target sp in
     separated [KBalance t; KBalance a; KMultisigNonce] -> good_accounts s [t; a] ->
     0 <= spend_value sp -> balance (load_account s a) + spend_value sp < 2 ^ 128 ->
     0 <= read_multisig_nonce s < max_of u64 ->
     load_account s' t = set_balance (balance (load_account s t) - spend_value sp) (load_account s t) /\
     load_account s' a = set_balance (balance (load_account s a) + spend_value sp) (load_account s a) /\
     read_multisig_nonce s' = read_multisig_nonce s + 1 /\
     forall k, k ∉ key_of <$> [KBalance t; KBalance a; KMultisigNonce] -> smt_get s' k = smt_get s k).
Proof.
  intros E. destruct (spend_cases tx ctx s) as [(gas & msg & E' & N)|(sp & sigs & gas & C & E')]; rewrite E' in E;
    injection E as <- <-.
  { split; [split; [done|intros (sp & sigs & C); by destruct (N sp sigs)]|]. split; [done|].
    intros sp sigs C. by destruct (N sp sigs). }
  split; [split; eauto|]. split; [done|]. intros sp' sigs' C' t a Sep G Hv Hb Hn.
  assert (sp' = sp) as -> by (destruct C, C'; congruence). fold t a.
  assert (good_account s t /\ good_account s a) as [[Wt At] [Wa Aa]].
  { unfold good_accounts in G. rewrite !Forall_cons in G. tauto. }
  destruct C as [_ _ _ (_ & Hta & _) _ _ Hf]. fold t in Hf, Hta. fold a in Hta.
  rewrite At, Aa. unfold saturating_add. rewrite !Z.min_l by (unfold max_of in *; lia).
  assert (in_range u128 (balance (load_account s t) - spend_value sp)) by (destruct Wt; unfold in_range in *; lia).
  assert (in_range u128 (balance (load_account s a) + spend_value sp)) by (destruct Wa; unfold in_range in *; lia).
  set (t' := set_balance _ (load_account s t)). set (a' := set_balance _ (load_account s a)).
  assert (wf_account t') as Wt' by by apply set_balance_wf. assert (wf_account a') as Wa' by by apply set_balance_wf.
  unfold write_multisig_nonce. split_and!.
  - rewrite !load_account_put by separate. by apply load_account_put_at.
  - rewrite load_account_put by separate. by apply load_account_put_at.
  - unfold read_multisig_nonce at 1. rewrite read_u64_put; [done|]. unfold in_range, max_of in *. lia.
  - intros k Hk. cbn in Hk. by rewrite !get_put_ne by set_solver.
Qed.

(** ** Rotation *)

(** A signer set that can act: distinct keys of the right size, and a threshold
    they can reach. *)
Record can_act s : Prop := {
  cn_signers : exists pks, read_multisig_signers s = Some pks /\ NoDup pks /\
    Forall (fun key => is_some (FalconPublicKey_from_bytes key) = true) pks /\
    1 <= read_multisig_threshold s <= len pks /\ len pks <= MAX_SIGNERS
}.

Record authorised_rotate (tx : Transaction) (ctx : BlockContext) s (r : MultisigRotate) (sigs : list SigEntry) : Prop := {
  ar_decode : payload_decode (Tx.data tx) = Some (Rotate r sigs);
  ar_gas : saturating_add u64 (plus_per MULTISIG_ROTATE_BASE_GAS MULTISIG_PER_SIG_GAS (len sigs))
             (saturating_mul u64 MULTISIG_ROTATE_PER_NEW_SIGNER_GAS (len (new_signer_pks r))) <= Tx.gas_limit tx;
  ar_count : len (new_signer_pks r) <> 0 /\ len (new_signer_pks r) <= MAX_SIGNERS;
  ar_threshold : new_threshold r <> 0 /\ new_threshold r <= len (new_signer_pks r);
  ar_keys : Forall (fun key => is_some (FalconPublicKey_from_bytes key) = true) (new_signer_pks r) /\
    NoDup (new_signer_pks r);
  ar_quorum : quorum s sigs (rotate_signing_bytes r (read_multisig_nonce s) (chain_id ctx))
}.

Lemma check_new_pks_None (seen pks : list (list Z)) :
  check_new_pks seen pks = None <->
  Forall (fun key => is_some (FalconPublicKey_from_bytes key) = true) pks /\ NoDup pks /\ (forall x, x ∈ pks -> x ∉ seen).
Proof.
  revert seen. induction pks as [|key pks IH]; intros seen; cbn [check_new_pks].
  { split; [|done]. intros _. split_and!; [constructor..|set_solver]. }
  rewrite Forall_cons, NoDup_cons. destruct (is_some (FalconPublicKey_from_bytes key)); cbn [negb]; [|by split; [|intros [[]]]].
  case_bool_decide as Hs; [split; [done|]; intros (_ & _ & N); exfalso; by apply (N key); [left|]|].
  rewrite IH. split; [|set_solver]. intros (F & N & S). split_and!; try done; [|set_solver].
  intros Hk. apply (S key Hk). set_solver.
Qed.

Lemma rotate_cases (tx : Transaction) (ctx : BlockContext) s :
  (exists gas msg, execute_rotate_multisig tx ctx s = (s, failed gas msg) /\
     forall r sigs, ~ authorised_rotate tx ctx s r sigs) \/
  (exists r sigs gas, authorised_rotate tx ctx s r sigs /\
    execute_rotate_multisig tx ctx s =
      (write_multisig_nonce (saturating_add u64 (read_multisig_nonce s) 1)
         (write_multisig_threshold (new_threshold r) (default s (write_multisig_signers (new_signer_pks r) s))),
       succeeded gas [wrap u8 (len (new_signer_pks r)); new_threshold r])).
Proof.
  unfold execute_rotate_multisig. destruct (payload_decode (Tx.data tx)) as [[sp sigs|r sigs]|] eqn:Ed.
  1,3: refused; intros ? ? []; congruence.
  assert (forall r' sigs', authorised_rotate tx ctx s r' sigs' -> authorised_rotate tx ctx s r sigs) as Hp.
  { intros r' sigs' C. assert (r' = r /\ sigs' = sigs) as [-> ->]; [|done]. destruct C. split; congruence. }
  set (gas := saturating_add _ _ _). destruct (Z.ltb_spec (Tx.gas_limit tx) gas); [refused; intros ? ? []%Hp; unfold gas in *; lia|].
  destruct (Z.eqb_spec (len (new_signer_pks r)) 0), (Z.ltb_spec MAX_SIGNERS (len (new_signer_pks r)));
    cbn [orb]; try (refused; intros ? ? [? ? []]%Hp; lia).
  destruct (Z.eqb_spec (new_threshold r) 0), (Z.ltb_spec (len (new_signer_pks r)) (new_threshold r));
    cbn [orb]; try (refused; intros ? ? [? ? ? []]%Hp; lia).
  destruct (check_new_pks [] (new_signer_pks r)) as [m|] eqn:Ec.
  { refused. intros ? ? [? ? ? ? []]%Hp. assert (check_new_pks [] (new_signer_pks r) = None); [|congruence].
    apply check_new_pks_None. split_and!; [done..|set_solver]. }
  apply check_new_pks_None in Ec as (? & ? & _).
  destruct (multisig_check_Ok "rotate" s sigs (rotate_signing_bytes r (read_multisig_nonce s) (chain_id ctx)) gas)
    as [[-> Q]|(m & -> & N)]; [|refused; by intros ? ? []%Hp].
  right. exists r, sigs, gas. split; [by split|done].
Qed.

(** A rotation needs a quorum of the old signers and leaves a set that can
    act.  It succeeds exactly when the payload is a well-formed rotation signed
    by a quorum for the current nonce, and otherwise changes nothing.  A success
    installs exactly the new keys and threshold: one to sixteen distinct keys of
    the right size whose number reaches the threshold. *)
Theorem rotation_keeps_quorum_reachable (tx : Transaction) (ctx : BlockContext) s s' (out : TxOut) :
  execute_rotate_multisig tx ctx s = (s', out) ->
  (success out = true <-> exists r sigs, authorised_rotate tx ctx s r sigs) /\
  (success out = false -> s' = s) /\
  (forall r sigs, authorised_rotate tx ctx s r sigs ->
     separated [KMultisigSigners; KMultisigThreshold; KMultisigNonce] ->
     0 <= new_threshold r -> 0 <= read_multisig_nonce s < max_of u64 ->
     can_act s' /\ read_multisig_signers s' = Some (new_signer_pks r) /\
     read_multisig_threshold s' = new_threshold r /\ read_multisig_nonce s' = read_multisig_nonce s + 1).
Proof.
  intros E. destruct (rotate_cases tx ctx s) as [(gas & msg & E' & N)|(r & sigs & gas & C & E')]; rewrite E' in E;
    injection E as <- <-.
  { split; [split; [done|intros (r & sigs & C); by destruct (N r sigs)]|]. split; [done|].
    intros r sigs C. by destruct (N r sigs). }
  split; [split; eauto|]. split; [done|]. intros r' sigs' C' Sep Ht Hn.
  assert (r' = r) as -> by (destruct C, C'; congruence). destruct C as [_ _ [Hc0 Hc] [Ht0 Hte] [Hk Hd] _].
  set (s' := write_multisig_nonce _ _).
  assert (wf_pks (new_signer_pks r)) as W.
  { split; [unfold len in *; lia|]. eapply Forall_impl; [exact Hk|]. intros key. unfold FalconPublicKey_from_bytes.
    destruct (Z.eqb_spec (len key) FalconPublicKey_SIZE) as [L|]; [|done]. unfold len, FalconPublicKey_SIZE in L. lia. }
  destruct (signer_set_codec (new_signer_pks r) W) as (b & Eb & Db).
  assert (read_multisig_signers s' = Some (new_signer_pks r)) as E1.
  { unfold s', write_multisig_nonce, write_multisig_threshold, write_multisig_signers, read_multisig_signers.
    rewrite Eb. cbn [mbind option_bind default from_option id].
    rewrite !get_put_ne by separate. rewrite get_put_eq; [done|]. by intros ->. }
  assert (read_multisig_threshold s' = new_threshold r) as E2.
  { unfold s', write_multisig_nonce, write_multisig_threshold, read_multisig_threshold.
    rewrite get_put_ne by separate. by rewrite get_put_eq. }
  split_and!; [|done|done|].
  - split. exists (new_signer_pks r). rewrite E1, E2. split_and!; try done. lia.
  - unfold s', write_multisig_nonce, read_multisig_nonce at 1. unfold saturating_add.
    rewrite Z.min_l by (unfold max_of in *; lia). rewrite read_u64_put; [done|]. unfold in_range, max_of in *. lia.
Qed.

(** ** Pause and resume *)

Record authorised_pause (tx : Transaction) (ctx : BlockContext) s (p : EmergencyPausePayload) : Prop := {
  ap_decode : pause_decode (Tx.data tx) = Some p;
  ap_gas : plus_per EMERGENCY_BASE_GAS MULTISIG_PER_SIG_GAS (len (pause_sigs p)) <= Tx.gas_limit tx;
  ap_duration : duration_slots p <> 0 /\ duration_slots p <= MAX_PAUSE_DURATION_SLOTS;
  ap_running : is_paused s (height ctx) = false;
  ap_quorum : quorum s (pause_sigs p) (pause_signing_bytes p (read_multisig_nonce s) (chain_id ctx))
}.

Record authorised_resume (tx : Transaction) (ctx : BlockContext) s (p : EmergencyResumePayload) : Prop := {
  au_decode : resume_decode (Tx.data tx) = Some p;
  au_gas : plus_per EMERGENCY_BASE_GAS MULTISIG_PER_SIG_GAS (len (resume_sigs p)) <= Tx.gas_limit tx;
  au_paused : is_paused s (height ctx) = true;
  au_quorum : quorum s (resume_sigs p) (resume_signing_bytes (read_multisig_nonce s) (chain_id ctx))
}.

Lemma pause_cases (tx : Transaction) (ctx : BlockContext) s :
  (exists gas msg, execute_emergency_pause tx ctx s = (s, failed gas msg) /\ forall p, ~ authorised_pause tx ctx s p) \/
  (exists p gas, authorised_pause tx ctx s p /\
    let e := saturating_add u64 (height ctx) (duration_slots p) in
    execute_emergency_pause tx ctx s =
      (write_multisig_nonce (saturating_add u64 (read_multisig_nonce s) 1) (write_emergency_pause_end_slot e s),
       succeeded gas (le_encode 8 e))).
Proof.
  unfold execute_emergency_pause. destruct (pause_decode (Tx.data tx)) as [p|] eqn:Ed; [|refused; intros ? []; congruence].
  assert (forall p', authorised_pause tx ctx s p' -> authorised_pause tx ctx s p) as Hp.
  { intros p' C. assert (p' = p) as ->; [|done]. destruct C. congruence. }
  set (gas := plus_per _ _ _). destruct (Z.ltb_spec (Tx.gas_limit tx) gas); [refused; intros ? []%Hp; unfold gas in *; lia|].
  destruct (Z.eqb_spec (duration_slots p) 0), (Z.ltb_spec MAX_PAUSE_DURATION_SLOTS (duration_slots p));
    cbn [orb]; try (refused; intros ? [? ? []]%Hp; lia).
  destruct (is_paused s (height ctx)) eqn:Ep; [refused; intros ? []%Hp; congruence|]. unfold multisig_ok.
  destruct (multisig_check_Ok "emergency" s (pause_sigs p) (pause_signing_bytes p (read_multisig_nonce s) (chain_id ctx)) gas)
    as [[-> Q]|(m & -> & N)]; [|refused; by intros ? []%Hp].
  right. exists p, gas. split; [by split|done].
Qed.

Lemma resume_cases (tx : Transaction) (ctx : BlockContext) s :
  (exists gas msg, execute_emergency_resume tx ctx s = (s, failed gas msg) /\ forall p, ~ authorised_resume tx ctx s p) \/
  (exists p gas, authorised_resume tx ctx s p /\
    execute_emergency_resume tx ctx s =
      (write_multisig_nonce (saturating_add u64 (read_multisig_nonce s) 1) (write_emergency_pause_end_slot 0 s),
       succeeded gas [])).
Proof.
  unfold execute_emergency_resume. destruct (resume_decode (Tx.data tx)) as [p|] eqn:Ed; [|refused; intros ? []; congruence].
  assert (forall p', authorised_resume tx ctx s p' -> authorised_resume tx ctx s p) as Hp.
  { intros p' C. assert (p' = p) as ->; [|done]. destruct C. congruence. }
  set (gas := plus_per _ _ _). destruct (Z.ltb_spec (Tx.gas_limit tx) gas); [refused; intros ? []%Hp; unfold gas in *; lia|].
  destruct (is_paused s (height ctx)) eqn:Ep; cbn [negb]; [|refused; intros ? []%Hp; congruence]. unfold multisig_ok.
  destruct (multisig_check_Ok "emergency" s (resume_sigs p) (resume_signing_bytes (read_multisig_nonce s) (chain_id ctx)) gas)
    as [[-> Q]|(m & -> & N)]; [|refused; by intros ? []%Hp].
  right. exists p, gas. split; [by split|done].
Qed.

Lemma paused_until s (e n h : Z) :
  separated [KPauseEndSlot; KMultisigNonce] -> in_range u64 e ->
  is_paused (write_multisig_nonce n (write_emergency_pause_end_slot e s)) h = (h <? e).
Proof.
  intros Sep He. unfold is_paused, read_emergency_pause_end_slot, write_multisig_nonce, write_emergency_pause_end_slot.
  rewrite read_u64_ne by separate. by rewrite read_u64_put.
Qed.

(** A pause is a quorum decision, ends by itself and can be ended early.
    A pause succeeds exactly when a quorum signed a duration of at most
    [MAX_PAUSE_DURATION_SLOTS] and the chain is running, and a resume exactly
    when a quorum signed it and the chain is paused; otherwise nothing changes.
    After a pause at height [h] for [d] slots the chain is paused precisely in
    the slots below [h + d]; after a resume it is paused in none. *)
Theorem pause_is_bounded (tx : Transaction) (ctx : BlockContext) s :
  separated [KPauseEndSlot; KMultisigNonce] -> 0 <= height ctx -> height ctx + MAX_PAUSE_DURATION_SLOTS < 2 ^ 64 ->
  let pause := execute_emergency_pause tx ctx s in
  let resume := execute_emergency_resume tx ctx s in
  ((success pause.2 = true <-> exists p, authorised_pause tx ctx s p) /\
   (success pause.2 = false -> pause.1 = s) /\
   (forall p, authorised_pause tx ctx s p -> 0 <= duration_slots p ->
      duration_slots p <= MAX_PAUSE_DURATION_SLOTS /\
      forall h, is_paused pause.1 h = true <-> h < height ctx + duration_slots p)) /\
  (success resume.2 = true <-> exists p, authorised_resume tx ctx s p) /\
  (success resume.2 = false -> resume.1 = s) /\
  (success resume.2 = true -> forall h, 0 <= h -> is_paused resume.1 h = false).
Proof.
  intros Sep Hh Hm pause resume. split.
  - unfold pause. destruct (pause_cases tx ctx s) as [(gas & msg & -> & N)|(p & gas & C & ->)]; cbn [fst snd].
    { split; [split; [done|intros (p & C); by destruct (N p)]|]. split; [done|]. intros p C. by destruct (N p). }
    split; [split; eauto|]. split; [done|]. intros p' C' Hd.
    assert (p' = p) as -> by (destruct C, C'; congruence). destruct C as [_ _ [_ Hd'] _ _]. split; [done|]. intros h.
    unfold saturating_add at 2. rewrite Z.min_l by lia.
    rewrite paused_until; [|done|unfold in_range; lia].
    apply Z.ltb_lt.
  - unfold resume. destruct (resume_cases tx ctx s) as [(gas & msg & -> & N)|(p & gas & C & ->)]; cbn [fst snd].
    { split; [split; [done|intros (p & C); by destruct (N p)]|]. done. }
    split; [split; eauto|]. split; [done|]. intros _ h Hh'. rewrite paused_until by done. by apply Z.ltb_ge.
Qed.
End Governance.

(** ** Witnesses *)

Definition signed_by_0 (msg : list Z) : list SigEntry := [mkSig 0 (msg ++ replicate (500 - length msg) 0)].

Definition gov_tx (t : TransactionType) (data : list Z) : Transaction :=
  Tx.mkTx alice ZERO_ADDRESS 0 data 200000 0 [] Sender [] None DEVNET t.

Definition gov_ctx : BlockContext := mkBlock 40 0 1 1000000 DEVNET bob false false.

(** One signer, a funded treasury, an airdrop of one leaf for [alice]. *)
Definition gov_world : MapState :=
  write_airdrop_root (compute_root 0 alice 30 []) (write_airdrop_deadline 50
    (with_account (funded airdrop_pool_address 100) (with_account (funded treasury_address 1000)
      (write_multisig_threshold 1 (put multisig_signers_key ([1] ++ replicate 897 0) PydeSMT_new))))).

Lemma gov_quorum (msg : list Z) :
  count_valid_sigs (signed_by_0 msg) [replicate 897 0] msg = Ok 1 -> quorum gov_world (signed_by_0 msg) msg.
Proof.
  intros E. exists [replicate 897 0], 1. split_and!; [vm_compute; reflexivity|vm_compute; discriminate|done|].
  vm_compute. discriminate.
Qed.

Definition gov_spend : MultisigSpend := mkSpend bob 400 (replicate 32 0).
Definition gov_spend_sigs : list SigEntry := signed_by_0 (spend_signing_bytes gov_spend 0 DEVNET).
Definition gov_spend_tx : Transaction := gov_tx MultisigTx (default [] (payload_encode (Spend gov_spend gov_spend_sigs))).

Lemma gov_spend_authorised : authorised_spend gov_spend_tx gov_ctx gov_world gov_spend gov_spend_sigs.
Proof.
  split.
  - vm_compute. reflexivity.
  - vm_compute. discriminate.
  - discriminate.
  - split; [discriminate|]. split; intros E; vm_compute in E; discriminate.
  - reflexivity.
  - assert (read_multisig_nonce gov_world = 0) as -> by (vm_compute; reflexivity).
    apply gov_quorum. vm_compute. reflexivity.
  - vm_compute. discriminate.
Qed.

Lemma multisig_spend_exact_witness :
  let s' := (execute_multisig_spend gov_spend_tx gov_ctx gov_world).1 in
  balance (load_account s' treasury_address) = 600 /\ balance (load_account s' bob) = 400 /\ read_multisig_nonce s' = 1.
Proof.
  intros s'.
  assert (load_account gov_world treasury_address = funded treasury_address 1000) as Et by (vm_compute; reflexivity).
  assert (load_account gov_world bob = funded bob 0) as Eb by (vm_compute; reflexivity).
  assert (read_multisig_nonce gov_world = 0) as En by (vm_compute; reflexivity).
  destruct (multisig_spend_exact gov_spend_tx gov_ctx gov_world s' (execute_multisig_spend gov_spend_tx gov_ctx gov_world).2)
    as (_ & _ & T); [unfold s'; by destruct (execute_multisig_spend _ _ _)|].
  destruct (T _ _ gov_spend_authorised) as (E1 & E2 & E3 & _).
  - apply separatedb_ok. vm_compute. reflexivity.
  - constructor; [|constructor; [|constructor]].
    + apply (funded_good _ _ 1000); [exact Et|vm_compute; reflexivity|split; [discriminate|reflexivity]].
    + apply (funded_good _ _ 0); [exact Eb|reflexivity|split; [discriminate|reflexivity]].
  - discriminate.
  - change (target gov_spend) with bob. rewrite Eb. reflexivity.
  - rewrite En. split; [discriminate|reflexivity].
  - change (target gov_spend) with bob in E2. rewrite E1, E2, E3, Et, Eb, En. split_and!; reflexivity.
Defined.

Lemma airdrop_claim_exact_witness :
  let tx := gov_tx ClaimAirdrop (le_encode 8 0 ++ le_encode 16 30 ++ [0]) in
  let r := execute_claim_airdrop tx gov_ctx 5 gov_world in
  success r.2 = true /\ r.1.2 = 35 /\ forall ctx2, success (execute_claim_airdrop tx ctx2 5 r.1.1).2 = false.
Proof.
  intros tx r.
  assert (claimable tx gov_ctx gov_world (mkClaim 0 30 [])) as C.
  { split; try (vm_compute; reflexivity); try (vm_compute; discriminate).
    - exists 50. split; [vm_compute; reflexivity|discriminate].
    - eexists. split; vm_compute; reflexivity. }
  destruct (airdrop_claim_exact tx gov_ctx 5 gov_world r.1.1 r.1.2 r.2) as (S & _ & T).
  { unfold r. by destruct (execute_claim_airdrop _ _ _ _) as [[? ?] ?]. }
  destruct (T _ C) as (_ & E & _ & N).
  - apply separatedb_ok. vm_compute. reflexivity.
  - apply (funded_good _ _ 100); [vm_compute; reflexivity|vm_compute; reflexivity|split; [discriminate|reflexivity]].
  - discriminate.
  - discriminate.
  - reflexivity.
  - split; [apply S; eauto|]. split; [exact E|]. intros ctx2.
    destruct (airdrop_claim_exact tx ctx2 5 r.1.1 (execute_claim_airdrop tx ctx2 5 r.1.1).1.1
                (execute_claim_airdrop tx ctx2 5 r.1.1).1.2 (execute_claim_airdrop tx ctx2 5 r.1.1).2) as (S2 & _).
    { rewrite <- !surjective_pairing. reflexivity. }
    apply not_true_is_false. rewrite S2. intros (p2 & C2). apply (N tx ctx2 p2); [|done].
    assert (claim_decode (Tx.data tx) = Some (mkClaim 0 30 [])) as Ed by (vm_compute; reflexivity).
    destruct C2 as [Ed2]. congruence.
Defined.

Definition gov_rotate : MultisigRotate := mkRotate [replicate 897 3; replicate 897 4] 2.
Definition gov_rotate_sigs : list SigEntry := signed_by_0 (rotate_signing_bytes gov_rotate 0 DEVNET).
Definition gov_rotate_tx : Transaction :=
  gov_tx RotateMultisig (default [] (payload_encode (Rotate gov_rotate gov_rotate_sigs))).

Lemma rotation_keeps_quorum_reachable_witness :
  let s' := (execute_rotate_multisig gov_rotate_tx gov_ctx gov_world).1 in
  can_act s' /\ read_multisig_threshold s' = 2 /\ read_multisig_nonce s' = 1.
Proof.
  intros s'.
  assert (read_multisig_nonce gov_world = 0) as En by (vm_compute; reflexivity).
  destruct (rotation_keeps_quorum_reachable gov_rotate_tx gov_ctx gov_world s'
              (execute_rotate_multisig gov_rotate_tx gov_ctx gov_world).2)
    as (_ & _ & T); [unfold s'; by destruct (execute_rotate_multisig _ _ _)|].
  destruct (T gov_rotate gov_rotate_sigs) as (A & _ & E2 & E3).
  - split.
    + vm_compute. reflexivity.
    + vm_compute. discriminate.
    + split; vm_compute; discriminate.
    + split; vm_compute; discriminate.
    + split; [repeat constructor|]. apply NoDup_cons. split; [|apply NoDup_singleton].
      intros E%list_elem_of_singleton. discriminate.
    + rewrite En. apply gov_quorum. vm_compute. reflexivity.
  - apply separatedb_ok. vm_compute. reflexivity.
  - discriminate.
  - rewrite En. split; [discriminate|reflexivity].
  - rewrite En in E3. split_and!; [exact A|exact E2|exact E3].
Defined.

Definition gov_pause : EmergencyPausePayload :=
  mkPause 100 (signed_by_0 (pause_signing_bytes (mkPause 100 []) 0 DEVNET)).
Definition gov_pause_tx : Transaction := gov_tx EmergencyPause (default [] (pause_encode gov_pause)).

Lemma gov_pause_authorised : authorised_pause gov_pause_tx gov_ctx gov_world gov_pause.
Proof.
  split.
  - vm_compute. reflexivity.
  - vm_compute. discriminate.
  - split; vm_compute; discriminate.
  - vm_compute. reflexivity.
  - assert (read_multisig_nonce gov_world = 0) as -> by (vm_compute; reflexivity).
    apply gov_quorum. vm_compute. reflexivity.
Qed.

Lemma pause_is_bounded_witness :
  let s' := (execute_emergency_pause gov_pause_tx gov_ctx gov_world).1 in
  is_paused s' 139 = true /\ ~ is_paused s' 140 = true.
Proof.
  intros s'. destruct (pause_is_bounded gov_pause_tx gov_ctx gov_world) as ((_ & _ & T) & _).
  - apply separatedb_ok. vm_compute. reflexivity.
  - discriminate.
  - reflexivity.
  - destruct (T gov_pause gov_pause_authorised) as [_ E]; [discriminate|].
    split; [apply E; reflexivity|]. intros N%E. discriminate.
Defined.
