(* ===== verification/Pipeline.v ===== *)
(** * The transaction pipeline

    [execute_transaction] and [execute_block_parallel] of
    [tx/src/pipeline.rs], over any state with the interface of [State], with
    contract code run by the machine of [Vm].  The ahead-of-time compiled
    variant of a call is not modelled: [aot_fn] is [None]. *)

From stdpp Require Import base numbers list option gmap strings pretty.
From Stdlib Require Import ZArith Lia.
From S2P Require Import Prelude Crypto Isa Cpu Memory Vm VmStep Wire Keys Nonce Account Economics Airdrop.
From S2P Require Import Multisig State Transaction Validation Execution Store Handlers.

#[local] Open Scope Z_scope.
#[local] Open Scope pyde_scope.

Section Pipeline.
Context {P : Primitives} {St : Type} `{StateAccess St}.

(** ** Access lists *)

Definition derive_access_key (target : Address) (raw_key : list Z) : Z :=
  let slot_bytes := le_encode 32 (le_decode raw_key) in
  let sig_len := (32 - leading_zeros (rev slot_bytes))%nat in
  let slot_len := Nat.max sig_len 8 in
  le_decode (poseidon2_hash (target ++ [0x04] ++ take slot_len slot_bytes)).

Definition pre_derive_access_list_keys (access_list : list AccessEntry) (contract_address : Address) :
    gset Z * list Z :=
  let warm :=
    e ← access_list;
    let target := if decide (entry_address e = ZERO_ADDRESS) then contract_address else entry_address e in
    derive_access_key target <$> (reads e ++ Transaction.writes e) in
  (list_to_set warm, warm).

(** ** Contract code *)

Definition pvm_context (tx : Transaction) (block_ctx : BlockContext) : ExecutionContext :=
  mkCtx (Tx.from tx) (Tx.to tx) (Tx.value tx) (height block_ctx) (block_timestamp block_ctx)
    (base_fee block_ctx) (Tx.nonce tx) (Tx.gas_limit tx) 0 ZERO_ADDRESS [] ∅.

(** The machine before [load]: calldata, access list, and the two backends that
    read the state. *)
Definition pvm_machine (tx : Transaction) (s : St) (block_ctx : BlockContext) : Vm :=
  let vm := set_calldata (Tx.data tx) (with_gas_limit_and_context (Tx.gas_limit tx) (pvm_context tx block_ctx)) in
  let vm :=
    match Tx.access_list tx with
    | [] => vm
    | l =>
        let '(allowed, warm) := pre_derive_access_list_keys l (Tx.to tx) in
        set_warm_storage_keys (list_to_set warm ∪ warm_storage_keys vm) (set_allowed_storage_keys (Some allowed) vm)
    end in
  set_code_backend (Some (fun a => smt_get s (code_key a)))
    (set_storage_backend (Some (fun k => smt_get s (le_encode 32 k))) vm).

(** [read_byte] indexes the page table, and panics behind its end. *)
Definition load_bytes_in_bounds (ptr n : Z) : bool :=
  forallb (fun i : nat => wrap u32 (wrap u64 (ptr + Z.of_nat i)) <? MEMORY_SIZE) (seq 0 (Z.to_nat n)).

Definition pvm_return_data (ok : bool) (vm : Vm) : Run (list Z) :=
  if negb (len (Vm.return_data vm) =? 0) then Returns (Vm.return_data vm)
  else if ok then
    let r1 := read_gp 1 (cpu vm) in
    let r2 := read_gp 2 (cpu vm) in
    if 0 <? r2 then
      let n := Z.min r2 MEMORY_SIZE in
      if wrap u64 (r1 + n) <=? MEMORY_SIZE then
        if load_bytes_in_bounds r1 n then Returns (load_bytes r1 n (memory vm)) else Panics
      else Returns (le_encode 8 r1)
    else Returns (le_encode 8 r1)
  else Returns (Vm.return_data vm).

Definition persist_storage (vm : Vm) (s : St) : St :=
  if decide (storage vm = ∅) then s
  else (smt_update_all ((fun kv => (le_encode 32 kv.1, kv.2)) <$> map_to_list (storage vm)) s).1.

(** Contracts the execution created and the state does not have yet. *)
Definition persist_contract (s : St) (c : Address * list Z) : St :=
  let '(addr, code) := c in
  if is_some (smt_get s (code_key addr)) then s
  else (store_account (new_contract addr code) (put (code_key addr) code s)).1.

Definition to_log_entry (l : EventLog) : LogEntry :=
  mkLogEntry (Vm.log_address l) (le_encode 32 <$> topics l) (Vm.log_data l).

Definition execute_in_pvm (fuel : nat) (tx : Transaction) (code : list Z) (s : St) (block_ctx : BlockContext) :
    Run (St * TxOut) :=
  match load code (pvm_machine tx s block_ctx) with
  | (_, Err _) => Returns (s, mkOut false (Tx.gas_limit tx) 0 [] [])
  | (vm, Ok _) =>
      match execute fuel vm with
      | None => OutOfFuel
      | Some (vm, output) =>
          let ok := bool_decide (outcome output = Vm.Success) in
          let s := if ok then foldl persist_contract (persist_storage vm s) (map_to_list (contracts vm)) else s in
          run_bind (pvm_return_data ok vm) (fun data =>
            Returns (s, mkOut ok (gas_used_total vm) (Vm.gas_refund vm) (to_log_entry <$> Vm.logs vm) data))
      end
  end.

(** ** Deployment *)

(** Constructor, runtime and arguments behind a valid header. *)
Definition deploy_parts (data : list Z) : option (list Z * list Z * list Z) :=
  if len data <? 8 then None
  else
    let constructor_len := le_at 0 4 data in
    let runtime_len := le_at 4 4 data in
    if (0 <? constructor_len) && (0 <? runtime_len) && (constructor_len + runtime_len <=? len data) &&
       (8 + constructor_len + runtime_len <=? len data)
    then
      let c := Z.to_nat constructor_len in
      let r := Z.to_nat runtime_len in
      Some (slice 8 c data, slice (8 + c) r data, drop (8 + c + r) data)
    else None.

Definition set_call (to : Address) (data : list Z) (tx : Transaction) : Transaction :=
  Tx.mkTx (Tx.from tx) to (Tx.value tx) data (Tx.gas_limit tx) (Tx.nonce tx) (Tx.signature tx)
    (Tx.fee_payer tx) (Tx.access_list tx) (Tx.deadline tx) (Tx.chain_id tx) (Tx.tx_type tx).

Definition install_contract (addr : Address) (code : list Z) : ST St PipelineError unit :=
  store_code addr code ;;; store_account (new_contract addr code).

Definition execute_deploy (fuel : nat) (tx : Transaction) (sender : Account) (s : St) (block_ctx : BlockContext) :
    Run (St * Account * Result TxOut PipelineError) :=
  let new_addr := derive_create_address (Tx.from tx) (nonce sender) in
  let sender := set_nonce (wrap u64 (nonce sender + 1)) sender in
  match deploy_parts (Tx.data tx) with
  | Some (constructor, runtime, args) =>
      match install_contract new_addr runtime s with
      | (s, Err e) => Returns (s, sender, Err e)
      | (s, Ok _) =>
          run_bind (execute_in_pvm fuel (set_call new_addr args tx) constructor s block_ctx) (fun '(s, out) =>
            Returns (s, sender, Ok (mkOut true (wrap u64 (32000 + gas_used out)) 0 [] new_addr)))
      end
  | None =>
      match install_contract new_addr (Tx.data tx) s with
      | (s, Err e) => Returns (s, sender, Err e)
      | (s, Ok _) => Returns (s, sender, Ok (mkOut true 32000 0 [] new_addr))
      end
  end.

(** ** Dispatch on the type *)

(** A handler that changes the sender's balance. *)
Definition with_balance (sender : Account) (r : St * Z * TxOut) :
    Run (St * Account * Result TxOut PipelineError) :=
  let '(s, b, out) := r in Returns (s, set_balance b sender, Ok out).

Definition without_balance (sender : Account) (r : St * TxOut) :
    Run (St * Account * Result TxOut PipelineError) :=
  let '(s, out) := r in Returns (s, sender, Ok out).

Definition dispatch_type (fuel : nat) (tx : Transaction) (sender : Account) (s : St) (block_ctx : BlockContext) :
    Run (St * Account * Result TxOut PipelineError) :=
  match Tx.tx_type tx with
  | Standard =>
      if decide (Tx.to tx = ZERO_ADDRESS) then Returns (s, sender, Ok (mkOut true 21000 0 [] []))
      else
        match Store.load_code s (Tx.to tx) with
        | Some code =>
            run_bind (execute_in_pvm fuel tx code s block_ctx) (fun '(s, out) => Returns (s, sender, Ok out))
        | None => Returns (s, sender, Ok (mkOut true 21000 0 [] []))
        end
  | Deploy => execute_deploy fuel tx sender s block_ctx
  | StakeDeposit => with_balance sender (execute_stake_deposit tx (balance sender) s)
  | StakeWithdraw => without_balance sender (execute_stake_withdraw tx block_ctx s)
  | RegisterPubkey => Returns (s, set_auth_keys (Single (Tx.data tx)) sender, Ok (mkOut true 0 0 [] []))
  | Slash => with_balance sender (execute_slash (chain_id block_ctx) tx (balance sender) s)
  | ClaimAirdrop => with_balance sender (execute_claim_airdrop tx block_ctx (balance sender) s)
  | SweepAirdrop => without_balance sender (execute_sweep_airdrop tx block_ctx s)
  | MultisigTx => without_balance sender (execute_multisig_spend tx block_ctx s)
  | RotateMultisig => without_balance sender (execute_rotate_multisig tx block_ctx s)
  | EmergencyPause => without_balance sender (execute_emergency_pause tx block_ctx s)
  | EmergencyResume => without_balance sender (execute_emergency_resume tx block_ctx s)
  | ClaimReward => with_balance sender (execute_claim_reward tx (balance sender) s)
  end.

(** ** The transaction *)

Definition validation_context (block_ctx : BlockContext) (locked : Z) : ValidationContext :=
  mkValidation (height block_ctx) (base_fee block_ctx) (block_gas_limit block_ctx) (chain_id block_ctx)
    (dev_skip_signature block_ctx) locked (block_sigs_pre_verified block_ctx).

Definition locked_balance (s : St) (a : Address) (slot : Z) : Z :=
  match read_vesting_schedule s a with Some v => locked_at v slot | None => 0 end.

Definition emit_failed_execution_receipt (tx : Transaction) (block_ctx : BlockContext)
    (sender_initial sender : Account) (error_msg : string) : ST St PipelineError Receipt :=
  let baseline_gas := MIN_GAS_LIMIT in
  let baseline_cost := wrap u128 (baseline_gas * base_fee block_ctx) in
  let charged_quanta := Z.min baseline_cost (balance sender) in
  let sender := set_balance (balance sender - charged_quanta) sender in
  let effective_gas_charged :=
    if base_fee block_ctx =? 0 then baseline_gas else wrap u64 (charged_quanta / base_fee block_ctx) in
  apply_account_delta (Tx.from tx) sender_initial sender ;;;
  root <-- gets smt_root ;;
  ret (generate_receipt tx false baseline_gas 0 effective_gas_charged (base_fee block_ctx) [] root
         (bytes_of_string error_msg)).

(** Steps 7 to 10: refund, delta application, receipt. *)
Definition finish_transaction (tx : Transaction) (block_ctx : BlockContext)
    (sender_initial recipient_initial sender recipient : Account) (out : TxOut) :
    ST St PipelineError Receipt :=
  let fee_payer_balance :=
    match Tx.fee_payer tx with
    | Sender => balance sender
    | GasTank _ => gas_tank sender
    | Paymaster _ => 0
    end in
  let '(effective_gas, refund_amount, fee_payer_balance) :=
    post_execution_refund (gas_used out) (Tx.gas_limit tx) (gas_refund out) fee_payer_balance
      (base_fee block_ctx) in
  let sender :=
    match Tx.fee_payer tx with
    | Sender => set_balance fee_payer_balance sender
    | GasTank _ => set_gas_tank fee_payer_balance sender
    | Paymaster _ => sender
    end in
  apply_account_delta (Tx.from tx) sender_initial sender ;;;
  apply_account_delta (Tx.to tx) recipient_initial recipient ;;;
  root <-- gets smt_root ;;
  ret (generate_receipt tx (success out) (gas_used out) refund_amount effective_gas (base_fee block_ctx)
         (out_logs out) root (return_data out)).

(** Steps 4 to 10, behind validation and the consumption of the nonce. *)
Definition charge_and_run (fuel : nat) (tx : Transaction) (sender recipient : Account) (s : St)
    (block_ctx : BlockContext) : Run (St * Result Receipt PipelineError) :=
  let sender_initial := sender in
  let recipient_initial := recipient in
  match pre_execution_charge tx (balance sender) (gas_tank sender) (base_fee block_ctx) with
  | Err charge_err => Returns (emit_failed_execution_receipt tx block_ctx sender_initial sender charge_err s)
  | Ok (_, sender_balance, gas_tank_balance) =>
      let sender := set_gas_tank gas_tank_balance (set_balance sender_balance sender) in
      let transferred :=
        if carries_value (Tx.tx_type tx) then
          Execution.transfer_value (balance sender) (balance recipient) (Tx.value tx)
        else Ok (balance sender, balance recipient) in
      match transferred with
      | Err e => Returns (s, Err (ExecutionFailed e))
      | Ok (sender_balance, recipient_balance) =>
          let sender := set_balance sender_balance sender in
          let recipient := set_balance recipient_balance recipient in
          run_bind (dispatch_type fuel tx sender s block_ctx) (fun '(s, sender, r) =>
            match r with
            | Err e => Returns (s, Err e)
            | Ok out =>
                Returns (finish_transaction tx block_ctx sender_initial recipient_initial sender recipient out s)
            end)
      end
  end.

Definition execute_transaction (fuel : nat) (tx : Transaction) (s : St) (block_ctx : BlockContext) :
    Run (St * Result Receipt PipelineError) :=
  if is_paused s (height block_ctx) && negb (bool_decide (Tx.tx_type tx = EmergencyResume)) then
    Returns (s, Err (ExecutionFailed "chain paused: only EmergencyResume accepted"))
  else
    let sender := load_account s (Tx.from tx) in
    let recipient := load_account s (Tx.to tx) in
    let nonce_state := load_nonce s (Tx.from tx) in
    let sender_locked := locked_balance s (Tx.from tx) (height block_ctx) in
    match validate_transaction tx sender nonce_state (validation_context block_ctx sender_locked) with
    | Err e => Returns (s, Err (ValidationFailed e))
    | Ok _ =>
        match use_nonce (Tx.nonce tx) nonce_state with
        | (_, Err e) => Returns (s, Err (ExecutionFailed ("nonce error: " +:+ NonceError_debug e)))
        | (nonce_state, Ok _) =>
            match store_nonce (Tx.from tx) nonce_state s with
            | (s, Err e) => Returns (s, Err e)
            | (s, Ok _) => charge_and_run fuel tx sender recipient s block_ctx
            end
        end
    end.

(** The transactions of the groups in order; an index out of range panics, and so
    does a slot left without a receipt. *)
Fixpoint run_indices (fuel : nat) (txs : list Transaction) (indices : list nat) (s : St) (block_ctx : BlockContext)
    (receipts : list (option Receipt)) : Run (St * Result (list Receipt) PipelineError) :=
  match indices with
  | [] => ordered <~ unwrap (mapM id receipts) ;; Returns (s, Ok ordered)
  | tx_idx :: rest =>
      tx <~ unwrap (txs !! tx_idx) ;;
      step <~ execute_transaction fuel tx s block_ctx ;;
      match step with
      | (s, Err e) => Returns (s, Err e)
      | (s, Ok receipt) => run_indices fuel txs rest s block_ctx (<[tx_idx := Some receipt]> receipts)
      end
  end.

Definition execute_block_parallel (fuel : nat) (txs : list Transaction) (groups : list (list nat)) (s : St) (block_ctx : BlockContext) :
    Run (St * Result (list Receipt) PipelineError) :=
  run_indices fuel txs (concat groups) s block_ctx (replicate (length txs) None).
End Pipeline.
