(* ===== verification/PipelineProps.v ===== *)
(** * Properties of the pipeline

    Whole transactions: what a plain transfer does to the state, that a nonce is
    burned, that a paused chain accepts one type only. *)

From stdpp Require Import base numbers list option gmap strings pretty.
From Stdlib Require Import ZArith Lia.
From S2P Require Import Prelude Crypto Isa Cpu Memory Vm VmStep Wire Keys Nonce Account Economics Airdrop.
From S2P Require Import Multisig State Transaction Validation Execution Store Handlers Pipeline.

#[local] Open Scope Z_scope.
#[local] Open Scope pyde_scope.

Section Transfers.
Context {P : Primitives} {St : Type} `{StateAccessOk St}.
Implicit Types s : St.

(** ** The steps in front of dispatch *)

Lemma use_nonce_valid (ns : NonceState) (n : Z) :
  is_valid ns n = true -> exists ns', use_nonce n ns = (ns', Ok tt).
Proof. unfold is_valid, use_nonce. destruct (Nonce.validate ns n); [eauto|done]. Qed.

Lemma validated_nonce (tx : Transaction) (sender : Account) (ns : NonceState) (ctx : ValidationContext) :
  0 <= Tx.value tx -> validate_transaction tx sender ns ctx = Ok tt -> is_valid ns (Tx.nonce tx) = true.
Proof.
  intros Hv E. apply validation_decides in E as [_ E]; [|done].
  destruct (decide (Tx.tx_type tx = RegisterPubkey)); by destruct E.
Qed.

Lemma validated_pays (tx : Transaction) (sender : Account) (ns : NonceState) (ctx : ValidationContext) :
  0 <= Tx.value tx -> Tx.tx_type tx <> RegisterPubkey -> Tx.fee_payer tx = Sender ->
  validate_transaction tx sender ns ctx = Ok tt ->
  Tx.gas_limit tx * vc_base_fee ctx + Tx.value tx <= Z.max 0 (balance sender - sender_locked ctx) /\
  MIN_GAS_LIMIT <= Tx.gas_limit tx.
Proof.
  intros Hv Ht Hp E. apply validation_decides in E as [_ E]; [|done]. rewrite decide_False in E by done.
  destruct E. unfold pays in ac_pays. rewrite Hp in ac_pays. lia.
Qed.

Lemma nonce_burned s (a : Address) (n : Z) (ns' : NonceState) :
  wf_nonce (load_nonce s a) -> in_range u64 n -> use_nonce n (load_nonce s a) = (ns', Ok tt) ->
  let s' := put (nonce_key a) (NonceState_to_bytes ns') s in
  store_nonce a ns' s = (s', Ok tt) /\ load_nonce s' a = ns' /\ wf_nonce ns' /\
  forall m, in_range u64 m -> (consumed ns' m <-> consumed (load_nonce s a) m \/ m = n).
Proof.
  intros W Hn E s'. pose proof (use_nonce_spec _ n W Hn) as U. rewrite E in U.
  destruct U as (W' & _ & _ & Hc). split; [apply insert_or_fail_put|]. split.
  - unfold load_nonce, s'. rewrite get_put_eq; [|done]. cbn [mbind option_bind].
    rewrite <- (app_nil_r (NonceState_to_bytes ns')), NonceState_bytes by apply W'. done.
  - split; [done|]. intros m Hm. rewrite Hc by done. cbn [is_ok]. naive_solver.
Qed.

(** ** The delta application *)

(** The final account differs from the initial one in its balance only, and both
    balances are below 2^127. *)
Record balance_change (initial final : Account) : Prop := {
  bc_gas_tank : gas_tank final = gas_tank initial;
  bc_auth_keys : auth_keys final = auth_keys initial;
  bc_nonce : nonce final = nonce initial;
  bc_initial : 0 <= balance initial < 2 ^ 127;
  bc_final : 0 <= balance final < 2 ^ 127
}.

Definition change (initial final : Account) : Z := balance final - balance initial.

Lemma delta_applied s (l : list Address) (a : Address) (initial final : Account) :
  separated (KBalance <$> l) -> good_accounts s l -> a ∈ l -> balance_change initial final ->
  0 <= balance (load_account s a) + change initial final < 2 ^ 128 ->
  exists s', apply_account_delta a initial final s = (s', Ok tt) /\ good_accounts s' l /\
    (forall b, b ∈ l -> load_account s' b =
       if decide (b = a) then set_balance (balance (load_account s a) + change initial final) (load_account s a)
       else load_account s b) /\
    (forall k, k <> balance_key a -> smt_get s' k = smt_get s k).
Proof.
  intros Sep G Ha [] Hr. unfold good_accounts in G. pose proof G as G'. rewrite Forall_forall in G'.
  destruct (G' a Ha) as [W Ea].
  rewrite apply_account_delta_put, delta_account_balance by (try done; apply W). unfold change in *.
  rewrite apply_delta_exact by (try done; lia).
  set (acct := set_balance _ _). assert (address acct = a) as Ea' by done.
  assert (wf_account acct) as Wa by (apply set_balance_wf; [unfold in_range; lia|done]).
  eexists. split; [done|]. cbv zeta. rewrite Ea'.
  destruct (store_account_spec s l acct) as [Hg Hl]; [done..|by rewrite Ea'|done|].
  rewrite Ea' in Hg, Hl. split; [done|]. split; [done|]. intros k Hk. apply get_put_ne. congruence.
Qed.

Lemma deltas_applied s (a b : Address) (ai af bi bf : Account) :
  separated [KBalance a; KBalance b] -> good_accounts s [a; b] -> balance_change ai af -> balance_change bi bf ->
  0 <= balance (load_account s a) + change ai af < 2 ^ 128 ->
  0 <= balance (load_account s b) + (if decide (b = a) then change ai af else 0) + change bi bf < 2 ^ 128 ->
  exists s', (apply_account_delta a ai af ;;; apply_account_delta b bi bf) s = (s', Ok tt) /\
    good_accounts s' [a; b] /\
    (forall x, x ∈ [a; b] -> load_account s' x =
       set_balance (balance (load_account s x) + (if decide (x = a) then change ai af else 0) +
                    (if decide (x = b) then change bi bf else 0)) (load_account s x)) /\
    (forall k, k <> balance_key a -> k <> balance_key b -> smt_get s' k = smt_get s k).
Proof.
  intros Sep G Ca Cb Ra Rb.
  destruct (delta_applied s [a; b] a ai af) as (s1 & E1 & G1 & L1 & F1); [done|done|set_solver|done|done|].
  destruct (delta_applied s1 [a; b] b bi bf) as (s2 & E2 & G2 & L2 & F2); [done|done|set_solver|done| |].
  { rewrite L1 by set_solver. destruct (decide (b = a)) as [->|]; cbn [balance set_balance]; lia. }
  exists s2. split; [cbn; unfold bind; by rewrite E1|]. split; [done|]. split; [|by intros; rewrite F2, F1].
  intros x Hx. rewrite L2, !L1 by set_solver.
  destruct (decide (x = b)), (decide (b = a)), (decide (x = a)); subst; try congruence;
    cbn [balance set_balance]; rewrite ?Z.add_0_r; first [done|exfalso; set_solver].
Qed.

(** The end of a transaction whose sender pays: balances change by what the
    handlers decided, minus the fee of the receipt. *)
Lemma finish_spec s (tx : Transaction) (ctx : BlockContext) (ai bi sender recipient : Account) (out : TxOut) :
  let a := Tx.from tx in let b := Tx.to tx in
  let G := Tx.gas_limit tx * base_fee ctx in
  Tx.fee_payer tx = Sender -> in_range u64 (Tx.gas_limit tx) -> 0 <= base_fee ctx ->
  0 <= gas_used out <= Tx.gas_limit tx -> 0 <= gas_refund out ->
  separated [KBalance a; KBalance b] -> good_accounts s [a; b] ->
  balance_change ai sender -> balance_change bi recipient -> balance sender + G < 2 ^ 127 ->
  0 <= balance (load_account s a) + change ai sender < 2 ^ 128 - G ->
  0 <= balance (load_account s b) + (if decide (b = a) then change ai sender else 0) + change bi recipient
    < 2 ^ 128 - G ->
  exists s' r eff, finish_transaction tx ctx ai bi sender recipient out s = (s', Ok r) /\
    gas_used out - gas_used out / 2 <= eff <= gas_used out /\
    (gas_refund out = 0 -> eff = gas_used out) /\
    rc_success r = success out /\ rc_effective_gas r = eff /\ rc_fee_paid r = eff * base_fee ctx /\
    rc_return_data r = return_data out /\
    good_accounts s' [a; b] /\
    (forall x, x ∈ [a; b] -> load_account s' x =
       set_balance (balance (load_account s x) +
                    (if decide (x = a) then change ai sender + G - eff * base_fee ctx else 0) +
                    (if decide (x = b) then change bi recipient else 0)) (load_account s x)) /\
    (forall k, k <> balance_key a -> k <> balance_key b -> smt_get s' k = smt_get s k).
Proof.
  intros a b G Hp Hl Hf Hu Hr Sep Gd Ca Cb Hb Ra Rb. subst G.
  destruct (refund_exact (gas_used out) (Tx.gas_limit tx) (gas_refund out) (balance sender) (base_fee ctx))
    as (eff & ref & E & He & Href); [lia|apply Hl|lia|lia|apply Ca|lia|].
  assert (gas_refund out = 0 -> eff = gas_used out) as He0.
  { intros E0. unfold post_execution_refund in E. rewrite E0 in E. injection E as E _ _.
    assert (0 <= gas_used out / 2) by (apply Z.div_pos; lia). lia. }
  set (G := Tx.gas_limit tx * base_fee ctx) in *.
  assert (0 <= gas_used out / 2 <= gas_used out) by (Z.to_euclidean_division_equations; lia).
  assert (0 <= eff * base_fee ctx <= G) as HG by (unfold G; nia).
  set (final := set_balance (balance sender + G - eff * base_fee ctx) sender).
  assert (balance_change ai final) as Cf by (destruct Ca; split; try done; cbn; lia).
  assert (change ai final = change ai sender + G - eff * base_fee ctx) as Ec by (unfold change; cbn; lia).
  destruct (deltas_applied s a b ai final bi recipient) as (s' & Es & Gs & Ls & Fs); [done..| | |].
  { rewrite Ec. lia. }
  { rewrite Ec. destruct (decide (b = a)); lia. }
  rewrite Ec in Ls. unfold finish_transaction. rewrite Hp, E. fold final. fold a b.
  unfold bind in Es |- *. destruct (apply_account_delta a ai final s) as [s1 [[]|]]; [|done]. rewrite Es.
  unfold gets, ret. eexists s', _, eff. split; [done|]. do 2 (split; [done|]).
  cbn [generate_receipt rc_success rc_effective_gas rc_fee_paid rc_return_data].
  rewrite wrap_small by (unfold in_range; lia). done.
Qed.

Lemma plain_dispatch (fuel : nat) (tx : Transaction) (sender : Account) s (ctx : BlockContext) :
  Tx.tx_type tx = Standard -> Tx.to tx = ZERO_ADDRESS \/ Store.load_code s (Tx.to tx) = None ->
  dispatch_type fuel tx sender s ctx = Returns (s, sender, Ok (mkOut true 21000 0 [] [])).
Proof.
  intros Ht Hc. unfold dispatch_type. rewrite Ht. destruct (decide (Tx.to tx = ZERO_ADDRESS)); [done|].
  by destruct Hc as [?| ->].
Qed.

(** A paused chain lets only a resume through. *)
Definition admitted s (tx : Transaction) (ctx : BlockContext) : Prop :=
  (is_paused s (height ctx) = false \/ Tx.tx_type tx = EmergencyResume) /\
  validate_transaction tx (load_account s (Tx.from tx)) (load_nonce s (Tx.from tx))
    (validation_context ctx (locked_balance s (Tx.from tx) (height ctx))) = Ok tt.

(** The values of the transaction have the widths of their types. *)
Record wf_tx (tx : Transaction) (ctx : BlockContext) : Prop := {
  wt_value : 0 <= Tx.value tx;
  wt_gas_limit : in_range u64 (Tx.gas_limit tx);
  wt_nonce : in_range u64 (Tx.nonce tx);
  wt_base_fee : 0 <= base_fee ctx
}.

(** The accounts as the handler sees them. *)
Definition charged (tx : Transaction) (ctx : BlockContext) (a : Account) : Account :=
  set_balance (balance a - Tx.gas_limit tx * base_fee ctx - Tx.value tx) a.
Definition paid (tx : Transaction) (a : Account) : Account := set_balance (balance a + Tx.value tx) a.

Lemma locked_nonneg s (a : Address) (slot : Z) : 0 <= locked_balance s a slot.
Proof. unfold locked_balance, locked_at, saturating_sub. destruct (read_vesting_schedule s a); lia. Qed.

Lemma admitted_pays s (tx : Transaction) (ctx : BlockContext) :
  admitted s tx ctx -> wf_tx tx ctx -> Tx.tx_type tx <> RegisterPubkey -> Tx.fee_payer tx = Sender ->
  0 <= balance (load_account s (Tx.from tx)) ->
  Tx.gas_limit tx * base_fee ctx + Tx.value tx <= balance (load_account s (Tx.from tx)) /\
  MIN_GAS_LIMIT <= Tx.gas_limit tx /\
  (carries_value (Tx.tx_type tx) = false -> Tx.value tx = 0).
Proof.
  intros [_ E] [] Ht Hp Hb. apply validation_decides in E as [_ E]; [|done].
  rewrite decide_False in E by done. destruct E. unfold pays in ac_pays. rewrite Hp in ac_pays.
  pose proof (locked_nonneg s (Tx.from tx) (height ctx)). cbn [validation_context sender_locked vc_base_fee] in *.
  split_and!; [lia|lia|naive_solver].
Qed.

(** What happens in front of the handler of an admitted transaction whose sender
    pays: the nonce is burned, the sender is charged for the gas limit and the
    value. *)
Lemma entered (fuel : nat) (tx : Transaction) s (ctx : BlockContext) :
  let a := Tx.from tx in let b := Tx.to tx in
  admitted s tx ctx -> wf_tx tx ctx -> Tx.tx_type tx <> RegisterPubkey -> Tx.fee_payer tx = Sender ->
  wf_nonce (load_nonce s a) -> in_range u128 (balance (load_account s a)) ->
  in_range u128 (balance (load_account s b) + Tx.value tx) ->
  exists s1, execute_transaction fuel tx s ctx =
    run_bind (dispatch_type fuel tx (charged tx ctx (load_account s a)) s1 ctx) (fun '(s2, sender, r) =>
      match r with
      | Err e => Returns (s2, Err e)
      | Ok out => Returns (finish_transaction tx ctx (load_account s a) (load_account s b) sender
                             (paid tx (load_account s b)) out s2)
      end) /\
    (forall k, k <> nonce_key a -> smt_get s1 k = smt_get s k) /\ wf_nonce (load_nonce s1 a) /\
    forall m, in_range u64 m -> (consumed (load_nonce s1 a) m <-> consumed (load_nonce s a) m \/ m = Tx.nonce tx).
Proof.
  intros a b Ad W Ht Hp Wn Ha Hb. pose proof (admitted_pays s tx ctx Ad W Ht Hp (proj1 Ha)) as (Pay & Min & Hv).
  destruct Ad as [Pz V]. destruct W.
  destruct (use_nonce_valid (load_nonce s a) (Tx.nonce tx)) as [ns' U]; [by eapply validated_nonce|].
  destruct (nonce_burned s a (Tx.nonce tx) ns') as (Es & El & W' & Hc); [done..|].
  exists (put (nonce_key a) (NonceState_to_bytes ns') s).
  split; [|split; [intros; by apply get_put_ne|rewrite El; done]].
  unfold execute_transaction. fold a.
  assert (is_paused s (height ctx) && negb (bool_decide (Tx.tx_type tx = EmergencyResume)) = false) as ->
    by (destruct Pz as [-> | ->]; [done|]; by rewrite bool_decide_true, andb_false_r).
  fold a in V. rewrite V, U, Es. unfold charge_and_run. fold b.
  fold a in Pay. unfold in_range in *. assert (0 <= Tx.gas_limit tx * base_fee ctx) as HG by nia.
  set (A := load_account s a) in *. set (B := load_account s b) in *.
  assert (pre_execution_charge tx (balance A) (gas_tank A) (base_fee ctx) =
          Ok (Tx.gas_limit tx * base_fee ctx, balance A - Tx.gas_limit tx * base_fee ctx, gas_tank A)) as ->.
  { unfold pre_execution_charge, checked_mul, checked_add. rewrite Hp.
    destruct (Z.ltb_spec (Tx.gas_limit tx * base_fee ctx) (2 ^ u128)); [|lia].
    destruct (Z.ltb_spec (Tx.gas_limit tx * base_fee ctx + Tx.value tx) (2 ^ u128)); [|lia].
    destruct (Z.ltb_spec (balance A) (Tx.gas_limit tx * base_fee ctx + Tx.value tx)); [lia|done]. }
  cbn [set_balance set_gas_tank balance].
  assert ((if carries_value (Tx.tx_type tx) then
             Execution.transfer_value (balance A - Tx.gas_limit tx * base_fee ctx) (balance B) (Tx.value tx)
           else Ok (balance A - Tx.gas_limit tx * base_fee ctx, balance B)) =
          Ok (balance A - Tx.gas_limit tx * base_fee ctx - Tx.value tx, balance B + Tx.value tx)) as ->.
  { destruct (carries_value (Tx.tx_type tx)); [|rewrite Hv by done; do 2 f_equal; lia].
    unfold Execution.transfer_value. destruct (Z.eqb_spec (Tx.value tx) 0) as [->|]; [do 2 f_equal; lia|].
    destruct (Z.ltb_spec (balance A - Tx.gas_limit tx * base_fee ctx) (Tx.value tx)); [lia|].
    by rewrite wrap_small by (unfold in_range; lia). }
  done.
Qed.

Lemma load_account_frame s s' (l : list Address) :
  (forall a, a ∈ l -> smt_get s' (balance_key a) = smt_get s (balance_key a)) ->
  (forall a, a ∈ l -> load_account s' a = load_account s a) /\ (good_accounts s l -> good_accounts s' l).
Proof.
  intros F. assert (forall a, a ∈ l -> load_account s' a = load_account s a) as E
    by (intros a Ha; by apply load_account_ne, F).
  split; [done|]. unfold good_accounts. rewrite !Forall_forall. intros G a Ha. unfold good_account.
  rewrite E by done. by apply G.
Qed.

(** What a plain transfer leaves behind. *)
Record transferred (tx : Transaction) (fee : Z) s s' : Prop := {
  tr_accounts : forall x, x ∈ [Tx.from tx; Tx.to tx] -> load_account s' x =
    set_balance (balance (load_account s x) - (if decide (x = Tx.from tx) then Tx.value tx + fee else 0) +
                 (if decide (x = Tx.to tx) then Tx.value tx else 0)) (load_account s x);
  tr_nonces : forall m, in_range u64 m ->
    (consumed (load_nonce s' (Tx.from tx)) m <-> consumed (load_nonce s (Tx.from tx)) m \/ m = Tx.nonce tx);
  tr_frame : forall k, k ∉ key_of <$> [KNonce (Tx.from tx); KBalance (Tx.from tx); KBalance (Tx.to tx)] ->
    smt_get s' k = smt_get s k
}.

(** [C18] A validated standard transaction whose fee the sender pays, to the zero
    address or an account without code, succeeds and does exactly this, when the
    records of the two accounts are well-formed and at different keys and the
    balances are below 2^127: the sender loses the value and 21000 gas at the base fee, the
    recipient gains the value (also when it is the sender), the nonce is
    consumed and no other, and every other record of the state is what it was. *)
Theorem plain_transfer (fuel : nat) (tx : Transaction) s (ctx : BlockContext) :
  let a := Tx.from tx in let b := Tx.to tx in
  let fee := 21000 * base_fee ctx in
  Tx.tx_type tx = Standard -> Tx.fee_payer tx = Sender -> admitted s tx ctx -> wf_tx tx ctx ->
  b = ZERO_ADDRESS \/ Store.load_code s b = None ->
  separated [KNonce a; KCode b; KBalance a; KBalance b] -> good_accounts s [a; b] -> wf_nonce (load_nonce s a) ->
  balance (load_account s a) < 2 ^ 127 -> balance (load_account s b) + Tx.value tx < 2 ^ 127 ->
  exists s' r, execute_transaction fuel tx s ctx = Returns (s', Ok r) /\
    rc_success r = true /\ rc_fee_paid r = fee /\ transferred tx fee s s'.
Proof.
  intros a b fee Ht Hp Ad W Hc Sep Gd Wn Ba Bb.
  assert (good_account s a /\ good_account s b) as [[[] _] [[] _]].
  { unfold good_accounts in Gd. rewrite !Forall_cons in Gd. tauto. }
  unfold in_range in *.
  pose proof (admitted_pays s tx ctx Ad W) as Pay. destruct Pay as (Pay & Min & _); [by rewrite Ht|done|fold a; lia|].
  pose proof (wt_value tx ctx W). pose proof (wt_base_fee tx ctx W). pose proof (wt_gas_limit tx ctx W) as Hl.
  destruct (entered fuel tx s ctx) as (s1 & E & F1 & Wn1 & N1); [done|done|by rewrite Ht|done|done| | |];
    [unfold in_range; fold a b; lia..|]. fold a b in E, F1, Wn1, N1.
  assert (forall k, k ∈ [KCode b; KBalance a; KBalance b] -> smt_get s1 (key_of k) = smt_get s (key_of k)) as F1'.
  { intros k Hk. apply F1. apply (separated_ne _ k (KNonce a) Sep); set_solver. }
  destruct (load_account_frame s s1 [a; b]) as [L1 G1].
  { intros x Hx. apply (F1' (KBalance x)). set_solver. }
  rewrite plain_dispatch in E; [|done|].
  2:{ destruct Hc as [|Hc]; [by left|right]. rewrite <- Hc. apply (F1' (KCode b)). set_solver. }
  cbn [run_bind] in E. fold a in Pay. assert (0 <= Tx.gas_limit tx * base_fee ctx) by (unfold in_range in Hl; nia).
  destruct (finish_spec s1 tx ctx (load_account s a) (load_account s b) (charged tx ctx (load_account s a))
              (paid tx (load_account s b)) (mkOut true 21000 0 [] []))
    as (s' & r & eff & Ef & _ & He & Hs & _ & Hfee & _ & _ & Ls & Fs); fold a b;
    rewrite ?(L1 a), ?(L1 b) by set_solver; unfold change; cbn [charged paid set_balance balance gas_used gas_refund];
    [done|done|done|unfold MIN_GAS_LIMIT in *; lia|done|
     by eapply separated_incl; [|exact Sep]; set_solver|by apply G1|split; try done; cbn; lia|split; try done; cbn; lia
    |lia|lia|destruct (decide (b = a)) as [->|]; lia|].
  rewrite Ef in E. exists s', r. split; [done|]. split; [done|]. specialize (He eq_refl).
  cbn [gas_used] in He. subst eff. split; [done|]. split; fold a b.
  - intros x Hx. rewrite Ls, L1 by done. unfold change. cbn [charged paid set_balance balance].
    f_equal. subst fee. fold a b. destruct (decide (x = a)), (decide (x = b)); subst; lia.
  - intros m Hm. rewrite <- N1 by done. unfold load_nonce at 1. rewrite Fs; [done|..];
      [apply (separated_ne _ (KNonce a) (KBalance a) Sep)|apply (separated_ne _ (KNonce a) (KBalance b) Sep)]; set_solver.
  - intros k Hk. cbn in Hk. rewrite Fs, F1 by set_solver. done.
Qed.
End Transfers.

(** ** Witnesses *)

Definition devnet (h fee : Z) : BlockContext := mkBlock h 0 fee 1000000 DEVNET bob false false.

Definition simple_transfer (from to : Address) (v : Z) : Transaction :=
  Tx.mkTx from to v [] 30000 3 [] Sender [] None DEVNET Standard.

Lemma plain_transfer_witness :
  let tx := simple_transfer alice bob 500 in
  exists s' r, execute_transaction 0 tx small_world (devnet 9 2) = Returns (s', Ok r) /\
    rc_success r = true /\ rc_fee_paid r = 42000 /\ transferred tx 42000 small_world s'.
Proof.
  intros tx. apply (plain_transfer 0 tx small_world (devnet 9 2)).
  - reflexivity.
  - reflexivity.
  - split; [left|]; vm_compute; reflexivity.
  - split; first [discriminate|split; [discriminate|reflexivity]].
  - right. vm_compute. reflexivity.
  - apply separatedb_ok. vm_compute. reflexivity.
  - constructor; [|constructor; [|constructor]].
    + apply (funded_good _ _ 100000); [vm_compute; reflexivity|reflexivity|split; [discriminate|reflexivity]].
    + apply (funded_good _ _ 7); [vm_compute; reflexivity|reflexivity|split; [discriminate|reflexivity]].
  - assert (load_nonce small_world alice = NonceState_new) as E by (vm_compute; reflexivity).
    cbn [tx simple_transfer Tx.from]. rewrite E. exact fresh_nonce_wf.
  - vm_compute. reflexivity.
  - vm_compute. reflexivity.
Defined.
