(* ===== verification/Footprint.v ===== *)
(** * What a transaction may touch

    A transaction that runs no contract code returns, whatever happens to it,
    and changes only the records of its footprint; once validated it burns its
    nonce, so that it cannot be executed again. *)

From stdpp Require Import base numbers list option gmap strings pretty.
From Stdlib Require Import ZArith Lia.
From S2P Require Import Prelude Crypto Isa Cpu Memory Vm VmStep Wire Keys Nonce Account Economics Airdrop.
From S2P Require Import Multisig State Transaction Validation Execution Store Handlers HandlerProps.
From S2P Require Import GovernanceProps Pipeline PipelineProps.

#[local] Open Scope Z_scope.
#[local] Open Scope pyde_scope.

Section Footprint.
Context {P : Primitives} {St : Type} `{StateAccessOk St}.
Implicit Types s : St.

(** The accounts a transaction may write, beside contract code. *)
Definition touched_accounts (tx : Transaction) : list Address :=
  Tx.from tx :: Tx.to tx ::
  match Tx.tx_type tx with
  | ClaimAirdrop => [airdrop_pool_address]
  | SweepAirdrop => [airdrop_pool_address; treasury_address]
  | MultisigTx =>
      treasury_address :: match payload_decode (Tx.data tx) with Some (Spend sp _) => [target sp] | _ => [] end
  | _ => []
  end.

(** The other records it may write, its nonce apart. *)
Definition touched_records (tx : Transaction) s : list state_key :=
  match Tx.tx_type tx with
  | StakeDeposit =>
      [KValidator (Tx.from tx); KValidatorCount; KValidatorIndex (validator_count s); KActiveValidatorCount]
  | StakeWithdraw => [KValidator (Tx.from tx); KActiveValidatorCount]
  | ClaimReward => [KValidator (Tx.from tx)]
  | Slash =>
      match decode_slash_evidence (Tx.data tx) with
      | Ok ev => [KValidator (signer ev); KActiveValidatorCount]
      | Err _ => []
      end
  | ClaimAirdrop => match claim_decode (Tx.data tx) with Some p => [KAirdropClaimed (leaf_index p)] | None => [] end
  | MultisigTx => [KMultisigNonce]
  | RotateMultisig => [KMultisigSigners; KMultisigThreshold; KMultisigNonce]
  | EmergencyPause | EmergencyResume => [KPauseEndSlot; KMultisigNonce]
  | _ => []
  end.

Definition touched (tx : Transaction) s : list state_key :=
  (KBalance <$> touched_accounts tx) ++ touched_records tx s.

(** ** Staying inside a footprint *)

Section Stays.
Context (l : list Address) (rs : list state_key).
Context (Sep : separated ((KBalance <$> l) ++ rs)).
Context (Rec : Forall (fun r => match r with KBalance _ => False | _ => True end) rs).

Definition stays s s' : Prop :=
  good_accounts s' l /\ forall k, k ∉ key_of <$> (KBalance <$> l) ++ rs -> smt_get s' k = smt_get s k.

Lemma stays_refl s : good_accounts s l -> stays s s.
Proof. by split. Qed.

Lemma stays_trans s1 s2 s3 : stays s1 s2 -> stays s2 s3 -> stays s1 s3.
Proof. intros [_ F1] [G F2]. split; [done|]. intros k Hk. by rewrite F2, F1. Qed.

Lemma stays_put s s' (r : state_key) (v : list Z) : r ∈ rs -> stays s s' -> stays s (put (key_of r) v s').
Proof.
  intros Hr [G F]. split.
  - apply good_accounts_put; [|done]. intros a Ha. change (balance_key a) with (key_of (KBalance a)).
    apply (separated_ne _ _ _ Sep); [set_solver|apply elem_of_app; left; by apply list_elem_of_fmap_2|].
    rewrite Forall_forall in Rec. specialize (Rec r Hr). by destruct r.
  - intros k Hk. rewrite get_put_ne; [by apply F|]. intros <-. apply Hk, list_elem_of_fmap_2. set_solver.
Qed.

Lemma stays_store s s' (acct : Account) :
  address acct ∈ l -> wf_account acct -> stays s s' ->
  stays s (put (balance_key (address acct)) (Account_to_bytes acct) s').
Proof.
  intros Ha W [G F]. destruct (store_account_spec s' l acct) as [G' _]; [|done..|].
  { eapply separated_incl; [|exact Sep]. set_solver. }
  split; [done|]. intros k Hk. rewrite get_put_ne; [by apply F|]. intros <-. apply Hk.
  change (balance_key (address acct)) with (key_of (KBalance (address acct))).
  apply list_elem_of_fmap_2. apply elem_of_app. left. by apply list_elem_of_fmap_2.
Qed.

Lemma stays_good s s' (a : Address) : stays s s' -> a ∈ l -> good_account s' a.
Proof. intros [G _]. by apply good_at. Qed.

(** ** The end of the transaction *)

Lemma apply_delta_range (current i f : Z) : in_range u128 current -> in_range u128 (apply_delta current i f).
Proof.
  intros Hc. unfold apply_delta. set (d := to_signed _ _). pose proof (wrap_range u128 (- d)) as R.
  unfold saturating_add, saturating_sub, in_range in *. destruct (Z.leb_spec 0 d); lia.
Qed.

(** An account whose keys and nonce can be stored. *)
Definition storable (a : Account) : Prop :=
  wf_auth (auth_keys a) /\ len (AuthKeys_to_bytes (auth_keys a)) < 2 ^ 32 /\ in_range u64 (nonce a).

Lemma delta_account_wf (current i f : Account) :
  wf_account current -> storable f -> wf_account (delta_account current i f) /\
  address (delta_account current i f) = address current.
Proof.
  intros [] (? & ? & ?). unfold delta_account.
  pose proof (apply_delta_range (balance current) (balance i) (balance f) wa_balance).
  pose proof (apply_delta_range (gas_tank current) (gas_tank i) (gas_tank f) wa_gas_tank).
  destruct (decide (auth_keys f = auth_keys i)), (nonce f =? nonce i); by split; [split|].
Qed.

Lemma stays_delta s s' (a : Address) (i f : Account) :
  a ∈ l -> storable f -> stays s s' -> exists s2, apply_account_delta a i f s' = (s2, Ok tt) /\ stays s s2.
Proof.
  intros Ha Sf S. destruct (stays_good s s' a S Ha) as [W Ea].
  destruct (delta_account_wf (load_account s' a) i f W Sf) as [W' Ea'].
  rewrite apply_account_delta_put. eexists. split; [done|]. cbv zeta. apply stays_store; [|done|done].
  by rewrite Ea', Ea.
Qed.

Lemma wf_storable (a : Account) : wf_account a -> storable a.
Proof. by intros []. Qed.
End Stays.

(** ** The handlers *)

Ltac records := repeat (constructor; [done|]); constructor.

Lemma touched_records_ok (tx : Transaction) s :
  Forall (fun r => match r with KBalance _ => False | _ => True end) (touched_records tx s).
Proof.
  unfold touched_records. destruct (Tx.tx_type tx); try records.
  - destruct (decode_slash_evidence (Tx.data tx)); records.
  - destruct (claim_decode (Tx.data tx)); records.
Qed.

(** No contract code runs. *)
Definition runs_no_code (tx : Transaction) s : Prop :=
  Tx.tx_type tx <> Deploy /\
  (Tx.tx_type tx = Standard -> Tx.to tx = ZERO_ADDRESS \/ Store.load_code s (Tx.to tx) = None).

Section Handled.
Context (tx : Transaction) (s : St) (ctx : BlockContext).
Context (Sep : separated (touched tx s)) (G : good_accounts s (touched_accounts tx)) (Data : bytes_ok (Tx.data tx)).
#[local] Abbreviation inside := (stays (touched_accounts tx) (touched_records tx s)).

Lemma inside_put s' (r : state_key) (v : list Z) : r ∈ touched_records tx s -> inside s s' -> inside s (put (key_of r) v s').
Proof. apply stays_put; [exact Sep|apply touched_records_ok]. Qed.

Lemma inside_store s' (a : Address) (x : Z) :
  a ∈ touched_accounts tx -> in_range u128 x -> inside s s' ->
  inside s (store_account (set_balance x (load_account s a)) s').1.
Proof.
  intros Ha Hx I. rewrite store_account_put. cbn [fst].
  destruct (good_at s _ a G Ha) as [W E].
  apply (stays_store _ _ Sep); [apply touched_records_ok|by rewrite <- E in Ha|by apply set_balance_wf|done].
Qed.

Lemma good_balance (a : Address) : a ∈ touched_accounts tx -> in_range u128 (balance (load_account s a)).
Proof. intros Ha. by destruct (good_at s _ a G Ha) as [[] _]. Qed.

Lemma saturating_add_range (w x y : Z) : 0 <= w -> 0 <= x -> 0 <= y -> in_range w (saturating_add w x y).
Proof. intros Hw Hx Hy. unfold saturating_add, in_range. assert (0 < 2 ^ w) by by apply Z.pow_pos_nonneg. lia. Qed.

Lemma handled_deposit (sb : Z) : Tx.tx_type tx = StakeDeposit -> inside s (execute_stake_deposit tx sb s).1.1.
Proof.
  intros Ht. pose proof (stays_refl _ (touched_records tx s) s G) as R.
  assert (forall r, r ∈ touched_records tx s <->
    r ∈ [KValidator (Tx.from tx); KValidatorCount; KValidatorIndex (validator_count s); KActiveValidatorCount]) as Hr
    by (unfold touched_records; by rewrite Ht).
  unfold execute_stake_deposit. repeat (case_match; [done|]).
  set (s1 := put (validator_key (Tx.from tx)) _ s). cbn [fst].
  assert (default 0 (read_u64_state s1 validator_count_key) = validator_count s) as ->.
  { unfold validator_count, s1. rewrite read_u64_ne; [done|].
    apply (separated_ne _ (KValidator (Tx.from tx)) KValidatorCount Sep); unfold touched; set_solver. }
  unfold increment_active_validator_count.
  apply (inside_put _ KActiveValidatorCount); [set_solver|]. apply (inside_put _ (KValidatorIndex _)); [set_solver|].
  apply (inside_put _ KValidatorCount); [set_solver|]. apply (inside_put _ (KValidator _)); [set_solver|]. done.
Qed.

Lemma handled_entry (sb : Z) :
  (Tx.tx_type tx = StakeWithdraw -> inside s (execute_stake_withdraw tx ctx s).1) /\
  (Tx.tx_type tx = ClaimReward -> inside s (execute_claim_reward tx sb s).1.1).
Proof.
  pose proof (stays_refl _ (touched_records tx s) s G) as R. split; intros Ht.
  - assert (forall r, r ∈ touched_records tx s <-> r ∈ [KValidator (Tx.from tx); KActiveValidatorCount]) as Hr
      by (unfold touched_records; by rewrite Ht).
    unfold execute_stake_withdraw, decrement_active_validator_count. repeat case_match; try done. cbn [fst].
    apply (inside_put _ KActiveValidatorCount); [set_solver|]. apply (inside_put _ (KValidator _)); [set_solver|]. done.
  - assert (forall r, r ∈ touched_records tx s <-> r ∈ [KValidator (Tx.from tx)]) as Hr
      by (unfold touched_records; by rewrite Ht).
    unfold execute_claim_reward. repeat case_match; try done. cbn [fst].
    apply (inside_put _ (KValidator _)); [set_solver|]. done.
Qed.

Lemma handled_slash (chain sb : Z) : Tx.tx_type tx = Slash -> inside s (execute_slash chain tx sb s).1.1.
Proof.
  intros Ht. pose proof (stays_refl _ (touched_records tx s) s G) as R.
  destruct (slash_cases chain tx sb s) as [(msg & -> & _)|(ev & e & C & ->)]; [done|]. cbn [fst].
  assert (forall r, r ∈ touched_records tx s <-> r ∈ [KValidator (signer ev); KActiveValidatorCount]) as Hr
    by (unfold touched_records; rewrite Ht; by rewrite (cv_decode _ _ _ _ _ C)).
  assert (inside s (put (validator_key (signer ev)) (entry_encode (set_status 2 None
            (set_stake (saturating_sub (stake e) (Z.min (stake e) VALIDATOR_STAKE)) e))) s)) as I.
  { apply (inside_put _ (KValidator _)); [set_solver|done]. }
  cbv zeta. destruct (status e =? 0); [|done]. unfold decrement_active_validator_count.
  apply (inside_put _ KActiveValidatorCount); [set_solver|done].
Qed.

Lemma handled_airdrop (sb : Z) :
  (Tx.tx_type tx = ClaimAirdrop -> inside s (execute_claim_airdrop tx ctx sb s).1.1) /\
  (Tx.tx_type tx = SweepAirdrop -> inside s (execute_sweep_airdrop tx ctx s).1).
Proof.
  pose proof (stays_refl _ (touched_records tx s) s G) as R. split; intros Ht.
  - destruct (claim_cases tx ctx sb s) as [(gas & msg & -> & _)|(p & gas & C & ->)]; [done|]. cbn [fst].
    assert (airdrop_pool_address ∈ touched_accounts tx) as Ha by (unfold touched_accounts; rewrite Ht; set_solver).
    apply (inside_put _ (KAirdropClaimed _)).
    { unfold touched_records. rewrite Ht. rewrite (ca_decode _ _ _ _ C). set_solver. }
    pose proof (good_balance _ Ha) as Hb. destruct C as [Dec _ _ _ _ Fu].
    apply claim_encode_decode in Dec as [[]]; [|done].
    apply inside_store; [done|unfold in_range in *; lia|done].
  - assert (airdrop_pool_address ∈ touched_accounts tx /\ treasury_address ∈ touched_accounts tx) as [Ha Ht']
      by (unfold touched_accounts; rewrite Ht; set_solver).
    pose proof (good_balance _ Ha) as [Hb _]. pose proof (good_balance _ Ht') as [Hb' _].
    unfold execute_sweep_airdrop. repeat (case_match; [done|]). case_match; [|done]. repeat (case_match; [done|]).
    assert (inside s (store_account (set_balance 0 (load_account s airdrop_pool_address)) s).1) as I
      by (apply inside_store; [done|done|done]).
    rewrite !store_account_put in *. cbn [fst] in *.
    pose proof (inside_store (put (balance_key (address (set_balance 0 (load_account s airdrop_pool_address))))
      (Account_to_bytes (set_balance 0 (load_account s airdrop_pool_address))) s) treasury_address
      (saturating_add u128 (balance (load_account s treasury_address)) (balance (load_account s airdrop_pool_address)))) as J.
    rewrite store_account_put in J. apply J; [done|by apply saturating_add_range|done].
Qed.

Lemma handled_multisig :
  (Tx.tx_type tx = MultisigTx -> inside s (execute_multisig_spend tx ctx s).1) /\
  (Tx.tx_type tx = RotateMultisig -> inside s (execute_rotate_multisig tx ctx s).1).
Proof.
  pose proof (stays_refl _ (touched_records tx s) s G) as R. split; intros Ht.
  - destruct (spend_cases tx ctx s) as [(gas & msg & -> & _)|(sp & sigs & gas & C & ->)]; [done|]. cbn [fst].
    destruct C as [Dec _ _ _ _ _ Fu]. assert (treasury_address ∈ touched_accounts tx /\ target sp ∈ touched_accounts tx) as [Ha Hs].
    { unfold touched_accounts. rewrite Ht, Dec. set_solver. }
    apply (inside_put _ KMultisigNonce); [unfold touched_records; rewrite Ht; set_solver|].
    apply payload_encode_decode in Dec as [Wp _]; [|done]. destruct Wp as [[_ [[Hv _] _]] _].
    pose proof (good_balance _ Ha) as Hb. pose proof (good_balance _ Hs) as [Hb' _].
    pose proof (inside_store s treasury_address (balance (load_account s treasury_address) - spend_value sp) Ha) as I.
    rewrite store_account_put in I. cbn [fst] in I.
    pose proof (inside_store (put (balance_key (address (load_account s treasury_address))) (Account_to_bytes
      (set_balance (balance (load_account s treasury_address) - spend_value sp) (load_account s treasury_address))) s)
      (target sp) (saturating_add u128 (balance (load_account s (target sp))) (spend_value sp)) Hs) as J.
    rewrite store_account_put in J. apply J; [by apply saturating_add_range|].
    apply I; [unfold in_range in *; lia|done].
  - destruct (rotate_cases tx ctx s) as [(gas & msg & -> & _)|(r & sigs & gas & _ & ->)]; [done|]. cbn [fst].
    assert (forall k, k ∈ touched_records tx s <-> k ∈ [KMultisigSigners; KMultisigThreshold; KMultisigNonce]) as Hr
      by (unfold touched_records; by rewrite Ht).
    apply (inside_put _ KMultisigNonce); [set_solver|]. apply (inside_put _ KMultisigThreshold); [set_solver|].
    unfold write_multisig_signers. destruct (encode_signer_set (new_signer_pks r)); [|done].
    apply (inside_put _ KMultisigSigners); [set_solver|done].
Qed.

Lemma handled_pause :
  (Tx.tx_type tx = EmergencyPause -> inside s (execute_emergency_pause tx ctx s).1) /\
  (Tx.tx_type tx = EmergencyResume -> inside s (execute_emergency_resume tx ctx s).1).
Proof.
  pose proof (stays_refl _ (touched_records tx s) s G) as R. split; intros Ht.
  all: assert (forall k, k ∈ touched_records tx s <-> k ∈ [KPauseEndSlot; KMultisigNonce]) as Hr
    by (unfold touched_records; by rewrite Ht).
  - destruct (pause_cases tx ctx s) as [(gas & msg & -> & _)|(p & gas & _ & ->)]; [done|]. cbn [fst].
    apply (inside_put _ KMultisigNonce); [set_solver|]. apply (inside_put _ KPauseEndSlot); [set_solver|done].
  - destruct (resume_cases tx ctx s) as [(gas & msg & -> & _)|(p & gas & _ & ->)]; [done|]. cbn [fst].
    apply (inside_put _ KMultisigNonce); [set_solver|]. apply (inside_put _ KPauseEndSlot); [set_solver|done].
Qed.

Lemma dispatched (fuel : nat) (sender : Account) :
  runs_no_code tx s -> (Tx.tx_type tx = RegisterPubkey -> len (Tx.data tx) = FalconPublicKey_SIZE) -> storable sender ->
  exists s2 sender2 out, dispatch_type fuel tx sender s ctx = Returns (s2, sender2, Ok out) /\
    inside s s2 /\ storable sender2.
Proof.
  intros [Nd Nc] Hk Sf. pose proof (stays_refl _ (touched_records tx s) s G) as R.
  assert (forall r : St * Z * TxOut, inside s r.1.1 -> exists s2 sender2 out,
    with_balance sender r = Returns (s2, sender2, Ok out) /\ inside s s2 /\ storable sender2) as Wb.
  { intros [[s2 b] out] I. by exists s2, (set_balance b sender), out. }
  assert (forall r : St * TxOut, inside s r.1 -> exists s2 sender2 out,
    without_balance sender r = Returns (s2, sender2, Ok out) /\ inside s s2 /\ storable sender2) as Wo.
  { intros [s2 out] I. by exists s2, sender, out. }
  unfold dispatch_type. destruct (Tx.tx_type tx) eqn:Ht.
  - destruct (decide (Tx.to tx = ZERO_ADDRESS)); [by eexists _, _, _|].
    destruct (Nc eq_refl) as [|E]; [done|]. rewrite E. by eexists _, _, _.
  - done.
  - apply Wb, handled_deposit; done.
  - apply Wo. by apply (handled_entry 0).
  - apply Wb, handled_slash; done.
  - apply Wb. by apply handled_entry.
  - apply Wb. by apply handled_airdrop.
  - apply Wo. by apply (handled_airdrop 0).
  - apply Wo. by apply handled_multisig.
  - apply Wo. by apply handled_multisig.
  - apply Wo. by apply handled_pause.
  - apply Wo. by apply handled_pause.
  - eexists _, _, _. split; [reflexivity|]. split; [done|]. specialize (Hk eq_refl).
    unfold storable, FalconPublicKey_SIZE in *. cbn [set_auth_keys auth_keys wf_auth AuthKeys_to_bytes nonce].
    split; [lia|]. split; [|by apply Sf]. unfold write_prefixed, len in *.
    rewrite !length_app, length_le_encode. cbn [length]. lia.
Qed.

Lemma charged_and_run (fuel : nat) (sender recipient : Account) :
  runs_no_code tx s -> (Tx.tx_type tx = RegisterPubkey -> len (Tx.data tx) = FalconPublicKey_SIZE) ->
  storable sender -> storable recipient ->
  exists s' res, charge_and_run fuel tx sender recipient s ctx = Returns (s', res) /\ inside s s'.
Proof.
  intros Nc Hk Ss Sr. pose proof (stays_refl _ (touched_records tx s) s G) as R.
  assert (Tx.from tx ∈ touched_accounts tx /\ Tx.to tx ∈ touched_accounts tx) as [Hf Ht]
    by (unfold touched_accounts; set_solver).
  pose proof (stays_delta _ _ Sep (touched_records_ok tx s) s) as D.
  unfold charge_and_run. destruct (pre_execution_charge _ _ _ _) as [[[c sb] gt]|e].
  2:{ unfold emit_failed_execution_receipt, bind.
      set (final := set_balance _ sender). destruct (D s (Tx.from tx) sender final Hf) as (s2 & E & I); [done..|].
      rewrite E. unfold gets, ret. eauto. }
  set (sender1 := set_gas_tank gt (set_balance sb sender)).
  destruct (if carries_value _ then _ else _) as [[sb' rb]|e]; [|eauto].
  destruct (dispatched fuel (set_balance sb' sender1) Nc Hk Ss) as (s2 & sender2 & out & -> & I2 & S2).
  cbn [run_bind]. unfold finish_transaction.
  destruct (post_execution_refund _ _ _ _ _) as [[eff ref] fb].
  set (final := match Tx.fee_payer tx with Sender => _ | GasTank _ => _ | Paymaster _ => _ end).
  assert (storable final) as Sf by (unfold final; by destruct (Tx.fee_payer tx)).
  destruct (D s2 (Tx.from tx) sender final Hf Sf I2) as (s3 & E3 & I3).
  destruct (D s3 (Tx.to tx) recipient (set_balance rb recipient) Ht Sr I3) as (s4 & E4 & I4).
  unfold bind. rewrite E3, E4. unfold gets, ret. eauto.
Qed.
End Handled.

(** ** The transaction *)

Lemma validated_register (tx : Transaction) (sender : Account) (ns : NonceState) (vc : ValidationContext) :
  0 <= Tx.value tx -> validate_transaction tx sender ns vc = Ok tt ->
  Tx.tx_type tx = RegisterPubkey -> len (Tx.data tx) = FalconPublicKey_SIZE.
Proof.
  intros Hv E Ht. apply validation_decides in E as [_ E]; [|done]. rewrite decide_True in E by done.
  destruct E as [_ _ _ [? _]]. done.
Qed.

Lemma consumed_invalid (ns : NonceState) (n : Z) :
  wf_nonce ns -> in_range u64 n -> consumed ns n -> is_valid ns n = false.
Proof.
  intros W Hn C. unfold is_valid. rewrite validate_spec by done.
  destruct (Z.ltb_spec n (base ns)); [done|]. destruct (base ns + 16 <=? n); [done|].
  destruct C as [|C]; [lia|]. by rewrite C.
Qed.

Lemma nonce_key_fresh (tx : Transaction) s (r : state_key) :
  let a := Tx.from tx in
  separated (KNonce a :: KCode (Tx.to tx) :: touched tx s) -> r ∈ KCode (Tx.to tx) :: touched tx s ->
  nonce_key a <> key_of r.
Proof.
  intros a Sep Hr. apply (separated_ne _ (KNonce a) r Sep); [set_solver|set_solver|]. intros <-. clear -Hr.
  apply elem_of_cons in Hr as [|[(x & ? & _)%list_elem_of_fmap|Hr]%elem_of_app]; [done..|].
  unfold touched_records in Hr. destruct (Tx.tx_type tx); repeat case_match; set_solver.
Qed.

(** Behind the nonce, the footprint is still the one computed in front of it. *)
Lemma burned_footprint (tx : Transaction) s (v : list Z) :
  let a := Tx.from tx in let s1 := put (nonce_key a) v s in
  separated (KNonce a :: KCode (Tx.to tx) :: touched tx s) ->
  touched_records tx s1 = touched_records tx s /\
  (good_accounts s (touched_accounts tx) -> good_accounts s1 (touched_accounts tx)) /\
  (runs_no_code tx s -> runs_no_code tx s1).
Proof.
  intros a s1 Sep. pose proof (fun r => nonce_key_fresh tx s r Sep) as Nn. fold a in Nn. split_and!.
  - unfold touched_records. destruct (Tx.tx_type tx) eqn:Ht; try done. unfold validator_count.
    do 4 f_equal. unfold s1. rewrite read_u64_ne; [done|].
    apply (Nn KValidatorCount). unfold touched, touched_records. rewrite Ht. set_solver.
  - apply good_accounts_put. intros x Hx. apply (Nn (KBalance x)). right. unfold touched. apply elem_of_app. left.
    by apply list_elem_of_fmap_2.
  - intros [N1 N2]. split; [done|]. intros Ht. destruct (N2 Ht) as [|E]; [by left|right]. rewrite <- E.
    apply get_put_ne. apply (Nn (KCode (Tx.to tx))). set_solver.
Qed.

Lemma replay_refused (fuel : nat) (tx : Transaction) s (ctx : BlockContext) :
  0 <= Tx.value tx -> is_valid (load_nonce s (Tx.from tx)) (Tx.nonce tx) = false ->
  exists e, execute_transaction fuel tx s ctx = Returns (s, Err e).
Proof.
  intros Hv Hn. unfold execute_transaction. destruct (is_paused _ _ && _); [by eexists|].
  destruct (validate_transaction _ _ _ _) as [[]|e] eqn:V; [|by eexists].
  apply validated_nonce in V; [congruence|done].
Qed.

(** [C17] Execution returns, stays inside the footprint, and burns the nonce.  A
    validated transaction that runs no contract code comes back with a receipt
    or an error, whether it is charged, transfers, fails or succeeds; it leaves
    every record outside its footprint as it was; its nonce is consumed, and no
    other; and executing it again, in any later block, returns an error and
    changes nothing. *)
Theorem executed_once (fuel fuel2 : nat) (tx : Transaction) s (ctx ctx2 : BlockContext) :
  admitted s tx ctx -> wf_tx tx ctx -> bytes_ok (Tx.data tx) -> runs_no_code tx s ->
  separated (KNonce (Tx.from tx) :: KCode (Tx.to tx) :: touched tx s) ->
  good_accounts s (touched_accounts tx) -> wf_nonce (load_nonce s (Tx.from tx)) ->
  exists s' res, execute_transaction fuel tx s ctx = Returns (s', res) /\
    (forall k, k ∉ key_of <$> KNonce (Tx.from tx) :: touched tx s -> smt_get s' k = smt_get s k) /\
    (forall m, in_range u64 m ->
       (consumed (load_nonce s' (Tx.from tx)) m <-> consumed (load_nonce s (Tx.from tx)) m \/ m = Tx.nonce tx)) /\
    exists e, execute_transaction fuel2 tx s' ctx2 = Returns (s', Err e).
Proof.
  intros [Pz V] [] Hd Nc Sep G Wn. set (a := Tx.from tx) in *.
  destruct (use_nonce_valid (load_nonce s a) (Tx.nonce tx)) as [ns' U]; [by eapply validated_nonce|].
  destruct (nonce_burned s a (Tx.nonce tx) ns') as (Es & El & W' & Hc); [done..|].
  set (s1 := put (nonce_key a) (NonceState_to_bytes ns') s) in *.
  destruct (burned_footprint tx s (NonceState_to_bytes ns') Sep) as (Et & G1 & N1). fold a s1 in Et, G1, N1.
  assert (separated (touched tx s1)) as Sep'.
  { unfold touched. rewrite Et. eapply separated_incl; [|exact Sep]. unfold touched. set_solver. }
  destruct (good_at s _ a G) as [Wa _]; [unfold touched_accounts, a; set_solver|].
  destruct (good_at s _ (Tx.to tx) G) as [Wb _]; [unfold touched_accounts; set_solver|].
  destruct (charged_and_run tx s1 ctx Sep' (G1 G) Hd fuel (load_account s a) (load_account s (Tx.to tx)))
    as (s' & res & E & I); [by apply N1|by eapply validated_register|by apply wf_storable..|].
  destruct I as [_ F]. rewrite Et in F. fold (touched tx s) in F.
  assert (load_nonce s' a = ns') as El'.
  { rewrite <- El. unfold load_nonce. rewrite F; [done|]. intros (r & Er & Hr)%list_elem_of_fmap.
    apply (nonce_key_fresh tx s r Sep); [set_solver|done]. }
  exists s', res. split_and!.
  - unfold execute_transaction. fold a.
    assert (is_paused s (height ctx) && negb (bool_decide (Tx.tx_type tx = EmergencyResume)) = false) as ->
      by (destruct Pz as [-> | ->]; [done|]; by rewrite bool_decide_true, andb_false_r).
    by rewrite V, U, Es.
  - intros k Hk. rewrite fmap_cons in Hk. rewrite F by set_solver. apply get_put_ne. intros <-. apply Hk. left.
  - by rewrite El'.
  - apply replay_refused; [done|]. fold a. rewrite El'. apply consumed_invalid; [done..|]. apply Hc; [done|by right].
Qed.
End Footprint.

Definition gov_rich : MapState := with_account (funded alice 500000) gov_world.

Lemma executed_once_witness :
  let tx := gov_spend_tx in
  exists s' res, execute_transaction 0 tx gov_rich gov_ctx = Returns (s', res) /\
    (forall k, k ∉ key_of <$> KNonce (Tx.from tx) :: touched tx gov_rich -> smt_get s' k = smt_get gov_rich k) /\
    (forall m, in_range u64 m ->
       (consumed (load_nonce s' (Tx.from tx)) m <-> consumed (load_nonce gov_rich (Tx.from tx)) m \/ m = Tx.nonce tx)) /\
    exists e, execute_transaction 7 tx s' gov_ctx = Returns (s', Err e).
Proof.
  intros tx. apply (executed_once 0 7 tx gov_rich gov_ctx gov_ctx).
  - split; [left|]; vm_compute; reflexivity.
  - split; first [discriminate|split; [discriminate|reflexivity]].
  - apply bytes_okb_ok. vm_compute. reflexivity.
  - split; discriminate.
  - apply separatedb_ok. vm_compute. reflexivity.
  - constructor; [|constructor; [|constructor; [|constructor; [|constructor]]]].
    + apply (funded_good _ _ 500000); [vm_compute; reflexivity|reflexivity|split; [discriminate|reflexivity]].
    + apply (funded_good _ _ 0); [vm_compute; reflexivity|reflexivity|split; [discriminate|reflexivity]].
    + apply (funded_good _ _ 1000); [vm_compute; reflexivity|vm_compute; reflexivity|split; [discriminate|reflexivity]].
    + apply (funded_good _ _ 0); [vm_compute; reflexivity|reflexivity|split; [discriminate|reflexivity]].
  - assert (load_nonce gov_rich alice = NonceState_new) as E by (vm_compute; reflexivity).
    change (Tx.from tx) with alice. rewrite E. exact fresh_nonce_wf.
Defined.
