(* ===== verification/PipelineFindings.v ===== *)
(** * Where the pipeline departs from its documentation

    Concrete transactions, run by the model of [Pipeline]. *)

From stdpp Require Import base numbers list option gmap strings pretty.
From Stdlib Require Import ZArith Lia.
From S2P Require Import Prelude Crypto Isa Cpu Memory Vm VmStep VmProps Wire Keys Nonce Account Economics.
From S2P Require Import Airdrop Multisig State Transaction Validation Execution Store Handlers HandlerProps.
From S2P Require Import Pipeline PipelineProps.

#[local] Open Scope Z_scope.
#[local] Open Scope pyde_scope.

Definition with_code (a : Address) (code : list Z) (s : MapState) : MapState := put (code_key a) code s.

Definition rich : MapState := with_account (funded alice 1000000) PydeSMT_new.

Definition call_of (to : Address) (v : Z) : Transaction :=
  Tx.mkTx alice to v [] 100000 0 [] Sender [] None DEVNET Standard.

(** [r1 = 2^64 - 1], [r2 = 1], halt: a return of one byte at the last address. *)
Definition wrapping_return : list Z :=
  ins Opcode.Addi 1 0 (-1) ++ ins Opcode.Addi 2 0 1 ++ ins Opcode.Halt 0 0 0.

(** The bounds check of a returned blob wraps ([ptr + len] in [usize]), so a
    contract that returns the pointer [2^64 - 1] with length 1 passes it and the
    read behind the page table aborts the node. *)
Theorem return_pointer_aborts :
  execute_transaction 10 (call_of bob 0) (with_code bob wrapping_return rich) (devnet 9 1) = Panics.
Proof. vm_compute. reflexivity. Qed.

(** A call that reverts keeps the value: the receipt reports failure, and
    the contract has the money. *)
Theorem reverted_call_keeps_value :
  match execute_transaction 10 (call_of bob 5000) (with_code bob (ins Opcode.Revert 0 0 0) rich) (devnet 9 1) with
  | Returns (s', Ok r) => rc_success r = false /\ balance (load_account s' bob) = 5000
  | _ => False
  end.
Proof. vm_compute. split; reflexivity. Qed.

Definition deploy_of (data : list Z) : Transaction :=
  Tx.mkTx alice ZERO_ADDRESS 0 data 100000 0 [] Sender [] None DEVNET Deploy.

Definition reverting_constructor : list Z :=
  le_encode 4 4 ++ le_encode 4 4 ++ ins Opcode.Revert 0 0 0 ++ ins Opcode.Halt 0 0 0.

(** A deployment whose constructor reverts is reported as a success, and
    the code is installed. *)
Theorem reverted_constructor_deploys :
  match execute_transaction 10 (deploy_of reverting_constructor) rich (devnet 9 1) with
  | Returns (s', Ok r) =>
      rc_success r = true /\
      Store.load_code s' (rc_return_data r) = Some (ins Opcode.Halt 0 0 0)
  | _ => False
  end.
Proof. vm_compute. split; reflexivity. Qed.

(** Without a constructor the whole of [tx.data] becomes the code, the
    header included (the comment says [tx.data[4..]]). *)
Theorem headerless_deploy_keeps_header :
  let data := le_encode 4 0 ++ ins Opcode.Halt 0 0 0 in
  match execute_transaction 10 (deploy_of data) rich (devnet 9 1) with
  | Returns (s', Ok r) => rc_success r = true /\ Store.load_code s' (rc_return_data r) = Some data
  | _ => False
  end.
Proof. vm_compute. split; reflexivity. Qed.

(** A validator that is unbonding, with the accumulator at 5 when it left. *)
Definition unbonding_world : MapState :=
  write_rewards_per_validator 9
    (put (validator_key alice) (entry_encode (mkValidator (replicate 897 0) VALIDATOR_STAKE 1 5 (Some 3) None)) rich).

(** An unbonding validator keeps earning: a claim after the exit pays the
    growth of the accumulator since then. *)
Theorem unbonding_validator_is_paid :
  let r := execute_claim_reward (special_tx ClaimReward []) 100 unbonding_world in
  success r.2 = true /\ r.1.2 = 104.
Proof. vm_compute. split; reflexivity. Qed.

(** A slash with a gas limit below its fixed 100000 gas mints: the sender
    pays for 21000 gas and receives the finder's fee, while proposer and
    treasury are credited 30000. *)
Theorem slash_mints_fees :
  let tx := Tx.mkTx alice ZERO_ADDRESS 0 (evidence_encode double_sign) 21000 0 [] Sender [] None 0 Slash in
  let s := with_account (set_auth_keys (Single (replicate 897 0)) (funded alice 50000)) staked_world in
  match execute_transaction 0 tx s (mkBlock 9 0 1 1000000 0 bob true false) with
  | Returns (s', Ok r) =>
      balance (load_account s' alice) = 50000 - 21000 + VALIDATOR_STAKE / 10 /\
      rc_fee_paid r = 100000 /\ fee_validator r + fee_treasury r = 30000
  | _ => False
  end.
Proof. vm_compute. split_and!; reflexivity. Qed.
