(* ===== verification/Chain.v ===== *)
(** * Blocks, headers and the chain head

    [consensus/src/block.rs]: quorum certificates, headers and their hash, the
    commitment to the transactions; and [node/src/chain.rs]: the head of the
    chain with its recent headers. *)

From stdpp Require Import base numbers list option gmap strings pretty.
From Stdlib Require Import ZArith Lia.
From S2P Require Import Prelude Crypto Wire Nonce Account Economics Transaction.

#[local] Open Scope Z_scope.

Definition COMMITTEE_SIZE : Z := 128.
Definition QUORUM_THRESHOLD : Z := 86.
Definition EPOCH_LENGTH : Z := 1000.
Definition BLOCK_TIME_MS : Z := 400.

(** [(2 * n).div_ceil(3)] *)
Definition quorum_for_committee (committee_size : Z) : Z :=
  if committee_size =? 0 then 0 else (2 * committee_size + 2) / 3.

Record QuorumCert : Type := mkQC {
  qc_slot : Z;
  qc_block_hash : list Z;
  voter_bitmap : Z;
  qc_signatures : list (list Z)
}.

Definition vote_count (qc : QuorumCert) : Z := count_ones 128 (voter_bitmap qc).
Definition has_quorum (qc : QuorumCert) : bool := QUORUM_THRESHOLD <=? vote_count qc.
Definition has_quorum_for (qc : QuorumCert) (committee_size : Z) : bool :=
  quorum_for_committee committee_size <=? vote_count qc.

Definition QuorumCert_empty : QuorumCert := mkQC 0 H256_zero 0 [].

Record BlockHeader : Type := mkHeader {
  slot : Z;
  epoch : Z;
  parent_hash : list Z;
  proposer : Address;
  vrf_proof : list Z;
  qc_previous : QuorumCert;
  tx_root : list Z;
  state_root : list Z;
  timestamp : Z
}.

(** The groups of the execution schedule, and its [total_txs]. *)
Record BlockBody : Type := mkBody {
  transactions : list Transaction;
  encrypted_txs : list (list Z);
  groups : list (list nat);
  total_txs : Z
}.

Record Block : Type := mkBlk {
  header : BlockHeader;
  body : BlockBody;
  proposer_signature : list Z
}.

Section Hashes.
Context {P : Primitives}.

Definition qc_preimage (qc : QuorumCert) : list Z :=
  le_encode 8 (qc_slot qc) ++ qc_block_hash qc ++ le_encode 16 (voter_bitmap qc).
Definition qc_hash (qc : QuorumCert) : list Z := poseidon2_hash (qc_preimage qc).

Definition header_preimage (h : BlockHeader) : list Z :=
  le_encode 8 (slot h) ++ le_encode 8 (epoch h) ++ parent_hash h ++ proposer h ++ poseidon2_hash (vrf_proof h) ++
  tx_root h ++ le_encode 8 (timestamp h) ++ qc_hash (qc_previous h).
Definition header_hash (h : BlockHeader) : list Z := poseidon2_hash (header_preimage h).

Definition block_hash (b : Block) : list Z := header_hash (header b).
Definition tx_count (b : Block) : Z := len (transactions (body b)).
Definition block_is_genesis (b : Block) : bool :=
  (slot (header b) =? 0) && bool_decide (parent_hash (header b) = H256_zero).

Definition tx_root_preimage (txs : list Transaction) (encrypted_tx_hashes : list (list Z)) : list Z :=
  concat (tx_hash <$> txs) ++ concat encrypted_tx_hashes.

Definition compute_tx_root (txs : list Transaction) (encrypted_tx_hashes : list (list Z)) : list Z :=
  match txs, encrypted_tx_hashes with
  | [], [] => H256_zero
  | _, _ => poseidon2_hash (tx_root_preimage txs encrypted_tx_hashes)
  end.

Definition verify_tx_root (committed_tx_root : list Z) (txs : list Transaction)
    (encrypted_tx_hashes : list (list Z)) : bool :=
  bool_decide (compute_tx_root txs encrypted_tx_hashes = committed_tx_root).

Definition genesis_block (genesis_state_root : list Z) (ts : Z) : Block :=
  mkBlk (mkHeader 0 0 H256_zero H256_zero [] QuorumCert_empty H256_zero genesis_state_root ts)
    (mkBody [] [] [] 0) [].
End Hashes.

(** ** The head of the chain *)

Record ChainState : Type := mkChain {
  head_slot : Z;
  head_epoch : Z;
  head_state_root : list Z;
  headers : gmap Z BlockHeader;
  hash_to_slot : gmap (list Z) Z;
  genesis_hash : list Z;
  chain_base_fee : Z;
  cs_chain_id : Z
}.

Section Chain.
Context {P : Primitives}.

Definition ChainState_genesis (root : list Z) (chain_id : Z) : ChainState :=
  mkChain 0 0 root ∅ ∅ H256_zero GENESIS_BASE_FEE chain_id.

Definition set_base_fee (fee : Z) (c : ChainState) : ChainState :=
  mkChain (head_slot c) (head_epoch c) (head_state_root c) (headers c) (hash_to_slot c) (genesis_hash c) fee
    (cs_chain_id c).

Definition advance (h : BlockHeader) (c : ChainState) : ChainState :=
  let e := slot h / EPOCH_LENGTH in
  let hts := <[header_hash h := slot h]> (hash_to_slot c) in
  let hs := <[slot h := h]> (headers c) in
  let prune_before := (e - 1) * EPOCH_LENGTH in
  let '(hs, hts) :=
    if 2 <=? e then (filter (fun kv => prune_before <= kv.1) hs, filter (fun kv => prune_before <= kv.2) hts)
    else (hs, hts) in
  mkChain (slot h) e (state_root h) hs hts (genesis_hash c) (chain_base_fee c) (cs_chain_id c).

Definition header_at (c : ChainState) (s : Z) : option BlockHeader := headers c !! s.

Definition header_by_hash (c : ChainState) (hash : list Z) : option BlockHeader :=
  s ← hash_to_slot c !! hash; headers c !! s.

Definition chain_is_genesis (c : ChainState) : bool := (head_slot c =? 0) && bool_decide (headers c = ∅).

(** Dropping the headers above the target, in whatever order the map has. *)
Definition drop_header (acc : gmap Z BlockHeader * gmap (list Z) Z * Z) (s : Z) :
    gmap Z BlockHeader * gmap (list Z) Z * Z :=
  let '(hs, hts, dropped) := acc in
  match hs !! s with
  | Some h => (delete s hs, delete (header_hash h) hts, dropped + 1)
  | None => (hs, hts, dropped)
  end.

Definition revert (target_slot : Z) : ST ChainState string Z := fun c =>
  if head_slot c <? target_slot then
    (c, Err ("ChainState::revert: target " +:+ pretty target_slot +:+ " > head " +:+ pretty (head_slot c) +:+
             " (only backwards reverts valid)")%string)
  else if target_slot =? head_slot c then (c, Ok 0)
  else
    let target_header := if target_slot =? 0 then Some None else Some <$> headers c !! target_slot in
    match target_header with
    | None =>
        (c, Err ("ChainState::revert: target slot " +:+ pretty target_slot +:+
                 " header not in memory (likely pruned beyond 2-epoch window — fall back to snapshot restore)")%string)
    | Some target_header =>
        let to_drop := filter (fun s => target_slot < s) (map_to_list (headers c)).*1 in
        let '(hs, hts, dropped) := foldl drop_header (headers c, hash_to_slot c, 0) to_drop in
        (mkChain target_slot (target_slot / EPOCH_LENGTH)
           (match target_header with Some h => state_root h | None => H256_zero end)
           hs hts (genesis_hash c) (chain_base_fee c) (cs_chain_id c), Ok dropped)
    end.
End Chain.

(** ** Quorums intersect *)

Lemma filter_incl_excl {A : Type} (p q : A -> Prop) `{!forall x, Decision (p x), !forall x, Decision (q x)} (l : list A) :
  (length (filter p l) + length (filter q l) =
   length (filter (fun x => p x \/ q x) l) + length (filter (fun x => p x /\ q x) l))%nat.
Proof.
  induction l as [|x l IH]; [done|]. rewrite !filter_cons.
  destruct (decide (p x)), (decide (q x)), (decide (p x \/ q x)), (decide (p x /\ q x)); cbn [length]; tauto || lia.
Qed.

Lemma count_ones_land (w : nat) (a b n : Z) :
  in_range n a -> in_range n b -> 0 <= n ->
  count_ones w a + count_ones w b <= n + count_ones w (Z.land a b).
Proof.
  intros Ha Hb Hn. unfold count_ones, len.
  set (p := fun i => Z.testbit a (Z.of_nat i) = true). set (q := fun i => Z.testbit b (Z.of_nat i) = true).
  pose proof (filter_incl_excl p q (seq 0 w)) as E.
  assert (length (filter (fun i => p i \/ q i) (seq 0 w)) <= Z.to_nat n)%nat as L.
  { transitivity (length (seq 0 (Z.to_nat n))); [|by rewrite length_seq].
    apply submseteq_length, NoDup_submseteq.
    - apply NoDup_filter, NoDup_seq.
    - intros i [Hi _]%list_elem_of_filter. apply elem_of_seq. split; [lia|]. cbn.
      destruct (Z.leb_spec n (Z.of_nat i)) as [L|]; [|lia]. exfalso. unfold p, q in Hi.
      apply in_range_bits in Ha as [_ Fa], Hb as [_ Fb]; [|done..]. rewrite Fa, Fb in Hi by done. by destruct Hi. }
  assert (length (filter (fun i => Z.testbit (Z.land a b) (Z.of_nat i) = true) (seq 0 w)) =
          length (filter (fun i => p i /\ q i) (seq 0 w))) as ->.
  { f_equal. apply list_filter_iff. intros i. unfold p, q. by rewrite Z.land_spec, andb_true_iff. }
  lia.
Qed.

(** Two quorum certificates of one committee have an honest voter in
    common: for a committee of [n] members with votes of members only, more than
    a third of the members are in both bitmaps, so fewer than a third of faulty
    members cannot certify two blocks of a slot without an honest member voting
    twice. *)
Theorem quorums_intersect (n : Z) (qc1 qc2 : QuorumCert) :
  1 <= n <= COMMITTEE_SIZE -> in_range n (voter_bitmap qc1) -> in_range n (voter_bitmap qc2) ->
  has_quorum_for qc1 n = true -> has_quorum_for qc2 n = true ->
  let both := count_ones 128 (Z.land (voter_bitmap qc1) (voter_bitmap qc2)) in
  n <= 3 * both /\ (n - 1) / 3 < both.
Proof.
  intros Hn H1 H2 Q1 Q2 both. pose proof (count_ones_land 128 _ _ n H1 H2 ltac:(lia)) as L. fold both in L.
  unfold has_quorum_for, vote_count, quorum_for_committee in *. apply Z.leb_le in Q1, Q2.
  destruct (Z.eqb_spec n 0); [lia|]. clearbody both. Z.to_euclidean_division_equations. lia.
Qed.

Lemma quorums_intersect_witness :
  let qc b := mkQC 5 [] b [] in
  4 <= 3 * count_ones 128 (Z.land 7 14) /\ (4 - 1) / 3 < count_ones 128 (Z.land 7 14).
Proof.
  intros qc. apply (quorums_intersect 4 (qc 7) (qc 14)); try (split; [discriminate|reflexivity]); try reflexivity.
  split; discriminate.
Defined.

(** The constant threshold of the full committee is the computed one. *)
Lemma quorum_threshold_consistent :
  quorum_for_committee COMMITTEE_SIZE = QUORUM_THRESHOLD /\
  forall qc, has_quorum qc = has_quorum_for qc COMMITTEE_SIZE.
Proof. done. Qed.

(** ** Hashes bind *)

Section Binding.
Context {P : Primitives} {PO : PrimitivesOk P}.

Record wf_header (h : BlockHeader) : Prop := {
  wh_slot : in_range u64 (slot h);
  wh_epoch : in_range u64 (epoch h);
  wh_parent : address_ok (parent_hash h);
  wh_proposer : address_ok (proposer h);
  wh_vrf : alloc_ok (vrf_proof h);
  wh_tx_root : address_ok (tx_root h);
  wh_timestamp : in_range u64 (timestamp h);
  wh_qc_slot : in_range u64 (qc_slot (qc_previous h));
  wh_qc_hash : address_ok (qc_block_hash (qc_previous h));
  wh_qc_bitmap : in_range u128 (voter_bitmap (qc_previous h))
}.

(** Equal up to the state root and the signatures in the certificate. *)
Definition same_block (h1 h2 : BlockHeader) : Prop :=
  slot h1 = slot h2 /\ epoch h1 = epoch h2 /\ parent_hash h1 = parent_hash h2 /\ proposer h1 = proposer h2 /\
  vrf_proof h1 = vrf_proof h2 /\ tx_root h1 = tx_root h2 /\ timestamp h1 = timestamp h2 /\
  qc_slot (qc_previous h1) = qc_slot (qc_previous h2) /\
  qc_block_hash (qc_previous h1) = qc_block_hash (qc_previous h2) /\
  voter_bitmap (qc_previous h1) = voter_bitmap (qc_previous h2).

Definition header_collision (h1 h2 : BlockHeader) : Prop :=
  sponge_collision (header_preimage h1) (header_preimage h2) \/
  sponge_collision (vrf_proof h1) (vrf_proof h2) \/
  sponge_collision (qc_preimage (qc_previous h1)) (qc_preimage (qc_previous h2)).

Lemma header_alloc (h : BlockHeader) :
  wf_header h -> alloc_ok (header_preimage h) /\ alloc_ok (qc_preimage (qc_previous h)).
Proof.
  intros []. unfold alloc_ok, address_ok in *. unfold header_preimage, qc_preimage, qc_hash, len.
  rewrite !length_app, !length_le_encode, !poseidon2_hash_length.
  repeat match goal with H : _ /\ _ |- _ => destruct H end.
  split; (split; [|repeat match goal with E : length _ = _ |- _ => rewrite E end; reflexivity]);
    repeat (apply Forall_app; split); first [apply le_encode_bytes|apply poseidon2_hash_bytes|done].
Qed.

(** The block hash commits to the block: two well-formed headers with the
    same hash agree on slot, epoch, parent, proposer, VRF proof, transactions,
    timestamp and the voters of the previous certificate (only the state root
    and the signature bytes may differ), or the sponge collides on one of three
    explicitly given pairs of inputs. *)
Theorem header_hash_binds (h1 h2 : BlockHeader) :
  wf_header h1 -> wf_header h2 -> header_hash h1 = header_hash h2 -> same_block h1 h2 \/ header_collision h1 h2.
Proof.
  intros W1 W2 E. unfold header_collision. destruct (header_alloc h1 W1) as [A1 Q1], (header_alloc h2 W2) as [A2 Q2].
  apply poseidon2_hash_eq in E as [E|]; [|by right; left|done..]. destruct W1, W2. unfold address_ok in *.
  unfold header_preimage in E.
  apply app_inj_1 in E as [Es E]; [|by rewrite !length_le_encode].
  apply app_inj_1 in E as [Ee E]; [|by rewrite !length_le_encode].
  apply app_inj_1 in E as [Ep E]; [|lia]. apply app_inj_1 in E as [Eq E]; [|lia].
  apply app_inj_1 in E as [Ev E]; [|by rewrite !poseidon2_hash_length]. apply app_inj_1 in E as [Et E]; [|lia].
  apply app_inj_1 in E as [Em E]; [|by rewrite !length_le_encode].
  apply poseidon2_hash_eq in Ev as [Ev|]; [|by right; right; left|done..].
  apply poseidon2_hash_eq in E as [E|]; [|by right; right; right|done..].
  unfold qc_preimage in E. apply app_inj_1 in E as [E1 E]; [|by rewrite !length_le_encode].
  apply app_inj_1 in E as [E2 E3]; [|lia].
  left. unfold same_block. split_and!; first [done|eapply le_encode_inj; [| |eassumption]; done].
Qed.

Lemma concat_hashes_inj (l1 l2 : list (list Z)) :
  Forall (fun x => length x = 32%nat) l1 -> Forall (fun x => length x = 32%nat) l2 -> concat l1 = concat l2 -> l1 = l2.
Proof.
  intros F1. revert l2. induction F1 as [|x l1 Hx F1 IH]; intros l2 F2; destruct F2 as [|y l2 Hy F2]; cbn [concat].
  - done.
  - intros E. apply (f_equal length) in E. rewrite length_app in E. cbn in E. lia.
  - intros E. apply (f_equal length) in E. rewrite length_app in E. cbn in E. lia.
  - intros E. apply app_inj_1 in E as [-> E]; [|lia]. f_equal. by apply IH.
Qed.

(** The transaction root commits to the order of all transactions: a root
    that verifies against two bodies has the same sequence of hashes, plaintext
    first and encrypted after, in both, or the sponge collides on their explicit
    preimages; for plaintext alone, the bodies then have the same transaction
    hashes in the same order. *)
Theorem tx_root_binds (root : list Z) (txs1 txs2 : list Transaction) (enc1 enc2 : list (list Z)) :
  Forall address_ok enc1 -> Forall address_ok enc2 ->
  len (txs1 : list Transaction) + len enc1 < 2 ^ 50 -> len (txs2 : list Transaction) + len enc2 < 2 ^ 50 ->
  txs1 <> [] \/ enc1 <> [] -> txs2 <> [] \/ enc2 <> [] ->
  verify_tx_root root txs1 enc1 = true -> verify_tx_root root txs2 enc2 = true ->
  (tx_hash <$> txs1) ++ enc1 = (tx_hash <$> txs2) ++ enc2 \/
  sponge_collision (tx_root_preimage txs1 enc1) (tx_root_preimage txs2 enc2).
Proof.
  intros F1 F2 L1 L2 N1 N2 V1 V2. unfold verify_tx_root in *. apply bool_decide_eq_true in V1, V2.
  assert (forall (txs : list Transaction) enc, txs <> [] \/ enc <> [] ->
    compute_tx_root txs enc = poseidon2_hash (tx_root_preimage txs enc)) as C
    by (intros [] []; naive_solver).
  rewrite C in V1, V2 by done. subst root.
  assert (forall txs enc, Forall address_ok enc -> Forall (fun x => length x = 32%nat) ((tx_hash <$> txs) ++ enc) /\
    bytes_ok (tx_root_preimage txs enc)) as Hf.
  { intros txs enc F. split.
    - apply Forall_app. split; [apply Forall_fmap, Forall_forall; intros; apply poseidon2_hash_length|].
      eapply Forall_impl; [exact F|]. by intros x [].
    - unfold tx_root_preimage. apply Forall_app. split; apply Forall_concat.
      + apply Forall_fmap, Forall_forall. intros. apply poseidon2_hash_bytes.
      + eapply Forall_impl; [exact F|]. by intros x []. }
  assert (forall txs enc, Forall address_ok enc -> len (txs : list Transaction) + len enc < 2 ^ 50 -> alloc_ok (tx_root_preimage txs enc)) as Ha.
  { intros txs enc F L. destruct (Hf txs enc F) as [Hl Hb]. split; [done|]. unfold tx_root_preimage.
    rewrite <- concat_app. unfold len in *. revert L. rewrite <- (length_fmap tx_hash txs), <- Nat2Z.inj_add, <- length_app.
    generalize dependent ((tx_hash <$> txs) ++ enc). intros l Hl' L.
    assert (length (concat l) = 32 * length l)%nat; [|lia]. clear -Hl'. induction Hl' as [|x l Hx _ IH]; [done|].
    cbn [concat length]. rewrite length_app. lia. }
  symmetry in V2. apply poseidon2_hash_eq in V2 as [E|]; [|by right|by apply Ha|by apply Ha].
  - left. unfold tx_root_preimage in E. rewrite <- !concat_app in E.
    apply concat_hashes_inj; [exact (proj1 (Hf _ _ F1))|exact (proj1 (Hf _ _ F2))|done].
Qed.
End Binding.

(** ** The index of headers *)

Section Index.
Context {P : Primitives}.

(** The two maps agree: a hash leads to a slot exactly when the header of that
    slot has this hash. *)
Definition index (hs : gmap Z BlockHeader) (hts : gmap (list Z) Z) : Prop :=
  forall x s, hts !! x = Some s <-> exists h, hs !! s = Some h /\ header_hash h = x.

Record wf_chain (c : ChainState) : Prop := {
  wc_epoch : head_epoch c = head_slot c / EPOCH_LENGTH;
  wc_slots : forall s h, headers c !! s = Some h -> slot h = s /\ s <= head_slot c;
  wc_index : index (headers c) (hash_to_slot c)
}.

Lemma index_insert hs hts (h : BlockHeader) :
  index hs hts -> hs !! slot h = None -> hts !! header_hash h = None ->
  index (<[slot h := h]> hs) (<[header_hash h := slot h]> hts).
Proof.
  intros I Hs Hh x s. rewrite lookup_insert_Some. setoid_rewrite lookup_insert_Some. split.
  - intros [[<- <-]|[N E]]; [exists h; split; [by left|done]|]. apply I in E as (h' & E & <-). exists h'.
    split; [right|done]. split; [congruence|done].
  - intros (h' & [[<- <-]|[N E]] & <-); [by left|right]. assert (hts !! header_hash h' = Some s) as E' by (apply I; eauto).
    split; [congruence|done].
Qed.

Lemma index_delete hs hts (s : Z) (h : BlockHeader) :
  index hs hts -> hs !! s = Some h -> index (delete s hs) (delete (header_hash h) hts).
Proof.
  intros I E x s'. rewrite lookup_delete_Some. split.
  - intros [N Ex]. apply I in Ex as (h' & E' & <-). exists h'. rewrite lookup_delete_Some. split; [|done].
    split; [congruence|done].
  - intros (h' & [N E']%lookup_delete_Some & <-). assert (hts !! header_hash h' = Some s') as Ex by (apply I; eauto).
    split; [|done]. intros Eh. assert (hts !! header_hash h = Some s) as Eh' by (apply I; eauto). congruence.
Qed.

Lemma index_filter hs hts (b : Z) :
  index hs hts -> index (filter (fun kv => b <= kv.1) hs) (filter (fun kv => b <= kv.2) hts).
Proof.
  intros I x s. rewrite map_lookup_filter_Some, (I x s). setoid_rewrite map_lookup_filter_Some. cbn [fst snd].
  naive_solver.
Qed.

(** Heads advance past the known headers, with hashes that are new. *)
Definition extends (c : ChainState) (h : BlockHeader) : Prop :=
  head_slot c < slot h /\ hash_to_slot c !! header_hash h = None.

Lemma chain_advance_spec (c : ChainState) (h : BlockHeader) :
  wf_chain c -> extends c h -> 0 <= slot h ->
  wf_chain (advance h c) /\ head_slot (advance h c) = slot h /\ header_at (advance h c) (slot h) = Some h /\
  forall s, s <> slot h -> header_at (advance h c) s =
    if decide (2 <= slot h / EPOCH_LENGTH /\ s < (slot h / EPOCH_LENGTH - 1) * EPOCH_LENGTH) then None else header_at c s.
Proof.
  intros [We Ws Wi] [Hs Hh] H0. set (e := slot h / EPOCH_LENGTH).
  assert (headers c !! slot h = None) as Hn.
  { destruct (headers c !! slot h) as [h'|] eqn:E; [|done]. apply Ws in E. lia. }
  assert (index (<[slot h := h]> (headers c)) (<[header_hash h := slot h]> (hash_to_slot c))) as I by by apply index_insert.
  assert (forall s h', <[slot h := h]> (headers c) !! s = Some h' -> slot h' = s /\ s <= slot h) as S.
  { intros s h' [[<- <-]|[_ E]]%lookup_insert_Some; [done|]. apply Ws in E. lia. }
  assert ((e - 1) * EPOCH_LENGTH <= slot h) as Hp.
  { unfold e, EPOCH_LENGTH. Z.to_euclidean_division_equations. lia. }
  unfold advance, header_at. fold e. destruct (Z.leb_spec 2 e) as [L|L]; cbn [head_slot head_epoch headers hash_to_slot].
  - split; [split; [done| |by apply index_filter]; intros s h' [E _]%map_lookup_filter_Some; by apply S|].
    split; [done|]. split; [apply map_lookup_filter_Some; split; [apply lookup_insert_eq|done]|].
    intros s Ns. destruct (decide _) as [D|D].
    + apply map_lookup_filter_None. right. intros h' _. cbn. lia.
    + apply option_eq. intros h'. rewrite map_lookup_filter_Some, lookup_insert_ne by done. cbn [fst]. split; [by intros []|].
      intros E. split; [done|lia].
  - split; [by split|]. split; [done|]. split; [apply lookup_insert_eq|]. intros s Ns.
    rewrite decide_False by lia. by rewrite lookup_insert_ne.
Qed.

Lemma drop_headers_spec (L : list Z) (hs : gmap Z BlockHeader) (hts : gmap (list Z) Z) (n : Z) :
  index hs hts -> NoDup L -> Forall (fun s => is_Some (hs !! s)) L ->
  let '(hs', hts', n') := foldl drop_header (hs, hts, n) L in
  index hs' hts' /\ (forall s, hs' !! s = if decide (s ∈ L) then None else hs !! s) /\ n' = n + Z.of_nat (length L).
Proof.
  revert hs hts n. induction L as [|s L IH]; intros hs hts n I N F; cbn [foldl length].
  { split_and!; [done| |lia]. intros s. by rewrite decide_False by set_solver. }
  apply NoDup_cons in N as [Ns N]. apply Forall_cons in F as [[h E] F]. cbn [drop_header]. rewrite E.
  specialize (IH (delete s hs) (delete (header_hash h) hts) (n + 1) (index_delete hs hts s h I E) N).
  destruct (foldl drop_header _ L) as [[hs' hts'] n']. destruct IH as (I' & G & ->).
  { rewrite Forall_forall in F |- *. intros s' Hs'. rewrite lookup_delete_ne by congruence. by apply F. }
  split_and!; [done| |lia]. intros s'. rewrite G. destruct (decide (s' ∈ L)) as [H1|H1].
  - by rewrite decide_True by set_solver.
  - destruct (decide (s' = s)) as [->|]; [rewrite decide_True by set_solver; apply lookup_delete_eq|].
    rewrite decide_False by set_solver. by rewrite lookup_delete_ne.
Qed.

(** A revert to a slot the chain has: the head is there, the headers above are
    gone and no other. *)
Lemma revert_spec (c : ChainState) (t : Z) :
  wf_chain c -> 0 <= t < head_slot c -> t = 0 \/ is_Some (header_at c t) ->
  exists c' n, revert t c = (c', Ok n) /\ wf_chain c' /\ head_slot c' = t /\
    forall s, header_at c' s = if decide (s <= t) then header_at c s else None.
Proof.
  intros [We Ws Wi] Ht Hh. unfold revert. destruct (Z.ltb_spec (head_slot c) t); [lia|].
  destruct (Z.eqb_spec t (head_slot c)); [lia|].
  assert (exists th, (if t =? 0 then Some None else Some <$> headers c !! t) = Some th) as [th ->].
  { destruct (Z.eqb_spec t 0); [eauto|]. destruct Hh as [|[h E]]; [done|]. unfold header_at in E. rewrite E. by eexists. }
  set (L := filter _ _).
  assert (forall s, s ∈ L <-> is_Some (headers c !! s) /\ t < s) as HL.
  { intros s. unfold L. rewrite list_elem_of_filter, list_elem_of_fmap. split.
    - intros [? ([s' h] & -> & E%elem_of_map_to_list)]. cbn in *. by rewrite E.
    - intros [[h E] ?]. split; [done|]. exists (s, h). split; [done|]. by apply elem_of_map_to_list. }
  pose proof (drop_headers_spec L (headers c) (hash_to_slot c) 0 Wi) as D.
  destruct (foldl drop_header _ L) as [[hs hts] dn]. destruct D as (I & G & _).
  { apply NoDup_filter, NoDup_fst_map_to_list. }
  { apply Forall_forall. intros s Hs. by apply HL. }
  assert (forall s, hs !! s = if decide (s <= t) then headers c !! s else None) as Hhs.
  { intros s. rewrite G. destruct (decide (s <= t)) as [L'|L'].
    - rewrite decide_False; [done|]. intros [_ ?]%HL. lia.
    - destruct (decide (s ∈ L)) as [|N]; [done|]. destruct (headers c !! s) as [h|] eqn:E; [|done]. exfalso. apply N, HL.
      split; [by eexists|lia]. }
  eexists _, dn. split; [done|]. split; [|split; [done|exact Hhs]].
  split; cbn [head_epoch head_slot headers hash_to_slot]; [done| |done].
  intros s h E. rewrite Hhs in E. destruct (decide (s <= t)); [|done]. split; [by apply Ws|done].
Qed.

(** The chains a node can have. *)
Inductive reachable : ChainState -> Prop :=
| reach_genesis root id : reachable (ChainState_genesis root id)
| reach_advance c h : reachable c -> extends c h -> 0 <= slot h -> reachable (advance h c)
| reach_revert c t : reachable c -> 0 <= t < head_slot c -> t = 0 \/ is_Some (header_at c t) ->
    reachable (revert t c).1
| reach_fee c fee : reachable c -> reachable (set_base_fee fee c).

Lemma reachable_wf (c : ChainState) : reachable c -> wf_chain c.
Proof.
  induction 1 as [root id|c h _ IH He H0|c t _ IH Ht Hh|c fee _ IH].
  - split; [done|done|]. intros x s. split; [done|]. by intros (h & ? & _).
  - by apply chain_advance_spec.
  - by destruct (revert_spec c t IH Ht Hh) as (c' & n & -> & W & _).
  - destruct IH. by split.
Qed.

(** Headers are found by slot and by hash alike.  On every chain reached by
    appending blocks of higher slots with new hashes, pruning, and reverting,
    a hash finds exactly the header that is stored and has this hash, stored
    headers sit at their own slot at or below the head, and the epoch is that of
    the head. *)
Theorem chain_lookups_agree (c : ChainState) :
  reachable c ->
  (forall x h, header_by_hash c x = Some h <-> exists s, header_at c s = Some h /\ header_hash h = x) /\
  (forall s h, header_at c s = Some h -> slot h = s /\ s <= head_slot c) /\
  head_epoch c = head_slot c / EPOCH_LENGTH.
Proof.
  intros R. destruct (reachable_wf c R) as [We Ws Wi]. split_and!; [|done|done]. intros x h.
  unfold header_by_hash, header_at. rewrite bind_Some. split.
  - intros (s & E & Eh). apply Wi in E as (h' & Eh' & <-). exists s. by simplify_eq.
  - intros (s & Eh & <-). exists s. split; [|done]. apply Wi. eauto.
Qed.
End Index.

Definition some_header (s ts : Z) : BlockHeader :=
  mkHeader s (s / EPOCH_LENGTH) H256_zero (replicate 32 1) [] QuorumCert_empty H256_zero H256_zero ts.

Lemma chain_lookups_agree_witness :
  let c := advance (some_header 2500 1) (advance (some_header 7 1) (ChainState_genesis H256_zero 1)) in
  (header_by_hash c (header_hash (some_header 2500 1)) = Some (some_header 2500 1) <->
   exists s, header_at c s = Some (some_header 2500 1) /\ header_hash (some_header 2500 1) = header_hash (some_header 2500 1)) /\
  head_epoch c = 2.
Proof.
  intros c. destruct (chain_lookups_agree c) as (L & _ & E).
  - apply reach_advance; [apply reach_advance; [apply reach_genesis|split; reflexivity|discriminate]| |discriminate].
    split; [reflexivity|]. vm_compute. reflexivity.
  - split; [apply L|rewrite E; reflexivity].
Defined.

Lemma some_header_wf (s ts : Z) : in_range u64 s -> in_range u64 (s / EPOCH_LENGTH) -> in_range u64 ts -> wf_header (some_header s ts).
Proof.
  assert (forall x, byte_ok x -> address_ok (replicate 32 x)) as A.
  { intros x Hx. split; [apply length_replicate|]. by apply Forall_replicate. }
  intros Hs He Ht. split; try done; try (by apply (A 0)); try (by apply (A 1)). by split; [constructor|].
Qed.

Lemma header_hash_binds_witness :
  let P := {| sponge := fun _ => [0; 0; 0; 0]; fn_dsa_verify := fun _ _ _ => false |} in
  same_block (some_header 7 1) (some_header 7 2) \/ @header_collision P (some_header 7 1) (some_header 7 2).
Proof.
  intros P.
  assert (PrimitivesOk P) as PO.
  { split; [reflexivity|]. intros l. repeat (constructor; [split; [discriminate|reflexivity]|]). constructor. }
  apply (header_hash_binds (P := P)).
  - apply some_header_wf; (split; [discriminate|reflexivity]).
  - apply some_header_wf; (split; [discriminate|reflexivity]).
  - reflexivity.
Defined.

Lemma tx_root_binds_witness :
  let P := {| sponge := fun _ => [0; 0; 0; 0]; fn_dsa_verify := fun _ _ _ => false |} in
  let h x := replicate 32 x in
  (@tx_hash P <$> []) ++ [h 1; h 2] = (@tx_hash P <$> []) ++ [h 2; h 1] \/
  @sponge_collision P (@tx_root_preimage P [] [h 1; h 2]) (@tx_root_preimage P [] [h 2; h 1]).
Proof.
  intros P h.
  assert (PrimitivesOk P) as PO.
  { split; [reflexivity|]. intros l. repeat (constructor; [split; [discriminate|reflexivity]|]). constructor. }
  assert (forall x, byte_ok x -> address_ok (h x)) as A.
  { intros x Hx. split; [reflexivity|]. by apply Forall_replicate. }
  apply (tx_root_binds (P := P) H256_zero [] [] [h 1; h 2] [h 2; h 1]).
  - constructor; [|constructor; [|constructor]]; apply A; (split; [discriminate|reflexivity]).
  - constructor; [|constructor; [|constructor]]; apply A; (split; [discriminate|reflexivity]).
  - reflexivity.
  - reflexivity.
  - right. discriminate.
  - right. discriminate.
  - vm_compute. reflexivity.
  - vm_compute. reflexivity.
Defined.

(** A reorganisation forgets to take the base fee back: [revert] restores
    head, epoch, state root and headers, and keeps the base fee of the dropped
    block. *)
Theorem revert_keeps_base_fee :
  let c := advance (some_header 7 1) (set_base_fee 100 (ChainState_genesis H256_zero 1)) in
  let c' := advance (some_header 8 1) (set_base_fee 112 c) in
  match revert 7 c' with
  | (c'', Ok n) => n = 1 /\ head_slot c'' = head_slot c /\ headers c'' = headers c /\ chain_base_fee c'' = 112 /\ chain_base_fee c = 100
  | _ => False
  end.
Proof. vm_compute. split_and!; reflexivity. Qed.
