(* ===== verification/ViewChange.v ===== *)
(** * Leaders, timeouts and view changes

    [consensus/src/{view_change,proposer}.rs] and the verification half of
    [crypto/src/vrf.rs].  A committee member signs with a function that
    stands for [falcon_sign] under its secret key. *)

From stdpp Require Import base numbers list option strings sets sorting.
From Stdlib Require Import ZArith Lia.
From S2P Require Import Prelude Crypto Wire Nonce Account Transaction Chain.

#[local] Open Scope Z_scope.

(** [falcon_sign(voter_sk, _)] *)
Definition Signer : Type := list Z -> Result (list Z) string.

(** ** Timing ([view_change.rs])

    Three process-wide overrides, zero when unset, each resolved on the first
    read from the environment (the variable as the text parsed to a [u64]). *)

Definition SLOT_DURATION_MS : Z := 400.
Definition MIN_SLOT_DURATION_MS : Z := 100.
Definition MAX_SLOT_DURATION_MS : Z := 10000.
Definition MIN_PROPOSAL_TIMEOUT_MS : Z := 50.
Definition MAX_PROPOSAL_TIMEOUT_MS : Z := 5000.
Definition MIN_PROGRESS_TIMEOUT_MS : Z := 500.
Definition MAX_PROGRESS_TIMEOUT_MS : Z := 60000.

Record Timing : Type := mkTiming {
  slot_override : Z;
  proposal_override : Z;
  progress_override : Z
}.

Record Env : Type := mkEnv {
  env_slot : option Z;
  env_proposal : option Z;
  env_progress : option Z
}.

(** [compare_exchange(0, new)] *)
Definition commit_once (current new : Z) : Z := if current =? 0 then new else current.

Definition clamp (x lo hi : Z) : Z := if x <? lo then lo else if hi <? x then hi else x.

Definition in_bounds (lo hi : Z) (env : option Z) : option Z :=
  v ← env; if (lo <=? v) && (v <=? hi) then Some v else None.

Definition slot_duration_ms (env : Env) (t : Timing) : Timing * Z :=
  if negb (slot_override t =? 0) then (t, slot_override t)
  else
    match in_bounds MIN_SLOT_DURATION_MS MAX_SLOT_DURATION_MS (env_slot env) with
    | Some v => (mkTiming (commit_once (slot_override t) v) (proposal_override t) (progress_override t), v)
    | None => (t, SLOT_DURATION_MS)
    end.

Definition set_slot_duration_ms (env : Env) (ms : Z) (t : Timing) : Timing * Z :=
  let clamped := clamp ms MIN_SLOT_DURATION_MS MAX_SLOT_DURATION_MS in
  slot_duration_ms env
    (mkTiming (commit_once (slot_override t) clamped) (proposal_override t) (progress_override t)).

Definition proposal_timeout_ms (env : Env) (t : Timing) : Timing * Z :=
  if negb (proposal_override t =? 0) then (t, proposal_override t)
  else
    match in_bounds MIN_PROPOSAL_TIMEOUT_MS MAX_PROPOSAL_TIMEOUT_MS (env_proposal env) with
    | Some v => (mkTiming (slot_override t) (commit_once (proposal_override t) v) (progress_override t), v)
    | None => let '(t, d) := slot_duration_ms env t in (t, d / 2)
    end.

Definition set_proposal_timeout_ms (env : Env) (ms : Z) (t : Timing) : Timing * Z :=
  let clamped := clamp ms MIN_PROPOSAL_TIMEOUT_MS MAX_PROPOSAL_TIMEOUT_MS in
  proposal_timeout_ms env
    (mkTiming (slot_override t) (commit_once (proposal_override t) clamped) (progress_override t)).

Definition progress_timeout_ms (env : Env) (t : Timing) : Timing * Z :=
  if negb (progress_override t =? 0) then (t, progress_override t)
  else
    match in_bounds MIN_PROGRESS_TIMEOUT_MS MAX_PROGRESS_TIMEOUT_MS (env_progress env) with
    | Some v => (mkTiming (slot_override t) (proposal_override t) (commit_once (progress_override t) v), v)
    | None => let '(t, d) := slot_duration_ms env t in (t, saturating_mul u64 d 5)
    end.

Definition set_progress_timeout_ms (env : Env) (ms : Z) (t : Timing) : Timing * Z :=
  let clamped := clamp ms MIN_PROGRESS_TIMEOUT_MS MAX_PROGRESS_TIMEOUT_MS in
  progress_timeout_ms env
    (mkTiming (slot_override t) (proposal_override t) (commit_once (progress_override t) clamped)).

(** ** Counting messages

    The loop of [try_form_qc], [try_form_view_change_qc] and
    [try_form_hard_finality]: messages about something else, of strangers and of
    members already counted are skipped; a message that verifies sets the
    member's bit.  The result is the bitmap with the counted messages in order
    of arrival.  A shift of a [u128] takes its amount modulo 128. *)

Definition voter_bit (idx : Z) : Z := Z.shiftl 1 (idx mod 128).

Section Tally.
Context {M : Type} (relevant : M -> bool) (index : M -> Z) (valid : M -> list Z -> bool).
Context (committee_keys : list (list Z)).

Definition count_message (acc : Z * list M) (m : M) : Z * list M :=
  let '(voter_bitmap, counted) := acc in
  if negb (relevant m) then acc
  else
    match committee_keys !! Z.to_nat (index m) with
    | None => acc
    | Some key =>
        if negb (Z.land voter_bitmap (voter_bit (index m)) =? 0) then acc
        else if valid m key then (Z.lor voter_bitmap (voter_bit (index m)), counted ++ [m])
        else acc
    end.

Definition tally (messages : list M) : Z * list M := foldl count_message (0, []) messages.
End Tally.

(** ** View changes *)

Record ViewChangeMessage : Type := mkViewChange {
  vc_slot : Z;
  vc_highest_qc : QuorumCert;
  vc_voter_index : Z;
  vc_voter_address : Address;
  vc_signature : list Z
}.

Record ViewChangeQC : Type := mkVCQC {
  vcqc_slot : Z;
  vcqc_highest_qc : QuorumCert;
  vcqc_voter_bitmap : Z;
  vcqc_vote_count : Z
}.

Definition ViewChangeQC_has_quorum (qc : ViewChangeQC) : bool := QUORUM_THRESHOLD <=? vcqc_vote_count qc.

Record TimeoutTracker : Type := mkTracker {
  tt_slot : Z;
  slot_start_ms : Z;
  messages : list ViewChangeMessage;
  proposal_received : bool;
  view_change_qc : option ViewChangeQC
}.

Definition TimeoutTracker_new (slot start : Z) : TimeoutTracker := mkTracker slot start [] false None.

Definition receive_proposal (t : TimeoutTracker) : TimeoutTracker :=
  mkTracker (tt_slot t) (slot_start_ms t) (messages t) true (view_change_qc t).

(** The timeout is read only when the first two conditions hold. *)
Definition is_expired (env : Env) (tm : Timing) (t : TimeoutTracker) (now_ms : Z) : Timing * bool :=
  if negb (proposal_received t) && negb (is_some (view_change_qc t)) then
    let '(tm, timeout) := proposal_timeout_ms env tm in
    (tm, timeout <=? saturating_sub now_ms (slot_start_ms t))
  else (tm, false).

Definition slot_elapsed (env : Env) (tm : Timing) (t : TimeoutTracker) (now_ms : Z) : Timing * bool :=
  let '(tm, d) := slot_duration_ms env tm in (tm, d <=? saturating_sub now_ms (slot_start_ms t)).

Definition ms_until_timeout (env : Env) (tm : Timing) (t : TimeoutTracker) (now_ms : Z) : Timing * Z :=
  let elapsed := saturating_sub now_ms (slot_start_ms t) in
  let '(tm, timeout) := proposal_timeout_ms env tm in (tm, saturating_sub timeout elapsed).

Section Messages.
Context {P : Primitives}.

Definition view_change_sign_message_from_hash (chain_id slot : Z) (highest_qc_hash : list Z) : list Z :=
  bytes_of_string "view_change" ++ le_encode 8 chain_id ++ le_encode 8 slot ++ highest_qc_hash.

Definition view_change_sign_message (chain_id slot : Z) (highest_qc : QuorumCert) : list Z :=
  view_change_sign_message_from_hash chain_id slot (qc_hash highest_qc).

Definition create_view_change (chain_id slot : Z) (highest_qc : QuorumCert) (voter_index : Z)
    (voter_address : Address) (sign : Signer) : Result ViewChangeMessage string :=
  match sign (view_change_sign_message chain_id slot highest_qc) with
  | Ok sig => Ok (mkViewChange slot highest_qc voter_index voter_address sig)
  | Err _ => Err "view change signing failed"
  end.

Definition verify_view_change (chain_id : Z) (msg : ViewChangeMessage) (public_key : list Z) : bool :=
  match FalconPublicKey_from_bytes public_key with
  | None => false
  | Some pk =>
      let sign_msg := view_change_sign_message chain_id (vc_slot msg) (vc_highest_qc msg) in
      match FalconSignature_from_bytes (vc_signature msg) with
      | None => false
      | Some sig => falcon_verify pk sign_msg sig
      end
  end.

(** The update of the highest certificate by a counted message. *)
Definition track_highest (n : Z) (highest_qc : QuorumCert) (msg : ViewChangeMessage) : QuorumCert :=
  if (qc_slot highest_qc <? qc_slot (vc_highest_qc msg)) && has_quorum_for (vc_highest_qc msg) n
  then vc_highest_qc msg else highest_qc.

Definition try_form_view_change_qc (chain_id slot : Z) (msgs : list ViewChangeMessage)
    (committee_keys : list (list Z)) : option ViewChangeQC :=
  let '(voter_bitmap, counted) :=
    tally (fun m => vc_slot m =? slot) vc_voter_index (verify_view_change chain_id) committee_keys msgs in
  let highest_qc := foldl (track_highest (len committee_keys)) QuorumCert_empty counted in
  if quorum_for_committee (len committee_keys) <=? len counted
  then Some (mkVCQC slot highest_qc voter_bitmap (len counted))
  else None.

(** ** Fallback leaders *)

Definition fallback_proposer (sorted_scores : list (Address * Z)) : option Address := fst <$> sorted_scores !! 1%nat.

Definition FALLBACK_PROPOSAL_MARKER : list Z := bytes_of_string "FALLBACK".

Definition fallback_leader_index (height view committee_size : Z) : Z :=
  if committee_size =? 0 then 0 else wrap u64 (height + view) mod committee_size.

Fixpoint trailing_zeros (w : nat) (x : Z) : Z :=
  match w with
  | O => 0
  | S w' => if Z.testbit x 0 then 0 else 1 + trailing_zeros w' (Z.shiftr x 1)
  end.

Definition deterministic_fallback_index (bitmap : Z) : option Z :=
  if bitmap =? 0 then None else Some (wrap u8 (trailing_zeros 128 bitmap)).

Definition encode_fallback_proof (vc_qc_slot view : Z) : list Z :=
  FALLBACK_PROPOSAL_MARKER ++ le_encode 8 vc_qc_slot ++ le_encode 8 view.

Definition is_fallback_proof (proof : list Z) : bool :=
  (len FALLBACK_PROPOSAL_MARKER <=? len proof) &&
  bool_decide (take (length FALLBACK_PROPOSAL_MARKER) proof = FALLBACK_PROPOSAL_MARKER).

Definition decode_fallback_proof (proof : list Z) : option (Z * Z) :=
  if negb (is_fallback_proof proof) then None
  else
    let after_marker := drop (length FALLBACK_PROPOSAL_MARKER) proof in
    if len after_marker <? 16 then None
    else Some (le_decode (slice 0 8 after_marker), le_decode (slice 8 8 after_marker)).

Definition empty_block_header (slot epoch : Z) (parent_hash : list Z) (qc_previous : QuorumCert)
    (state_root : list Z) (timestamp : Z) : BlockHeader :=
  mkHeader slot epoch parent_hash H256_zero [] qc_previous H256_zero state_root timestamp.

(** ** Proposers ([proposer.rs], [vrf.rs]) *)

Definition VRF_DOMAIN_PROOF : list Z := bytes_of_string "pyde-vrf-proof-v1".

Definition VrfOutput_from_hash_bytes (bytes : list Z) : option (list Z) :=
  if negb (len bytes =? 32) then None else Some bytes.

Definition build_proof_message (pk input output : list Z) : list Z := VRF_DOMAIN_PROOF ++ pk ++ input ++ output.

Definition VRF_FINGERPRINT_DOMAIN : list Z := bytes_of_string "pyde-vrf-sk-fingerprint-v1".
Definition VRF_OUTPUT_DOMAIN : list Z := bytes_of_string "pyde-vrf-output-v1".

Definition compute_vrf_output (sk input : list Z) : list Z :=
  let sk_fingerprint := poseidon2_hash (VRF_FINGERPRINT_DOMAIN ++ sk) in
  poseidon2_hash (VRF_OUTPUT_DOMAIN ++ sk_fingerprint ++ input).

(** [sign] is [falcon_sign(sk, _)]. *)
Definition vrf_prove (pk sk : list Z) (sign : Signer) (input : list Z) : Result (list Z * list Z) string :=
  let output := compute_vrf_output sk input in
  match sign (build_proof_message pk input output) with
  | Ok sig => Ok (output, sig)
  | Err e => Err e
  end.

Definition vrf_verify (pk input output proof : list Z) : bool :=
  match FalconSignature_from_bytes proof with
  | None => false
  | Some sig => falcon_verify pk (build_proof_message pk input output) sig
  end.

Definition vrf_input (epoch_randomness : list Z) (slot : Z) : list Z := epoch_randomness ++ le_encode 8 slot.

Definition score_from_output (output : list Z) : Z := le_decode (take 8 output).

Definition vrf_proposer_threshold (committee_size : Z) : Z := max_of u64.

Definition is_view0_proposer (slot committee_index committee_size : Z) : bool :=
  if committee_size =? 0 then false else slot mod committee_size =? committee_index.

Record ProposerCandidate : Type := mkCandidate {
  cand_address : Address;
  vrf_output : list Z;
  cand_proof : list Z;
  score : Z
}.

Definition compute_candidacy (public_key secret_key : list Z) (sign : Signer) (epoch_randomness : list Z) (slot : Z)
    (address : Address) : Result ProposerCandidate string :=
  match vrf_prove public_key secret_key sign (vrf_input epoch_randomness slot) with
  | Ok (output, proof) => Ok (mkCandidate address output proof (score_from_output output))
  | Err _ => Err "VRF prove failed — invalid keypair"
  end.

Definition verify_candidacy (candidate : ProposerCandidate) (public_key epoch_randomness : list Z) (slot : Z) : bool :=
  match FalconPublicKey_from_bytes public_key with
  | None => false
  | Some pk =>
      if negb (vrf_verify pk (vrf_input epoch_randomness slot) (vrf_output candidate) (cand_proof candidate)) then false
      else score candidate =? score_from_output (vrf_output candidate)
  end.

(** [min_by_key]: the first of the lowest. *)
Definition lower (best : option ProposerCandidate) (c : ProposerCandidate) : option ProposerCandidate :=
  match best with
  | Some b => if score c <? score b then Some c else Some b
  | None => Some c
  end.

Definition select_proposer (candidates : list ProposerCandidate) : option ProposerCandidate :=
  foldl lower None candidates.

Definition is_lowest_score (candidate : ProposerCandidate) (other_scores : list Z) : bool :=
  forallb (fun s => score candidate <=? s) other_scores.
End Messages.

(** ** What is counted *)

Lemma voter_bit_spec (i j : Z) : 0 <= i < 128 -> 0 <= j -> Z.testbit (voter_bit i) j = (i =? j).
Proof.
  intros Hi Hj. unfold voter_bit. rewrite Z.mod_small, Z.shiftl_1_l by lia. apply Z.pow2_bits_eqb. lia.
Qed.

Lemma land_voter_bit (b i : Z) : 0 <= i < 128 -> (Z.land b (voter_bit i) =? 0) = negb (Z.testbit b i).
Proof. intros Hi. unfold voter_bit. rewrite Z.mod_small by lia. apply test_bit_pow2. lia. Qed.

Lemma voter_bit_range (n i : Z) : 0 <= i < n -> n <= 128 -> in_range n (voter_bit i).
Proof.
  intros Hi Hn. apply in_range_bits; [lia|]. split; [apply Z.shiftl_nonneg; lia|]. intros j Hj.
  rewrite voter_bit_spec by lia. apply Z.eqb_neq. lia.
Qed.

Section TallySpec.
Context {M : Type} (relevant : M -> bool) (index : M -> Z) (valid : M -> list Z -> bool).
Context (committee_keys : list (list Z)).
Context (Hn : len committee_keys <= 128).
#[local] Abbreviation count_all := (tally relevant index valid committee_keys).

(** A message that counts for its member. *)
Definition counts (m : M) : Prop :=
  relevant m = true /\ exists key, committee_keys !! Z.to_nat (index m) = Some key /\ valid m key = true.

Record tallied (ms : list M) (bitmap : Z) (counted : list M) : Prop := {
  tl_range : in_range (len committee_keys) bitmap;
  tl_nodup : NoDup (index <$> counted);
  tl_bits : forall i, 0 <= i -> Z.testbit bitmap i = true <-> exists m, m ∈ counted /\ index m = i;
  tl_sound : forall m, m ∈ counted -> m ∈ ms /\ counts m;
  tl_complete : forall m, m ∈ ms -> counts m -> Z.testbit bitmap (index m) = true
}.

Lemma counts_index (m : M) : 0 <= index m -> counts m -> 0 <= index m < len committee_keys.
Proof. intros H0 (_ & key & E & _). apply lookup_lt_Some in E. unfold len. lia. Qed.

Lemma tally_spec (ms : list M) :
  (forall m, m ∈ ms -> 0 <= index m) -> tallied ms (count_all ms).1 (count_all ms).2.
Proof.
  unfold tally. induction ms as [|m ms IH] using rev_ind; intros H0.
  - split; cbn; [apply zero_range; unfold len; lia|constructor|intros i _; rewrite Z.bits_0|..]; set_solver.
  - rewrite foldl_app. cbn [foldl]. destruct IH as [R N B S C]; [set_solver|].
    destruct (foldl _ (0, []) ms) as [bm c]. cbn [fst snd] in *. cbn [count_message].
    assert (0 <= index m) as Hm by set_solver.
    assert (forall m', m' ∈ c -> m' ∈ ms ++ [m] /\ counts m') as S'.
    { intros m' Hm'. destruct (S m' Hm'). set_solver. }
    assert ((counts m -> Z.testbit bm (index m) = true) -> tallied (ms ++ [m]) bm c) as Same.
    { intros Hc. split; try done. intros m' [?| ->%list_elem_of_singleton]%elem_of_app; auto. }
    destruct (relevant m) eqn:Er; cbn [negb]; [|apply Same; intros [? _]; congruence].
    destruct (committee_keys !! Z.to_nat (index m)) as [key|] eqn:Ek.
    2:{ apply Same. intros (_ & k & ? & _). congruence. }
    assert (0 <= index m < len committee_keys) as Hi by (apply lookup_lt_Some in Ek; unfold len; lia).
    rewrite land_voter_bit, negb_involutive by lia.
    destruct (Z.testbit bm (index m)) eqn:Eb; [by apply Same|].
    destruct (valid m key) eqn:Ev; [|apply Same; intros (_ & k & ? & ?); congruence].
    assert (counts m) as Hc by (split; eauto).
    assert (forall i, 0 <= i -> Z.testbit (Z.lor bm (voter_bit (index m))) i = Z.testbit bm i || (index m =? i)) as Bits.
    { intros i Hi'. by rewrite Z.lor_spec, voter_bit_spec by lia. }
    cbn [fst snd]. split.
    + apply lor_range; [unfold len; lia|done|]. by apply voter_bit_range.
    + rewrite fmap_app. apply NoDup_app. split; [done|]. split; [|apply NoDup_singleton].
      intros i (m' & -> & Hm')%list_elem_of_fmap Hs%list_elem_of_singleton.
      enough (Z.testbit bm (index m) = true) by congruence. apply B; [done|]. eauto.
    + intros i Hi'. rewrite Bits, orb_true_iff, (B i Hi'), Z.eqb_eq by done. set_solver.
    + intros m' [?| ->%list_elem_of_singleton]%elem_of_app; [by apply S'|set_solver].
    + intros m' [Hm'| ->%list_elem_of_singleton]%elem_of_app Hc'; rewrite Bits by (auto with lia; set_solver).
      * by rewrite C.
      * rewrite Z.eqb_refl. apply orb_true_r.
Qed.

(** In the order of the members, the counted messages line up with the set bits. *)
Lemma tally_ordered (ms : list M) (bitmap : Z) (counted : list M) :
  tallied ms bitmap counted -> (forall m, m ∈ ms -> 0 <= index m) ->
  index <$> sort_by_key index counted = Z.of_nat <$> filter (fun i => Z.testbit bitmap (Z.of_nat i) = true) (seq 0 128).
Proof.
  intros [R N B S C] H0. apply (StronglySorted_unique Z.le).
  - assert (forall l, StronglySorted (fun a b => index a <= index b) l -> StronglySorted Z.le (index <$> l)) as F.
    { induction 1; cbn; constructor; [done|]. by apply Forall_fmap. }
    apply F, sort_by_key_sorted.
  - assert (forall n s, StronglySorted Z.le (Z.of_nat <$> filter (fun i => Z.testbit bitmap (Z.of_nat i) = true) (seq s n))) as F.
    { induction n as [|n IH]; intros s; cbn [seq]; [constructor|]. rewrite filter_cons. case_decide; [|done].
      cbn. constructor; [done|]. apply Forall_fmap, Forall_forall. intros i [_ Hi%elem_of_seq]%list_elem_of_filter. cbn. lia. }
    apply F.
  - rewrite (sort_by_key_perm index). apply NoDup_Permutation; [done|apply NoDup_fmap; [apply _|apply NoDup_filter, NoDup_seq]|].
    intros i. rewrite list_elem_of_fmap. setoid_rewrite list_elem_of_fmap. split.
    + intros (m & -> & Hm). destruct (S m Hm) as [Hms Hc]. pose proof (counts_index m (H0 m Hms) Hc).
      exists (Z.to_nat (index m)). split; [lia|]. apply list_elem_of_filter. rewrite Z2Nat.id by lia. split.
      * apply B; [lia|eauto].
      * apply elem_of_seq. lia.
    + intros (j & -> & [Hj _]%list_elem_of_filter). apply B in Hj as (m & ? & ?); [|lia]. eauto.
Qed.

Lemma tally_count (ms : list M) (bitmap : Z) (counted : list M) :
  tallied ms bitmap counted -> (forall m, m ∈ ms -> 0 <= index m) -> len counted = count_ones 128 bitmap.
Proof.
  intros T H0. pose proof (f_equal length (tally_ordered ms bitmap counted T H0)) as E.
  rewrite !length_fmap, (sort_by_key_perm index) in E. unfold count_ones, len. by rewrite E.
Qed.

(** A bit is set exactly for the members that sent a message that counts. *)
Lemma tallied_bits (ms : list M) (bitmap : Z) (counted : list M) (i : Z) :
  tallied ms bitmap counted -> 0 <= i ->
  Z.testbit bitmap i = true <-> exists m, m ∈ ms /\ index m = i /\ counts m.
Proof.
  intros [R N B S C] Hi. split.
  - intros (m & Hm & Ei)%B; [|done]. destruct (S m Hm). eauto.
  - intros (m & Hm & <- & Hc). by apply C.
Qed.

(** The members with a message that counts. *)
Definition voters (ms : list M) : list nat :=
  filter (fun i => existsb (fun m => relevant m && (index m =? Z.of_nat i) &&
    match committee_keys !! i with Some key => valid m key | None => false end) ms = true)
    (seq 0 (length committee_keys)).

Lemma voters_elem (ms : list M) (i : nat) :
  i ∈ voters ms <-> exists m, m ∈ ms /\ index m = Z.of_nat i /\ counts m.
Proof.
  unfold voters. rewrite list_elem_of_filter, existsb_exists, elem_of_seq. setoid_rewrite <- list_elem_of_In. split.
  - intros [(m & Hm & [[Hr Hi%Z.eqb_eq]%andb_true_iff Hv]%andb_true_iff) _]. exists m. split; [done|]. split; [done|].
    split; [done|]. rewrite Hi, Nat2Z.id. destruct (committee_keys !! i) as [key|]; [eauto|done].
  - intros (m & Hm & Hi & Hr & key & Hk & Hv). rewrite Hi, Nat2Z.id in Hk. split; [|apply lookup_lt_Some in Hk; lia].
    exists m. split; [done|]. by rewrite Hr, Hi, Z.eqb_refl, Hk.
Qed.

Lemma tally_voters (ms : list M) (bitmap : Z) (counted : list M) :
  tallied ms bitmap counted -> (forall m, m ∈ ms -> 0 <= index m) -> len counted = len (voters ms).
Proof.
  intros T H0. unfold len. rewrite <- (length_fmap index counted), <- (length_fmap Z.of_nat (voters ms)). f_equal.
  apply Permutation_length, NoDup_Permutation; [apply T|apply NoDup_fmap; [apply _|apply NoDup_filter, NoDup_seq]|].
  intros i. rewrite list_elem_of_fmap. setoid_rewrite list_elem_of_fmap. setoid_rewrite voters_elem. split.
  - intros (m & -> & Hm). destruct (tl_sound _ _ _ T m Hm) as [Hms Hc]. exists (Z.to_nat (index m)).
    pose proof (H0 m Hms). split; [lia|]. exists m. split; [done|]. split; [lia|done].
  - intros (j & -> & m & Hm & Hj & Hc). apply (tl_complete _ _ _ T m Hm) in Hc. apply (tl_bits _ _ _ T) in Hc as (m' & ? & ?);
      [|by apply H0]. exists m'. split; [congruence|done].
Qed.
End TallySpec.

Section Props.
Context {P : Primitives}.

Lemma track_highest_spec (n : Z) (l : list ViewChangeMessage) (q0 : QuorumCert) :
  let q := foldl (track_highest n) q0 l in
  qc_slot q0 <= qc_slot q /\
  (q = q0 \/ exists m, m ∈ l /\ q = vc_highest_qc m /\ has_quorum_for q n = true) /\
  forall m, m ∈ l -> has_quorum_for (vc_highest_qc m) n = true -> qc_slot (vc_highest_qc m) <= qc_slot q.
Proof.
  revert q0. induction l as [|m l IH]; intros q0; cbn [foldl]; [set_solver by lia|].
  destruct (IH (track_highest n q0 m)) as (L & O & F).
  assert (qc_slot q0 <= qc_slot (track_highest n q0 m) /\
    (track_highest n q0 m = q0 \/ track_highest n q0 m = vc_highest_qc m /\ has_quorum_for (vc_highest_qc m) n = true) /\
    (has_quorum_for (vc_highest_qc m) n = true -> qc_slot (vc_highest_qc m) <= qc_slot (track_highest n q0 m))) as (L1 & O1 & F1).
  { unfold track_highest. destruct (Z.ltb_spec (qc_slot q0) (qc_slot (vc_highest_qc m))), (has_quorum_for (vc_highest_qc m) n) eqn:E;
      cbn [andb]; split_and!; auto; try done; lia. }
  split; [lia|]. split.
  - destruct O as [->|(m' & ? & ? & ?)]; [|right; exists m'; set_solver].
    destruct O1 as [->|[-> ?]]; [by left|]. right. exists m. set_solver.
  - intros m' [->|Hm']%elem_of_cons ?; [|auto]. specialize (F1 ltac:(done)). lia.
Qed.

(** [C25] A view-change certificate is formed exactly when a quorum of members
    asks for it.  With a committee of at most 128, a certificate exists if and
    only if the members with a verified message for the slot are a quorum; its
    bits are exactly those members and its count is their number; and its
    highest certificate is at least as high as every quorum certificate that a
    counted message of any of them reports, and is itself one of those or the
    empty one. *)
Theorem view_change_qc_exact (chain_id slot : Z) (msgs : list ViewChangeMessage) (keys : list (list Z)) :
  len keys <= 128 -> (forall m, m ∈ msgs -> 0 <= vc_voter_index m) ->
  let relevant := fun m => vc_slot m =? slot in
  let members := voters relevant vc_voter_index (verify_view_change chain_id) keys msgs in
  match try_form_view_change_qc chain_id slot msgs keys with
  | None => len members < quorum_for_committee (len keys)
  | Some q =>
      quorum_for_committee (len keys) <= len members /\ vcqc_slot q = slot /\ vcqc_vote_count q = len members /\
      count_ones 128 (vcqc_voter_bitmap q) = len members /\
      (forall i : nat, Z.testbit (vcqc_voter_bitmap q) (Z.of_nat i) = true <-> i ∈ members) /\
      (vcqc_highest_qc q = QuorumCert_empty \/
       exists m, m ∈ msgs /\ vcqc_highest_qc q = vc_highest_qc m /\ has_quorum_for (vc_highest_qc m) (len keys) = true) /\
      forall i : nat, i ∈ members -> exists m, m ∈ msgs /\ vc_voter_index m = Z.of_nat i /\
        counts relevant vc_voter_index (verify_view_change chain_id) keys m /\
        (has_quorum_for (vc_highest_qc m) (len keys) = true ->
         qc_slot (vc_highest_qc m) <= qc_slot (vcqc_highest_qc q))
  end.
Proof.
  intros Hn H0 relevant members. unfold try_form_view_change_qc. fold relevant.
  pose proof (tally_spec relevant vc_voter_index (verify_view_change chain_id) keys Hn msgs H0) as T.
  destruct (tally _ _ _ _ msgs) as [bm c]. cbn [fst snd] in T.
  pose proof (tally_voters _ _ _ _ _ _ _ T H0) as Ev. fold members in Ev.
  pose proof (tally_count _ _ _ _ Hn _ _ _ T H0) as Ec.
  destruct (track_highest_spec (len keys) c QuorumCert_empty) as (_ & O & F).
  rewrite Ev. destruct (Z.leb_spec (quorum_for_committee (len keys)) (len members)); [|done].
  cbn [vcqc_slot vcqc_highest_qc vcqc_voter_bitmap vcqc_vote_count]. split_and!; try done; try lia.
  - intros i. rewrite (tallied_bits _ _ _ _ _ _ _ _ T) by lia. unfold members. by rewrite voters_elem.
  - destruct O as [->|(m & Hm & -> & Q)]; [by left|right]. exists m. split; [by apply (tl_sound _ _ _ _ _ _ _ T)|done].
  - intros i Hi. unfold members in Hi. apply voters_elem in Hi as (m & Hm & Ei & Hc).
    apply (tl_complete _ _ _ _ _ _ _ T m Hm), (tl_bits _ _ _ _ _ _ _ T) in Hc as (m' & Hm' & Ei'); [|lia].
    destruct (tl_sound _ _ _ _ _ _ _ T m' Hm'). exists m'. split_and!; [done|congruence|done|]. by apply F.
Qed.

(** ** Leaders *)

Lemma fallback_leader_mod (h v n : Z) :
  1 <= n -> 0 <= h + v < 2 ^ 64 -> fallback_leader_index h v n = (h + v) mod n.
Proof.
  intros Hn Hv. unfold fallback_leader_index. destruct (Z.eqb_spec n 0); [lia|]. by rewrite wrap_small by done.
Qed.

(** A height cannot be blocked by its leaders: over any [n] consecutive
    views of a height every member of a committee of [n] is the leader in
    exactly one, so some view within [n] has any given (honest) member lead; and
    the leader of view 0 is the round-robin proposer. *)
Theorem leaders_rotate (height view n i : Z) :
  1 <= n -> 0 <= height -> 0 <= view -> height + view + n <= 2 ^ 64 -> 0 <= i < n ->
  (exists k, (0 <= k < n /\ fallback_leader_index height (view + k) n = i) /\
     forall k', 0 <= k' < n -> fallback_leader_index height (view + k') n = i -> k' = k) /\
  (is_view0_proposer height i n = true <-> fallback_leader_index height 0 n = i).
Proof.
  intros Hn Hh Hv Hb Hi. split.
  - assert (forall k, 0 <= k < n -> fallback_leader_index height (view + k) n = (height + view + k) mod n) as F.
    { intros k Hk. rewrite fallback_leader_mod by lia. f_equal. lia. }
    exists ((i - (height + view)) mod n). pose proof (Z.mod_pos_bound (i - (height + view)) n ltac:(lia)) as B.
    split; [split; [done|]|].
    + rewrite F by done. rewrite Zplus_mod_idemp_r. replace (height + view + (i - (height + view))) with i by lia.
      by apply Z.mod_small.
    + intros k' Hk' E. rewrite F in E by done. rewrite <- E, Zminus_mod_idemp_l.
      replace (height + view + k' - (height + view)) with k' by lia. symmetry. by apply Z.mod_small.
  - rewrite fallback_leader_mod, Z.add_0_r by lia. unfold is_view0_proposer. destruct (Z.eqb_spec n 0); [lia|].
    apply Z.eqb_eq.
Qed.

Lemma fallback_marker_decode (rest : list Z) :
  decode_fallback_proof (FALLBACK_PROPOSAL_MARKER ++ rest) =
    if len rest <? 16 then None else Some (le_decode (slice 0 8 rest), le_decode (slice 8 8 rest)).
Proof.
  unfold decode_fallback_proof, is_fallback_proof. rewrite take_app_length, drop_app_length, bool_decide_eq_true_2 by done.
  unfold len at 1 2. rewrite length_app. destruct (Z.leb_spec (Z.of_nat (length FALLBACK_PROPOSAL_MARKER))
    (Z.of_nat (length FALLBACK_PROPOSAL_MARKER + length rest))); [done|lia].
Qed.

Lemma fallback_proof_roundtrip (slot view : Z) :
  in_range u64 slot -> in_range u64 view -> decode_fallback_proof (encode_fallback_proof slot view) = Some (slot, view).
Proof.
  intros Hs Hv. unfold encode_fallback_proof. rewrite fallback_marker_decode. unfold len. rewrite length_app, !length_le_encode.
  cbn [Z.ltb]. unfold slice. rewrite drop_0, take_app_length', drop_app_length', firstn_all2 by (by rewrite ?length_le_encode).
  rewrite !le_decode_encode by done. done.
Qed.

(** A candidate that was computed verifies, when signing produces signatures
    that verify. *)
Lemma candidacy_verifies (pk sk : list Z) (sign : Signer) (r : list Z) (slot : Z) (a : Address) (c : ProposerCandidate) :
  (forall m sig, sign m = Ok sig -> verifies pk m sig = true) ->
  compute_candidacy pk sk sign r slot a = Ok c -> verify_candidacy c pk r slot = true.
Proof.
  intros S. unfold compute_candidacy, vrf_prove. destruct (sign _) as [sig|] eqn:E; [|done]. intros [= <-].
  apply S in E. unfold verifies in E. unfold verify_candidacy, vrf_verify. cbn [vrf_output cand_proof score].
  destruct (FalconPublicKey_from_bytes pk) as [k|] eqn:Ek; [|done]. destruct (FalconSignature_from_bytes sig); [|done].
  assert (k = pk) as -> by (unfold FalconPublicKey_from_bytes in Ek; destruct (len pk =? FalconPublicKey_SIZE); congruence).
  rewrite E. apply Z.eqb_refl.
Qed.
End Props.

(** ** Witnesses *)

(** The toy scheme signs with the message itself. *)
Definition toy_sign : Signer := fun msg => Ok (msg ++ replicate (600 - length msg) 0).
Definition toy_committee : list (list Z) := replicate 4 (replicate 897 0).

Definition toy_view_change (slot : Z) (qc : QuorumCert) (i : Z) : ViewChangeMessage :=
  mkViewChange slot qc i ZERO_ADDRESS
    (match toy_sign (view_change_sign_message 7 slot qc) with Ok sig => sig | Err _ => [] end).

Lemma view_change_qc_exact_witness :
  let qc := mkQC 4 H256_zero 7 [] in
  let msgs := [toy_view_change 5 QuorumCert_empty 0; toy_view_change 5 qc 1; toy_view_change 5 qc 1;
               toy_view_change 5 QuorumCert_empty 2; toy_view_change 6 qc 3] in
  exists q, try_form_view_change_qc 7 5 msgs toy_committee = Some q /\ vcqc_vote_count q = 3 /\
    4 <= qc_slot (vcqc_highest_qc q).
Proof.
  intros qc msgs.
  assert (len toy_committee <= 128) as Hn by discriminate.
  assert (forall m, m ∈ msgs -> 0 <= vc_voter_index m) as H0.
  { apply Forall_forall. repeat (constructor; [discriminate|]). constructor. }
  pose proof (view_change_qc_exact 7 5 msgs toy_committee Hn H0) as T. cbv zeta in T.
  assert (voters (fun m => vc_slot m =? 5) vc_voter_index (verify_view_change 7) toy_committee msgs = [0; 1; 2]%nat) as Ev
    by (vm_compute; reflexivity).
  rewrite Ev in T. destruct (try_form_view_change_qc 7 5 msgs toy_committee) as [q|]; [|discriminate T].
  destruct T as (_ & _ & C & _ & _ & _ & H). exists q. split; [reflexivity|]. split; [exact C|].
  destruct (H 1%nat) as (m & Hm & Hi & _ & Hq); [right; left|].
  assert (m = toy_view_change 5 qc 1) as ->.
  { unfold msgs in Hm. repeat (apply elem_of_cons in Hm as [->|Hm]; [try discriminate Hi; reflexivity|]). inversion Hm. }
  apply Hq. reflexivity.
Defined.

Lemma leaders_rotate_witness :
  (exists k, (0 <= k < 4 /\ fallback_leader_index 7 (1 + k) 4 = 2) /\
     forall k', 0 <= k' < 4 -> fallback_leader_index 7 (1 + k') 4 = 2 -> k' = k) /\
  (is_view0_proposer 7 2 4 = true <-> fallback_leader_index 7 0 4 = 2).
Proof. apply (leaders_rotate 7 1 4 2); try split; discriminate || reflexivity. Defined.

(** ** Findings *)

(** Finding: a view change trusts the bitmap of a reported certificate.
    One member of four reports a certificate for slot 2^64 - 1 with all bits and
    no signature at all; it becomes the highest certificate of the view change,
    over the honest one the other members report. *)
Theorem forged_qc_wins_view_change :
  let honest := mkQC 4 H256_zero 7 [replicate 600 0; replicate 600 0; replicate 600 0] in
  let forged := mkQC (2 ^ 64 - 1) H256_zero (2 ^ 128 - 1) [] in
  vcqc_highest_qc <$> try_form_view_change_qc 7 5
    [toy_view_change 5 honest 0; toy_view_change 5 honest 1; toy_view_change 5 forged 2] toy_committee = Some forged.
Proof. vm_compute. reflexivity. Qed.
