(* ===== verification/HotStuff.v ===== *)
(** * Votes and quorum certificates

    [consensus/src/hotstuff.rs]: a validator's voting rule, the aggregation of
    votes into a quorum certificate and the verification of one. *)

From stdpp Require Import base numbers list option strings sets sorting.
From Stdlib Require Import ZArith Lia.
From S2P Require Import Prelude Crypto Wire Nonce Account Transaction Chain ViewChange.

#[local] Open Scope Z_scope.

Definition proposer_sign_message (chain_id slot : Z) (block_hash : list Z) : list Z :=
  le_encode 8 chain_id ++ le_encode 8 slot ++ block_hash.

Inductive ConsensusMessage : Type :=
| Proposal (header : BlockHeader) (proposer_signature : list Z)
| Vote (slot : Z) (block_hash : list Z) (voter_index : Z) (voter_address : Address) (signature : list Z)
| Timeout (slot voter_index : Z) (voter_address : Address) (highest_qc : QuorumCert) (signature : list Z)
| NewView (slot : Z) (highest_qc : QuorumCert) (voter_address : Address) (signature : list Z)
| QcAnnounce (qc : QuorumCert).

Record ConsensusState : Type := mkConsensus {
  current_slot : Z;
  current_epoch : Z;
  highest_qc : QuorumCert;
  last_voted_slot : Z;
  last_voted_view : Z;
  last_committed_hash : list Z;
  last_committed_slot : Z;
  target_height : Z;
  current_view : Z;
  pending_votes : list ConsensusMessage;
  pending_timeouts : list ConsensusMessage
}.

Definition ConsensusState_new : ConsensusState :=
  mkConsensus 0 0 QuorumCert_empty 0 0 H256_zero 0 1 0 [] [].

Definition advance_slot (st : ConsensusState) : ConsensusState :=
  mkConsensus (wrap u64 (current_slot st + 1)) (current_epoch st) (highest_qc st) (last_voted_slot st)
    (last_voted_view st) (last_committed_hash st) (last_committed_slot st) (target_height st) (current_view st) [] [].

Definition advance_target_height (new_height : Z) (st : ConsensusState) : ConsensusState * bool :=
  if target_height st <? new_height then
    (mkConsensus (current_slot st) (current_epoch st) (highest_qc st) (last_voted_slot st) (last_voted_view st)
       (last_committed_hash st) (last_committed_slot st) new_height 0 (pending_votes st) (pending_timeouts st), true)
  else (st, false).

Definition bump_view (st : ConsensusState) : ConsensusState :=
  mkConsensus (current_slot st) (current_epoch st) (highest_qc st) (last_voted_slot st) (last_voted_view st)
    (last_committed_hash st) (last_committed_slot st) (target_height st) (wrap u64 (current_view st + 1))
    (pending_votes st) (pending_timeouts st).

Definition set_highest_qc (qc : QuorumCert) (st : ConsensusState) : ConsensusState :=
  mkConsensus (current_slot st) (current_epoch st) qc (last_voted_slot st) (last_voted_view st)
    (last_committed_hash st) (last_committed_slot st) (target_height st) (current_view st) (pending_votes st)
    (pending_timeouts st).

Definition set_last_vote (slot view : Z) (st : ConsensusState) : ConsensusState :=
  mkConsensus (current_slot st) (current_epoch st) (highest_qc st) slot view
    (last_committed_hash st) (last_committed_slot st) (target_height st) (current_view st) (pending_votes st)
    (pending_timeouts st).

(** [<=] on pairs of [u64]. *)
Definition lex_le (a b : Z * Z) : bool := (a.1 <? b.1) || ((a.1 =? b.1) && (a.2 <=? b.2)).

Section HotStuff.
Context {P : Primitives}.

(** The loop of [verify_qc] over the bit positions; [sigs] are the signatures
    from [sig_idx] on, as many as bits are left. *)
Fixpoint verify_bits (committee_keys : list (list Z)) (preimage : list Z) (bitmap : Z) (positions : list nat)
    (sigs : list (list Z)) : bool :=
  match positions with
  | [] => true
  | bit_pos :: rest =>
      if negb (Z.testbit bitmap (Z.of_nat bit_pos)) then verify_bits committee_keys preimage bitmap rest sigs
      else
        match committee_keys !! bit_pos, sigs with
        | Some key, sig_bytes :: sigs' =>
            if verifies key preimage sig_bytes then verify_bits committee_keys preimage bitmap rest sigs' else false
        | _, _ => false
        end
  end.

Definition verify_qc (qc : QuorumCert) (committee_keys : list (list Z)) (chain_id : Z) : bool :=
  if (voter_bitmap qc =? 0) && (len (qc_signatures qc) =? 0) then true
  else
    let n := len committee_keys in
    if n =? 0 then false
    else
      let pop := count_ones 128 (voter_bitmap qc) in
      if negb (pop =? len (qc_signatures qc)) then false
      else if pop <? quorum_for_committee n then false
      else
        verify_bits committee_keys (proposer_sign_message chain_id (qc_slot qc) (qc_block_hash qc))
          (voter_bitmap qc) (seq 0 128) (qc_signatures qc).

(** The view of a proposal: that of a fallback proof, or else 0. *)
Definition proposal_view (h : BlockHeader) : Z :=
  match decode_fallback_proof (vrf_proof h) with Some (_, v) => v | None => 0 end.

Definition create_vote (chain_id : Z) (header : BlockHeader) (voter_index : Z) (voter_address : Address)
    (sign : Signer) (committee_keys : list (list Z)) : ST ConsensusState string (option ConsensusMessage) := fun st =>
  let view := proposal_view header in
  if lex_le (slot header, view) (last_voted_slot st, last_voted_view st) then (st, Ok None)
  else if qc_slot (qc_previous header) <? qc_slot (highest_qc st) then (st, Ok None)
  else if negb (verify_qc (qc_previous header) committee_keys chain_id) then
    (st, Err "invalid qc_previous: signature verification failed")
  else
    let st :=
      if qc_slot (highest_qc st) <? qc_slot (qc_previous header) then set_highest_qc (qc_previous header) st else st in
    let block_hash := header_hash header in
    match sign (proposer_sign_message chain_id (slot header) block_hash) with
    | Err _ => (st, Err "vote signing failed")
    | Ok sig =>
        (set_last_vote (slot header) view st, Ok (Some (Vote (slot header) block_hash voter_index voter_address sig)))
    end.

Definition verify_vote (chain_id : Z) (vote : ConsensusMessage) (public_key : list Z) : bool :=
  match vote with
  | Vote slot block_hash _ _ signature =>
      match FalconPublicKey_from_bytes public_key with
      | None => false
      | Some pk =>
          let vote_msg := proposer_sign_message chain_id slot block_hash in
          match FalconSignature_from_bytes signature with
          | None => false
          | Some sig => falcon_verify pk vote_msg sig
          end
      end
  | _ => false
  end.

(** The fields of a vote that the aggregation reads. *)
Definition vote_for (slot : Z) (block_hash : list Z) (m : ConsensusMessage) : bool :=
  match m with
  | Vote vote_slot vote_hash _ _ _ => negb (negb (vote_slot =? slot) || negb (bool_decide (vote_hash = block_hash)))
  | _ => false
  end.

Definition vote_index (m : ConsensusMessage) : Z := match m with Vote _ _ i _ _ => i | _ => 0 end.
Definition vote_signature (m : ConsensusMessage) : list Z := match m with Vote _ _ _ _ s => s | _ => [] end.

Definition try_form_qc (chain_id slot : Z) (block_hash : list Z) (votes : list ConsensusMessage)
    (committee_keys : list (list Z)) : option QuorumCert :=
  let '(voter_bitmap, counted) :=
    tally (vote_for slot block_hash) vote_index (verify_vote chain_id) committee_keys votes in
  if quorum_for_committee (len committee_keys) <=? len counted then
    Some (mkQC slot block_hash voter_bitmap (vote_signature <$> sort_by_key vote_index counted))
  else None.

Definition create_timeout (chain_id : Z) (st : ConsensusState) (slot voter_index : Z) (voter_address : Address)
    (sign : Signer) : Result ConsensusMessage string :=
  match sign (bytes_of_string "timeout" ++ le_encode 8 chain_id ++ le_encode 8 slot) with
  | Ok sig => Ok (Timeout slot voter_index voter_address (highest_qc st) sig)
  | Err _ => Err "timeout signing failed"
  end.
End HotStuff.

(** ** A validator at work

    Proposals are voted on or declined; between them the clock advances, the
    target or the view moves, or a certificate with a later slot is learnt.  The
    log has the headers that were voted for. *)

Definition voted (r : Result (option ConsensusMessage) string) : bool :=
  match r with Ok (Some _) => true | _ => false end.

Inductive voting {P : Primitives} (chain_id voter_index : Z) (voter_address : Address) (sign : Signer) :
    ConsensusState -> list BlockHeader -> ConsensusState -> Prop :=
| voting_done st : voting chain_id voter_index voter_address sign st [] st
| voting_proposal st h keys st' r log st'' :
    create_vote chain_id h voter_index voter_address sign keys st = (st', r) ->
    voting chain_id voter_index voter_address sign st' log st'' ->
    voting chain_id voter_index voter_address sign st ((if voted r then [h] else []) ++ log) st''
| voting_slot st log st' :
    voting chain_id voter_index voter_address sign (advance_slot st) log st' ->
    voting chain_id voter_index voter_address sign st log st'
| voting_target st t log st' :
    voting chain_id voter_index voter_address sign (advance_target_height t st).1 log st' ->
    voting chain_id voter_index voter_address sign st log st'
| voting_view st log st' :
    voting chain_id voter_index voter_address sign (bump_view st) log st' ->
    voting chain_id voter_index voter_address sign st log st'
| voting_learn st qc log st' :
    qc_slot (highest_qc st) < qc_slot qc ->
    voting chain_id voter_index voter_address sign (set_highest_qc qc st) log st' ->
    voting chain_id voter_index voter_address sign st log st'.

(** ** Certificates *)

Lemma Forall2_and_Forall_r {A B : Type} (R S : A -> B -> Prop) (Q : B -> Prop) (l : list A) (k : list B) :
  Forall2 R l k -> Forall Q k -> (forall a b, R a b -> Q b -> S a b) -> Forall2 S l k.
Proof. intros F G H. induction F; inversion G; subst; constructor; eauto. Qed.

Section Certificates.
Context {P : Primitives}.

(** Member [i] of the committee signed the message. *)
Definition member_signed (keys : list (list Z)) (msg : list Z) (i : nat) (sig : list Z) : Prop :=
  exists key, keys !! i = Some key /\ verifies key msg sig = true.

Definition set_bits (bitmap : Z) : list nat := filter (fun i => Z.testbit bitmap (Z.of_nat i) = true) (seq 0 128).

Lemma verify_bits_iff (keys : list (list Z)) (msg : list Z) (bitmap : Z) (ps : list nat) (sigs : list (list Z)) :
  let bits := filter (fun i => Z.testbit bitmap (Z.of_nat i) = true) ps in
  length sigs = length bits ->
  verify_bits keys msg bitmap ps sigs = true <-> Forall2 (member_signed keys msg) bits sigs.
Proof.
  revert sigs. induction ps as [|p ps IH]; intros sigs; cbn [verify_bits].
  { intros E. apply nil_length_inv in E as ->. split; [constructor|done]. }
  rewrite filter_cons. destruct (Z.testbit bitmap (Z.of_nat p)) eqn:E; cbn [negb].
  - rewrite decide_True by done. destruct sigs as [|sig sigs]; intros L; [done|]. rewrite Forall2_cons.
    unfold member_signed at 1. destruct (keys !! p) as [key|].
    + destruct (verifies key msg sig) eqn:V.
      * rewrite IH by (cbn in L; lia). split; [|by intros []]. intros F. split; [eauto|done].
      * split; [done|]. intros [(key' & [= <-] & ?) _]. congruence.
    + split; [done|]. by intros [(? & ? & _) _].
  - rewrite decide_False by congruence. apply IH.
Qed.

(** What a certificate that verifies proves. *)
Lemma verify_qc_iff (qc : QuorumCert) (keys : list (list Z)) (chain_id : Z) :
  verify_qc qc keys chain_id = true <->
  (voter_bitmap qc = 0 /\ qc_signatures qc = []) \/
  (keys <> [] /\ has_quorum_for qc (len keys) = true /\
   Forall2 (member_signed keys (proposer_sign_message chain_id (qc_slot qc) (qc_block_hash qc)))
     (set_bits (voter_bitmap qc)) (qc_signatures qc)).
Proof.
  unfold verify_qc, has_quorum_for, vote_count. set (msg := proposer_sign_message _ _ _).
  assert (forall (l : list (list Z)), len l = 0 <-> l = []) as Hl by (intros []; unfold len; cbn; split; (done || lia)).
  destruct (Z.eqb_spec (voter_bitmap qc) 0), (Z.eqb_spec (len (qc_signatures qc)) 0) as [S|S]; cbn [andb];
    [split; [|done]; intros _; left; split; [done|by apply Hl]|..].
  all: assert (~ (voter_bitmap qc = 0 /\ qc_signatures qc = [])) as Hne by (rewrite <- Hl; tauto).
  all: destruct (Z.eqb_spec (len keys) 0) as [K|K]; [split; [done|]; intros [?|(K' & _)]; [done|by apply Hl in K]|].
  all: assert (keys <> []) as Hk by by rewrite <- Hl.
  all: assert (len (set_bits (voter_bitmap qc)) = count_ones 128 (voter_bitmap qc)) as Hc by done.
  all: destruct (Z.eqb_spec (count_ones 128 (voter_bitmap qc)) (len (qc_signatures qc))) as [E|E]; cbn [negb];
    [|split; [done|]; intros [?|(_ & _ & F)]; [done|]; apply Forall2_length in F; unfold len in *; lia].
  all: destruct (Z.ltb_spec (count_ones 128 (voter_bitmap qc)) (quorum_for_committee (len keys))) as [Q|Q];
    [split; [done|]; intros [?|(_ & F%Z.leb_le & _)]; [done|lia]|].
  all: rewrite verify_bits_iff by (fold (set_bits (voter_bitmap qc)); unfold len in *; lia).
  all: fold (set_bits (voter_bitmap qc)); split; [intros F; right; split; [done|]; split; [by apply Z.leb_le|done]|by intros [|(_ & _ & F)]].
Qed.

Lemma verify_vote_verifies (chain_id slot : Z) (h : list Z) (m : ConsensusMessage) (key : list Z) :
  vote_for slot h m = true ->
  verify_vote chain_id m key = verifies key (proposer_sign_message chain_id slot h) (vote_signature m).
Proof.
  destruct m as [|s h' i a sig| | |]; try done. cbn [vote_for]. destruct (Z.eqb_spec s slot) as [->|]; [|done].
  case_bool_decide as E; [|done]. subst h'. intros _. unfold verify_vote, verifies. cbn [vote_signature].
  by destruct (FalconPublicKey_from_bytes key), (FalconSignature_from_bytes sig).
Qed.

(** [C32] Votes become a certificate exactly when a quorum voted, and what is
    formed verifies.  For a committee of at most 128, [try_form_qc] gives a
    certificate if and only if the members with a verified vote for the block
    and slot are a quorum; the certificate names exactly those members, has as
    many votes, is for that block and slot, and is accepted by [verify_qc] with
    the committee's keys on the same chain, whatever the order in which the votes
    arrived. *)
Theorem qc_forms_and_verifies (chain_id slot : Z) (h : list Z) (votes : list ConsensusMessage) (keys : list (list Z)) :
  len keys <= 128 -> (forall m, m ∈ votes -> 0 <= vote_index m) ->
  let members := voters (vote_for slot h) vote_index (verify_vote chain_id) keys votes in
  match try_form_qc chain_id slot h votes keys with
  | None => len members < quorum_for_committee (len keys)
  | Some qc =>
      quorum_for_committee (len keys) <= len members /\ verify_qc qc keys chain_id = true /\
      vote_count qc = len members /\ has_quorum_for qc (len keys) = true /\
      qc_slot qc = slot /\ qc_block_hash qc = h /\
      forall i : nat, Z.testbit (voter_bitmap qc) (Z.of_nat i) = true <-> i ∈ members
  end.
Proof.
  intros Hn H0 members. unfold try_form_qc.
  pose proof (tally_spec (vote_for slot h) vote_index (verify_vote chain_id) keys Hn votes H0) as T.
  destruct (tally _ _ _ _ votes) as [bm c]. cbn [fst snd] in T.
  pose proof (tally_voters _ _ _ _ _ _ _ T H0) as Ev. fold members in Ev.
  pose proof (tally_count _ _ _ _ Hn _ _ _ T H0) as Ec. pose proof (tally_ordered _ _ _ _ Hn _ _ _ T H0) as Eo.
  rewrite Ev. destruct (Z.leb_spec (quorum_for_committee (len keys)) (len members)) as [Q|Q]; [|done].
  cbn [qc_slot qc_block_hash]. split; [done|].
  assert (vote_count (mkQC slot h bm (vote_signature <$> sort_by_key vote_index c)) = len members) as Ecount.
  { unfold vote_count. cbn [voter_bitmap]. lia. }
  split; [|split; [done|]; split; [unfold has_quorum_for; rewrite Ecount; by apply Z.leb_le|]; split_and!; try done].
  - apply verify_qc_iff. cbn [voter_bitmap qc_signatures qc_slot qc_block_hash]. destruct keys as [|key0 keys].
    + left. destruct T as [R _ _ S _]. split; [change (0 <= bm < 1) in R; lia|].
      assert (c = []) as ->; [|done]. destruct c as [|m c]; [done|]. destruct (S m) as [_ (_ & key & ? & _)]; [left|done].
    + right. split; [done|]. split; [unfold has_quorum_for; rewrite Ecount; by apply Z.leb_le|].
      apply Forall2_fmap_r. apply list_eq_Forall2, Forall2_fmap_1, Forall2_flip in Eo.
      eapply Forall2_and_Forall_r; [exact Eo| |].
      { rewrite (sort_by_key_perm vote_index). apply Forall_forall. intros m Hm. exact (proj2 (tl_sound _ _ _ _ _ _ _ T m Hm)). }
      intros i m Ei (Hr & key & Hk & Hv). exists key. cbn in Ei. rewrite Ei, Nat2Z.id in Hk. split; [done|].
      by rewrite <- (verify_vote_verifies chain_id slot h m key).
  - intros i. rewrite (tallied_bits _ _ _ _ _ _ _ _ T) by lia. unfold members. by rewrite voters_elem.
Qed.
End Certificates.

(** ** Voting *)

Section Voting.
Context {P : Primitives}.

Definition position (h : BlockHeader) : Z * Z := (slot h, proposal_view h).
Definition last_vote (st : ConsensusState) : Z * Z := (last_voted_slot st, last_voted_view st).
Definition lex_lt (a b : Z * Z) : Prop := a.1 < b.1 \/ (a.1 = b.1 /\ a.2 < b.2).

Lemma lex_le_false (a b : Z * Z) : lex_le a b = false <-> lex_lt b a.
Proof.
  unfold lex_le, lex_lt. destruct (Z.ltb_spec a.1 b.1), (Z.eqb_spec a.1 b.1), (Z.leb_spec a.2 b.2); cbn [orb andb];
    split; (done || lia).
Qed.

Lemma lex_lt_trans (a b c : Z * Z) : lex_lt a b -> lex_lt b c -> lex_lt a c.
Proof. unfold lex_lt. lia. Qed.

Lemma create_vote_spec (chain_id i : Z) (a : Address) (sign : Signer) (h : BlockHeader) (keys : list (list Z))
    (st st' : ConsensusState) (r : Result (option ConsensusMessage) string) :
  create_vote chain_id h i a sign keys st = (st', r) ->
  qc_slot (highest_qc st) <= qc_slot (highest_qc st') /\
  if voted r then
    lex_lt (last_vote st) (position h) /\ last_vote st' = position h /\
    qc_slot (highest_qc st) <= qc_slot (qc_previous h) <= qc_slot (highest_qc st') /\
    verify_qc (qc_previous h) keys chain_id = true /\
    exists sig, sign (proposer_sign_message chain_id (slot h) (header_hash h)) = Ok sig /\
      r = Ok (Some (Vote (slot h) (header_hash h) i a sig))
  else last_vote st' = last_vote st.
Proof.
  unfold create_vote. destruct (lex_le _ _) eqn:L; [intros [= <- <-]; split; [lia|done]|].
  destruct (Z.ltb_spec (qc_slot (qc_previous h)) (qc_slot (highest_qc st))); [intros [= <- <-]; split; [lia|done]|].
  destruct (verify_qc _ _ _) eqn:V; cbn [negb]; [|intros [= <- <-]; split; [lia|done]].
  cbv zeta. set (st1 := if qc_slot (highest_qc st) <? qc_slot (qc_previous h) then set_highest_qc (qc_previous h) st else st).
  assert (qc_slot (highest_qc st1) = qc_slot (qc_previous h) /\ last_vote st1 = last_vote st) as [E1 E2].
  { unfold st1. destruct (Z.ltb_spec (qc_slot (highest_qc st)) (qc_slot (qc_previous h))); [done|]. split; [lia|done]. }
  destruct (sign _) as [sig|e] eqn:S; intros [= <- <-]; cbn [voted].
  - cbn [highest_qc set_last_vote]. split; [lia|]. split; [by apply lex_le_false|]. split; [done|]. split; [lia|]. eauto.
  - split; [lia|done].
Qed.

(** The log is in order, between the certificates known before and after. *)
Definition later (h h' : BlockHeader) : Prop :=
  lex_lt (position h) (position h') /\ qc_slot (qc_previous h) <= qc_slot (qc_previous h').

Record ordered (st : ConsensusState) (log : list BlockHeader) (st' : ConsensusState) : Prop := {
  ord_sorted : StronglySorted later log;
  ord_new h : h ∈ log -> lex_lt (last_vote st) (position h);
  ord_qc h : h ∈ log -> qc_slot (highest_qc st) <= qc_slot (qc_previous h) <= qc_slot (highest_qc st');
  ord_highest : qc_slot (highest_qc st) <= qc_slot (highest_qc st')
}.

Lemma voting_ordered (chain_id i : Z) (a : Address) (sign : Signer) (st st' : ConsensusState) (log : list BlockHeader) :
  voting chain_id i a sign st log st' -> ordered st log st'.
Proof.
  induction 1 as [st|st h keys st1 r log st2 C V IH|st log st2 V IH|st t log st2 V IH|st log st2 V IH|st qc log st2 Hq V IH].
  - split; [constructor|set_solver|set_solver|lia].
  - destruct IH as [S F Q M]. apply create_vote_spec in C as [Cm C]. destruct (voted r); cbn [app].
    + destruct C as (L & E & Hq & _). rewrite E in F. split; [|intros h' Hh'..|lia].
      * constructor; [done|]. apply Forall_forall. intros h' Hh'. split; [by apply F|]. specialize (Q h' Hh'). lia.
      * apply elem_of_cons in Hh' as [->|Hh']; [done|]. eapply lex_lt_trans; [exact L|by apply F].
      * apply elem_of_cons in Hh' as [->|Hh']; [lia|]. specialize (Q h' Hh'). lia.
    + rewrite C in F. split; [done|done|intros h' Hh'; specialize (Q h' Hh'); lia|lia].
  - by destruct IH.
  - unfold advance_target_height in IH. destruct (target_height st <? t); by destruct IH.
  - by destruct IH.
  - destruct IH as [S F Q M]. cbn [highest_qc set_highest_qc] in *.
    split; [done|done|intros h Hh; specialize (Q h Hh); lia|lia].
Qed.

Lemma sorted_position (log : list BlockHeader) (h h' : BlockHeader) :
  StronglySorted later log -> h ∈ log -> h' ∈ log -> position h = position h' -> h = h'.
Proof.
  assert (forall h h', later h h' -> position h <> position h') as N.
  { intros h1 h2 [L _] E. rewrite E in L. unfold lex_lt in L. lia. }
  induction 1 as [|h0 log S IH D]; [set_solver|]. rewrite Forall_forall in D.
  intros [->|H1]%elem_of_cons [->|H2]%elem_of_cons E; [done| | |auto].
  - by destruct (N h0 h' (D h' H2)).
  - by destruct (N h0 h (D h H1)).
Qed.

(** [C8] A validator never votes twice in a view: along any run of the voting
    rule, the positions (slot, view) of the headers it votes for strictly
    increase, so two votes with the same slot and view are for the same header;
    the certificates these headers extend never go back in slot, and never below
    the highest one the validator knew at the start. *)
Theorem voting_is_safe (chain_id i : Z) (a : Address) (sign : Signer) (st st' : ConsensusState) (log : list BlockHeader) :
  voting chain_id i a sign st log st' ->
  StronglySorted later log /\
  (forall h, h ∈ log -> lex_lt (last_vote st) (position h)) /\
  (forall h, h ∈ log -> qc_slot (highest_qc st) <= qc_slot (qc_previous h) <= qc_slot (highest_qc st')) /\
  (forall h h', h ∈ log -> h' ∈ log -> position h = position h' -> h = h').
Proof.
  intros V%voting_ordered. destruct V as [S F Q _]. split_and!; [done..|]. intros h h'. by apply sorted_position.
Qed.
End Voting.

(** ** Witnesses *)

(** A proposal for a slot and a recovery view, on top of a certificate. *)
Definition fallback_header (s v : Z) (qc : QuorumCert) : BlockHeader :=
  mkHeader s (s / EPOCH_LENGTH) H256_zero ZERO_ADDRESS (encode_fallback_proof s v) qc H256_zero H256_zero 1000.

Definition toy_vote (chain_id s : Z) (h : list Z) (i : Z) : ConsensusMessage :=
  Vote s h i ZERO_ADDRESS (match toy_sign (proposer_sign_message chain_id s h) with Ok sig => sig | Err _ => [] end).

Lemma qc_forms_and_verifies_witness :
  let votes := toy_vote 7 5 H256_zero <$> [2; 0; 2; 1; 9] in
  exists qc, try_form_qc 7 5 H256_zero votes toy_committee = Some qc /\
    verify_qc qc toy_committee 7 = true /\ vote_count qc = 3.
Proof.
  intros votes.
  assert (len toy_committee <= 128) as Hn by discriminate.
  assert (forall m, m ∈ votes -> 0 <= vote_index m) as H0.
  { apply Forall_forall. repeat (constructor; [discriminate|]). constructor. }
  pose proof (qc_forms_and_verifies 7 5 H256_zero votes toy_committee Hn H0) as T. cbv zeta in T.
  assert (voters (vote_for 5 H256_zero) vote_index (verify_vote 7) toy_committee votes = [0; 1; 2]%nat) as Ev
    by (vm_compute; reflexivity).
  rewrite Ev in T. destruct (try_form_qc 7 5 H256_zero votes toy_committee) as [qc|]; [|discriminate T].
  destruct T as (_ & V & C & _). exists qc. split; [reflexivity|]. split; [exact V|exact C].
Defined.

Lemma voting_is_safe_witness :
  let h1 := fallback_header 5 1 QuorumCert_empty in
  let h2 := fallback_header 5 2 QuorumCert_empty in
  exists st, voting 7 0 ZERO_ADDRESS toy_sign ConsensusState_new [h1; h2] st /\ StronglySorted later [h1; h2].
Proof.
  intros h1 h2.
  set (step h st := create_vote 7 h 0 ZERO_ADDRESS toy_sign toy_committee st).
  assert (voted (step h1 ConsensusState_new).2 = true) as V1 by (vm_compute; reflexivity).
  assert (voted (step h2 (step h1 ConsensusState_new).1).2 = true) as V2 by (vm_compute; reflexivity).
  destruct (step h1 ConsensusState_new) as [st1 r1] eqn:E1. cbn [fst snd] in V1, V2.
  destruct (step h2 st1) as [st2 r2] eqn:E2. cbn [snd] in V2. exists st2.
  assert (voting 7 0 ZERO_ADDRESS toy_sign ConsensusState_new [h1; h2] st2) as V.
  { pose proof (voting_proposal 7 0 ZERO_ADDRESS toy_sign _ h1 _ st1 r1 [h2] st2 E1) as S1. rewrite V1 in S1. apply S1.
    pose proof (voting_proposal 7 0 ZERO_ADDRESS toy_sign _ h2 _ st2 r2 [] st2 E2) as S2. rewrite V2 in S2. apply S2.
    constructor. }
  split; [exact V|]. apply (voting_is_safe 7 0 ZERO_ADDRESS toy_sign ConsensusState_new st2 [h1; h2] V).
Defined.

(** ** Findings *)

(** Finding: one proposal with an empty certificate silences a voter.  The
    certificate has no vote and no signature but claims slot 2^64 - 1;
    [verify_qc] takes it for the genesis one, the voter votes and adopts it as
    its highest certificate, and from then on declines every proposal whose
    certificate has a lower slot, that is, every honest one. *)
Theorem empty_certificate_silences_voter :
  let h := fallback_header 5 1 (mkQC (2 ^ 64 - 1) H256_zero 0 []) in
  let '(st, r) := create_vote 7 h 0 ZERO_ADDRESS toy_sign toy_committee ConsensusState_new in
  voted r = true /\
  forall h' keys, qc_slot (qc_previous h') < 2 ^ 64 - 1 ->
    create_vote 7 h' 0 ZERO_ADDRESS toy_sign keys st = (st, Ok None).
Proof.
  intros h.
  set (c := create_vote 7 h 0 ZERO_ADDRESS toy_sign toy_committee ConsensusState_new).
  assert (voted c.2 = true) as V by (vm_compute; reflexivity).
  assert (qc_slot (highest_qc c.1) = 2 ^ 64 - 1) as E by (vm_compute; reflexivity).
  destruct c as [st r]. cbn [fst snd] in V, E. split; [done|]. intros h' keys L. unfold create_vote.
  destruct (lex_le _ _); [done|]. rewrite E. destruct (Z.ltb_spec (qc_slot (qc_previous h')) (2 ^ 64 - 1)); [done|lia].
Qed.

(** Finding: two blocks of one height can both be certified with every vote
    honest.  Four members follow the voting rule on a proposal for slot 5 and on
    a fallback for the same slot; each votes for both, since the positions
    increase and the certificate they extend is the same; the signed messages do
    not contain the view; two certificates with four votes each are formed, for
    the same slot and different blocks, and both verify. *)
Theorem two_certificates_at_one_height :
  let a := fallback_header 5 0 QuorumCert_empty in
  let b := fallback_header 5 1 QuorumCert_empty in
  let both i :=
    let '(st, r1) := create_vote 7 a i ZERO_ADDRESS toy_sign toy_committee ConsensusState_new in
    let '(_, r2) := create_vote 7 b i ZERO_ADDRESS toy_sign toy_committee st in (r1, r2) in
  let cast r := match r with Ok (Some m) => Some m | _ => None end in
  let committee := [0; 1; 2; 3] in
  match try_form_qc 7 5 (header_hash a) (omap (fun i => cast (both i).1) committee) toy_committee,
        try_form_qc 7 5 (header_hash b) (omap (fun i => cast (both i).2) committee) toy_committee with
  | Some qa, Some qb =>
      qc_slot qa = qc_slot qb /\ qc_block_hash qa <> qc_block_hash qb /\
      vote_count qa = 4 /\ vote_count qb = 4 /\
      verify_qc qa toy_committee 7 = true /\ verify_qc qb toy_committee 7 = true
  | _, _ => False
  end.
Proof. vm_compute. split_and!; (reflexivity || discriminate). Qed.
