(* ===== verification/Accountability.v ===== *)
(** * Accountability: conflicting certificates are paid for

    The certificates of [HotStuff] against the slash handler of [Handlers]: when
    two blocks of a slot are certified, more than a third of the committee can
    be slashed with signatures taken from the certificates. *)

From stdpp Require Import base numbers list option gmap strings sets.
From Stdlib Require Import ZArith Lia.
From S2P Require Import Prelude Crypto Wire Keys Nonce Account Economics State Transaction Validation Execution.
From S2P Require Import Store Handlers HandlerProps Chain ViewChange HotStuff.

#[local] Open Scope Z_scope.
#[local] Open Scope pyde_scope.

(** ** Evidence on the wire *)

Record wf_evidence (ev : SlashEvidence) : Prop := {
  wv_slot : in_range u64 (ev_slot ev);
  wv_hash_1 : length (block_hash_1 ev) = 32%nat;
  wv_hash_2 : length (block_hash_2 ev) = 32%nat;
  wv_sig_1 : len (signature_1 ev) < 2 ^ 32;
  wv_sig_2 : len (signature_2 ev) < 2 ^ 32;
  wv_signer : length (signer ev) = 32%nat;
  wv_submitter : length (submitter ev) = 32%nat
}.

Lemma slice_at (off n : nat) (a b c : list Z) : length a = off -> length b = n -> slice off n (a ++ b ++ c) = b.
Proof. intros <- <-. rewrite slice_skip, Nat.sub_diag by lia. by apply slice_here. Qed.

Lemma need_true (data : list Z) (pos n : Z) : pos + n <= len data -> need data pos n = Ok tt.
Proof. intros H. unfold need. destruct (Z.ltb_spec (len data) (pos + n)); [lia|done]. Qed.

(** The slash handler reads back the evidence a node encodes. *)
Lemma evidence_roundtrip (ev : SlashEvidence) :
  wf_evidence ev -> decode_slash_evidence (evidence_encode ev) = Ok ev.
Proof.
  intros []. set (data := evidence_encode ev). set (n1 := length (signature_1 ev)). set (n2 := length (signature_2 ev)).
  assert (len data = 145 + Z.of_nat n1 + Z.of_nat n2 /\ (145 + n1 + n2)%nat = length data) as [L L'].
  { unfold data, evidence_encode, write_prefixed, len. rewrite !length_app, !length_le_encode. cbn [length]. lia. }
  assert (le_at 1 8 data = ev_slot ev /\ slice 9 32 data = block_hash_1 ev /\ le_at 41 4 data = Z.of_nat n1) as (E1 & E2 & E3).
  { unfold data, evidence_encode, write_prefixed. rewrite <- !app_assoc. wire. split_and!; [|done|];
      apply le_decode_encode; [done|]. unfold len in *. cbn. lia. }
  set (pre := [EVIDENCE_VERSION] ++ le_encode 8 (ev_slot ev) ++ block_hash_1 ev ++ le_encode 4 (len (signature_1 ev))).
  set (mid := block_hash_2 ev ++ le_encode 4 (len (signature_2 ev))).
  assert (data = pre ++ signature_1 ev ++ mid ++ signature_2 ev ++ signer ev ++ submitter ev) as E.
  { unfold data, evidence_encode, write_prefixed, pre, mid. by rewrite <- !app_assoc. }
  assert (length pre = 45%nat /\ length mid = 36%nat) as [Lp Lm].
  { unfold pre, mid. rewrite !length_app, !length_le_encode. cbn [length]. lia. }
  assert (slice 45 n1 data = signature_1 ev) as E4 by (rewrite E; by apply slice_at).
  assert (forall o n, slice (45 + n1 + o) n data = slice o n (mid ++ signature_2 ev ++ signer ev ++ submitter ev)) as Sk.
  { intros o n. rewrite E, app_assoc. rewrite slice_skip by (rewrite length_app; unfold n1; lia). f_equal.
    rewrite length_app. unfold n1. lia. }
  assert (slice (45 + n1) 32 data = block_hash_2 ev /\ le_at (45 + n1 + 32) 4 data = Z.of_nat n2) as [E5 E6].
  { unfold le_at. rewrite <- (Nat.add_0_r (45 + n1)), Sk, Nat.add_0_r, Sk. unfold mid. rewrite <- !app_assoc. wire.
    split; [done|]. apply le_decode_encode. unfold len in *. cbn. lia. }
  assert (slice (45 + n1 + 36) n2 data = signature_2 ev /\ slice (45 + n1 + (36 + n2)) 32 data = signer ev /\
          slice (45 + n1 + (36 + n2 + 32)) 32 data = submitter ev) as (E7 & E8 & E9).
  { rewrite !Sk. split_and!; [by apply slice_at|..]; rewrite app_assoc.
    - apply slice_at; [rewrite length_app; unfold n2; lia|done].
    - rewrite app_assoc, slice_skip by (rewrite !length_app; unfold n2; lia).
      replace (36 + n2 + 32 - _)%nat with 0%nat by (rewrite !length_app; unfold n2; lia). by apply slice_all. }
  unfold decode_slash_evidence. rewrite !need_true by lia. change (byte_at 0 data) with EVIDENCE_VERSION.
  cbn [and_then]. rewrite Z.eqb_refl. cbn [negb]. rewrite E3. cbv zeta.
  replace (Z.to_nat (45 + Z.of_nat n1 + 32)) with (45 + n1 + 32)%nat by lia. rewrite E6.
  rewrite !need_true by lia. cbn [and_then].
  replace (Z.to_nat (45 + Z.of_nat n1)) with (45 + n1)%nat by lia.
  replace (Z.to_nat (45 + Z.of_nat n1 + 36)) with (45 + n1 + 36)%nat by lia.
  replace (Z.to_nat (45 + Z.of_nat n1 + 36 + Z.of_nat n2)) with (45 + n1 + (36 + n2))%nat by lia.
  replace (Z.to_nat (45 + Z.of_nat n1 + 36 + Z.of_nat n2 + 32)) with (45 + n1 + (36 + n2 + 32))%nat by lia.
  rewrite !Nat2Z.id, E1, E2, E4, E5, E7, E8, E9. by destruct ev.
Qed.

(** ** Members in both certificates *)

Section Accountability.
Context `{PO : PrimitivesOk} {St : Type} `{SAOk : StateAccessOk St}.
Implicit Types s : St.

Lemma set_bits_land (a b : Z) (i : nat) : i ∈ set_bits (Z.land a b) <-> i ∈ set_bits a /\ i ∈ set_bits b.
Proof.
  unfold set_bits. rewrite !list_elem_of_filter, Z.land_spec, andb_true_iff. tauto.
Qed.

(** A member's bit has a signature of that member beside it. *)
Lemma bit_signed (keys : list (list Z)) (msg : list Z) (bits : list nat) (sigs : list (list Z)) (i : nat) :
  Forall2 (member_signed keys msg) bits sigs -> i ∈ bits ->
  exists key sig, keys !! i = Some key /\ sig ∈ sigs /\ verifies key msg sig = true.
Proof.
  intros F (j & Hj)%list_elem_of_lookup. destruct (Forall2_lookup_l _ _ _ _ _ F Hj) as (sig & Hs & key & ? & ?).
  exists key, sig. split; [done|]. split; [by apply list_elem_of_lookup_2 with j|done].
Qed.

Lemma members_only (keys : list (list Z)) (msg : list Z) (bitmap : Z) (sigs : list (list Z)) :
  in_range u128 bitmap -> Forall2 (member_signed keys msg) (set_bits bitmap) sigs -> in_range (len keys) bitmap.
Proof.
  intros R F. unfold len. apply in_range_bits in R as [R0 R]; [|done]. apply in_range_bits; [lia|]. split; [done|].
  intros i Hi. destruct (Z.leb_spec 128 i); [by apply R|]. apply not_true_iff_false. intros T.
  destruct (bit_signed keys msg _ sigs (Z.to_nat i) F) as (key & _ & E & _).
  - unfold set_bits. rewrite list_elem_of_filter, elem_of_seq, Z2Nat.id by lia. split; [done|lia].
  - apply lookup_lt_Some in E. lia.
Qed.

(** The members in both of two quorums. *)
Lemma quorum_overlap (keys : list (list Z)) (b1 b2 : Z) :
  1 <= len keys -> in_range (len keys) b1 -> in_range (len keys) b2 ->
  quorum_for_committee (len keys) <= count_ones 128 b1 -> quorum_for_committee (len keys) <= count_ones 128 b2 ->
  (len keys - 1) / 3 < len (set_bits (Z.land b1 b2)).
Proof.
  intros Hn R1 R2 Q1 Q2. pose proof (count_ones_land 128 b1 b2 (len keys) R1 R2 ltac:(lia)) as L.
  change (len (set_bits (Z.land b1 b2))) with (count_ones 128 (Z.land b1 b2)).
  set (both := count_ones 128 (Z.land b1 b2)) in *. clearbody both. unfold quorum_for_committee in *.
  destruct (Z.eqb_spec (len keys) 0); [lia|]. Z.to_euclidean_division_equations. lia.
Qed.

(** The state has an entry with the member's key for every committee member. *)
Definition registered s (committee : list Address) (keys : list (list Z)) : Prop :=
  forall i key, keys !! i = Some key -> exists a e, committee !! i = Some a /\ length a = 32%nat /\
    entry_of s a = Some e /\ pk e = key /\ status e <> 2.

Lemma convicts_success (chain : Z) (tx : Transaction) (sb : Z) s (ev : SlashEvidence) (e : ValidatorEntry) :
  convicts chain tx s ev e ->
  (execute_slash chain tx sb s).2 = succeeded 100000 (signer ev) /\
  (execute_slash chain tx sb s).1.2 = saturating_add u128 sb (Z.min (stake e) VALIDATOR_STAKE * FINDER_FEE_PERCENT / 100).
Proof.
  intros C. destruct (slash_cases chain tx sb s) as [(msg & _ & N)|(ev' & e' & C' & ->)]; [by destruct (N ev e)|].
  destruct C, C'. assert (ev' = ev) as -> by congruence. by assert (e' = e) as -> by congruence.
Qed.

(** [C12] Conflicting certificates are accountable.  If two certificates of one
    slot and one committee (at most 128 members, registered and not ejected)
    verify for different blocks, then more than [(n - 1) / 3] members are in
    both, and for each of these the signatures in the two certificates make
    evidence with which anybody's slash transaction succeeds against that member
    and pays the finder: a fork costs the stakes of a third of the committee at
    least. *)
Theorem conflicting_certificates_convict (chain : Z) (qc1 qc2 : QuorumCert) (committee : list Address)
    (keys : list (list Z)) (finder : Address) s :
  1 <= len keys <= COMMITTEE_SIZE -> length finder = 32%nat -> registered s committee keys ->
  in_range u64 (qc_slot qc1) -> qc_slot qc1 = qc_slot qc2 ->
  length (qc_block_hash qc1) = 32%nat -> length (qc_block_hash qc2) = 32%nat ->
  qc_block_hash qc1 <> qc_block_hash qc2 ->
  in_range u128 (voter_bitmap qc1) -> in_range u128 (voter_bitmap qc2) ->
  Forall (fun sig => len sig < 2 ^ 32) (qc_signatures qc1 ++ qc_signatures qc2) ->
  qc_signatures qc1 <> [] -> qc_signatures qc2 <> [] ->
  verify_qc qc1 keys chain = true -> verify_qc qc2 keys chain = true ->
  let culprits := set_bits (Z.land (voter_bitmap qc1) (voter_bitmap qc2)) in
  (len keys - 1) / 3 < len culprits /\
  forall i, i ∈ culprits -> exists a ev e, committee !! i = Some a /\ entry_of s a = Some e /\ signer ev = a /\
    submitter ev = finder /\ signature_1 ev ∈ qc_signatures qc1 /\ signature_2 ev ∈ qc_signatures qc2 /\
    forall tx sb, Tx.data tx = evidence_encode ev ->
      (execute_slash chain tx sb s).2 = succeeded 100000 a /\
      (execute_slash chain tx sb s).1.2 = saturating_add u128 sb (Z.min (stake e) VALIDATOR_STAKE * FINDER_FEE_PERCENT / 100).
Proof.
  intros Hn Hf Reg Hs Es L1 L2 Hne R1 R2 Sl N1 N2 V1 V2 culprits.
  apply verify_qc_iff in V1 as [[_ V1]|(_ & Q1 & F1)]; [done|]. apply verify_qc_iff in V2 as [[_ V2]|(_ & Q2 & F2)]; [done|].
  split.
  { apply quorum_overlap; [lia|by eapply members_only..|by apply Z.leb_le in Q1|by apply Z.leb_le in Q2]. }
  intros i [B1 B2]%set_bits_land.
  destruct (bit_signed _ _ _ _ _ F1 B1) as (key & s1 & K & I1 & S1).
  destruct (bit_signed _ _ _ _ _ F2 B2) as (key' & s2 & K' & I2 & S2). assert (key' = key) as -> by congruence.
  destruct (Reg i key K) as (a & e & Ha & La & He & <- & Hst).
  set (ev := mkEvidence (qc_slot qc1) (qc_block_hash qc1) s1 (qc_block_hash qc2) s2 a finder).
  exists a, ev, e. split_and!; try done. intros tx sb Ed. rewrite Forall_app, !Forall_forall in Sl. destruct Sl as [Sl1 Sl2].
  apply (convicts_success chain tx sb s ev e). split; cbn; try done; [|by rewrite Es].
  rewrite Ed. apply evidence_roundtrip. split; cbn; auto.
Qed.

(** Finding: a validator that follows the voting rule can be slashed.  If
    it votes for a proposal and then, after a view change, for another block of
    the same slot, which [create_vote] allows, then the two votes are evidence
    of double signing as [execute_slash] judges it, since the messages that are
    signed have the slot but not the view. *)
Theorem honest_votes_are_slashable (chain i : Z) (a finder : Address) (sign : Signer) (h1 h2 : BlockHeader)
    (keys : list (list Z)) (st st1 st2 : ConsensusState) (sg1 sg2 : list Z) (e : ValidatorEntry) s (tx : Transaction) (sb : Z) :
  create_vote chain h1 i a sign keys st = (st1, Ok (Some (Vote (slot h1) (header_hash h1) i a sg1))) ->
  create_vote chain h2 i a sign keys st1 = (st2, Ok (Some (Vote (slot h2) (header_hash h2) i a sg2))) ->
  slot h1 = slot h2 -> in_range u64 (slot h1) -> header_hash h1 <> header_hash h2 ->
  verify_vote chain (Vote (slot h1) (header_hash h1) i a sg1) (pk e) = true ->
  verify_vote chain (Vote (slot h2) (header_hash h2) i a sg2) (pk e) = true -> len sg1 < 2 ^ 32 -> len sg2 < 2 ^ 32 ->
  length a = 32%nat -> length finder = 32%nat -> length (header_hash h1) = 32%nat -> length (header_hash h2) = 32%nat ->
  entry_of s a = Some e -> status e <> 2 ->
  Tx.data tx = evidence_encode (mkEvidence (slot h1) (header_hash h1) sg1 (header_hash h2) sg2 a finder) ->
  (execute_slash chain tx sb s).2 = succeeded 100000 a.
Proof.
  intros _ _ Es Hr Hne S1 S2 ? ? La Lf L1 L2 He Hst Ed.
  rewrite (verify_vote_verifies chain (slot h1) (header_hash h1)) in S1 by (cbn; by rewrite Z.eqb_refl, bool_decide_eq_true_2).
  rewrite (verify_vote_verifies chain (slot h2) (header_hash h2)) in S2 by (cbn; by rewrite Z.eqb_refl, bool_decide_eq_true_2).
  set (ev := mkEvidence (slot h1) (header_hash h1) sg1 (header_hash h2) sg2 a finder) in Ed.
  apply (convicts_success chain tx sb s ev e). split; cbn; try done; [|by rewrite Es].
  rewrite Ed. apply evidence_roundtrip. by split.
Qed.
End Accountability.

(** ** Witnesses *)

Definition toy_members : list Address := (fun i => replicate 32 i) <$> [1; 2; 3; 4].
Definition toy_entry : ValidatorEntry := mkValidator (replicate 897 0) VALIDATOR_STAKE 0 5 None None.
Definition toy_registry : MapState :=
  foldr (fun a => put (validator_key a) (entry_encode toy_entry)) PydeSMT_new toy_members.

Definition toy_qc (bitmap : Z) (h : list Z) (voters : nat) : QuorumCert :=
  mkQC 5 h bitmap (replicate voters (match toy_sign (proposer_sign_message 7 5 h) with Ok sig => sig | Err _ => [] end)).

Lemma toy_registered : registered toy_registry toy_members toy_committee.
Proof.
  assert (forall a, a ∈ toy_members -> entry_of toy_registry a = Some toy_entry) as E.
  { apply Forall_forall. repeat (constructor; [vm_compute; reflexivity|]). constructor. }
  intros i key [-> Hi]%lookup_replicate.
  destruct (lookup_lt_is_Some_2 toy_members i Hi) as [a Ha]. exists a, toy_entry. split; [exact Ha|].
  apply list_elem_of_lookup_2 in Ha as Ha'. apply list_elem_of_fmap in Ha' as (x & Ex & _).
  split; [by rewrite Ex, length_replicate|]. split; [|split; [reflexivity|discriminate]].
  apply E. by apply list_elem_of_lookup_2 with i.
Qed.

Lemma conflicting_certificates_convict_witness :
  let qc1 := toy_qc 7 (replicate 32 1) 3 in
  let qc2 := toy_qc 14 (replicate 32 2) 3 in
  verify_qc qc1 toy_committee 7 = true /\ verify_qc qc2 toy_committee 7 = true /\
  (len toy_committee - 1) / 3 < len (set_bits (Z.land (voter_bitmap qc1) (voter_bitmap qc2))).
Proof.
  intros qc1 qc2.
  assert (verify_qc qc1 toy_committee 7 = true) as V1 by (vm_compute; reflexivity).
  assert (verify_qc qc2 toy_committee 7 = true) as V2 by (vm_compute; reflexivity).
  split; [exact V1|]. split; [exact V2|].
  apply (conflicting_certificates_convict 7 qc1 qc2 toy_members toy_committee alice toy_registry);
    [split; discriminate|reflexivity|exact toy_registered|split; [discriminate|reflexivity]|reflexivity|reflexivity|
     reflexivity|discriminate|split; [discriminate|reflexivity]|split; [discriminate|reflexivity]| |discriminate|
     discriminate|exact V1|exact V2].
  repeat (constructor; [vm_compute; reflexivity|]). constructor.
Defined.

Lemma honest_votes_are_slashable_witness :
  let h1 := fallback_header 5 0 QuorumCert_empty in
  let h2 := fallback_header 5 1 QuorumCert_empty in
  let a := replicate 32 1 in
  exists sg1 sg2,
    let ev := mkEvidence 5 (header_hash h1) sg1 (header_hash h2) sg2 a alice in
    (execute_slash 7 (special_tx Slash (evidence_encode ev)) 50 toy_registry).2 = succeeded 100000 a.
Proof.
  intros h1 h2 a.
  set (vote h st := create_vote 7 h 0 a toy_sign toy_committee st).
  set (sg h := match toy_sign (proposer_sign_message 7 5 (header_hash h)) with Ok sig => sig | Err _ => [] end).
  exists (sg h1), (sg h2).
  assert ((vote h1 ConsensusState_new).2 = Ok (Some (Vote 5 (header_hash h1) 0 a (sg h1)))) as E1 by (vm_compute; reflexivity).
  assert ((vote h2 (vote h1 ConsensusState_new).1).2 = Ok (Some (Vote 5 (header_hash h2) 0 a (sg h2)))) as E2
    by (vm_compute; reflexivity).
  apply (honest_votes_are_slashable 7 0 a alice toy_sign h1 h2 toy_committee ConsensusState_new
           (vote h1 ConsensusState_new).1 (vote h2 (vote h1 ConsensusState_new).1).1 (sg h1) (sg h2) toy_entry toy_registry).
  - transitivity ((vote h1 ConsensusState_new).1, (vote h1 ConsensusState_new).2); [apply surjective_pairing|].
    rewrite E1. reflexivity.
  - transitivity ((vote h2 (vote h1 ConsensusState_new).1).1, (vote h2 (vote h1 ConsensusState_new).1).2);
      [apply surjective_pairing|]. rewrite E2. reflexivity.
  - reflexivity.
  - split; [discriminate|reflexivity].
  - assert (bool_decide (header_hash h1 = header_hash h2) = false) as N by (vm_compute; reflexivity).
    by apply bool_decide_eq_false in N.
  - vm_compute. reflexivity.
  - vm_compute. reflexivity.
  - vm_compute. reflexivity.
  - vm_compute. reflexivity.
  - reflexivity.
  - reflexivity.
  - vm_compute. reflexivity.
  - vm_compute. reflexivity.
  - vm_compute. reflexivity.
  - discriminate.
  - reflexivity.
Defined.
