(* ===== verification/Finality.v ===== *)
(** * Finality

    [consensus/src/finality.rs]: soft finality by a quorum certificate, hard
    finality by a quorum of attestations to the state root, and the tracker that
    turns hard certificates into checkpoints. *)

From stdpp Require Import base numbers list option strings sets.
From Stdlib Require Import ZArith Lia.
From S2P Require Import Prelude Crypto Wire Nonce Account Transaction Chain ViewChange HotStuff Accountability.

#[local] Open Scope Z_scope.

Inductive FinalityLevel : Type := FNone | Soft | Hard.

#[global] Instance FinalityLevel_eq_dec : EqDecision FinalityLevel.
Proof. solve_decision. Defined.

Record HardFinalityCert : Type := mkHardCert {
  hc_slot : Z;
  hc_block_hash : list Z;
  hc_state_root : list Z;
  hc_voter_bitmap : Z;
  hc_signatures : list (list Z)
}.

Record FinalityStatus : Type := mkStatus {
  fs_slot : Z;
  fs_block_hash : list Z;
  level : FinalityLevel;
  fs_qc : option QuorumCert;
  hard_cert : option HardFinalityCert
}.

Definition hc_vote_count (c : HardFinalityCert) : Z := count_ones 128 (hc_voter_bitmap c).
Definition hc_has_quorum (c : HardFinalityCert) : bool := QUORUM_THRESHOLD <=? hc_vote_count c.
Definition hc_has_quorum_for (c : HardFinalityCert) (committee_size : Z) : bool :=
  quorum_for_committee committee_size <=? hc_vote_count c.

Record FinalityVote : Type := mkFinalityVote {
  fv_slot : Z;
  fv_block_hash : list Z;
  fv_state_root : list Z;
  fv_voter_index : Z;
  fv_voter_address : Address;
  fv_signature : list Z
}.

Definition finality_sign_message (chain_id slot : Z) (block_hash state_root : list Z) : list Z :=
  bytes_of_string "hard_finality" ++ le_encode 8 chain_id ++ le_encode 8 slot ++ block_hash ++ state_root.

Definition check_soft_finality (qc : QuorumCert) (committee_size : Z) : bool := has_quorum_for qc committee_size.

Definition soft_finality_status (slot : Z) (block_hash : list Z) (qc : QuorumCert) (committee_size : Z) : FinalityStatus :=
  let level := if check_soft_finality qc committee_size then Soft else FNone in
  mkStatus slot block_hash level (Some qc) None.

Definition create_finality_vote (chain_id slot : Z) (block_hash state_root : list Z) (voter_index : Z)
    (voter_address : Address) (sign : Signer) : Result FinalityVote string :=
  match sign (finality_sign_message chain_id slot block_hash state_root) with
  | Ok sig => Ok (mkFinalityVote slot block_hash state_root voter_index voter_address sig)
  | Err _ => Err "finality vote signing failed"
  end.

Definition verify_finality_vote {P : Primitives} (chain_id : Z) (vote : FinalityVote) (public_key : list Z) : bool :=
  verifies public_key (finality_sign_message chain_id (fv_slot vote) (fv_block_hash vote) (fv_state_root vote))
    (fv_signature vote).

Definition attests (slot : Z) (block_hash state_root : list Z) (vote : FinalityVote) : bool :=
  negb (negb (fv_slot vote =? slot) || negb (bool_decide (fv_block_hash vote = block_hash))) &&
  bool_decide (fv_state_root vote = state_root).

Definition try_form_hard_finality {P : Primitives} (chain_id slot : Z) (block_hash state_root : list Z)
    (votes : list FinalityVote) (committee_keys : list (list Z)) : option HardFinalityCert :=
  let '(voter_bitmap, counted) :=
    tally (attests slot block_hash state_root) fv_voter_index (verify_finality_vote chain_id) committee_keys votes in
  if quorum_for_committee (len committee_keys) <=? len counted then
    Some (mkHardCert slot block_hash state_root voter_bitmap (fv_signature <$> counted))
  else None.

(** ** The tracker *)

Record FinalityCheckpoint : Type := mkCheckpoint {
  cp_slot : Z;
  cp_block_hash : list Z;
  cp_state_root : list Z;
  cp_cert : HardFinalityCert
}.

Record FinalityTracker : Type := mkTracker {
  latest_checkpoint : option FinalityCheckpoint;
  pending : list FinalityStatus;
  highest_soft_slot : Z;
  highest_hard_slot : Z
}.

Definition FinalityTracker_new : FinalityTracker := mkTracker None [] 0 0.

Definition unconfirmed_count (t : FinalityTracker) : Z := saturating_sub (highest_soft_slot t) (highest_hard_slot t).

Definition record_soft_finality (slot : Z) (block_hash : list Z) (qc : QuorumCert) (committee_size : Z)
    (t : FinalityTracker) : FinalityTracker :=
  let status := soft_finality_status slot block_hash qc committee_size in
  if bool_decide (level status = Soft) then
    mkTracker (latest_checkpoint t) (pending t ++ [status])
      (if highest_soft_slot t <? slot then slot else highest_soft_slot t) (highest_hard_slot t)
  else t.

Definition status_of (slot : Z) (block_hash : list Z) (s : FinalityStatus) : bool :=
  (fs_slot s =? slot) && bool_decide (fs_block_hash s = block_hash).

Definition promote (cert : HardFinalityCert) (s : FinalityStatus) : FinalityStatus :=
  if status_of (hc_slot cert) (hc_block_hash cert) s
  then mkStatus (fs_slot s) (fs_block_hash s) Hard (fs_qc s) (Some cert) else s.

Definition record_hard_finality (cert : HardFinalityCert) (t : FinalityTracker) : FinalityTracker :=
  let pending := promote cert <$> pending t in
  let advances := match latest_checkpoint t with Some cp => cp_slot cp <? hc_slot cert | None => true end in
  if negb advances then mkTracker (latest_checkpoint t) pending (highest_soft_slot t) (highest_hard_slot t)
  else
    let checkpoint := mkCheckpoint (hc_slot cert) (hc_block_hash cert) (hc_state_root cert) cert in
    mkTracker (Some checkpoint) (filter (fun s => cp_slot checkpoint < fs_slot s) pending) (highest_soft_slot t)
      (if highest_hard_slot t <? hc_slot cert then hc_slot cert else highest_hard_slot t).

Definition can_reorg (t : FinalityTracker) (slot : Z) : bool :=
  match latest_checkpoint t with Some cp => cp_slot cp <? slot | None => true end.

Definition finality_level (t : FinalityTracker) (slot : Z) (block_hash : list Z) : FinalityLevel :=
  let by_checkpoint :=
    match latest_checkpoint t with
    | Some cp => ((slot =? cp_slot cp) && bool_decide (block_hash = cp_block_hash cp)) || (slot <? cp_slot cp)
    | None => false
    end in
  if by_checkpoint then Hard
  else match filter (fun s => status_of slot block_hash s = true) (pending t) with s :: _ => level s | [] => FNone end.

(** What happens to a tracker; the log has the certificates recorded. *)
Inductive tracked : FinalityTracker -> list HardFinalityCert -> FinalityTracker -> Prop :=
| tracked_start t : tracked t [] t
| tracked_soft t log t' slot h qc n : tracked t log t' -> tracked t log (record_soft_finality slot h qc n t')
| tracked_hard t log t' cert : tracked t log t' -> tracked t (log ++ [cert]) (record_hard_finality cert t').

(** ** Finality is permanent *)

Definition checkpoint_slot (t : FinalityTracker) : Z :=
  match latest_checkpoint t with Some cp => cp_slot cp | None => -1 end.

Record tracker_ok (log : list HardFinalityCert) (t : FinalityTracker) : Prop := {
  to_cert cp : latest_checkpoint t = Some cp -> cp_cert cp ∈ log /\ cp_slot cp = hc_slot (cp_cert cp);
  to_max c : c ∈ log -> hc_slot c <= checkpoint_slot t;
  to_highest : highest_hard_slot t = Z.max 0 (checkpoint_slot t);
  to_hard s : s ∈ pending t -> level s = Hard -> fs_slot s <= checkpoint_slot t;
  to_level s : s ∈ pending t -> level s <> FNone
}.

(** The level of a block that the checkpoint does not decide. *)
Definition pending_level (l : list FinalityStatus) (slot : Z) (h : list Z) : FinalityLevel :=
  match filter (fun s => status_of slot h s = true) l with s :: _ => level s | [] => FNone end.

Lemma status_of_true (slot : Z) (h : list Z) (s : FinalityStatus) :
  status_of slot h s = true <-> fs_slot s = slot /\ fs_block_hash s = h.
Proof. unfold status_of. by rewrite andb_true_iff, Z.eqb_eq, bool_decide_eq_true. Qed.

Lemma promote_slot (c : HardFinalityCert) (s : FinalityStatus) :
  fs_slot (promote c s) = fs_slot s /\ fs_block_hash (promote c s) = fs_block_hash s.
Proof. unfold promote. by destruct (status_of _ _ s). Qed.

Lemma pending_level_cons (s : FinalityStatus) (l : list FinalityStatus) (slot : Z) (h : list Z) :
  pending_level (s :: l) slot h = if status_of slot h s then level s else pending_level l slot h.
Proof.
  unfold pending_level. rewrite filter_cons. destruct (status_of slot h s) eqn:E; [by rewrite decide_True|].
  by rewrite decide_False by congruence.
Qed.

Lemma pending_level_app (l k : list FinalityStatus) (slot : Z) (h : list Z) :
  (forall s, s ∈ l -> level s <> FNone) -> pending_level l slot h <> FNone ->
  pending_level (l ++ k) slot h = pending_level l slot h.
Proof.
  induction l as [|s l IH]; intros F; [done|]. cbn [app]. rewrite !pending_level_cons. destruct (status_of slot h s); [done|].
  apply IH. set_solver.
Qed.

Lemma pending_level_promote (c : HardFinalityCert) (l : list FinalityStatus) (slot : Z) (h : list Z) :
  pending_level l slot h <> FNone -> pending_level (promote c <$> l) slot h = pending_level l slot h \/
  pending_level (promote c <$> l) slot h = Hard.
Proof.
  induction l as [|s l IH]; [done|]. cbn [fmap list_fmap]. rewrite !pending_level_cons.
  assert (status_of slot h (promote c s) = status_of slot h s) as ->.
  { apply eq_true_iff_eq. rewrite !status_of_true. by destruct (promote_slot c s) as [-> ->]. }
  destruct (status_of slot h s); [|done]. intros _. unfold promote. destruct (status_of _ _ s); auto.
Qed.

Lemma pending_level_retain (l : list FinalityStatus) (n slot : Z) (h : list Z) :
  n < slot -> pending_level (filter (fun s => n < fs_slot s) l) slot h = pending_level l slot h.
Proof.
  intros Hn. induction l as [|s l IH]; [done|]. rewrite filter_cons, pending_level_cons. case_decide.
  - by rewrite pending_level_cons, IH.
  - destruct (status_of slot h s) eqn:E; [apply status_of_true in E; lia|done].
Qed.

Lemma pending_level_elem (l : list FinalityStatus) (slot : Z) (h : list Z) :
  pending_level l slot h <> FNone -> exists s, s ∈ l /\ fs_slot s = slot /\ level s = pending_level l slot h.
Proof.
  induction l as [|s l IH]; [done|]. rewrite pending_level_cons. destruct (status_of slot h s) eqn:E; intros H.
  - apply status_of_true in E as []. exists s. set_solver.
  - destruct (IH H) as (s' & ? & ? & ?). exists s'. set_solver.
Qed.

Lemma finality_level_eq (t : FinalityTracker) (slot : Z) (h : list Z) :
  finality_level t slot h =
  match latest_checkpoint t with
  | Some cp => if decide ((slot = cp_slot cp /\ h = cp_block_hash cp) \/ slot < cp_slot cp) then Hard
               else pending_level (pending t) slot h
  | None => pending_level (pending t) slot h
  end.
Proof.
  unfold finality_level. fold (pending_level (pending t) slot h). destruct (latest_checkpoint t) as [cp|]; [|done].
  destruct (Z.eqb_spec slot (cp_slot cp)), (Z.ltb_spec slot (cp_slot cp)); case_bool_decide; case_decide; cbn [andb orb];
    naive_solver lia.
Qed.

Lemma record_soft_ok (log : list HardFinalityCert) (t : FinalityTracker) (slot : Z) (h : list Z) (qc : QuorumCert) (n : Z) :
  tracker_ok log t -> tracker_ok log (record_soft_finality slot h qc n t).
Proof.
  intros []. unfold record_soft_finality. case_bool_decide as E; [|by split].
  split; try done; cbn; intros s [?| ->%list_elem_of_singleton]%elem_of_app; auto; unfold soft_finality_status in *;
    cbn in *; congruence.
Qed.

Lemma record_hard_ok (log : list HardFinalityCert) (t : FinalityTracker) (c : HardFinalityCert) :
  0 <= hc_slot c -> tracker_ok log t -> tracker_ok (log ++ [c]) (record_hard_finality c t).
Proof.
  intros Hc [C M H D L]. unfold record_hard_finality.
  assert (forall s, s ∈ promote c <$> pending t ->
    level s <> FNone /\ (level s = Hard -> fs_slot s <= Z.max (hc_slot c) (checkpoint_slot t))) as Pr.
  { intros s (s' & -> & Hs')%list_elem_of_fmap. unfold promote. destruct (status_of _ _ s') eqn:E; cbn.
    - apply status_of_true in E as [? _]. split; [done|lia].
    - split; [by apply L|]. intros Hl. specialize (D s' Hs' Hl). lia. }
  assert (0 <= Z.max (hc_slot c) (checkpoint_slot t)) by lia.
  destruct (latest_checkpoint t) as [cp|] eqn:E.
  - assert (checkpoint_slot t = cp_slot cp) as Ec by (unfold checkpoint_slot; by rewrite E).
    destruct (Z.ltb_spec (cp_slot cp) (hc_slot c)) as [A|A]; cbn [negb]; split; cbn.
    + intros cp' [= <-]. cbn. set_solver.
    + intros c' [Hc'| ->%list_elem_of_singleton]%elem_of_app; [specialize (M c' Hc')|]; cbn; lia.
    + cbn. destruct (Z.ltb_spec (highest_hard_slot t) (hc_slot c)); lia.
    + intros s [? Hs]%list_elem_of_filter ?. destruct (Pr s Hs) as [_ F]. cbn. specialize (F ltac:(done)). lia.
    + intros s [? Hs]%list_elem_of_filter. by destruct (Pr s Hs).
    + intros cp' [= <-]. destruct (C cp eq_refl). set_solver.
    + intros c' [Hc'| ->%list_elem_of_singleton]%elem_of_app; [specialize (M c' Hc')|]; cbn; lia.
    + cbn. lia.
    + intros s Hs ?. destruct (Pr s Hs) as [_ F]. cbn. specialize (F ltac:(done)). lia.
    + intros s Hs. by destruct (Pr s Hs).
  - cbn [negb]. assert (checkpoint_slot t = -1) as Ec by (unfold checkpoint_slot; by rewrite E). split; cbn.
    + intros cp' [= <-]. cbn. set_solver.
    + intros c' [Hc'| ->%list_elem_of_singleton]%elem_of_app; [specialize (M c' Hc')|]; cbn; lia.
    + cbn. destruct (Z.ltb_spec (highest_hard_slot t) (hc_slot c)); lia.
    + intros s [? Hs]%list_elem_of_filter ?. destruct (Pr s Hs) as [_ F]. cbn. specialize (F ltac:(done)). lia.
    + intros s [? Hs]%list_elem_of_filter. by destruct (Pr s Hs).
Qed.

Lemma record_soft_level (log : list HardFinalityCert) (t : FinalityTracker) (slot' : Z) (h' : list Z) (qc : QuorumCert)
    (n slot : Z) (h : list Z) :
  tracker_ok log t -> finality_level t slot h <> FNone ->
  finality_level (record_soft_finality slot' h' qc n t) slot h = finality_level t slot h.
Proof.
  intros [] H. unfold record_soft_finality. case_bool_decide; [|done]. rewrite finality_level_eq in H |- *.
  rewrite finality_level_eq. cbn [latest_checkpoint pending].
  destruct (latest_checkpoint t) as [cp|]; [case_decide; [done|]|]; by apply pending_level_app.
Qed.

(** After a checkpoint that advances, later blocks keep their level or become hard. *)
Lemma retain_promote_level (c : HardFinalityCert) (l : list FinalityStatus) (slot : Z) (h : list Z) :
  pending_level l slot h <> FNone -> hc_slot c < slot ->
  let l' := filter (fun s => hc_slot c < fs_slot s) (promote c <$> l) in
  pending_level l' slot h = pending_level l slot h \/ pending_level l' slot h = Hard.
Proof. intros H L. cbv zeta. rewrite pending_level_retain by done. by apply pending_level_promote. Qed.

Lemma record_hard_level (log : list HardFinalityCert) (t : FinalityTracker) (c : HardFinalityCert) (slot : Z) (h : list Z) :
  0 <= hc_slot c -> tracker_ok log t -> finality_level t slot h <> FNone ->
  (finality_level t slot h = Hard \/ (hc_slot c = slot -> hc_block_hash c = h)) ->
  finality_level (record_hard_finality c t) slot h = finality_level t slot h \/
  finality_level (record_hard_finality c t) slot h = Hard.
Proof.
  intros Hc T H Hh. rewrite !finality_level_eq. rewrite finality_level_eq in H, Hh. unfold record_hard_finality.
  destruct (latest_checkpoint t) as [cp|] eqn:E.
  - destruct (Z.ltb_spec (cp_slot cp) (hc_slot c)); cbn [negb latest_checkpoint pending cp_slot cp_block_hash].
    + case_decide as D; case_decide as D'; try (by right); [lia|]. apply retain_promote_level; [done|].
      destruct Hh as [Hh|Hh]; [|destruct (Z.eq_dec (hc_slot c) slot); [naive_solver|lia]].
      destruct (pending_level_elem (pending t) slot h H) as (s & Hs & <- & Hl). rewrite Hh in Hl.
      pose proof (to_hard _ _ T s Hs Hl) as B. unfold checkpoint_slot in B. rewrite E in B. lia.
    + case_decide; [by right|]. by apply pending_level_promote.
  - cbn [negb latest_checkpoint pending cp_slot cp_block_hash]. case_decide as D'; [by right|].
    apply retain_promote_level; [done|].
    destruct Hh as [Hh|Hh]; [|destruct (Z.eq_dec (hc_slot c) slot); [naive_solver|lia]].
    destruct (pending_level_elem (pending t) slot h H) as (s & Hs & <- & Hl). rewrite Hh in Hl.
    pose proof (to_hard _ _ T s Hs Hl) as B. unfold checkpoint_slot in B. rewrite E in B. lia.
Qed.

(** The tracker as it goes on from a state that it reached. *)
Record permanent (log : list HardFinalityCert) (t t' : FinalityTracker) : Prop := {
  pm_reorg slot : can_reorg t slot = false -> can_reorg t' slot = false;
  pm_hard slot h : finality_level t slot h = Hard -> finality_level t' slot h = Hard;
  pm_soft slot h : finality_level t slot h = Soft ->
    finality_level t' slot h <> FNone \/ exists c, c ∈ log /\ hc_slot c = slot /\ hc_block_hash c <> h
}.

Lemma tracked_permanent (log0 log : list HardFinalityCert) (t t' : FinalityTracker) :
  Forall (fun c => 0 <= hc_slot c) log -> tracker_ok log0 t -> tracked t log t' ->
  tracker_ok (log0 ++ log) t' /\ permanent log t t'.
Proof.
  intros F T R. induction R as [t|t log t' slot' h' qc n R IH|t log t' c R IH].
  - rewrite app_nil_r. split; [done|]. split; [done|done|]. intros slot h E. left. by rewrite E.
  - destruct (IH F T) as [T' [Pr Ph Ps]]. split; [by apply record_soft_ok|]. split.
    + intros slot Hs%Pr. unfold record_soft_finality. by case_bool_decide.
    + intros slot h Hs%Ph. rewrite (record_soft_level _ _ _ _ _ _ _ _ T'); [done|]. by rewrite Hs.
    + intros slot h [Hs|?]%Ps; [left|by right]. by rewrite (record_soft_level _ _ _ _ _ _ _ _ T').
  - rewrite Forall_app, Forall_singleton in F. destruct F as [F Fc]. destruct (IH F T) as [T' [Pr Ph Ps]].
    rewrite app_assoc. split; [apply record_hard_ok; [exact Fc|exact T']|]. split.
    + intros slot Hs%Pr. unfold can_reorg in *. unfold record_hard_finality. destruct (latest_checkpoint t') as [cp|]; [|done].
      apply Z.ltb_ge in Hs. destruct (Z.ltb_spec (cp_slot cp) (hc_slot c)); cbn; apply Z.ltb_ge; lia.
    + intros slot h Hs%Ph. destruct (record_hard_level _ _ c slot h Fc T') as [E|E]; [by rewrite Hs|by left|congruence|done].
    + intros slot h [Hs|(c' & ? & ?)]%Ps; [|right; exists c'; set_solver].
      destruct (decide (hc_slot c = slot /\ hc_block_hash c <> h)); [right; exists c; set_solver|left].
      destruct (record_hard_level _ _ c slot h Fc T' Hs) as [E|E]; [|by rewrite E..].
      right. intros Ec. apply dec_stable. tauto.
Qed.

Lemma tracker_new_ok : tracker_ok [] FinalityTracker_new.
Proof. split; cbn; set_solver. Qed.

(** [C33] Finality is permanent.  For a tracker reached from the empty one by any
    sequence of soft and hard finality records, however the certificates are
    ordered: the checkpoint is one of the recorded certificates and none has a
    higher slot; no recorded slot can be reorganised; and whatever is recorded
    afterwards, a slot that cannot be reorganised stays so, a block that is hard
    final stays hard final, and one that is soft final stays at least soft final
    unless a certificate for a different block of its slot is recorded. *)
Theorem finality_is_permanent (log log' : list HardFinalityCert) (t t' : FinalityTracker) :
  Forall (fun c => 0 <= hc_slot c) (log ++ log') ->
  tracked FinalityTracker_new log t -> tracked t log' t' ->
  (forall cp, latest_checkpoint t = Some cp -> cp_cert cp ∈ log /\ cp_slot cp = hc_slot (cp_cert cp) /\
     highest_hard_slot t = cp_slot cp /\ forall c, c ∈ log -> hc_slot c <= cp_slot cp) /\
  (forall c, c ∈ log -> can_reorg t (hc_slot c) = false) /\
  permanent log' t t'.
Proof.
  intros FF R R'. apply Forall_app in FF as [F F'].
  destruct (tracked_permanent [] log _ t F tracker_new_ok R) as [T _]. cbn [app] in T.
  destruct (tracked_permanent log log' t t' F' T R') as [_ Pm].
  pose proof (to_max _ _ T) as M. pose proof (to_highest _ _ T) as H. pose proof (to_cert _ _ T) as C.
  split; [|split; [|done]].
  - intros cp E. destruct (C cp E) as [Hc Es]. unfold checkpoint_slot in M, H. rewrite E in M, H. split_and!; try done.
    rewrite Forall_forall in F. specialize (F _ Hc). lia.
  - intros c Hc. specialize (M c Hc). unfold checkpoint_slot in M. unfold can_reorg.
    destruct (latest_checkpoint t) as [cp|]; [by apply Z.ltb_ge|]. rewrite Forall_forall in F. specialize (F _ Hc). lia.
Qed.

(** ** Hard certificates *)

Section HardCertificates.
Context {P : Primitives}.

(** A hard-finality certificate is formed exactly when a quorum attests to
    the state root, and two of them cannot disagree unnoticed.  With a committee
    of at most 128, [try_form_hard_finality] gives a certificate if and only if
    the members with a verified attestation to this slot, block and state root
    are a quorum, and its bits are exactly those members; and when certificates
    are formed for two pairs of block and state root, from any two collections
    of votes and for any two slots, more than [(n - 1) / 3] members have a
    verified attestation to both. *)
Theorem hard_finality_exact (chain_id slot : Z) (h root : list Z) (votes : list FinalityVote) (keys : list (list Z)) :
  len keys <= 128 -> (forall v, v ∈ votes -> 0 <= fv_voter_index v) ->
  let members slot h root votes :=
    voters (attests slot h root) fv_voter_index (verify_finality_vote chain_id) keys votes in
  match try_form_hard_finality chain_id slot h root votes keys with
  | None => len (members slot h root votes) < quorum_for_committee (len keys)
  | Some c =>
      hc_slot c = slot /\ hc_block_hash c = h /\ hc_state_root c = root /\
      hc_has_quorum_for c (len keys) = true /\ len (hc_signatures c) = hc_vote_count c /\
      (forall i : nat, Z.testbit (hc_voter_bitmap c) (Z.of_nat i) = true <-> i ∈ members slot h root votes) /\
      forall slot' h' root' votes' c', keys <> [] -> (forall v, v ∈ votes' -> 0 <= fv_voter_index v) ->
        try_form_hard_finality chain_id slot' h' root' votes' keys = Some c' ->
        let both := set_bits (Z.land (hc_voter_bitmap c) (hc_voter_bitmap c')) in
        (len keys - 1) / 3 < len both /\
        forall i, i ∈ both -> i ∈ members slot h root votes /\ i ∈ members slot' h' root' votes'
  end.
Proof.
  intros Hn H0 members.
  assert (forall slot h root votes, (forall v, v ∈ votes -> 0 <= fv_voter_index v) ->
    match try_form_hard_finality chain_id slot h root votes keys with
    | None => len (members slot h root votes) < quorum_for_committee (len keys)
    | Some c => hc_slot c = slot /\ hc_block_hash c = h /\ hc_state_root c = root /\
        quorum_for_committee (len keys) <= hc_vote_count c /\ len (hc_signatures c) = hc_vote_count c /\
        in_range (len keys) (hc_voter_bitmap c) /\
        forall i : nat, Z.testbit (hc_voter_bitmap c) (Z.of_nat i) = true <-> i ∈ members slot h root votes
    end) as Core.
  { clear slot h root votes H0. intros slot h root votes H0. unfold try_form_hard_finality.
    pose proof (tally_spec (attests slot h root) fv_voter_index (verify_finality_vote chain_id) keys Hn votes H0) as T.
    destruct (tally _ _ _ _ votes) as [bm c]. cbn [fst snd] in T.
    pose proof (tally_voters _ _ _ _ _ _ _ T H0) as Ev. fold (members slot h root votes) in Ev.
    pose proof (tally_count _ _ _ _ Hn _ _ _ T H0) as Ec.
    destruct (Z.leb_spec (quorum_for_committee (len keys)) (len c)) as [Q|Q]; [|lia]. unfold hc_vote_count.
    cbn [hc_slot hc_block_hash hc_state_root hc_voter_bitmap hc_signatures]. split_and!; try done.
    - lia.
    - rewrite <- Ec. unfold len. by rewrite length_fmap.
    - apply T.
    - intros i. rewrite (tallied_bits _ _ _ _ _ _ _ _ T) by lia. unfold members. by rewrite voters_elem. }
  pose proof (Core slot h root votes H0) as C. destruct (try_form_hard_finality chain_id slot h root votes keys) as [c|]; [|done].
  destruct C as (? & ? & ? & Q & ? & R & B). split_and!; try done; [by apply Z.leb_le|].
  intros slot' h' root' votes' c' Hk H0' E. pose proof (Core slot' h' root' votes' H0') as C'. rewrite E in C'.
  destruct C' as (_ & _ & _ & Q' & _ & R' & B'). intros both. split.
  - apply quorum_overlap; try done. destruct keys; [done|]. unfold len. cbn. lia.
  - intros i [[X _]%list_elem_of_filter [Y _]%list_elem_of_filter]%set_bits_land. by rewrite <- B, <- B'.
Qed.
End HardCertificates.

(** ** Witnesses and findings *)

Definition toy_attestation (slot : Z) (h root : list Z) (i : Z) : FinalityVote :=
  mkFinalityVote slot h root i ZERO_ADDRESS
    (match toy_sign (finality_sign_message 7 slot h root) with Ok sig => sig | Err _ => [] end).

Lemma hard_finality_exact_witness :
  let votes := toy_attestation 5 H256_zero (replicate 32 9) <$> [3; 0; 3; 1] in
  exists c, try_form_hard_finality 7 5 H256_zero (replicate 32 9) votes toy_committee = Some c /\
    hc_has_quorum_for c 4 = true /\ len (hc_signatures c) = hc_vote_count c.
Proof.
  intros votes.
  assert (len toy_committee <= 128) as Hn by discriminate.
  assert (forall v, v ∈ votes -> 0 <= fv_voter_index v) as H0.
  { apply Forall_forall. repeat (constructor; [discriminate|]). constructor. }
  pose proof (hard_finality_exact 7 5 H256_zero (replicate 32 9) votes toy_committee Hn H0) as T. cbv beta zeta in T.
  assert (voters (attests 5 H256_zero (replicate 32 9)) fv_voter_index (verify_finality_vote 7) toy_committee votes = [0; 1; 3]%nat)
    as Ev by (vm_compute; reflexivity).
  rewrite Ev in T. destruct (try_form_hard_finality 7 5 _ _ votes toy_committee) as [c|]; [|discriminate T].
  destruct T as (_ & _ & _ & Q & L & _). exists c. split; [reflexivity|]. split; [exact Q|exact L].
Defined.

Definition toy_hard (slot x : Z) : HardFinalityCert := mkHardCert slot (replicate 32 x) H256_zero 7 [].

Lemma finality_is_permanent_witness :
  let qc := mkQC 5 (replicate 32 1) 7 [] in
  let t := record_soft_finality 6 (replicate 32 2) qc 4
             (record_hard_finality (toy_hard 3 0) (record_hard_finality (toy_hard 5 1) FinalityTracker_new)) in
  let t' := record_hard_finality (toy_hard 9 4) t in
  can_reorg t 5 = false /\ finality_level t 6 (replicate 32 2) = Soft /\ finality_level t' 6 (replicate 32 2) <> FNone.
Proof.
  intros qc t t'.
  destruct (finality_is_permanent [toy_hard 5 1; toy_hard 3 0] [toy_hard 9 4] t t') as (_ & R & Pm).
  - repeat (constructor; [discriminate|]). constructor.
  - apply tracked_soft, (tracked_hard _ [toy_hard 5 1]), (tracked_hard _ []), tracked_start.
  - apply (tracked_hard _ []), tracked_start.
  - split; [apply (R (toy_hard 5 1)); left|]. split; [reflexivity|].
    destruct (pm_soft _ _ _ Pm 6 (replicate 32 2) eq_refl) as [H|(c & Hc & Es & _)]; [exact H|].
    apply list_elem_of_singleton in Hc. subst c. discriminate Es.
Defined.

(** Finding: a block that lost its slot is reported as hard final.  The
    query compares the hash only at the slot of the checkpoint; for every
    earlier slot it answers [Hard] whatever the hash, so once a checkpoint is at
    slot 9 a block that nobody ever voted for is hard final at slot 5, next to
    the one that was finalised there. *)
Theorem lost_block_is_hard_final (h : list Z) :
  let t := record_hard_finality (toy_hard 9 4) (record_hard_finality (toy_hard 5 1) FinalityTracker_new) in
  finality_level t 5 h = Hard.
Proof. done. Qed.
