(* ===== verification/Validators.v ===== *)
(** * The validator set

    [consensus/src/validator.rs] and [consensus/src/slashing.rs]: registration,
    unbonding, the choice of a committee, and what offences cost. *)

From stdpp Require Import base numbers list option strings sets sorting relations.
From Stdlib Require Import ZArith Lia.
From S2P Require Import Prelude Crypto Wire Keys Nonce Account State Transaction Execution Store Handlers HandlerProps Chain ViewChange HotStuff Accountability.

#[local] Open Scope Z_scope.

(** ** [validator.rs] *)

Definition UNBONDING_PERIOD : Z := 3024000.

Inductive ValidatorStatus : Type := Active | Unbonding (exit_block : Z) | Exited.

#[global] Instance ValidatorStatus_eq_dec : EqDecision ValidatorStatus.
Proof. solve_decision. Defined.

Record Validator : Type := mkV {
  v_address : Address;
  v_public_key : list Z;
  v_stake : Z;
  v_status : ValidatorStatus;
  registered_epoch : Z;
  v_kem_pk : option (list Z)
}.

Definition with_status (st : ValidatorStatus) (v : Validator) : Validator :=
  mkV (v_address v) (v_public_key v) (v_stake v) st (registered_epoch v) (v_kem_pk v).
Definition with_stake (x : Z) (v : Validator) : Validator :=
  mkV (v_address v) (v_public_key v) x (v_status v) (registered_epoch v) (v_kem_pk v).

Record Committee : Type := mkCommittee {
  committee_epoch : Z;
  members : list Validator;
  threshold_public_key : list Z
}.

Definition committee_size (c : Committee) : Z := len (members c).
Definition committee_contains (c : Committee) (a : Address) : bool := existsb (fun v => bool_decide (v_address v = a)) (members c).
Definition committee_member (c : Committee) (i : nat) : option Validator := members c !! i.

Abbreviation ValidatorSet := (list Validator).

Inductive ValidatorError : Type :=
| InsufficientStake (required provided : Z)
| AlreadyRegistered (a : Address)
| NotFound (a : Address)
| AlreadyUnbonding (a : Address)
| NotEnoughValidators (needed available : Z).

Definition active_at (a : Address) (v : Validator) : bool :=
  bool_decide (v_address v = a) && bool_decide (v_status v = Active).

Definition register (address : Address) (public_key : list Z) (stake current_epoch : Z) :
    ST ValidatorSet ValidatorError unit := fun vs =>
  if stake <? VALIDATOR_STAKE then (vs, Err (InsufficientStake VALIDATOR_STAKE stake))
  else if existsb (active_at address) vs then (vs, Err (AlreadyRegistered address))
  else (vs ++ [mkV address public_key VALIDATOR_STAKE Active current_epoch None], Ok tt).

(** Changes the first validator that satisfies [p], as [iter_mut().find(p)] gives
    access to it. *)
Fixpoint modify_first (p : Validator -> bool) (f : Validator -> Validator) (vs : ValidatorSet) : option ValidatorSet :=
  match vs with
  | [] => None
  | v :: rest => if p v then Some (f v :: rest) else cons v <$> modify_first p f rest
  end.

(** The check for [AlreadyUnbonding] comes after the search for an active
    entry, so it is never true. *)
Definition deregister (address : Address) (current_block : Z) : ST ValidatorSet ValidatorError unit := fun vs =>
  match modify_first (active_at address) (with_status (Unbonding current_block)) vs with
  | None => (vs, Err (NotFound address))
  | Some vs' => (vs', Ok tt)
  end.

Definition release (current_block : Z) (v : Validator) : Validator :=
  match v_status v with
  | Unbonding exit_block =>
      if wrap u64 (exit_block + UNBONDING_PERIOD) <=? current_block then with_status Exited v else v
  | _ => v
  end.

Definition process_unbonding (current_block : Z) (vs : ValidatorSet) : ValidatorSet := release current_block <$> vs.

Definition eligible (v : Validator) : bool := bool_decide (v_status v = Active) && (VALIDATOR_STAKE <=? v_stake v).

Definition active_validators (vs : ValidatorSet) : list Validator := filter (fun v => eligible v = true) vs.

Definition underfunded_validators (vs : ValidatorSet) : list Validator :=
  filter (fun v => bool_decide (v_status v = Active) && (v_stake v <? VALIDATOR_STAKE) = true) vs.

Definition top_up_stake (address : Address) (amount : Z) : ST ValidatorSet ValidatorError unit := fun vs =>
  match modify_first (fun v => bool_decide (v_address v = address))
          (fun v => with_stake (wrap u128 (v_stake v + amount)) v) vs with
  | None => (vs, Err (NotFound address))
  | Some vs' => (vs', Ok tt)
  end.

Definition total_count (vs : ValidatorSet) : Z := len vs.
Definition active_count (vs : ValidatorSet) : Z := len (active_validators vs).

Section Selection.
Context {P : Primitives}.

Definition selection_score (randomness : list Z) (epoch : Z) (v : Validator) : Z :=
  le_decode (take 8 (poseidon2_hash (randomness ++ le_encode 8 epoch ++ v_address v))).

Definition select_committee (epoch : Z) (randomness threshold_public_key : list Z) (vs : ValidatorSet) :
    Result Committee ValidatorError :=
  let eligible := active_validators vs in
  if len eligible =? 0 then Err (NotEnoughValidators 1 0)
  else
    let scored := sort_by_key fst ((fun v => (selection_score randomness epoch v, v)) <$> eligible) in
    let take_count := Z.min (len scored) COMMITTEE_SIZE in
    Ok (mkCommittee epoch (snd <$> take (Z.to_nat take_count) scored) threshold_public_key).
End Selection.

(** ** [slashing.rs] *)

Definition LIVENESS_SLASH_MINOR : Z := 1.
Definition LIVENESS_SLASH_MAJOR : Z := 5.
Definition LIVENESS_SLASH_ABSENT : Z := 10.
Definition INVALID_PROPOSAL_SLASH : Z := 50.
Definition DECRYPTION_WITHHOLD_SLASH : Z := 2.

Inductive SlashingOffense : Type :=
| DoubleSigning | Equivocation | LivenessMinor | LivenessMajor | LivenessAbsent | InvalidProposal | DecryptionWithholding.

Record SlashResult : Type := mkSlash {
  offender : Address;
  amount_burned : Z;
  finder_fee : Z;
  sl_ejected : bool;
  forced_unbonding : bool;
  offense : SlashingOffense
}.

(** [DoubleSignEvidence] has the fields of the slash handler's evidence. *)
Definition DoubleSignEvidence : Type := SlashEvidence.

Record DoubleViewChangeEvidence : Type := mkDoubleVC {
  dv_slot : Z;
  qc_hash_1 : list Z;
  dv_signature_1 : list Z;
  qc_hash_2 : list Z;
  dv_signature_2 : list Z;
  dv_signer : Address;
  dv_submitter : Address
}.

Record LivenessReport : Type := mkReport {
  lr_validator : Address;
  slots_participated : Z;
  total_slots : Z;
  current_stake : Z
}.

Definition participation_percent (r : LivenessReport) : Z :=
  if total_slots r =? 0 then 100 else wrap u64 (slots_participated r * 100) / total_slots r.

Section Evidence.
Context {P : Primitives}.

Definition verify_double_sign (chain_id : Z) (evidence : DoubleSignEvidence) (public_key : list Z) : bool :=
  if bool_decide (block_hash_1 evidence = block_hash_2 evidence) then false
  else
    match FalconPublicKey_from_bytes public_key, FalconSignature_from_bytes (signature_1 evidence),
          FalconSignature_from_bytes (signature_2 evidence) with
    | Some pk, Some sig_1, Some sig_2 =>
        let msg_1 := proposer_sign_message chain_id (ev_slot evidence) (block_hash_1 evidence) in
        let msg_2 := proposer_sign_message chain_id (ev_slot evidence) (block_hash_2 evidence) in
        falcon_verify pk msg_1 sig_1 && falcon_verify pk msg_2 sig_2
    | _, _, _ => false
    end.

Definition verify_double_view_change (chain_id : Z) (evidence : DoubleViewChangeEvidence) (public_key : list Z) : bool :=
  if bool_decide (qc_hash_1 evidence = qc_hash_2 evidence) then false
  else
    match FalconPublicKey_from_bytes public_key, FalconSignature_from_bytes (dv_signature_1 evidence),
          FalconSignature_from_bytes (dv_signature_2 evidence) with
    | Some pk, Some sig_1, Some sig_2 =>
        let msg_1 := view_change_sign_message_from_hash chain_id (dv_slot evidence) (qc_hash_1 evidence) in
        let msg_2 := view_change_sign_message_from_hash chain_id (dv_slot evidence) (qc_hash_2 evidence) in
        falcon_verify pk msg_1 sig_1 && falcon_verify pk msg_2 sig_2
    | _, _, _ => false
    end.

Definition slash_percent (o : SlashingOffense) : Z :=
  match o with
  | DoubleSigning => 100
  | Equivocation => 100
  | LivenessMinor => LIVENESS_SLASH_MINOR
  | LivenessMajor => LIVENESS_SLASH_MAJOR
  | LivenessAbsent => LIVENESS_SLASH_ABSENT
  | InvalidProposal => INVALID_PROPOSAL_SLASH
  | DecryptionWithholding => DECRYPTION_WITHHOLD_SLASH
  end.

Definition compute_slash (stake : Z) (o : SlashingOffense) : Z * Z :=
  let slash_amount := wrap u128 (stake * slash_percent o) / 100 in
  let finder_fee := wrap u128 (slash_amount * FINDER_FEE_PERCENT) / 100 in
  let burned := wrap u128 (slash_amount - finder_fee) in
  (burned, finder_fee).

Definition slash_double_sign (chain_id : Z) (evidence : DoubleSignEvidence) (public_key : list Z) (current_stake : Z) :
    option SlashResult :=
  if negb (verify_double_sign chain_id evidence public_key) then None
  else
    let '(burned, finder_fee) := compute_slash current_stake DoubleSigning in
    Some (mkSlash (signer evidence) burned finder_fee true true DoubleSigning).

Definition slash_double_view_change (chain_id : Z) (evidence : DoubleViewChangeEvidence) (public_key : list Z)
    (current_stake : Z) : option SlashResult :=
  if negb (verify_double_view_change chain_id evidence public_key) then None
  else
    let '(burned, finder_fee) := compute_slash current_stake Equivocation in
    Some (mkSlash (dv_signer evidence) burned finder_fee true true Equivocation).

Definition liveness_offense (pct : Z) : option SlashingOffense :=
  if pct =? 0 then Some LivenessAbsent
  else if pct <? 50 then Some LivenessMajor
  else if pct <? 90 then Some LivenessMinor
  else None.

Definition slash_liveness (report : LivenessReport) : option SlashResult :=
  match liveness_offense (participation_percent report) with
  | None => None
  | Some offense =>
      let '(burned, finder_fee) := compute_slash (current_stake report) offense in
      let ejected := match offense with LivenessMajor | LivenessAbsent => true | _ => false end in
      let forced_unbonding := match offense with LivenessAbsent => true | _ => false end in
      Some (mkSlash (lr_validator report) burned finder_fee ejected forced_unbonding offense)
  end.

(** What a slash does to the validator it finds. *)
Definition slash_validator (result : SlashResult) (current_block : Z) (v : Validator) : Validator :=
  let total_slash := wrap u128 (amount_burned result + finder_fee result) in
  let v := with_stake (if total_slash <=? v_stake v then v_stake v - total_slash else 0) v in
  if forced_unbonding result then with_status (Unbonding current_block) v
  else if sl_ejected result then with_status Exited v
  else v.

Definition apply_slash (result : SlashResult) (current_block : Z) (vs : ValidatorSet) : ValidatorSet * bool :=
  match modify_first (fun v => bool_decide (v_address v = offender result)) (slash_validator result current_block) vs with
  | None => (vs, false)
  | Some vs' => (vs', true)
  end.
End Evidence.

(** ** Histories of a validator set *)

Inductive set_step : ValidatorSet -> ValidatorSet -> Prop :=
| step_register vs a pk stake epoch : set_step vs (register a pk stake epoch vs).1
| step_deregister vs a block : set_step vs (deregister a block vs).1
| step_unbond vs block : set_step vs (process_unbonding block vs)
| step_top_up vs a x : set_step vs (top_up_stake a x vs).1
| step_slash vs r block : set_step vs (apply_slash r block vs).1.

(** ** One active entry per address *)

Definition is_active (v : Validator) : bool := bool_decide (v_status v = Active).

Definition active_addresses (vs : ValidatorSet) : list Address :=
  v_address <$> filter (fun v => is_active v = true) vs.

Lemma filter_cons_if {A : Type} (p : A -> bool) (x : A) (l : list A) :
  filter (fun y => p y = true) (x :: l) = (if p x then [x] else []) ++ filter (fun y => p y = true) l.
Proof. rewrite filter_cons. by destruct (p x). Qed.

Lemma modify_first_spec (p : Validator -> bool) (f : Validator -> Validator) (vs vs' : ValidatorSet) :
  modify_first p f vs = Some vs' ->
  exists l v k, vs = l ++ v :: k /\ vs' = l ++ f v :: k /\ p v = true /\ Forall (fun u => p u = false) l.
Proof.
  revert vs'. induction vs as [|v vs IH]; intros vs'; [done|]. cbn. destruct (p v) eqn:E.
  - intros [= <-]. exists [], v, vs. split_and!; auto.
  - destruct (modify_first p f vs) as [w|]; [|done]. intros [= <-]. destruct (IH w eq_refl) as (l & u & k & -> & -> & ? & ?).
    exists (v :: l), u, k. split_and!; auto.
Qed.

Lemma modify_first_none (p : Validator -> bool) (f : Validator -> Validator) (vs : ValidatorSet) :
  modify_first p f vs = None <-> Forall (fun u => p u = false) vs.
Proof.
  induction vs as [|v vs IH]; cbn; [done|]. rewrite Forall_cons, <- IH. destruct (p v); [by split; [|intros []]|].
  destruct (modify_first p f vs); naive_solver.
Qed.

(** Changes that keep the address and make nobody active only shrink the active
    addresses. *)
Definition deactivates (f : Validator -> Validator) : Prop :=
  forall v, v_address (f v) = v_address v /\ (is_active (f v) = true -> is_active v = true).

Lemma deactivates_sublist (f : Validator -> Validator) (l : list Validator) (v : Validator) (k : list Validator) :
  deactivates f -> active_addresses (l ++ f v :: k) `sublist_of` active_addresses (l ++ v :: k).
Proof.
  intros D. unfold active_addresses. rewrite !filter_app, !fmap_app, !filter_cons_if, !fmap_app.
  apply sublist_app; [done|]. apply sublist_app; [|done]. destruct (D v) as [E I].
  destruct (is_active (f v)); [|apply sublist_nil_l]. rewrite I by done. cbn. by rewrite E.
Qed.

Lemma release_deactivates (block : Z) : deactivates (release block).
Proof. intros v. unfold release, is_active. destruct (v_status v) eqn:E; [by rewrite E|destruct (_ <=? _)|by rewrite E]; by rewrite ?E. Qed.

Lemma slash_deactivates (r : SlashResult) (block : Z) : deactivates (slash_validator r block).
Proof. intros v. unfold slash_validator, is_active. by destruct (forced_unbonding r), (sl_ejected r). Qed.

Lemma unbond_sublist (block : Z) (vs : ValidatorSet) :
  active_addresses (process_unbonding block vs) `sublist_of` active_addresses vs.
Proof.
  induction vs as [|v vs IH]; [done|]. unfold process_unbonding. cbn [fmap list_fmap].
  transitivity (active_addresses (v :: process_unbonding block vs)).
  - apply (deactivates_sublist (release block) []), release_deactivates.
  - unfold active_addresses in *. rewrite !filter_cons_if, !fmap_app. by apply sublist_app.
Qed.

Lemma step_active (vs vs' : ValidatorSet) :
  set_step vs vs' -> NoDup (active_addresses vs) -> NoDup (active_addresses vs').
Proof.
  destruct 1 as [vs a pk stake epoch|vs a block|vs block|vs a x|vs r block]; intros N.
  - unfold register. destruct (stake <? _); [done|]. destruct (existsb _ vs) eqn:E; [done|]. cbn [fst].
    unfold active_addresses. rewrite filter_app, fmap_app. apply NoDup_app. split; [done|]. cbn. split; [|apply NoDup_singleton].
    intros b (v & -> & [Ha Hv]%list_elem_of_filter)%list_elem_of_fmap Hb%list_elem_of_singleton.
    apply not_true_iff_false in E. apply E, existsb_exists. exists v. split; [by apply list_elem_of_In|].
    unfold active_at. rewrite bool_decide_eq_true_2 by done. exact Ha.
  - unfold deregister. destruct (modify_first _ _ vs) as [w|] eqn:E; [|done].
    apply modify_first_spec in E as (l & v & k & -> & -> & _). eapply sublist_NoDup; [exact N|]. by apply deactivates_sublist.
  - eapply sublist_NoDup; [exact N|]. apply unbond_sublist.
  - unfold top_up_stake. destruct (modify_first _ _ vs) as [w|] eqn:E; [|done].
    apply modify_first_spec in E as (l & v & k & -> & -> & _). eapply sublist_NoDup; [exact N|].
    by apply (deactivates_sublist (fun v => with_stake (wrap u128 (v_stake v + x)) v)).
  - unfold apply_slash. destruct (modify_first _ _ vs) as [w|] eqn:E; [|done].
    apply modify_first_spec in E as (l & v & k & -> & -> & _). eapply sublist_NoDup; [exact N|].
    apply deactivates_sublist, slash_deactivates.
Qed.

Lemma history_active (vs : ValidatorSet) : rtc set_step [] vs -> NoDup (active_addresses vs).
Proof.
  assert (forall ws, rtc set_step ws vs -> NoDup (active_addresses ws) -> NoDup (active_addresses vs)) as H.
  { induction 1; eauto using step_active. }
  intros R. apply (H [] R). constructor.
Qed.

Lemma eligible_active (vs : ValidatorSet) : v_address <$> active_validators vs `sublist_of` active_addresses vs.
Proof.
  unfold active_validators, active_addresses. induction vs as [|v vs IH]; [done|]. rewrite !filter_cons_if, !fmap_app.
  apply sublist_app; [|done]. unfold eligible. fold (is_active v). destruct (is_active v); [|done].
  cbn [andb]. destruct (_ <=? _); [done|apply sublist_nil_l].
Qed.

(** ** Committees *)

Section Committees.
Context {P : Primitives}.

(** The committee of an epoch.  For any validator set that registrations,
    exits, unbonding, top-ups and slashes can produce, the selection fails only
    when nobody is eligible; otherwise the committee has [min(n, 128)] of the [n]
    eligible validators, each address once, and these are ones with the lowest
    scores for the epoch's randomness: no one left out scores below a member. *)
Theorem committee_selection (epoch : Z) (randomness tpk : list Z) (vs : ValidatorSet) :
  rtc set_step [] vs ->
  match select_committee epoch randomness tpk vs with
  | Err e => e = NotEnoughValidators 1 0 /\ forall v, v ∈ vs -> eligible v = false
  | Ok c =>
      committee_epoch c = epoch /\ threshold_public_key c = tpk /\
      1 <= committee_size c /\ committee_size c = Z.min (active_count vs) COMMITTEE_SIZE /\
      NoDup (v_address <$> members c) /\ Forall (fun v => v ∈ vs /\ eligible v = true) (members c) /\
      exists rest, members c ++ rest ≡ₚ active_validators vs /\
        forall v w, v ∈ members c -> w ∈ rest -> selection_score randomness epoch v <= selection_score randomness epoch w
  end.
Proof.
  intros R%history_active. unfold select_committee. set (score := selection_score randomness epoch).
  destruct (Z.eqb_spec (len (active_validators vs)) 0) as [E|E].
  { split; [done|]. intros v Hv. apply not_true_iff_false. intros Hel.
    assert (v ∈ active_validators vs) as H by by apply list_elem_of_filter.
    destruct (active_validators vs); [by apply not_elem_of_nil in H|]. unfold len in E. cbn in E. lia. }
  set (l := (fun v => (score v, v)) <$> active_validators vs). set (k := Z.to_nat (Z.min _ COMMITTEE_SIZE)).
  unfold committee_size. cbn [committee_epoch threshold_public_key members].
  assert (snd <$> sort_by_key fst l ≡ₚ active_validators vs) as Pm.
  { rewrite (sort_by_key_perm fst). unfold l. by rewrite <- list_fmap_compose, list_fmap_id. }
  assert (forall x, x ∈ sort_by_key fst l -> x.1 = score x.2) as Fst.
  { intros x. rewrite (sort_by_key_perm fst). intros (v & -> & _)%list_elem_of_fmap. done. }
  assert ((snd <$> take k (sort_by_key fst l)) ++ (snd <$> drop k (sort_by_key fst l)) ≡ₚ active_validators vs) as Pm'.
  { by rewrite <- fmap_app, take_drop. }
  assert (NoDup (v_address <$> active_validators vs)) as N by (eapply sublist_NoDup; [exact R|apply eligible_active]).
  assert (len (sort_by_key fst l) = active_count vs) as L.
  { unfold active_count, len. by rewrite <- Pm, length_fmap. }
  assert (len (snd <$> take k (sort_by_key fst l)) = Z.min (active_count vs) COMMITTEE_SIZE) as Lk.
  { rewrite <- L. unfold len, k, len, COMMITTEE_SIZE. rewrite length_fmap, length_take. lia. }
  fold l. rewrite Lk. split_and!; try done.
  - unfold active_count, len, COMMITTEE_SIZE in *. lia.
  - rewrite <- Pm', fmap_app in N. by apply NoDup_app in N as [N _].
  - apply Forall_forall. intros v Hv. assert (v ∈ active_validators vs) as H%list_elem_of_filter by (rewrite <- Pm'; set_solver).
    by destruct H.
  - exists (snd <$> drop k (sort_by_key fst l)). split; [done|].
    intros v w ((s & v') & -> & Hv)%list_elem_of_fmap ((s' & w') & -> & Hw)%list_elem_of_fmap.
    pose proof (sort_by_key_sorted fst l) as S. rewrite <- (take_drop k (sort_by_key fst l)) in S.
    pose proof (StronglySorted_app_1_elem_of _ _ _ _ _ S Hv Hw) as Le. cbn in Le |- *.
    assert (forall x, x ∈ take k (sort_by_key fst l) ++ drop k (sort_by_key fst l) -> x.1 = score x.2) as Fst'.
    { intros x. rewrite take_drop. apply Fst. }
    pose proof (Fst' (s, v') ltac:(set_solver)) as Ev. pose proof (Fst' (s', w') ltac:(set_solver)) as Ew. cbn in Ev, Ew.
    fold (score v') (score w'). lia.
Qed.
End Committees.

(** ** Slashing *)

Lemma compute_slash_sum (x : Z) (o : SlashingOffense) :
  0 <= x < 2 ^ 121 ->
  let '(burned, fee) := compute_slash x o in
  burned + fee = x * slash_percent o / 100 /\ fee = x * slash_percent o / 100 / 10 /\ 0 <= fee /\ 0 <= burned /\ burned + fee <= x.
Proof.
  intros Hx. unfold compute_slash.
  assert (1 <= slash_percent o <= 100) as Hp by (destruct o; vm_compute; done).
  set (p := slash_percent o) in *. clearbody p. rewrite (wrap_small u128 (x * p)) by (unfold in_range; cbn; nia).
  assert (0 <= x * p / 100 <= x) as Ha.
  { split; [apply Z.div_pos; nia|]. apply Z.div_le_upper_bound; nia. }
  set (a := x * p / 100) in *. clearbody a. unfold FINDER_FEE_PERCENT.
  rewrite (wrap_small u128 (a * 10)) by (unfold in_range; cbn; lia).
  replace (a * 10 / 100) with (a / 10) by (Z.to_euclidean_division_equations; lia).
  rewrite wrap_small by (unfold in_range; cbn; Z.to_euclidean_division_equations; lia).
  Z.to_euclidean_division_equations. lia.
Qed.

Lemma modify_first_at (p : Validator -> bool) (f : Validator -> Validator) (l : list Validator) (v : Validator) (k : list Validator) :
  Forall (fun u => p u = false) l -> p v = true -> modify_first p f (l ++ v :: k) = Some (l ++ f v :: k).
Proof. induction 1 as [|u l Hu _ IH]; intros Hv; cbn; [by rewrite Hv|]. by rewrite Hu, IH. Qed.

(** Liveness penalties are exact.  For a report of [p] slots out of [t], with
    no bound on their ratio, there is no slash exactly when [p/t] is at least
    90 %; below 90 %, 50 % and 1 % the rate is 1, 5 and 10 % of the stake in the
    report, a tenth of it (rounded down) goes to the finder and the rest is
    burned, nothing is lost to rounding, and the validator is ejected below 50 %;
    applied to the set, the slash takes exactly that from the first entry of the
    validator and changes no other, and a validator with the required stake is
    no longer eligible. *)
Theorem liveness_slash_exact (r : LivenessReport) :
  0 <= slots_participated r < 2 ^ 57 -> 0 < total_slots r < 2 ^ 57 -> 0 <= current_stake r < 2 ^ 121 ->
  let p := 100 * slots_participated r in
  let t := total_slots r in
  match slash_liveness r with
  | None => 90 * t <= p
  | Some s =>
      p < 90 * t /\ offender s = lr_validator r /\
      offense s = (if decide (p < t) then LivenessAbsent else if decide (p < 50 * t) then LivenessMajor else LivenessMinor) /\
      (sl_ejected s = true <-> p < 50 * t) /\ (forced_unbonding s = true <-> p < t) /\
      let amount := current_stake r * slash_percent (offense s) / 100 in
      finder_fee s = amount / 10 /\ amount_burned s = amount - amount / 10 /\
      forall l v k block, Forall (fun u => v_address u <> lr_validator r) l -> v_address v = lr_validator r ->
        v_stake v = current_stake r ->
        exists v', apply_slash s block (l ++ v :: k) = (l ++ v' :: k, true) /\ v_stake v' = v_stake v - amount /\
          v_address v' = v_address v /\ (100 <= v_stake v <= VALIDATOR_STAKE -> eligible v' = false)
  end.
Proof.
  intros Hp Ht Hs p t. unfold slash_liveness.
  assert (participation_percent r = p / t) as ->.
  { unfold participation_percent. fold t. destruct (Z.eqb_spec t 0); [lia|]. unfold p.
    rewrite wrap_small by (unfold in_range; cbn; lia). f_equal. lia. }
  assert (forall n, 0 < n -> p / t < n <-> p < n * t) as Hd.
  { intros n Hn. split; intros H; [|by apply Z.div_lt_upper_bound; lia].
    pose proof (Z.div_mod p t ltac:(lia)) as D. pose proof (Z.mod_pos_bound p t ltac:(lia)). nia. }
  assert (0 <= p / t) as H0 by (apply Z.div_pos; lia).
  pose proof (Hd 1 ltac:(lia)) as D1. pose proof (Hd 50 ltac:(lia)) as D50. pose proof (Hd 90 ltac:(lia)) as D90.
  set (o := if decide (p < t) then LivenessAbsent else if decide (p < 50 * t) then LivenessMajor else LivenessMinor).
  assert (liveness_offense (p / t) = if decide (p < 90 * t) then Some o else None) as ->.
  { unfold liveness_offense, o. destruct (Z.eqb_spec (p / t) 0), (Z.ltb_spec (p / t) 50), (Z.ltb_spec (p / t) 90);
      repeat case_decide; done || lia. }
  case_decide; [|lia]. pose proof (compute_slash_sum (current_stake r) o Hs) as C.
  destruct (compute_slash (current_stake r) o) as [burned fee]. destruct C as (Sum & Fee & F0 & B0 & Le).
  cbn [offender offense sl_ejected forced_unbonding finder_fee amount_burned].
  set (amount := current_stake r * slash_percent o / 100) in *.
  split; [done|]. split; [done|]. split; [done|]. split; [unfold o; repeat case_decide; split; done || lia|].
  split; [unfold o; repeat case_decide; split; done || lia|]. split; [done|]. split; [lia|].
  intros l v k block Hl Hv Hst. set (s := mkSlash _ _ _ _ _ _).
  exists (slash_validator s block v). unfold apply_slash. rewrite modify_first_at.
  2:{ eapply Forall_impl; [exact Hl|]. intros u ?. by apply bool_decide_eq_false. }
  2:{ by apply bool_decide_eq_true. }
  assert (v_stake (slash_validator s block v) = v_stake v - amount) as Est.
  { unfold slash_validator. cbn [amount_burned finder_fee s]. unfold s. cbn [amount_burned finder_fee forced_unbonding sl_ejected].
    rewrite wrap_small by (unfold in_range; cbn; lia). rewrite Sum, Hst. destruct (Z.leb_spec amount (current_stake r)); [|lia].
    by repeat match goal with |- context [if ?b then _ else _] => destruct b end. }
  split; [done|]. split; [done|]. split; [unfold slash_validator; by destruct (forced_unbonding s), (sl_ejected s)|].
  intros Hb. unfold eligible. rewrite Est. apply andb_false_iff. right. apply Z.leb_gt.
  enough (1 <= amount) by lia. unfold amount. rewrite <- Hst. apply Z.div_le_lower_bound; [lia|].
  assert (1 <= slash_percent o) by (destruct o; vm_compute; done). nia.
Qed.

Lemma verify_double_sign_verifies {P : Primitives} (chain : Z) (ev : SlashEvidence) (key : list Z) :
  verify_double_sign chain ev key = true <->
  block_hash_1 ev <> block_hash_2 ev /\
  verifies key (proposer_sign_message chain (ev_slot ev) (block_hash_1 ev)) (signature_1 ev) = true /\
  verifies key (proposer_sign_message chain (ev_slot ev) (block_hash_2 ev)) (signature_2 ev) = true.
Proof.
  unfold verify_double_sign, verifies. case_bool_decide; [naive_solver|].
  destruct (FalconPublicKey_from_bytes key), (FalconSignature_from_bytes (signature_1 ev)),
    (FalconSignature_from_bytes (signature_2 ev)); rewrite ?andb_true_iff; naive_solver.
Qed.

Section Agreement.
Context `{PO : PrimitivesOk} {St : Type} `{SAOk : StateAccessOk St}.
Implicit Types s : St.

(** The two slash implementations agree.  For evidence of a validator that
    the state has and has not ejected, the transaction handler [execute_slash]
    accepts the encoded evidence exactly when consensus' [slash_double_sign]
    does, with the chain's id and the validator's key; and then, on a stake of
    at most the required one, the fee the handler pays is the finder's fee of the
    consensus result, and fee and burned amount are the whole stake, which is
    what the handler removes. *)
Theorem slash_implementations_agree (chain : Z) (tx : Transaction) (sb : Z) s (ev : SlashEvidence) (e : ValidatorEntry) :
  wf_evidence ev -> Tx.data tx = evidence_encode ev -> entry_of s (signer ev) = Some e -> status e <> 2 ->
  0 <= stake e <= VALIDATOR_STAKE ->
  match slash_double_sign chain ev (pk e) (stake e) with
  | None => exists msg, execute_slash chain tx sb s = (s, sb, failed 21000 msg)
  | Some r =>
      offender r = signer ev /\ amount_burned r + finder_fee r = stake e /\
      (execute_slash chain tx sb s).2 = succeeded 100000 (signer ev) /\
      (execute_slash chain tx sb s).1.2 = saturating_add u128 sb (finder_fee r) /\
      (execute_slash chain tx sb s).1.1 =
        (let s1 := put (validator_key (signer ev)) (entry_encode (set_status 2 None (set_stake 0 e))) s in
         if status e =? 0 then decrement_active_validator_count s1 else s1)
  end.
Proof.
  intros W Ed He Hst Hs. pose proof (evidence_roundtrip ev W) as D. unfold slash_double_sign.
  destruct (verify_double_sign chain ev (pk e)) eqn:V; cbn [negb].
  - apply verify_double_sign_verifies in V as (N & S1 & S2).
    assert (convicts chain tx s ev e) as C by (split; [by rewrite Ed|done..]).
    pose proof (compute_slash_sum (stake e) DoubleSigning ltac:(unfold VALIDATOR_STAKE in *; lia)) as Cs.
    destruct (compute_slash (stake e) DoubleSigning) as [burned fee]. cbn [slash_percent] in Cs.
    rewrite Z.div_mul in Cs by done. destruct Cs as (Sum & Fee & _). cbn [offender amount_burned finder_fee].
    destruct (slash_cases chain tx sb s) as [(msg & _ & X)|(ev' & e' & C' & ->)]; [by destruct (X ev e)|].
    destruct C, C'. assert (ev' = ev) as -> by congruence. assert (e' = e) as -> by congruence.
    cbn [fst snd]. rewrite Z.min_l by lia. split_and!; [done|done|done| |].
    + f_equal. rewrite Fee. unfold FINDER_FEE_PERCENT. Z.to_euclidean_division_equations. lia.
    + unfold saturating_sub. by rewrite Z.sub_diag.
  - destruct (slash_cases chain tx sb s) as [(msg & -> & _)|(ev' & e' & C' & _)]; [by exists msg|].
    destruct C'. assert (ev' = ev) as -> by congruence. assert (e' = e) as -> by congruence.
    enough (verify_double_sign chain ev (pk e) = true) by congruence. by apply verify_double_sign_verifies.
Qed.
End Agreement.

(** ** Findings *)

(** Slashes for an address whose first entry is not active change no candidate. *)
Lemma slashes_miss (a : Address) (vs : ValidatorSet) (new : Validator) (slashes : list (SlashResult * Z)) (w : Validator) :
  Forall (fun u => v_address u <> a) vs -> Forall (fun s => offender s.1 = a) slashes ->
  is_active w = false -> v_address w = a ->
  active_validators (foldl (fun w s => (apply_slash s.1 s.2 w).1) ((vs ++ [w]) ++ [new]) slashes) =
  active_validators ((vs ++ [w]) ++ [new]).
Proof.
  intros Fn Hs. revert w. induction Hs as [|s ss Ho _ IH]; intros w Hw Ha; cbn [foldl]; [done|].
  assert ((apply_slash s.1 s.2 ((vs ++ [w]) ++ [new])).1 = (vs ++ [slash_validator s.1 s.2 w]) ++ [new]) as ->.
  { unfold apply_slash. rewrite <- !app_assoc. cbn [app]. rewrite modify_first_at; [done| |by apply bool_decide_eq_true; congruence].
    eapply Forall_impl; [exact Fn|]. intros u Hu. apply bool_decide_eq_false. congruence. }
  assert (forall u, is_active u = false -> filter (fun v => eligible v = true) [u] = []) as Fe.
  { intros u Hu. rewrite filter_cons_if. unfold eligible. fold (is_active u). by rewrite Hu. }
  destruct (slash_deactivates s.1 s.2 w) as [Ea Hi].
  assert (is_active (slash_validator s.1 s.2 w) = false) as Hw' by (apply not_true_iff_false; intros Z%Hi; congruence).
  rewrite IH by (done || congruence). unfold active_validators. by rewrite !filter_app, (Fe _ Hw), (Fe _ Hw').
Qed.

(** Finding: leaving and registering again makes a validator immune.  Both
    [apply_slash] and [top_up_stake] change the first entry with the address;
    after an exit and a second registration this is the old entry, so whatever
    slashes are applied for the address, the new entry stays active with its full
    stake and the candidates for the committee are the same. *)
Theorem reregistered_offender_escapes (a : Address) (pk1 pk2 : list Z) (x e1 e2 exit : Z) (vs : ValidatorSet)
    (slashes : list (SlashResult * Z)) :
  (forall v, v ∈ vs -> v_address v <> a) -> VALIDATOR_STAKE <= x -> Forall (fun s => offender s.1 = a) slashes ->
  let vs1 := (register a pk1 x e1 vs).1 in
  let vs2 := (deregister a exit vs1).1 in
  let '(vs3, r) := register a pk2 x e2 vs2 in
  r = Ok tt /\
  let vs4 := foldl (fun w s => (apply_slash s.1 s.2 w).1) vs3 slashes in
  active_validators vs4 = active_validators vs3 /\ mkV a pk2 VALIDATOR_STAKE Active e2 None ∈ active_validators vs4.
Proof.
  intros Hn Hx Hs vs1 vs2.
  assert (forall w (st : ValidatorStatus), existsb (active_at a) w = false ->
    register a pk2 x e2 w = (w ++ [mkV a pk2 VALIDATOR_STAKE Active e2 None], Ok tt)) as Reg.
  { intros w st E. unfold register. destruct (Z.ltb_spec x VALIDATOR_STAKE); [lia|]. by rewrite E. }
  assert (existsb (active_at a) vs = false) as E0.
  { apply not_true_iff_false. intros (v & Hv%list_elem_of_In & [Ha _]%andb_true_iff)%existsb_exists.
    apply bool_decide_eq_true in Ha. by apply (Hn v). }
  assert (vs1 = vs ++ [mkV a pk1 VALIDATOR_STAKE Active e1 None]) as E1.
  { unfold vs1, register. destruct (Z.ltb_spec x VALIDATOR_STAKE); [lia|]. by rewrite E0. }
  assert (Forall (fun u => v_address u <> a) vs) as Fn by by apply Forall_forall.
  assert (forall st, st <> Active -> existsb (active_at a) (vs ++ [mkV a pk1 VALIDATOR_STAKE st e1 None]) = false) as Ex.
  { intros st Hst. rewrite existsb_app, E0. cbn. unfold active_at. cbn. rewrite (bool_decide_eq_false_2 (st = Active)) by done.
    by rewrite andb_false_r. }
  assert (vs2 = vs ++ [mkV a pk1 VALIDATOR_STAKE (Unbonding exit) e1 None]) as E2.
  { unfold vs2, deregister. rewrite E1, modify_first_at; [done| |].
    - eapply Forall_impl; [exact Fn|]. intros u Hu. unfold active_at. by rewrite bool_decide_eq_false_2.
    - unfold active_at. cbn. by rewrite bool_decide_eq_true_2. }
  rewrite E2, (Reg _ Active) by by apply Ex. split; [done|]. set (new := mkV a pk2 _ _ _ _).
  cbv zeta. rewrite (slashes_miss a) by done. split; [done|]. apply list_elem_of_filter. split; [done|]. set_solver.
Qed.

(** ** Witnesses *)

Definition toy_validators : ValidatorSet := (fun a => mkV a (replicate 897 0) VALIDATOR_STAKE Active 0 None) <$> toy_members.

Lemma committee_selection_witness :
  exists c, select_committee 3 H256_zero [] toy_validators = Ok c /\ committee_size c = 4 /\ NoDup (v_address <$> members c).
Proof.
  assert (rtc set_step [] toy_validators) as R.
  { apply (rtc_l _ _ _ _ (step_register [] (replicate 32 1) (replicate 897 0) VALIDATOR_STAKE 0)).
    apply (rtc_l _ _ _ _ (step_register _ (replicate 32 2) (replicate 897 0) VALIDATOR_STAKE 0)).
    apply (rtc_l _ _ _ _ (step_register _ (replicate 32 3) (replicate 897 0) VALIDATOR_STAKE 0)).
    apply (rtc_l _ _ _ _ (step_register _ (replicate 32 4) (replicate 897 0) VALIDATOR_STAKE 0)).
    apply rtc_refl. }
  pose proof (committee_selection 3 H256_zero [] toy_validators R) as T.
  assert (active_count toy_validators = 4) as N by (vm_compute; reflexivity). rewrite N in T.
  destruct (select_committee 3 H256_zero [] toy_validators) as [c|e] eqn:E.
  - exists c. split; [reflexivity|]. destruct T as (_ & _ & _ & S & ND & _). split; [exact S|exact ND].
  - exfalso. revert E. vm_compute. discriminate.
Defined.

Lemma liveness_slash_exact_witness :
  let r := mkReport bob 40 100 VALIDATOR_STAKE in
  match slash_liveness r with
  | Some s => offense s = LivenessMajor /\ finder_fee s = VALIDATOR_STAKE * 5 / 100 / 10
  | None => False
  end.
Proof.
  intros r.
  assert (0 <= slots_participated r < 2 ^ 57) as Hp by (split; [discriminate|reflexivity]).
  assert (0 < total_slots r < 2 ^ 57) as Ht by (split; reflexivity).
  assert (0 <= current_stake r < 2 ^ 121) as Hs by (split; [discriminate|reflexivity]).
  pose proof (liveness_slash_exact r Hp Ht Hs) as T. cbv zeta in T.
  destruct (slash_liveness r) as [s|] eqn:E; [|revert E; vm_compute; discriminate].
  destruct T as (_ & _ & Eo & _ & _ & Ef & _). rewrite Ef, Eo. split; vm_compute; reflexivity.
Defined.

Lemma slash_implementations_agree_witness :
  let tx := special_tx Slash (evidence_encode double_sign) in
  exists r, slash_double_sign 0 double_sign (replicate 897 0) VALIDATOR_STAKE = Some r /\
    (execute_slash 0 tx 50 staked_world).1.2 = saturating_add u128 50 (finder_fee r).
Proof.
  intros tx. set (e := mkValidator (replicate 897 0) VALIDATOR_STAKE 0 5 None None).
  assert (wf_evidence double_sign) as W by (split; vm_compute; (reflexivity || (split; [discriminate|reflexivity]))).
  assert (entry_of staked_world (signer double_sign) = Some e) as He by (vm_compute; reflexivity).
  pose proof (slash_implementations_agree 0 tx 50 staked_world double_sign e W eq_refl He ltac:(discriminate)
                ltac:(split; discriminate)) as T.
  change (pk e) with (replicate 897 0) in T. change (stake e) with VALIDATOR_STAKE in T.
  destruct (slash_double_sign 0 double_sign (replicate 897 0) VALIDATOR_STAKE) as [r|] eqn:E.
  - exists r. split; [reflexivity|]. destruct T as (_ & _ & _ & F & _). exact F.
  - exfalso. revert E. vm_compute. discriminate.
Defined.

Lemma reregistered_offender_escapes_witness :
  let vs2 := (deregister bob 9 (register bob [] VALIDATOR_STAKE 0 []).1).1 in
  let vs3 := (register bob [1] VALIDATOR_STAKE 1 vs2).1 in
  let s := mkSlash bob VALIDATOR_STAKE 0 true true DoubleSigning in
  active_validators (apply_slash s 10 vs3).1 = active_validators vs3.
Proof.
  intros vs2 vs3 s.
  assert (forall v : Validator, v ∈ [] -> v_address v <> bob) as Hn by (intros v Hv; inversion Hv).
  pose proof (reregistered_offender_escapes bob [] [1] VALIDATOR_STAKE 0 1 9 [] [(s, 10)] Hn ltac:(discriminate)
                ltac:(repeat constructor)) as T.
  cbv zeta in T. fold vs2 in T. subst vs3. destruct (register bob [1] VALIDATOR_STAKE 1 vs2) as [w r].
  destruct T as (_ & E & _). exact E.
Defined.
