(* ===== verification/Randomness.v ===== *)
(** * Epoch randomness

    [consensus/src/epoch_randomness.rs]: the shares of an epoch's randomness, how
    they are collected and combined. *)

From stdpp Require Import base numbers list option strings sets gmap sorting.
From Stdlib Require Import ZArith Lia.
From S2P Require Import Prelude Crypto Wire Nonce Account Chain ViewChange.

#[local] Open Scope Z_scope.

Definition RANDOMNESS_DOMAIN : list Z := bytes_of_string "pyde-epoch-randomness-v1".
Definition RANDOMNESS_THRESHOLD : Z := 85.
Definition randomness_threshold_for (committee_size : Z) : Z := quorum_for_committee committee_size.

Record RandomnessShare : Type := mkShare {
  validator_index : Z;
  share_address : Address;
  share_output : list Z;
  share_proof : list Z
}.

Record EpochRandomness : Type := mkRandomness {
  er_epoch : Z;
  randomness : list Z;
  er_share_count : Z
}.

Definition randomness_vrf_input (epoch : Z) : list Z := RANDOMNESS_DOMAIN ++ le_encode 8 epoch.

(** [a <= b] in the order of byte arrays. *)
Fixpoint bytes_le (a b : list Z) : bool :=
  match a, b with
  | [], _ => true
  | _ :: _, [] => false
  | x :: a, y :: b => (x <? y) || ((x =? y) && bytes_le a b)
  end.

Definition bytes_order (a b : list Z) : Prop := bytes_le a b = true.

#[global] Instance bytes_order_dec (a b : list Z) : Decision (bytes_order a b).
Proof. unfold bytes_order. apply _. Defined.

(** [BTreeMap::entry(k).or_insert(v)], the map as its sorted list of values. *)
Fixpoint or_insert (m : list RandomnessShare) (s : RandomnessShare) : list RandomnessShare :=
  match m with
  | [] => [s]
  | t :: rest =>
      if validator_index s <? validator_index t then s :: m
      else if validator_index s =? validator_index t then m
      else t :: or_insert rest s
  end.

Section Randomness.
Context {P : Primitives}.

Definition generate_share (pk sk : list Z) (sign : Signer) (epoch validator_index : Z) (address : Address) :
    Result RandomnessShare string :=
  match vrf_prove pk sk sign (randomness_vrf_input epoch) with
  | Ok (output, proof) => Ok (mkShare validator_index address output proof)
  | Err e => Err e
  end.

Definition verify_share (share : RandomnessShare) (pk : list Z) (epoch : Z) : bool :=
  vrf_verify pk (randomness_vrf_input epoch) (share_output share) (share_proof share).

Definition combine_shares_with_threshold (shares : list RandomnessShare) (epoch threshold : Z) : option EpochRandomness :=
  if len shares <? threshold then None
  else
    let by_index := foldl or_insert [] shares in
    if len by_index <? threshold then None
    else
      let canonical := take (Z.to_nat threshold) by_index in
      let sorted_outputs := merge_sort bytes_order (share_output <$> canonical) in
      Some (mkRandomness epoch (poseidon2_many sorted_outputs) (len canonical)).

Definition combine_shares_dynamic (shares : list RandomnessShare) (epoch committee_size : Z) : option EpochRandomness :=
  combine_shares_with_threshold shares epoch (randomness_threshold_for committee_size).

Definition combine_shares (shares : list RandomnessShare) (epoch : Z) : option EpochRandomness :=
  combine_shares_with_threshold shares epoch RANDOMNESS_THRESHOLD.

Record RandomnessCollector : Type := mkCollector {
  rc_epoch : Z;
  rc_committee_size : Z;
  shares : list RandomnessShare;
  seen : gset Z
}.

Definition RandomnessCollector_new (epoch committee_size : Z) : RandomnessCollector :=
  mkCollector epoch committee_size [] ∅.

Definition add_share (share : RandomnessShare) (c : RandomnessCollector) : RandomnessCollector * bool :=
  if bool_decide (validator_index share ∈ seen c) then (c, false)
  else (mkCollector (rc_epoch c) (rc_committee_size c) (shares c ++ [share]) ({[validator_index share]} ∪ seen c), true).

Definition rc_is_complete (c : RandomnessCollector) : bool := randomness_threshold_for (rc_committee_size c) <=? len (shares c).
Definition rc_share_count (c : RandomnessCollector) : Z := len (shares c).
Definition has_full_set (c : RandomnessCollector) : bool := rc_committee_size c <=? len (shares c).
Definition rc_finalize (c : RandomnessCollector) : option EpochRandomness :=
  combine_shares_dynamic (shares c) (rc_epoch c) (rc_committee_size c).
End Randomness.

(** ** The validator's part ([node/src/validator.rs])

    The fields of [ValidatorNode] that the randomness round reads and writes. *)

Definition RANDOMNESS_AGGREGATION_DELAY_SLOTS : Z := 20.

Record RandomnessNode : Type := mkRandomnessNode {
  rn_committee_keys : list (list Z);
  rn_prev_committee_keys : list (list Z);
  rn_current_slot : Z;
  randomness_collector : option RandomnessCollector;
  randomness_aggregation_trigger_slot : Z;
  next_epoch_randomness : option (list Z)
}.

Section Node.
Context {P : Primitives}.

Definition set_collector (c : option RandomnessCollector) (n : RandomnessNode) : RandomnessNode :=
  mkRandomnessNode (rn_committee_keys n) (rn_prev_committee_keys n) (rn_current_slot n) c
    (randomness_aggregation_trigger_slot n) (next_epoch_randomness n).

Definition start_epoch_randomness (next_epoch : Z) (pk sk : list Z) (sign : Signer) (committee_index : Z)
    (address : Address) (n : RandomnessNode) : RandomnessNode * option RandomnessShare :=
  match generate_share pk sk sign next_epoch committee_index address with
  | Err _ => (n, None)
  | Ok share =>
      let collector := (add_share share (RandomnessCollector_new next_epoch (len (rn_committee_keys n)))).1 in
      (mkRandomnessNode (rn_committee_keys n) (rn_prev_committee_keys n) (rn_current_slot n) (Some collector)
         (wrap u64 (rn_current_slot n + RANDOMNESS_AGGREGATION_DELAY_SLOTS)) (next_epoch_randomness n), Some share)
  end.

Definition try_with (share : RandomnessShare) (epoch : Z) (table : list (list Z)) : bool :=
  match table !! Z.to_nat (validator_index share) with
  | None => false
  | Some key => match FalconPublicKey_from_bytes key with None => false | Some pk => verify_share share pk epoch end
  end.

Definition on_randomness_share (share : RandomnessShare) (n : RandomnessNode) : RandomnessNode * bool :=
  match randomness_collector n with
  | None => (n, false)
  | Some collector =>
      if negb (try_with share (rc_epoch collector) (rn_committee_keys n)) &&
         negb (try_with share (rc_epoch collector) (rn_prev_committee_keys n)) then (n, false)
      else
        let '(collector, added) := add_share share collector in (set_collector (Some collector) n, added)
  end.

Definition try_finalize_randomness_on_slot (current_slot : Z) (n : RandomnessNode) : RandomnessNode * option (list Z) :=
  match randomness_collector n with
  | None => (n, None)
  | Some collector =>
      let threshold := quorum_for_committee (len (rn_committee_keys n)) in
      let ready := has_full_set collector ||
        ((randomness_aggregation_trigger_slot n <=? current_slot) && (threshold <=? rc_share_count collector)) in
      if negb ready then (n, None)
      else
        match rc_finalize collector with
        | None => (n, None)
        | Some result =>
            (mkRandomnessNode (rn_committee_keys n) (rn_prev_committee_keys n) (rn_current_slot n) None
               (randomness_aggregation_trigger_slot n) (Some (randomness result)), Some (randomness result))
        end
  end.
End Node.

(** The collector after a sequence of arrivals. *)
Definition collect (epoch n : Z) (arrivals : list RandomnessShare) : RandomnessCollector :=
  foldl (fun c s => (add_share s c).1) (RandomnessCollector_new epoch n) arrivals.

(** ** The canonical subset *)

Abbreviation indices l := (validator_index <$> l).

Lemma or_insert_spec (m : list RandomnessShare) (s : RandomnessShare) :
  StronglySorted Z.lt (indices m) ->
  StronglySorted Z.lt (indices (or_insert m s)) /\
  (forall x, x ∈ or_insert m s -> x ∈ m \/ x = s) /\
  (forall i, i ∈ indices (or_insert m s) <-> i ∈ indices m \/ i = validator_index s) /\
  (length (or_insert m s) <= S (length m))%nat.
Proof.
  induction m as [|t m IH]; intros S; cbn [or_insert].
  - split; [repeat constructor|]. set_solver.
  - inversion S as [|? ? S' F E]; subst. destruct (Z.ltb_spec (validator_index s) (validator_index t)) as [L|L].
    + split; [constructor; [done|]; constructor; [done|]; eapply Forall_impl; [exact F|]; cbn; lia|].
      split; [set_solver|]. split; [set_solver|cbn; lia].
    + destruct (Z.eqb_spec (validator_index s) (validator_index t)) as [Eq|Ne].
      * split; [done|]. split; [set_solver|]. split; [set_solver|cbn; lia].
      * destruct (IH S') as (S2 & In & Ix & Len). split.
        { cbn. constructor; [done|]. apply Forall_forall. intros i Hi. apply Ix in Hi as [Hi| ->]; [|lia].
          by apply (proj1 (Forall_forall _ _) F). }
        split; [set_solver|]. split; [|cbn; lia]. intros i. cbn. rewrite !elem_of_cons, Ix. tauto.
Qed.

Record indexed (l m : list RandomnessShare) : Prop := {
  ix_sorted : StronglySorted Z.lt (indices m);
  ix_sub x : x ∈ m -> x ∈ l;
  ix_all i : i ∈ indices m <-> i ∈ indices l;
  ix_len : (length m <= length l)%nat
}.

Lemma by_index_spec (l : list RandomnessShare) : indexed l (foldl or_insert [] l).
Proof.
  induction l as [|s l IH] using rev_ind; [split; [constructor|set_solver|set_solver|done]|].
  rewrite foldl_app. cbn [foldl]. destruct IH as [S Sub All Len].
  destruct (or_insert_spec (foldl or_insert [] l) s S) as (S' & In & Ix & Le). split; [done| | |].
  - intros x [H| ->]%In; set_solver.
  - intros i. rewrite Ix, All. set_solver.
  - rewrite length_app. cbn. lia.
Qed.

(** Strictly increasing indices from [s] on that include [s ... s + k - 1] start with these. *)
Lemma sorted_prefix (k : nat) (s : Z) (m : list RandomnessShare) :
  StronglySorted Z.lt (indices m) -> Forall (fun x => s <= validator_index x) m ->
  (forall i, s <= i < s + Z.of_nat k -> i ∈ indices m) -> indices (take k m) = seqZ s (Z.of_nat k).
Proof.
  revert s m. induction k as [|k IH]; intros s m S F H; [by rewrite take_0|].
  rewrite seqZ_cons by lia. destruct m as [|x m].
  { specialize (H s ltac:(lia)). by apply not_elem_of_nil in H. }
  inversion S as [|? ? S' L E]; subst. inversion F as [|? ? Fx F' E]; subst. rewrite Forall_forall in L.
  assert (validator_index x = s) as Ex.
  { specialize (H s ltac:(lia)). cbn in H. apply elem_of_cons in H as [->|H]; [done|]. specialize (L s H). lia. }
  cbn [take fmap list_fmap]. rewrite Ex. f_equal. replace (Z.pred (Z.of_nat (Datatypes.S k))) with (Z.of_nat k) by lia.
  apply IH; [done| |].
  - apply Forall_forall. intros y Hy. assert (validator_index x < validator_index y) by (apply L; set_solver). lia.
  - intros i Hi. specialize (H i ltac:(lia)). cbn in H. apply elem_of_cons in H as [->|]; [lia|done].
Qed.

Lemma collect_spec (epoch n : Z) (l : list RandomnessShare) :
  let c := collect epoch n l in
  rc_epoch c = epoch /\ rc_committee_size c = n /\ (forall x, x ∈ shares c -> x ∈ l) /\
  (forall i, i ∈ indices (shares c) <-> i ∈ indices l) /\ (forall i, i ∈ seen c <-> i ∈ indices (shares c)) /\
  NoDup (indices (shares c)).
Proof.
  cbv zeta. unfold collect. induction l as [|s l IH] using rev_ind; [cbn; split_and!; try set_solver; constructor|].
  rewrite foldl_app. cbn [foldl]. destruct (foldl _ _ l) as [e m sh sn]. cbn in IH. destruct IH as (-> & -> & Sub & All & Seen & N).
  unfold add_share. cbn [seen]. case_bool_decide as B; cbn [fst rc_epoch rc_committee_size shares seen].
  - split_and!; try done; [set_solver|]. intros i. rewrite All, fmap_app, elem_of_app. set_solver.
  - split_and!; try done; [set_solver| | |].
    + intros i. rewrite !fmap_app, !elem_of_app, All. done.
    + intros i. rewrite fmap_app, elem_of_app, elem_of_union, Seen. set_solver.
    + rewrite fmap_app. apply NoDup_app. split; [done|]. split; [|apply NoDup_singleton].
      intros i Hi Hs%list_elem_of_singleton. subst i. by apply B, Seen.
Qed.

Section Agreement.
Context {P : Primitives}.

(** The randomness of an epoch does not depend on how gossip arrives.  Let
    [T] be the threshold of a committee of [n], and let every arriving share
    with an index below [T] be its member's share [f i], all of them among the
    arrivals.  Then whatever the order, the repetitions and the other shares,
    the collector is complete and finalises with the same randomness: the hash of
    the sorted outputs of the members [0 .. T-1]. *)
Theorem randomness_deterministic (epoch n : Z) (f : Z -> RandomnessShare) (arrivals : list RandomnessShare) :
  1 <= n -> let T := randomness_threshold_for n in
  (forall s, s ∈ arrivals -> 0 <= validator_index s) ->
  (forall s, s ∈ arrivals -> validator_index s < T -> s = f (validator_index s)) ->
  (forall i, 0 <= i < T -> f i ∈ arrivals /\ validator_index (f i) = i) ->
  rc_is_complete (collect epoch n arrivals) = true /\
  rc_finalize (collect epoch n arrivals) =
    Some (mkRandomness epoch (poseidon2_many (merge_sort bytes_order ((fun i => share_output (f i)) <$> seqZ 0 T))) T).
Proof.
  intros Hn T H0 Hf Ha. destruct (collect_spec epoch n arrivals) as (Ee & En & Sub & All & _).
  set (c := collect epoch n arrivals) in *. unfold rc_is_complete, rc_finalize, combine_shares_dynamic, combine_shares_with_threshold.
  rewrite Ee, En. fold T. destruct (by_index_spec (shares c)) as [S Sub' All' Len].
  set (m := foldl or_insert [] (shares c)) in *. clearbody m.
  assert (0 <= T) as HT by (unfold T, randomness_threshold_for, quorum_for_committee; destruct (n =? 0); [done|apply Z.div_pos; lia]).
  assert (indices (take (Z.to_nat T) m) = seqZ 0 T) as Pre.
  { rewrite (sorted_prefix (Z.to_nat T) 0 m S); [by rewrite Z2Nat.id| |].
    - apply Forall_forall. auto.
    - intros i Hi. rewrite Z2Nat.id in Hi by done. apply All', All. destruct (Ha i Hi) as [Hi' <-]. by apply list_elem_of_fmap_2. }
  assert (len (take (Z.to_nat T) m) = T) as Lt.
  { unfold len. rewrite <- (length_fmap validator_index), Pre, length_seqZ. lia. }
  assert (T <= len m <= len (shares c)) as Lm by (unfold len in *; rewrite length_take in Lt; lia).
  split; [apply Z.leb_le; lia|].
  destruct (Z.ltb_spec (len (shares c)) T); [lia|]. destruct (Z.ltb_spec (len m) T); [lia|]. rewrite Lt.
  do 4 f_equal. rewrite <- Pre, <- list_fmap_compose. apply list_fmap_ext. intros j x Hx. cbn.
  apply lookup_take_Some in Hx as [Hx Hj]. apply list_elem_of_lookup_2 in Hx as Hm. f_equal. apply Hf; [auto|].
  assert (seqZ 0 T !! j = Some (validator_index x)) as Hs.
  { rewrite <- Pre, list_lookup_fmap, lookup_take, Hx. by rewrite decide_True by done. }
  apply lookup_seqZ in Hs. lia.
Qed.
End Agreement.

(** ** Witness and findings *)

Definition toy_share (i x : Z) : RandomnessShare := mkShare i ZERO_ADDRESS (replicate 32 x) (replicate 600 x).

Lemma randomness_deterministic_witness :
  let f i := toy_share i (10 - i) in
  let arrivals := [toy_share 200 7; f 2; f 0; f 2; f 1] in
  exists r, rc_finalize (collect 3 4 arrivals) = Some (mkRandomness 3 r 3).
Proof.
  intros f arrivals.
  assert (randomness_threshold_for 4 = 3) as T3 by reflexivity.
  destruct (randomness_deterministic 3 4 f arrivals) as [_ E].
  - discriminate.
  - apply Forall_forall. repeat (constructor; [discriminate|]). constructor.
  - rewrite T3. apply (proj1 (Forall_forall (fun s => validator_index s < 3 -> s = f (validator_index s)) arrivals)).
    constructor; [intros H; exfalso; revert H; vm_compute; discriminate|].
    repeat (constructor; [intros _; reflexivity|]). constructor.
  - rewrite T3. intros i Hi. assert (i = 0 \/ i = 1 \/ i = 2) as [->|[->| ->]] by lia.
    + split; [right; right; left|reflexivity].
    + split; [right; right; right; right; left|reflexivity].
    + split; [right; left|reflexivity].
  - rewrite T3 in E. eexists. exact E.
Defined.

(** A signature is the first byte of the key it belongs to. *)
Definition keyed_primitives : Primitives := {|
  sponge := fun l => [toy_mix l; toy_mix (1 :: l); toy_mix (2 :: l); toy_mix (3 :: l)];
  fn_dsa_verify := fun sig pk msg => bool_decide (head sig = head pk)
|}.

(** Finding: a share of the previous committee splits the randomness.  A
    share is accepted when the key with its index in the current or in the
    previous committee verifies it, and the first one of an index is kept.  Two
    nodes with the same committees get the same four shares of one epoch, of
    which two have index 0, one by the old member 0 and one by the new; both
    reach the threshold at the deadline, and they finalise with different
    randomness, for which they each have exactly one share per index. *)
Theorem old_committee_share_splits_randomness :
  let P := keyed_primitives in
  let old := replicate 897 <$> [1; 2; 3; 4] in
  let new := replicate 897 <$> [5; 6; 7; 8] in
  let start := mkRandomnessNode new old 90 (Some (RandomnessCollector_new 3 4)) 100 None in
  let run arrivals :=
    (try_finalize_randomness_on_slot 100 (foldl (fun n s => (on_randomness_share s n).1) start arrivals)).2 in
  let gossip := [toy_share 0 1; toy_share 0 5; toy_share 1 6; toy_share 2 7] in
  match run gossip, run (reverse gossip) with
  | Some r1, Some r2 => r1 <> r2
  | _, _ => False
  end.
Proof. vm_compute. discriminate. Qed.

(** Finding: a member chooses its share.  The documentation says that each
    share is the output of a VRF, which the secret key determines, so that the
    randomness cannot be biased.  The proof is a signature over the output that
    the share has, and the verification does not compare the output to
    anything: for every value there is a proof with which [verify_share] accepts
    it, so the member that comes last picks the epoch's randomness. *)
Theorem member_chooses_its_share {P : Primitives} (pk : list Z) (sign : Signer) (epoch i : Z) (a : Address) :
  (forall msg, exists sig, sign msg = Ok sig /\ exists s, FalconSignature_from_bytes sig = Some s /\ falcon_verify pk msg s = true) ->
  forall output, exists proof, verify_share (mkShare i a output proof) pk epoch = true.
Proof.
  intros S output. destruct (S (build_proof_message pk (randomness_vrf_input epoch) output)) as (sig & _ & s & E & V).
  exists sig. unfold verify_share, vrf_verify. cbn. by rewrite E.
Qed.

Lemma member_chooses_its_share_witness :
  let P := keyed_primitives in
  exists proof, verify_share (mkShare 0 ZERO_ADDRESS (replicate 32 77) proof) (replicate 897 5) 3 = true.
Proof.
  intros P. apply (member_chooses_its_share (replicate 897 5) (fun _ => Ok (replicate 600 5))).
  intros msg. exists (replicate 600 5). split; [reflexivity|]. exists (replicate 600 5). split; reflexivity.
Defined.
