(* ===== verification/Codec.v ===== *)
(** * The encoder and decoder of the node

    [Encoder] and [Decoder] of [node/src/wire.rs].  A decoder is a computation in
    the state monad whose state is the input that is left ([data[pos..]]); an
    encoder is the bytes it appends.  [decodes p a bs] says that the decoder [p]
    consumes exactly [bs] and yields [a], whatever follows; the hint database
    [codec] has it for the fields, and the tactic [codec] for sequences of them. *)

From stdpp Require Import base numbers list option strings sets.
From Stdlib Require Import ZArith Lia.
From S2P Require Import Prelude Wire Nonce Transaction.

#[local] Open Scope Z_scope.
#[local] Open Scope pyde_scope.

(** ** Encoder *)

Definition enc_u8 (v : Z) : list Z := [v].
Definition enc_u16 (v : Z) : list Z := le_encode 2 v.
Definition enc_u32 (v : Z) : list Z := le_encode 4 v.
Definition enc_u64 (v : Z) : list Z := le_encode 8 v.
Definition enc_u128 (v : Z) : list Z := le_encode 16 v.
Definition enc_bytes32 (v : list Z) : list Z := v.
Definition enc_raw (v : list Z) : list Z := v.
Definition enc_var_bytes (v : list Z) : list Z := enc_u32 (len v) ++ v.

(** A count and then the items, as the loops over a vector write them. *)
Definition enc_list16 {A : Type} (w : A -> list Z) (l : list A) : list Z := enc_u16 (len l) ++ concat (w <$> l).
Definition enc_list32 {A : Type} (w : A -> list Z) (l : list A) : list Z := enc_u32 (len l) ++ concat (w <$> l).

(** ** Decoder *)

Definition Dec (A : Type) : Type := ST (list Z) string A.

Definition dec_raw (n : Z) : Dec (list Z) := fun rest =>
  if len rest <? n then (rest, Err "unexpected end of data") else (drop (Z.to_nat n) rest, Ok (take (Z.to_nat n) rest)).

Definition dec_u8 : Dec Z := fun rest =>
  match rest with [] => (rest, Err "unexpected end of data") | v :: rest => (rest, Ok v) end.

Definition dec_u16 : Dec Z := b <-- dec_raw 2 ;; ret (le_decode b).
Definition dec_u32 : Dec Z := b <-- dec_raw 4 ;; ret (le_decode b).
Definition dec_u64 : Dec Z := b <-- dec_raw 8 ;; ret (le_decode b).
Definition dec_u128 : Dec Z := b <-- dec_raw 16 ;; ret (le_decode b).
Definition dec_bytes32 : Dec (list Z) := dec_raw 32.
Definition dec_var_bytes : Dec (list Z) := n <-- dec_u32 ;; dec_raw n.
Definition dec_remaining : Dec Z := gets len.

Definition dec_u16_count (max : Z) : Dec Z :=
  n <-- dec_u16 ;; if max <? n then throw "decoded count exceeds max" else ret n.
Definition dec_u32_count (max : Z) : Dec Z :=
  n <-- dec_u32 ;; if max <? n then throw "decoded count exceeds max" else ret n.

(** [for _ in 0..n { v.push(item()?) }] *)
Fixpoint dec_many {A : Type} (n : nat) (item : Dec A) : Dec (list A) :=
  match n with
  | O => ret []
  | S n => a <-- item ;; l <-- dec_many n item ;; ret (a :: l)
  end.

Definition dec_list16 {A : Type} (max : Z) (item : Dec A) : Dec (list A) :=
  n <-- dec_u16_count max ;; dec_many (Z.to_nat n) item.
Definition dec_list32 {A : Type} (max : Z) (item : Dec A) : Dec (list A) :=
  n <-- dec_u32_count max ;; dec_many (Z.to_nat n) item.

(** A decoder run on the whole of a message; what is left over is ignored. *)
Definition decode_with {A : Type} (p : Dec A) (data : list Z) : Result A string := (p data).2.

#[global] Arguments enc_u8 : simpl never.
#[global] Arguments enc_u16 : simpl never.
#[global] Arguments enc_u32 : simpl never.
#[global] Arguments enc_u64 : simpl never.
#[global] Arguments enc_u128 : simpl never.
#[global] Arguments enc_bytes32 : simpl never.
#[global] Arguments enc_raw : simpl never.
#[global] Arguments enc_var_bytes : simpl never.
#[global] Arguments enc_list16 : simpl never.
#[global] Arguments enc_list32 : simpl never.

(** ** Reading what was written *)

Definition decodes {A : Type} (p : Dec A) (a : A) (bs : list Z) : Prop := forall rest, p (bs ++ rest) = (rest, Ok a).

Lemma decodes_decode {A : Type} (p : Dec A) (a : A) (bs : list Z) : decodes p a bs -> decode_with p bs = Ok a.
Proof. intros R. unfold decode_with. rewrite <- (app_nil_r bs), R. done. Qed.

Lemma decodes_ret {A : Type} (a : A) : decodes (ret a) a [].
Proof. done. Qed.

Lemma decodes_lift {A : Type} (r : Result A string) (a : A) : r = Ok a -> decodes (lift_result r) a [].
Proof. by intros ->. Qed.

Lemma decodes_bind {A B : Type} (p : Dec A) (k : A -> Dec B) (a : A) (b : B) (bs cs : list Z) :
  decodes p a bs -> decodes (k a) b cs -> decodes (bind p k) b (bs ++ cs).
Proof. intros P K rest. unfold bind. rewrite <- app_assoc, P. apply K. Qed.

(** The same for a last field, after which nothing is read. *)
Lemma decodes_last {A B : Type} (p : Dec A) (k : A -> Dec B) (a : A) (b : B) (bs : list Z) :
  decodes p a bs -> decodes (k a) b [] -> decodes (bind p k) b bs.
Proof. intros P K. rewrite <- (app_nil_r bs). by eapply decodes_bind. Qed.

Lemma decodes_if {A : Type} (c : bool) (p q : Dec A) (a : A) (bs : list Z) : c = true -> decodes p a bs -> decodes (if c then p else q) a bs.
Proof. by intros ->. Qed.

Lemma decodes_raw (n : Z) (b : list Z) : len b = n -> decodes (dec_raw n) b b.
Proof.
  intros <- rest. unfold dec_raw, len. rewrite length_app. destruct (Z.ltb_spec (Z.of_nat (length b + length rest)) (Z.of_nat (length b))); [lia|].
  by rewrite Nat2Z.id, drop_app_length, take_app_length.
Qed.

Lemma decodes_uint (n : nat) (x : Z) :
  in_range (8 * Z.of_nat n) x -> decodes (b <-- dec_raw (Z.of_nat n) ;; ret (le_decode b)) x (le_encode n x).
Proof.
  intros R. eapply decodes_last; [apply decodes_raw; unfold len; by rewrite length_le_encode|].
  rewrite le_decode_encode; [apply decodes_ret|]. unfold in_range in R. replace (256 ^ Z.of_nat n) with (2 ^ (8 * Z.of_nat n)); [done|].
  rewrite Z.pow_mul_r by lia. done.
Qed.

Lemma decodes_u8 (x : Z) : decodes dec_u8 x (enc_u8 x).
Proof. done. Qed.
Lemma decodes_u16 (x : Z) : in_range u16 x -> decodes dec_u16 x (enc_u16 x).
Proof. apply (decodes_uint 2). Qed.
Lemma decodes_u32 (x : Z) : in_range u32 x -> decodes dec_u32 x (enc_u32 x).
Proof. apply (decodes_uint 4). Qed.
Lemma decodes_u64 (x : Z) : in_range u64 x -> decodes dec_u64 x (enc_u64 x).
Proof. apply (decodes_uint 8). Qed.
Lemma decodes_u128 (x : Z) : in_range u128 x -> decodes dec_u128 x (enc_u128 x).
Proof. apply (decodes_uint 16). Qed.

Lemma decodes_bytes32 (b : list Z) : h256 b -> decodes dec_bytes32 b (enc_bytes32 b).
Proof. intros H. apply (decodes_raw 32). unfold h256, enc_bytes32, len in *. lia. Qed.

(** The lengths that fit a [u32] prefix. *)
Definition fits32 (b : list Z) : Prop := len b < 2 ^ 32.

Lemma decodes_var_bytes (b : list Z) : fits32 b -> decodes dec_var_bytes b (enc_var_bytes b).
Proof.
  intros H. unfold dec_var_bytes, enc_var_bytes, fits32 in *. eapply decodes_bind; [apply decodes_u32|by apply decodes_raw].
  unfold in_range, len in *. cbn. lia.
Qed.

Lemma decodes_many {A : Type} (p : Dec A) (w : A -> list Z) (l : list A) :
  Forall (fun a => decodes p a (w a)) l -> decodes (dec_many (length l) p) l (concat (w <$> l)).
Proof.
  induction 1 as [|a l Ha _ IH]; [apply decodes_ret|]. cbn. eapply decodes_bind; [exact Ha|]. eapply decodes_last; [exact IH|apply decodes_ret].
Qed.

Lemma decodes_list16 {A : Type} (max : Z) (p : Dec A) (w : A -> list Z) (l : list A) :
  len l <= max -> len l < 2 ^ 16 -> Forall (fun a => decodes p a (w a)) l -> decodes (dec_list16 max p) l (enc_list16 w l).
Proof.
  intros Hm Hl F. unfold dec_list16, enc_list16, dec_u16_count. eapply decodes_bind.
  - eapply decodes_last; [apply decodes_u16; unfold in_range, len in *; cbn; lia|].
    destruct (Z.ltb_spec max (len l)); [lia|apply decodes_ret].
  - unfold len. rewrite Nat2Z.id. by apply decodes_many.
Qed.

Lemma decodes_list32 {A : Type} (max : Z) (p : Dec A) (w : A -> list Z) (l : list A) :
  len l <= max -> max < 2 ^ 32 -> Forall (fun a => decodes p a (w a)) l -> decodes (dec_list32 max p) l (enc_list32 w l).
Proof.
  intros Hm Hl F. unfold dec_list32, enc_list32, dec_u32_count. eapply decodes_bind.
  - eapply decodes_last; [apply decodes_u32; unfold in_range, len in *; cbn; lia|].
    destruct (Z.ltb_spec max (len l)); [lia|apply decodes_ret].
  - unfold len. rewrite Nat2Z.id. by apply decodes_many.
Qed.

(** A message inside a message: its bytes behind a length. *)
Lemma decodes_nested {A : Type} (decode : list Z -> Result A string) (a : A) (b : list Z) :
  fits32 b -> decode b = Ok a -> decodes (b <-- dec_var_bytes ;; lift_result (decode b)) a (enc_var_bytes b).
Proof. intros H E. eapply decodes_last; [by apply decodes_var_bytes|by apply decodes_lift]. Qed.

(** ** Automation *)

Create HintDb codec.
#[export] Hint Resolve decodes_ret decodes_u8 decodes_u16 decodes_u32 decodes_u64 decodes_u128 decodes_bytes32 decodes_var_bytes : codec.
#[export] Hint Resolve decodes_lift decodes_list16 decodes_list32 decodes_nested : codec.

Ltac codec_step :=
  match goal with
  | |- decodes (bind _ _) _ (_ ++ _) => eapply decodes_bind; [solve [eauto with codec]|]
  | |- decodes (bind _ _) _ _ => eapply decodes_last; [solve [eauto with codec]|]
  | |- decodes (if _ then _ else _) _ _ => apply decodes_if; [done|]
  | |- decodes (ret _) _ [] => apply decodes_ret
  | |- decodes _ _ _ => solve [eauto with codec]
  end.
Ltac codec := repeat codec_step.
