(* ===== verification/NodeWire.v ===== *)
(** * Messages on the wire

    The codecs of [node/src/wire.rs]: blocks, transactions, consensus messages
    and the states a validator persists. *)

From stdpp Require Import base numbers list option strings sets.
From Stdlib Require Import ZArith Lia.
From S2P Require Import Prelude Crypto Wire Nonce Account Transaction Multisig Handlers HandlerProps Chain.
From S2P Require Import ViewChange HotStuff Accountability Finality Randomness Codec.

#[local] Open Scope Z_scope.
#[local] Open Scope pyde_scope.

Definition WIRE_MAX_TXS_PER_BLOCK : Z := 100000.
Definition MAX_ACCESS_LIST_ENTRIES : Z := 1024.
Definition MAX_ACCESS_KEYS_PER_ENTRY : Z := 1024.
Definition MAX_PENDING_CONSENSUS_PER_STATE : Z := COMMITTEE_SIZE * 4.
Definition MAX_EVIDENCE_BACKLOG : Z := 10000.
Definition MAX_EVIDENCE_SEEN : Z := 200000.
Definition MAX_ENCRYPTED_TXS_PER_BLOCK : Z := 100.
Definition SHORT_ID_LEN : Z := 8.

Definition TAG_BLOCK : Z := 0x01.
Definition TAG_COMPACT_BLOCK : Z := 0x03.
Definition TAG_ENCRYPTED_TX_BUNDLE : Z := 0x06.
Definition TAG_CONSENSUS_PROPOSAL : Z := 0x10.
Definition TAG_CONSENSUS_VOTE : Z := 0x11.
Definition TAG_CONSENSUS_TIMEOUT : Z := 0x12.
Definition TAG_CONSENSUS_NEW_VIEW : Z := 0x13.
Definition TAG_CONSENSUS_FINALITY_VOTE : Z := 0x14.
Definition TAG_RANDOMNESS_SHARE : Z := 0x15.
Definition TAG_PSS_REFRESH : Z := 0x16.
Definition TAG_CONSENSUS_SLASH_EVIDENCE : Z := 0x17.
Definition TAG_COMMITTEE_RESHARING : Z := 0x18.
Definition TAG_CONSENSUS_FINALITY_CHECKPOINT : Z := 0x19.
Definition TAG_CONSENSUS_QC_ANNOUNCE : Z := 0x1A.
Definition TAG_DECRYPTION_SHARES : Z := 0x20.

(** Reads the tag and refuses any other. *)
Definition expect_tag (t : Z) (msg : string) : Dec unit :=
  b <-- dec_u8 ;; if b =? t then ret tt else throw msg.

(** [bool as u8] *)
Definition enc_bool (b : bool) : list Z := enc_u8 (if b then 1 else 0).

(** ** Certificates and headers *)

Definition encode_qc (qc : QuorumCert) : list Z :=
  enc_u64 (qc_slot qc) ++ enc_bytes32 (qc_block_hash qc) ++ enc_u128 (voter_bitmap qc) ++
  enc_list16 enc_var_bytes (qc_signatures qc).

Definition decode_qc : Dec QuorumCert :=
  slot <-- dec_u64 ;;
  block_hash <-- dec_bytes32 ;;
  voter_bitmap <-- dec_u128 ;;
  signatures <-- dec_list16 MAX_SIGNERS dec_var_bytes ;;
  ret (mkQC slot block_hash voter_bitmap signatures).

Definition encode_block_header (h : BlockHeader) : list Z :=
  enc_u64 (slot h) ++ enc_u64 (epoch h) ++ enc_bytes32 (parent_hash h) ++ enc_bytes32 (proposer h) ++
  enc_var_bytes (vrf_proof h) ++ encode_qc (qc_previous h) ++ enc_bytes32 (tx_root h) ++ enc_bytes32 (state_root h) ++
  enc_u64 (timestamp h).

Definition dec_block_header : Dec BlockHeader :=
  slot <-- dec_u64 ;;
  epoch <-- dec_u64 ;;
  parent_hash <-- dec_bytes32 ;;
  proposer <-- dec_bytes32 ;;
  vrf_proof <-- dec_var_bytes ;;
  qc_previous <-- decode_qc ;;
  tx_root <-- dec_bytes32 ;;
  state_root <-- dec_bytes32 ;;
  timestamp <-- dec_u64 ;;
  ret (mkHeader slot epoch parent_hash proposer vrf_proof qc_previous tx_root state_root timestamp).

Definition decode_block_header : list Z -> Result BlockHeader string := decode_with dec_block_header.

(** ** Transactions *)

Definition encode_access_entry (e : AccessEntry) : list Z :=
  enc_bytes32 (entry_address e) ++ enc_list16 enc_bytes32 (reads e) ++ enc_list16 enc_bytes32 (writes e).

Definition decode_access_entry : Dec AccessEntry :=
  address <-- dec_bytes32 ;;
  reads <-- dec_list16 MAX_ACCESS_KEYS_PER_ENTRY dec_bytes32 ;;
  writes <-- dec_list16 MAX_ACCESS_KEYS_PER_ENTRY dec_bytes32 ;;
  ret (mkAccess address reads writes).

Definition enc_fee_payer (f : FeePayer) : list Z :=
  match f with
  | Sender => enc_u8 0
  | GasTank addr => enc_u8 1 ++ enc_bytes32 addr
  | Paymaster addr => enc_u8 2 ++ enc_bytes32 addr
  end.

Definition dec_fee_payer : Dec FeePayer :=
  t <-- dec_u8 ;;
  if t =? 0 then ret Sender
  else if t =? 1 then a <-- dec_bytes32 ;; ret (GasTank a)
  else if t =? 2 then a <-- dec_bytes32 ;; ret (Paymaster a)
  else throw "invalid fee_payer tag".

Definition enc_deadline (d : option Z) : list Z :=
  match d with Some d => enc_bool true ++ enc_u64 d | None => enc_bool false end.

Definition dec_deadline : Dec (option Z) :=
  b <-- dec_u8 ;; if b =? 1 then d <-- dec_u64 ;; ret (Some d) else ret None.

Definition encode_transaction (tx : Transaction) : list Z :=
  enc_bytes32 (Tx.from tx) ++ enc_bytes32 (Tx.to tx) ++ enc_u128 (Tx.value tx) ++ enc_var_bytes (Tx.data tx) ++
  enc_u64 (Tx.gas_limit tx) ++ enc_u64 (Tx.nonce tx) ++ enc_var_bytes (Tx.signature tx) ++
  enc_fee_payer (Tx.fee_payer tx) ++ enc_list16 encode_access_entry (Tx.access_list tx) ++
  enc_deadline (Tx.deadline tx) ++ enc_u64 (Tx.chain_id tx) ++ enc_u8 (TransactionType_u8 (Tx.tx_type tx)).

Definition dec_transaction : Dec Transaction :=
  from <-- dec_bytes32 ;;
  to <-- dec_bytes32 ;;
  value <-- dec_u128 ;;
  data_field <-- dec_var_bytes ;;
  gas_limit <-- dec_u64 ;;
  nonce <-- dec_u64 ;;
  signature <-- dec_var_bytes ;;
  fee_payer <-- dec_fee_payer ;;
  access_list <-- dec_list16 MAX_ACCESS_LIST_ENTRIES decode_access_entry ;;
  deadline <-- dec_deadline ;;
  chain_id <-- dec_u64 ;;
  t <-- dec_u8 ;;
  tx_type <-- lift_result (match TransactionType_from_u8 t with Some t => Ok t | None => Err "invalid tx_type tag" end) ;;
  ret (Tx.mkTx from to value data_field gas_limit nonce signature fee_payer access_list deadline chain_id tx_type).

Definition decode_transaction : list Z -> Result Transaction string := decode_with dec_transaction.

(** ** Blocks *)

Definition enc_group (g : list nat) : list Z := enc_list16 (fun i => enc_u32 (Z.of_nat i)) g.

Definition encode_block (b : Block) : list Z :=
  enc_u8 TAG_BLOCK ++ enc_var_bytes (encode_block_header (header b)) ++ enc_var_bytes (proposer_signature b) ++
  enc_list32 (fun tx => enc_var_bytes (encode_transaction tx)) (transactions (body b)) ++
  enc_list32 enc_var_bytes (encrypted_txs (body b)) ++ enc_list16 enc_group (groups (body b)).

Definition dec_group : Dec (list nat) :=
  dec_list16 WIRE_MAX_TXS_PER_BLOCK (i <-- dec_u32 ;; ret (Z.to_nat i)).

Definition dec_block : Dec Block :=
  _ <-- expect_tag TAG_BLOCK "not a block message" ;;
  header <-- (b <-- dec_var_bytes ;; lift_result (decode_block_header b)) ;;
  proposer_signature <-- dec_var_bytes ;;
  transactions <-- dec_list32 WIRE_MAX_TXS_PER_BLOCK (b <-- dec_var_bytes ;; lift_result (decode_transaction b)) ;;
  left <-- dec_remaining ;;
  encrypted_txs <-- (if 4 <=? left then dec_list32 WIRE_MAX_TXS_PER_BLOCK dec_var_bytes else ret []) ;;
  left <-- dec_remaining ;;
  groups <-- (if 2 <=? left then dec_list16 WIRE_MAX_TXS_PER_BLOCK dec_group else ret []) ;;
  ret (mkBlk header (mkBody transactions encrypted_txs groups (len transactions)) proposer_signature).

Definition decode_block : list Z -> Result Block string := decode_with dec_block.

(** ** Consensus messages *)

Definition encode_consensus_message (m : ConsensusMessage) : list Z :=
  match m with
  | Proposal header proposer_signature =>
      enc_u8 TAG_CONSENSUS_PROPOSAL ++ enc_var_bytes (encode_block_header header) ++ enc_var_bytes proposer_signature
  | Vote slot block_hash voter_index voter_address signature =>
      enc_u8 TAG_CONSENSUS_VOTE ++ enc_u64 slot ++ enc_bytes32 block_hash ++ enc_u8 voter_index ++
      enc_bytes32 voter_address ++ enc_var_bytes signature
  | Timeout slot voter_index voter_address highest_qc signature =>
      enc_u8 TAG_CONSENSUS_TIMEOUT ++ enc_u64 slot ++ enc_u8 voter_index ++ enc_bytes32 voter_address ++
      encode_qc highest_qc ++ enc_var_bytes signature
  | NewView slot highest_qc voter_address signature =>
      enc_u8 TAG_CONSENSUS_NEW_VIEW ++ enc_u64 slot ++ encode_qc highest_qc ++ enc_bytes32 voter_address ++
      enc_var_bytes signature
  | QcAnnounce qc => enc_u8 TAG_CONSENSUS_QC_ANNOUNCE ++ encode_qc qc
  end.

Definition dec_consensus_message : Dec ConsensusMessage :=
  msg_tag <-- dec_u8 ;;
  if msg_tag =? TAG_CONSENSUS_PROPOSAL then
    header <-- (b <-- dec_var_bytes ;; lift_result (decode_block_header b)) ;;
    proposer_signature <-- dec_var_bytes ;;
    ret (Proposal header proposer_signature)
  else if msg_tag =? TAG_CONSENSUS_VOTE then
    slot <-- dec_u64 ;;
    block_hash <-- dec_bytes32 ;;
    voter_index <-- dec_u8 ;;
    voter_address <-- dec_bytes32 ;;
    signature <-- dec_var_bytes ;;
    ret (Vote slot block_hash voter_index voter_address signature)
  else if msg_tag =? TAG_CONSENSUS_TIMEOUT then
    slot <-- dec_u64 ;;
    voter_index <-- dec_u8 ;;
    voter_address <-- dec_bytes32 ;;
    highest_qc <-- decode_qc ;;
    signature <-- dec_var_bytes ;;
    ret (Timeout slot voter_index voter_address highest_qc signature)
  else if msg_tag =? TAG_CONSENSUS_NEW_VIEW then
    slot <-- dec_u64 ;;
    highest_qc <-- decode_qc ;;
    voter_address <-- dec_bytes32 ;;
    signature <-- dec_var_bytes ;;
    ret (NewView slot highest_qc voter_address signature)
  else if msg_tag =? TAG_CONSENSUS_QC_ANNOUNCE then
    qc <-- decode_qc ;; ret (QcAnnounce qc)
  else throw "unknown consensus message tag".

Definition decode_consensus_message : list Z -> Result ConsensusMessage string := decode_with dec_consensus_message.

(** ** Persisted consensus state *)

Definition CONSENSUS_STATE_VERSION : Z := 3.

Definition encode_consensus_state (st : ConsensusState) : list Z :=
  enc_u8 CONSENSUS_STATE_VERSION ++ enc_u64 (current_slot st) ++ enc_u64 (current_epoch st) ++ encode_qc (highest_qc st) ++
  enc_u64 (last_voted_slot st) ++ enc_u64 (last_voted_view st) ++ enc_bytes32 (last_committed_hash st) ++
  enc_u64 (last_committed_slot st) ++ enc_u64 (target_height st) ++ enc_u64 (current_view st) ++
  enc_list16 (fun m => enc_var_bytes (encode_consensus_message m)) (pending_votes st) ++
  enc_list16 (fun m => enc_var_bytes (encode_consensus_message m)) (pending_timeouts st).

Definition dec_consensus_state : Dec ConsensusState :=
  _ <-- expect_tag CONSENSUS_STATE_VERSION "unsupported consensus state version" ;;
  current_slot <-- dec_u64 ;;
  current_epoch <-- dec_u64 ;;
  highest_qc <-- decode_qc ;;
  last_voted_slot <-- dec_u64 ;;
  last_voted_view <-- dec_u64 ;;
  last_committed_hash <-- dec_bytes32 ;;
  last_committed_slot <-- dec_u64 ;;
  target_height <-- dec_u64 ;;
  current_view <-- dec_u64 ;;
  pending_votes <-- dec_list16 MAX_PENDING_CONSENSUS_PER_STATE
                      (b <-- dec_var_bytes ;; lift_result (decode_consensus_message b)) ;;
  pending_timeouts <-- dec_list16 MAX_PENDING_CONSENSUS_PER_STATE
                         (b <-- dec_var_bytes ;; lift_result (decode_consensus_message b)) ;;
  ret (mkConsensus current_slot current_epoch highest_qc last_voted_slot last_voted_view last_committed_hash
         last_committed_slot target_height current_view pending_votes pending_timeouts).

Definition decode_consensus_state : list Z -> Result ConsensusState string := decode_with dec_consensus_state.

(** ** Slashing evidence *)

Definition encode_double_sign_evidence (ev : SlashEvidence) : list Z :=
  enc_u8 EVIDENCE_VERSION ++ enc_u64 (ev_slot ev) ++ enc_bytes32 (block_hash_1 ev) ++ enc_var_bytes (signature_1 ev) ++
  enc_bytes32 (block_hash_2 ev) ++ enc_var_bytes (signature_2 ev) ++ enc_bytes32 (signer ev) ++ enc_bytes32 (submitter ev).

Definition dec_double_sign_evidence : Dec SlashEvidence :=
  _ <-- expect_tag EVIDENCE_VERSION "unsupported double-sign evidence version" ;;
  slot <-- dec_u64 ;;
  block_hash_1 <-- dec_bytes32 ;;
  signature_1 <-- dec_var_bytes ;;
  block_hash_2 <-- dec_bytes32 ;;
  signature_2 <-- dec_var_bytes ;;
  signer <-- dec_bytes32 ;;
  submitter <-- dec_bytes32 ;;
  ret (mkEvidence slot block_hash_1 signature_1 block_hash_2 signature_2 signer submitter).

Definition decode_double_sign_evidence : list Z -> Result SlashEvidence string := decode_with dec_double_sign_evidence.

Definition encode_slash_evidence_msg (ev : SlashEvidence) : list Z :=
  [TAG_CONSENSUS_SLASH_EVIDENCE] ++ encode_double_sign_evidence ev.

Definition decode_slash_evidence_msg (data : list Z) : Result SlashEvidence string :=
  match data with
  | [] => Err "empty slash-evidence gossip message"
  | t :: rest =>
      if negb (t =? TAG_CONSENSUS_SLASH_EVIDENCE) then Err "not a slash-evidence gossip message"
      else decode_double_sign_evidence rest
  end.

Record EvidenceState : Type := mkEvidenceState {
  es_pending : list SlashEvidence;
  es_broadcast : list SlashEvidence;
  es_seen : list (Z * Address)
}.

Definition EVIDENCE_STATE_VERSION : Z := 1.

Definition encode_evidence_state (st : EvidenceState) : list Z :=
  enc_u8 EVIDENCE_STATE_VERSION ++
  enc_list16 (fun ev => enc_var_bytes (encode_double_sign_evidence ev)) (es_pending st) ++
  enc_list16 (fun ev => enc_var_bytes (encode_double_sign_evidence ev)) (es_broadcast st) ++
  enc_list32 (fun x => enc_u64 x.1 ++ enc_bytes32 x.2) (es_seen st).

Definition dec_evidence_state : Dec EvidenceState :=
  _ <-- expect_tag EVIDENCE_STATE_VERSION "unsupported evidence state version" ;;
  pending <-- dec_list16 MAX_EVIDENCE_BACKLOG (b <-- dec_var_bytes ;; lift_result (decode_double_sign_evidence b)) ;;
  broadcast <-- dec_list16 MAX_EVIDENCE_BACKLOG (b <-- dec_var_bytes ;; lift_result (decode_double_sign_evidence b)) ;;
  seen <-- dec_list32 MAX_EVIDENCE_SEEN (slot <-- dec_u64 ;; addr <-- dec_bytes32 ;; ret (slot, addr)) ;;
  ret (mkEvidenceState pending broadcast seen).

Definition decode_evidence_state : list Z -> Result EvidenceState string := decode_with dec_evidence_state.

(** ** Finality *)

Definition encode_finality_vote (v : FinalityVote) : list Z :=
  enc_u8 TAG_CONSENSUS_FINALITY_VOTE ++ enc_u64 (fv_slot v) ++ enc_bytes32 (fv_block_hash v) ++
  enc_bytes32 (fv_state_root v) ++ enc_u8 (fv_voter_index v) ++ enc_bytes32 (fv_voter_address v) ++
  enc_var_bytes (fv_signature v).

Definition dec_finality_vote : Dec FinalityVote :=
  _ <-- expect_tag TAG_CONSENSUS_FINALITY_VOTE "not a finality vote" ;;
  slot <-- dec_u64 ;;
  block_hash <-- dec_bytes32 ;;
  state_root <-- dec_bytes32 ;;
  voter_index <-- dec_u8 ;;
  voter_address <-- dec_bytes32 ;;
  signature <-- dec_var_bytes ;;
  ret (mkFinalityVote slot block_hash state_root voter_index voter_address signature).

Definition decode_finality_vote : list Z -> Result FinalityVote string := decode_with dec_finality_vote.

Definition encode_finality_checkpoint (cp : FinalityCheckpoint) : list Z :=
  enc_u64 (cp_slot cp) ++ enc_raw (cp_block_hash cp) ++ enc_raw (cp_state_root cp) ++ enc_u64 (hc_slot (cp_cert cp)) ++
  enc_raw (hc_block_hash (cp_cert cp)) ++ enc_raw (hc_state_root (cp_cert cp)) ++
  enc_raw (le_encode 16 (hc_voter_bitmap (cp_cert cp))) ++ enc_list32 enc_var_bytes (hc_signatures (cp_cert cp)).

Definition dec_finality_checkpoint : Dec FinalityCheckpoint :=
  slot <-- dec_u64 ;;
  block_hash <-- dec_raw 32 ;;
  state_root <-- dec_raw 32 ;;
  cert_slot <-- dec_u64 ;;
  cert_block_hash <-- dec_raw 32 ;;
  cert_state_root <-- dec_raw 32 ;;
  bitmap_bytes <-- dec_raw 16 ;;
  signatures <-- dec_list32 COMMITTEE_SIZE dec_var_bytes ;;
  ret (mkCheckpoint slot block_hash state_root
         (mkHardCert cert_slot cert_block_hash cert_state_root (le_decode bitmap_bytes) signatures)).

Definition decode_finality_checkpoint : list Z -> Result FinalityCheckpoint string := decode_with dec_finality_checkpoint.

Definition encode_finality_checkpoint_msg (cp : FinalityCheckpoint) : list Z :=
  [TAG_CONSENSUS_FINALITY_CHECKPOINT] ++ encode_finality_checkpoint cp.

Definition decode_finality_checkpoint_msg (data : list Z) : Result FinalityCheckpoint string :=
  match data with
  | [] => Err "not a finality checkpoint message"
  | t :: rest =>
      if negb (t =? TAG_CONSENSUS_FINALITY_CHECKPOINT) then Err "not a finality checkpoint message"
      else decode_finality_checkpoint rest
  end.

(** ** Epoch rounds *)

Definition encode_randomness_share (epoch : Z) (share : RandomnessShare) : list Z :=
  enc_u8 TAG_RANDOMNESS_SHARE ++ enc_u64 epoch ++ enc_u8 (validator_index share) ++ enc_bytes32 (share_address share) ++
  enc_var_bytes (share_output share) ++ enc_var_bytes (share_proof share).

Definition dec_randomness_share : Dec (Z * RandomnessShare) :=
  _ <-- expect_tag TAG_RANDOMNESS_SHARE "not a randomness share" ;;
  epoch <-- dec_u64 ;;
  validator_index <-- dec_u8 ;;
  address <-- dec_bytes32 ;;
  output_bytes <-- dec_var_bytes ;;
  proof_bytes <-- dec_var_bytes ;;
  vrf_output <-- lift_result (match VrfOutput_from_hash_bytes output_bytes with
                              | Some o => Ok o | None => Err "vrf_output is not 32 bytes" end) ;;
  ret (epoch, mkShare validator_index address vrf_output proof_bytes).

Definition decode_randomness_share : list Z -> Result (Z * RandomnessShare) string := decode_with dec_randomness_share.

Definition encode_pss_refresh (epoch : Z) (contribution_bytes : list Z) : list Z :=
  enc_u8 TAG_PSS_REFRESH ++ enc_u64 epoch ++ enc_var_bytes contribution_bytes.

Definition decode_pss_refresh : list Z -> Result (Z * list Z) string := decode_with (
  _ <-- expect_tag TAG_PSS_REFRESH "not a PSS refresh" ;;
  epoch <-- dec_u64 ;;
  contribution <-- dec_var_bytes ;;
  ret (epoch, contribution)).

Definition encode_resharing (target_epoch : Z) (contribution_bytes : list Z) : list Z :=
  enc_u8 TAG_COMMITTEE_RESHARING ++ enc_u64 target_epoch ++ enc_var_bytes contribution_bytes.

Definition decode_resharing : list Z -> Result (Z * list Z) string := decode_with (
  _ <-- expect_tag TAG_COMMITTEE_RESHARING "not a resharing" ;;
  target_epoch <-- dec_u64 ;;
  contribution <-- dec_var_bytes ;;
  ret (target_epoch, contribution)).

Record ReshareState : Type := mkReshare {
  rs_target_epoch : Z;
  rs_new_index : Z;
  aggregation_trigger_slot : Z;
  aggregated : bool;
  broadcast_start_slot : Z;
  pending_rebroadcast : option (Z * list Z);
  new_committee_keys : list (list Z)
}.

Definition enc_pending (p : option (Z * list Z)) : list Z :=
  match p with Some (epoch, bytes) => enc_u8 1 ++ enc_u64 epoch ++ enc_var_bytes bytes | None => enc_u8 0 end.

Definition dec_pending : Dec (option (Z * list Z)) :=
  flag <-- dec_u8 ;;
  if negb (flag =? 0) then epoch <-- dec_u64 ;; bytes <-- dec_var_bytes ;; ret (Some (epoch, bytes)) else ret None.

Definition encode_reshare_state (s : ReshareState) : list Z :=
  enc_u64 (rs_target_epoch s) ++ enc_u64 (rs_new_index s) ++ enc_u64 (aggregation_trigger_slot s) ++
  enc_bool (aggregated s) ++ enc_u64 (broadcast_start_slot s) ++ enc_pending (pending_rebroadcast s) ++
  enc_list32 enc_var_bytes (new_committee_keys s).

Definition dec_reshare_state : Dec ReshareState :=
  target_epoch <-- dec_u64 ;;
  new_index <-- dec_u64 ;;
  aggregation_trigger_slot <-- dec_u64 ;;
  aggregated <-- dec_u8 ;;
  broadcast_start_slot <-- dec_u64 ;;
  pending_rebroadcast <-- dec_pending ;;
  new_committee_keys <-- dec_list32 COMMITTEE_SIZE dec_var_bytes ;;
  ret (mkReshare target_epoch new_index aggregation_trigger_slot (negb (aggregated =? 0)) broadcast_start_slot
         pending_rebroadcast new_committee_keys).

Definition decode_reshare_state : list Z -> Result ReshareState string := decode_with dec_reshare_state.

(** ** Block propagation *)

Record CompactBlock : Type := mkCompact {
  cb_header : list Z;
  short_tx_ids : list (list Z);
  prefilled_txs : list (Z * list Z);
  cb_nonce : Z;
  group_ids : list Z
}.

Definition encode_compact_block (cb : CompactBlock) : list Z :=
  enc_u8 TAG_COMPACT_BLOCK ++ enc_var_bytes (cb_header cb) ++ enc_u64 (cb_nonce cb) ++
  enc_list32 enc_raw (short_tx_ids cb) ++ enc_list16 (fun x => enc_u16 x.1 ++ enc_var_bytes x.2) (prefilled_txs cb) ++
  enc_list32 enc_u16 (group_ids cb).

Definition dec_compact_block : Dec CompactBlock :=
  _ <-- expect_tag TAG_COMPACT_BLOCK "not a compact block" ;;
  header <-- dec_var_bytes ;;
  nonce <-- dec_u64 ;;
  short_tx_ids <-- dec_list32 WIRE_MAX_TXS_PER_BLOCK (dec_raw SHORT_ID_LEN) ;;
  prefilled_txs <-- dec_list16 WIRE_MAX_TXS_PER_BLOCK (idx <-- dec_u16 ;; bytes <-- dec_var_bytes ;; ret (idx, bytes)) ;;
  gid_count <-- dec_u32_count WIRE_MAX_TXS_PER_BLOCK ;;
  if negb (gid_count =? 0) && negb (gid_count =? len short_tx_ids) then throw "group_ids length mismatch"
  else
    group_ids <-- dec_many (Z.to_nat gid_count) dec_u16 ;;
    ret (mkCompact header short_tx_ids prefilled_txs nonce group_ids).

Definition decode_compact_block : list Z -> Result CompactBlock string := decode_with dec_compact_block.

Record EncryptedTxBundle : Type := mkBundle {
  eb_slot : Z;
  eb_block_hash : list Z;
  eb_encrypted_txs : list (list Z)
}.

Definition encode_encrypted_tx_bundle (b : EncryptedTxBundle) : list Z :=
  enc_u8 TAG_ENCRYPTED_TX_BUNDLE ++ enc_u64 (eb_slot b) ++ enc_bytes32 (eb_block_hash b) ++
  enc_list32 enc_var_bytes (eb_encrypted_txs b).

Definition dec_encrypted_tx_bundle : Dec EncryptedTxBundle :=
  _ <-- expect_tag TAG_ENCRYPTED_TX_BUNDLE "not an encrypted-tx bundle message" ;;
  slot <-- dec_u64 ;;
  block_hash <-- dec_bytes32 ;;
  encrypted_txs <-- dec_list32 WIRE_MAX_TXS_PER_BLOCK dec_var_bytes ;;
  ret (mkBundle slot block_hash encrypted_txs).

Definition decode_encrypted_tx_bundle : list Z -> Result EncryptedTxBundle string := decode_with dec_encrypted_tx_bundle.

Record DecryptionShareMsg : Type := mkShares {
  ds_slot : Z;
  member_index : Z;
  ds_shares : list (list Z)
}.

Definition encode_decryption_shares (m : DecryptionShareMsg) : list Z :=
  enc_u8 TAG_DECRYPTION_SHARES ++ enc_u64 (ds_slot m) ++ enc_u8 (member_index m) ++ enc_list16 enc_var_bytes (ds_shares m).

Definition dec_decryption_shares : Dec DecryptionShareMsg :=
  _ <-- expect_tag TAG_DECRYPTION_SHARES "not a decryption shares message" ;;
  slot <-- dec_u64 ;;
  member_index <-- dec_u8 ;;
  shares <-- dec_list16 MAX_ENCRYPTED_TXS_PER_BLOCK dec_var_bytes ;;
  ret (mkShares slot member_index shares).

Definition decode_decryption_shares : list Z -> Result DecryptionShareMsg string := decode_with dec_decryption_shares.

(** [schedule_to_group_ids]: the label of each transaction is its group. *)
Definition label_tx (label : Z) (out : list Z) (tx_idx : nat) : list Z := <[tx_idx := label]> out.

Definition schedule_to_group_ids (groups : list (list nat)) (total_txs : Z) : list Z :=
  if max_of u16 <? len groups then []
  else
    let '(_, out) :=
      foldl (fun '(gidx, out) group => (gidx + 1, foldl (label_tx (wrap u16 gidx)) out group))
        (0, replicate (Z.to_nat total_txs) 0) groups in
    out.

(** [by_group.entry(gid).or_default().push(tx_idx)], the map as its sorted list. *)
Fixpoint push_index (m : list (Z * list nat)) (gid : Z) (tx_idx : nat) : list (Z * list nat) :=
  match m with
  | [] => [(gid, [tx_idx])]
  | (g, l) :: rest =>
      if gid <? g then (gid, [tx_idx]) :: m
      else if gid =? g then (g, l ++ [tx_idx]) :: rest
      else (g, l) :: push_index rest gid tx_idx
  end.

Definition group_ids_to_schedule (group_ids : list Z) : list (list nat) * Z :=
  let '(_, by_group) :=
    foldl (fun '(i, m) gid => (S i, push_index m gid i)) (0%nat, []) group_ids in
  (snd <$> by_group, len group_ids).
