(* ===== verification/NodeWireProps.v ===== *)
(** * Round trips of the wire formats

    What the decoders of [NodeWire] make of the encoders' output, and what the
    limit on the signatures of a certificate means for large committees. *)

From stdpp Require Import base numbers list option strings sets sorting.
From Stdlib Require Import ZArith Lia.
From S2P Require Import Prelude Crypto Wire Nonce Account Transaction Multisig Handlers HandlerProps Chain.
From S2P Require Import Validation Store ViewChange HotStuff Accountability Finality Randomness Codec NodeWire.

#[local] Open Scope Z_scope.
#[local] Open Scope pyde_scope.

Lemma decodes_tag (t : Z) (msg : string) : decodes (expect_tag t msg) tt (enc_u8 t).
Proof. intros rest. unfold expect_tag, bind, enc_u8. cbn. by rewrite Z.eqb_refl. Qed.

Lemma decodes_var_list16 (max : Z) (l : list (list Z)) :
  len l <= max -> max < 2 ^ 16 -> Forall fits32 l -> decodes (dec_list16 max dec_var_bytes) l (enc_list16 enc_var_bytes l).
Proof. intros Hm Hx F. apply decodes_list16; [done|lia|]. eapply Forall_impl; [exact F|]. apply decodes_var_bytes. Qed.

Lemma decodes_var_list32 (max : Z) (l : list (list Z)) :
  len l <= max -> max < 2 ^ 32 -> Forall fits32 l -> decodes (dec_list32 max dec_var_bytes) l (enc_list32 enc_var_bytes l).
Proof. intros Hm Hx F. apply decodes_list32; [done|lia|]. eapply Forall_impl; [exact F|]. apply decodes_var_bytes. Qed.

Lemma decodes_key_list (max : Z) (l : list (list Z)) :
  len l <= max -> max < 2 ^ 16 -> Forall h256 l -> decodes (dec_list16 max dec_bytes32) l (enc_list16 enc_bytes32 l).
Proof. intros Hm Hx F. apply decodes_list16; [done|lia|]. eapply Forall_impl; [exact F|]. apply decodes_bytes32. Qed.

Lemma decodes_raw32 (b : list Z) : h256 b -> decodes (dec_raw 32) b (enc_raw b).
Proof. apply decodes_bytes32. Qed.

(** A list of messages, each behind its length. *)
Lemma decodes_nested_list16 {A : Type} (max : Z) (decode : list Z -> Result A string) (w : A -> list Z) (l : list A) :
  len l <= max -> max < 2 ^ 16 -> Forall (fun a => fits32 (w a) /\ decode (w a) = Ok a) l ->
  decodes (dec_list16 max (b <-- dec_var_bytes ;; lift_result (decode b))) l (enc_list16 (fun a => enc_var_bytes (w a)) l).
Proof.
  intros Hm Hx F. apply decodes_list16; [done|lia|]. eapply Forall_impl; [exact F|]. intros a []. by apply decodes_nested.
Qed.

Lemma decodes_nested_list32 {A : Type} (max : Z) (decode : list Z -> Result A string) (w : A -> list Z) (l : list A) :
  len l <= max -> max < 2 ^ 32 -> Forall (fun a => fits32 (w a) /\ decode (w a) = Ok a) l ->
  decodes (dec_list32 max (b <-- dec_var_bytes ;; lift_result (decode b))) l (enc_list32 (fun a => enc_var_bytes (w a)) l).
Proof.
  intros Hm Hx F. apply decodes_list32; [done|lia|]. eapply Forall_impl; [exact F|]. intros a []. by apply decodes_nested.
Qed.

(** A field that is read when at least [n] bytes are left. *)
Lemma decodes_if_left {A B : Type} (n : Z) (p q : Dec A) (k : A -> Dec B) (a : A) (b : B) (bs cs : list Z) :
  n <= len bs -> decodes p a bs -> decodes (k a) b cs ->
  decodes (left <-- dec_remaining ;; x <-- (if n <=? left then p else q) ;; k x) b (bs ++ cs).
Proof.
  intros Hn Pd K rest. unfold dec_remaining, gets. unfold bind at 1.
  assert ((n <=? len ((bs ++ cs) ++ rest)) = true) as -> by (apply Z.leb_le; unfold len in *; rewrite !length_app; lia).
  by apply decodes_bind with a.
Qed.

#[export] Hint Resolve decodes_tag decodes_raw32 : codec.
#[export] Hint Extern 3 (decodes (dec_list16 _ dec_var_bytes) _ _) =>
  apply decodes_var_list16; [assumption|vm_compute; done|assumption] : codec.
#[export] Hint Extern 3 (decodes (dec_list32 _ dec_var_bytes) _ _) =>
  apply decodes_var_list32; [assumption|vm_compute; done|assumption] : codec.
#[export] Hint Extern 3 (decodes (dec_list16 _ dec_bytes32) _ _) =>
  apply decodes_key_list; [assumption|vm_compute; done|assumption] : codec.
#[export] Hint Extern 3 (decodes (dec_list16 _ (bind dec_var_bytes _)) _ _) =>
  apply decodes_nested_list16; [assumption|vm_compute; done|assumption] : codec.
#[export] Hint Extern 3 (decodes (dec_list32 _ (bind dec_var_bytes _)) _ _) =>
  apply decodes_nested_list32; [assumption|vm_compute; done|assumption] : codec.

(** ** Certificates and headers *)

Record wire_qc (qc : QuorumCert) : Prop := {
  wq_slot : in_range u64 (qc_slot qc);
  wq_hash : h256 (qc_block_hash qc);
  wq_bitmap : in_range u128 (voter_bitmap qc);
  wq_count : len (qc_signatures qc) <= MAX_SIGNERS;
  wq_sigs : Forall fits32 (qc_signatures qc)
}.

Lemma decodes_qc (qc : QuorumCert) : wire_qc qc -> decodes decode_qc qc (encode_qc qc).
Proof. intros []. destruct qc. unfold decode_qc, encode_qc. cbn in *. codec. Qed.
#[export] Hint Resolve decodes_qc : codec.

Record wire_header (h : BlockHeader) : Prop := {
  wh_slot : in_range u64 (slot h);
  wh_epoch : in_range u64 (epoch h);
  wh_parent : h256 (parent_hash h);
  wh_proposer : h256 (proposer h);
  wh_vrf : fits32 (vrf_proof h);
  wh_qc : wire_qc (qc_previous h);
  wh_tx_root : h256 (tx_root h);
  wh_state_root : h256 (state_root h);
  wh_timestamp : in_range u64 (timestamp h);
  wh_fits : fits32 (encode_block_header h)
}.

Lemma decodes_header (h : BlockHeader) : wire_header h -> decodes dec_block_header h (encode_block_header h).
Proof. intros []. destruct h. unfold dec_block_header, encode_block_header. cbn in *. codec. Qed.

Lemma header_decodes (h : BlockHeader) : wire_header h -> decode_block_header (encode_block_header h) = Ok h.
Proof. intros W. by apply decodes_decode, decodes_header. Qed.
#[export] Hint Resolve header_decodes wh_fits : codec.

(** ** Transactions *)

Record wire_entry (e : AccessEntry) : Prop := {
  wy_address : h256 (entry_address e);
  wy_reads : Forall h256 (reads e) /\ len (reads e) <= MAX_ACCESS_KEYS_PER_ENTRY;
  wy_writes : Forall h256 (writes e) /\ len (writes e) <= MAX_ACCESS_KEYS_PER_ENTRY
}.

Lemma decodes_entry (e : AccessEntry) : wire_entry e -> decodes decode_access_entry e (encode_access_entry e).
Proof. intros [? [] []]. destruct e. unfold decode_access_entry, encode_access_entry. cbn in *. codec. Qed.

Lemma decodes_payer (f : FeePayer) : wf_payer f -> decodes dec_fee_payer f (enc_fee_payer f).
Proof.
  intros W. destruct f; unfold dec_fee_payer, enc_fee_payer; cbn in W; [eapply decodes_last|eapply decodes_bind..];
    (apply decodes_u8 || idtac); cbn; codec.
Qed.

Definition wire_deadline (d : option Z) : Prop := match d with Some d => in_range u64 d | None => True end.

Lemma decodes_deadline (d : option Z) : wire_deadline d -> decodes dec_deadline d (enc_deadline d).
Proof.
  intros W. destruct d; unfold dec_deadline, enc_deadline; cbn in W; [eapply decodes_bind|eapply decodes_last];
    (apply decodes_u8 || idtac); cbn; codec.
Qed.
#[export] Hint Resolve decodes_payer decodes_deadline : codec.

Record wire_tx (tx : Transaction) : Prop := {
  wx_from : h256 (Tx.from tx);
  wx_to : h256 (Tx.to tx);
  wx_value : in_range u128 (Tx.value tx);
  wx_data : fits32 (Tx.data tx);
  wx_gas : in_range u64 (Tx.gas_limit tx);
  wx_nonce : in_range u64 (Tx.nonce tx);
  wx_signature : fits32 (Tx.signature tx);
  wx_payer : wf_payer (Tx.fee_payer tx);
  wx_access : Forall wire_entry (Tx.access_list tx) /\ len (Tx.access_list tx) <= MAX_ACCESS_LIST_ENTRIES;
  wx_deadline : wire_deadline (Tx.deadline tx);
  wx_chain : in_range u64 (Tx.chain_id tx);
  wx_fits : fits32 (encode_transaction tx)
}.

Lemma decodes_access (l : list AccessEntry) :
  Forall wire_entry l -> len l <= MAX_ACCESS_LIST_ENTRIES ->
  decodes (dec_list16 MAX_ACCESS_LIST_ENTRIES decode_access_entry) l (enc_list16 encode_access_entry l).
Proof.
  intros F H. apply decodes_list16; [done|unfold MAX_ACCESS_LIST_ENTRIES in H; lia|]. eapply Forall_impl; [exact F|]. apply decodes_entry.
Qed.
#[export] Hint Resolve decodes_access : codec.

Lemma decodes_tx (tx : Transaction) : wire_tx tx -> decodes dec_transaction tx (encode_transaction tx).
Proof.
  intros []. destruct tx. unfold dec_transaction, encode_transaction. cbn in *. destruct wx_access0.
  repeat codec_step. rewrite TransactionType_codec. codec.
Qed.

Lemma tx_decodes (tx : Transaction) : wire_tx tx -> fits32 (encode_transaction tx) /\ decode_transaction (encode_transaction tx) = Ok tx.
Proof. intros W. split; [apply W|by apply decodes_decode, decodes_tx]. Qed.

(** ** Blocks *)

Record wire_block (b : Block) : Prop := {
  wb_header : wire_header (header b);
  wb_signature : fits32 (proposer_signature b);
  wb_txs : Forall wire_tx (transactions (body b)) /\ len (transactions (body b)) <= WIRE_MAX_TXS_PER_BLOCK;
  wb_encrypted : Forall fits32 (encrypted_txs (body b)) /\ len (encrypted_txs (body b)) <= WIRE_MAX_TXS_PER_BLOCK;
  wb_groups : len (groups (body b)) < 2 ^ 16 /\
    Forall (fun g => len g < 2 ^ 16 /\ Forall (fun i => Z.of_nat i < 2 ^ 32) g) (groups (body b));
  wb_total : total_txs (body b) = len (transactions (body b))
}.

Lemma decodes_group (g : list nat) :
  len g < 2 ^ 16 -> Forall (fun i => Z.of_nat i < 2 ^ 32) g -> decodes dec_group g (enc_group g).
Proof.
  intros Hl F. apply decodes_list16; [unfold WIRE_MAX_TXS_PER_BLOCK; lia|done|].
  eapply Forall_impl; [exact F|]. intros i Hi. cbn in Hi. eapply decodes_last; [apply decodes_u32; unfold in_range; cbn; lia|].
  rewrite Nat2Z.id. apply decodes_ret.
Qed.

Lemma len_enc_list {A : Type} (w : A -> list Z) (l : list A) : 2 <= len (enc_list16 w l) /\ 4 <= len (enc_list32 w l).
Proof.
  unfold enc_list16, enc_list32, enc_u16, enc_u32, len. rewrite !length_app, !length_le_encode. lia.
Qed.

Lemma decodes_block (b : Block) : wire_block b -> decodes dec_block b (encode_block b).
Proof.
  intros [Wh Ws [Wt Lt] [We Le] [Lg Wg] Tot]. destruct b as [h [txs etxs grs tot] sig]. cbn in *. subst tot.
  unfold dec_block, encode_block. cbn [header body transactions encrypted_txs groups proposer_signature].
  eapply decodes_bind; [apply decodes_tag|]. eapply decodes_bind; [apply decodes_nested; [by apply wh_fits|by apply header_decodes]|].
  eapply decodes_bind; [by apply decodes_var_bytes|]. eapply decodes_bind.
  { apply decodes_nested_list32; [done|done|]. eapply Forall_impl; [exact Wt|]. apply tx_decodes. }
  eapply decodes_if_left; [apply len_enc_list|by apply decodes_var_list32|].
  rewrite <- (app_nil_r (enc_list16 enc_group grs)).
  eapply decodes_if_left; [apply len_enc_list| |apply decodes_ret].
  apply decodes_list16; [unfold WIRE_MAX_TXS_PER_BLOCK; lia|done|]. eapply Forall_impl; [exact Wg|]. intros g []. by apply decodes_group.
Qed.

(** [C35] A block survives the network: for a block whose fields have the widths of
    their types and fit the decoder's limits, [decode_block] gives back exactly
    what [encode_block] was given, transactions, encrypted blobs and schedule
    included, and ignores whatever follows. *)
Theorem block_wire_roundtrip (b : Block) (rest : list Z) :
  wire_block b -> decode_block (encode_block b ++ rest) = Ok b.
Proof. intros W. unfold decode_block, decode_with. by rewrite (decodes_block b W). Qed.

(** ** Consensus messages *)

Definition wire_msg (m : ConsensusMessage) : Prop :=
  match m with
  | Proposal h sig => wire_header h /\ fits32 sig
  | Vote slot h _ a sig => in_range u64 slot /\ h256 h /\ h256 a /\ fits32 sig
  | Timeout slot _ a qc sig => in_range u64 slot /\ h256 a /\ wire_qc qc /\ fits32 sig
  | NewView slot qc a sig => in_range u64 slot /\ wire_qc qc /\ h256 a /\ fits32 sig
  | QcAnnounce qc => wire_qc qc
  end.

Lemma decodes_message (m : ConsensusMessage) : wire_msg m -> decodes dec_consensus_message m (encode_consensus_message m).
Proof.
  intros W. unfold dec_consensus_message.
  destruct m; cbn [wire_msg encode_consensus_message] in *; (eapply decodes_bind; [apply decodes_u8|]); cbn [Z.eqb Pos.eqb TAG_CONSENSUS_PROPOSAL];
    repeat match goal with H : _ /\ _ |- _ => destruct H end;
    repeat match goal with |- decodes (if ?c then _ else _) _ _ => change c with true || change c with false; cbv iota end; codec.
Qed.

Lemma message_decodes (m : ConsensusMessage) : wire_msg m -> decode_consensus_message (encode_consensus_message m) = Ok m.
Proof. intros W. by apply decodes_decode, decodes_message. Qed.

Record wire_state (st : ConsensusState) : Prop := {
  ws_slots : Forall (in_range u64) [current_slot st; current_epoch st; last_voted_slot st; last_voted_view st;
               last_committed_slot st; target_height st; current_view st];
  ws_qc : wire_qc (highest_qc st);
  ws_hash : h256 (last_committed_hash st);
  ws_votes : Forall (fun m => wire_msg m /\ fits32 (encode_consensus_message m)) (pending_votes st);
  ws_votes_len : len (pending_votes st) <= MAX_PENDING_CONSENSUS_PER_STATE;
  ws_timeouts : Forall (fun m => wire_msg m /\ fits32 (encode_consensus_message m)) (pending_timeouts st);
  ws_timeouts_len : len (pending_timeouts st) <= MAX_PENDING_CONSENSUS_PER_STATE
}.

Lemma messages_decode (l : list ConsensusMessage) :
  Forall (fun m => wire_msg m /\ fits32 (encode_consensus_message m)) l ->
  Forall (fun m => fits32 (encode_consensus_message m) /\ decode_consensus_message (encode_consensus_message m) = Ok m) l.
Proof. intros F. eapply Forall_impl; [exact F|]. intros m []. split; [done|by apply message_decodes]. Qed.

(** Consensus messages and the persisted consensus state survive encoding.
    A message whose fields have the widths of their types, and whose
    certificates have at most 16 signatures, is decoded to itself; and so is a
    state with at most 512 pending votes and timeouts, so a validator that
    restarts has the last slot and view it voted in, and the voting rule still
    keeps it from voting twice. *)
Theorem consensus_roundtrip (m : ConsensusMessage) (st : ConsensusState) :
  (wire_msg m -> decode_consensus_message (encode_consensus_message m) = Ok m) /\
  (wire_state st -> decode_consensus_state (encode_consensus_state st) = Ok st).
Proof.
  split; [apply message_decodes|]. intros [S Q H V Lv T Lt]. apply messages_decode in V, T.
  rewrite !Forall_cons in S. destruct S as (? & ? & ? & ? & ? & ? & ? & _).
  apply decodes_decode. unfold dec_consensus_state, encode_consensus_state. destruct st. cbn in *. codec.
Qed.

(** ** A certificate with too many signatures *)

Definition fails {A : Type} (p : Dec A) (bs : list Z) (e : string) : Prop := forall rest, (p (bs ++ rest)).2 = Err e.

Lemma fails_decode {A : Type} (p : Dec A) (bs : list Z) (e : string) : fails p bs e -> decode_with p bs = Err e.
Proof. intros F. unfold decode_with. by rewrite <- (app_nil_r bs), F. Qed.

Lemma fails_here {A B : Type} (p : Dec A) (k : A -> Dec B) (bs cs : list Z) (e : string) :
  fails p bs e -> fails (bind p k) (bs ++ cs) e.
Proof.
  intros F rest. rewrite <- app_assoc. specialize (F (cs ++ rest)). unfold bind. destruct (p (bs ++ cs ++ rest)) as [s' r].
  cbn in F. by subst r.
Qed.

Lemma fails_later {A B : Type} (p : Dec A) (k : A -> Dec B) (a : A) (bs cs : list Z) (e : string) :
  decodes p a bs -> fails (k a) cs e -> fails (bind p k) (bs ++ cs) e.
Proof. intros D F rest. rewrite <- app_assoc. unfold bind. rewrite D. apply F. Qed.

Ltac fail_step := eapply fails_later; [solve [eauto with codec]|].

Definition TOO_MANY : string := "decoded count exceeds max".

(** The fields of a certificate, however many signatures it has. *)
Definition any_qc (qc : QuorumCert) : Prop :=
  in_range u64 (qc_slot qc) /\ h256 (qc_block_hash qc) /\ in_range u128 (voter_bitmap qc).

Lemma qc_fails (qc : QuorumCert) : any_qc qc -> MAX_SIGNERS < len (qc_signatures qc) < 2 ^ 16 -> fails decode_qc (encode_qc qc) TOO_MANY.
Proof.
  intros (S & H & B) L. unfold decode_qc, encode_qc. do 3 fail_step. rewrite <- (app_nil_r (enc_list16 _ _)). apply fails_here.
  unfold dec_list16, enc_list16. apply fails_here. intros rest. unfold dec_u16_count, bind.
  rewrite (decodes_u16 (len (qc_signatures qc))) by (unfold in_range, len in *; cbn; lia).
  by destruct (Z.ltb_spec MAX_SIGNERS (len (qc_signatures qc))); [|lia].
Qed.

Record any_header (h : BlockHeader) : Prop := {
  ah_slot : in_range u64 (slot h);
  ah_epoch : in_range u64 (epoch h);
  ah_parent : h256 (parent_hash h);
  ah_proposer : h256 (proposer h);
  ah_vrf : fits32 (vrf_proof h);
  ah_qc : any_qc (qc_previous h);
  ah_fits : fits32 (encode_block_header h)
}.

Lemma header_fails (h : BlockHeader) :
  any_header h -> MAX_SIGNERS < len (qc_signatures (qc_previous h)) < 2 ^ 16 ->
  decode_block_header (encode_block_header h) = Err TOO_MANY.
Proof.
  intros [] L. apply fails_decode. unfold dec_block_header, encode_block_header. do 5 fail_step. by apply fails_here, qc_fails.
Qed.

Lemma nested_fails {A : Type} (decode : list Z -> Result A string) (b : list Z) (e : string) :
  fits32 b -> decode b = Err e -> fails (b <-- dec_var_bytes ;; lift_result (decode b)) (enc_var_bytes b) e.
Proof. intros H E rest. unfold bind. rewrite (decodes_var_bytes b H). cbn. by rewrite E. Qed.

Section Committee.
Context {P : Primitives}.

Lemma quorum_signatures (qc : QuorumCert) (keys : list (list Z)) (chain : Z) :
  25 <= len keys <= COMMITTEE_SIZE -> qc_signatures qc <> [] -> verify_qc qc keys chain = true ->
  MAX_SIGNERS < len (qc_signatures qc) < 2 ^ 16.
Proof.
  intros Hn Ne V. apply verify_qc_iff in V as [[_ ?]|(_ & Q & F)]; [done|]. apply Forall2_length in F.
  assert (len (qc_signatures qc) = vote_count qc) as -> by (unfold vote_count, count_ones, len; by rewrite <- F).
  apply Z.leb_le in Q. unfold quorum_for_committee in Q. destruct (Z.eqb_spec (len keys) 0); [lia|].
  assert (vote_count qc <= 128) as B.
  { unfold vote_count, count_ones, len. pose proof (length_filter (fun i => Z.testbit (voter_bitmap qc) (Z.of_nat i) = true) (seq 0 128)).
    rewrite length_seq in H. lia. }
  unfold MAX_SIGNERS. assert (17 <= (2 * len keys + 2) / 3) by (apply Z.div_le_lower_bound; lia). lia.
Qed.

(** Finding: a committee of more than 24 members cannot exchange its
    certificates.  [decode_qc] limits the signatures to [MAX_SIGNERS], the limit
    of 16 signers of the governance multisig, while a quorum of 25 members has 17
    votes (and one of the full committee 86).  Every certificate with votes that
    such a committee's members accept with [verify_qc] is refused on the wire:
    in a block, a header, a proposal, a timeout, a new view, an announcement, and
    in the consensus state that the validator itself has persisted. *)
Theorem large_committee_cannot_gossip (qc : QuorumCert) (keys : list (list Z)) (chain : Z) :
  25 <= len keys <= COMMITTEE_SIZE -> qc_signatures qc <> [] -> verify_qc qc keys chain = true -> any_qc qc ->
  (forall h sig, any_header h -> qc_previous h = qc ->
     decode_block_header (encode_block_header h) = Err TOO_MANY /\
     decode_consensus_message (encode_consensus_message (Proposal h sig)) = Err TOO_MANY /\
     forall body, decode_block (encode_block (mkBlk h body sig)) = Err TOO_MANY) /\
  (forall slot i a sig, in_range u64 slot -> h256 a ->
     decode_consensus_message (encode_consensus_message (Timeout slot i a qc sig)) = Err TOO_MANY /\
     decode_consensus_message (encode_consensus_message (NewView slot qc a sig)) = Err TOO_MANY) /\
  decode_consensus_message (encode_consensus_message (QcAnnounce qc)) = Err TOO_MANY /\
  (forall st, in_range u64 (current_slot st) -> in_range u64 (current_epoch st) -> highest_qc st = qc ->
     decode_consensus_state (encode_consensus_state st) = Err TOO_MANY).
Proof.
  intros Hn Ne V A. pose proof (quorum_signatures qc keys chain Hn Ne V) as L. pose proof (qc_fails qc A L) as F.
  split_and!.
  - intros h sig Ah <-. pose proof (header_fails h Ah L) as Fh. split_and!; [done| |].
    + apply fails_decode. unfold dec_consensus_message. cbn [encode_consensus_message]. fail_step.
      by apply fails_here, nested_fails; [apply ah_fits|].
    + intros body. apply fails_decode. unfold dec_block, encode_block. fail_step. by apply fails_here, nested_fails; [apply ah_fits|].
  - intros slot i a sig Hs Ha. split; apply fails_decode; unfold dec_consensus_message; cbn [encode_consensus_message]; fail_step.
    + do 3 fail_step. by apply fails_here.
    + fail_step. by apply fails_here.
  - apply fails_decode. unfold dec_consensus_message. cbn [encode_consensus_message]. fail_step.
    rewrite <- (app_nil_r (encode_qc qc)). by apply fails_here.
  - intros st H1 H2 <-. apply fails_decode. unfold dec_consensus_state, encode_consensus_state. do 3 fail_step. by apply fails_here.
Qed.
End Committee.

(** ** The other messages *)

Lemma decodes_evidence (ev : SlashEvidence) : wf_evidence ev -> decodes dec_double_sign_evidence ev (encode_double_sign_evidence ev).
Proof.
  intros []. destruct ev. unfold dec_double_sign_evidence, encode_double_sign_evidence. cbn in *. codec.
Qed.

Lemma evidence_decodes (ev : SlashEvidence) : wf_evidence ev -> decode_double_sign_evidence (encode_double_sign_evidence ev) = Ok ev.
Proof. intros W. by apply decodes_decode, decodes_evidence. Qed.

Record wire_evidence (st : EvidenceState) : Prop := {
  wv_pending : Forall (fun ev => wf_evidence ev /\ fits32 (encode_double_sign_evidence ev)) (es_pending st);
  wv_pending_len : len (es_pending st) <= MAX_EVIDENCE_BACKLOG;
  wv_broadcast : Forall (fun ev => wf_evidence ev /\ fits32 (encode_double_sign_evidence ev)) (es_broadcast st);
  wv_broadcast_len : len (es_broadcast st) <= MAX_EVIDENCE_BACKLOG;
  wv_seen : Forall (fun x => in_range u64 x.1 /\ h256 x.2) (es_seen st) /\ len (es_seen st) <= MAX_EVIDENCE_SEEN
}.

Lemma evidences_decode (l : list SlashEvidence) :
  Forall (fun ev => wf_evidence ev /\ fits32 (encode_double_sign_evidence ev)) l ->
  Forall (fun ev => fits32 (encode_double_sign_evidence ev) /\
    decode_double_sign_evidence (encode_double_sign_evidence ev) = Ok ev) l.
Proof. intros F. eapply Forall_impl; [exact F|]. intros ev []. split; [done|by apply evidence_decodes]. Qed.

Lemma decodes_seen (l : list (Z * Address)) :
  Forall (fun x => in_range u64 x.1 /\ h256 x.2) l -> len l <= MAX_EVIDENCE_SEEN ->
  decodes (dec_list32 MAX_EVIDENCE_SEEN (slot <-- dec_u64 ;; addr <-- dec_bytes32 ;; ret (slot, addr))) l
    (enc_list32 (fun x => enc_u64 x.1 ++ enc_bytes32 x.2) l).
Proof. intros F H. apply decodes_list32; [done|done|]. eapply Forall_impl; [exact F|]. intros [x a] [? ?]. cbn in *. codec. Qed.
#[export] Hint Resolve decodes_seen : codec.

Record wire_checkpoint (cp : FinalityCheckpoint) : Prop := {
  wc_slots : in_range u64 (cp_slot cp) /\ in_range u64 (hc_slot (cp_cert cp));
  wc_hashes : h256 (cp_block_hash cp) /\ h256 (cp_state_root cp) /\ h256 (hc_block_hash (cp_cert cp)) /\ h256 (hc_state_root (cp_cert cp));
  wc_bitmap : in_range u128 (hc_voter_bitmap (cp_cert cp));
  wc_count : len (hc_signatures (cp_cert cp)) <= COMMITTEE_SIZE;
  wc_sigs : Forall fits32 (hc_signatures (cp_cert cp))
}.

Lemma decodes_bitmap {B : Type} (k : Z -> Dec B) (x : Z) (b : B) (cs : list Z) :
  in_range u128 x -> decodes (k x) b cs -> decodes (bytes <-- dec_raw 16 ;; k (le_decode bytes)) b (enc_raw (le_encode 16 x) ++ cs).
Proof.
  intros R K. eapply decodes_bind; [apply decodes_raw; unfold enc_raw, len; by rewrite length_le_encode|].
  unfold enc_raw. by rewrite le_decode_encode.
Qed.

Lemma decodes_checkpoint (cp : FinalityCheckpoint) : wire_checkpoint cp -> decodes dec_finality_checkpoint cp (encode_finality_checkpoint cp).
Proof.
  intros [[] (? & ? & ? & ?) ? ? ?]. destruct cp as [s h r [s' h' r' bm sigs]]. unfold dec_finality_checkpoint, encode_finality_checkpoint.
  cbn in *. do 6 codec_step.
  apply (decodes_bitmap (fun bm => signatures <-- dec_list32 COMMITTEE_SIZE dec_var_bytes ;;
    ret (mkCheckpoint s h r (mkHardCert s' h' r' bm signatures)))); [done|]. codec.
Qed.

Record wire_reshare (s : ReshareState) : Prop := {
  wr_slots : Forall (in_range u64) [rs_target_epoch s; rs_new_index s; aggregation_trigger_slot s; broadcast_start_slot s];
  wr_pending : match pending_rebroadcast s with Some (e, b) => in_range u64 e /\ fits32 b | None => True end;
  wr_count : len (new_committee_keys s) <= COMMITTEE_SIZE;
  wr_keys : Forall fits32 (new_committee_keys s)
}.

Lemma decodes_pending (p : option (Z * list Z)) :
  match p with Some (e, b) => in_range u64 e /\ fits32 b | None => True end -> decodes dec_pending p (enc_pending p).
Proof.
  intros W. destruct p as [[e b]|]; unfold dec_pending, enc_pending; [destruct W; eapply decodes_bind|eapply decodes_last];
    (apply decodes_u8 || idtac); cbn; codec.
Qed.

Lemma decodes_reshare (s : ReshareState) : wire_reshare s -> decodes dec_reshare_state s (encode_reshare_state s).
Proof.
  intros [S Pd C K]. rewrite !Forall_cons in S. destruct S as (? & ? & ? & ? & _). apply decodes_pending in Pd.
  unfold dec_reshare_state, encode_reshare_state. destruct s as [? ? ? g ? ? ?]. cbn in *. do 3 codec_step.
  eapply decodes_bind; [apply decodes_u8|]. replace (negb ((if g then 1 else 0) =? 0)) with g by by destruct g. codec.
Qed.

(** What a validator persists it reads back: the evidence queues, the
    weak-subjectivity checkpoint and the state of a resharing are decoded to what
    was encoded, within the limits of the decoder. *)
Theorem persisted_state_roundtrip (es : EvidenceState) (cp : FinalityCheckpoint) (rs : ReshareState) :
  (wire_evidence es -> decode_evidence_state (encode_evidence_state es) = Ok es) /\
  (wire_checkpoint cp -> decode_finality_checkpoint (encode_finality_checkpoint cp) = Ok cp /\
    decode_finality_checkpoint_msg (encode_finality_checkpoint_msg cp) = Ok cp) /\
  (wire_reshare rs -> decode_reshare_state (encode_reshare_state rs) = Ok rs).
Proof.
  split_and!.
  - intros [F1 ? F2 ? [? ?]]. apply evidences_decode in F1, F2. apply decodes_decode.
    unfold dec_evidence_state, encode_evidence_state. destruct es. cbn in *. codec.
  - intros W. assert (decode_finality_checkpoint (encode_finality_checkpoint cp) = Ok cp) as E
      by by apply decodes_decode, decodes_checkpoint. split; [done|exact E].
  - intros W. by apply decodes_decode, decodes_reshare.
Qed.

(** One evidence format: the node's decoder and the slash handler's decoder
    read the same evidence from the node's encoding, bare and in a gossip
    message, so what a validator gossips is what the transaction it includes is
    judged by. *)
Theorem evidence_formats_agree (ev : SlashEvidence) :
  wf_evidence ev ->
  decode_double_sign_evidence (encode_double_sign_evidence ev) = Ok ev /\
  decode_slash_evidence_msg (encode_slash_evidence_msg ev) = Ok ev /\
  decode_slash_evidence (encode_double_sign_evidence ev) = Ok ev.
Proof.
  intros W. pose proof (evidence_decodes ev W) as E. split_and!; [done|exact E|]. by apply evidence_roundtrip.
Qed.

(** ** The execution schedule in a compact block *)

Definition same_group (gs : list (list nat)) (i j : nat) : Prop := exists g, g ∈ gs /\ i ∈ g /\ j ∈ g.

Lemma label_group (v : Z) (l : list nat) (out : list Z) (i : nat) :
  (i < length out)%nat -> foldl (label_tx v) out l !! i = if decide (i ∈ l) then Some v else out !! i.
Proof.
  revert out. induction l as [|x l IH]; intros out Hi; cbn [foldl]; [done|].
  rewrite IH by (unfold label_tx; by rewrite length_insert). unfold label_tx. repeat case_decide; try set_solver.
  - assert (i = x) as -> by set_solver. by rewrite list_lookup_insert_eq.
  - rewrite list_lookup_insert_ne; [done|set_solver].
Qed.

Lemma label_group_length (v : Z) (l : list nat) (out : list Z) : length (foldl (label_tx v) out l) = length out.
Proof. revert out. induction l as [|x l IH]; intros out; cbn [foldl]; [done|]. rewrite IH. apply length_insert. Qed.

Lemma label_groups (gs : list (list nat)) (k : Z) (out : list Z) :
  NoDup (concat gs) -> Forall (fun i => i < length out)%nat (concat gs) ->
  let r := foldl (fun '(gidx, out) group => (gidx + 1, foldl (label_tx (wrap u16 gidx)) out group)) (k, out) gs in
  length r.2 = length out /\
  (forall i, i ∉ concat gs -> (i < length out)%nat -> r.2 !! i = out !! i) /\
  (forall g l i, gs !! g = Some l -> i ∈ l -> r.2 !! i = Some (wrap u16 (k + Z.of_nat g))).
Proof.
  revert k out. induction gs as [|g gs IH]; intros k out N F; cbn [foldl]; [done|].
  cbn [concat] in N, F. apply NoDup_app in N as (Ng & D & Ns). apply Forall_app in F as [Fg Fs].
  rewrite <- (label_group_length (wrap u16 k) g out) in Fs. destruct (IH (k + 1) _ Ns Fs) as (L & U & G).
  rewrite label_group_length in L, U. split; [done|]. split.
  - intros i Hi Hl. cbn [concat] in Hi. rewrite U by set_solver. rewrite label_group by done. by case_decide; [set_solver|].
  - intros [|n] l i; cbn [lookup list_lookup].
    + intros [= <-] Hi. rewrite Forall_forall in Fg. rewrite U by auto. rewrite label_group by auto.
      rewrite decide_True by done. by rewrite Z.add_0_r.
    + intros Hl Hi. rewrite (G n l i Hl Hi). do 2 f_equal. lia.
Qed.

Record labelled (ids : list Z) (m : list (Z * list nat)) : Prop := {
  lb_keys : NoDup m.*1;
  lb_sound g l i : (g, l) ∈ m -> i ∈ l -> ids !! i = Some g;
  lb_all : concat m.*2 ≡ₚ seq 0 (length ids)
}.

Lemma push_index_spec (m : list (Z * list nat)) (gid : Z) (n : nat) :
  (forall g, g ∈ (push_index m gid n).*1 <-> g ∈ m.*1 \/ g = gid) /\
  (forall g l i, (g, l) ∈ push_index m gid n -> i ∈ l -> (i = n /\ g = gid) \/ exists l0, (g, l0) ∈ m /\ i ∈ l0) /\
  concat (push_index m gid n).*2 ≡ₚ n :: concat m.*2.
Proof.
  induction m as [|[g0 l0] m (K & S & C)]; cbn [push_index].
  - split; [set_solver|]. split; [|done]. intros g l i Hm Hi. apply list_elem_of_singleton in Hm. injection Hm as -> ->. set_solver.
  - destruct (Z.ltb_spec gid g0); [|destruct (Z.eqb_spec gid g0) as [->|]].
    + split; [set_solver|]. split; [|done]. intros g l i [[= -> ->]|Hm]%elem_of_cons Hi; [set_solver|eauto].
    + split; [set_solver|]. split.
      * intros g l i [[= -> ->]|Hm]%elem_of_cons Hi; [|right; exists l; set_solver].
        apply elem_of_app in Hi as [Hi|Hi]; [right; exists l0; set_solver|set_solver].
      * cbn. rewrite <- app_assoc. cbn. by rewrite Permutation_middle.
    + split; [set_solver|]. split.
      * intros g l i [[= -> ->]|Hm]%elem_of_cons Hi; [right; exists l0; set_solver|].
        destruct (S g l i Hm Hi) as [?|(l1 & ? & ?)]; [by left|right; exists l1; set_solver].
      * cbn. rewrite C. by rewrite Permutation_middle.
Qed.

Lemma push_index_sorted (m : list (Z * list nat)) (gid : Z) (n : nat) :
  StronglySorted Z.lt m.*1 -> StronglySorted Z.lt (push_index m gid n).*1.
Proof.
  induction m as [|[g0 l0] m IH]; intros S; cbn [push_index]; [repeat constructor|]. inversion S as [|? ? S' F]; subst.
  destruct (Z.ltb_spec gid g0) as [L|L]; [|destruct (Z.eqb_spec gid g0)].
  - cbn. constructor; [done|]. constructor; [done|]. eapply Forall_impl; [exact F|]. cbn. lia.
  - done.
  - cbn. constructor; [by apply IH|]. apply Forall_forall. intros g Hg. apply push_index_spec in Hg as [Hg| ->]; [|lia].
    rewrite Forall_forall in F. by apply F.
Qed.

Lemma rebuild_labelled (ids : list Z) :
  let r := foldl (fun '(i, m) gid => (S i, push_index m gid i)) (0%nat, []) ids in
  r.1 = length ids /\ StronglySorted Z.lt r.2.*1 /\ labelled ids r.2.
Proof.
  induction ids as [|gid ids IH] using rev_ind; [split; [done|]; split; [constructor|]; split; [constructor|set_solver|done]|].
  rewrite foldl_app. cbn [foldl]. destruct (foldl _ _ ids) as [i m]. cbn [fst snd] in IH. destruct IH as (-> & S & [K Sd A]).
  cbn [fst snd]. rewrite length_app. split; [cbn; lia|]. pose proof (push_index_sorted m gid (length ids) S) as S'.
  split; [done|]. destruct (push_index_spec m gid (length ids)) as (_ & Sp & C). split.
  - clear -S'. induction S' as [|x l _ IH F]; constructor; [|done]. intros Hx. rewrite Forall_forall in F. specialize (F x Hx). lia.
  - intros g l i Hm Hi. destruct (Sp g l i Hm Hi) as [[-> ->]|(l0 & Hl0 & Hi')].
    + rewrite lookup_app_r by lia. by rewrite Nat.sub_diag.
    + apply lookup_app_l_Some. by apply (Sd g l0).
  - rewrite C, A, length_app. cbn [length]. rewrite seq_app. cbn. rewrite Permutation_app_comm. done.
Qed.

Lemma elem_of_concat {A : Type} (ls : list (list A)) (x : A) : x ∈ concat ls <-> exists l, x ∈ l /\ l ∈ ls.
Proof. induction ls as [|l ls IH]; cbn; [set_solver|]. rewrite elem_of_app, IH. set_solver. Qed.

Lemma concat_groups (gs : list (list nat)) (i : nat) : i ∈ concat gs <-> exists g l, gs !! g = Some l /\ i ∈ l.
Proof.
  rewrite elem_of_concat. split.
  - intros (l & Hi & (g & Hg)%list_elem_of_lookup). eauto.
  - intros (g & l & Hg & Hi). exists l. split; [done|]. by apply list_elem_of_lookup_2 with g.
Qed.

(** The labels of a schedule that has every transaction in one group. *)
Lemma schedule_labels (gs : list (list nat)) (n : Z) :
  0 <= n -> concat gs ≡ₚ seq 0 (Z.to_nat n) -> len gs <= max_of u16 ->
  let ids := schedule_to_group_ids gs n in
  len ids = n /\ forall g l i, gs !! g = Some l -> i ∈ l -> ids !! i = Some (Z.of_nat g).
Proof.
  intros Hn C L. unfold schedule_to_group_ids. destruct (Z.ltb_spec (max_of u16) (len gs)); [lia|].
  destruct (label_groups gs 0 (replicate (Z.to_nat n) 0)) as (Ln & _ & G).
  { rewrite C. apply NoDup_seq. }
  { rewrite C, length_replicate. apply Forall_forall. intros i Hi%elem_of_seq. lia. }
  destruct (foldl _ _ gs) as [k out]. cbn [snd] in *. rewrite length_replicate in Ln. split; [unfold len; lia|].
  intros g l i Hg Hi. rewrite (G g l i Hg Hi), Z.add_0_l. f_equal. apply lookup_lt_Some in Hg.
  apply wrap_small. unfold in_range, len, max_of in *. cbn in *. lia.
Qed.

(** The schedule survives the compact block.  For a schedule of at most 65535
    groups that has each of the [n] transactions in exactly one group, the labels
    that a compact block carries rebuild, at the receiver, a schedule for [n]
    transactions that again has each in exactly one group, and in which two
    transactions are in a common group exactly when they were for the proposer. *)
Theorem schedule_survives_compaction (gs : list (list nat)) (n : Z) :
  0 <= n -> concat gs ≡ₚ seq 0 (Z.to_nat n) -> len gs <= max_of u16 ->
  let '(gs', n') := group_ids_to_schedule (schedule_to_group_ids gs n) in
  n' = n /\ concat gs' ≡ₚ seq 0 (Z.to_nat n) /\ forall i j, same_group gs i j <-> same_group gs' i j.
Proof.
  intros Hn C L. destruct (schedule_labels gs n Hn C L) as [Ln G]. set (ids := schedule_to_group_ids gs n) in *. clearbody ids.
  unfold group_ids_to_schedule. destruct (rebuild_labelled ids) as (_ & _ & Lb). destruct (foldl _ _ ids) as [k m]. cbn [snd] in Lb.
  destruct Lb as [K Sd A]. assert (length ids = Z.to_nat n) as Ln' by (unfold len in Ln; lia). rewrite Ln' in A.
  split; [done|]. split; [done|].
  assert (forall i, i ∈ concat gs -> exists g l, (g, l) ∈ m /\ i ∈ l) as In.
  { intros i Hi. rewrite C, <- A in Hi. apply elem_of_concat in Hi as (l & Hi & ([g l'] & -> & Hm)%list_elem_of_fmap). eauto. }
  intros i j. split.
  - intros (l & (g & Hg)%list_elem_of_lookup & Hi & Hj).
    destruct (In i) as (gi & li & Mi & Ii); [apply concat_groups; eauto|].
    destruct (In j) as (gj & lj & Mj & Ij); [apply concat_groups; eauto|].
    pose proof (Sd _ _ _ Mi Ii) as Ei. pose proof (Sd _ _ _ Mj Ij) as Ej. rewrite (G g l) in Ei, Ej by done.
    assert (gj = gi) as -> by congruence.
    assert (li = lj) as ->.
    { apply list_elem_of_lookup in Mi as [x Mi], Mj as [y Mj].
      assert (m.*1 !! x = Some gi /\ m.*1 !! y = Some gi) as [Kx Ky] by (rewrite !list_lookup_fmap, Mi, Mj; done).
      rewrite (NoDup_lookup _ _ _ _ K Kx Ky) in Mi. congruence. }
    exists lj. split; [|done]. apply list_elem_of_fmap. by exists (gi, lj).
  - intros (l & ([g l'] & -> & Hm)%list_elem_of_fmap & Hi & Hj). cbn in *.
    assert (forall x, x ∈ l' -> x ∈ concat gs) as Inc.
    { intros x Hx. rewrite C, <- A. apply elem_of_concat. exists l'. split; [done|]. apply list_elem_of_fmap. by exists (g, l'). }
    destruct (proj1 (concat_groups gs i) (Inc i Hi)) as (gi & li & Gi & Ii).
    destruct (proj1 (concat_groups gs j) (Inc j Hj)) as (gj & lj & Gj & Ij).
    pose proof (Sd _ _ _ Hm Hi) as Ei. pose proof (Sd _ _ _ Hm Hj) as Ej. rewrite (G gi li i Gi Ii) in Ei. rewrite (G gj lj j Gj Ij) in Ej.
    assert (gi = gj) as -> by (injection Ei; injection Ej; lia). exists li. split; [by apply list_elem_of_lookup_2 with gj|].
    split; [done|]. congruence.
Qed.

(** ** Gossip *)

Lemma decodes_short_ids (l : list (list Z)) :
  Forall (fun b => len b = SHORT_ID_LEN) l -> len l <= WIRE_MAX_TXS_PER_BLOCK ->
  decodes (dec_list32 WIRE_MAX_TXS_PER_BLOCK (dec_raw SHORT_ID_LEN)) l (enc_list32 enc_raw l).
Proof. intros F H. apply decodes_list32; [done|done|]. eapply Forall_impl; [exact F|]. intros b ?. by apply decodes_raw. Qed.

Lemma decodes_prefilled (l : list (Z * list Z)) :
  Forall (fun x => in_range u16 x.1 /\ fits32 x.2) l -> len l < 2 ^ 16 ->
  decodes (dec_list16 WIRE_MAX_TXS_PER_BLOCK (idx <-- dec_u16 ;; bytes <-- dec_var_bytes ;; ret (idx, bytes))) l
    (enc_list16 (fun x => enc_u16 x.1 ++ enc_var_bytes x.2) l).
Proof.
  intros F H. apply decodes_list16; [unfold WIRE_MAX_TXS_PER_BLOCK; lia|done|]. eapply Forall_impl; [exact F|].
  intros [x b] [? ?]. cbn in *. codec.
Qed.

Record wire_compact (cb : CompactBlock) : Prop := {
  wk_header : fits32 (cb_header cb);
  wk_nonce : in_range u64 (cb_nonce cb);
  wk_ids : Forall (fun b => len b = SHORT_ID_LEN) (short_tx_ids cb) /\ len (short_tx_ids cb) <= WIRE_MAX_TXS_PER_BLOCK;
  wk_prefilled : Forall (fun x => in_range u16 x.1 /\ fits32 x.2) (prefilled_txs cb) /\ len (prefilled_txs cb) < 2 ^ 16;
  wk_groups : Forall (in_range u16) (group_ids cb) /\ (group_ids cb = [] \/ len (group_ids cb) = len (short_tx_ids cb))
}.

Lemma decodes_compact (cb : CompactBlock) : wire_compact cb -> decodes dec_compact_block cb (encode_compact_block cb).
Proof.
  intros [? ? [? ?] [? ?] [Fg Lg]]. unfold dec_compact_block, encode_compact_block. destruct cb as [hd ids pre non gids]. cbn in *.
  do 3 codec_step. eapply decodes_bind; [by apply decodes_short_ids|]. eapply decodes_bind; [by apply decodes_prefilled|].
  assert (0 <= len gids <= WIRE_MAX_TXS_PER_BLOCK) as B.
  { destruct Lg as [-> | ->]; [done|]. split; [unfold len; lia|done]. }
  unfold enc_list32. eapply decodes_bind.
  { unfold dec_u32_count. eapply decodes_last; [apply decodes_u32; unfold in_range, WIRE_MAX_TXS_PER_BLOCK in *; cbn; lia|].
    destruct (Z.ltb_spec WIRE_MAX_TXS_PER_BLOCK (len gids)); [lia|apply decodes_ret]. }
  assert (negb (len gids =? 0) && negb (len gids =? len ids) = false) as ->.
  { destruct Lg as [-> | ->]; [done|]. by rewrite Z.eqb_refl, andb_false_r. }
  eapply decodes_last; [|apply decodes_ret]. unfold len. rewrite Nat2Z.id. apply decodes_many. eapply Forall_impl; [exact Fg|].
  apply decodes_u16.
Qed.

(** Gossip is decoded to what was sent: finality votes, randomness shares
    (with an output of 32 bytes), refresh and resharing contributions, bundles of
    encrypted transactions, up to 100 decryption shares, and compact blocks whose
    group labels are absent or as many as the transactions. *)
Theorem gossip_roundtrip :
  (forall v, in_range u64 (fv_slot v) -> h256 (fv_block_hash v) -> h256 (fv_state_root v) -> h256 (fv_voter_address v) ->
     fits32 (fv_signature v) -> decode_finality_vote (encode_finality_vote v) = Ok v) /\
  (forall e s, in_range u64 e -> h256 (share_address s) -> len (share_output s) = 32 -> fits32 (share_proof s) ->
     decode_randomness_share (encode_randomness_share e s) = Ok (e, s)) /\
  (forall e b, in_range u64 e -> fits32 b ->
     decode_pss_refresh (encode_pss_refresh e b) = Ok (e, b) /\ decode_resharing (encode_resharing e b) = Ok (e, b)) /\
  (forall b, in_range u64 (eb_slot b) -> h256 (eb_block_hash b) -> Forall fits32 (eb_encrypted_txs b) ->
     len (eb_encrypted_txs b) <= WIRE_MAX_TXS_PER_BLOCK -> decode_encrypted_tx_bundle (encode_encrypted_tx_bundle b) = Ok b) /\
  (forall m, in_range u64 (ds_slot m) -> Forall fits32 (ds_shares m) -> len (ds_shares m) <= MAX_ENCRYPTED_TXS_PER_BLOCK ->
     decode_decryption_shares (encode_decryption_shares m) = Ok m) /\
  (forall cb, wire_compact cb -> decode_compact_block (encode_compact_block cb) = Ok cb).
Proof.
  split_and!.
  - intros [] ? ? ? ? ?. cbn in *. apply decodes_decode. unfold dec_finality_vote, encode_finality_vote. cbn. codec.
  - intros e [i a o pf] ? ? Lo ?. cbn in *. apply decodes_decode. unfold dec_randomness_share, encode_randomness_share. cbn.
    assert (fits32 o) by (unfold fits32; lia). do 6 codec_step.
    eapply decodes_last; [apply decodes_lift|apply decodes_ret]. unfold VrfOutput_from_hash_bytes. by rewrite Lo.
  - intros e b ? ?. split; apply decodes_decode; unfold encode_pss_refresh, encode_resharing; codec.
  - intros [] ? ? ? ?. cbn in *. apply decodes_decode. unfold dec_encrypted_tx_bundle, encode_encrypted_tx_bundle. cbn. codec.
  - intros [] ? ? ?. cbn in *. apply decodes_decode. unfold dec_decryption_shares, encode_decryption_shares. cbn. codec.
  - intros cb W. by apply decodes_decode, decodes_compact.
Qed.

(** ** Witnesses *)

Definition toy_tx : Transaction :=
  Tx.mkTx alice bob 5 [1; 2] 21000 7 (replicate 600 3) (GasTank bob) [mkAccess bob [H256_zero] []] (Some 99) DEVNET Standard.

Definition toy_block : Block :=
  mkBlk (fallback_header 5 1 QuorumCert_empty) (mkBody [toy_tx; toy_tx] [[9; 9]] [[1%nat]; [0%nat]] 2) [4].

Lemma toy_entry_wire : wire_entry (mkAccess bob [H256_zero] []).
Proof. split; [reflexivity|split; [constructor; [reflexivity|constructor]|discriminate]|split; [constructor|discriminate]]. Qed.

Lemma toy_tx_wire : wire_tx toy_tx.
Proof.
  split; try (vm_compute; reflexivity); try (split; [discriminate|reflexivity]).
  split; [constructor; [apply toy_entry_wire|constructor]|discriminate].
Qed.

Lemma block_wire_roundtrip_witness : decode_block (encode_block toy_block ++ [1; 2; 3]) = Ok toy_block.
Proof.
  apply (block_wire_roundtrip toy_block [1; 2; 3]). split.
  - split; try (vm_compute; reflexivity); try (split; [discriminate|reflexivity]).
    split; [split; [discriminate|reflexivity]|reflexivity|split; [discriminate|reflexivity]|discriminate|constructor].
  - reflexivity.
  - split; [constructor; [apply toy_tx_wire|constructor; [apply toy_tx_wire|constructor]]|discriminate].
  - split; [constructor; [reflexivity|constructor]|discriminate].
  - split; [reflexivity|]. do 2 (constructor; [split; [reflexivity|constructor; [reflexivity|constructor]]|]). constructor.
  - reflexivity.
Defined.

Lemma large_committee_cannot_gossip_witness :
  let keys := replicate 25 (replicate 897 0) in
  let sig := match toy_sign (proposer_sign_message 7 5 H256_zero) with Ok sig => sig | Err _ => [] end in
  let qc := mkQC 5 H256_zero (2 ^ 17 - 1) (replicate 17 sig) in
  verify_qc qc keys 7 = true /\ decode_consensus_message (encode_consensus_message (QcAnnounce qc)) = Err TOO_MANY.
Proof.
  intros keys sig qc. assert (verify_qc qc keys 7 = true) as V by (vm_compute; reflexivity). split; [exact V|].
  apply (large_committee_cannot_gossip qc keys 7); [split; discriminate|discriminate|exact V|].
  split; [split; [discriminate|reflexivity]|]. split; [reflexivity|split; [discriminate|reflexivity]].
Defined.

Lemma evidence_formats_agree_witness :
  decode_slash_evidence (encode_double_sign_evidence double_sign) = Ok double_sign.
Proof.
  apply (evidence_formats_agree double_sign). split; vm_compute; (reflexivity || (split; [discriminate|reflexivity])).
Defined.

Lemma schedule_survives_compaction_witness :
  let gs := [[2; 0]; [1]]%nat in
  group_ids_to_schedule (schedule_to_group_ids gs 3) = ([[0; 2]; [1]]%nat, 3) /\
  (same_group gs 0 2 <-> same_group (group_ids_to_schedule (schedule_to_group_ids gs 3)).1 0 2).
Proof.
  intros gs. assert (group_ids_to_schedule (schedule_to_group_ids gs 3) = ([[0; 2]; [1]]%nat, 3)) as E by (vm_compute; reflexivity).
  assert (concat gs ≡ₚ seq 0 (Z.to_nat 3)) as C.
  { change ([2; 0; 1]%nat ≡ₚ [0; 1; 2]%nat). apply (Permutation_cons_append [0; 1]%nat 2%nat). }
  pose proof (schedule_survives_compaction gs 3 ltac:(discriminate) C ltac:(discriminate)) as T. rewrite E in T |- *.
  destruct T as (_ & _ & S). split; [reflexivity|apply S].
Defined.
