(* ===== verification/Encrypted.v ===== *)
(** * Encrypted transactions

    [mempool/src/encrypted.rs] (the transaction, its hash and its wire format),
    the ciphertext's format of [crypto/src/threshold.rs] and [kyber.rs], the
    ordering of [mempool/src/ordering.rs] and the inclusion audit of
    [mempool/src/inclusion.rs].  Encryption itself is in [Threshold]: here a ciphertext
    is its three parts. *)

From stdpp Require Import base numbers list option strings sets gmap sorting.
From Stdlib Require Import ZArith Lia.
From S2P Require Import Prelude Crypto Wire Nonce Account Transaction Codec NodeWire NodeWireProps.

#[local] Open Scope Z_scope.
#[local] Open Scope pyde_scope.

(** ** Ciphertexts *)

Definition CT_SIZE : Z := 1088.

Definition KyberCiphertext_from_bytes (bytes : list Z) : option (list Z) :=
  if len bytes =? CT_SIZE then Some bytes else None.

Record ThresholdCiphertext : Type := mkCiphertext {
  kyber_ct : list Z;
  encrypted_msg : list Z;
  mac : list Z
}.

Definition encrypted_len (c : ThresholdCiphertext) : Z := len (encrypted_msg c).

Definition ciphertext_to_bytes (c : ThresholdCiphertext) : list Z := kyber_ct c ++ encrypted_msg c ++ mac c.

Definition to_wire_bytes (c : ThresholdCiphertext) : list Z :=
  le_encode 4 (len (kyber_ct c)) ++ kyber_ct c ++ le_encode 4 (len (encrypted_msg c)) ++ encrypted_msg c ++ mac c.

Definition from_wire_bytes (data : list Z) : option ThresholdCiphertext :=
  if len data <? 8 then None
  else
    let ct_len := le_at 0 4 data in
    if len data <? 4 + ct_len + 4 then None
    else
      match KyberCiphertext_from_bytes (slice 4 (Z.to_nat ct_len) data) with
      | None => None
      | Some kyber_ct =>
          let msg_off := 4 + ct_len in
          let msg_len := le_at (Z.to_nat msg_off) 4 data in
          let msg_start := msg_off + 4 in
          if len data <? msg_start + msg_len + 32 then None
          else
            Some (mkCiphertext kyber_ct (slice (Z.to_nat msg_start) (Z.to_nat msg_len) data)
                    (slice (Z.to_nat (msg_start + msg_len)) 32 data))
      end.

#[global] Arguments to_wire_bytes : simpl never.
#[global] Arguments from_wire_bytes : simpl never.

(** ** Encrypted transactions *)

Definition MAX_TX_SIZE : Z := 128 * 1024.
Definition MAX_ACCESS_ENTRIES : Z := 1024.
Definition MAX_KEYS_PER_ACCESS_ENTRY : Z := 1024.
Definition MAX_SIG_LEN : Z := 1024.
Definition MAX_CT_LEN : Z := 72 * 1024.

Record EncryptedTx : Type := mkEtx {
  etx_sender : Address;
  etx_nonce : Z;
  etx_gas_limit : Z;
  etx_access_list : list AccessEntry;
  etx_deadline : option Z;
  etx_chain_id : Z;
  etx_signature : list Z;
  ciphertext : ThresholdCiphertext
}.

Definition etx_size (t : EncryptedTx) : Z :=
  32 + 8 + 8 + len (etx_access_list t) * 68 + 8 + 8 + len (etx_signature t) + encrypted_len (ciphertext t).

Definition etx_to_bytes (t : EncryptedTx) : list Z :=
  enc_bytes32 (etx_sender t) ++ enc_u64 (etx_nonce t) ++ enc_u64 (etx_gas_limit t) ++ enc_u64 (etx_chain_id t) ++
  enc_deadline (etx_deadline t) ++ enc_list32 encode_access_entry (etx_access_list t) ++
  enc_var_bytes (etx_signature t) ++ enc_var_bytes (to_wire_bytes (ciphertext t)).

(** The cursor of [from_bytes] reads as the decoder of the node does; its
    failures are all [None].  Any non-zero flag announces a deadline. *)
Definition dec_etx_deadline : Dec (option Z) :=
  has_deadline <-- dec_u8 ;; if negb (has_deadline =? 0) then d <-- dec_u64 ;; ret (Some d) else ret None.

Definition dec_etx_entry : Dec AccessEntry :=
  address <-- dec_bytes32 ;;
  reads <-- dec_list16 MAX_KEYS_PER_ACCESS_ENTRY dec_bytes32 ;;
  writes <-- dec_list16 MAX_KEYS_PER_ACCESS_ENTRY dec_bytes32 ;;
  ret (mkAccess address reads writes).

Definition dec_capped (max : Z) : Dec (list Z) := n <-- dec_u32_count max ;; dec_raw n.

Definition dec_etx : Dec EncryptedTx :=
  sender <-- dec_bytes32 ;;
  nonce <-- dec_u64 ;;
  gas_limit <-- dec_u64 ;;
  chain_id <-- dec_u64 ;;
  deadline <-- dec_etx_deadline ;;
  access_list <-- dec_list32 MAX_ACCESS_ENTRIES dec_etx_entry ;;
  signature <-- dec_capped MAX_SIG_LEN ;;
  ct_bytes <-- dec_capped MAX_CT_LEN ;;
  ciphertext <-- lift_result (match from_wire_bytes ct_bytes with Some c => Ok c | None => Err "ciphertext" end) ;;
  ret (mkEtx sender nonce gas_limit access_list deadline chain_id signature ciphertext).

Definition etx_from_bytes (data : list Z) : option EncryptedTx :=
  if MAX_TX_SIZE <? len data then None
  else match decode_with dec_etx data with Ok t => Some t | Err _ => None end.

Definition is_expired (t : EncryptedTx) (current_block : Z) : bool :=
  match etx_deadline t with Some d => d <=? current_block | None => false end.

Definition is_oversized (t : EncryptedTx) : bool := MAX_TX_SIZE <? etx_size t.

Section Hash.
Context {P : Primitives}.

Definition etx_hash (t : EncryptedTx) : list Z :=
  poseidon2_hash (etx_sender t ++ le_encode 8 (etx_nonce t) ++ le_encode 8 (etx_gas_limit t) ++
    le_encode 8 (etx_chain_id t) ++ poseidon2_hash (ciphertext_to_bytes (ciphertext t))).

(** ** [ordering.rs] *)

Definition shuffle_seed (vrf_output : list Z) : list Z := poseidon2_hash (bytes_of_string "vrf_shuffle" ++ vrf_output).

Definition prng_at (seed : list Z) (index : nat) : Z :=
  le_decode (take 8 (poseidon2_hash (seed ++ le_encode 8 (Z.of_nat index)))).

(** [v.swap(i, j)], for indices in range. *)
Definition swap {A : Type} (i j : nat) (l : list A) : list A :=
  match l !! i, l !! j with Some x, Some y => <[j := x]> (<[i := y]> l) | _, _ => l end.

(** The loop [for i in (1..n).rev()], from [i] down. *)
Fixpoint shuffle_from (seed : list Z) (i : nat) (indices : list nat) : list nat :=
  match i with
  | O => indices
  | S i' =>
      let j := Z.to_nat (prng_at seed i mod (Z.of_nat i + 1)) in
      shuffle_from seed i' (swap i j indices)
  end.

Definition vrf_shuffle (n : nat) (seed : list Z) : list nat := shuffle_from seed (n - 1) (seq 0 n).

(** [None] is the panic of an index out of bounds. *)
Definition apply_shuffle {A : Type} (items : list A) (permutation : list nat) : option (list A) :=
  mapM (fun i => items !! i) permutation.

Definition verify_shuffle (n : nat) (vrf_output : list Z) (claimed_order : list nat) : bool :=
  if negb (Nat.eqb (length claimed_order) n) then false
  else bool_decide (claimed_order = vrf_shuffle n (shuffle_seed vrf_output)).

(** ** [inclusion.rs] *)

Record InclusionAuditResult : Type := mkAudit {
  missing_older_than_grace : list (list Z);
  gas_used_by_encrypted : Z;
  gas_remaining : Z
}.

Definition is_clean (r : InclusionAuditResult) : bool :=
  match missing_older_than_grace r with [] => true | _ => false end.

Definition audit_inclusion (mempool_view : list (EncryptedTx * Z)) (block_encrypted_tx_hashes : gset (list Z))
    (block_encrypted_gas current_slot grace_slots gas_ceiling : Z) : InclusionAuditResult :=
  let gas_remaining := saturating_sub gas_ceiling block_encrypted_gas in
  let missing :=
    omap (fun '(tx, first_seen) =>
      let age := saturating_sub current_slot first_seen in
      if age <? grace_slots then None
      else
        let h := etx_hash tx in
        if bool_decide (h ∈ block_encrypted_tx_hashes) then None
        else if gas_remaining <? etx_gas_limit tx then None
        else Some h) mempool_view in
  mkAudit missing block_encrypted_gas gas_remaining.

Definition audit_block_inclusion (block_encrypted_tx_bytes : list (list Z)) (mempool_view : list (EncryptedTx * Z))
    (current_slot grace_slots gas_ceiling : Z) : InclusionAuditResult :=
  let '(block_hashes, block_gas) :=
    foldl (fun '(hs, gas) bytes =>
      match etx_from_bytes bytes with
      | Some etx => ({[etx_hash etx]} ∪ hs, saturating_add u64 gas (etx_gas_limit etx))
      | None => (hs, gas)
      end) (∅, 0) block_encrypted_tx_bytes in
  audit_inclusion mempool_view block_hashes block_gas current_slot grace_slots gas_ceiling.
End Hash.

(** ** The wire format *)

Record wf_ciphertext (c : ThresholdCiphertext) : Prop := {
  wf_kyber : len (kyber_ct c) = CT_SIZE;
  wf_mac : h256 (mac c);
  wf_ct_len : len (to_wire_bytes c) <= MAX_CT_LEN
}.

Lemma ciphertext_roundtrip (c : ThresholdCiphertext) : wf_ciphertext c -> from_wire_bytes (to_wire_bytes c) = Some c.
Proof.
  intros [K M L]. unfold MAX_CT_LEN in L. destruct c as [k m t]. cbn [kyber_ct mac] in K, M.
  assert (len (to_wire_bytes (mkCiphertext k m t)) = 40 + len k + len m) as Lw.
  { unfold to_wire_bytes, len, h256 in *. cbn [kyber_ct encrypted_msg mac]. rewrite !length_app, !length_le_encode, M. lia. }
  unfold from_wire_bytes. rewrite Lw in L |- *. unfold to_wire_bytes. cbn [kyber_ct encrypted_msg mac].
  assert (length k = 1088%nat) as Lk by (unfold len, CT_SIZE in K; lia).
  assert (le_at 0 4 (le_encode 4 (len k) ++ k ++ le_encode 4 (len m) ++ m ++ t) = 1088) as ->.
  { wire. rewrite K. reflexivity. }
  rewrite K. unfold CT_SIZE. destruct (Z.ltb_spec (40 + 1088 + len m) 8); [unfold len in *; lia|].
  destruct (Z.ltb_spec (40 + 1088 + len m) (4 + 1088 + 4)); [unfold len in *; lia|].
  change (Z.to_nat 1088) with 1088%nat. change (Z.to_nat (4 + 1088)) with 1092%nat.
  assert (slice 4 1088 (le_encode 4 1088 ++ k ++ le_encode 4 (len m) ++ m ++ t) = k) as -> by by wire.
  unfold KyberCiphertext_from_bytes. rewrite K. cbn [Z.eqb CT_SIZE Pos.eqb].
  assert (le_at 1092 4 (le_encode 4 1088 ++ k ++ le_encode 4 (len m) ++ m ++ t) = len m) as ->.
  { wire. apply le_decode_encode. unfold len, CT_SIZE in *. cbn. lia. }
  destruct (Z.ltb_spec (40 + 1088 + len m) (4 + 1088 + 4 + len m + 32)); [lia|].
  change (Z.to_nat (4 + 1088 + 4)) with 1096%nat. unfold len. rewrite Nat2Z.id.
  replace (Z.to_nat (4 + 1088 + 4 + Z.of_nat (length m))) with (1096 + length m)%nat by lia.
  assert (slice 1096 (length m) (le_encode 4 1088 ++ k ++ le_encode 4 (Z.of_nat (length m)) ++ m ++ t) = m) as -> by by wire.
  do 2 f_equal. set (a := le_encode 4 1088 ++ k ++ le_encode 4 (Z.of_nat (length m)) ++ m).
  replace (le_encode 4 1088 ++ k ++ le_encode 4 (Z.of_nat (length m)) ++ m ++ t) with (a ++ t) by (unfold a; by rewrite <- !app_assoc).
  assert (length a = 1096 + length m)%nat as La by (unfold a; rewrite !length_app, !length_le_encode; lia).
  rewrite slice_skip, La, Nat.sub_diag by lia. by apply slice_all.
Qed.

Record wf_etx (t : EncryptedTx) : Prop := {
  wf_etx_sender : h256 (etx_sender t);
  wf_etx_nonce : in_range u64 (etx_nonce t);
  wf_etx_gas : in_range u64 (etx_gas_limit t);
  wf_etx_chain : in_range u64 (etx_chain_id t);
  wf_etx_deadline : wire_deadline (etx_deadline t);
  wf_etx_access : Forall wire_entry (etx_access_list t) /\ len (etx_access_list t) <= MAX_ACCESS_ENTRIES;
  wf_etx_signature : len (etx_signature t) <= MAX_SIG_LEN;
  wf_etx_ciphertext : wf_ciphertext (ciphertext t);
  wf_etx_total : len (etx_to_bytes t) <= MAX_TX_SIZE
}.

Lemma decodes_etx_deadline (d : option Z) : wire_deadline d -> decodes dec_etx_deadline d (enc_deadline d).
Proof.
  intros W. destruct d; unfold dec_etx_deadline, enc_deadline; cbn in W; [eapply decodes_bind|eapply decodes_last];
    (apply decodes_u8 || idtac); cbn; codec.
Qed.

Lemma decodes_capped (max : Z) (b : list Z) : len b <= max -> max < 2 ^ 32 -> decodes (dec_capped max) b (enc_var_bytes b).
Proof.
  intros H Hm. unfold dec_capped, enc_var_bytes. eapply decodes_bind; [|by apply decodes_raw].
  unfold dec_u32_count. eapply decodes_last; [apply decodes_u32; unfold in_range, len in *; cbn; lia|].
  destruct (Z.ltb_spec max (len b)); [lia|apply decodes_ret].
Qed.

Lemma decodes_etx (t : EncryptedTx) : wf_etx t -> decodes dec_etx t (etx_to_bytes t).
Proof.
  intros [? ? ? ? D [A La] S C _]. apply decodes_etx_deadline in D. unfold dec_etx, etx_to_bytes. destruct t. cbn in *.
  do 4 codec_step. eapply decodes_bind; [done|]. eapply decodes_bind.
  { apply decodes_list32; [done|done|]. eapply Forall_impl; [exact A|]. apply decodes_entry. }
  eapply decodes_bind; [by apply decodes_capped|]. eapply decodes_last; [apply decodes_capped; [apply C|done]|].
  rewrite ciphertext_roundtrip by done. codec.
Qed.

(** An encrypted transaction survives the block: [from_bytes] of [to_bytes]
    is the transaction, ciphertext parts included, for every transaction within
    the limits of the decoder. *)
Theorem etx_roundtrip (t : EncryptedTx) : wf_etx t -> etx_from_bytes (etx_to_bytes t) = Some t.
Proof.
  intros W. unfold etx_from_bytes. destruct (Z.ltb_spec MAX_TX_SIZE (len (etx_to_bytes t))) as [L|_].
  - pose proof (wf_etx_total t W). lia.
  - by rewrite (decodes_decode _ _ _ (decodes_etx t W)).
Qed.

(** ** The order of a block *)

Definition transposed (i j k : nat) : nat := if decide (k = i) then j else if decide (k = j) then i else k.

Lemma swap_perm {A : Type} (i j : nat) (l : list A) : swap i j l ≡ₚ l.
Proof.
  unfold swap. destruct (l !! i) as [x|] eqn:Ei; [|done]. destruct (l !! j) as [y|] eqn:Ej; [|done].
  apply Permutation_inj. split; [by rewrite !length_insert|]. exists (transposed i j). split.
  - intros a b. unfold transposed. repeat case_decide; congruence.
  - intros k. unfold transposed. apply lookup_lt_Some in Ei as Li, Ej as Lj.
    destruct (decide (k = j)) as [->|].
    + rewrite list_lookup_insert_eq by by rewrite length_insert. case_decide; [by subst|done].
    + rewrite list_lookup_insert_ne by done. case_decide as D.
      * subst k. by rewrite list_lookup_insert_eq.
      * by rewrite list_lookup_insert_ne by done.
Qed.

Section Order.
Context {P : Primitives}.

Lemma shuffle_from_perm (seed : list Z) (i : nat) (l : list nat) : shuffle_from seed i l ≡ₚ l.
Proof. revert l. induction i as [|i IH]; intros l; cbn [shuffle_from]; [done|]. by rewrite IH, swap_perm. Qed.

Lemma mapM_lookup_seq {A : Type} (l : list A) : mapM (fun i => l !! i) (seq 0 (length l)) = Some l.
Proof.
  apply mapM_Some_2. apply Forall2_same_length_lookup. rewrite length_seq. split; [done|].
  intros i x y Hx Hy. apply lookup_seq in Hx as [-> _]. done.
Qed.

Lemma mapM_omap {A B : Type} (f : A -> option B) (l : list A) (k : list B) : mapM f l = Some k -> omap f l = k.
Proof.
  revert k. induction l as [|x l IH]; intros k; cbn; [by intros [= <-]|]. destruct (f x) as [y|]; [|done]. cbn.
  destruct (mapM f l) as [k'|]; [|done]. cbn. intros [= <-]. f_equal. by apply IH.
Qed.

Lemma apply_shuffle_perm {A : Type} (items : list A) (order : list nat) :
  order ≡ₚ seq 0 (length items) -> exists shuffled, apply_shuffle items order = Some shuffled /\ shuffled ≡ₚ items.
Proof.
  intros Pm. assert (is_Some (apply_shuffle items order)) as [r E].
  { apply mapM_is_Some_2. rewrite Pm. apply Forall_forall. intros i [_ Hi]%elem_of_seq. by apply lookup_lt_is_Some_2. }
  exists r. split; [done|]. apply mapM_omap in E. subst r. rewrite Pm. by rewrite (mapM_omap _ _ _ (mapM_lookup_seq items)).
Qed.

(** The shuffle is an order of the block.  For any seed, [vrf_shuffle] is a
    permutation of the indices, [apply_shuffle] with it does not panic and gives
    the same transactions in another order, each as often as before, and it is
    the only order that [verify_shuffle] accepts for the output it comes from. *)
Theorem shuffle_is_a_permutation {A : Type} (items : list A) (vrf_output : list Z) (claimed : list nat) :
  let n := length items in
  let order := vrf_shuffle n (shuffle_seed vrf_output) in
  order ≡ₚ seq 0 n /\
  (exists shuffled, apply_shuffle items order = Some shuffled /\ shuffled ≡ₚ items) /\
  (verify_shuffle n vrf_output claimed = true <-> claimed = order).
Proof.
  intros n order. assert (order ≡ₚ seq 0 n) as Pm by apply shuffle_from_perm. split; [done|]. split.
  - by apply apply_shuffle_perm.
  - unfold verify_shuffle. fold order. destruct (Nat.eqb_spec (length claimed) n) as [Ln|Ln]; cbn [negb].
    + apply bool_decide_eq_true.
    + split; [done|]. intros ->. exfalso. apply Ln. apply Permutation_length in Pm. by rewrite length_seq in Pm.
Qed.
End Order.

(** ** Censorship *)

Section Audit.
Context {P : Primitives}.

(** The gas of a block's encrypted transactions, as the audit adds it up. *)
Definition block_gas (txs : list EncryptedTx) : Z := foldl (fun g t => saturating_add u64 g (etx_gas_limit t)) 0 txs.

Lemma block_summary (txs : list EncryptedTx) (hs : gset (list Z)) (g : Z) :
  Forall wf_etx txs ->
  foldl (fun '(hs, gas) bytes =>
      match etx_from_bytes bytes with
      | Some etx => ({[etx_hash etx]} ∪ hs, saturating_add u64 gas (etx_gas_limit etx))
      | None => (hs, gas)
      end) (hs, g) (etx_to_bytes <$> txs) =
  (list_to_set (etx_hash <$> reverse txs) ∪ hs, foldl (fun g t => saturating_add u64 g (etx_gas_limit t)) g txs).
Proof.
  intros F. revert hs g. induction F as [|t txs W _ IH]; intros hs g; cbn [fmap list_fmap foldl].
  - cbn. f_equal. set_solver.
  - assert (etx_from_bytes (etx_to_bytes t) = Some t) as ->.
    { unfold etx_from_bytes. destruct (Z.ltb_spec MAX_TX_SIZE (len (etx_to_bytes t))); [pose proof (wf_etx_total t W); lia|].
      by rewrite (decodes_decode _ _ _ (decodes_etx t W)). }
    rewrite IH. f_equal. rewrite reverse_cons, fmap_app, list_to_set_app_L. cbn. set_solver.
Qed.

(** The inclusion audit is exact.  For a block whose encrypted part is the
    encoding of the transactions [txs], a hash is reported as censored if and
    only if it is that of a transaction in the validator's view that was seen at
    least [grace] slots ago, is not in the block, and whose gas limit fits in
    what the block's encrypted transactions leave of the gas ceiling; so the
    audit of a block is clean exactly when no such transaction was left out. *)
Theorem audit_exact (txs : list EncryptedTx) (view : list (EncryptedTx * Z)) (slot grace ceiling : Z) :
  Forall wf_etx txs ->
  let r := audit_block_inclusion (etx_to_bytes <$> txs) view slot grace ceiling in
  let censored t first :=
    (t, first) ∈ view /\ grace <= Z.max 0 (slot - first) /\ (forall t', t' ∈ txs -> etx_hash t' <> etx_hash t) /\
    etx_gas_limit t <= Z.max 0 (ceiling - block_gas txs) in
  (forall h, h ∈ missing_older_than_grace r <-> exists t first, censored t first /\ etx_hash t = h) /\
  (is_clean r = true <-> forall t first, ~ censored t first).
Proof.
  intros F r censored.
  assert (forall h, h ∈ missing_older_than_grace r <-> exists t first, censored t first /\ etx_hash t = h) as M.
  { intros h. unfold r, audit_block_inclusion. rewrite block_summary by done. cbn [missing_older_than_grace audit_inclusion].
    rewrite list_elem_of_omap. fold (block_gas txs). set (hs := list_to_set (etx_hash <$> reverse txs) ∪ ∅ : gset (list Z)).
    assert (forall t, etx_hash t ∉ hs <-> forall t', t' ∈ txs -> etx_hash t' <> etx_hash t) as Hs.
    { intros t. unfold hs. rewrite elem_of_union, elem_of_list_to_set, list_elem_of_fmap. setoid_rewrite elem_of_reverse. set_solver. }
    unfold censored, saturating_sub. split.
    - intros ([t first] & Hv & E). exists t, first. destruct (Z.ltb_spec (Z.max 0 (slot - first)) grace); [done|].
      case_bool_decide as B; [done|]. destruct (Z.ltb_spec (Z.max 0 (ceiling - block_gas txs)) (etx_gas_limit t)); [done|].
      injection E as <-. by rewrite <- Hs.
    - intros (t & first & (Hv & Hg & Hn%Hs & Hl) & <-). exists (t, first). split; [done|].
      destruct (Z.ltb_spec (Z.max 0 (slot - first)) grace); [lia|]. rewrite bool_decide_eq_false_2 by done.
      by destruct (Z.ltb_spec (Z.max 0 (ceiling - block_gas txs)) (etx_gas_limit t)); [lia|]. }
  split; [done|]. unfold is_clean. destruct (missing_older_than_grace r) as [|h l].
  - split; [|done]. intros _ t first C. specialize (M (etx_hash t)). apply (not_elem_of_nil (etx_hash t)), M. eauto.
  - split; [done|]. intros N. destruct (proj1 (M h)) as (t & first & C & _); [left|]. by destruct (N t first).
Qed.

(** Finding: the signature of an encrypted transaction does not cover all of
    its fields.  It is over the hash, and the hash omits the deadline and the
    access list (and is the transaction's identity in the pool and in the
    transaction root), although the documentation says that it is over all
    fields: whatever these two are replaced by, the hash is the same and the
    signature is valid exactly as before. *)
Theorem deadline_is_not_signed (t : EncryptedTx) (deadline : option Z) (access : list AccessEntry) (pk : list Z) :
  let t' := mkEtx (etx_sender t) (etx_nonce t) (etx_gas_limit t) access deadline (etx_chain_id t) (etx_signature t) (ciphertext t) in
  etx_hash t' = etx_hash t /\ verifies pk (etx_hash t') (etx_signature t') = verifies pk (etx_hash t) (etx_signature t).
Proof. done. Qed.
End Audit.

(** ** Witnesses *)

Definition toy_etx (sender : Address) (nonce gas : Z) : EncryptedTx :=
  mkEtx sender nonce gas [mkAccess sender [H256_zero] []] (Some 50) 7 (replicate 600 1)
    (mkCiphertext (replicate 1088 2) (replicate 48 3) (replicate 32 4)).

Lemma toy_etx_wf (sender : Address) (nonce gas : Z) :
  h256 sender -> in_range u64 nonce -> in_range u64 gas -> wf_etx (toy_etx sender nonce gas).
Proof.
  intros S N G. split; [exact S|exact N|exact G|split; [discriminate|reflexivity]|split; [discriminate|reflexivity]| |discriminate| |].
  - split; [|discriminate]. constructor; [|constructor]. split; [done|split; [constructor; [reflexivity|constructor]|discriminate]|split; [constructor|discriminate]].
  - split; [reflexivity|reflexivity|]. vm_compute. discriminate.
  - unfold etx_to_bytes, enc_bytes32, enc_u64, enc_deadline, enc_bool, enc_u8, enc_list32, enc_var_bytes, enc_u32, len, MAX_TX_SIZE.
    cbn [toy_etx etx_sender etx_nonce etx_gas_limit etx_chain_id etx_deadline etx_access_list etx_signature ciphertext].
    unfold encode_access_entry, enc_bytes32, enc_list16, enc_u16, to_wire_bytes. cbn [fmap list_fmap concat entry_address reads writes].
    rewrite !length_app, !length_le_encode. unfold h256 in S. rewrite S. vm_compute. discriminate.
Qed.

Lemma etx_roundtrip_witness : etx_from_bytes (etx_to_bytes (toy_etx (replicate 32 1) 3 21000)) = Some (toy_etx (replicate 32 1) 3 21000).
Proof.
  apply (etx_roundtrip (toy_etx (replicate 32 1) 3 21000)).
  apply toy_etx_wf; [reflexivity|split; [discriminate|reflexivity]..].
Defined.

Lemma audit_exact_witness :
  let t1 := toy_etx (replicate 32 1) 3 21000 in
  let t2 := toy_etx (replicate 32 2) 4 30000 in
  is_clean (audit_block_inclusion (etx_to_bytes <$> [t1]) [(t1, 5); (t2, 5)] 9 2 100000) = false.
Proof.
  intros t1 t2. apply not_true_iff_false. intros C.
  assert (Forall wf_etx [t1]) as F.
  { constructor; [|constructor]. apply toy_etx_wf; [reflexivity|split; [discriminate|reflexivity]..]. }
  apply (audit_exact [t1] [(t1, 5); (t2, 5)] 9 2 100000 F) with t2 5; [exact C|].
  assert (bool_decide (etx_hash t1 = etx_hash t2) = false) as N by (vm_compute; reflexivity).
  apply bool_decide_eq_false in N. split; [right; left|]. split; [discriminate|]. split.
  - intros t' Ht'. apply list_elem_of_singleton in Ht'. subst t'. exact N.
  - vm_compute. discriminate.
Defined.
