(* ===== verification/Mempool.v ===== *)
(** * The encrypted mempool

    [mempool/src/pool.rs]: admission with per-sender quotas, eviction, removal,
    and the selection of a block's encrypted transactions.  The clock is an
    argument of the operations that read it. *)

From stdpp Require Import base numbers list option strings sets gmap.
From Stdlib Require Import ZArith Lia.
From S2P Require Import Prelude Crypto Wire Nonce Account Economics Transaction Codec NodeWire Encrypted.

#[local] Open Scope Z_scope.
#[local] Open Scope pyde_scope.

Definition DEFAULT_MAX_POOL_SIZE : Z := 500000.
Definition DEFAULT_MAX_TX_PER_WINDOW_PER_SENDER : Z := 10.
Definition DEFAULT_MAX_CONCURRENT_PER_SENDER : Z := 100.
Definition RATE_WINDOW_MS : Z := 1000.

Inductive MempoolError : Type :=
| Duplicate | Expired | Oversized | InvalidSignature | GasTooLow | GasTooHigh | MalformedEncryption | MissingAccessList
| RateLimitExceeded | TooManyConcurrentFromSender | UnknownOrUnverifiedSender.

Record SenderQuota : Type := mkQuota {
  submit_timestamps_ms : list Z;
  in_pool_count : Z
}.

Definition SenderQuota_default : SenderQuota := mkQuota [] 0.

Record Mempool : Type := mkPool {
  txs : list EncryptedTx;
  seen_hashes : gset (list Z);
  sender_nonces : gmap Address Z;
  first_seen_slot : gmap (list Z) Z;
  sender_quotas : gmap Address SenderQuota;
  sender_tx_index : gmap Address (gset (list Z));
  max_tx_per_window_per_sender : Z;
  max_concurrent_per_sender : Z;
  max_size : Z;
  pool_current_block : Z;
  pool_gas_limit : Z
}.

Definition Mempool_with_capacity (max_size : Z) : Mempool :=
  mkPool [] ∅ ∅ ∅ ∅ ∅ DEFAULT_MAX_TX_PER_WINDOW_PER_SENDER DEFAULT_MAX_CONCURRENT_PER_SENDER max_size 0 GAS_CEILING.

Definition Mempool_new : Mempool := Mempool_with_capacity DEFAULT_MAX_POOL_SIZE.

Definition set_quotas (q : gmap Address SenderQuota) (m : Mempool) : Mempool :=
  mkPool (txs m) (seen_hashes m) (sender_nonces m) (first_seen_slot m) q (sender_tx_index m)
    (max_tx_per_window_per_sender m) (max_concurrent_per_sender m) (max_size m) (pool_current_block m) (pool_gas_limit m).

Definition set_rate_limits (per_window concurrent : Z) (m : Mempool) : Mempool :=
  mkPool (txs m) (seen_hashes m) (sender_nonces m) (first_seen_slot m) (sender_quotas m) (sender_tx_index m)
    per_window concurrent (max_size m) (pool_current_block m) (pool_gas_limit m).

Definition set_current_block (block : Z) (m : Mempool) : Mempool :=
  mkPool (txs m) (seen_hashes m) (sender_nonces m) (first_seen_slot m) (sender_quotas m) (sender_tx_index m)
    (max_tx_per_window_per_sender m) (max_concurrent_per_sender m) (max_size m) block (pool_gas_limit m).

Definition set_block_gas_limit (limit : Z) (m : Mempool) : Mempool :=
  mkPool (txs m) (seen_hashes m) (sender_nonces m) (first_seen_slot m) (sender_quotas m) (sender_tx_index m)
    (max_tx_per_window_per_sender m) (max_concurrent_per_sender m) (max_size m) (pool_current_block m) limit.

(** ** Admission *)

(** Drops the timestamps before the window. *)
Fixpoint prune_window (cutoff : Z) (l : list Z) : list Z :=
  match l with [] => [] | front :: rest => if front <? cutoff then prune_window cutoff rest else l end.

Definition check_sender_rate (now : Z) (sender : Address) : ST Mempool MempoolError unit := fun m =>
  let window_cutoff := saturating_sub now RATE_WINDOW_MS in
  let quota := default SenderQuota_default (sender_quotas m !! sender) in
  let quota := mkQuota (prune_window window_cutoff (submit_timestamps_ms quota)) (in_pool_count quota) in
  let m := set_quotas (<[sender := quota]> (sender_quotas m)) m in
  if max_tx_per_window_per_sender m <=? wrap u32 (len (submit_timestamps_ms quota)) then (m, Err RateLimitExceeded)
  else if max_concurrent_per_sender m <=? in_pool_count quota then (m, Err TooManyConcurrentFromSender)
  else (m, Ok tt).

Definition verify_signature (tx : EncryptedTx) : Result unit MempoolError :=
  if len (etx_signature tx) =? 0 then Err InvalidSignature
  else if (len (etx_signature tx) <? 500) || (1000 <? len (etx_signature tx)) then Err InvalidSignature
  else Ok tt.

(** Forgets a transaction of [sender] that left the pool. *)
Definition release_sender_slot (sender : Address) (hash : list Z) (m : Mempool) : Mempool :=
  let index :=
    match sender_tx_index m !! sender with
    | Some set => if decide (set ∖ {[hash]} = ∅) then delete sender (sender_tx_index m)
                  else <[sender := set ∖ {[hash]}]> (sender_tx_index m)
    | None => sender_tx_index m
    end in
  let quotas :=
    match sender_quotas m !! sender with
    | Some q =>
        let q := mkQuota (submit_timestamps_ms q) (saturating_sub (in_pool_count q) 1) in
        if (in_pool_count q =? 0) && (len (submit_timestamps_ms q) =? 0) then delete sender (sender_quotas m)
        else <[sender := q]> (sender_quotas m)
    | None => sender_quotas m
    end in
  mkPool (txs m) (seen_hashes m) (sender_nonces m) (first_seen_slot m) quotas index
    (max_tx_per_window_per_sender m) (max_concurrent_per_sender m) (max_size m) (pool_current_block m) (pool_gas_limit m).

(** Forgets a hash in the deduplication state. *)
Definition forget_hash (h : list Z) (m : Mempool) : Mempool :=
  mkPool (txs m) (seen_hashes m ∖ {[h]}) (sender_nonces m) (delete h (first_seen_slot m)) (sender_quotas m)
    (sender_tx_index m) (max_tx_per_window_per_sender m) (max_concurrent_per_sender m) (max_size m)
    (pool_current_block m) (pool_gas_limit m).

Definition set_txs (l : list EncryptedTx) (m : Mempool) : Mempool :=
  mkPool l (seen_hashes m) (sender_nonces m) (first_seen_slot m) (sender_quotas m) (sender_tx_index m)
    (max_tx_per_window_per_sender m) (max_concurrent_per_sender m) (max_size m) (pool_current_block m) (pool_gas_limit m).

Section Pool.
Context {P : Primitives}.

Definition verify_signature_with_key (tx : EncryptedTx) (public_key : list Z) : bool :=
  match FalconPublicKey_from_bytes public_key with
  | None => false
  | Some pk =>
      match FalconSignature_from_bytes (etx_signature tx) with
      | None => false
      | Some sig => falcon_verify pk (etx_hash tx) sig
      end
  end.

Definition check_core_validity (tx : EncryptedTx) (m : Mempool) : Result unit MempoolError :=
  if etx_gas_limit tx <? 21000 then Err GasTooLow
  else if pool_gas_limit m <? etx_gas_limit tx then Err GasTooHigh
  else if encrypted_len (ciphertext tx) =? 0 then Err MalformedEncryption
  else if len (etx_access_list tx) =? 0 then Err MissingAccessList
  else if is_oversized tx then Err Oversized
  else if is_expired tx (pool_current_block m) then Err Expired
  else if bool_decide (etx_hash tx ∈ seen_hashes m) then Err Duplicate
  else Ok tt.

Definition evict_oldest (m : Mempool) : Mempool :=
  match txs m with
  | [] => m
  | evicted :: rest => release_sender_slot (etx_sender evicted) (etx_hash evicted) (forget_hash (etx_hash evicted) (set_txs rest m))
  end.

Definition insert_tx (now : Z) (tx : EncryptedTx) (m : Mempool) : Mempool :=
  let m := if max_size m <=? len (txs m) then evict_oldest m else m in
  let hash := etx_hash tx in
  let sender := etx_sender tx in
  let entry := default 0 (sender_nonces m !! sender) in
  let nonces := <[sender := if entry <? etx_nonce tx then etx_nonce tx else entry]> (sender_nonces m) in
  let quota := default SenderQuota_default (sender_quotas m !! sender) in
  let quota := mkQuota (submit_timestamps_ms quota ++ [now]) (wrap u32 (in_pool_count quota + 1)) in
  let index := <[sender := {[hash]} ∪ default ∅ (sender_tx_index m !! sender)]> (sender_tx_index m) in
  mkPool (txs m ++ [tx]) ({[hash]} ∪ seen_hashes m) nonces (<[hash := pool_current_block m]> (first_seen_slot m))
    (<[sender := quota]> (sender_quotas m)) index (max_tx_per_window_per_sender m) (max_concurrent_per_sender m)
    (max_size m) (pool_current_block m) (pool_gas_limit m).

(** [now] and [now'] are the clock at the check and at the insertion. *)
Definition add_unverified_for_devnet (now now' : Z) (tx : EncryptedTx) : ST Mempool MempoolError unit :=
  _ <-- check_sender_rate now (etx_sender tx) ;;
  _ <-- lift_result (verify_signature tx) ;;
  m <-- get ;;
  _ <-- lift_result (check_core_validity tx m) ;;
  modify (insert_tx now' tx).

Definition add_with_pubkey (now now' : Z) (tx : EncryptedTx) (sender_pubkey : list Z) : ST Mempool MempoolError unit :=
  _ <-- check_sender_rate now (etx_sender tx) ;;
  if bool_decide (derive_eoa_address sender_pubkey <> etx_sender tx) then throw UnknownOrUnverifiedSender
  else if negb (verify_signature_with_key tx sender_pubkey) then throw UnknownOrUnverifiedSender
  else
    m <-- get ;;
    _ <-- lift_result (check_core_validity tx m) ;;
    modify (insert_tx now' tx).

(** ** Removal *)

Definition prune_expired (m : Mempool) : Mempool :=
  let current := pool_current_block m in
  let expired := (fun tx => (etx_sender tx, etx_hash tx)) <$> filter (fun tx => is_expired tx current = true) (txs m) in
  if len expired =? 0 then m
  else
    let m := set_txs (filter (fun tx => is_expired tx current = false) (txs m)) m in
    foldl (fun m '(sender, hash) => release_sender_slot sender hash (forget_hash hash m)) m expired.

Definition remove_included (hashes : list (list Z)) (m : Mempool) : Mempool :=
  let hash_set : gset (list Z) := list_to_set hashes in
  let removed := (fun tx => (etx_sender tx, etx_hash tx)) <$> filter (fun tx => etx_hash tx ∈ hash_set) (txs m) in
  let m := set_txs (filter (fun tx => etx_hash tx ∉ hash_set) (txs m)) m in
  let m := foldl (fun m hash => forget_hash hash m) m hashes in
  foldl (fun m '(sender, hash) => release_sender_slot sender hash m) m removed.

(** ** Queries *)

Definition pool_len (m : Mempool) : Z := len (txs m).
Definition in_arrival_order (m : Mempool) : list EncryptedTx := txs m.
Definition pool_contains (hash : list Z) (m : Mempool) : bool := bool_decide (hash ∈ seen_hashes m).

Definition view_with_slots (m : Mempool) : list (EncryptedTx * Z) :=
  omap (fun tx => (fun s => (tx, s)) <$> first_seen_slot m !! etx_hash tx) (txs m).

Fixpoint check_no_duplicate_from (seen : gset (list Z)) (l : list EncryptedTx) : Result unit (list Z) :=
  match l with
  | [] => Ok tt
  | tx :: rest =>
      let hash := etx_hash tx in
      if bool_decide (hash ∈ seen) then Err hash else check_no_duplicate_from ({[hash]} ∪ seen) rest
  end.

Definition check_no_duplicate_txs (l : list EncryptedTx) : Result unit (list Z) := check_no_duplicate_from ∅ l.
End Pool.

(** ** Selection *)

(** The pending transactions by sender, and the senders by first appearance. *)
Definition group_tx (current_slot : Z) (acc : gmap Address (list EncryptedTx) * list Address) (tx : EncryptedTx) :
    gmap Address (list EncryptedTx) * list Address :=
  let '(per_sender, sender_order) := acc in
  if is_expired tx current_slot then acc
  else
    (<[etx_sender tx := default [] (per_sender !! etx_sender tx) ++ [tx]]> per_sender,
     match per_sender !! etx_sender tx with None => sender_order ++ [etx_sender tx] | Some _ => sender_order end).

Record Selection : Type := mkSelection {
  queues : gmap Address (list EncryptedTx);
  selected : list EncryptedTx;
  gas_used : Z;
  exhausted : gset Address
}.

(** One sender's turn; the flag says that a transaction was selected. *)
Definition visit (block_gas_limit max_count : Z) (acc : Selection * bool) (sender : Address) : Selection * bool :=
  let '(s, progressed) := acc in
  if max_count <=? len (selected s) then acc
  else if bool_decide (sender ∈ exhausted s) then acc
  else
    match queues s !! sender with
    | None => acc
    | Some [] => (mkSelection (queues s) (selected s) (gas_used s) ({[sender]} ∪ exhausted s), progressed)
    | Some (tx :: rest) =>
        if block_gas_limit <? saturating_add u64 (gas_used s) (etx_gas_limit tx)
        then (mkSelection (queues s) (selected s) (gas_used s) ({[sender]} ∪ exhausted s), progressed)
        else
          (mkSelection (<[sender := rest]> (queues s)) (selected s ++ [tx]) (wrap u64 (gas_used s + etx_gas_limit tx))
             (exhausted s), true)
    end.

(** The rounds; [None] when the fuel does not suffice. *)
Fixpoint rounds (fuel : nat) (block_gas_limit max_count : Z) (sender_order : list Address) (s : Selection) : option Selection :=
  if max_count <=? len (selected s) then Some s
  else
    match fuel with
    | O => None
    | S fuel =>
        let '(s, progressed) := foldl (visit block_gas_limit max_count) (s, false) sender_order in
        if progressed then rounds fuel block_gas_limit max_count sender_order s else Some s
    end.

Definition select_for_block (block_gas_limit max_count current_slot : Z) (m : Mempool) : option (list EncryptedTx) :=
  if max_count =? 0 then Some []
  else
    let '(per_sender, sender_order) := foldl (group_tx current_slot) (∅, []) (txs m) in
    selected <$> rounds (S (length (txs m))) block_gas_limit max_count sender_order (mkSelection per_sender [] 0 ∅).
