(* ===== verification/MempoolProps.v ===== *)
(** * The mempool's invariant and its selection

    The bookkeeping of the pool agrees with its transactions in every state that
    its operations reach; the selection for a block ends, fits the block and is
    fair to the senders. *)

From stdpp Require Import base numbers list option strings sets gmap relations.
From Stdlib Require Import ZArith Lia.
From S2P Require Import Prelude Crypto Wire Nonce Account Economics Transaction Codec NodeWire Encrypted Mempool.

#[local] Open Scope Z_scope.

Section Pool.
Context {P : Primitives}.

(** ** What the bookkeeping says *)

Definition count_from (a : Address) (l : list EncryptedTx) : Z := len (filter (fun t => etx_sender t = a) l).

Definition hashes_of (l : list EncryptedTx) : gset (list Z) := list_to_set (etx_hash <$> l).

Definition hashes_from (a : Address) (l : list EncryptedTx) : gset (list Z) := hashes_of (filter (fun t => etx_sender t = a) l).

Definition in_pool (m : Mempool) (a : Address) : Z := in_pool_count (default SenderQuota_default (sender_quotas m !! a)).
Definition timestamps (m : Mempool) (a : Address) : list Z := submit_timestamps_ms (default SenderQuota_default (sender_quotas m !! a)).
Definition index_of (m : Mempool) (a : Address) : gset (list Z) := default ∅ (sender_tx_index m !! a).

(** The deduplication state has the transactions [l]. *)
Record dedup_ok (l : list EncryptedTx) (m : Mempool) : Prop := {
  de_seen : seen_hashes m = hashes_of l;
  de_first : dom (first_seen_slot m) = hashes_of l
}.

(** So do the senders' quotas and index. *)
Record quotas_ok (l : list EncryptedTx) (m : Mempool) : Prop := {
  qu_count a : in_pool m a = count_from a l;
  qu_index a : index_of m a = hashes_from a l
}.

Record pool_ok (m : Mempool) : Prop := {
  po_nodup : NoDup (etx_hash <$> txs m);
  po_dedup : dedup_ok (txs m) m;
  po_quotas : quotas_ok (txs m) m;
  po_cap a : count_from a (txs m) <= max_concurrent_per_sender m;
  po_rate a : len (timestamps m a) <= max_tx_per_window_per_sender m;
  po_size : 1 <= max_size m -> len (txs m) <= max_size m;
  po_config : 0 <= max_concurrent_per_sender m < 2 ^ 32 /\ 0 <= max_tx_per_window_per_sender m < 2 ^ 32
}.

Lemma count_from_cons (a : Address) (t : EncryptedTx) (l : list EncryptedTx) :
  count_from a (t :: l) = (if decide (etx_sender t = a) then 1 else 0) + count_from a l.
Proof. unfold count_from, len. rewrite filter_cons. case_decide; cbn [length]; lia. Qed.

Lemma hashes_of_cons (t : EncryptedTx) (l : list EncryptedTx) : hashes_of (t :: l) = {[etx_hash t]} ∪ hashes_of l.
Proof. done. Qed.

Lemma elem_of_hashes (h : list Z) (l : list EncryptedTx) : h ∈ hashes_of l <-> h ∈ etx_hash <$> l.
Proof. unfold hashes_of. by rewrite elem_of_list_to_set. Qed.

Lemma hashes_from_cons (a : Address) (t : EncryptedTx) (l : list EncryptedTx) :
  hashes_from a (t :: l) = (if decide (etx_sender t = a) then {[etx_hash t]} else ∅) ∪ hashes_from a l.
Proof. unfold hashes_from. rewrite filter_cons. case_decide; [by rewrite hashes_of_cons|set_solver]. Qed.

Lemma hashes_from_cons_end (a : Address) (t : EncryptedTx) (l : list EncryptedTx) :
  (if decide (etx_sender t = a) then {[etx_hash t]} else ∅) ∪ hashes_from a l = hashes_from a (l ++ [t]).
Proof.
  rewrite <- hashes_from_cons. apply set_eq. intros h. unfold hashes_from. rewrite !elem_of_hashes.
  by rewrite (Permutation_app_comm l [t]).
Qed.

Lemma hashes_from_sub (a : Address) (l : list EncryptedTx) : hashes_from a l ⊆ hashes_of l.
Proof.
  intros h. unfold hashes_from. rewrite !elem_of_hashes, !list_elem_of_fmap. intros (t & -> & [_ ?]%list_elem_of_filter). eauto.
Qed.

#[global] Instance dedup_ok_perm : Proper ((≡ₚ) ==> (=) ==> iff) dedup_ok.
Proof.
  assert (forall l l' m, l ≡ₚ l' -> dedup_ok l m -> dedup_ok l' m) as H.
  { intros l l' m E [? ?]. assert (hashes_of l' = hashes_of l) as Eq.
    { apply set_eq. intros h. rewrite !elem_of_hashes. by rewrite E. }
    split; by rewrite Eq. }
  intros l l' E m m' <-. split; apply H; [done|by symmetry].
Qed.

#[global] Instance quotas_ok_perm : Proper ((≡ₚ) ==> (=) ==> iff) quotas_ok.
Proof.
  assert (forall l l' m, l ≡ₚ l' -> quotas_ok l m -> quotas_ok l' m) as H.
  { intros l l' m E [? ?]. split; intros a.
    - unfold count_from, len. rewrite <- E. auto.
    - assert (hashes_from a l' = hashes_from a l) as ->; [|auto].
      apply set_eq. intros h. unfold hashes_from. rewrite !elem_of_hashes. by rewrite E. }
  intros l l' E m m' <-. split; apply H; [done|by symmetry].
Qed.

(** ** Leaving the pool *)

Lemma release_quota (s a : Address) (h : list Z) (m : Mempool) :
  in_pool (release_sender_slot s h m) a = (if decide (a = s) then Z.max 0 (in_pool m s - 1) else in_pool m a) /\
  timestamps (release_sender_slot s h m) a = timestamps m a.
Proof.
  unfold in_pool, timestamps, release_sender_slot. cbn [sender_quotas]. destruct (sender_quotas m !! s) as [[ts c]|] eqn:E.
  - cbn [submit_timestamps_ms in_pool_count]. unfold saturating_sub. destruct (decide (a = s)) as [->|].
    + rewrite E. cbn [default in_pool_count submit_timestamps_ms]. destruct (Z.eqb_spec (Z.max 0 (c - 1)) 0) as [Z0|]; cbn [andb].
      * destruct (Z.eqb_spec (len ts) 0) as [L|]; [|by rewrite lookup_insert_eq].
        rewrite lookup_delete_eq. cbn. rewrite Z0. destruct ts; [done|unfold len in L; cbn in L; lia].
      * by rewrite lookup_insert_eq.
    + destruct (_ && _); [by rewrite lookup_delete_ne by done|by rewrite lookup_insert_ne by done].
  - split; [|done]. case_decide; [subst; by rewrite E|done].
Qed.

Lemma release_index (s a : Address) (h : list Z) (m : Mempool) :
  index_of (release_sender_slot s h m) a = if decide (a = s) then index_of m s ∖ {[h]} else index_of m a.
Proof.
  unfold index_of, release_sender_slot. cbn [sender_tx_index]. destruct (sender_tx_index m !! s) as [set|] eqn:E.
  - case_decide as E0; case_decide as D; try subst a.
    + rewrite lookup_delete_eq. cbn. by rewrite E0.
    + by rewrite lookup_delete_ne by done.
    + by rewrite lookup_insert_eq.
    + by rewrite lookup_insert_ne by done.
  - case_decide; [subst; rewrite ?E; cbn; set_solver|done].
Qed.

Lemma release_quotas_ok (t : EncryptedTx) (l : list EncryptedTx) (m : Mempool) :
  etx_hash t ∉ hashes_of l -> quotas_ok (t :: l) m -> quotas_ok l (release_sender_slot (etx_sender t) (etx_hash t) m).
Proof.
  intros N [C I]. split; intros a.
  - rewrite (proj1 (release_quota _ a _ m)), !C, !count_from_cons. assert (0 <= count_from a l) by (unfold count_from, len; lia).
    destruct (decide (a = etx_sender t)) as [->|D]; [rewrite decide_True by done; lia|]. by rewrite decide_False by congruence.
  - rewrite release_index, !I, !hashes_from_cons. pose proof (hashes_from_sub a l).
    destruct (decide (a = etx_sender t)) as [->|D]; [rewrite decide_True by done; set_solver|].
    rewrite decide_False by congruence. set_solver.
Qed.

Lemma forget_dedup_ok (t : EncryptedTx) (l : list EncryptedTx) (m : Mempool) :
  etx_hash t ∉ hashes_of l -> dedup_ok (t :: l) m -> dedup_ok l (forget_hash (etx_hash t) m).
Proof.
  intros N [S F]. rewrite hashes_of_cons in S, F. split; unfold forget_hash; cbn [seen_hashes first_seen_slot].
  - rewrite S. set_solver.
  - rewrite dom_delete_L, F. set_solver.
Qed.

(** What removals leave alone. *)
Record same_rest (m m' : Mempool) : Prop := {
  sr_txs : txs m' = txs m;
  sr_times a : timestamps m' a = timestamps m a;
  sr_window : max_tx_per_window_per_sender m' = max_tx_per_window_per_sender m;
  sr_concurrent : max_concurrent_per_sender m' = max_concurrent_per_sender m;
  sr_size : max_size m' = max_size m
}.

Lemma release_rest (s : Address) (h : list Z) (m : Mempool) : same_rest m (release_sender_slot s h m).
Proof. split; try done. intros a. apply release_quota. Qed.

Lemma forget_rest (h : list Z) (m : Mempool) : same_rest m (forget_hash h m).
Proof. done. Qed.

#[local] Instance same_rest_trans : Transitive same_rest.
Proof. intros a b c [] []. split; intros; congruence. Qed.

(** The senders and hashes of transactions, as the removals collect them. *)
Definition owners (l : list EncryptedTx) : list (Address * list Z) := (fun t => (etx_sender t, etx_hash t)) <$> l.

Lemma drop_all (E K : list EncryptedTx) (m : Mempool) :
  NoDup (etx_hash <$> E ++ K) -> dedup_ok (E ++ K) m -> quotas_ok (E ++ K) m ->
  let m' := foldl (fun m '(sender, hash) => release_sender_slot sender hash (forget_hash hash m)) m (owners E) in
  dedup_ok K m' /\ quotas_ok K m' /\ same_rest m m'.
Proof.
  revert m. induction E as [|t E IH]; intros m N D Q; cbn [owners fmap list_fmap foldl app] in *; [done|].
  apply NoDup_cons in N as [Nt N]. rewrite <- elem_of_hashes in Nt.
  destruct (IH (release_sender_slot (etx_sender t) (etx_hash t) (forget_hash (etx_hash t) m))) as (D' & Q' & R); [done| | |].
  - destruct (forget_dedup_ok t (E ++ K) m Nt D) as [S F]. split; [exact S|exact F].
  - apply release_quotas_ok; [done|]. destruct Q as [C I]. split; [exact C|exact I].
  - split; [done|]. split; [done|]. etransitivity; [|exact R]. etransitivity; [apply forget_rest|apply release_rest].
Qed.

Lemma release_all (E K : list EncryptedTx) (m : Mempool) :
  NoDup (etx_hash <$> E ++ K) -> quotas_ok (E ++ K) m ->
  let m' := foldl (fun m '(sender, hash) => release_sender_slot sender hash m) m (owners E) in
  quotas_ok K m' /\ same_rest m m' /\ seen_hashes m' = seen_hashes m /\ first_seen_slot m' = first_seen_slot m.
Proof.
  revert m. induction E as [|t E IH]; intros m N Q; cbn [owners fmap list_fmap foldl app] in *; [done|].
  apply NoDup_cons in N as [Nt N]. rewrite <- elem_of_hashes in Nt.
  destruct (IH (release_sender_slot (etx_sender t) (etx_hash t) m)) as (Q' & R & S & F); [done|by apply release_quotas_ok|].
  split; [done|]. split; [etransitivity; [apply release_rest|exact R]|]. split; [exact S|exact F].
Qed.

Lemma forget_all (hs : list (list Z)) (m : Mempool) :
  let m' := foldl (fun m hash => forget_hash hash m) m hs in
  seen_hashes m' = seen_hashes m ∖ list_to_set hs /\ dom (first_seen_slot m') = dom (first_seen_slot m) ∖ list_to_set hs /\
  same_rest m m' /\ sender_quotas m' = sender_quotas m /\ sender_tx_index m' = sender_tx_index m.
Proof.
  revert m. induction hs as [|h hs IH]; intros m; cbn [foldl list_to_set]; [split; [set_solver|]; split; [set_solver|]; done|].
  destruct (IH (forget_hash h m)) as (S & F & [] & Q & I). rewrite S, F, Q, I. unfold forget_hash in *. cbn [seen_hashes first_seen_slot] in *.
  rewrite dom_delete_L. split; [set_solver|]. split; [set_solver|]. by split.
Qed.

Lemma filter_split (p : EncryptedTx -> Prop) `{!forall t, Decision (p t)} (l : list EncryptedTx) :
  l ≡ₚ filter p l ++ filter (fun t => ~ p t) l.
Proof. symmetry. apply filter_app_complement. Qed.

Lemma count_filter (a : Address) (p : EncryptedTx -> Prop) `{!forall t, Decision (p t)} (l : list EncryptedTx) :
  count_from a (filter p l) <= count_from a l.
Proof.
  induction l as [|t l IH]; [done|]. rewrite filter_cons, !count_from_cons. case_decide; [rewrite count_from_cons|]; repeat case_decide; lia.
Qed.

(** A pool from which the transactions that satisfy [p] were removed. *)
Lemma removed_ok (p : EncryptedTx -> Prop) `{!forall t, Decision (p t)} (m m' : Mempool) :
  pool_ok m -> let K := filter (fun t => ~ p t) (txs m) in
  dedup_ok K m' -> quotas_ok K m' -> same_rest (set_txs K m) m' -> pool_ok m'.
Proof.
  intros [N _ _ C R S Cf] K D Q [T Ti W Co Si]. cbn in T, W, Co, Si.
  split; rewrite ?T, ?W, ?Co, ?Si; try done.
  - pose proof (filter_split p (txs m)) as Pm. rewrite Pm, fmap_app in N. by apply NoDup_app in N as (_ & _ & N).
  - intros a. pose proof (count_filter a (fun t => ~ p t) (txs m)) as L. specialize (C a). unfold K. lia.
  - intros a. rewrite Ti. apply R.
  - intros H1. specialize (S H1). pose proof (length_filter (fun t => ~ p t) (txs m)) as L. unfold len, K in *. lia.
Qed.

Lemma prune_ok (m : Mempool) : pool_ok m -> pool_ok (prune_expired m).
Proof.
  intros Ok. unfold prune_expired. destruct (len (A := Address * list Z) _ =? 0); [done|]. pose proof Ok as [N D Q _ _ _ _].
  set (p t := is_expired t (pool_current_block m) = true).
  assert (filter (fun t => is_expired t (pool_current_block m) = false) (txs m) = filter (fun t => ~ p t) (txs m)) as ->.
  { apply list_filter_iff. intros t. unfold p. by rewrite not_true_iff_false. }
  pose proof (filter_split p (txs m)) as Pm. rewrite Pm in N, D, Q.
  destruct (drop_all (filter p (txs m)) (filter (fun t => ~ p t) (txs m)) (set_txs (filter (fun t => ~ p t) (txs m)) m)) as (D' & Q' & R).
  - done.
  - destruct D as [S F]. split; [exact S|exact F].
  - destruct Q as [C I]. split; [exact C|exact I].
  - by apply (removed_ok p m).
Qed.

Lemma remove_ok (hashes : list (list Z)) (m : Mempool) : pool_ok m -> pool_ok (remove_included hashes m).
Proof.
  intros Ok. unfold remove_included. pose proof Ok as [N D Q _ _ _ _].
  set (hs := list_to_set hashes : gset (list Z)). set (p t := etx_hash t ∈ hs). set (K := filter (fun t => etx_hash t ∉ hs) (txs m)).
  set (m1 := set_txs K m). destruct (forget_all hashes m1) as (S & F & R1 & Eq & Ei).
  set (m2 := foldl (fun m hash => forget_hash hash m) m1 hashes) in *. clearbody m2.
  pose proof (filter_split p (txs m)) as Pm. rewrite Pm in N, Q.
  destruct (release_all (filter p (txs m)) K m2) as (Q' & R2 & S2 & F2); [done| |].
  { destruct Q as [C I]. unfold in_pool, index_of in *. split; intros a; unfold in_pool, index_of; rewrite ?Eq, ?Ei; [exact (C a)|exact (I a)]. }
  apply (removed_ok p m); [done| |done|by etransitivity].
  assert (hashes_of (txs m) ∖ hs = hashes_of K) as Eh.
  { apply set_eq. intros h. rewrite elem_of_difference, !elem_of_hashes, !list_elem_of_fmap. unfold K. split.
    - intros [(t & -> & Ht) Hn]. exists t. split; [done|]. by apply list_elem_of_filter.
    - intros (t & -> & [? ?]%list_elem_of_filter). eauto. }
  destruct D as [Ds Df]. split.
  - etransitivity; [exact S2|]. rewrite S. unfold m1. cbn [seen_hashes set_txs]. by rewrite Ds.
  - etransitivity; [exact (f_equal dom F2)|]. rewrite F. unfold m1. cbn [first_seen_slot set_txs]. by rewrite Df.
Qed.

Lemma evict_ok (m : Mempool) : pool_ok m -> pool_ok (evict_oldest m).
Proof.
  intros Ok. unfold evict_oldest. destruct (txs m) as [|t rest] eqn:E; [done|]. destruct Ok as [N D Q C R S Cf]. rewrite E in *.
  apply NoDup_cons in N as [Nt N]. rewrite <- elem_of_hashes in Nt.
  destruct (release_rest (etx_sender t) (etx_hash t) (forget_hash (etx_hash t) (set_txs rest m))) as [T Ti _ _ _].
  set (m' := release_sender_slot _ _ _) in *. assert (txs m' = rest) as Et by done. clear T.
  split; rewrite ?Et; try done.
  - destruct (forget_dedup_ok t rest m Nt D) as [S' F']. split; [exact S'|exact F'].
  - apply release_quotas_ok; [done|]. destruct Q as [C' I']. split; [exact C'|exact I'].
  - intros a. specialize (C a). rewrite count_from_cons in C. unfold m', release_sender_slot, forget_hash, set_txs. cbn.
    case_decide; lia.
  - intros a. rewrite Ti. exact (R a).
  - intros H. specialize (S H). unfold len in *. cbn in S. unfold m', release_sender_slot, forget_hash, set_txs. cbn. lia.
Qed.

(** ** Entering the pool *)

Lemma prune_window_len (cutoff : Z) (l : list Z) : len (prune_window cutoff l) <= len l.
Proof. unfold len. induction l as [|x l IH]; cbn [prune_window length]; [done|]. destruct (x <? cutoff); cbn [length]; lia. Qed.

Lemma check_rate_ok (now : Z) (s : Address) (m m' : Mempool) (r : Result unit MempoolError) :
  pool_ok m -> check_sender_rate now s m = (m', r) ->
  pool_ok m' /\ seen_hashes m' = seen_hashes m /\ pool_current_block m' = pool_current_block m /\
  (r = Ok tt -> in_pool m' s < max_concurrent_per_sender m' /\ len (timestamps m' s) < max_tx_per_window_per_sender m').
Proof.
  intros [N D Q C R S Cf] E. unfold check_sender_rate in E. set (q0 := default SenderQuota_default (sender_quotas m !! s)) in *.
  set (q := mkQuota _ _) in E. set (m1 := set_quotas (<[s := q]> (sender_quotas m)) m) in E.
  assert (m' = m1) as -> by (destruct (_ <=? _); [|destruct (_ <=? _)]; by injection E).
  pose proof (prune_window_len (saturating_sub now RATE_WINDOW_MS) (submit_timestamps_ms q0)) as Lp.
  assert (forall a, in_pool m1 a = in_pool m a /\ len (timestamps m1 a) <= len (timestamps m a)) as Same.
  { intros a. unfold in_pool, timestamps, m1. cbn [sender_quotas set_quotas]. destruct (decide (a = s)) as [->|].
    - rewrite lookup_insert_eq. done.
    - by rewrite lookup_insert_ne by done. }
  assert (timestamps m1 s = submit_timestamps_ms q /\ in_pool m1 s = in_pool_count q) as [Ts Is].
  { unfold in_pool, timestamps, m1. cbn [sender_quotas set_quotas]. by rewrite lookup_insert_eq. }
  split; [|split; [done|]; split; [done|]].
  - split; try done.
    + destruct D as [? ?]. by split.
    + destruct Q as [Qc Qi]. split; [|exact Qi]. intros a. rewrite (proj1 (Same a)). apply Qc.
    + intros a. etransitivity; [apply Same|exact (R a)].
  - intros ->. assert (len (timestamps m1 s) <= max_tx_per_window_per_sender m) as Rs by (etransitivity; [apply Same|exact (R s)]).
    rewrite Ts in *. rewrite Is. destruct (Z.leb_spec (max_tx_per_window_per_sender m1) (wrap u32 (len (submit_timestamps_ms q)))) as [|L]; [done|].
    destruct (Z.leb_spec (max_concurrent_per_sender m1) (in_pool_count q)) as [|L2]; [done|]. split; [done|].
    rewrite wrap_small in L; [done|]. unfold in_range, len in *. destruct Cf. lia.
Qed.

(** The pool after the eviction that an insertion may start with. *)
Definition with_room (m : Mempool) : Mempool := if max_size m <=? len (txs m) then evict_oldest m else m.

Record room_made (a : Address) (m m1 : Mempool) : Prop := {
  rm_ok : pool_ok m1;
  rm_seen : seen_hashes m1 ⊆ seen_hashes m;
  rm_count : in_pool m1 a <= in_pool m a;
  rm_times : timestamps m1 a = timestamps m a;
  rm_concurrent : max_concurrent_per_sender m1 = max_concurrent_per_sender m;
  rm_window : max_tx_per_window_per_sender m1 = max_tx_per_window_per_sender m;
  rm_size : max_size m1 = max_size m;
  rm_room : 1 <= max_size m -> len (txs m1) < max_size m
}.

Lemma make_room (a : Address) (m : Mempool) : pool_ok m -> room_made a m (with_room m).
Proof.
  intros Ok. pose proof (po_size m Ok) as Sz. unfold with_room. destruct (Z.leb_spec (max_size m) (len (txs m))) as [L|L]; [|by split].
  pose proof (evict_ok m Ok) as Ok1. pose proof (qu_count _ _ (po_quotas m Ok) a) as C0.
  pose proof (qu_count _ _ (po_quotas _ Ok1) a) as C1.
  pose proof (de_seen _ _ (po_dedup m Ok)) as S0. pose proof (de_seen _ _ (po_dedup _ Ok1)) as S1.
  unfold evict_oldest in *. destruct (txs m) as [|t rest] eqn:Etx; [split; try done; unfold len in *; cbn in *; lia|].
  split; try done.
  - rewrite S0, S1. cbn. set_solver.
  - rewrite C0, C1, count_from_cons. cbn. case_decide; lia.
  - apply (release_quota (etx_sender t) a (etx_hash t) (forget_hash (etx_hash t) (set_txs rest m))).
  - intros H. specialize (Sz H). unfold len in *. cbn in *. lia.
Qed.

Lemma insert_ok (now : Z) (tx : EncryptedTx) (m : Mempool) :
  pool_ok m -> etx_hash tx ∉ seen_hashes m -> in_pool m (etx_sender tx) < max_concurrent_per_sender m ->
  len (timestamps m (etx_sender tx)) < max_tx_per_window_per_sender m -> pool_ok (insert_tx now tx m).
Proof.
  intros Ok Hs Hc Ht. unfold insert_tx. fold (with_room m).
  destruct (make_room (etx_sender tx) m Ok) as [Ok1 Sub Le Et Ec Ew Es Ls]. set (m1 := with_room m) in *.
  clearbody m1. destruct Ok1 as [N [Ds Df] [Qc Qi] C R S Cf]. assert (etx_hash tx ∉ hashes_of (txs m1)) as Hn by (rewrite <- Ds; set_solver).
  pose proof (Qc (etx_sender tx)) as Qs. unfold in_pool in Qs, Le, Hc. unfold timestamps in Et, Ht.
  set (q0 := default SenderQuota_default (sender_quotas m1 !! etx_sender tx)) in *.
  assert (0 <= in_pool_count q0) by (rewrite Qs; unfold count_from, len; lia).
  assert (forall a, count_from a (txs m1 ++ [tx]) = (if decide (etx_sender tx = a) then 1 else 0) + count_from a (txs m1)) as Cn.
  { intros a. rewrite <- count_from_cons. unfold count_from, len. by rewrite (Permutation_app_comm (txs m1) [tx]). }
  split; cbn [txs max_concurrent_per_sender max_tx_per_window_per_sender max_size].
  - rewrite fmap_app. apply NoDup_app. split; [done|]. split; [|apply NoDup_singleton].
    intros h Hh ->%list_elem_of_singleton. by apply Hn, elem_of_hashes.
  - assert (hashes_of (txs m1 ++ [tx]) = {[etx_hash tx]} ∪ hashes_of (txs m1)) as Eh.
    { apply set_eq. intros h. rewrite elem_of_union, !elem_of_hashes, fmap_app, elem_of_app. set_solver. }
    split; cbn [seen_hashes first_seen_slot]; rewrite Eh; [by rewrite Ds|by rewrite dom_insert_L, Df].
  - split; intros a.
    + unfold in_pool. cbn [sender_quotas]. rewrite Cn. case_decide as D.
      * subst a. rewrite lookup_insert_eq. cbn [default id in_pool_count]. rewrite wrap_small; [lia|]. unfold in_range. destruct Cf. cbn. lia.
      * rewrite lookup_insert_ne by done. exact (Qc a).
    + unfold index_of. cbn [sender_tx_index]. rewrite <- hashes_from_cons_end. case_decide as D.
      * subst a. rewrite lookup_insert_eq. cbn [default id]. f_equal. exact (Qi (etx_sender tx)).
      * rewrite lookup_insert_ne by done. rewrite (left_id_L ∅ (∪)). exact (Qi a).
  - intros a. rewrite Cn. case_decide as D; [|exact (C a)]. subst a. rewrite <- Qs. lia.
  - intros a. unfold timestamps. cbn [sender_quotas]. destruct (decide (a = etx_sender tx)) as [->|].
    + rewrite lookup_insert_eq. cbn [default id submit_timestamps_ms]. rewrite Et. unfold len in *. rewrite length_app. cbn. lia.
    + rewrite lookup_insert_ne by done. exact (R a).
  - intros H1. unfold len in *. rewrite length_app. cbn. lia.
  - done.
Qed.

(** ** Reachable pools *)

Inductive pool_step : Mempool -> Mempool -> Prop :=
| step_add_unverified m now now' tx : pool_step m (add_unverified_for_devnet now now' tx m).1
| step_add_with_pubkey m now now' tx pk : pool_step m (add_with_pubkey now now' tx pk m).1
| step_prune m : pool_step m (prune_expired m)
| step_remove m hashes : pool_step m (remove_included hashes m)
| step_block m b : pool_step m (set_current_block b m)
| step_gas m g : pool_step m (set_block_gas_limit g m).

Lemma core_valid_fresh (tx : EncryptedTx) (m : Mempool) : check_core_validity tx m = Ok tt -> etx_hash tx ∉ seen_hashes m.
Proof.
  unfold check_core_validity. repeat (destruct (_ <? _); [done|]). destruct (_ =? _); [done|]. destruct (_ =? _); [done|].
  destruct (is_oversized tx); [done|]. destruct (is_expired tx _); [done|]. by case_bool_decide.
Qed.

Lemma pool_step_ok (m m' : Mempool) : pool_step m m' -> pool_ok m -> pool_ok m'.
Proof.
  assert (forall now' tx m1, pool_ok m1 ->
    in_pool m1 (etx_sender tx) < max_concurrent_per_sender m1 /\ len (timestamps m1 (etx_sender tx)) < max_tx_per_window_per_sender m1 ->
    pool_ok (bind get (fun m => bind (lift_result (check_core_validity tx m)) (fun _ => modify (insert_tx now' tx))) m1).1) as Ins.
  { intros now' tx m1 Ok [Hc Ht]. unfold bind, get, lift_result, modify. destruct (check_core_validity tx m1) as [[]|e] eqn:E; [|done].
    cbn. apply insert_ok; [done|by apply core_valid_fresh|done|done]. }
  destruct 1 as [m now now' tx|m now now' tx pk|m|m hashes|m b|m g]; intros Ok.
  - unfold add_unverified_for_devnet. unfold bind at 1. destruct (check_sender_rate now (etx_sender tx) m) as [m1 r] eqn:E.
    destruct (check_rate_ok now (etx_sender tx) m m1 r Ok E) as (Ok1 & _ & _ & H). destruct r as [[]|e]; [|done].
    unfold bind at 1, lift_result at 1. destruct (verify_signature tx); [|done]. apply Ins; [done|auto].
  - unfold add_with_pubkey. unfold bind at 1. destruct (check_sender_rate now (etx_sender tx) m) as [m1 r] eqn:E.
    destruct (check_rate_ok now (etx_sender tx) m m1 r Ok E) as (Ok1 & _ & _ & H). destruct r as [[]|e]; [|done].
    case_bool_decide; [done|]. destruct (negb _); [done|]. apply Ins; [done|auto].
  - by apply prune_ok.
  - by apply remove_ok.
  - destruct Ok as [? [? ?] [? ?] ? ? ? ?]. by split.
  - destruct Ok as [? [? ?] [? ?] ? ? ? ?]. by split.
Qed.

(** The limits, which no operation changes. *)
Definition limits (m : Mempool) : Z * Z * Z := (max_size m, max_concurrent_per_sender m, max_tx_per_window_per_sender m).

Lemma foldl_limits {A} (f : Mempool -> A -> Mempool) (l : list A) (m : Mempool) :
  (forall m x, limits (f m x) = limits m) -> limits (foldl f m l) = limits m.
Proof. intros H. revert m. induction l as [|x l IH]; intros m; [done|]. cbn [foldl]. by rewrite IH. Qed.

Lemma insert_limits (now : Z) (tx : EncryptedTx) (m : Mempool) : limits (insert_tx now tx m) = limits m.
Proof. unfold insert_tx. destruct (_ <=? _); [|done]. unfold evict_oldest. by destruct (txs m). Qed.

Lemma rate_limits (now : Z) (a : Address) (m : Mempool) : limits (check_sender_rate now a m).1 = limits m.
Proof. unfold check_sender_rate. repeat (destruct (_ <=? _); [done|]). done. Qed.

Lemma step_limits (m m' : Mempool) : pool_step m m' -> limits m' = limits m.
Proof.
  destruct 1 as [m now now' tx|m now now' tx pk|m|m hashes|m b|m g]; try done.
  - unfold add_unverified_for_devnet, bind, lift_result, get, modify. pose proof (rate_limits now (etx_sender tx) m) as E.
    destruct (check_sender_rate now (etx_sender tx) m) as [m1 [[]|e]]; [|done].
    destruct (verify_signature tx); [|done]. destruct (check_core_validity tx m1); [|done]. cbn. by rewrite insert_limits.
  - unfold add_with_pubkey, bind, lift_result, get, modify. pose proof (rate_limits now (etx_sender tx) m) as E.
    destruct (check_sender_rate now (etx_sender tx) m) as [m1 [[]|e]]; [|done].
    case_bool_decide; [done|]. destruct (negb _); [done|]. destruct (check_core_validity tx m1); [|done]. cbn. by rewrite insert_limits.
  - unfold prune_expired. destruct (len _ =? 0); [done|]. etransitivity; [apply foldl_limits; by intros m0 []|done].
  - unfold remove_included. etransitivity; [apply foldl_limits; by intros m0 []|]. etransitivity; [by apply foldl_limits|done].
Qed.

(** [C21] The mempool keeps its books.  In every pool that submissions (accepted or
    not), expiry, block inclusion and new heights produce from an empty one of
    [n >= 1] places: no two transactions have the same hash; the deduplication
    set and the arrival slots have exactly the hashes in the pool; each sender's
    count and index are those of its transactions in the pool, of which there are
    at most 100, and at most 10 of its submissions are in the rate window; and
    the pool has at most [n] transactions. *)
Theorem pool_invariant (n : Z) (m : Mempool) :
  1 <= n -> rtc pool_step (Mempool_with_capacity n) m ->
  NoDup (etx_hash <$> txs m) /\ len (txs m) <= n /\
  (forall h, pool_contains h m = true <-> exists t, t ∈ txs m /\ etx_hash t = h) /\
  (forall h, is_Some (first_seen_slot m !! h) <-> exists t, t ∈ txs m /\ etx_hash t = h) /\
  (forall a, in_pool m a = count_from a (txs m) /\ index_of m a = hashes_from a (txs m) /\
     count_from a (txs m) <= DEFAULT_MAX_CONCURRENT_PER_SENDER /\
     len (timestamps m a) <= DEFAULT_MAX_TX_PER_WINDOW_PER_SENDER).
Proof.
  intros Hn R.
  assert (pool_ok (Mempool_with_capacity n)) as Ok0.
  { split; cbn; try done; [apply NoDup_nil_2|intros _; unfold len; cbn; lia]. }
  assert (pool_ok m /\ limits m = limits (Mempool_with_capacity n)) as [[N [Ds Df] [Qc Qi] C W S _] E].
  { clear Hn. revert Ok0. induction R as [m|m m1 m2 St _ IH]; [done|]. intros Ok.
    rewrite <- (step_limits _ _ St). apply IH. by eapply pool_step_ok. }
  injection E as Es Ec Ew.
  assert (forall h, h ∈ hashes_of (txs m) <-> exists t, t ∈ txs m /\ etx_hash t = h) as Hh.
  { intros h. rewrite elem_of_hashes, list_elem_of_fmap. naive_solver. }
  rewrite Es in S. rewrite Ec in C. rewrite Ew in W. split_and!; try done; [by apply S| |].
  - intros h. unfold pool_contains. by rewrite bool_decide_eq_true, Ds, Hh.
  - intros h. by rewrite <- elem_of_dom, Df, Hh.
Qed.
End Pool.

(** ** Selection *)

(** The transactions of a sender that a selection at [slot] may take. *)
Definition pending (slot : Z) (a : Address) (l : list EncryptedTx) : list EncryptedTx :=
  filter (fun t => etx_sender t = a) (filter (fun t => is_expired t slot = false) l).

Definition total_gas (l : list EncryptedTx) : Z := foldr (fun t g => etx_gas_limit t + g) 0 l.

Lemma total_gas_app (l k : list EncryptedTx) : total_gas (l ++ k) = total_gas l + total_gas k.
Proof. unfold total_gas. induction l as [|t l IH]; cbn in *; lia. Qed.

Lemma pending_snoc (slot : Z) (a : Address) (l : list EncryptedTx) (t : EncryptedTx) :
  pending slot a (l ++ [t]) = pending slot a l ++ (if is_expired t slot then [] else if decide (etx_sender t = a) then [t] else []).
Proof.
  unfold pending. rewrite !filter_app. f_equal. rewrite filter_cons. destruct (is_expired t slot); [by rewrite decide_False by done|].
  rewrite decide_True by done. rewrite filter_cons. by case_decide.
Qed.

Lemma count_from_snoc (a : Address) (l : list EncryptedTx) (t : EncryptedTx) :
  count_from a (l ++ [t]) = count_from a l + (if decide (etx_sender t = a) then 1 else 0).
Proof. unfold count_from, len. rewrite filter_app, length_app, filter_cons, filter_nil. case_decide; cbn [length]; lia. Qed.

Lemma group_exact (slot : Z) (l : list EncryptedTx) :
  let '(per_sender, order) := foldl (group_tx slot) (∅, []) l in
  NoDup order /\ (forall a, a ∈ order <-> is_Some (per_sender !! a)) /\ (forall a, default [] (per_sender !! a) = pending slot a l).
Proof.
  induction l as [|t l IH] using rev_ind.
  { cbn. split; [apply NoDup_nil_2|]. split; intros a; rewrite lookup_empty; [|done].
    split; [intros H; by apply not_elem_of_nil in H|by intros [? ?]]. }
  rewrite foldl_app. destruct (foldl (group_tx slot) (∅, []) l) as [per order]. destruct IH as (N & D & Q). cbn [foldl]. unfold group_tx.
  destruct (is_expired t slot) eqn:E.
  { split_and!; try done. intros a. by rewrite pending_snoc, E, app_nil_r. }
  split_and!.
  - destruct (per !! etx_sender t) eqn:L; [done|]. apply NoDup_app. split_and!; [done| |apply NoDup_singleton].
    intros a Ha ->%list_elem_of_singleton. apply D in Ha. rewrite L in Ha. by destruct Ha.
  - intros a. rewrite lookup_insert_is_Some. destruct (per !! etx_sender t) eqn:L.
    + rewrite D. destruct (decide (etx_sender t = a)) as [<-|]; [rewrite L; naive_solver|naive_solver].
    + rewrite elem_of_app, list_elem_of_singleton, D. destruct (decide (etx_sender t = a)); naive_solver.
  - intros a. rewrite pending_snoc, E. destruct (decide (etx_sender t = a)) as [<-|].
    + rewrite lookup_insert_eq. cbn [default]. by rewrite <- Q.
    + rewrite lookup_insert_ne by done. by rewrite Q, app_nil_r.
Qed.

(** A queue that has nothing that fits beside the transactions [sel]. *)
Definition no_room (limit : Z) (sel queue : list EncryptedTx) : Prop :=
  match queue with [] => True | t :: _ => limit < total_gas sel + etx_gas_limit t end.

Section Select.
Variables (limit max_count : Z) (queue0 : Address -> list EncryptedTx).
Hypothesis limit_u64 : 0 <= limit < 2 ^ 64 - 1.
Hypothesis gas_u64 : forall a t, t ∈ queue0 a -> 0 <= etx_gas_limit t < 2 ^ 64 /\ etx_sender t = a.

Definition waiting (s : Selection) (a : Address) : list EncryptedTx := default [] (queues s !! a).

Definition count_of (s : Selection) (a : Address) : Z := count_from a (selected s).

(** The sender has nothing that the block can still take. *)
Definition blocked (s : Selection) (a : Address) : Prop := no_room limit (selected s) (waiting s a).

Record selecting (order : list Address) (s : Selection) : Prop := {
  se_dom a : a ∈ order -> is_Some (queues s !! a);
  se_split a : queue0 a = filter (fun t => etx_sender t = a) (selected s) ++ waiting s a;
  se_gas : gas_used s = total_gas (selected s) /\ 0 <= gas_used s <= limit;
  se_count : len (selected s) <= max_count;
  se_exhausted a : a ∈ exhausted s -> blocked s a
}.

Lemma visit_full (s : Selection) (p : bool) (a : Address) :
  max_count <= len (selected s) -> visit limit max_count (s, p) a = (s, p).
Proof. intros H. unfold visit. by apply Z.leb_le in H as ->. Qed.

(** A turn of a sender that has nothing to offer. *)
Lemma visit_blocked (order : list Address) (s : Selection) (p : bool) (a : Address) :
  selecting order s -> a ∈ order -> len (selected s) < max_count -> blocked s a ->
  exists s', visit limit max_count (s, p) a = (s', p) /\ selecting order s' /\ selected s' = selected s /\ queues s' = queues s.
Proof.
  intros [D Sp [G GR] C E] Ha L B. unfold visit. rewrite (proj2 (Z.leb_gt _ _) L).
  case_bool_decide as Ex; [by exists s|]. destruct (D a Ha) as [q Q]. rewrite Q. unfold blocked, waiting, no_room in B. rewrite Q in B. cbn [default id] in B.
  set (s' := mkSelection (queues s) (selected s) (gas_used s) ({[a]} ∪ exhausted s)).
  assert (selecting order s') as Inv.
  { split; [done|done|done|done|]. cbn. intros b [->%elem_of_singleton|Hb]%elem_of_union; [|by apply E].
    unfold blocked, waiting, no_room. cbn. by rewrite Q. }
  destruct q as [|t rest]; [by exists s'|]. rewrite <- G in B.
  assert ((limit <? saturating_add u64 (gas_used s) (etx_gas_limit t)) = true) as ->; [|by exists s'].
  apply Z.ltb_lt. unfold saturating_add. lia.
Qed.

(** A turn of a sender whose first transaction fits. *)
Lemma visit_takes (order : list Address) (s : Selection) (p : bool) (a : Address) :
  selecting order s -> a ∈ order -> len (selected s) < max_count -> ~ blocked s a ->
  exists s' t, visit limit max_count (s, p) a = (s', true) /\ selecting order s' /\ selected s' = selected s ++ [t] /\ etx_sender t = a /\
    (forall b, b <> a -> waiting s' b = waiting s b).
Proof.
  intros [D Sp [G GR] C E] Ha L B. destruct (waiting s a) as [|t rest] eqn:W; [unfold blocked, no_room in B; rewrite W in B; by destruct B|].
  assert (total_gas (selected s) + etx_gas_limit t <= limit) as Fit by (unfold blocked, no_room in B; rewrite W in B; lia).
  destruct (gas_u64 a t) as [Gt St]; [rewrite Sp, W, elem_of_app; right; by left|].
  exists (mkSelection (<[a := rest]> (queues s)) (selected s ++ [t]) (wrap u64 (gas_used s + etx_gas_limit t)) (exhausted s)), t.
  assert (a ∉ exhausted s) as Ne by (intros Hx; by apply B, E).
  assert (queues s !! a = Some (t :: rest)) as Q.
  { destruct (D a Ha) as [q Q]. unfold waiting in W. rewrite Q in W. cbn in W. by subst. }
  assert (wrap u64 (gas_used s + etx_gas_limit t) = gas_used s + etx_gas_limit t) as Wr by (apply wrap_small; unfold in_range; lia).
  split_and!; [| |done|done|].
  - unfold visit. rewrite (proj2 (Z.leb_gt _ _) L), bool_decide_eq_false_2 by done. rewrite Q, (proj2 (Z.ltb_ge _ _)); [done|].
    unfold saturating_add. lia.
  - assert (forall b, waiting (mkSelection (<[a := rest]> (queues s)) (selected s ++ [t]) (wrap u64 (gas_used s + etx_gas_limit t)) (exhausted s)) b =
      if decide (b = a) then rest else waiting s b) as Wt.
    { intros b. unfold waiting. cbn [queues]. case_decide; [subst; by rewrite lookup_insert_eq|by rewrite lookup_insert_ne by done]. }
    split; cbn [queues selected gas_used exhausted].
    + intros b Hb. destruct (decide (b = a)) as [->|]; [rewrite lookup_insert_eq; eauto|rewrite lookup_insert_ne by done; auto].
    + intros b. rewrite Wt, filter_app, filter_cons. destruct (decide (b = a)) as [->|]; [rewrite decide_True by done|rewrite decide_False by congruence].
      * rewrite Sp, W, <- app_assoc. done.
      * by rewrite Sp, app_nil_r.
    + rewrite total_gas_app, Wr. cbn. lia.
    + unfold len in *. rewrite length_app. cbn. lia.
    + intros b Hb. assert (b <> a) by congruence. specialize (E b Hb). unfold blocked, no_room in *. rewrite Wt, decide_False by done.
      destruct (waiting s b); [done|]. cbn [selected]. rewrite total_gas_app. cbn. lia.
  - intros b Hb. unfold waiting. cbn [queues]. by rewrite lookup_insert_ne by done.
Qed.

Lemma blocked_mono (s s' : Selection) (t : EncryptedTx) (a : Address) :
  selected s' = selected s ++ [t] -> 0 <= etx_gas_limit t -> waiting s' a = waiting s a -> blocked s a -> blocked s' a.
Proof.
  intros E G W B. unfold blocked, no_room in *. rewrite W, E, total_gas_app. destruct (waiting s a); [done|]. cbn. lia.
Qed.

(** Where a sender stands in round [r] before its turn ... *)
Definition before (r : Z) (s : Selection) (a : Address) : Prop := count_of s a <= r /\ (blocked s a \/ count_of s a = r).

(** ... and after it. *)
Definition after (r : Z) (s : Selection) (a : Address) : Prop :=
  count_of s a <= r + 1 /\ (blocked s a \/ count_of s a = r + 1 \/ (count_of s a = r /\ max_count <= len (selected s))).

#[local] Instance blocked_dec (s : Selection) (a : Address) : Decision (blocked s a).
Proof. unfold blocked, no_room. destruct (waiting s a); apply _. Defined.

(** In the round, [todo] have their turns left and [seen] have had them; [p] says
    whether one of these took a place. *)
Record in_round (r : Z) (order seen todo : list Address) (s : Selection) (p : bool) : Prop := {
  ir_nodup : NoDup (seen ++ todo);
  ir_sub : todo ⊆ order;
  ir_inv : selecting order s;
  ir_seen a : a ∈ seen -> after r s a;
  ir_todo a : a ∈ todo -> before r s a;
  ir_progress : if p then exists a, a ∈ seen /\ count_of s a = r + 1
                else forall a, a ∈ seen -> blocked s a \/ max_count <= len (selected s)
}.

Ltac turn_split :=
  match goal with H : NoDup (?seen ++ ?a :: ?todo) |- _ => replace (seen ++ a :: todo) with ((seen ++ [a]) ++ todo) in H by (by rewrite <- app_assoc) end;
  split; [done|intros ? ?; match goal with H : (?a :: _) ⊆ _ |- _ => apply H; by right end|done|..].

Lemma turn_full (r : Z) (order seen todo : list Address) (a : Address) (s : Selection) (p : bool) :
  max_count <= len (selected s) -> in_round r order seen (a :: todo) s p -> in_round r order (seen ++ [a]) todo s p.
Proof.
  intros Full [N Sub Inv Hs Ht Hp]. destruct (Ht a) as [Ca Ba]; [left|]. turn_split.
  - intros b [Hb| ->%list_elem_of_singleton]%elem_of_app; [auto|]. split; [lia|]. destruct Ba; auto.
  - intros b Hb. apply Ht. by right.
  - destruct p; [destruct Hp as (b & Hb & E); exists b; split; [apply elem_of_app; by left|done]|by right].
Qed.

Lemma turn_blocked (r : Z) (order seen todo : list Address) (a : Address) (s s' : Selection) (p : bool) :
  blocked s a -> selecting order s' -> selected s' = selected s -> queues s' = queues s ->
  in_round r order seen (a :: todo) s p -> in_round r order (seen ++ [a]) todo s' p.
Proof.
  intros B Inv' Es Eq [N Sub Inv Hs Ht Hp]. destruct (Ht a) as [Ca _]; [left|].
  assert (forall b, blocked s' b <-> blocked s b) as Eb by (intros b; unfold blocked, waiting, no_room; by rewrite Es, Eq).
  assert (forall b, count_of s' b = count_of s b) as Ec by (intros b; unfold count_of; by rewrite Es). turn_split.
  - intros b Hb. unfold after. rewrite Eb, Ec, Es. apply elem_of_app in Hb as [Hb| ->%list_elem_of_singleton]; [by apply Hs|]. split; [lia|auto].
  - intros b Hb. unfold before. rewrite Eb, Ec. apply Ht. by right.
  - destruct p; [destruct Hp as (b & Hb & E); exists b; rewrite Ec; split; [apply elem_of_app; by left|done]|].
    intros b [Hb| ->%list_elem_of_singleton]%elem_of_app; rewrite Eb, Es; [auto|by left].
Qed.

Lemma turn_takes (r : Z) (order seen todo : list Address) (s s' : Selection) (t : EncryptedTx) (p : bool) :
  ~ blocked s (etx_sender t) -> len (selected s) < max_count -> selecting order s' -> selected s' = selected s ++ [t] ->
  (forall b, b <> etx_sender t -> waiting s' b = waiting s b) ->
  in_round r order seen (etx_sender t :: todo) s p -> in_round r order (seen ++ [etx_sender t]) todo s' true.
Proof.
  intros B Room Inv' Es Wt [N Sub Inv Hs Ht _]. destruct (Ht (etx_sender t)) as [Ca [Ba|Ba]]; [left|done|].
  assert (0 <= etx_gas_limit t) as Gt.
  { apply (gas_u64 (etx_sender t) t). rewrite (se_split _ _ Inv' (etx_sender t)), Es, filter_app, !elem_of_app.
    left. right. apply list_elem_of_filter. split; [done|left]. }
  assert (forall b, count_of s' b = count_of s b + (if decide (etx_sender t = b) then 1 else 0)) as Ec.
  { intros b. unfold count_of. by rewrite Es, count_from_snoc. }
  pose proof N as (_ & N2 & [N3 _]%NoDup_cons)%NoDup_app. turn_split.
  - intros b [Hb| ->%list_elem_of_singleton]%elem_of_app; [|split; rewrite Ec, decide_True by done; [lia|right; left; lia]].
    assert (etx_sender t <> b) by (intros <-; apply (N2 _ Hb); left). destruct (Hs b Hb) as [Cb Bb].
    split; rewrite Ec, decide_False by done; [lia|].
    destruct Bb as [Bb|[Bb|[_ Bb]]]; [left; eapply blocked_mono; eauto|right; left; lia|lia].
  - intros b Hb. assert (etx_sender t <> b) by (by intros <-). destruct (Ht b) as [Cb Bb]; [by right|].
    split; rewrite Ec, decide_False by done; [lia|]. destruct Bb as [Bb|Bb]; [left; eapply blocked_mono; eauto|right; lia].
  - exists (etx_sender t). split; [apply elem_of_app; right; left|]. rewrite Ec, decide_True by done. lia.
Qed.

Lemma round_spec (r : Z) (order todo seen : list Address) (s : Selection) (p : bool) :
  in_round r order seen todo s p ->
  let '(s', p') := foldl (visit limit max_count) (s, p) todo in in_round r order (seen ++ todo) [] s' p'.
Proof.
  revert seen s p. induction todo as [|a todo IH]; intros seen s p R; [cbn [foldl]; by rewrite app_nil_r|].
  replace (seen ++ a :: todo) with ((seen ++ [a]) ++ todo) by (by rewrite <- app_assoc).
  assert (a ∈ order) as Ha by (apply (ir_sub _ _ _ _ _ _ R); left). pose proof (ir_inv _ _ _ _ _ _ R) as Inv. cbn [foldl].
  destruct (Z.leb_spec max_count (len (selected s))) as [Full|Room]; [|destruct (decide (blocked s a)) as [B|B]].
  - rewrite visit_full by done. apply IH. by apply turn_full.
  - destruct (visit_blocked order s p a Inv Ha Room B) as (s' & -> & Inv' & Es & Eq). apply IH. by apply (turn_blocked _ _ _ _ _ s).
  - destruct (visit_takes order s p a Inv Ha Room B) as (s' & t & -> & Inv' & Es & <- & Wt). apply IH. by apply (turn_takes _ _ _ _ s _ _ p).
Qed.

(** What the rounds end with: no sender is more than one ahead of another that
    could still go, and the block is full or every sender is blocked. *)
Definition settled (order : list Address) (s : Selection) : Prop :=
  selecting order s /\
  (forall a b, a ∈ order -> b ∈ order -> count_of s a <= count_of s b + 1 \/ blocked s b) /\
  (max_count <= len (selected s) \/ forall a, a ∈ order -> blocked s a).

(** As many rounds suffice as the longest queue has transactions. *)
Lemma rounds_end (n : nat) (order : list Address) (fuel : nat) (r : Z) (s : Selection) :
  NoDup order -> (forall a, (length (queue0 a) <= n)%nat) -> 0 <= r <= Z.of_nat n -> (S n <= fuel + Z.to_nat r)%nat ->
  selecting order s -> (forall a, a ∈ order -> before r s a) ->
  exists s', rounds fuel limit max_count order s = Some s' /\ settled order s'.
Proof.
  intros N Hn. revert r s. induction fuel as [|fuel IH]; intros r s Hr Hf Inv Hb; [lia|]. cbn [rounds].
  destruct (Z.leb_spec max_count (len (selected s))) as [Full|Room].
  { exists s. split; [done|]. split; [done|]. split; [|by left]. intros a b Ha Hb'. destruct (Hb a Ha), (Hb b Hb') as [_ []]; [by right|left; lia]. }
  assert (in_round r order [] order s false) as R0.
  { split; [done|done|done| |done|]; intros a Ha; by apply not_elem_of_nil in Ha. }
  pose proof (round_spec r order order [] s false R0) as R. cbn [app] in R.
  destruct (foldl (visit limit max_count) (s, false) order) as [s' p']. destruct R as [_ _ Inv' Ha _ Hp].
  destruct p'.
  - destruct Hp as (a & Ho & Ca).
    assert (r + 1 <= Z.of_nat n) as Hr'.
    { rewrite <- Ca. specialize (Hn a). rewrite (se_split _ _ Inv' a), length_app in Hn. unfold count_of, count_from, len. lia. }
    destruct (Z.leb_spec max_count (len (selected s'))) as [Full|Room'].
    + exists s'. split; [destruct fuel; cbn [rounds]; by rewrite (proj2 (Z.leb_le _ _) Full)|].
      split; [done|]. split; [|by left]. intros b c Hb' Hc. destruct (Ha b Hb') as [? _], (Ha c Hc) as [_ [|[]]]; [by right|left; lia|left; lia].
    + apply (IH (r + 1)); [lia|lia|done|]. intros b Hb'. destruct (Ha b Hb') as [? [|[|[_ ?]]]]; split; auto; lia.
  - exists s'. split; [done|]. split; [done|].
    split; [|destruct (Z.leb_spec max_count (len (selected s'))); [by left|right; intros b Hb'; destruct (Hp b Hb'); [done|lia]]].
    intros b c Hb' Hc. destruct (Ha b Hb') as [? _], (Ha c Hc) as [_ [|[]]]; [by right|left; lia|left; lia].
Qed.
End Select.

(** [C20] Selection for a block ends, fits the block and is fair.  With a gas limit
    below 2^64-1, the selection has at most [max_count] transactions whose gas
    limits sum to at most the block's; they are unexpired transactions of the
    pool, and those of each sender are its earliest ones, in arrival order.  Two
    senders' shares differ by at most one unless the smaller share's sender has
    no further transaction that fits; and the selection stops short of
    [max_count] only when no sender has one. *)
Theorem selection_fair (limit max_count slot : Z) (m : Mempool) :
  0 <= limit < 2 ^ 64 - 1 -> 0 <= max_count -> Forall (fun t => in_range u64 (etx_gas_limit t)) (txs m) ->
  exists sel rest,
    select_for_block limit max_count slot m = Some sel /\ len sel <= max_count /\ total_gas sel <= limit /\
    (forall t, t ∈ sel -> t ∈ txs m /\ is_expired t slot = false) /\
    (forall a, pending slot a (txs m) = filter (fun t => etx_sender t = a) sel ++ rest a) /\
    (forall a b, count_from a sel <= count_from b sel + 1 \/ no_room limit sel (rest b)) /\
    (len sel = max_count \/ forall a, no_room limit sel (rest a)).
Proof.
  intros L C G. unfold select_for_block. destruct (Z.eqb_spec max_count 0) as [->|Nz].
  { exists [], (fun a => pending slot a (txs m)). split_and!; [done|done|cbn; lia|intros t Ht; by apply not_elem_of_nil in Ht|done|by left|by left]. }
  pose proof (group_exact slot (txs m)) as Gr. destruct (foldl (group_tx slot) (∅, []) (txs m)) as [per order]. destruct Gr as (N & D & Q).
  set (queue0 a := pending slot a (txs m)).
  assert (forall a t, t ∈ queue0 a -> 0 <= etx_gas_limit t < 2 ^ 64 /\ etx_sender t = a) as Gq.
  { intros a t [<- [_ Ht]%list_elem_of_filter]%list_elem_of_filter. split; [|done]. exact (proj1 (Forall_forall _ _) G t Ht). }
  assert (forall a, (length (queue0 a) <= length (txs m))%nat) as Ln.
  { intros a. unfold queue0, pending. etransitivity; apply length_filter. }
  destruct (rounds_end limit max_count queue0 L Gq (length (txs m)) order (S (length (txs m))) 0 (mkSelection per [] 0 ∅))
    as (s & -> & [Dm Sp [Eg Rg] Cn _] & Fair & Stop); [done|done|lia|lia| | |].
  { split; cbn; try done; [intros a Ha; by apply D|intros a; unfold waiting; cbn; by rewrite Q|unfold len; cbn; lia]. }
  { intros a _. split; [done|by right]. }
  exists (selected s), (waiting s). rewrite Eg in Rg.
  assert (forall a, a ∉ order -> queue0 a = []) as Out.
  { intros a Ha. rewrite D in Ha. unfold queue0. rewrite <- Q. destruct (per !! a); [by destruct Ha|done]. }
  assert (forall a, a ∉ order -> filter (fun t => etx_sender t = a) (selected s) = [] /\ waiting s a = []) as Out'.
  { intros a Ha. apply app_eq_nil. by rewrite <- Sp, Out. }
  split_and!; [done|done|lia| |exact Sp| |].
  - intros t Ht. assert (t ∈ queue0 (etx_sender t)) as [_ [? ?]%list_elem_of_filter]%list_elem_of_filter; [|done].
    rewrite Sp, elem_of_app. left. by apply list_elem_of_filter.
  - intros a b. destruct (decide (b ∈ order)) as [Hb|Hb]; [|right; by rewrite (proj2 (Out' b Hb))].
    destruct (decide (a ∈ order)) as [Ha|Ha]; [by apply Fair|]. left. unfold count_from. rewrite (proj1 (Out' a Ha)). unfold len. cbn [length]. lia.
  - destruct Stop as [|Stop]; [left; lia|]. right. intros a. destruct (decide (a ∈ order)) as [Ha|Ha]; [by apply Stop|by rewrite (proj2 (Out' a Ha))].
Qed.

(** ** Findings *)

Section Findings.
Context {P : Primitives}.

Lemma rate_quotas (now : Z) (a : Address) (m : Mempool) :
  txs (check_sender_rate now a m).1 = txs m /\ dom (sender_quotas (check_sender_rate now a m).1) = {[a]} ∪ dom (sender_quotas m).
Proof.
  unfold check_sender_rate. set (m1 := set_quotas _ m).
  assert (txs m1 = txs m /\ dom (sender_quotas m1) = {[a]} ∪ dom (sender_quotas m)) as H by (split; [done|apply dom_insert_L]).
  repeat (destruct (_ <=? _); [exact H|]). exact H.
Qed.

(** Rejected submissions use memory.  A submission with a key that is not its
    sender's is rejected, and the source says that this happens before any state
    changes; but the sender's quota record has been created by then, and nothing
    removes the record of a sender that never had a transaction in the pool: the
    quotas grow by every new sender address that is submitted, at no cost. *)
Definition submit (now : Z) (pk : list Z) (m : Mempool) (tx : EncryptedTx) : Mempool := (add_with_pubkey now now tx pk m).1.

(** Submissions under a foreign key leave the pool's transactions alone and
    add every claimed sender to the quota records, without bound. *)
Theorem rejected_submissions_grow (now : Z) (pk : list Z) (subs : list EncryptedTx) (m : Mempool) :
  Forall (fun tx => derive_eoa_address pk <> etx_sender tx) subs ->
  txs (foldl (submit now pk) m subs) = txs m /\
  dom (sender_quotas (foldl (submit now pk) m subs)) = list_to_set (etx_sender <$> subs) ∪ dom (sender_quotas m).
Proof.
  intros F. revert m. induction F as [|tx subs Hx _ IH]; intros m; cbn [foldl fmap list_fmap list_to_set]; [split; [done|set_solver]|].
  destruct (IH (submit now pk m tx)) as [-> ->].
  assert (submit now pk m tx = (check_sender_rate now (etx_sender tx) m).1) as ->.
  { unfold submit, add_with_pubkey, bind. destruct (check_sender_rate now (etx_sender tx) m) as [m1 [[]|e]]; [|done].
    by rewrite bool_decide_eq_true_2. }
  destruct (rate_quotas now (etx_sender tx) m) as [-> ->]. split; [done|set_solver].
Qed.
End Findings.

(** ** Witnesses *)

Definition toy_sender (n : Z) : Address := replicate 32 n.

Definition toy_pool (l : list EncryptedTx) : Mempool :=
  foldl (fun m tx => (add_unverified_for_devnet 0 0 tx m).1) (Mempool_with_capacity 8) l.

Lemma toy_pool_reachable (l : list EncryptedTx) (m : Mempool) :
  rtc pool_step m (foldl (fun m tx => (add_unverified_for_devnet 0 0 tx m).1) m l).
Proof. revert m. induction l as [|t l IH]; intros m; [apply rtc_refl|]. eapply rtc_l; [apply step_add_unverified|apply IH]. Qed.

(** Three submissions, the second of them twice. *)
Lemma pool_invariant_witness :
  let t1 := toy_etx (toy_sender 1) 0 21000 in
  let t2 := toy_etx (toy_sender 2) 0 21000 in
  let m := toy_pool [t1; t2; t2] in
  length (txs m) = 2%nat /\ in_pool m (toy_sender 2) = 1 /\ len (txs m) <= 8.
Proof.
  intros t1 t2 m. pose proof (pool_invariant 8 m ltac:(lia) (toy_pool_reachable [t1; t2; t2] (Mempool_with_capacity 8))) as (_ & L & _ & _ & H).
  destruct (H (toy_sender 2)) as (E & _).
  assert (count_from (toy_sender 2) (txs m) = 1) as C by (vm_compute; reflexivity).
  split; [vm_compute; reflexivity|]. split; [rewrite E; exact C|exact L].
Defined.

Lemma selection_fair_witness :
  let t n g := toy_etx (toy_sender 1) n g in
  let m := toy_pool [t 0 21000; t 1 21000; toy_etx (toy_sender 2) 0 21000] in
  exists sel, select_for_block 50000 10 1 m = Some sel /\ total_gas sel <= 50000 /\ count_from (toy_sender 2) sel = 1.
Proof.
  intros t m.
  assert (Forall (fun t => in_range u64 (etx_gas_limit t)) (txs m)) as F.
  { assert (forallb (fun t => (0 <=? etx_gas_limit t) && (etx_gas_limit t <? 2 ^ 64)) (txs m) = true) as B by (vm_compute; reflexivity).
    apply Forall_forall. intros x Hx. rewrite forallb_forall in B. apply list_elem_of_In in Hx. specialize (B x Hx). unfold in_range. lia. }
  destruct (selection_fair 50000 10 1 m ltac:(lia) ltac:(lia) F) as (sel & rest & E & _ & G & _).
  exists sel. split; [exact E|]. split; [exact G|].
  assert (count_from (toy_sender 2) <$> select_for_block 50000 10 1 m = Some 1) as C by (vm_compute; reflexivity).
  rewrite E in C. cbn [fmap option_fmap option_map] in C. by injection C.
Defined.

Lemma rejected_submissions_grow_witness :
  let subs := (fun n => toy_etx (toy_sender n) 0 21000) <$> [1; 2; 3] in
  let m := foldl (submit 0 (replicate 897 9)) Mempool_new subs in
  txs m = [] /\ toy_sender 3 ∈ dom (sender_quotas m).
Proof.
  intros subs m.
  assert (Forall (fun tx => derive_eoa_address (replicate 897 9) <> etx_sender tx) subs) as F.
  { assert (forallb (fun tx => bool_decide (derive_eoa_address (replicate 897 9) <> etx_sender tx)) subs = true) as B by (vm_compute; reflexivity).
    apply Forall_forall. intros x Hx. rewrite forallb_forall in B. apply list_elem_of_In in Hx. specialize (B x Hx). by apply bool_decide_eq_true in B. }
  destruct (rejected_submissions_grow 0 (replicate 897 9) subs Mempool_new F) as [T D].
  split; [exact T|]. unfold m. rewrite D. apply elem_of_union_l, elem_of_list_to_set. right. right. left.
Defined.

(** The documented bound on a sender's share does not hold.  The source says
    that no sender gets more than n/k (rounded up) of a block's [n] places when [k]
    senders have transactions in it; of 4 places and 2 senders, one of which has
    one transaction, the other takes 3. *)
Theorem share_exceeds_documented_bound :
  let t n := toy_etx (toy_sender 1) n 21000 in
  let m := toy_pool [toy_etx (toy_sender 2) 0 21000; t 0; t 1; t 2] in
  exists sel, select_for_block 1000000 4 1 m = Some sel /\ count_from (toy_sender 2) sel = 1 /\ count_from (toy_sender 1) sel = 3.
Proof.
  intros t m. assert (exists sel, select_for_block 1000000 4 1 m = Some sel) as [sel E].
  { assert (bool_decide (is_Some (select_for_block 1000000 4 1 m)) = true) as B by (vm_compute; reflexivity).
    apply bool_decide_eq_true in B as [sel E]. eauto. }
  exists sel. split; [exact E|].
  assert ((fun s => (count_from (toy_sender 2) s, count_from (toy_sender 1) s)) <$> select_for_block 1000000 4 1 m = Some (1, 3)) as C by (vm_compute; reflexivity).
  rewrite E in C. cbn [fmap option_fmap option_map] in C. injection C as C1 C2. split; [exact C1|exact C2].
Qed.
