(* ===== verification/BlockCheck.v ===== *)
(** * Checks on received blocks

    The validation half of [node/src/block_processor.rs]: a header against the
    local chain and a checkpoint ([validate_header_with_checkpoint]), a header
    from the network against the committee ([validate_network_block]) and a body
    against its header ([validate_block_body_inner]). *)

From stdpp Require Import base numbers list option gmap strings.
From Stdlib Require Import ZArith Lia.
From S2P Require Import Prelude Crypto Wire Keys Nonce Account Economics Airdrop Multisig State StateManager Transaction Validation.
From S2P Require Import Execution Store Chain ViewChange HotStuff Codec NodeWire Encrypted.

#[local] Open Scope Z_scope.
#[local] Open Scope pyde_scope.

Definition MAX_TIMESTAMP_DRIFT_MS : Z := 5000.
Definition MAX_TXS_PER_BLOCK : Z := 500.
Definition MAX_ENCRYPTED_TXS_PER_BLOCK : Z := 100.

(** The messages of the errors, one constructor each. *)
Inductive BlockError : Type :=
| BeforeCheckpoint (block_slot checkpoint : Z)
| NotAhead (block_slot head : Z)
| ParentMismatch (block_slot : Z)
| TimestampNotAfterParent (ts parent_ts : Z)
| TimestampTooFarAhead (ts now_ms : Z)
| ProposerNotInCommittee (a : Address)
| MissingProposerSignature
| InvalidCommitteeKey
| InvalidSignatureFormat
| ProposerSignatureFailed
| InvalidCommitteeKeyForVrf
| InvalidVrfOutput
| InvalidVrfProof
| ScoreAboveThreshold (score threshold : Z)
| NotViewZeroProposer (block_slot index : Z)
| MalformedFallbackProof (block_slot : Z)
| FallbackSlotMismatch (proof_slot block_slot : Z)
| NotFallbackLeader (index expected block_slot view : Z)
| UnknownProof (block_slot length : Z)
| QcInsufficientVotes (qc_slot votes : Z)
| QcInvalidSignatures (qc_slot : Z)
| TxRootMismatch (root : list Z)
| TooManyEncryptedTxs (n : Z)
| TooManyTxs (n : Z)
| DuplicateTx (hash : list Z)
| GasAboveCeiling (gas : Z)
| EmptyTxSignature (index : nat)
| InvalidTxSignature (index : nat)
| FeesFailed (e : PipelineError)
| ReorgForward (target head : Z)
| ReorgPastCheckpoint (target checkpoint : Z)
| StateRevertFailed (e : string)
| ChainRevertFailed (e : string).

(** ** Headers *)

Definition validate_header_with_checkpoint (h : BlockHeader) (chain : ChainState) (ws_checkpoint_slot : option Z) :
    Result unit BlockError :=
  match ws_checkpoint_slot with
  | Some cp_slot => if slot h <? cp_slot then Err (BeforeCheckpoint (slot h) cp_slot) else Ok tt
  | None => Ok tt
  end >>?
  (if negb (chain_is_genesis chain) && (slot h <=? head_slot chain) then Err (NotAhead (slot h) (head_slot chain))
   else Ok tt).

Section Check.
Context {P : Primitives}.

(** The branches on [vrf_proof], for the proposer at [proposer_idx]. *)
Definition check_leader (h : BlockHeader) (committee_keys : list (list Z)) (epoch_randomness : list Z) (proposer_idx : nat) :
    Result unit BlockError :=
  let n := len committee_keys in
  let idx := Z.of_nat proposer_idx in
  if 33 <=? len (vrf_proof h) then
    match committee_keys !! proposer_idx ≫= FalconPublicKey_from_bytes with
    | None => Err InvalidCommitteeKeyForVrf
    | Some pk =>
        match VrfOutput_from_hash_bytes (take 32 (vrf_proof h)) with
        | None => Err InvalidVrfOutput
        | Some output =>
            if negb (vrf_verify pk (vrf_input epoch_randomness (slot h)) output (drop 32 (vrf_proof h))) then Err InvalidVrfProof
            else if vrf_proposer_threshold n <? score_from_output output
            then Err (ScoreAboveThreshold (score_from_output output) (vrf_proposer_threshold n))
            else if negb (is_view0_proposer (slot h) idx n) then Err (NotViewZeroProposer (slot h) idx)
            else Ok tt
        end
    end
  else if is_fallback_proof (vrf_proof h) then
    match decode_fallback_proof (vrf_proof h) with
    | None => Err (MalformedFallbackProof (slot h))
    | Some (proof_slot, proof_view) =>
        if negb (proof_slot =? slot h) then Err (FallbackSlotMismatch proof_slot (slot h))
        else
          let expected := fallback_leader_index (slot h) proof_view n in
          if negb (idx =? expected) then Err (NotFallbackLeader idx expected (slot h) proof_view) else Ok tt
    end
  else Err (UnknownProof (slot h) (len (vrf_proof h))).

Definition check_proposer_signature (chain_id : Z) (h : BlockHeader) (signature key : list Z) : Result unit BlockError :=
  if len signature =? 0 then Err MissingProposerSignature
  else
    match FalconPublicKey_from_bytes key with
    | None => Err InvalidCommitteeKey
    | Some pk =>
        match FalconSignature_from_bytes signature with
        | None => Err InvalidSignatureFormat
        | Some sig =>
            if negb (falcon_verify pk (proposer_sign_message chain_id (slot h) (header_hash h)) sig)
            then Err ProposerSignatureFailed else Ok tt
        end
    end.

Definition check_timestamp (h : BlockHeader) (parent_timestamp : option Z) (now_ms : Z) : Result unit BlockError :=
  match parent_timestamp with
  | Some parent_ts => if timestamp h <=? parent_ts then Err (TimestampNotAfterParent (timestamp h) parent_ts) else Ok tt
  | None => Ok tt
  end >>?
  (if saturating_add u64 now_ms MAX_TIMESTAMP_DRIFT_MS <? timestamp h then Err (TimestampTooFarAhead (timestamp h) now_ms)
   else Ok tt).

Definition check_previous_qc (chain_id : Z) (qc : QuorumCert) (qc_keys : list (list Z)) : Result unit BlockError :=
  if (0 <? qc_slot qc) && negb (has_quorum_for qc (len qc_keys)) then Err (QcInsufficientVotes (qc_slot qc) (vote_count qc))
  else if negb (verify_qc qc qc_keys chain_id) then Err (QcInvalidSignatures (qc_slot qc))
  else Ok tt.

Definition validate_network_block (chain_id : Z) (h : BlockHeader) (signature : list Z) (committee_keys : list (list Z))
    (qc_previous_committee_keys : option (list (list Z))) (epoch_randomness : list Z)
    (expected_parent_hash : option (list Z)) (parent_timestamp : option Z) (now_ms : Z) : Result unit BlockError :=
  if slot h =? 0 then Ok tt
  else
    match expected_parent_hash with
    | Some expected => if bool_decide (parent_hash h <> expected) then Err (ParentMismatch (slot h)) else Ok tt
    | None => Ok tt
    end >>?
    check_timestamp h parent_timestamp now_ms >>?
    match list_find (fun k => derive_eoa_address k = proposer h) committee_keys with
    | None => Err (ProposerNotInCommittee (proposer h))
    | Some (proposer_idx, key) =>
        check_proposer_signature chain_id h signature key >>?
        check_leader h committee_keys epoch_randomness proposer_idx >>?
        check_previous_qc chain_id (qc_previous h) (default committee_keys qc_previous_committee_keys)
    end.

(** ** Bodies *)

Fixpoint check_duplicates (seen : gset (list Z)) (txs : list Transaction) : Result unit BlockError :=
  match txs with
  | [] => Ok tt
  | tx :: rest =>
      let hash := tx_hash tx in
      if bool_decide (hash ∈ seen) then Err (DuplicateTx hash) else check_duplicates ({[hash]} ∪ seen) rest
  end.

(** [iter().sum()] on [u64], which wraps. *)
Definition gas_sum (txs : list Transaction) : Z := foldl (fun g tx => wrap u64 (g + Tx.gas_limit tx)) 0 txs.

Context {J : Type} `{StateAccess J}.

(** The account in the state, if there is one that decodes. *)
Definition stored_account (s : StateManager J) (a : Address) : option Account := sm_get s (balance_key a) ≫= Account_from_bytes.

Fixpoint check_signatures (s : StateManager J) (i : nat) (txs : list Transaction) : Result unit BlockError :=
  match txs with
  | [] => Ok tt
  | tx :: rest =>
      if len (Tx.signature tx) =? 0 then Err (EmptyTxSignature i)
      else
        match auth_keys <$> stored_account s (Tx.from tx) with
        | Some (Single pk) => if negb (verify_signature tx pk) then Err (InvalidTxSignature i) else check_signatures s (S i) rest
        | _ => check_signatures s (S i) rest
        end
  end.

Definition encrypted_tx_hashes (blobs : list (list Z)) : list (list Z) := etx_hash <$> omap etx_from_bytes blobs.

Definition validate_block_body_inner (b : Block) (s : StateManager J) (chain_id : Z) (verify_signatures : bool) :
    Result unit BlockError :=
  let txs := transactions (body b) in
  let encrypted := encrypted_txs (body b) in
  if negb (verify_tx_root (tx_root (header b)) txs (encrypted_tx_hashes encrypted)) then Err (TxRootMismatch (tx_root (header b)))
  else if MAX_ENCRYPTED_TXS_PER_BLOCK <? len encrypted then Err (TooManyEncryptedTxs (len encrypted))
  else if MAX_TXS_PER_BLOCK <? len txs then Err (TooManyTxs (len txs))
  else if (len txs =? 0) && (len encrypted =? 0) then Ok tt
  else
    check_duplicates ∅ txs >>?
    (if GAS_CEILING <? gas_sum txs then Err (GasAboveCeiling (gas_sum txs)) else Ok tt) >>?
    (if verify_signatures && negb (chain_id =? 31337) then check_signatures s 0 txs else Ok tt).

Definition validate_block_body (b : Block) (s : StateManager J) (chain_id : Z) : Result unit BlockError :=
  validate_block_body_inner b s chain_id false.

Definition validate_synced_block_body (b : Block) (s : StateManager J) (chain_id : Z) : Result unit BlockError :=
  validate_block_body_inner b s chain_id true.
End Check.

(** ** What the checks accept *)

Section Accepted.
Context {P : Primitives}.

Lemma seq_ok {E : Type} (r k : Result unit E) : (r >>? k) = Ok tt <-> r = Ok tt /\ k = Ok tt.
Proof. destruct r as [[]|e]; naive_solver. Qed.

Lemma guard_ok {E : Type} (c : bool) (e : E) (k : Result unit E) : (if c then Err e else k) = Ok tt <-> c = false /\ k = Ok tt.
Proof. destruct c; naive_solver. Qed.

(** The view in which a block is proposed: 0 with a VRF proof, else that of the
    fallback proof. *)
Definition block_view (h : BlockHeader) : Z := if 33 <=? len (vrf_proof h) then 0 else proposal_view h.

(** The member at [i] leads the view of the header, and says so. *)
Definition leads (keys : list (list Z)) (epoch_randomness : list Z) (h : BlockHeader) (i : nat) (key : list Z) : Prop :=
  if 33 <=? len (vrf_proof h) then
    let output := take 32 (vrf_proof h) in
    (exists pk, FalconPublicKey_from_bytes key = Some pk /\
       vrf_verify pk (vrf_input epoch_randomness (slot h)) output (drop 32 (vrf_proof h)) = true) /\
    score_from_output output <= vrf_proposer_threshold (len keys) /\
    Z.of_nat i = slot h mod len keys
  else exists view, decode_fallback_proof (vrf_proof h) = Some (slot h, view) /\ Z.of_nat i = fallback_leader_index (slot h) view (len keys).

Lemma check_leader_exact (keys : list (list Z)) (epoch_randomness : list Z) (h : BlockHeader) (i : nat) (key : list Z) :
  keys !! i = Some key -> check_leader h keys epoch_randomness i = Ok tt <-> leads keys epoch_randomness h i key.
Proof.
  intros Hi. unfold check_leader, leads. destruct (Z.leb_spec 33 (len (vrf_proof h))) as [L|L].
  - assert (VrfOutput_from_hash_bytes (take 32 (vrf_proof h)) = Some (take 32 (vrf_proof h))) as ->.
    { unfold VrfOutput_from_hash_bytes, len in *. by rewrite length_take, (proj2 (Z.eqb_eq _ 32)) by lia. }
    rewrite Hi. cbn [mbind option_bind]. destruct (FalconPublicKey_from_bytes key) as [pk|]; [|split; [done|by intros [(? & ? & _) _]]].
    rewrite !guard_ok, !negb_false_iff, Z.ltb_ge. unfold is_view0_proposer.
    assert (len keys <> 0) as Nz by (apply lookup_lt_Some in Hi; unfold len; lia).
    rewrite (proj2 (Z.eqb_neq _ _) Nz), Z.eqb_eq. split; [intros (V & S & E & _); eauto 10|].
    intros ((pk' & [= <-] & V) & S & E). by split_and!.
  - destruct (decode_fallback_proof (vrf_proof h)) as [[ps pv]|] eqn:D.
    + unfold decode_fallback_proof in D. destruct (is_fallback_proof (vrf_proof h)); [|done].
      rewrite !guard_ok, !negb_false_iff, !Z.eqb_eq. split; [intros (-> & E & _); eauto|]. by intros (v & [= -> <-] & E).
    + destruct (is_fallback_proof _); (split; [done|]); by intros (? & ? & _).
Qed.

Lemma check_signature_exact (chain_id : Z) (h : BlockHeader) (signature key : list Z) :
  check_proposer_signature chain_id h signature key = Ok tt <->
  signature <> [] /\ verifies key (proposer_sign_message chain_id (slot h) (header_hash h)) signature = true.
Proof.
  unfold check_proposer_signature, verifies. destruct signature as [|x signature]; [naive_solver|].
  destruct (Z.eqb_spec (len (x :: signature)) 0) as [E|_]; [unfold len in E; cbn in E; lia|].
  destruct (FalconPublicKey_from_bytes key) as [pk|]; [|naive_solver].
  destruct (FalconSignature_from_bytes (x :: signature)) as [sig|]; [|naive_solver].
  rewrite guard_ok, negb_false_iff. naive_solver.
Qed.

Lemma check_timestamp_exact (h : BlockHeader) (parent_ts : option Z) (now_ms : Z) :
  check_timestamp h parent_ts now_ms = Ok tt <->
  (forall t, parent_ts = Some t -> t < timestamp h) /\ timestamp h <= saturating_add u64 now_ms MAX_TIMESTAMP_DRIFT_MS.
Proof.
  unfold check_timestamp. rewrite seq_ok, guard_ok, Z.ltb_ge. destruct parent_ts as [t|]; [|naive_solver].
  rewrite guard_ok, Z.leb_gt. naive_solver.
Qed.

Lemma check_previous_qc_exact (chain_id : Z) (qc : QuorumCert) (keys : list (list Z)) :
  check_previous_qc chain_id qc keys = Ok tt <->
  (0 < qc_slot qc -> has_quorum_for qc (len keys) = true) /\ verify_qc qc keys chain_id = true.
Proof.
  unfold check_previous_qc. rewrite !guard_ok, negb_false_iff, andb_false_iff, negb_false_iff, Z.ltb_ge.
  destruct (has_quorum_for qc (len keys)); [naive_solver|]. split; [intros ([?|?] & ? & _); [split; [lia|done]|done]|].
  intros [Q V]. split; [|done]. left. destruct (Z.le_gt_cases (qc_slot qc) 0); [done|]. by apply Q in H.
Qed.

(** A header that the network may have sent: it links to its parent, its time is
    plausible, the leader of its view is a member and has signed it, and its
    certificate is one of the committee that voted before. *)
Record proposed (chain_id : Z) (keys qc_keys : list (list Z)) (epoch_randomness : list Z) (parent : option (list Z))
    (parent_ts : option Z) (now_ms : Z) (h : BlockHeader) (signature : list Z) (i : nat) (key : list Z) : Prop := {
  pr_parent p : parent = Some p -> parent_hash h = p;
  pr_after t : parent_ts = Some t -> t < timestamp h;
  pr_drift : timestamp h <= saturating_add u64 now_ms MAX_TIMESTAMP_DRIFT_MS;
  pr_member : keys !! i = Some key /\ derive_eoa_address key = proposer h;
  pr_first j k : (j < i)%nat -> keys !! j = Some k -> derive_eoa_address k <> proposer h;
  pr_signed : signature <> [] /\ verifies key (proposer_sign_message chain_id (slot h) (header_hash h)) signature = true;
  pr_leads : leads keys epoch_randomness h i key;
  pr_quorum : 0 < qc_slot (qc_previous h) -> has_quorum_for (qc_previous h) (len qc_keys) = true;
  pr_qc : verify_qc (qc_previous h) qc_keys chain_id = true
}.

Lemma network_block_iff (chain_id : Z) (h : BlockHeader) (signature : list Z) (keys : list (list Z))
    (qc_keys : option (list (list Z))) (epoch_randomness : list Z) (parent : option (list Z)) (parent_ts : option Z) (now_ms : Z) :
  slot h <> 0 ->
  validate_network_block chain_id h signature keys qc_keys epoch_randomness parent parent_ts now_ms = Ok tt <->
  exists i key, proposed chain_id keys (default keys qc_keys) epoch_randomness parent parent_ts now_ms h signature i key.
Proof.
  intros Nz. unfold validate_network_block. rewrite (proj2 (Z.eqb_neq _ _) Nz).
  set (qk := default keys qc_keys). rewrite !seq_ok, check_timestamp_exact.
  assert ((match parent with Some p => if bool_decide (parent_hash h <> p) then Err (ParentMismatch (slot h)) else Ok tt | None => Ok tt end) = Ok tt
    <-> (forall p, parent = Some p -> parent_hash h = p)) as ->.
  { destruct parent as [p|]; [|naive_solver]. case_bool_decide; naive_solver. }
  destruct (list_find _ keys) as [[i key]|] eqn:F.
  - apply list_find_Some in F as (Hi & Ha & Hf). rewrite !seq_ok, check_signature_exact, (check_leader_exact _ _ _ _ key Hi), check_previous_qc_exact.
    split.
    + intros (Pa & [Ti Dr] & Sg & Ld & Qu & Qc). exists i, key. split; try done. intros j k Lt Hj. exact (Hf j k Hj Lt).
    + intros (j & key' & [Pa Ti Dr [Hj Ha'] Hfirst Sg Ld Qu Qc]).
      assert (j = i) as -> by (destruct (Nat.lt_total i j) as [L|[->|L]]; [by destruct (Hfirst i key L Hi)|done|by destruct (Hf j key' Hj L)]).
      assert (key' = key) as -> by congruence. done.
  - split; [by intros (_ & _ & ?)|]. intros (j & key' & [_ _ _ [Hj Ha'] _ _ _ _ _]). apply list_find_None in F.
    rewrite Forall_lookup in F. by destruct (F j key' Hj).
Qed.

(** [C30] What a node accepts from the network.  A header above genesis passes
    [validate_network_block] if and only if it has the expected parent, a
    timestamp after the parent's and at most five seconds ahead of the clock, a
    proposer that is a member of the committee (found at its first key), a
    signature of that member for this chain, slot and header, the leadership of
    its view (slot modulo committee with a VRF proof, the rotated leader with a
    fallback proof of this slot), and a certificate that the committee of the
    previous block signed, with a quorum unless it is the initial one. *)
Theorem network_block_exact (chain_id : Z) (h : BlockHeader) (signature : list Z) (keys : list (list Z))
    (qc_keys : option (list (list Z))) (epoch_randomness : list Z) (parent : option (list Z)) (parent_ts : option Z) (now_ms : Z) :
  slot h <> 0 ->
  validate_network_block chain_id h signature keys qc_keys epoch_randomness parent parent_ts now_ms = Ok tt <->
  exists i key, proposed chain_id keys (default keys qc_keys) epoch_randomness parent parent_ts now_ms h signature i key.
Proof. apply network_block_iff. Qed.

(** [C31] One proposer per view.  Two headers of the same slot and view that pass the
    network checks against the same committee have the same proposer; if they
    are different headers, that member has signed both for the slot, under its
    one key: a double signature. *)
Theorem one_proposer_per_view (chain_id : Z) (h1 h2 : BlockHeader) (sig1 sig2 : list Z) (keys : list (list Z))
    (qc_keys1 qc_keys2 : option (list (list Z))) (rand : list Z) (parent1 parent2 : option (list Z)) (ts1 ts2 : option Z) (now1 now2 : Z) :
  validate_network_block chain_id h1 sig1 keys qc_keys1 rand parent1 ts1 now1 = Ok tt ->
  validate_network_block chain_id h2 sig2 keys qc_keys2 rand parent2 ts2 now2 = Ok tt ->
  0 < slot h1 < 2 ^ 64 -> slot h1 = slot h2 -> block_view h1 = block_view h2 ->
  proposer h1 = proposer h2 /\
  exists key, key ∈ keys /\ derive_eoa_address key = proposer h1 /\
    verifies key (proposer_sign_message chain_id (slot h1) (header_hash h1)) sig1 = true /\
    verifies key (proposer_sign_message chain_id (slot h1) (header_hash h2)) sig2 = true.
Proof.
  intros V1 V2 Hs Es Ev.
  apply network_block_iff in V1 as (i1 & key1 & [_ _ _ [M1 A1] _ [_ S1] L1 _ _]); [|lia].
  apply network_block_iff in V2 as (i2 & key2 & [_ _ _ [M2 A2] _ [_ S2] L2 _ _]); [|lia].
  assert (forall h i key, slot h = slot h1 -> block_view h = block_view h1 -> keys !! i = Some key -> leads keys rand h i key ->
    Z.of_nat i = fallback_leader_index (slot h1) (block_view h1) (len keys)) as Lead.
  { intros h i key E Eb Hi L. rewrite <- E, <- Eb. unfold leads, block_view, proposal_view in *.
    destruct (Z.leb_spec 33 (len (vrf_proof h))).
    - destruct L as (_ & _ & ->). unfold fallback_leader_index. destruct (Z.eqb_spec (len keys) 0) as [Z0|_].
      + apply lookup_lt_Some in Hi. unfold len in Z0. lia.
      + rewrite Z.add_0_r, wrap_small; [done|]. unfold in_range. lia.
    - destruct L as (v & -> & ->). done. }
  pose proof (Lead h1 i1 key1 eq_refl eq_refl M1 L1) as E1. pose proof (Lead h2 i2 key2 ltac:(done) ltac:(done) M2 L2) as E2.
  assert (i1 = i2) as <- by lia. rewrite M1 in M2. injection M2 as <-.
  split; [congruence|]. exists key1. split; [by eapply list_elem_of_lookup_2|]. split; [done|]. split; [done|]. by rewrite Es.
Qed.
End Accepted.

(** ** Bodies *)

Section Bodies.
Context {P : Primitives} {J : Type} `{StateAccess J}.

Lemma check_duplicates_exact (seen : gset (list Z)) (txs : list Transaction) :
  check_duplicates seen txs = Ok tt <-> NoDup (tx_hash <$> txs) /\ Forall (fun tx => tx_hash tx ∉ seen) txs.
Proof.
  revert seen. induction txs as [|tx txs IH]; intros seen; cbn [check_duplicates fmap list_fmap]; [split; [split; constructor|done]|].
  rewrite guard_ok, bool_decide_eq_false, IH, NoDup_cons, Forall_cons, list_elem_of_fmap, !Forall_forall. split.
  - intros (Ns & N & F). split_and!; try done; [|intros t Ht; specialize (F t Ht); set_solver].
    intros (t & E & Ht). specialize (F t Ht). set_solver.
  - intros ([Nt N] & Ns & F). split_and!; try done. intros t Ht. apply not_elem_of_union. split; [|auto].
    intros E%elem_of_singleton. apply Nt. eauto.
Qed.

Lemma gas_sum_wrap (txs : list Transaction) : gas_sum txs = wrap u64 (foldr (fun tx g => Tx.gas_limit tx + g) 0 txs).
Proof.
  unfold gas_sum. cut (forall g, foldl (fun g tx => wrap u64 (g + Tx.gas_limit tx)) (wrap u64 g) txs =
    wrap u64 (g + foldr (fun tx g => Tx.gas_limit tx + g) 0 txs)); [intros C; exact (C 0)|].
  induction txs as [|tx txs IH]; intros g; cbn [foldl foldr]; [by rewrite Z.add_0_r|].
  assert (wrap u64 (wrap u64 g + Tx.gas_limit tx) = wrap u64 (g + Tx.gas_limit tx)) as -> by (unfold wrap; by rewrite Z.add_mod_idemp_l).
  rewrite IH. f_equal. lia.
Qed.

(** The sender's single key, if the state has one, signed. *)
Definition signed_by_sender (s : StateManager J) (tx : Transaction) : Prop :=
  Tx.signature tx <> [] /\
  forall acct pk, stored_account s (Tx.from tx) = Some acct -> auth_keys acct = Single pk -> verify_signature tx pk = true.

Lemma check_signatures_exact (s : StateManager J) (i : nat) (txs : list Transaction) :
  check_signatures s i txs = Ok tt <-> Forall (signed_by_sender s) txs.
Proof.
  revert i. induction txs as [|tx txs IH]; intros i; cbn [check_signatures]; [split; [constructor|done]|].
  rewrite guard_ok, Forall_cons. unfold signed_by_sender at 1.
  assert ((len (Tx.signature tx) =? 0) = false <-> Tx.signature tx <> []) as ->.
  { rewrite Z.eqb_neq. unfold len. destruct (Tx.signature tx); cbn; split; (done || lia). }
  destruct (stored_account s (Tx.from tx)) as [acct|]; cbn [fmap option_fmap option_map]; [|rewrite IH; naive_solver].
  destruct (auth_keys acct) as [|pk|] eqn:E.
  - rewrite IH. split; [intros [? ?]; split; [split; [done|congruence]|done]|by intros [[? _] ?]].
  - rewrite guard_ok, negb_false_iff, IH. split; [intros (? & ? & ?); split; [split; [done|congruence]|done]|].
    intros [[? V] ?]. split_and!; [done|by eapply V|done].
  - rewrite IH. split; [intros [? ?]; split; [split; [done|congruence]|done]|by intros [[? _] ?]].
Qed.

Record body_matches (b : Block) (s : StateManager J) (chain_id : Z) (verify_signatures : bool) : Prop := {
  bm_root : compute_tx_root (transactions (body b)) (encrypted_tx_hashes (encrypted_txs (body b))) = tx_root (header b);
  bm_encrypted : len (encrypted_txs (body b)) <= MAX_ENCRYPTED_TXS_PER_BLOCK;
  bm_count : len (transactions (body b)) <= MAX_TXS_PER_BLOCK;
  bm_nodup : NoDup (tx_hash <$> transactions (body b));
  bm_gas : wrap u64 (foldr (fun tx g => Tx.gas_limit tx + g) 0 (transactions (body b))) <= GAS_CEILING;
  bm_signed : verify_signatures = true -> chain_id <> 31337 -> Forall (signed_by_sender s) (transactions (body b))
}.

(** What a node accepts as the body of a block: the transactions and the
    decodable encrypted transactions are the ones that the header commits to,
    in this order; at most 500 and 100 of them; no transaction twice; gas limits
    whose sum, modulo 2^64, is within the ceiling; and, for synced blocks of any
    chain but the development network, a signature on every transaction, valid
    under the sender's key where the state has a single one. *)
Theorem block_body_exact (b : Block) (s : StateManager J) (chain_id : Z) (verify_signatures : bool) :
  validate_block_body_inner b s chain_id verify_signatures = Ok tt <-> body_matches b s chain_id verify_signatures.
Proof.
  unfold validate_block_body_inner. rewrite !guard_ok, negb_false_iff, !Z.ltb_ge. unfold verify_tx_root. rewrite bool_decide_eq_true.
  destruct (Z.eqb_spec (len (transactions (body b))) 0) as [E|E]; cbn [andb].
  - assert (transactions (body b) = []) as Et by (destruct (transactions (body b)); [done|unfold len in E; cbn in E; lia]).
    transitivity (compute_tx_root (transactions (body b)) (encrypted_tx_hashes (encrypted_txs (body b))) = tx_root (header b) /\
      len (encrypted_txs (body b)) <= MAX_ENCRYPTED_TXS_PER_BLOCK /\ len (transactions (body b)) <= MAX_TXS_PER_BLOCK).
    + split; [by intros (? & ? & ? & _)|]. intros (? & ? & ?). split_and!; try done. rewrite Et. cbn. by repeat case_match.
    + split; [intros (? & ? & ?); split; try done; rewrite Et; [constructor|done|intros; constructor]|by intros []].
  - rewrite !seq_ok, check_duplicates_exact, guard_ok, Z.ltb_ge, gas_sum_wrap.
    assert ((if verify_signatures && negb (chain_id =? 31337) then check_signatures s 0 (transactions (body b)) else Ok tt) = Ok tt <->
      (verify_signatures = true -> chain_id <> 31337 -> Forall (signed_by_sender s) (transactions (body b)))) as ->.
    { destruct verify_signatures, (Z.eqb_spec chain_id 31337); cbn [andb negb]; try naive_solver. rewrite check_signatures_exact. naive_solver. }
    split; [intros (? & ? & ? & [? _] & [? _] & ?); by split|]. intros []. split_and!; try done. apply Forall_forall. set_solver.
Qed.
End Bodies.

(** ** Witnesses *)

Definition toy_proposer : Address := derive_eoa_address (replicate 897 0).

(** The fallback proposal of view 4 in slot 4, on the first certificate. *)
Definition toy_proposal (ts : Z) : BlockHeader :=
  mkHeader 4 0 H256_zero toy_proposer (encode_fallback_proof 4 4) QuorumCert_empty H256_zero H256_zero ts.

Definition toy_proposal_signature (ts : Z) : list Z :=
  match toy_sign (proposer_sign_message 7 4 (header_hash (toy_proposal ts))) with Ok s => s | Err _ => [] end.

Lemma network_block_exact_witness :
  exists i key, proposed 7 toy_committee toy_committee H256_zero (Some H256_zero) (Some 99) 90 (toy_proposal 100) (toy_proposal_signature 100) i key.
Proof.
  assert (validate_network_block 7 (toy_proposal 100) (toy_proposal_signature 100) toy_committee None H256_zero (Some H256_zero) (Some 99) 90 = Ok tt)
    as V by (vm_compute; reflexivity).
  pose proof (network_block_exact 7 (toy_proposal 100) (toy_proposal_signature 100) toy_committee None H256_zero (Some H256_zero) (Some 99) 90) as T.
  apply T; [discriminate|exact V].
Defined.

Lemma one_proposer_per_view_witness :
  proposer (toy_proposal 100) = proposer (toy_proposal 101) /\ header_hash (toy_proposal 100) <> header_hash (toy_proposal 101).
Proof.
  assert (validate_network_block 7 (toy_proposal 100) (toy_proposal_signature 100) toy_committee None H256_zero None None 90 = Ok tt)
    as V1 by (vm_compute; reflexivity).
  assert (validate_network_block 7 (toy_proposal 101) (toy_proposal_signature 101) toy_committee None H256_zero None None 90 = Ok tt)
    as V2 by (vm_compute; reflexivity).
  pose proof (one_proposer_per_view 7 (toy_proposal 100) (toy_proposal 101) (toy_proposal_signature 100) (toy_proposal_signature 101)
    toy_committee None None H256_zero None None None None 90 90 V1 V2) as T.
  destruct T as [E _]; [cbn; lia|reflexivity|reflexivity|]. split; [exact E|].
  assert (bool_decide (header_hash (toy_proposal 100) = header_hash (toy_proposal 101)) = false) as N by (vm_compute; reflexivity).
  by apply bool_decide_eq_false in N.
Defined.
