(* ===== verification/BlockExec.v ===== *)
(** * Applying blocks

    [node/src/block_processor.rs]: a block is checked, its transactions run over
    overlays of the state, by one overlay or one for each group of the
    schedule, fees and rewards are credited, and the chain moves on
    ([process_full_block_with_aot_and_checkpoint]); a header is applied without a
    body ([process_block_with_checkpoint]); a competing block replaces the head
    ([reorg_to_block]).

    The cache of ahead-of-time compiled code is absent ([aot_cache] is [None]);
    metrics and log lines are left out.  The text that [Debug] gives of a
    pipeline error goes into the receipt of a failed transaction: [debug] stands
    for it. *)

From stdpp Require Import base numbers list option gmap strings sorting.
From Stdlib Require Import ZArith Lia.
From S2P Require Import Prelude Crypto Wire Keys Nonce Account Economics Airdrop Multisig State StateManager Transaction Validation.
From S2P Require Import Execution Store Handlers Pipeline Chain ViewChange HotStuff Codec NodeWire Encrypted BlockCheck.

#[local] Open Scope Z_scope.
#[local] Open Scope pyde_scope.

Section Process.
Context {P : Primitives} {J : Type} `{StateAccess J}.
Context (key_le : Key * Bytes -> Key * Bytes -> Prop) `{!RelDecision key_le}.
Context (debug : PipelineError -> list Z) (fuel : nat).
#[local] Abbreviation SM := (StateManager J).
#[local] Abbreviation Ov := (StateOverlay (StateManager J)).

(** ** Before execution *)

(** One signature of the batch. *)
Definition batch_signature_ok (s : SM) (tx : Transaction) : bool :=
  if len (Tx.signature tx) =? 0 then true
  else
    match auth_keys <$> stored_account s (Tx.from tx) with
    | Some (Single pk) => verify_signature tx pk
    | _ => true
    end.

Definition all_sigs_valid (dev_skip_signature : bool) (s : SM) (txs : list Transaction) : bool :=
  if dev_skip_signature then false else forallb (batch_signature_ok s) txs.

(** [n] empty slots' adjustments. *)
Definition catch_up (n : Z) (fee : Z) : Z := Z.iter n (fun fee => adjust_base_fee fee 0 GAS_TARGET) fee.

Definition block_context (b : Block) (c : ChainState) (s : SM) : BlockContext :=
  let dev_skip_signature := cs_chain_id c =? 31337 in
  mkBlock (slot (header b)) (timestamp (header b)) (chain_base_fee c) GAS_CEILING (cs_chain_id c) (proposer (header b))
    dev_skip_signature (all_sigs_valid dev_skip_signature s (transactions (body b))).

(** ** Execution *)

Definition failed_receipt (tx : Transaction) (e : PipelineError) : Receipt :=
  mkReceipt (tx_hash tx) false 0 0 0 0 0 0 0 [] H256_zero (debug e).

Definition run_tx (ctx : BlockContext) (tx : Transaction) (o : Ov) : Run (Ov * Receipt) :=
  run_bind (execute_transaction fuel tx o ctx) (fun '(o, r) =>
    Returns (o, match r with Ok receipt => receipt | Err e => failed_receipt tx e end)).

(** The transactions one after the other, each with its index. *)
Fixpoint run_txs (ctx : BlockContext) (txs : list (nat * Transaction)) (o : Ov) : Run (Ov * list (nat * Receipt)) :=
  match txs with
  | [] => Returns (o, [])
  | (i, tx) :: rest =>
      run_bind (run_tx ctx tx o) (fun '(o, r) =>
        run_bind (run_txs ctx rest o) (fun '(o, rs) => Returns (o, (i, r) :: rs)))
  end.

Definition effective_gas_sum (receipts : list Receipt) : Z := foldl (fun g r => wrap u64 (g + rc_effective_gas r)) 0 receipts.

Definition defer (w : list (Key * Bytes)) (s : SM) : SM := if decide (w = []) then s else update_batch_deferred w s.

Definition run_sequential (ctx : BlockContext) (block_slot : Z) (txs : list Transaction) (s : SM) : Run (SM * list Receipt * Z) :=
  run_bind (run_txs ctx (imap pair txs) (Overlay_new s)) (fun '(o, rs) =>
    let receipts := rs.*2 in
    let '(w, undo) := into_writes_with_undo key_le o in
    Returns (record_block_undo block_slot undo (defer w s), receipts, effective_gas_sum receipts)).

Record GroupResult : Type := mkGroupResult {
  gr_results : list (nat * Receipt);
  gr_writes : list (Key * Bytes);
  gr_undo : list UndoEntry
}.

(** The transactions of a group; indices out of range are passed over. *)
Definition group_txs (txs : list Transaction) (tx_indices : list nat) : list (nat * Transaction) :=
  omap (fun i => pair i <$> txs !! i) tx_indices.

(** The writes go with the group's last result, if it has one. *)
Definition run_group (ctx : BlockContext) (txs : list Transaction) (s : SM) (tx_indices : list nat) : Run GroupResult :=
  run_bind (run_txs ctx (group_txs txs tx_indices) (Overlay_new s)) (fun '(o, rs) =>
    let '(w, undo) := into_writes_with_undo key_le o in
    Returns (mkGroupResult rs (if decide (rs = []) then [] else w) undo)).

Fixpoint run_groups (ctx : BlockContext) (txs : list Transaction) (s : SM) (groups : list (list nat)) : Run (list GroupResult) :=
  match groups with
  | [] => Returns []
  | g :: rest =>
      run_bind (run_group ctx txs s g) (fun r => run_bind (run_groups ctx txs s rest) (fun rs => Returns (r :: rs)))
  end.

(** [entry(key).or_insert(entry)] *)
Definition or_insert_undo (m : gmap Key UndoEntry) (e : UndoEntry) : gmap Key UndoEntry :=
  match m !! undo_key e with Some _ => m | None => <[undo_key e := e]> m end.

(** The order of the map's keys. *)
Definition undo_le (e1 e2 : UndoEntry) : Prop := key_le (undo_key e1, []) (undo_key e2, []).
#[local] Instance undo_le_dec : RelDecision undo_le := fun e1 e2 => decide (key_le (undo_key e1, []) (undo_key e2, [])).

Definition merge_undo (l : list UndoEntry) : list UndoEntry :=
  merge_sort undo_le (map_to_list (foldl or_insert_undo ∅ l)).*2.

Definition run_parallel (ctx : BlockContext) (block_slot : Z) (txs : list Transaction) (groups : list (list nat)) (s : SM) :
    Run (SM * list Receipt * Z) :=
  run_bind (run_groups ctx txs s groups) (fun grs =>
    let all_results := concat (gr_results <$> grs) in
    let all_writes := concat (gr_writes <$> grs) in
    let receipts := (sort_by_key (fun r => Z.of_nat r.1) all_results).*2 in
    let undo := merge_undo (concat (gr_undo <$> grs)) in
    Returns (record_block_undo block_slot undo (defer all_writes s), receipts, effective_gas_sum all_results.*2)).

Definition run_body (ctx : BlockContext) (b : Block) (s : SM) : Run (SM * list Receipt * Z) :=
  if (length (groups (body b)) <=? 1)%nat then run_sequential ctx (slot (header b)) (transactions (body b)) s
  else run_parallel ctx (slot (header b)) (transactions (body b)) (groups (body b)) s.

(** ** After execution *)

(** The keys that the rest may write. *)
Definition post_keys (proposer : Address) : list Key :=
  [balance_key proposer; balance_key treasury_address; rewards_per_validator_key; supply_key; total_burned_key].

Definition post_overlay_undo (proposer : Address) (s : SM) : list UndoEntry := (fun k => mkUndo k (sm_get s k)) <$> post_keys proposer.

(** An equal share for every active validator. *)
Definition accrue (amount : Z) (s : SM) : SM :=
  let active_count := read_active_validator_count s in
  if 0 <? active_count then
    let per_validator := amount / active_count in
    if 0 <? per_validator then write_rewards_per_validator (saturating_add u128 (read_rewards_per_validator s) per_validator) s else s
  else s.

(** [acct.balance += service_share], through the manager's own [insert]. *)
Definition pay_service_share (proposer : Address) (service_share : Z) (s : SM) : SM :=
  match stored_account s proposer with
  | Some acct =>
      (sm_insert (balance_key proposer)
         (Account_to_bytes (set_balance (wrap u128 (balance acct + service_share)) acct)) s).1
  | None => s
  end.

Definition mint_reward (block_slot : Z) (proposer : Address) (s : SM) : SM :=
  let total_mint := block_reward block_slot in
  if (0 <? total_mint) && negb (bool_decide (proposer = ZERO_ADDRESS)) then
    let service_share := wrap u128 (total_mint * SERVICE_SHARE_PCT) / 100 in
    let pool_share := total_mint - service_share in
    let s := if 0 <? service_share then pay_service_share proposer service_share s else s in
    let s := if 0 <? pool_share then accrue pool_share s else s in
    write_total_supply (saturating_add u128 (read_total_supply s) total_mint) s
  else s.

Definition stream_subsidy (block_slot : Z) (s : SM) : SM :=
  match read_validator_subsidy s with
  | Some subsidy => if (block_slot <? end_slot subsidy) && (0 <? per_block subsidy) then accrue (per_block subsidy) s else s
  | None => s
  end.

Definition track_burn (receipts : list Receipt) (s : SM) : SM :=
  let block_burn := u128_sum (fee_burned <$> receipts) in
  if 0 <? block_burn then write_total_burned (saturating_add u128 (read_total_burned s) block_burn) s else s.

(** ** The block *)

(** The manager and the chain after the call, and what it returns. *)
Definition process_full_block (b : Block) (ws_checkpoint_slot : option Z) (c : ChainState) (s : SM) :
    Run (ChainState * SM * Result (Z * Z * list Receipt) BlockError) :=
  let h := header b in
  match validate_header_with_checkpoint h c ws_checkpoint_slot >>? validate_block_body b s (cs_chain_id c) with
  | Err e => Returns (c, s, Err e)
  | Ok _ =>
      let slots_to_skip := saturating_sub (slot h) (saturating_add u64 (head_slot c) 1) in
      let c := set_base_fee (catch_up slots_to_skip (chain_base_fee c)) c in
      run_bind (run_body (block_context b c s) b s) (fun '(s, receipts, total_gas) =>
        let undo := post_overlay_undo (proposer h) s in
        match apply_block_fees (proposer h) receipts s with
        | (s, Err e) => Returns (c, s, Err (FeesFailed e))
        | (s, Ok _) =>
            let s := track_burn receipts (stream_subsidy (slot h) (mint_reward (slot h) (proposer h) s)) in
            let s := record_block_undo (slot h) undo s in
            let c := advance h (set_base_fee (adjust_base_fee (chain_base_fee c) total_gas GAS_TARGET) c) in
            Returns (c, s, Ok (len (transactions (body b)), total_gas, receipts))
        end)
  end.

Definition process_header (h : BlockHeader) (ws_checkpoint_slot : option Z) (c : ChainState) : ChainState * Result (Z * Z) BlockError :=
  match validate_header_with_checkpoint h c ws_checkpoint_slot with
  | Err e => (c, Err e)
  | Ok _ => (advance h (set_base_fee (catch_up (saturating_sub (slot h) (head_slot c)) (chain_base_fee c)) c), Ok (0, 0))
  end.

Definition reorg_to_block (target : Block) (ws_checkpoint_slot : option Z) (c : ChainState) (s : SM) :
    Run (ChainState * SM * Result (Z * Z * list Receipt) BlockError) :=
  let target_slot := slot (header target) in
  if head_slot c <? target_slot then Returns (c, s, Err (ReorgForward target_slot (head_slot c)))
  else
    let pre_slot := saturating_sub target_slot 1 in
    let guard :=
      match ws_checkpoint_slot with
      | Some cp => if target_slot <=? cp then Err (ReorgPastCheckpoint target_slot cp) else Ok tt
      | None => Ok tt
      end in
    match guard with
    | Err e => Returns (c, s, Err e)
    | Ok _ =>
        match revert_to pre_slot s with
        | (s, Err e) => Returns (c, s, Err (StateRevertFailed e))
        | (s, Ok _) =>
            match revert pre_slot c with
            | (c, Err e) => Returns (c, s, Err (ChainRevertFailed e))
            | (c, Ok _) => process_full_block target ws_checkpoint_slot c s
            end
        end
    end.
End Process.
