(* ===== verification/BlockProps.v ===== *)
(** * Properties of applied blocks

    The transactions of a block touch the state through the interface only, so
    the undo logs of a block cover all its changes: reverting to the slot before
    it restores every read.  Findings about what block execution takes on
    trust. *)

From stdpp Require Import base numbers list option gmap strings sorting.
From Stdlib Require Import ZArith Lia.
From S2P Require Import Prelude Crypto Isa Cpu Memory Vm VmStep Wire Keys Nonce Account Economics Airdrop Multisig State StateManager.
From S2P Require Import Transaction Validation Execution Store Handlers Pipeline PipelineProps Chain ViewChange HotStuff Codec NodeWire.
From S2P Require Import Encrypted BlockCheck BlockExec.

#[local] Open Scope Z_scope.
#[local] Open Scope pyde_scope.

(** ** A transaction changes the state through the interface only *)

Section Frame.
Context {P : Primitives} {St : Type} `{StateAccess St}.
Variable Q : St -> Prop.
Hypothesis Q_insert : forall k v s, Q s -> Q (smt_insert k v s).1.
Hypothesis Q_batch : forall l s, Q s -> Q (smt_update_all l s).1.

Lemma put_keeps (k v : list Z) (s : St) : Q s -> Q (put k v s).
Proof. apply Q_insert. Qed.

Lemma insert_keeps (k v : list Z) (s : St) : Q s -> Q (insert_or_fail k v s).1.
Proof. intros Hs. pose proof (Q_insert k v s Hs). unfold insert_or_fail. by destruct (smt_insert k v s) as [s' [|]]. Qed.

Lemma account_keeps (a : Account) (s : St) : Q s -> Q (store_account a s).1.
Proof. apply insert_keeps. Qed.

Lemma delta_keeps (a : Address) (x y : Account) (s : St) : Q s -> Q (apply_account_delta a x y s).1.
Proof. apply insert_keeps. Qed.

(** Case analysis on a handler: every branch is a chain of writes. *)
Ltac keeps_step :=
  match goal with
  | |- Q (put _ _ _) => apply put_keeps
  | |- Q (write_multisig_nonce _ _) => apply put_keeps
  | |- Q (write_multisig_threshold _ _) => apply put_keeps
  | |- Q (write_emergency_pause_end_slot _ _) => apply put_keeps
  | |- Q (mark_airdrop_claimed _ _) => apply put_keeps
  | |- Q (increment_active_validator_count _) => apply put_keeps
  | |- Q (decrement_active_validator_count _) => apply put_keeps
  | |- Q (store_account _ _).1 => apply account_keeps
  | E : store_account ?a ?s = (?s', _) |- Q ?s' => replace s' with (store_account a s).1 by (by rewrite E)
  | E : insert_or_fail ?k ?v ?s = (?s', _) |- Q ?s' => replace s' with (insert_or_fail k v s).1 by (by rewrite E); apply insert_keeps
  | |- Q _ => assumption
  | |- Q (fst _) => progress cbn [fst]
  | |- Q (fst (fst _)) => progress cbn [fst]
  | |- context [match ?x with _ => _ end] => destruct x eqn:?
  end.
Ltac keeps := repeat keeps_step.

Lemma handlers_keep (tx : Transaction) (ctx : BlockContext) (chain b : Z) (s : St) : Q s ->
  Q (execute_stake_deposit tx b s).1.1 /\ Q (execute_stake_withdraw tx ctx s).1 /\ Q (execute_claim_reward tx b s).1.1 /\
  Q (execute_slash chain tx b s).1.1 /\ Q (execute_claim_airdrop tx ctx b s).1.1 /\ Q (execute_sweep_airdrop tx ctx s).1.
Proof.
  intros Hs. split_and!.
  - unfold execute_stake_deposit. keeps.
  - unfold execute_stake_withdraw. keeps.
  - unfold execute_claim_reward. keeps.
  - unfold execute_slash. keeps.
  - unfold execute_claim_airdrop. keeps.
  - unfold execute_sweep_airdrop. keeps.
Qed.

Lemma governance_keeps (tx : Transaction) (ctx : BlockContext) (s : St) : Q s ->
  Q (execute_multisig_spend tx ctx s).1 /\ Q (execute_rotate_multisig tx ctx s).1 /\
  Q (execute_emergency_pause tx ctx s).1 /\ Q (execute_emergency_resume tx ctx s).1.
Proof.
  intros Hs. split_and!.
  - unfold execute_multisig_spend. keeps.
  - assert (forall pks, Q (default s (write_multisig_signers pks s))) as Hd.
    { intros pks. unfold write_multisig_signers. destruct (encode_signer_set pks); cbn; keeps. }
    unfold execute_rotate_multisig. keeps. apply Hd.
  - unfold execute_emergency_pause. keeps.
  - unfold execute_emergency_resume. keeps.
Qed.

(** A run that ends in a state of which [Q] holds, if it ends. *)
Definition ends_in {A : Type} (f : A -> St) (r : Run A) : Prop := match r with Returns a => Q (f a) | _ => True end.

Lemma ends_bind {A B : Type} (f : A -> St) (g : B -> St) (r : Run A) (k : A -> Run B) :
  ends_in f r -> (forall a, Q (f a) -> ends_in g (k a)) -> ends_in g (run_bind r k).
Proof. destruct r; cbn; auto. Qed.

Lemma contract_keeps (l : list (Address * list Z)) (s : St) : Q s -> Q (foldl persist_contract s l).
Proof.
  revert s. induction l as [|[a code] l IH]; intros s Hs; [done|]. cbn [foldl]. apply IH. unfold persist_contract. keeps.
Qed.

Lemma pvm_keeps (fuel : nat) (tx : Transaction) (code : list Z) (s : St) (ctx : BlockContext) :
  Q s -> ends_in fst (execute_in_pvm fuel tx code s ctx).
Proof.
  intros Hs. unfold execute_in_pvm. destruct (load _ _) as [vm [[]|e]]; [|done]. destruct (execute fuel vm) as [[vm' out]|]; [|done].
  destruct (pvm_return_data _ vm') as [d| |]; cbn [run_bind ends_in fst]; [|done|done].
  destruct (bool_decide _); [|done]. apply contract_keeps. unfold persist_storage. destruct (decide _); [done|]. by apply Q_batch.
Qed.

Lemma install_keeps (a : Address) (code : list Z) (s : St) : Q s -> Q (install_contract a code s).1.
Proof.
  intros Hs. unfold install_contract, store_code, bind.
  assert (Q (insert_or_fail (code_key a) code s).1) as H1 by by apply insert_keeps.
  destruct (insert_or_fail _ _ s) as [s1 [[]|e]]; [|done]. by apply account_keeps.
Qed.

Lemma deploy_keeps (fuel : nat) (tx : Transaction) (sender : Account) (s : St) (ctx : BlockContext) :
  Q s -> ends_in (fun x => x.1.1) (execute_deploy fuel tx sender s ctx).
Proof.
  intros Hs. unfold execute_deploy. set (addr := derive_create_address _ _). destruct (deploy_parts (Tx.data tx)) as [[[c r] args]|].
  - pose proof (install_keeps addr r s Hs) as H1. destruct (install_contract addr r s) as [s1 [[]|e]]; [|done].
    eapply ends_bind; [by apply pvm_keeps|]. by intros [s2 out] H2.
  - pose proof (install_keeps addr (Tx.data tx) s Hs) as H1. by destruct (install_contract addr (Tx.data tx) s) as [s1 [[]|e]].
Qed.

Lemma dispatch_keeps (fuel : nat) (tx : Transaction) (sender : Account) (s : St) (ctx : BlockContext) :
  Q s -> ends_in (fun x => x.1.1) (dispatch_type fuel tx sender s ctx).
Proof.
  intros Hs. destruct (handlers_keep tx ctx (chain_id ctx) (balance sender) s Hs) as (H1 & H2 & H3 & H4 & H5 & H6).
  destruct (governance_keeps tx ctx s Hs) as (H7 & H8 & H9 & H10).
  assert (forall r : St * Z * TxOut, Q r.1.1 -> ends_in (fun x => x.1.1) (with_balance sender r)) as Wb by (by intros [[? ?] ?]).
  assert (forall r : St * TxOut, Q r.1 -> ends_in (fun x => x.1.1) (without_balance sender r)) as Wo by (by intros [? ?]).
  unfold dispatch_type. destruct (Tx.tx_type tx); auto; [|by apply deploy_keeps].
  destruct (decide _); [done|]. destruct (Store.load_code s (Tx.to tx)); [|done].
  eapply ends_bind; [by apply pvm_keeps|]. by intros [s2 out] Hs2.
Qed.

Lemma delta_bind_keeps {A : Type} (a : Address) (x y : Account) (k : unit -> ST St PipelineError A) (s : St) :
  Q s -> (forall s, Q s -> Q (k tt s).1) -> Q (bind (apply_account_delta a x y) k s).1.
Proof.
  intros Hs Hk. unfold bind. pose proof (delta_keeps a x y s Hs) as H1. destruct (apply_account_delta a x y s) as [s1 [[]|e]]; [|done]. by apply Hk.
Qed.

Lemma execute_keeps (fuel : nat) (tx : Transaction) (s : St) (ctx : BlockContext) :
  Q s -> ends_in fst (execute_transaction fuel tx s ctx).
Proof.
  intros Hs. unfold execute_transaction. destruct (is_paused s _ && _); [done|]. destruct (validate_transaction _ _ _ _); [|done].
  destruct (use_nonce _ _) as [ns [[]|e]]; [|done]. pose proof (insert_keeps (nonce_key (Tx.from tx)) (NonceState_to_bytes ns) s Hs) as H1.
  unfold store_nonce. destruct (insert_or_fail _ _ s) as [s1 [[]|e]]; [|done]. cbn [fst] in H1. unfold charge_and_run.
  destruct (pre_execution_charge _ _ _ _) as [[[c sb] gt]|e].
  2:{ cbn [ends_in]. unfold emit_failed_execution_receipt. by apply delta_bind_keeps. }
  destruct (if carries_value _ then _ else _) as [[sb' rb]|e]; [|done].
  eapply ends_bind; [by apply dispatch_keeps|]. intros [[s2 sender2] [out|e]] H2; [|done]. cbn [fst] in H2. cbn [ends_in]. unfold finish_transaction.
  destruct (post_execution_refund _ _ _ _ _) as [[eff ref] fb]. apply delta_bind_keeps; [done|]. intros s3 H3. by apply delta_bind_keeps.
Qed.
End Frame.

(** ** The undo logs of a block *)

Section Undo.
Context {P : Primitives} {J : Type} `{StateAccessOk J} `{!StateBatchOk J}.
Context (key_le : Key * Bytes -> Key * Bytes -> Prop) `{!RelDecision key_le}.
Context (debug : PipelineError -> list Z) (fuel : nat).
#[local] Abbreviation SM := (StateManager J).

(** The log has the old value of every key whose read changed. *)
Record covers (s s' : SM) (es : list UndoEntry) : Prop := {
  co_old e : e ∈ es -> old_value e = sm_get s (undo_key e);
  co_all k : k ∉ undo_key <$> es -> sm_get s' k = sm_get s k
}.

Lemma covers_reverts (s s1 s2 : SM) (es : list UndoEntry) :
  covers s s1 es -> (forall k, sm_get s2 k = sm_get s1 k) ->
  exists s', revert_log es s2 = (s', Ok tt) /\ forall k, sm_get s' k = sm_get s k.
Proof.
  intros [Old All] E. destruct (revert_log_spec s2 es) as (s' & -> & _ & G). exists s'. split; [done|]. intros k. rewrite G.
  destruct (last_write (undo_writes es) k) as [v|] eqn:L.
  - apply last_write_elem in L. unfold undo_writes in L. apply list_elem_of_fmap in L as (e & [= -> ->] & He). rewrite (Old e He).
    pose proof (get_nonempty (S := SM) s (undo_key e)) as N. cbn in N. by destruct (sm_get s (undo_key e)) as [[]|].
  - rewrite E. apply All. apply last_write_none in L. unfold undo_writes in L. by rewrite <- list_fmap_compose in L.
Qed.

Lemma defer_get (w : list (Key * Bytes)) (s : SM) (k : Key) :
  sm_get (defer w s) k = match last_write w k with Some v => stored v | None => sm_get s k end.
Proof. unfold defer. case_decide; [by subst|apply deferred_get]. Qed.

Lemma defer_logs (w : list (Key * Bytes)) (s : SM) : block_undo_logs (defer w s) = block_undo_logs s.
Proof. unfold defer. by case_decide. Qed.

Lemma run_txs_base (ctx : BlockContext) (txs : list (nat * Transaction)) (o o' : StateOverlay SM) (rs : list (nat * Receipt)) :
  run_txs debug fuel ctx txs o = Returns (o', rs) -> ov_base o' = ov_base o /\ rs.*1 = txs.*1.
Proof.
  revert o rs. induction txs as [|[i tx] txs IH]; intros o rs; cbn [run_txs]; [by intros [= <- <-]|]. unfold run_tx.
  assert (ends_in (fun x => ov_base x = ov_base o) fst (execute_transaction fuel tx o ctx)) as K.
  { apply execute_keeps; [done| |done]. intros l x <-. cbn [smt_update_all Overlay_access]. by rewrite Overlay_update_all. }
  destruct (execute_transaction fuel tx o ctx) as [[o1 r]| |]; cbn [run_bind]; [|done|done]. cbn in K.
  destruct (run_txs debug fuel ctx txs o1) as [[o2 rs2]| |] eqn:E; cbn [run_bind]; [|done|done].
  intros [= <- <-]. destruct (IH o1 rs2 E) as [E1 E2]. rewrite !fmap_cons, E1, E2. done.
Qed.

Lemma defer_covers (w : list (Key * Bytes)) (s : SM) (es : list UndoEntry) :
  (forall e, e ∈ es -> old_value e = sm_get s (undo_key e)) -> (forall k, k ∈ w.*1 -> k ∈ undo_key <$> es) -> covers s (defer w s) es.
Proof.
  intros Old All. split; [done|]. intros k Hk. rewrite defer_get. assert (last_write w k = None) as ->; [|done].
  apply last_write_none. intros Hw. by apply Hk, All.
Qed.

Lemma or_insert_all (l : list UndoEntry) :
  let m := foldl or_insert_undo ∅ l in
  (forall k e, m !! k = Some e -> undo_key e = k /\ e ∈ l) /\ (forall e, e ∈ l -> is_Some (m !! undo_key e)).
Proof.
  cbv zeta. induction l as [|x l [IH1 IH2]] using rev_ind.
  { cbn [foldl]. split; [intros k e; by rewrite lookup_empty|intros e He; by apply not_elem_of_nil in He]. }
  rewrite foldl_app. cbn [foldl]. set (m := foldl or_insert_undo ∅ l) in *. unfold or_insert_undo. split.
  - assert (forall k e, m !! k = Some e -> undo_key e = k /\ e ∈ l ++ [x]) as IH.
    { intros k e Hk. destruct (IH1 k e Hk). split; [done|apply elem_of_app; by left]. }
    intros k e. destruct (m !! undo_key x) eqn:E; [apply IH|].
    rewrite lookup_insert_Some. intros [[<- <-]|[_ Hk]]; [split; [done|apply elem_of_app; right; left]|by apply IH].
  - intros e [He| ->%list_elem_of_singleton]%elem_of_app.
    + destruct (m !! undo_key x) eqn:E; [by apply IH2|]. apply lookup_insert_is_Some. destruct (decide (undo_key x = undo_key e)); auto.
    + destruct (m !! undo_key x) eqn:E; [by rewrite E|]. rewrite lookup_insert_eq. eauto.
Qed.

Lemma merge_undo_spec (l : list UndoEntry) :
  (forall e, e ∈ merge_undo key_le l -> e ∈ l) /\ (forall e, e ∈ l -> undo_key e ∈ undo_key <$> merge_undo key_le l).
Proof.
  unfold merge_undo. destruct (or_insert_all l) as [M1 M2]. set (m := foldl or_insert_undo ∅ l) in *. split.
  - intros e He. rewrite merge_sort_Permutation, list_elem_of_fmap in He. destruct He as ([k e'] & -> & He). apply elem_of_map_to_list in He. by apply (M1 k e').
  - intros e He. destruct (M2 e He) as [e' Hm]. destruct (M1 _ _ Hm) as [E _]. apply list_elem_of_fmap. exists e'. split; [done|].
    rewrite merge_sort_Permutation, list_elem_of_fmap. exists (undo_key e, e'). split; [done|]. by apply elem_of_map_to_list.
Qed.


(** The state after the transactions: the writes are deferred and one log that
    covers them is recorded. *)
Lemma run_body_covers (ctx : BlockContext) (b : Block) (s s' : SM) (receipts : list Receipt) (gas : Z) :
  run_body key_le debug fuel ctx b s = Returns (s', receipts, gas) ->
  exists w es, s' = record_block_undo (slot (header b)) es (defer w s) /\ covers s (defer w s) es.
Proof.
  unfold run_body. destruct (_ <=? _)%nat.
  - unfold run_sequential. destruct (run_txs _ _ _ _ _) as [[o rs]| |] eqn:E; cbn [run_bind]; [|done|done].
    apply run_txs_base in E as [E _]. rewrite surjective_pairing with (p := into_writes_with_undo key_le o). intros [= <- <- <-].
    eexists _, _. split; [done|]. cbn in E. rewrite E. apply defer_covers.
    + intros e He. by apply list_elem_of_fmap in He as (k & -> & _).
    + intros k Hk. rewrite <- list_fmap_compose. apply list_elem_of_fmap. by exists k.
  - unfold run_parallel. destruct (run_groups _ _ _ _ _ _ _) as [grs| |] eqn:E; cbn [run_bind]; [|done|done]. intros [= <- <- <-].
    eexists _, _. split; [done|].
    assert (Forall (fun g => exists w, gr_undo g = undo_of w s /\ forall k, k ∈ (gr_writes g).*1 -> k ∈ w.*1) grs) as F.
    { revert grs E. induction (groups (body b)) as [|g gs IH]; intros grs; cbn [run_groups]; [intros [= <-]; constructor|].
      unfold run_group. destruct (run_txs _ _ _ _ _) as [[o rs]| |] eqn:Eg; cbn [run_bind]; [|done|done].
      apply run_txs_base in Eg as [Eg _]. rewrite surjective_pairing with (p := into_writes_with_undo key_le o). cbn [run_bind].
      destruct (run_groups _ _ _ _ _ _ gs) as [grs'| |]; cbn [run_bind]; [|done|done]. intros [= <-]. constructor; [|by apply IH].
      exists (into_writes key_le o). cbn in Eg. rewrite Eg. split; [done|]. cbn [gr_writes]. intros k. case_decide; [|done].
      intros Hk. by apply not_elem_of_nil in Hk. }
    destruct (merge_undo_spec (concat (gr_undo <$> grs))) as [M1 M2]. rewrite Forall_forall in F. apply defer_covers.
    + intros e He. apply M1, list_elem_of_In, in_concat in He as (es & Hes & He). apply list_elem_of_In, list_elem_of_fmap in Hes as (g & -> & Hg).
      destruct (F g Hg) as (w & Eu & _). rewrite Eu in He. apply list_elem_of_In, list_elem_of_fmap in He as (k & -> & _). done.
    + intros k Hk. apply list_elem_of_fmap in Hk as ([k' v] & -> & Hk). apply list_elem_of_In, in_concat in Hk as (ws & Hws & Hk).
      apply list_elem_of_In, list_elem_of_fmap in Hws as (g & -> & Hg). destruct (F g Hg) as (w & Eu & Hw).
      apply (M2 (mkUndo k' (sm_get s k'))), list_elem_of_In, in_concat. exists (gr_undo g). split.
      * apply list_elem_of_In, list_elem_of_fmap. eauto.
      * rewrite Eu. apply list_elem_of_In, list_elem_of_fmap. exists k'. split; [done|]. apply Hw, list_elem_of_fmap. exists (k', v).
        split; [done|]. by apply list_elem_of_In.
Qed.

(** Reads outside [ks] and the undo logs are as in [s]. *)
Record only (ks : list Key) (s s' : SM) : Prop := {
  on_get k : k ∉ ks -> sm_get s' k = sm_get s k;
  on_logs : block_undo_logs s' = block_undo_logs s
}.

Lemma only_refl (ks : list Key) (s : SM) : only ks s s.
Proof. done. Qed.

Lemma only_put (ks : list Key) (s s' : SM) (k : Key) (v : Bytes) : k ∈ ks -> only ks s s' -> only ks s (put k v s').
Proof.
  intros Hk [G L]. split; [|exact L]. intros k' Hk'. unfold put. cbn [smt_insert StateManager_access deferred_insert fst].
  rewrite deferred_get. cbn [last_write]. rewrite decide_False by (by intros ->). by apply G.
Qed.

Lemma only_insert (ks : list Key) (s s' : SM) (k : Key) (v : Bytes) : k ∈ ks -> only ks s s' -> only ks s (sm_insert k v s').1.
Proof.
  intros Hk [G L]. unfold sm_insert. pose proof (get_insert (smt s') k v) as Gi. pose proof (insert_ok (smt s') k v) as Io.
  destruct (smt_insert k v (smt s')) as [j [r|e]]; [|done]. cbn [fst] in *. split; [|exact L]. intros k' Hk'. unfold sm_get. cbn [cache smt].
  assert (k <> k') by (by intros ->). rewrite lookup_insert_ne by done. rewrite Gi, decide_False by done. by apply G.
Qed.

Lemma only_accrue (ks : list Key) (x : Z) (s s' : SM) : rewards_per_validator_key ∈ ks -> only ks s s' -> only ks s (accrue x s').
Proof. intros Hk O. unfold accrue. destruct (0 <? _); [|done]. destruct (0 <? _); [|done]. by apply only_put. Qed.

Lemma credit_put (x : Z) (a : Address) (s : SM) (l : list Address) :
  good_accounts s l -> a ∈ l ->
  credit x a s = (put (balance_key a) (Account_to_bytes (set_balance (wrap u128 (balance (load_account s a) + x)) (load_account s a))) s, Ok tt).
Proof.
  intros G Ha. destruct (good_at s l a G Ha) as [_ E]. unfold credit. rewrite store_account_put. cbn [set_balance address]. by rewrite E.
Qed.

Lemma credit_good (x : Z) (a : Address) (s : SM) (l : list Address) :
  separated (KBalance <$> l) -> good_accounts s l -> a ∈ l -> good_accounts (credit x a s).1 l.
Proof.
  intros Sep G Ha. destruct (good_at s l a G Ha) as [W E]. unfold credit. rewrite store_account_put.
  apply store_account_spec; [done|done|by rewrite <- E in Ha|]. apply set_balance_wf; [|done]. unfold wrap, in_range. by apply Z.mod_pos_bound.
Qed.

Lemma only_credit (ks : list Key) (x : Z) (a : Address) (s s' : SM) (l : list Address) :
  good_accounts s' l -> a ∈ l -> balance_key a ∈ ks -> only ks s s' -> only ks s (credit x a s').1.
Proof. intros G Ha Hk O. rewrite (credit_put x a s' l) by done. by apply only_put. Qed.

Lemma only_fees (ks : list Key) (proposer : Address) (receipts : list Receipt) (s : SM) :
  let l := [proposer; treasury_address] in
  separated (KBalance <$> l) -> good_accounts s l -> balance_key proposer ∈ ks -> balance_key treasury_address ∈ ks ->
  exists s', apply_block_fees proposer receipts s = (s', Ok tt) /\ only ks s s'.
Proof.
  intros l Sep G Hp Ht. unfold apply_block_fees, bind. set (v := u128_sum (fee_validator <$> receipts)). set (t := u128_sum (fee_treasury <$> receipts)).
  assert (exists s1, when (0 <? v) (credit v proposer) s = (s1, Ok tt) /\ only ks s s1 /\ good_accounts s1 l) as (s1 & -> & O1 & G1).
  { unfold when. destruct (0 <? v); [|by exists s]. assert (proposer ∈ l) as Hl by left. exists (credit v proposer s).1.
    split; [by rewrite (credit_put v proposer s l)|]. split; [by apply (only_credit ks v proposer s s l)|by apply credit_good]. }
  unfold when. destruct (0 <? t); [|by exists s1]. assert (treasury_address ∈ l) as Hl by (right; left).
  exists (credit t treasury_address s1).1. split; [by rewrite (credit_put t treasury_address s1 l)|by apply (only_credit ks t _ s s1 l)].
Qed.

Lemma only_settled (proposer : Address) (block_slot : Z) (receipts : list Receipt) (s s' : SM) :
  only (post_keys proposer) s s' ->
  only (post_keys proposer) s (track_burn receipts (stream_subsidy block_slot (mint_reward block_slot proposer s'))).
Proof.
  intros O. set (ks := post_keys proposer) in *.
  assert (balance_key proposer ∈ ks /\ rewards_per_validator_key ∈ ks /\ supply_key ∈ ks /\ total_burned_key ∈ ks) as (H1 & H2 & H3 & H4)
    by (unfold ks, post_keys; set_solver).
  assert (only ks s (mint_reward block_slot proposer s')) as O1.
  { unfold mint_reward. destruct (_ && _); [|done]. apply only_put; [done|].
    match goal with |- only _ _ (if ?c then accrue ?x ?s2 else ?s2) => assert (only ks s s2) as Os; [|destruct c; [by apply only_accrue|exact Os]] end.
    destruct (0 <? _); [|done]. unfold pay_service_share. destruct (stored_account s' proposer); [by apply only_insert|done]. }
  assert (only ks s (stream_subsidy block_slot (mint_reward block_slot proposer s'))) as O2.
  { unfold stream_subsidy. destruct (read_validator_subsidy _) as [sub|]; [|done]. destruct (_ && _); [by apply only_accrue|done]. }
  unfold track_burn. destruct (0 <? _); [by apply only_put|done].
Qed.

(** ** Reverting a block *)

Lemma record_two (block_slot : Z) (u1 u2 : list UndoEntry) (logs : list (Z * list UndoEntry)) :
  exists n, drop (length (drop (length (logs ++ [(block_slot, u1)]) - MAX_UNDO_DEPTH) (logs ++ [(block_slot, u1)]) ++ [(block_slot, u2)]) - MAX_UNDO_DEPTH)
    (drop (length (logs ++ [(block_slot, u1)]) - MAX_UNDO_DEPTH) (logs ++ [(block_slot, u1)]) ++ [(block_slot, u2)]) =
  drop n logs ++ [(block_slot, u1); (block_slot, u2)].
Proof.
  set (n1 := (length (logs ++ [(block_slot, u1)]) - MAX_UNDO_DEPTH)%nat).
  assert (n1 <= length logs)%nat as L1 by (unfold n1, MAX_UNDO_DEPTH; rewrite length_app; cbn [length]; lia).
  rewrite (drop_app_le logs [(block_slot, u1)]) by done.
  set (l1 := drop n1 logs). rewrite <- app_assoc. cbn [app].
  set (n2 := (length (l1 ++ [(block_slot, u1); (block_slot, u2)]) - MAX_UNDO_DEPTH)%nat).
  assert (n2 <= length l1)%nat as L2 by (unfold n2, MAX_UNDO_DEPTH; rewrite length_app; cbn [length]; lia).
  exists (n1 + n2)%nat. rewrite drop_app_le by done. unfold l1. by rewrite drop_drop.
Qed.

Lemma revert_two (block_slot : Z) (u1 u2 : list UndoEntry) (old : list (Z * list UndoEntry)) (s s1 s2 s3 : SM) :
  0 < block_slot < 2 ^ 64 -> Forall (fun e => e.1 < block_slot) old ->
  block_undo_logs s3 = old ++ [(block_slot, u1); (block_slot, u2)] ->
  covers s s1 u1 -> covers s1 s2 u2 -> (forall k, sm_get s3 k = sm_get s2 k) ->
  exists s', revert_to (block_slot - 1) s3 = (s', Ok 2) /\ forall k, sm_get s' k = sm_get s k.
Proof.
  intros Hb Ho El C1 C2 E. unfold revert_to. rewrite El.
  assert (rev (old ++ [(block_slot, u1); (block_slot, u2)]) = (block_slot, u2) :: (block_slot, u1) :: rev old) as -> by (by rewrite rev_app_distr).
  assert (exists s', revert_loop ((block_slot, u2) :: (block_slot, u1) :: rev old) (block_slot - 1) 0 s3 = (s', Ok 2) /\
    forall k, sm_get s' k = sm_get s k) as (s' & R & G).
  { cbn [revert_loop]. destruct (Z.leb_spec block_slot (block_slot - 1)); [lia|].
    destruct (covers_reverts s1 s2 s3 u2 C2 E) as (s4 & -> & E4). destruct (covers_reverts s s1 s4 u1 C1 E4) as (s5 & -> & E5).
    destruct (revert_loop_undoes (block_slot - 1) 2 old [] s s5) as (s' & R & _ & G); [|done|exact E5|].
    { eapply Forall_impl; [exact Ho|]. cbn. intros e He. lia. }
    cbn [block_logs] in R. rewrite app_nil_r in R. exists s'. split; [exact R|exact G]. }
  exists s'. split; [|exact G]. rewrite wrap_small by (unfold in_range; lia).
  destruct old as [|[first es] old']; cbn [app]; [destruct (Z.ltb_spec (block_slot - 1 + 1) block_slot); [lia|exact R]|].
  apply Forall_cons in Ho as [Hf _]. cbn in Hf. destruct (Z.ltb_spec (block_slot - 1 + 1) first); [lia|exact R].
Qed.

(** [C5] A reorganisation takes a block back.  Let a block be processed
    successfully, in one group or in parallel groups, with transactions of any
    kind and contract code, on a node whose undo logs are of earlier slots.
    Then reverting to the slot before it succeeds and makes every read of the
    state return what it returned before the block.  (The proposer's and the
    treasury's accounts are assumed to be well formed after the transactions,
    and their keys not to collide.) *)
Theorem processed_block_reverts (b : Block) (cp : option Z) (c c' : ChainState) (s s' : SM) (out : Z * Z * list Receipt) :
  let h := header b in
  let ctx := block_context b (set_base_fee (catch_up (saturating_sub (slot h) (saturating_add u64 (head_slot c) 1)) (chain_base_fee c)) c) s in
  let l := [proposer h; treasury_address] in
  0 < slot h < 2 ^ 64 -> Forall (fun e => e.1 < slot h) (block_undo_logs s) -> separated (KBalance <$> l) ->
  (forall s1 receipts gas, run_body key_le debug fuel ctx b s = Returns (s1, receipts, gas) -> good_accounts s1 l) ->
  process_full_block key_le debug fuel b cp c s = Returns (c', s', Ok out) ->
  exists s'', revert_to (slot h - 1) s' = (s'', Ok 2) /\ forall k, sm_get s'' k = sm_get s k.
Proof.
  intros h ctx l Hs Hl Sep Good. unfold process_full_block. destruct (_ >>? _) as [[]|e]; [|done]. fold h ctx.
  destruct (run_body key_le debug fuel ctx b s) as [[[s1 receipts] gas]| |] eqn:R; cbn [run_bind]; [|done|done].
  pose proof (Good s1 receipts gas eq_refl) as G. destruct (run_body_covers ctx b s s1 receipts gas R) as (w & es & E1 & C1). fold h in E1.
  destruct (only_fees (post_keys (proposer h)) (proposer h) receipts s1 Sep G) as (s2 & -> & O2); [unfold post_keys; set_solver..|].
  intros [= _ <- _]. pose proof (only_settled (proposer h) (slot h) receipts s1 s2 O2) as O3.
  set (s3 := track_burn receipts (stream_subsidy (slot h) (mint_reward (slot h) (proposer h) s2))) in *. clearbody s3. destruct O3 as [G3 L3].
  set (u2 := post_overlay_undo (proposer h) s1).
  destruct (record_two (slot h) es u2 (block_undo_logs s)) as [n En].
  apply (revert_two (slot h) es u2 (drop n (block_undo_logs s)) s (defer w s) s3); try done.
  - by apply Forall_drop.
  - cbn [record_block_undo set_logs block_undo_logs]. rewrite L3, E1. cbn [record_block_undo set_logs block_undo_logs]. rewrite defer_logs. exact En.
  - split.
    + intros e He. unfold u2, post_overlay_undo in He. apply list_elem_of_fmap in He as (k & -> & _). cbn. by rewrite E1.
    + intros k Hk. rewrite G3; [by rewrite E1|]. intros Hp. apply Hk. unfold u2, post_overlay_undo. rewrite <- list_fmap_compose. apply list_elem_of_fmap. by exists k.
Qed.
End Undo.

(** ** What processing a block guarantees *)

Section Outcome.
Context {P : Primitives} {J : Type} `{StateAccessOk J} `{!StateBatchOk J}.
Context (key_le : Key * Bytes -> Key * Bytes -> Prop) `{!RelDecision key_le}.
Context (debug : PipelineError -> list Z) (fuel : nat).
#[local] Abbreviation SM := (StateManager J).

Lemma execute_receipt {St : Type} `{StateAccess St} (tx : Transaction) (s s' : St) (ctx : BlockContext) (r : Receipt) :
  execute_transaction fuel tx s ctx = Returns (s', Ok r) -> rc_tx_hash r = tx_hash tx.
Proof.
  unfold execute_transaction. destruct (is_paused s _ && _); [done|]. destruct (validate_transaction _ _ _ _); [|done].
  destruct (use_nonce _ _) as [ns [[]|e]]; [|done]. destruct (store_nonce _ _ s) as [s1 [[]|e]]; [|done]. unfold charge_and_run.
  destruct (pre_execution_charge _ _ _ _) as [[[c sb] gt]|e].
  2:{ unfold emit_failed_execution_receipt, bind. destruct (apply_account_delta _ _ _ _) as [s2 [[]|e2]]; [|done]. by intros [= _ <-]. }
  destruct (if carries_value _ then _ else _) as [[sb' rb]|e]; [|done].
  destruct (dispatch_type _ _ _ _ _) as [[[s2 sender2] [out|e]]| |]; cbn [run_bind]; [|done..]. unfold finish_transaction.
  destruct (post_execution_refund _ _ _ _ _) as [[eff ref] fb]. unfold bind. destruct (apply_account_delta _ _ _ s2) as [s3 [[]|e3]]; [|done].
  destruct (apply_account_delta _ _ _ s3) as [s4 [[]|e4]]; [|done]. by intros [= _ <-].
Qed.

Lemma run_indices_receipts {St : Type} `{StateAccess St} (txs : list Transaction) (indices : list nat) (s s' : St) (ctx : BlockContext)
    (receipts : list (option Receipt)) (rs : list Receipt) :
  (forall i r, receipts !! i = Some (Some r) -> exists tx, txs !! i = Some tx /\ rc_tx_hash r = tx_hash tx) ->
  run_indices fuel txs indices s ctx receipts = Returns (s', Ok rs) ->
  length rs = length receipts /\ forall i r, rs !! i = Some r -> exists tx, txs !! i = Some tx /\ rc_tx_hash r = tx_hash tx.
Proof.
  revert s receipts. induction indices as [|i indices IH]; intros s receipts I; cbn [run_indices].
  - destruct (mapM id receipts) as [l|] eqn:E; cbn [unwrap run_bind]; [|done]. intros [= _ <-]. apply mapM_Some in E.
    split; [symmetry; by eapply Forall2_length|]. intros i r Hr. destruct (Forall2_lookup_r _ _ _ _ _ E Hr) as (o & Ho & Er). apply I. by rewrite Ho, <- Er.
  - destruct (txs !! i) as [tx|] eqn:Et; cbn [unwrap run_bind]; [|done]. destruct (execute_transaction _ _ _ _) as [[s1 [r|e]]| |] eqn:X; cbn [run_bind]; [|done..].
    intros R. apply IH in R; [by rewrite length_insert in R|]. intros j r' [(-> & [= <-] & _)|[_ Hj]]%list_lookup_insert_Some; [|by apply I].
    exists tx. split; [done|]. exact (execute_receipt tx s s1 ctx r X).
Qed.

(** A block executed by groups on one state has one receipt per transaction, in
    the order of the transactions, whatever the groups are. *)
Theorem parallel_receipts_in_order {St : Type} `{StateAccess St} (txs : list Transaction) (groups : list (list nat)) (s s' : St)
    (ctx : BlockContext) (rs : list Receipt) :
  execute_block_parallel fuel txs groups s ctx = Returns (s', Ok rs) -> rc_tx_hash <$> rs = tx_hash <$> txs.
Proof.
  intros R. apply run_indices_receipts in R as [L G].
  - rewrite length_replicate in L. apply list_eq_same_length with (length txs); [by rewrite length_fmap|by rewrite length_fmap|].
    intros i x y _. rewrite !list_lookup_fmap. destruct (rs !! i) as [r|] eqn:Er; [|done]. destruct (G i r Er) as (tx & -> & E). cbn. congruence.
  - intros i r [Hn _]%lookup_replicate. done.
Qed.

Lemma run_txs_receipts (ctx : BlockContext) (txs : list (nat * Transaction)) (o o' : StateOverlay SM) (rs : list (nat * Receipt)) :
  run_txs debug fuel ctx txs o = Returns (o', rs) -> rc_tx_hash <$> rs.*2 = tx_hash <$> txs.*2.
Proof.
  revert o rs. induction txs as [|[i tx] txs IH]; intros o rs; cbn [run_txs]; [by intros [= <- <-]|]. unfold run_tx.
  destruct (execute_transaction fuel tx o ctx) as [[o1 r]| |] eqn:X; cbn [run_bind]; [|done|done].
  destruct (run_txs debug fuel ctx txs o1) as [[o2 rs2]| |] eqn:E; cbn [run_bind]; [|done|done].
  intros [= <- <-]. rewrite !fmap_cons, (IH o1 rs2 E). f_equal. cbn [snd]. destruct r as [r|e]; [exact (execute_receipt tx o o1 ctx r X)|done].
Qed.

Lemma imap_pair_snd {A : Type} (l : list A) : (imap pair l).*2 = l.
Proof. rewrite fmap_imap. transitivity (id <$> l); [|apply list_fmap_id]. by rewrite <- imap_const. Qed.

(** A block that was applied on the chain [c]. *)
Record applied (b : Block) (cp : option Z) (c c' : ChainState) (s : SM) (n gas : Z) (receipts : list Receipt) : Prop := {
  ap_ahead : chain_is_genesis c = false -> head_slot c < slot (header b);
  ap_checkpoint x : cp = Some x -> x <= slot (header b);
  ap_body : validate_block_body b s (cs_chain_id c) = Ok tt;
  ap_head : head_slot c' = slot (header b);
  ap_header : header_at c' (slot (header b)) = Some (header b);
  ap_fee : chain_base_fee c' =
    adjust_base_fee (catch_up (saturating_sub (slot (header b)) (saturating_add u64 (head_slot c) 1)) (chain_base_fee c)) gas GAS_TARGET;
  ap_count : n = len (transactions (body b));
  ap_receipts : (length (groups (body b)) <= 1)%nat -> rc_tx_hash <$> receipts = tx_hash <$> transactions (body b);
  ap_gas : (length (groups (body b)) <= 1)%nat -> gas = effective_gas_sum receipts
}.

Lemma validate_header_ok (h : BlockHeader) (c : ChainState) (cp : option Z) :
  validate_header_with_checkpoint h c cp = Ok tt ->
  (chain_is_genesis c = false -> head_slot c < slot h) /\ (forall x, cp = Some x -> x <= slot h).
Proof.
  unfold validate_header_with_checkpoint. rewrite seq_ok, guard_ok, andb_false_iff, negb_false_iff, Z.leb_gt.
  intros (C & A & _). split; [intros G; destruct A as [A|A]; [congruence|done]|].
  intros x ->. by apply guard_ok in C as [C%Z.ltb_ge _].
Qed.

Lemma advance_head (h : BlockHeader) (c : ChainState) :
  head_slot (advance h c) = slot h /\ header_at (advance h c) (slot h) = Some h /\ chain_base_fee (advance h c) = chain_base_fee c.
Proof.
  unfold advance, header_at. destruct (Z.leb_spec 2 (slot h / EPOCH_LENGTH)); cbn [head_slot headers chain_base_fee]; [|by rewrite lookup_insert_eq].
  split; [done|]. split; [|done]. apply map_lookup_filter_Some. split; [apply lookup_insert_eq|]. cbn.
  unfold EPOCH_LENGTH. Z.to_euclidean_division_equations. lia.
Qed.

Lemma fees_succeed (a : Address) (receipts : list Receipt) (s : SM) : (apply_block_fees a receipts s).2 = Ok tt.
Proof.
  unfold apply_block_fees, bind, when. assert (forall x a (s : SM), (credit x a s).2 = Ok tt) as C.
  { intros x a' s'. unfold credit. by rewrite store_account_put. }
  destruct (0 <? _); [|by destruct (0 <? _); [apply C|]].
  specialize (C (u128_sum (fee_validator <$> receipts)) a s) as C1. destruct (credit _ a s) as [s1 [[]|e]]; [|done].
  by destruct (0 <? _); [apply C|].
Qed.

Lemma process_block_spec (b : Block) (cp : option Z) (c c' : ChainState) (s s' : SM) (r : Result (Z * Z * list Receipt) BlockError) :
  process_full_block key_le debug fuel b cp c s = Returns (c', s', r) ->
  match r with
  | Err _ => c' = c /\ s' = s
  | Ok (n, gas, receipts) => applied b cp c c' s n gas receipts
  end.
Proof.
  unfold process_full_block. destruct (_ >>? _) as [[]|e] eqn:V; [|by intros [= <- <- <-]].
  apply seq_ok in V as [Vh Vb]. apply validate_header_ok in Vh as [Va Vc].
  set (c1 := set_base_fee _ c). destruct (run_body _ _ _ _ b s) as [[[s1 receipts] gas]| |] eqn:R; cbn [run_bind]; [|done|done].
  pose proof (fees_succeed (proposer (header b)) receipts s1) as F.
  destruct (apply_block_fees _ receipts s1) as [s2 [[]|e]]; [|done]. intros [= <- <- <-].
  set (c2 := set_base_fee (adjust_base_fee (chain_base_fee c1) gas GAS_TARGET) c1).
  destruct (advance_head (header b) c2) as (A1 & A2 & A3).
  assert ((length (groups (body b)) <= 1)%nat -> rc_tx_hash <$> receipts = tx_hash <$> transactions (body b) /\ gas = effective_gas_sum receipts) as Rs.
  { intros L. unfold run_body in R. apply Nat.leb_le in L. rewrite L in R. unfold run_sequential in R.
    destruct (run_txs _ _ _ _ _) as [[o rs]| |] eqn:E; cbn [run_bind] in R; [|done|done].
    rewrite surjective_pairing with (p := into_writes_with_undo key_le o) in R. injection R as _ <- <-. split; [|done].
    by rewrite (run_txs_receipts _ _ _ _ _ E), imap_pair_snd. }
  split; try done; intros; by apply Rs.
Qed.

(** [C13] A block is applied or it is not.  When [process_full_block] reports an
    error, the chain and the state are as before.  When it succeeds, the block was
    ahead of the head, unless the chain was at genesis, and not before the
    checkpoint, its body passed the checks against its header, it is the new head
    and can be looked up, the base fee is the one after the skipped slots and the
    reported gas, the reported count is that of its transactions, and a block
    executed in one group has one receipt for each transaction, in order, whose gas adds up
    to the reported total. *)
Theorem process_block_outcome (b : Block) (cp : option Z) (c c' : ChainState) (s s' : SM) (r : Result (Z * Z * list Receipt) BlockError) :
  process_full_block key_le debug fuel b cp c s = Returns (c', s', r) ->
  match r with
  | Err _ => c' = c /\ s' = s
  | Ok (n, gas, receipts) => applied b cp c c' s n gas receipts
  end.
Proof. apply process_block_spec. Qed.
End Outcome.

(** ** What signatures are needed for *)

(** The block without the signatures of its transactions: the same header commits
    to it. *)
Definition unsigned_body (d : BlockBody) : BlockBody :=
  mkBody (set_signature [] <$> transactions d) (encrypted_txs d) (groups d) (total_txs d).
Definition unsigned (b : Block) : Block := mkBlk (header b) (unsigned_body (body b)) (proposer_signature b).

(** Where a signature is looked at besides its verification: a key registration
    must have none, and it counts for the size. *)
Definition strippable (tx : Transaction) : Prop :=
  (Tx.tx_type tx = RegisterPubkey -> Tx.signature tx = []) /\ len (tx_to_bytes tx) <= Validation.MAX_TX_SIZE.

Section Unsigned.
Context {P : Primitives} {J : Type} `{StateAccess J}.
Context (key_le : Key * Bytes -> Key * Bytes -> Prop) `{!RelDecision key_le}.
Context (debug : PipelineError -> list Z) (fuel : nat).
#[local] Abbreviation SM := (StateManager J).

Lemma unsigned_size (tx : Transaction) : strippable tx -> validate_size (set_signature [] tx) = validate_size tx.
Proof.
  intros [_ L]. unfold validate_size. cbv zeta. change (Tx.data (set_signature [] tx)) with (Tx.data tx).
  assert (len (tx_to_bytes (set_signature [] tx)) <= len (tx_to_bytes tx)) as L'.
  { unfold tx_to_bytes, write_prefixed, len. cbn [set_signature Tx.signature Tx.from Tx.to Tx.value Tx.data Tx.gas_limit Tx.nonce Tx.fee_payer
      Tx.access_list Tx.deadline Tx.chain_id Tx.tx_type]. rewrite !length_app, !length_le_encode. cbn [length]. lia. }
  by rewrite (proj2 (Z.ltb_ge _ _) L), (proj2 (Z.ltb_ge _ _) (Z.le_trans _ _ _ L' L)).
Qed.

Lemma unsigned_validates (tx : Transaction) (sender : Account) (ns : NonceState) (ctx : ValidationContext) :
  sig_pre_verified ctx = true -> strippable tx ->
  validate_transaction (set_signature [] tx) sender ns ctx = validate_transaction tx sender ns ctx.
Proof.
  intros V S. unfold validate_transaction, validate_register_pubkey. rewrite V, (unsigned_size tx S), andb_false_r.
  change (Tx.tx_type (set_signature [] tx)) with (Tx.tx_type tx). change (Tx.signature (set_signature [] tx)) with (@nil Z).
  destruct (decide (Tx.tx_type tx = RegisterPubkey)) as [E|]; [|done]. by rewrite (proj1 S E).
Qed.

Lemma unsigned_executes {St : Type} `{StateAccess St} (tx : Transaction) (s : St) (ctx : BlockContext) :
  block_sigs_pre_verified ctx = true -> strippable tx ->
  execute_transaction fuel (set_signature [] tx) s ctx = execute_transaction fuel tx s ctx.
Proof.
  intros V S. unfold execute_transaction. rewrite (unsigned_validates tx) by done. by destruct tx.
Qed.

Lemma unsigned_runs (ctx : BlockContext) (txs : list (nat * Transaction)) (o : StateOverlay SM) :
  block_sigs_pre_verified ctx = true -> Forall (fun p => strippable p.2) txs ->
  run_txs debug fuel ctx (prod_map id (set_signature []) <$> txs) o = run_txs debug fuel ctx txs o.
Proof.
  intros V F. revert o. induction F as [|[i tx] txs S F IH]; intros o; [done|]. cbn [fmap list_fmap prod_map run_txs].
  unfold run_tx. rewrite (unsigned_executes tx) by done. change (failed_receipt debug (set_signature [] tx)) with (failed_receipt debug tx).
  destruct (execute_transaction fuel tx o ctx) as [[o' r]| |]; cbn [run_bind]; [|done|done]. by rewrite IH.
Qed.

Lemma unsigned_imap (txs : list Transaction) : imap pair (set_signature [] <$> txs) = prod_map id (set_signature []) <$> imap pair txs.
Proof. rewrite imap_fmap, fmap_imap. by apply imap_ext. Qed.

Lemma unsigned_group (txs : list Transaction) (g : list nat) :
  group_txs (set_signature [] <$> txs) g = prod_map id (set_signature []) <$> group_txs txs g.
Proof.
  unfold group_txs. induction g as [|i g IH]; [done|]. cbn [omap list_omap]. rewrite list_lookup_fmap, IH.
  by destruct (txs !! i).
Qed.

Lemma unsigned_groups (ctx : BlockContext) (txs : list Transaction) (s : SM) (gs : list (list nat)) :
  block_sigs_pre_verified ctx = true -> Forall strippable txs ->
  run_groups key_le debug fuel ctx (set_signature [] <$> txs) s gs = run_groups key_le debug fuel ctx txs s gs.
Proof.
  intros V F. induction gs as [|g gs IH]; [done|]. cbn [run_groups]. rewrite IH. f_equal. unfold run_group.
  rewrite unsigned_group, unsigned_runs; [done..|]. apply Forall_forall. intros [i tx] (j & _ & Hj)%list_elem_of_omap.
  destruct (txs !! j) as [tx'|] eqn:E; [|done]. injection Hj as <- <-. by eapply Forall_lookup_1 in E.
Qed.

Lemma unsigned_root (txs : list Transaction) (hs : list (list Z)) : compute_tx_root (set_signature [] <$> txs) hs = compute_tx_root txs hs.
Proof.
  assert (tx_hash <$> (set_signature [] <$> txs) = tx_hash <$> txs) as E by (rewrite <- list_fmap_compose; by apply list_fmap_ext).
  unfold compute_tx_root, tx_root_preimage. rewrite E. by destruct txs.
Qed.

Lemma unsigned_duplicates (txs : list Transaction) (seen : gset (list Z)) :
  check_duplicates seen (set_signature [] <$> txs) = check_duplicates seen txs.
Proof.
  revert seen. induction txs as [|tx txs IH]; intros seen; [done|]. cbn [fmap list_fmap check_duplicates].
  change (tx_hash (set_signature [] tx)) with (tx_hash tx). by rewrite IH.
Qed.

Lemma unsigned_gas (txs : list Transaction) : gas_sum (set_signature [] <$> txs) = gas_sum txs.
Proof.
  unfold gas_sum. generalize 0. induction txs as [|tx txs IH]; intros g; [done|]. cbn [fmap list_fmap foldl]. by rewrite IH.
Qed.

Lemma unsigned_body_checked (b : Block) (s : SM) (chain_id : Z) : validate_block_body (unsigned b) s chain_id = validate_block_body b s chain_id.
Proof.
  unfold validate_block_body, validate_block_body_inner, verify_tx_root, len. cbn [unsigned unsigned_body header body transactions encrypted_txs].
  by rewrite unsigned_root, unsigned_duplicates, unsigned_gas, length_fmap.
Qed.

Lemma unsigned_context (b : Block) (c : ChainState) (s : SM) :
  cs_chain_id c <> DEVNET -> all_sigs_valid false s (transactions (body b)) = true ->
  block_context (unsigned b) c s = block_context b c s /\ block_sigs_pre_verified (block_context b c s) = true.
Proof.
  intros N V. unfold block_context. rewrite (proj2 (Z.eqb_neq (cs_chain_id c) 31337) N), V. split; [|done]. f_equal.
  apply forallb_forall. intros tx I. apply in_map_iff in I as (tx' & <- & _). done.
Qed.

Lemma unsigned_body_runs (ctx : BlockContext) (b : Block) (s : SM) :
  block_sigs_pre_verified ctx = true -> Forall strippable (transactions (body b)) ->
  run_body key_le debug fuel ctx (unsigned b) s = run_body key_le debug fuel ctx b s.
Proof.
  intros V F. unfold run_body, run_sequential, run_parallel. cbn [unsigned unsigned_body header body transactions groups].
  rewrite unsigned_groups by done. rewrite unsigned_imap, unsigned_runs; [done|done|]. apply Forall_lookup. intros i [j tx].
  rewrite list_lookup_imap. intros (tx' & E & [= <- <-])%fmap_Some. by eapply Forall_lookup_1 in E.
Qed.

(** [C37] Finding: the signatures of a block's transactions are not needed to apply
    it.  The batch verification counts a transaction without a signature as
    verified, for later validation to reject; but when the whole batch passes,
    that validation is told to skip signatures.  On every chain but the
    development network, let the signatures of a block pass the batch, its
    transactions fit the size limit, and its key registrations be unsigned, as
    they must.  With all signatures removed the block is processed in exactly the
    same way, on every chain state and state: the same outcome, receipts, chain
    and state. *)
Theorem signatures_not_needed (b : Block) (cp : option Z) (c : ChainState) (s : SM) :
  cs_chain_id c <> DEVNET -> all_sigs_valid false s (transactions (body b)) = true ->
  Forall strippable (transactions (body b)) ->
  process_full_block key_le debug fuel (unsigned b) cp c s = process_full_block key_le debug fuel b cp c s.
Proof.
  intros N V F. unfold process_full_block. change (header (unsigned b)) with (header b). rewrite unsigned_body_checked.
  destruct (_ >>? _); [|done]. set (c1 := set_base_fee _ c). destruct (unsigned_context b c1 s N V) as [-> W].
  rewrite unsigned_body_runs by done.
  assert (len (transactions (body (unsigned b))) = len (transactions (body b))) as -> by (unfold len; cbn; by rewrite length_fmap). done.
Qed.
End Unsigned.

(** ** Witnesses and findings *)

Definition carol : Address := replicate 32 3.

Definition small_node (j : MapState) : StateManager MapState := sm_open j.

(** A chain at slot 0 with a base fee of 1. *)
Definition small_chain (chain_id : Z) : ChainState := set_base_fee 1 (ChainState_genesis H256_zero chain_id).

Definition block_of (txs : list Transaction) (gs : list (list nat)) : Block :=
  mkBlk (mkHeader 1 0 H256_zero bob [] QuorumCert_empty (compute_tx_root txs []) H256_zero 100) (mkBody txs [] gs (len txs)) [].

Definition apply_small (chain_id : Z) (b : Block) (j : MapState) : Run (ChainState * StateManager MapState * Result (Z * Z * list Receipt) BlockError) :=
  process_full_block any_order (fun _ => []) 0 b None (small_chain chain_id) (small_node j).

(** What the block did: whether it was applied, and the balances afterwards. *)
Definition balances_after (accounts : list Address) (r : Run (ChainState * StateManager MapState * Result (Z * Z * list Receipt) BlockError)) :
    option (list Z) :=
  match r with
  | Returns (_, s, Ok _) => Some ((fun a => balance (load_account s a)) <$> accounts)
  | _ => None
  end.

Definition transfer_on (chain_id : Z) (from to : Address) (v nonce : Z) : Transaction :=
  Tx.mkTx from to v [] 30000 nonce [] Sender [] None chain_id Standard.

(** A signed transfer on a chain that is not the development network, and the same
    without its signature, which alice's key does not verify. *)
Lemma signatures_not_needed_witness :
  let key := replicate 897 5 in
  let world := with_account (funded bob 7) (with_account (set_auth_keys (Single key) (funded alice 100000)) PydeSMT_new) in
  let tx := transfer_on 7 alice bob 500 0 in
  let b := block_of [set_signature (tx_hash tx ++ replicate 568 0) tx] [[0%nat]] in
  transactions (body (unsigned b)) = [tx] /\ verify_signature tx key = false /\
  apply_small 7 (unsigned b) world = apply_small 7 b world /\
  balances_after [alice] (apply_small 7 b world) = Some [100000 - 500 - 21000].
Proof.
  intros key world tx b. split; [reflexivity|]. split; [reflexivity|]. split; [|vm_compute; reflexivity].
  apply (signatures_not_needed any_order (fun _ => []) 0 b None (small_chain 7) (small_node world)).
  - discriminate.
  - vm_compute. reflexivity.
  - constructor; [|constructor]. split; [discriminate|]. vm_compute. discriminate.
Defined.

(** Finding: the execution schedule is trusted.  The header does not commit to
    the schedule and nothing compares it to the transactions, so that the same
    header and transactions are applied with any grouping.  Two transfers by
    alice, executed in one group, cost it both amounts and fees; put into two
    groups, each runs on the balance of before the block, the later write wins,
    and alice keeps what one of the transfers paid out: nodes that received
    different schedules fork, and money is made. *)
Theorem schedule_mints :
  let txs := [transfer_on DEVNET alice bob 500 0; transfer_on DEVNET alice carol 900 1] in
  let together := block_of txs [[0; 1]%nat] in
  let apart := block_of txs [[0%nat]; [1%nat]] in
  header together = header apart /\ transactions (body together) = transactions (body apart) /\
  balances_after [alice; carol] (apply_small DEVNET together small_world) = Some [100000 - 500 - 900 - 42000; 900] /\
  balances_after [alice; carol] (apply_small DEVNET apart small_world) = Some [100000 - 900 - 21000; 900].
Proof. vm_compute. split_and!; reflexivity. Qed.

Lemma process_block_outcome_witness :
  let b := block_of [transfer_on DEVNET alice bob 500 0] [[0%nat]] in
  exists c' s' n gas receipts, apply_small DEVNET b small_world = Returns (c', s', Ok (n, gas, receipts)) /\
    applied b None (small_chain DEVNET) c' (small_node small_world) n gas receipts.
Proof.
  intros b. assert (match apply_small DEVNET b small_world with Returns (_, _, Ok _) => true | _ => false end = true) as E by (vm_compute; reflexivity).
  destruct (apply_small DEVNET b small_world) as [[[c' s'] [[[n gas] receipts]|e]]| |] eqn:R; [|discriminate E..].
  exists c', s', n, gas, receipts. split; [reflexivity|].
  exact (process_block_outcome any_order (fun _ => []) 0 b None (small_chain DEVNET) c' (small_node small_world) s' (Ok (n, gas, receipts)) R).
Defined.

Lemma processed_block_reverts_witness :
  let b := block_of [transfer_on DEVNET alice bob 500 0; transfer_on DEVNET alice carol 900 1] [[0%nat]; [1%nat]] in
  exists c' s' out s'', apply_small DEVNET b small_world = Returns (c', s', Ok out) /\
    revert_to 0 s' = (s'', Ok 2) /\ load_account s'' alice = load_account (small_node small_world) alice.
Proof.
  intros b. assert (match apply_small DEVNET b small_world with Returns (_, _, Ok _) => true | _ => false end = true) as E by (vm_compute; reflexivity).
  destruct (apply_small DEVNET b small_world) as [[[c' s'] [out|e]]| |] eqn:R; [|discriminate E..].
  pose proof (processed_block_reverts any_order (fun _ => []) 0 b None (small_chain DEVNET) c' (small_node small_world) s' out) as T.
  cbv zeta in T. destruct T as (s'' & Rv & G).
  - split; [reflexivity|reflexivity].
  - constructor.
  - apply separatedb_ok. vm_compute. reflexivity.
  - intros s1 receipts gas R1.
    match type of R1 with ?x = _ =>
      assert (match x with
        | Returns (s1, _, _) => bool_decide (sm_get s1 (balance_key bob) = Some (Account_to_bytes (funded bob 507)) /\
                                             sm_get s1 (balance_key treasury_address) = None)
        | _ => false
        end = true) as B by (vm_compute; reflexivity) end.
    rewrite R1 in B. apply bool_decide_eq_true in B as [B1 B2].
    assert (load_account s1 bob = funded bob 507) as L1.
    { unfold load_account. cbn [smt_get StateManager_access]. rewrite B1. vm_compute. reflexivity. }
    assert (load_account s1 treasury_address = empty_account treasury_address) as L2.
    { unfold load_account. cbn [smt_get StateManager_access]. rewrite B2. reflexivity. }
    constructor; [|constructor; [|constructor]].
    + split; change (proposer (header b)) with bob; rewrite L1; [|reflexivity].
      apply set_balance_wf; [split; [discriminate|reflexivity]|apply empty_account_wf; reflexivity].
    + split; rewrite L2; [|reflexivity]. apply empty_account_wf. reflexivity.
  - exact R.
  - exists c', s', out, s''. split; [reflexivity|]. split; [exact Rv|]. apply load_account_ne. exact (G (balance_key alice)).
Defined.
