(* ===== verification/Goldilocks.v ===== *)
(** * The Goldilocks field and Lagrange interpolation

    The arithmetic that [crypto/src/threshold.rs] takes from [p3_goldilocks],
    on canonical representatives, with the interpolation loops of that file.
    The modulus is proved prime; with it, interpolation through [n] distinct
    points evaluates the one polynomial of degree below [n] through them. *)

From Stdlib Require Import ZArith Zcong Zdivisibility Lia.
From stdpp Require Import base numbers list option sets gmap.
From S2P Require Import Prelude Crypto.

#[local] Open Scope Z_scope.
#[local] Open Scope pyde_scope.

Definition GOLDILOCKS_PRIME : Z := 0xFFFFFFFF00000001.

(** An element is its canonical representative. *)
Definition canonical (x : Z) : Prop := 0 <= x < GOLDILOCKS_PRIME.

Definition gl (val : Z) : Z := val mod GOLDILOCKS_PRIME.
Definition gl_to_u64 (el : Z) : Z := el.
Definition gl_add (a b : Z) : Z := gl (a + b).
Definition gl_sub (a b : Z) : Z := gl (a - b).
Definition gl_mul (a b : Z) : Z := gl (a * b).

(** [Field::inverse] panics on zero. *)
Definition gl_inv (x : Z) : Run Z := if x =? 0 then Panics else Returns (Z.invmod x GOLDILOCKS_PRIME).

(** ** Interpolation

    [basis_at x xs i] is the product, over the other abscissas, of
    [(x - x_j) / (x_i - x_j)]; every interpolation of the file has this loop,
    with [x] the point of evaluation. *)

Record FieldShare : Type := mkFieldShare { fs_x : Z; fs_y : Z }.

Definition basis_at (x : Z) (xs : list Z) (i : nat) : Run Z :=
  x_i <~ unwrap (xs !! i) ;;
  run_fold (fun basis '(j, x_j) =>
    if Nat.eqb i j then Returns basis
    else
      inv <~ gl_inv (gl_sub x_i x_j) ;;
      Returns (gl_mul basis (gl_mul (gl_sub x x_j) inv))) 1 (imap pair xs).

Definition interpolate_at (x : Z) (shares : list FieldShare) : Run Z :=
  run_fold (fun y '(i, s) =>
    basis <~ basis_at x (fs_x <$> shares) i ;;
    Returns (gl_add y (gl_mul (fs_y s) basis))) 0 (imap pair shares).

Definition shamir_reconstruct (shares : list FieldShare) : Run Z := interpolate_at 0 shares.

#[global] Arguments GOLDILOCKS_PRIME : simpl never.
#[global] Opaque Z.invmod.

(** ** Congruence *)

Definition cong (m a b : Z) : Prop := (m | a - b).

#[global] Instance cong_equivalence (m : Z) : Equivalence (cong m).
Proof.
  split.
  - intros a. exists 0. lia.
  - intros a b [k H]. exists (- k). lia.
  - intros a b c [k H] [l K]. exists (k + l). lia.
Qed.

#[global] Instance cong_add (m : Z) : Proper (cong m ==> cong m ==> cong m) Z.add.
Proof. intros a b [k H] c d [l K]. exists (k + l). lia. Qed.

#[global] Instance cong_sub (m : Z) : Proper (cong m ==> cong m ==> cong m) Z.sub.
Proof. intros a b [k H] c d [l K]. exists (k - l). lia. Qed.

#[global] Instance cong_mul (m : Z) : Proper (cong m ==> cong m ==> cong m) Z.mul.
Proof.
  intros a b [k H] c d [l K]. exists (k * c + b * l).
  replace (a * c - b * d) with ((a - b) * c + b * (c - d)) by ring. rewrite H, K. ring.
Qed.

Lemma cong_pow (m a b n : Z) : 0 <= n -> cong m a b -> cong m (a ^ n) (b ^ n).
Proof.
  intros Hn H. revert n Hn. apply natlike_ind; [done|]. intros n Hn IH.
  rewrite !Z.pow_succ_r by done. by apply cong_mul.
Qed.

Lemma cong_mod (m a : Z) : m <> 0 -> cong m (a mod m) a.
Proof. intros Hm. exists (- (a / m)). rewrite Z.mod_eq by done. lia. Qed.

Lemma cong_eq_mod (m a b : Z) : 0 < m -> cong m a b -> a mod m = b mod m.
Proof. intros Hm [k H]. replace a with (b + k * m) by lia. by rewrite Z.mod_add by lia. Qed.

Lemma cong_small (m a b : Z) : 0 < m -> 0 <= a < m -> 0 <= b < m -> cong m a b -> a = b.
Proof. intros Hm Ha Hb H. apply cong_eq_mod in H; [|done]. by rewrite !Z.mod_small in H. Qed.

Lemma cong_divides (m d a b : Z) : (d | m) -> cong m a b -> cong d a b.
Proof. intros Hd H. by eapply Z.divide_trans. Qed.

(** ** The modulus is prime

    Proth's argument: an element of order [2^k] modulo every divisor of the
    number makes the divisors larger than [2^k]. *)

Lemma odd_part (n : Z) : 0 < n -> exists e r, 0 <= e /\ 0 <= r /\ n = 2 ^ e * (2 * r + 1).
Proof.
  intros Hn. assert (0 <= n) as H0 by lia. revert Hn. pattern n. apply Z_lt_induction; [|done].
  clear n H0. intros n IH Hn. destruct (Z.Even_or_Odd n) as [[k ->]|[k ->]].
  - destruct (IH k) as (e & r & He & Hr & ->); [lia..|].
    exists (Z.succ e), r. rewrite Z.pow_succ_r by lia. lia.
  - exists 0, k. rewrite Z.pow_0_r. lia.
Qed.

Section Divisor.
Variables N g k d : Z.
Hypothesis Hk : 0 <= k.
Hypothesis half : cong N (g ^ 2 ^ k) (-1).
Hypothesis Hd : 2 < d.
Hypothesis Dd : (d | N).

Lemma pow2_pos (e : Z) : 0 <= e -> 0 < 2 ^ e.
Proof. intros H. apply Z.pow_pos_nonneg; lia. Qed.

Lemma half_d : cong d (g ^ 2 ^ k) (-1).
Proof. by eapply cong_divides. Qed.

Lemma order_d : cong d (g ^ 2 ^ Z.succ k) 1.
Proof.
  rewrite Z.pow_succ_r by done. pose proof (pow2_pos k Hk). replace (2 * 2 ^ k) with (2 ^ k + 2 ^ k) by lia.
  rewrite Z.pow_add_r by lia. by rewrite half_d.
Qed.

Lemma minus_one_d : ~ cong d (-1) 1.
Proof. intros [q H]. assert (q = 0 \/ q <= -1 \/ 1 <= q) as [ | [|]] by lia; nia. Qed.

Lemma pow_not_one (n : Z) : 0 < n < 2 ^ Z.succ k -> ~ cong d (g ^ n) 1.
Proof.
  intros Hn H. destruct (odd_part n) as (e & r & He & Hr & En); [lia|].
  assert (e < Z.succ k) as He' by (apply (Z.pow_lt_mono_r_iff 2); [lia..|]; pose proof (pow2_pos e He); nia).
  apply minus_one_d. apply (cong_pow _ _ _ (2 ^ (k - e))) in H; [|apply Z.pow_nonneg; lia].
  rewrite Z.pow_1_l in H by (apply Z.pow_nonneg; lia). rewrite <- H, <- Z.pow_mul_r, En by (try apply Z.pow_nonneg; lia).
  replace (2 ^ e * (2 * r + 1) * 2 ^ (k - e)) with (2 ^ k * (2 * r + 1))
    by (replace (2 ^ k) with (2 ^ e * 2 ^ (k - e)) by (rewrite <- Z.pow_add_r by lia; f_equal; lia); ring).
  rewrite Z.pow_mul_r by (try apply Z.pow_nonneg; lia). rewrite (cong_pow d (g ^ 2 ^ k) (-1)); [|lia|apply half_d].
  rewrite Z.pow_add_r, Z.pow_mul_r by lia. change ((-1) ^ 2) with 1. rewrite Z.pow_1_l, Z.pow_1_r by lia. done.
Qed.

Lemma pow_split (i : Z) : 0 <= i < 2 ^ Z.succ k -> cong d (g ^ i * g ^ (2 ^ Z.succ k - i)) 1.
Proof. intros Hi. rewrite <- Z.pow_add_r by lia. replace (i + (2 ^ Z.succ k - i)) with (2 ^ Z.succ k) by lia. apply order_d. Qed.

Lemma pow_inj (i j : Z) : 0 <= i < 2 ^ Z.succ k -> 0 <= j < 2 ^ Z.succ k -> cong d (g ^ i) (g ^ j) -> i = j.
Proof.
  assert (forall i j, 0 <= i -> i < j -> j < 2 ^ Z.succ k -> ~ cong d (g ^ i) (g ^ j)) as Lt.
  { clear i j. intros i j Hi Hij Hj H. apply (pow_not_one (j - i)); [lia|].
    rewrite <- (Z.mul_1_r (g ^ (j - i))). rewrite <- (pow_split i) at 1 by lia.
    replace (g ^ (j - i) * (g ^ i * g ^ (2 ^ Z.succ k - i))) with (g ^ j * g ^ (2 ^ Z.succ k - i)).
    - rewrite <- H. apply pow_split. lia.
    - replace j with (j - i + i) at 1 by lia. rewrite (Z.pow_add_r g (j - i)) by lia. ring. }
  intros Hi Hj H. destruct (Z.lt_trichotomy i j) as [L|[L|L]]; [|done|].
  - by destruct (Lt i j); [lia..|].
  - by destruct (Lt j i); [lia..|].
Qed.

Lemma pow_nonzero (i : Z) : 0 <= i < 2 ^ Z.succ k -> g ^ i mod d <> 0.
Proof.
  intros Hi H. assert (cong d 0 1) as [q Q]; [|assert (q = 0 \/ q <= -1 \/ 1 <= q) as [ | [|]] by lia; nia].
  rewrite <- (pow_split i) by done. rewrite <- (cong_mod d (g ^ i)) by lia. by rewrite H.
Qed.

Lemma divisor_large : 2 ^ Z.succ k < d.
Proof.
  assert (exists n : nat, Z.of_nat n = 2 ^ Z.succ k) as [n En]
    by (exists (Z.to_nat (2 ^ Z.succ k)); rewrite Z2Nat.id; [done|apply Z.pow_nonneg; lia]).
  set (powers := map (fun i => g ^ Z.of_nat i mod d) (List.seq 0 n)).
  set (units := map Z.of_nat (List.seq 1 (Z.to_nat (d - 1)))).
  assert (length powers <= length units)%nat as L.
  { apply List.NoDup_incl_length.
    - apply List.NoDup_map_NoDup_ForallPairs; [|apply List.seq_NoDup].
      intros i j Hi%List.in_seq Hj%List.in_seq E. apply Nat2Z.inj. apply pow_inj; [lia..|].
      rewrite <- (cong_mod d (g ^ Z.of_nat i)), <- (cong_mod d (g ^ Z.of_nat j)), E by lia. done.
    - intros x (i & <- & Hi%List.in_seq)%List.in_map_iff. apply List.in_map_iff.
      exists (Z.to_nat (g ^ Z.of_nat i mod d)). pose proof (Z.mod_pos_bound (g ^ Z.of_nat i) d ltac:(lia)).
      pose proof (pow_nonzero (Z.of_nat i) ltac:(lia)). split; [lia|]. apply List.in_seq. lia. }
  unfold powers, units in L. rewrite !List.length_map, !List.length_seq in L. lia.
Qed.
End Divisor.

Lemma iter_square (m b : Z) (k : nat) :
  m <> 0 -> cong m (Nat.iter k (fun x => x * x mod m) b) (b ^ 2 ^ Z.of_nat k).
Proof.
  intros Hm. induction k as [|k IH]; [cbn; by rewrite Z.pow_1_r|].
  cbn [Nat.iter nat_rect]. rewrite cong_mod by done. rewrite IH.
  replace (Z.of_nat (S k)) with (Z.succ (Z.of_nat k)) by lia.
  rewrite Z.pow_succ_r, <- Z.pow_add_r by lia. by replace (2 ^ Z.of_nat k + 2 ^ Z.of_nat k) with (2 * 2 ^ Z.of_nat k) by lia.
Qed.

(** An element of order [2^32]. *)
Lemma root_of_unity : exists g, cong GOLDILOCKS_PRIME (g ^ 2 ^ Z.of_nat 31) (-1).
Proof.
  exists 1753635133440165772. generalize (iter_square GOLDILOCKS_PRIME 1753635133440165772 31 ltac:(discriminate)).
  assert (Nat.iter 31 (fun x => x * x mod GOLDILOCKS_PRIME) 1753635133440165772 = GOLDILOCKS_PRIME - 1) as ->
    by (vm_compute; reflexivity).
  generalize (1753635133440165772 ^ 2 ^ Z.of_nat 31). intros x H. rewrite <- H. exists 1. lia.
Qed.

Lemma goldilocks_prime : Z.prime GOLDILOCKS_PRIME.
Proof.
  destruct root_of_unity as [g Hg]. split; [done|]. intros n Hn [k E].
  assert (forall d, 2 < d -> (d | GOLDILOCKS_PRIME) -> 2 ^ Z.succ (Z.of_nat 31) < d) as L.
  { intros d Hd Dd. eapply divisor_large; [|exact Hg|done..]. lia. }
  clear Hg. change (Z.succ (Z.of_nat 31)) with 32 in L. unfold GOLDILOCKS_PRIME in *.
  assert (n <> 2) by (intros ->; lia). assert (k <> 2) by (intros ->; lia). assert (1 < k) by nia.
  assert (2 ^ 32 < n) by (apply L; [lia|by exists k]).
  assert (2 ^ 32 < k) by (apply L; [lia|exists n; lia]). nia.
Qed.

(** ** The field operations, up to congruence *)

Abbreviation eqp := (cong GOLDILOCKS_PRIME).

Lemma gl_canonical (x : Z) : canonical (gl x).
Proof. apply Z.mod_pos_bound. done. Qed.

Lemma gl_cong (x : Z) : eqp (gl x) x.
Proof. by apply cong_mod. Qed.

Lemma gl_small (x : Z) : canonical x -> gl x = x.
Proof. intros H. by apply Z.mod_small. Qed.

Lemma canonical_eq (a b : Z) : canonical a -> canonical b -> eqp a b -> a = b.
Proof. by apply cong_small. Qed.

Definition inverse (x : Z) : Z := Z.invmod x GOLDILOCKS_PRIME.

Lemma inverse_cong (x : Z) : ~ eqp x 0 -> eqp (x * inverse x) 1.
Proof.
  intros H. assert (x mod GOLDILOCKS_PRIME <> 0) as Hx.
  { intros E. apply H. rewrite <- (cong_mod GOLDILOCKS_PRIME x) by done. by rewrite E. }
  rewrite <- (cong_mod GOLDILOCKS_PRIME (x * inverse x)) by done.
  rewrite Z.mul_comm. unfold inverse. by rewrite (Z.invmod_prime x _ goldilocks_prime Hx).
Qed.

Lemma gl_inv_returns (x : Z) : canonical x -> ~ eqp x 0 -> gl_inv x = Returns (inverse x).
Proof. intros C H. unfold gl_inv. destruct (Z.eqb_spec x 0) as [->|_]; [by destruct H|done]. Qed.

Lemma eqp_mul_zero (a b : Z) : eqp (a * b) 0 -> ~ eqp a 0 -> eqp b 0.
Proof.
  intros H Ha. rewrite <- (Z.mul_1_l b), <- (inverse_cong a Ha).
  replace (a * inverse a * b) with (inverse a * (a * b)) by ring. by rewrite H, Z.mul_0_r.
Qed.

(** ** Polynomials, as coefficient lists *)

Fixpoint eval (cs : list Z) (x : Z) : Z :=
  match cs with
  | [] => 0
  | c :: cs' => c + x * eval cs' x
  end.

(** [f] is a polynomial of at most [n] coefficients. *)
Definition poly (n : nat) (f : Z -> Z) : Prop := exists cs, (length cs <= n)%nat /\ forall x, eqp (f x) (eval cs x).

Fixpoint padd (cs ds : list Z) : list Z :=
  match cs, ds with
  | [], _ => ds
  | _, [] => cs
  | c :: cs', d :: ds' => (c + d) :: padd cs' ds'
  end.

Lemma eval_padd (cs ds : list Z) (x : Z) : eval (padd cs ds) x = eval cs x + eval ds x.
Proof.
  revert ds. induction cs as [|c cs IH]; intros [|d ds]; cbn; [lia..|]. rewrite IH. ring.
Qed.

Lemma length_padd (cs ds : list Z) : length (padd cs ds) = Nat.max (length cs) (length ds).
Proof. revert ds. induction cs as [|c cs IH]; intros [|d ds]; cbn; [lia..|]. rewrite IH. lia. Qed.

Lemma eval_scale (k : Z) (cs : list Z) (x : Z) : eval (Z.mul k <$> cs) x = k * eval cs x.
Proof. induction cs as [|c cs IH]; cbn; [lia|]. rewrite IH. ring. Qed.

Lemma eval_cong (cs : list Z) (x y : Z) : eqp x y -> eqp (eval cs x) (eval cs y).
Proof. intros H. induction cs as [|c cs IH]; [reflexivity|]. cbn [eval]. by rewrite IH, H. Qed.

Lemma poly_eval (cs : list Z) : poly (length cs) (eval cs).
Proof. by exists cs. Qed.

Lemma poly_weaken (n m : nat) (f : Z -> Z) : (n <= m)%nat -> poly n f -> poly m f.
Proof. intros L (cs & Lc & E). exists cs. split; [lia|done]. Qed.

Lemma poly_ext (n : nat) (f g : Z -> Z) : (forall x, eqp (f x) (g x)) -> poly n f -> poly n g.
Proof. intros H (cs & Lc & E). exists cs. split; [done|]. intros x. by rewrite <- H. Qed.

Lemma poly_const (n : nat) (c : Z) : poly (S n) (fun _ => c).
Proof. exists [c]. split; [cbn; lia|]. intros x. cbn. by rewrite Z.mul_0_r, Z.add_0_r. Qed.

Lemma poly_zero (n : nat) : poly n (fun _ => 0).
Proof. exists []. split; [cbn; lia|done]. Qed.

Lemma poly_add (n : nat) (f g : Z -> Z) : poly n f -> poly n g -> poly n (fun x => f x + g x).
Proof.
  intros (cs & Lc & Ec) (ds & Ld & Ed). exists (padd cs ds). rewrite length_padd.
  split; [lia|]. intros x. by rewrite eval_padd, Ec, Ed.
Qed.

Lemma poly_scale (n : nat) (k : Z) (f : Z -> Z) : poly n f -> poly n (fun x => k * f x).
Proof.
  intros (cs & Lc & Ec). exists (Z.mul k <$> cs). rewrite length_fmap. split; [done|].
  intros x. by rewrite eval_scale, Ec.
Qed.

Lemma poly_linear (n : nat) (a : Z) (f : Z -> Z) : poly n f -> poly (S n) (fun x => (x - a) * f x).
Proof.
  intros (cs & Lc & Ec). exists (padd (0 :: cs) (Z.mul (- a) <$> cs)).
  rewrite length_padd, length_fmap. split; [cbn; lia|].
  intros x. rewrite eval_padd, eval_scale, Ec. cbn. apply eq_subrelation; [apply _|]. ring.
Qed.

(** Division by [X - a]. *)
Lemma eval_divide (cs : list Z) (a : Z) :
  exists qs, (length qs <= length cs - 1)%nat /\ forall x, eval cs x = eval cs a + (x - a) * eval qs x.
Proof.
  induction cs as [|c cs (qs & Lq & Eq)]; [exists []; split; [done|]; intros x; cbn; lia|].
  destruct cs as [|c' cs].
  { exists []. split; [done|]. intros x. cbn. lia. }
  exists (eval (c' :: cs) a :: qs). split; [cbn in *; lia|]. intros x.
  change (eval (c :: c' :: cs) x) with (c + x * eval (c' :: cs) x).
  change (eval (c :: c' :: cs) a) with (c + a * eval (c' :: cs) a). rewrite (Eq x).
  change (eval (eval (c' :: cs) a :: qs) x) with (eval (c' :: cs) a + x * eval qs x). ring.
Qed.

(** Abscissas that differ modulo the prime. *)
Fixpoint distinct (xs : list Z) : Prop :=
  match xs with
  | [] => True
  | x :: xs' => Forall (fun y => ~ eqp y x) xs' /\ distinct xs'
  end.

Lemma poly_roots (xs : list Z) (f : Z -> Z) :
  poly (length xs) f -> distinct xs -> (forall x, x ∈ xs -> eqp (f x) 0) -> forall x, eqp (f x) 0.
Proof.
  revert f. induction xs as [|a xs IH]; intros f (cs & Lc & Ec) D R x.
  { destruct cs; [|cbn in Lc; lia]. by rewrite Ec. }
  destruct D as [Da D]. destruct (eval_divide cs a) as (qs & Lq & Eq).
  assert (eqp (eval cs a) 0) as R0 by (rewrite <- Ec; apply R; constructor).
  rewrite Ec, Eq, R0. enough (eqp (eval qs x) 0) as -> by (apply eq_subrelation; [apply _|ring]).
  apply (IH (eval qs)); [|done|].
  - exists qs. split; [cbn in Lc; lia|done].
  - intros y Hy. apply (eqp_mul_zero (y - a)).
    + assert (eqp (f y) 0) as Ry by (apply R; by constructor). rewrite Ec, Eq, R0 in Ry.
      rewrite <- Ry. by rewrite Z.add_0_l.
    + rewrite Forall_forall in Da. intros E. apply (Da y Hy). unfold cong in *. by replace (y - a) with (y - a - 0) by lia.
Qed.

(** A polynomial of [n] coefficients is determined by [n] values. *)
Lemma poly_unique (n : nat) (xs : list Z) (f g : Z -> Z) :
  (n <= length xs)%nat -> poly n f -> poly n g -> distinct xs ->
  (forall x, x ∈ xs -> eqp (f x) (g x)) -> forall x, eqp (f x) (g x).
Proof.
  intros L Pf Pg D H x.
  assert (eqp (f x + -1 * g x) 0) as E.
  { apply (poly_roots xs (fun x => f x + -1 * g x)); [|done|].
    - apply poly_add; [by eapply poly_weaken|]. apply poly_scale. by eapply poly_weaken.
    - intros y Hy. rewrite (H y Hy). apply eq_subrelation; [apply _|ring]. }
  destruct E as [k E]. exists k. lia.
Qed.

(** ** The interpolation loops *)

Lemma distinct_lookup (xs : list Z) (i j : nat) (x y : Z) :
  distinct xs -> xs !! i = Some x -> xs !! j = Some y -> i <> j -> ~ eqp x y.
Proof.
  revert i j. induction xs as [|a xs IH]; intros i j D Hi Hj Hij; [done|]. destruct D as [Da D].
  rewrite Forall_forall in Da. destruct i as [|i], j as [|j]; cbn in Hi, Hj; [done|..].
  - simplify_eq. intros E. apply (Da y); [by eapply list_elem_of_lookup_2|done].
  - simplify_eq. apply Da. by eapply list_elem_of_lookup_2.
  - eapply (IH i j); eauto.
Qed.

(** Skipping position [i] of the loop visits the list without it. *)
Lemma foldl_skip {A B : Type} (f : B -> A -> B) (xs : list A) (b : B) (i o : nat) :
  foldl (fun b '(j, x) => if Nat.eqb (i + o) j then b else f b x) b (imap (fun j x => ((j + o)%nat, x)) xs) =
  foldl f b (delete i xs).
Proof.
  revert b i o. induction xs as [|x xs IH]; intros b i o; [done|].
  destruct i as [|i]; cbn [imap foldl].
  - change (delete 0%nat (x :: xs)) with xs. rewrite Nat.eqb_refl. clear IH.
    assert (forall (l : list A) b o', (o < o')%nat ->
      foldl (fun b '(j, x) => if Nat.eqb (0 + o) j then b else f b x) b (imap (fun j x => ((j + o')%nat, x)) l) = foldl f b l) as G.
    { induction l as [|y l IH]; intros b' o' Ho; [done|]. cbn. destruct (Nat.eqb_spec o o'); [lia|].
      rewrite <- (IH (f b' y) (S o')) by lia. f_equal. apply imap_ext. intros j z _. cbn. f_equal. lia. }
    rewrite <- (G xs b (S o)) by lia. f_equal. apply imap_ext. intros j z _. cbn. f_equal. lia.
  - change (delete (S i) (x :: xs)) with (x :: delete i xs). cbn [foldl].
    destruct (Nat.eqb_spec (S i + o) (0 + o)) as [|_]; [lia|]. rewrite <- (IH (f b x) i (S o)).
    replace (i + S o)%nat with (S i + o)%nat by lia. f_equal. apply imap_ext. intros j z _. cbn. f_equal. lia.
Qed.

Definition factor (x x_i : Z) (basis x_j : Z) : Z := gl_mul basis (gl_mul (gl_sub x x_j) (inverse (gl_sub x_i x_j))).

Lemma basis_at_returns (x : Z) (xs : list Z) (i : nat) (x_i : Z) :
  distinct xs -> xs !! i = Some x_i -> basis_at x xs i = Returns (foldl (factor x x_i) 1 (delete i xs)).
Proof.
  intros D Hi. unfold basis_at. rewrite Hi. cbn [unwrap run_bind].
  rewrite (run_fold_returns _ (fun b '(j, x_j) => if Nat.eqb i j then b else factor x x_i b x_j)).
  - f_equal. rewrite <- (foldl_skip (factor x x_i) xs 1 i 0). rewrite Nat.add_0_r. f_equal.
    apply imap_ext. intros j y _. cbn. by rewrite Nat.add_0_r.
  - intros b [j x_j] Hj. destruct (Nat.eqb_spec i j) as [|Hij]; [done|].
    apply list_elem_of_lookup_1 in Hj as [j' Hj]. rewrite list_lookup_imap in Hj.
    destruct (xs !! j') as [y|] eqn:Ey; cbn in Hj; [|done]. simplify_eq.
    rewrite gl_inv_returns; [done|apply gl_canonical|]. unfold gl_sub. rewrite gl_cong. intros E.
    apply (distinct_lookup xs i j x_i x_j D Hi Ey Hij). unfold cong in *. by replace (x_i - x_j) with (x_i - x_j - 0) by lia.
Qed.

(** The basis polynomials: one at their abscissa and zero at the others. *)
Lemma factor_cong (x x_i b x_j : Z) : eqp (factor x x_i b x_j) (b * ((x - x_j) * inverse (gl_sub x_i x_j))).
Proof. unfold factor, gl_mul, gl_sub. by rewrite !gl_cong. Qed.

Lemma basis_poly (x_i : Z) (l : list Z) (n : nat) (f : Z -> Z) :
  poly n f -> poly (length l + n) (fun x => foldl (factor x x_i) (f x) l).
Proof.
  revert n f. induction l as [|a l IH]; intros n f Pf; [done|]. cbn [foldl length].
  replace (S (length l) + n)%nat with (length l + S n)%nat by lia.
  apply (IH (S n) (fun x => factor x x_i (f x) a)).
  apply (poly_ext _ (fun x => inverse (gl_sub x_i a) * ((x - a) * f x))).
  - intros x. rewrite factor_cong. apply eq_subrelation; [apply _|ring].
  - apply poly_scale. by apply poly_linear.
Qed.

Lemma basis_one (x_i : Z) (l : list Z) (b : Z) :
  Forall (fun y => ~ eqp x_i y) l -> eqp (foldl (factor x_i x_i) b l) b.
Proof.
  revert b. induction l as [|a l IH]; intros b F; [done|]. inversion F as [|? ? Ha Fl]; subst. cbn [foldl].
  rewrite IH by done. rewrite factor_cong.
  assert (eqp ((x_i - a) * inverse (gl_sub x_i a)) 1) as ->; [|by rewrite Z.mul_1_r].
  rewrite <- (gl_cong (x_i - a)). apply inverse_cong. unfold gl_sub. rewrite gl_cong. intros E.
  apply Ha. unfold cong in *. by replace (x_i - a) with (x_i - a - 0) by lia.
Qed.

Lemma basis_zero (x x_i : Z) (l : list Z) (b : Z) : eqp b 0 \/ x ∈ l -> eqp (foldl (factor x x_i) b l) 0.
Proof.
  revert b. induction l as [|a l IH]; intros b H; cbn [foldl].
  - destruct H as [|H]; [done|]. by apply elem_of_nil in H.
  - apply IH. destruct H as [H|[->|H]%elem_of_cons]; [left..|by right]; rewrite factor_cong.
    + by rewrite H.
    + apply eq_subrelation; [apply _|ring].
Qed.

Lemma fold_canonical {A : Type} (h : A -> Z) (l : list A) (b : Z) :
  canonical b -> canonical (foldl (fun y a => gl_add y (h a)) b l).
Proof. revert b. induction l as [|a l IH]; intros b Hb; [done|]. cbn [foldl]. apply IH, gl_canonical. Qed.

Section Interpolate.
Variable shares : list FieldShare.
Hypothesis Dx : distinct (fs_x <$> shares).

Definition term (x : Z) (p : nat * FieldShare) : Z :=
  gl_mul (fs_y p.2) (foldl (factor x (fs_x p.2)) 1 (delete p.1 (fs_x <$> shares))).

Definition interpolant (x : Z) : Z := foldl (fun y p => gl_add y (term x p)) 0 (imap pair shares).

Lemma indexed_sum (i : nat) (s : FieldShare) : (i, s) ∈ imap pair shares -> shares !! i = Some s.
Proof.
  intros (j & Hj)%list_elem_of_lookup_1. rewrite list_lookup_imap in Hj.
  destruct (shares !! j) eqn:E; cbn in Hj; [|done]. by simplify_eq.
Qed.

Lemma interpolate_returns (x : Z) : interpolate_at x shares = Returns (interpolant x).
Proof.
  unfold interpolate_at. apply run_fold_returns. intros y [i s] Hi%indexed_sum.
  rewrite (basis_at_returns x _ i (fs_x s)); [done..|]. by rewrite list_lookup_fmap, Hi.
Qed.

Lemma interpolant_poly : poly (length shares) interpolant.
Proof.
  unfold interpolant.
  assert (forall (l : list (nat * FieldShare)) (f : Z -> Z), (forall p, p ∈ l -> shares !! p.1 = Some p.2) ->
    poly (length shares) f -> poly (length shares) (fun x => foldl (fun y p => gl_add y (term x p)) (f x) l)) as G.
  { induction l as [|p l IH]; intros f Hl Pf; [done|]. cbn [foldl].
    apply (IH (fun x => gl_add (f x) (term x p))); [intros q Hq; apply Hl; by constructor|].
    apply (poly_ext _ (fun x => f x + fs_y p.2 * foldl (factor x (fs_x p.2)) 1 (delete p.1 (fs_x <$> shares)))).
    - intros x. unfold gl_add, term, gl_mul. by rewrite !gl_cong.
    - apply poly_add; [done|]. apply poly_scale.
      apply (poly_weaken (length (delete p.1 (fs_x <$> shares)) + 1)).
      + assert (shares !! p.1 = Some p.2) as Hp by (apply Hl; constructor).
        apply lookup_lt_Some in Hp. rewrite length_delete, length_fmap by (apply lookup_lt_is_Some; by rewrite length_fmap). lia.
      + apply (basis_poly _ _ 1 (fun _ => 1)). apply poly_const. }
  apply G; [|apply poly_zero]. intros [i s]. apply indexed_sum.
Qed.

(** A sum with one term that does not vanish. *)
Lemma sum_select (t : nat * FieldShare -> Z) (l : list FieldShare) (k o : nat) (s : FieldShare) (b : Z) :
  l !! k = Some s -> (forall j q, l !! j = Some q -> j <> k -> eqp (t ((j + o)%nat, q)) 0) ->
  eqp (foldl (fun y p => gl_add y (t p)) b (imap (fun j q => ((j + o)%nat, q)) l)) (b + t ((k + o)%nat, s)).
Proof.
  assert (forall (l : list FieldShare) (o : nat) b, (forall j q, l !! j = Some q -> eqp (t ((j + o)%nat, q)) 0) ->
    eqp (foldl (fun y p => gl_add y (t p)) b (imap (fun j q => ((j + o)%nat, q)) l)) b) as Z0.
  { clear. induction l as [|q l IH]; intros o b H; [done|]. cbn [imap foldl].
    replace (imap _ l) with (imap (fun j q => ((j + S o)%nat, q)) l) by (apply imap_ext; intros; cbn; f_equal; lia).
    rewrite IH; [unfold gl_add; rewrite gl_cong, (H 0%nat q eq_refl); by rewrite Z.add_0_r|].
    intros j r Hj. replace (j + S o)%nat with (S j + o)%nat by lia. by apply H. }
  revert k o b. induction l as [|q l IH]; intros k o b Hk H; [done|]. cbn [imap foldl].
  replace (imap _ l) with (imap (fun j q => ((j + S o)%nat, q)) l) by (apply imap_ext; intros; cbn; f_equal; lia).
  destruct k as [|k]; cbn in Hk.
  - simplify_eq. rewrite Z0; [unfold gl_add; by rewrite gl_cong|].
    intros j r Hj. replace (j + S o)%nat with (S j + o)%nat by lia. by apply H.
  - rewrite (IH k (S o)); [|done|].
    + unfold gl_add. rewrite gl_cong, (H 0%nat q eq_refl) by done. replace (k + S o)%nat with (S k + o)%nat by lia.
      by rewrite Z.add_0_r.
    + intros j r Hj Hne. replace (j + S o)%nat with (S j + o)%nat by lia. apply H; [done|lia].
Qed.

Lemma interpolant_through (k : nat) (s : FieldShare) : shares !! k = Some s -> eqp (interpolant (fs_x s)) (fs_y s).
Proof.
  intros Hk. unfold interpolant.
  replace (imap pair shares) with (imap (fun j q => ((j + 0)%nat, q)) shares) by (apply imap_ext; intros; cbn; f_equal; lia).
  assert (forall i q, shares !! i = Some q -> (fs_x <$> shares) !! i = Some (fs_x q)) as Lx
    by (intros i q Hq; by rewrite list_lookup_fmap, Hq).
  rewrite (sum_select (term (fs_x s)) shares k 0 s); [|done|].
  - unfold term, gl_mul. cbn [fst snd]. rewrite gl_cong, basis_one; [by rewrite Z.mul_1_r, Z.add_0_l|].
    rewrite Nat.add_0_r. apply Forall_forall. intros y (i & Hi)%list_elem_of_lookup_1.
    destruct (decide (i < k)%nat) as [L|L].
    + rewrite list_lookup_delete_lt in Hi by done. eapply (distinct_lookup _ k i); eauto. lia.
    + rewrite list_lookup_delete_ge in Hi by lia. eapply (distinct_lookup _ k (S i)); eauto. lia.
  - intros j q Hj Hne. unfold term, gl_mul. cbn [fst snd]. rewrite gl_cong, basis_zero; [by rewrite Z.mul_0_r|].
    right. rewrite Nat.add_0_r. apply Lx in Hk. destruct (decide (k < j)%nat) as [L|L].
    + apply (list_elem_of_lookup_2 _ k). by rewrite list_lookup_delete_lt.
    + apply (list_elem_of_lookup_2 _ (k - 1)). rewrite list_lookup_delete_ge by lia. by replace (S (k - 1)) with k by lia.
Qed.

Lemma interpolant_canonical (x : Z) : canonical (interpolant x).
Proof. by apply fold_canonical. Qed.

(** Interpolating the values of a polynomial of few coefficients evaluates it. *)
Lemma interpolate_exact (f : Z -> Z) (x : Z) :
  poly (length shares) f -> (forall s, s ∈ shares -> eqp (fs_y s) (f (fs_x s))) ->
  interpolate_at x shares = Returns (gl (f x)).
Proof.
  intros Pf H. rewrite interpolate_returns. f_equal. apply canonical_eq; [apply interpolant_canonical|apply gl_canonical|].
  rewrite gl_cong. apply (poly_unique (length shares) (fs_x <$> shares)); [by rewrite length_fmap|apply interpolant_poly|done..|].
  intros y (s & -> & Hs)%list_elem_of_fmap. rewrite <- H by done.
  apply list_elem_of_lookup_1 in Hs as [k Hk]. by eapply interpolant_through.
Qed.
End Interpolate.
