(* ===== verification/Threshold.v ===== *)
(** * Threshold encryption

    [crypto/src/threshold.rs] over [crypto/src/kyber.rs]: the committee's key
    as Shamir shares of the 64-byte ML-KEM seed, encryption of a payload, the
    signed and blinded decryption shares and their combination, the proactive
    refresh of the shares and their transfer to another committee.  ML-KEM is
    the class [Kem]; randomness is an argument.  Zeroising of secrets has no
    counterpart in the model. *)

From stdpp Require Import base numbers list option strings.
From Stdlib Require Import ZArith Lia.
From S2P Require Import Prelude Crypto Wire Chain ViewChange Encrypted Goldilocks.

#[local] Open Scope Z_scope.
#[local] Open Scope pyde_scope.

(** ** ML-KEM-768 ([kyber.rs])

    [kem_generate] gives the encapsulation key and the exported seed for the
    randomness drawn; [kem_accepts] is the validity check of
    [EncapsulationKey768::new]. *)

Class Kem : Type := {
  kem_generate : list Z -> list Z * option (list Z);
  kem_accepts : list Z -> bool;
  kem_encapsulate : list Z -> list Z -> list Z * list Z;
  kem_decapsulate : list Z -> list Z -> list Z
}.

Definition EK_SIZE : Z := 1184.
Definition SEED_SIZE : Z := 64.

Definition KyberPublicKey_from_bytes (bytes : list Z) : option (list Z) := if len bytes =? EK_SIZE then Some bytes else None.
Definition KyberSecretKey_from_bytes (bytes : list Z) : option (list Z) := if len bytes =? SEED_SIZE then Some bytes else None.

Section Kyber.
Context {K : Kem}.

Definition kyber_keygen (r : list Z) : Result (list Z * list Z) string :=
  match kem_generate r with
  | (pk, Some seed) => Ok (pk, seed)
  | (_, None) => Err "Kyber-768 seed export failed"
  end.

Definition kyber_encapsulate (pk r : list Z) : Result (list Z * list Z) string :=
  if negb (len pk =? EK_SIZE) then Err "wrong encapsulation key size"
  else if negb (kem_accepts pk) then Err "invalid encapsulation key"
  else Ok (kem_encapsulate pk r).

Definition kyber_decapsulate (sk ct : list Z) : Result (list Z) string :=
  if negb (len sk =? SEED_SIZE) then Err "wrong decapsulation seed size"
  else if negb (len ct =? CT_SIZE) then Err "wrong ciphertext size"
  else Ok (kem_decapsulate sk ct).
End Kyber.

(** ** Keys and shares, and their formats *)

Definition SEED_ELEMENTS : nat := 8.

Record ThresholdPublicKey : Type := mkTpk { kyber_pk : list Z; tpk_n : Z; tpk_threshold : Z }.

Definition tpk_to_bytes (k : ThresholdPublicKey) : list Z :=
  le_encode 4 (wrap u32 (tpk_n k)) ++ le_encode 4 (wrap u32 (tpk_threshold k)) ++
  le_encode 4 (len (kyber_pk k)) ++ kyber_pk k.

Definition tpk_from_bytes (data : list Z) : option ThresholdPublicKey :=
  if len data <? 12 then None
  else
    let pk_len := le_at 8 4 data in
    if len data <? 12 + pk_len then None
    else
      match KyberPublicKey_from_bytes (slice 12 (Z.to_nat pk_len) data) with
      | None => None
      | Some pk => Some (mkTpk pk (le_at 0 4 data) (le_at 4 4 data))
      end.

(** The little-endian elements of a row, and [count] of them from [off], [None]
    when one is not canonical. *)
Definition enc_elements (l : list Z) : list Z := concat ((fun s => le_encode 8 (gl_to_u64 s)) <$> l).

Definition element_at (off i : nat) (data : list Z) : Z := le_at (off + 8 * i) 8 data.

Definition dec_elements (off count : nat) (data : list Z) : option (list Z) :=
  mapM (fun i => let val := element_at off i data in if GOLDILOCKS_PRIME <=? val then None else Some (gl val)) (seq 0 count).

Record KeyShare : Type := mkKeyShare { ks_index : Z; ks_shares : list Z }.

Definition ks_to_bytes (k : KeyShare) : list Z :=
  le_encode 8 (ks_index k) ++ le_encode 4 (len (ks_shares k)) ++ enc_elements (ks_shares k).

Definition ks_from_bytes (data : list Z) : option KeyShare :=
  if len data <? 12 then None
  else
    let count := le_at 8 4 data in
    if len data <? 12 + count * 8 then None
    else mkKeyShare (le_at 0 8 data) <$> dec_elements 12 (Z.to_nat count) data.

Record DecryptionShare : Type := mkDecShare { ds_index : Z; ds_shares : list Z; ds_signature : list Z }.

Definition ds_to_bytes (s : DecryptionShare) : list Z :=
  le_encode 8 (ds_index s) ++ le_encode 4 (len (ds_shares s)) ++ enc_elements (ds_shares s) ++
  le_encode 4 (len (ds_signature s)) ++ ds_signature s.

Definition ds_from_bytes (data : list Z) : option DecryptionShare :=
  if len data <? 12 then None
  else
    let count := le_at 8 4 data in
    let shares_end := 12 + count * 8 in
    if len data <? shares_end + 4 then None
    else
      match dec_elements 12 (Z.to_nat count) data with
      | None => None
      | Some shares =>
          let sig_len := le_at (Z.to_nat shares_end) 4 data in
          if len data <? shares_end + 4 + sig_len then None
          else Some (mkDecShare (le_at 0 8 data) shares (slice (Z.to_nat (shares_end + 4)) (Z.to_nat sig_len) data))
      end.

Section Threshold.
Context {P : Primitives} {K : Kem}.

(** ** Shamir's scheme *)

(** The rejection loops: the digest of the prefix and an attempt counter, until
    its first word is canonical.  Digests are, so the first attempt returns and
    the fuel is never used up (Lemma [sample_returns]). *)
Fixpoint sample (fuel : nat) (prefix : list Z) (attempt : Z) : Run Z :=
  match fuel with
  | O => OutOfFuel
  | S fuel' =>
      let val := le_decode (take 8 (poseidon2_hash (prefix ++ le_encode 8 attempt))) in
      if val <? GOLDILOCKS_PRIME then Returns (gl val) else sample fuel' prefix (wrap u64 (attempt + 1))
  end.

Definition SAMPLE_FUEL : nat := 16.

Definition random_goldilocks (entropy : list Z) (index : Z) : Run Z :=
  sample SAMPLE_FUEL (entropy ++ le_encode 8 index) 0.

Definition derive_blinding_mask (ct_hash : list Z) (validator_index : Z) (elem_index : nat) : Run Z :=
  sample SAMPLE_FUEL (ct_hash ++ le_encode 8 validator_index ++ le_encode 8 (Z.of_nat elem_index)) 0.

(** The loop over the coefficients, with the running power of [x]. *)
Definition evaluate (coeffs : list Z) (x : Z) : Z :=
  (foldl (fun '(y, x_pow) c => (gl_add y (gl_mul c x_pow), gl_mul x_pow x)) (0, 1) coeffs).1.

Definition shamir_split (secret : Z) (n t : nat) (entropy : list Z) (element_idx : nat) : Run (list FieldShare) :=
  rest <~ run_map (fun i => random_goldilocks entropy (Z.of_nat (element_idx * 1000 + i))) (seq 1 (t - 1)) ;;
  Returns ((fun i => let x := gl (Z.of_nat i) in mkFieldShare x (evaluate (secret :: rest) x)) <$> seq 1 n).

(** From a row per element to a row per validator. *)
Definition transpose (n : nat) (per_elem : list (list Z)) : Run (list (list Z)) :=
  run_map (fun v => run_map (fun row => unwrap (row !! v)) per_elem) (seq 0 n).

(** The shares of every element, by validator. *)
Definition split_elements (secrets : list Z) (n t : nat) (entropy : list Z) : Run (list (list Z)) :=
  per_elem <~ run_map (fun '(idx, secret) =>
    shares <~ shamir_split secret n t entropy idx ;; Returns (fs_y <$> shares)) (imap pair secrets) ;;
  transpose n per_elem.

(** ** Key generation *)

Definition seed_chunk (seed : list Z) (i : nat) : Z := le_decode (slice (i * 8) 8 seed).

Definition all_canonical (seed : list Z) : bool :=
  forallb (fun i => seed_chunk seed i <? GOLDILOCKS_PRIME) (seq 0 SEED_ELEMENTS).

Definition MAX_REJECTIONS : nat := 64.

(** [left] seeds may still be drawn; [rng k] is the randomness of draw [k]. *)
Fixpoint draw_seed (rng : nat -> list Z) (left k : nat) : Result (list Z * list Z) string :=
  match left with
  | O => Err "threshold_keygen: Kyber seed rejection-sampling exceeded retry budget"
  | S left' =>
      match kyber_keygen (rng k) with
      | Err e => Err e
      | Ok (pk, seed) => if all_canonical seed then Ok (pk, seed) else draw_seed rng left' (S k)
      end
  end.

Definition threshold_keygen (rng : nat -> list Z) (n threshold : Z) : Run (Result (ThresholdPublicKey * list KeyShare) string) :=
  if n <? threshold then Returns (Err "threshold must be <= n")
  else if threshold <? 1 then Returns (Err "threshold must be >= 1")
  else
    match draw_seed rng MAX_REJECTIONS 0 with
    | Err e => Returns (Err e)
    | Ok (pk, seed) =>
        let seed_elements := (fun i => gl (seed_chunk seed i)) <$> seq 0 SEED_ELEMENTS in
        let entropy := poseidon2_hash seed in
        rows <~ split_elements seed_elements (Z.to_nat n) (Z.to_nat threshold) entropy ;;
        Returns (Ok (mkTpk pk n threshold, imap (fun v shares => mkKeyShare (Z.of_nat v + 1) shares) rows))
    end.

(** ** Encryption *)

Definition KS_DOMAIN : list Z := bytes_of_string "pyde-threshold-keystream-v1".
Definition MAC_DOMAIN : list Z := bytes_of_string "pyde-threshold-mac-v1".

(** The loop appends a 32-byte block while the keystream is short of [len]; its
    number of rounds bounds the fuel. *)
Definition keystream_block (shared_secret ct_fp : list Z) (counter : Z) : list Z :=
  poseidon2_hash (KS_DOMAIN ++ shared_secret ++ ct_fp ++ le_encode 8 counter).

Fixpoint keystream_from (fuel : nat) (shared_secret ct_fp : list Z) (counter : Z) (keystream : list Z) (n : nat) : list Z :=
  match fuel with
  | O => keystream
  | S fuel' =>
      if (length keystream <? n)%nat
      then keystream_from fuel' shared_secret ct_fp (wrap u64 (counter + 1))
             (keystream ++ keystream_block shared_secret ct_fp counter) n
      else keystream
  end.

Definition derive_keystream (shared_secret kyber_ct : list Z) (n : nat) : list Z :=
  take n (keystream_from n shared_secret (poseidon2_hash kyber_ct) 0 [] n).

Definition compute_mac (shared_secret kyber_ct ciphertext : list Z) : list Z :=
  poseidon2_hash (MAC_DOMAIN ++ shared_secret ++ poseidon2_hash kyber_ct ++ ciphertext).

Definition xor_bytes (data keystream : list Z) : list Z := zip_with Z.lxor data keystream.

Definition threshold_encrypt (tpk : ThresholdPublicKey) (msg r : list Z) : Result ThresholdCiphertext string :=
  match kyber_encapsulate (kyber_pk tpk) r with
  | Err e => Err e
  | Ok (ct, ss) =>
      let encrypted_msg := xor_bytes msg (derive_keystream ss ct (length msg)) in
      Ok (mkCiphertext ct encrypted_msg (compute_mac ss ct encrypted_msg))
  end.

(** ** Decryption shares *)

Definition ciphertext_binding_hash (ct : ThresholdCiphertext) : list Z :=
  poseidon2_hash (Encrypted.kyber_ct ct ++ encrypted_msg ct).

Definition share_preimage (ct_hash : list Z) (index : Z) (shares : list Z) : list Z :=
  ct_hash ++ le_encode 8 index ++ poseidon2_hash (enc_elements shares).

Definition generate_decryption_share (key_share : KeyShare) (ct : ThresholdCiphertext) (sign : Signer) :
    Run (Result DecryptionShare string) :=
  let ct_hash := ciphertext_binding_hash ct in
  blinded <~ run_map (fun '(i, share_val) =>
    mask <~ derive_blinding_mask ct_hash (ks_index key_share) i ;; Returns (gl_add share_val mask))
    (imap pair (ks_shares key_share)) ;;
  match sign (share_preimage ct_hash (ks_index key_share) blinded) with
  | Err e => Returns (Err e)
  | Ok sig => Returns (Ok (mkDecShare (ks_index key_share) blinded sig))
  end.

Definition MAX_VALIDATOR_INDEX : Z := 256.

Definition index_out_of_range (s : DecryptionShare) : bool := (ds_index s =? 0) || (MAX_VALIDATOR_INDEX <? ds_index s).

Fixpoint duplicate_index (shares : list DecryptionShare) : bool :=
  match shares with
  | [] => false
  | s :: rest => existsb (fun s' => ds_index s =? ds_index s') rest || duplicate_index rest
  end.

Definition share_authentic (ct_hash : list Z) (committee_keys : list (list Z)) (s : DecryptionShare) : bool :=
  match checked_sub (ds_index s) 1 with
  | None => false
  | Some i =>
      match committee_keys !! Z.to_nat i, FalconSignature_from_bytes (ds_signature s) with
      | Some pk, Some sig => falcon_verify pk (share_preimage ct_hash (ds_index s) (ds_shares s)) sig
      | _, _ => false
      end
  end.

Definition reconstruct_element (ct_hash : list Z) (used_shares : list DecryptionShare) (elem_idx : nat) : Run Z :=
  field_shares <~ run_map (fun s =>
    mask <~ derive_blinding_mask ct_hash (ds_index s) elem_idx ;;
    y <~ unwrap (ds_shares s !! elem_idx) ;;
    Returns (mkFieldShare (gl (ds_index s)) (gl_sub y mask))) used_shares ;;
  shamir_reconstruct field_shares.

Definition ORACLE_SAFE_ERR : string := "decryption failed".

Definition combine_shares (shares : list DecryptionShare) (threshold : Z) (ct : ThresholdCiphertext)
    (committee_keys : list (list Z)) : Run (Result (list Z) string) :=
  if len shares <? threshold then Returns (Err "insufficient shares")
  else if existsb index_out_of_range shares then Returns (Err "invalid share index (out of range 1..=256)")
  else if duplicate_index shares then Returns (Err "duplicate share index")
  else
    let ct_hash := ciphertext_binding_hash ct in
    if negb (forallb (share_authentic ct_hash committee_keys) shares) then Returns (Err ORACLE_SAFE_ERR)
    else
      elements <~ run_map (reconstruct_element ct_hash (take (Z.to_nat threshold) shares)) (seq 0 SEED_ELEMENTS) ;;
      let seed_bytes := enc_elements elements in
      match KyberSecretKey_from_bytes seed_bytes with
      | None => Returns (Err ORACLE_SAFE_ERR)
      | Some sk =>
          let ss_or_zero := match kyber_decapsulate sk (Encrypted.kyber_ct ct) with Ok ss => ss | Err _ => replicate 32 0 end in
          let expected_mac := compute_mac ss_or_zero (Encrypted.kyber_ct ct) (encrypted_msg ct) in
          if bool_decide (expected_mac = mac ct)
          then Returns (Ok (xor_bytes (encrypted_msg ct)
                 (derive_keystream ss_or_zero (Encrypted.kyber_ct ct) (length (encrypted_msg ct)))))
          else Returns (Err ORACLE_SAFE_ERR)
      end.

(** ** Refresh among the same committee *)

Record EpochKeyMaterial : Type := mkMaterial { em_epoch : Z; em_n : Z; em_threshold : Z; em_tpk : ThresholdPublicKey }.

Record RefreshContribution : Type := mkRefresh {
  rf_from_index : Z;
  rf_epoch : Z;
  rf_deltas : list (list Z);
  rf_signature : list Z
}.

Definition refresh_preimage (epoch from_index : Z) (deltas : list (list Z)) : list Z :=
  le_encode 8 epoch ++ le_encode 8 from_index ++ poseidon2_hash (concat (enc_elements <$> deltas)).

Definition generate_refresh_contribution (from_index : Z) (n threshold : nat) (epoch : Z) (entropy : list Z) (sign : Signer) :
    Run (Result RefreshContribution string) :=
  let domain_entropy := poseidon2_hash (entropy ++ le_encode 8 epoch ++ le_encode 8 from_index) in
  deltas <~ split_elements (replicate SEED_ELEMENTS 0) n threshold domain_entropy ;;
  match sign (refresh_preimage epoch from_index deltas) with
  | Err e => Returns (Err e)
  | Ok sig => Returns (Ok (mkRefresh from_index epoch deltas sig))
  end.

Definition row_width (rows : list (list Z)) : Z := match rows with [] => 0 | row :: _ => len row end.

Definition rf_to_bytes (c : RefreshContribution) : list Z :=
  le_encode 8 (rf_from_index c) ++ le_encode 8 (rf_epoch c) ++ le_encode 4 (len (rf_deltas c)) ++
  le_encode 4 (row_width (rf_deltas c)) ++ concat (enc_elements <$> rf_deltas c) ++
  le_encode 4 (len (rf_signature c)) ++ rf_signature c.

Definition rf_from_bytes (data : list Z) : option RefreshContribution :=
  if len data <? 24 then None
  else
    let n := le_at 16 4 data in
    let elems := le_at 20 4 data in
    match checked_mul u64 n elems with
    | None => None
    | Some cells =>
        match checked_mul u64 cells 8 with
        | None => None
        | Some bytes =>
            match checked_add u64 24 bytes with
            | None => None
            | Some deltas_end =>
                if len data <? deltas_end + 4 then None
                else
                  match mapM (fun v => dec_elements (24 + 8 * (v * Z.to_nat elems)) (Z.to_nat elems) data) (seq 0 (Z.to_nat n)) with
                  | None => None
                  | Some deltas =>
                      let sig_len := le_at (Z.to_nat deltas_end) 4 data in
                      let sig_start := deltas_end + 4 in
                      if len data <? sig_start + sig_len then None
                      else Some (mkRefresh (le_at 0 8 data) (le_at 8 8 data) deltas
                                   (slice (Z.to_nat sig_start) (Z.to_nat sig_len) data))
                  end
            end
        end
    end.

(** [new_shares[elem] += rows[validator_idx][elem]] for every contribution;
    [index - 1] wraps at index zero and the indexing then panics. *)
Definition add_row (row shares : list Z) : Run (list Z) :=
  run_fold (fun new_shares elem_idx =>
    s <~ unwrap (new_shares !! elem_idx) ;;
    d <~ unwrap (row !! elem_idx) ;;
    Returns (<[elem_idx := gl_add s d]> new_shares)) shares (seq 0 SEED_ELEMENTS).

Definition apply_refresh (key_share : KeyShare) (contributions : list RefreshContribution) : Run KeyShare :=
  let validator_idx := Z.to_nat (wrap u64 (ks_index key_share - 1)) in
  new_shares <~ run_fold (fun shares contrib =>
    row <~ unwrap (rf_deltas contrib !! validator_idx) ;; add_row row shares) (ks_shares key_share) contributions ;;
  Returns (mkKeyShare (ks_index key_share) new_shares).

(** The same loop over references. *)
Definition apply_refresh_canonical (key_share : KeyShare) (canonical : list RefreshContribution) : Run KeyShare :=
  apply_refresh key_share canonical.

(** A conjunction that stops at the first failure. *)
Fixpoint run_all {A : Type} (f : A -> Run bool) (l : list A) : Run bool :=
  match l with
  | [] => Returns true
  | a :: l' => ok <~ f a ;; if ok then run_all f l' else Returns false
  end.

(** The first [threshold] entries of column [elem_idx], as points. *)
Definition column_points (rows : list (list Z)) (threshold elem_idx : nat) : Run (list FieldShare) :=
  run_map (fun v => row <~ unwrap (rows !! v) ;; y <~ unwrap (row !! elem_idx) ;;
    Returns (mkFieldShare (gl (Z.of_nat (v + 1))) y)) (seq 0 threshold).

(** The remaining entries lie on the polynomial through those points. *)
Definition column_consistent (rows : list (list Z)) (threshold elem_idx : nat) (interp_shares : list FieldShare) : Run bool :=
  run_all (fun check_idx =>
    y <~ interpolate_at (gl (Z.of_nat (check_idx + 1))) interp_shares ;;
    row <~ unwrap (rows !! check_idx) ;; v <~ unwrap (row !! elem_idx) ;;
    Returns (y =? v)) (seq threshold (length rows - threshold)).

Definition verify_refresh_contribution (c : RefreshContribution) (threshold : Z) (expected_epoch : Z) (issuer_pk : list Z) :
    Run bool :=
  if negb (rf_epoch c =? expected_epoch) then Returns false
  else if (threshold =? 0) || (len (rf_deltas c) <? threshold) then Returns false
  else if negb (forallb (fun row => Nat.eqb (length row) SEED_ELEMENTS) (rf_deltas c)) then Returns false
  else
    columns <~ run_all (fun elem_idx =>
      interp_shares <~ column_points (rf_deltas c) (Z.to_nat threshold) elem_idx ;;
      reconstructed <~ shamir_reconstruct interp_shares ;;
      if negb (reconstructed =? 0) then Returns false
      else column_consistent (rf_deltas c) (Z.to_nat threshold) elem_idx interp_shares) (seq 0 SEED_ELEMENTS) ;;
    if negb columns then Returns false
    else
      match FalconSignature_from_bytes (rf_signature c) with
      | None => Returns false
      | Some sig => Returns (falcon_verify issuer_pk (refresh_preimage (rf_epoch c) (rf_from_index c) (rf_deltas c)) sig)
      end.

Definition canonical_refresh_subset (pool : list RefreshContribution) (threshold : Z) : option (list RefreshContribution) :=
  if len pool <? threshold then None else Some (take (Z.to_nat threshold) (sort_by_key rf_from_index pool)).

Definition pss_entropy (new_epoch index : Z) : Run (list Z) :=
  fresh_random <~ random_goldilocks (le_encode 8 new_epoch) (wrap u64 (index * 7919)) ;;
  Returns (poseidon2_hash (le_encode 8 new_epoch ++ le_encode 8 index ++ le_encode 8 (gl_to_u64 fresh_random))).

Definition pss_refresh (m : EpochKeyMaterial) (old_shares : list KeyShare) (signers : list Signer) :
    Run (EpochKeyMaterial * list KeyShare) :=
  let new_epoch := wrap u64 (em_epoch m + 1) in
  contributions <~ run_map (fun '(i, ks) =>
    fresh_entropy <~ pss_entropy new_epoch (ks_index ks) ;;
    sign <~ unwrap (signers !! i) ;;
    c <~ generate_refresh_contribution (ks_index ks) (Z.to_nat (em_n m)) (Z.to_nat (em_threshold m)) new_epoch fresh_entropy sign ;;
    match c with Ok c => Returns c | Err _ => Panics end) (imap pair old_shares) ;;
  new_shares <~ run_map (fun ks => apply_refresh ks contributions) old_shares ;;
  Returns (mkMaterial new_epoch (em_n m) (em_threshold m) (em_tpk m), new_shares).

(** ** Transfer to another committee *)

Record ResharingContribution : Type := mkResharing { rs_from_old_index : Z; rs_sub_shares : list (list Z) }.

Definition rs_to_bytes (c : ResharingContribution) : list Z :=
  le_encode 8 (rs_from_old_index c) ++ le_encode 4 (len (rs_sub_shares c)) ++ le_encode 4 (row_width (rs_sub_shares c)) ++
  concat (enc_elements <$> rs_sub_shares c).

(** The length guard multiplies in [usize], unchecked; [data[off..off + 8]]
    panics behind the end.  Elements are reduced, not rejected. *)
Definition rs_element (data : list Z) (off : nat) : Run Z :=
  if (off + 8 <=? length data)%nat then Returns (gl (le_at off 8 data)) else Panics.

Definition rs_from_bytes (data : list Z) : Run (option ResharingContribution) :=
  if len data <? 16 then Returns None
  else
    let n := le_at 8 4 data in
    let elems := le_at 12 4 data in
    if len data <? wrap u64 (16 + n * elems * 8) then Returns None
    else
      sub_shares <~ run_map (fun v =>
        run_map (fun e => rs_element data (16 + 8 * (v * Z.to_nat elems + e))) (seq 0 (Z.to_nat elems))) (seq 0 (Z.to_nat n)) ;;
      Returns (Some (mkResharing (le_at 0 8 data) sub_shares)).

Definition generate_resharing_contribution (old_share : KeyShare) (new_n new_threshold : nat) (epoch : Z) (entropy : list Z) :
    Run ResharingContribution :=
  let dom_entropy := poseidon2_hash (entropy ++ bytes_of_string "pyde-reshare" ++ le_encode 8 epoch ++ le_encode 8 (ks_index old_share)) in
  secrets <~ run_map (fun e => unwrap (ks_shares old_share !! e)) (seq 0 SEED_ELEMENTS) ;;
  sub_shares <~ split_elements secrets new_n new_threshold dom_entropy ;;
  Returns (mkResharing (ks_index old_share) sub_shares).

Definition verify_resharing_contribution (c : ResharingContribution) (new_threshold new_n : Z) : Run bool :=
  if negb (len (rs_sub_shares c) =? new_n) then Returns false
  else if (new_threshold =? 0) || (new_n <? new_threshold) then Returns false
  else if negb (forallb (fun row => Nat.eqb (length row) SEED_ELEMENTS) (rs_sub_shares c)) then Returns false
  else
    run_all (fun elem_idx =>
      interp_shares <~ column_points (rs_sub_shares c) (Z.to_nat new_threshold) elem_idx ;;
      column_consistent (rs_sub_shares c) (Z.to_nat new_threshold) elem_idx interp_shares) (seq 0 SEED_ELEMENTS).

Definition canonical_resharing_subset (pool : list ResharingContribution) (old_threshold : Z) : option (list ResharingContribution) :=
  if len pool <? old_threshold then None else Some (take (Z.to_nat old_threshold) (sort_by_key rs_from_old_index pool)).

(** [new_shares[elem] += lambda * row[elem]]. *)
Definition add_scaled (lambda : Z) (row shares : list Z) : Run (list Z) :=
  run_fold (fun new_shares elem_idx =>
    s <~ unwrap (new_shares !! elem_idx) ;;
    g <~ unwrap (row !! elem_idx) ;;
    Returns (<[elem_idx := gl_add s (gl_mul lambda g)]> new_shares)) shares (seq 0 SEED_ELEMENTS).

Definition aggregate_new_share (new_index : Z) (canonical : list ResharingContribution) : Run (option KeyShare) :=
  match canonical with
  | [] => Returns None
  | first :: _ =>
      if new_index =? 0 then Returns None
      else
        let new_idx0 := Z.to_nat (new_index - 1) in
        let new_n := length (rs_sub_shares first) in
        if (new_n <=? new_idx0)%nat then Returns None
        else if negb (forallb (fun c => Nat.eqb (length (rs_sub_shares c)) new_n &&
                        Nat.eqb (length (default [] (rs_sub_shares c !! new_idx0))) SEED_ELEMENTS) canonical)
        then Returns None
        else
          let old_indices := (fun c => gl (rs_from_old_index c)) <$> canonical in
          lambdas <~ run_map (basis_at 0 old_indices) (seq 0 (length canonical)) ;;
          new_shares <~ run_fold (fun new_shares '(i, contrib) =>
            lambda <~ unwrap (lambdas !! i) ;;
            row <~ unwrap (rs_sub_shares contrib !! new_idx0) ;;
            add_scaled lambda row new_shares)
            (replicate SEED_ELEMENTS 0) (imap pair canonical) ;;
          Returns (Some (mkKeyShare new_index new_shares))
  end.
End Threshold.
