(* ===== verification/ThresholdProps.v ===== *)
(** * The committee's key survives its custodians

    Theorems about [Threshold]: the shares of a committee stay points of
    polynomials over the seed's elements through key generation, refresh and
    transfer to another committee, so any threshold of them decrypts what was
    encrypted under the public key. *)

From stdpp Require Import base numbers list option strings sets gmap.
From Stdlib Require Import ZArith Lia.
From S2P Require Import Prelude Crypto Wire Chain ViewChange Encrypted Goldilocks Threshold.

#[local] Open Scope Z_scope.
#[local] Open Scope pyde_scope.

(** What the library relies on: seeds of 64 bytes and ciphertexts of 1088. *)
Class KemOk (K : Kem) : Prop := {
  kem_seed_ok : forall r pk seed, kem_generate r = (pk, Some seed) -> bytes_ok seed /\ length seed = 64%nat;
  kem_ct_size : forall pk r, len (kem_encapsulate pk r).1 = CT_SIZE
}.

(** Decapsulation recovers the secret of this encapsulation. *)
Definition kem_recovers {K : Kem} (pk seed r : list Z) : Prop :=
  kem_decapsulate seed (kem_encapsulate pk r).1 = (kem_encapsulate pk r).2.

Definition in_committee (i : Z) : Prop := 1 <= i <= MAX_VALIDATOR_INDEX.

(** A share is on the polynomials [f], one per element. *)
Record holds (f : nat -> Z -> Z) (ks : KeyShare) : Prop := {
  holds_index : in_committee (ks_index ks);
  holds_len : length (ks_shares ks) = SEED_ELEMENTS;
  holds_on : forall e v, ks_shares ks !! e = Some v -> canonical v /\ eqp v (f e (ks_index ks))
}.

(** [keys] are points of polynomials of [t] coefficients over [secret]. *)
Record shared (t : nat) (secret : list Z) (f : nat -> Z -> Z) : Prop := {
  shared_poly : forall e, poly t (f e);
  shared_secret : forall e s, secret !! e = Some s -> eqp (f e 0) s
}.

Section Props.
Context {P : Primitives} {PO : PrimitivesOk P} {K : Kem} {KO : KemOk K}.

(** ** The rejection loops return at once *)

Lemma digest_word_canonical (d : list Z) : canonical (le_decode (take 8 (poseidon2_hash d))).
Proof.
  unfold poseidon2_hash, elements_to_hash. pose proof (sponge_length (bytes_to_elements d)) as L.
  pose proof (sponge_canonical (bytes_to_elements d)) as C.
  destruct (sponge (bytes_to_elements d)) as [|x l]; [done|]. apply Forall_cons in C as [C _].
  change GOLDILOCKS_P with GOLDILOCKS_PRIME in C.
  cbn [fmap list_fmap concat]. rewrite take_app_le by (by rewrite length_le_encode).
  rewrite take_ge by (by rewrite length_le_encode). unfold goldilocks_to_u64.
  rewrite le_decode_encode; [done|]. unfold GOLDILOCKS_PRIME in C. cbn. lia.
Qed.

Definition sampled (prefix : list Z) : Z := le_decode (take 8 (poseidon2_hash (prefix ++ le_encode 8 0))).

Lemma sample_returns (prefix : list Z) : sample SAMPLE_FUEL prefix 0 = Returns (sampled prefix).
Proof.
  unfold SAMPLE_FUEL. cbn [sample]. pose proof (digest_word_canonical (prefix ++ le_encode 8 0)) as C.
  destruct (Z.ltb_spec (le_decode (take 8 (poseidon2_hash (prefix ++ le_encode 8 0)))) GOLDILOCKS_PRIME) as [_|H].
  - by rewrite gl_small.
  - destruct C. lia.
Qed.

Definition mask_of (ct_hash : list Z) (index : Z) (e : nat) : Z := sampled (ct_hash ++ le_encode 8 index ++ le_encode 8 (Z.of_nat e)).

Lemma mask_returns (ct_hash : list Z) (index : Z) (e : nat) :
  derive_blinding_mask ct_hash index e = Returns (mask_of ct_hash index e).
Proof. apply sample_returns. Qed.

(** ** Splitting *)

Lemma evaluate_eval (coeffs : list Z) (x : Z) : canonical (evaluate coeffs x) /\ eqp (evaluate coeffs x) (eval coeffs x).
Proof.
  unfold evaluate.
  assert (forall y xp, canonical y ->
    let r := foldl (fun '(y, x_pow) c => (gl_add y (gl_mul c x_pow), gl_mul x_pow x)) (y, xp) coeffs in
    canonical r.1 /\ eqp r.1 (y + xp * eval coeffs x)) as G.
  { induction coeffs as [|c cs IH]; intros y xp Hy; cbn [foldl eval].
    - split; [done|]. cbn. by rewrite Z.mul_0_r, Z.add_0_r.
    - destruct (IH (gl_add y (gl_mul c xp)) (gl_mul xp x)) as [C E]; [apply gl_canonical|].
      split; [exact C|]. rewrite E. unfold gl_add, gl_mul. rewrite !gl_cong. apply eq_subrelation; [apply _|ring]. }
  destruct (G 0 1) as [C E]; [done|]. split; [exact C|]. rewrite E. apply eq_subrelation; [apply _|ring].
Qed.

Definition split_coeffs (secret : Z) (t : nat) (entropy : list Z) (e : nat) : list Z :=
  secret :: ((fun i => sampled (entropy ++ le_encode 8 (Z.of_nat (e * 1000 + i)))) <$> seq 1 (t - 1)).

Lemma shamir_split_returns (secret : Z) (n t : nat) (entropy : list Z) (e : nat) :
  shamir_split secret n t entropy e =
  Returns ((fun i => let x := gl (Z.of_nat i) in mkFieldShare x (evaluate (split_coeffs secret t entropy e) x)) <$> seq 1 n).
Proof.
  unfold shamir_split. erewrite run_map_returns by (intros; apply sample_returns). done.
Qed.

(** Row [v] of the transposed split: the values at [v + 1]. *)
Definition split_row (secrets : list Z) (t : nat) (entropy : list Z) (v : nat) : list Z :=
  imap (fun e secret => evaluate (split_coeffs secret t entropy e) (gl (Z.of_nat (S v)))) secrets.

Lemma split_elements_returns (secrets : list Z) (n t : nat) (entropy : list Z) :
  split_elements secrets n t entropy = Returns (split_row secrets t entropy <$> seq 0 n).
Proof.
  unfold split_elements.
  rewrite (run_map_returns _ (fun '(e, secret) => (fun i => evaluate (split_coeffs secret t entropy e) (gl (Z.of_nat i))) <$> seq 1 n)).
  2:{ intros [e s] _. rewrite shamir_split_returns. cbn [run_bind]. f_equal. rewrite <- list_fmap_compose. done. }
  cbn [run_bind]. unfold transpose. apply run_map_returns. intros v Hv%elem_of_seq.
  rewrite (run_map_returns _ (fun row => default 0 (row !! v))).
  - f_equal. unfold split_row. rewrite !fmap_imap. apply imap_ext. intros e s _. cbn.
    by rewrite list_lookup_fmap, lookup_seq_lt by lia.
  - intros row ([e s] & -> & _)%list_elem_of_fmap. by rewrite list_lookup_fmap, lookup_seq_lt by lia.
Qed.

Definition split_poly (secrets : list Z) (t : nat) (entropy : list Z) (e : nat) (x : Z) : Z :=
  match secrets !! e with Some s => eval (split_coeffs s t entropy e) x | None => 0 end.

Lemma split_poly_shared (secrets : list Z) (t : nat) (entropy : list Z) :
  (1 <= t)%nat -> shared t secrets (split_poly secrets t entropy).
Proof.
  intros Ht. split.
  - intros e. unfold split_poly. destruct (secrets !! e) as [s|]; [|apply poly_zero].
    apply (poly_weaken (length (split_coeffs s t entropy e))); [|apply poly_eval].
    unfold split_coeffs. cbn. rewrite length_fmap, length_seq. lia.
  - intros e s Hs. unfold split_poly. rewrite Hs. cbn. by rewrite Z.add_0_r.
Qed.

Lemma split_row_lookup (secrets : list Z) (t : nat) (entropy : list Z) (v e : nat) (y : Z) :
  split_row secrets t entropy v !! e = Some y ->
  canonical y /\ eqp y (split_poly secrets t entropy e (Z.of_nat (S v))).
Proof.
  unfold split_row, split_poly. rewrite list_lookup_imap. destruct (secrets !! e) as [s|]; [|done].
  intros [= <-]. destruct (evaluate_eval (split_coeffs s t entropy e) (gl (Z.of_nat (S v)))) as [C E].
  split; [done|]. rewrite E. apply eval_cong, gl_cong.
Qed.
(** ** Combining *)

Lemma distinct_canonical (l : list Z) : NoDup l -> Forall canonical l -> distinct (gl <$> l).
Proof.
  induction 1 as [|i l Hi N IH]; intros F; [done|]. apply Forall_cons in F as [Hr F].
  cbn [fmap list_fmap distinct]. split; [|by apply IH]. apply Forall_fmap, Forall_forall. intros j Hj E.
  cbn in E. rewrite !gl_cong in E. rewrite Forall_forall in F. apply canonical_eq in E; [by subst|by apply F|done].
Qed.

Lemma holds_distinct (f : nat -> Z -> Z) (ms : list KeyShare) :
  NoDup (ks_index <$> ms) -> Forall (holds f) ms -> distinct (gl <$> (ks_index <$> ms)).
Proof.
  intros N H. apply distinct_canonical; [done|]. apply Forall_fmap. eapply Forall_impl; [exact H|].
  intros ks [[L U] _ _]. split; cbn; unfold MAX_VALIDATOR_INDEX, GOLDILOCKS_PRIME in *; lia.
Qed.

(** [s] carries the blinded elements of [ks]. *)
Definition made (ct_hash : list Z) (ks : KeyShare) (s : DecryptionShare) : Prop :=
  ds_index s = ks_index ks /\
  ds_shares s = imap (fun e v => gl_add v (mask_of ct_hash (ks_index ks) e)) (ks_shares ks).

Lemma generate_made (ks : KeyShare) (ct : ThresholdCiphertext) (sign : Signer) (s : DecryptionShare) :
  generate_decryption_share ks ct sign = Returns (Ok s) ->
  made (ciphertext_binding_hash ct) ks s /\
  sign (share_preimage (ciphertext_binding_hash ct) (ds_index s) (ds_shares s)) = Ok (ds_signature s).
Proof.
  unfold generate_decryption_share.
  rewrite (run_map_returns _ (fun '(e, v) => gl_add v (mask_of (ciphertext_binding_hash ct) (ks_index ks) e)))
    by (intros [e v] _; by rewrite mask_returns).
  cbn [run_bind]. rewrite fmap_imap. destruct (sign _) as [sig|] eqn:E; [|done]. intros [= <-]. by split; [split|].
Qed.

Lemma gl_unmask (v m : Z) : eqp (gl_sub (gl_add v m) m) v.
Proof. unfold gl_sub, gl_add. rewrite !gl_cong. apply eq_subrelation; [apply _|ring]. Qed.

(** Any [t] shares of the polynomials give the secret. *)
Lemma reconstruct_exact (t : nat) (secret : list Z) (f : nat -> Z -> Z) (ct_hash : list Z)
    (ms : list KeyShare) (ds : list DecryptionShare) (e : nat) :
  shared t secret f -> Forall (holds f) ms -> Forall2 (made ct_hash) ms ds -> length ms = t ->
  NoDup (ks_index <$> ms) -> (e < SEED_ELEMENTS)%nat ->
  reconstruct_element ct_hash ds e = Returns (gl (f e 0)).
Proof.
  intros S H M L N He. unfold reconstruct_element.
  set (point := fun s => mkFieldShare (gl (ds_index s)) (gl_sub (default 0 (ds_shares s !! e)) (mask_of ct_hash (ds_index s) e))).
  assert (forall s, s ∈ ds -> exists ks v, ks ∈ ms /\ made ct_hash ks s /\ ks_shares ks !! e = Some v /\
            ds_shares s !! e = Some (gl_add v (mask_of ct_hash (ds_index s) e)) /\ eqp v (f e (ds_index s))) as Each.
  { intros s (i & Hi)%list_elem_of_lookup_1. destruct (Forall2_lookup_r _ _ _ _ _ M Hi) as (ks & Hk & Hm).
    pose proof (list_elem_of_lookup_2 _ _ _ Hk) as Hin. destruct (proj1 (Forall_forall _ _) H ks Hin) as [_ Ll Lo].
    destruct (lookup_lt_is_Some_2 (ks_shares ks) e) as [v Hv]; [by rewrite Ll|].
    exists ks, v. destruct Hm as [Ei Es]. destruct (Lo e v Hv) as [Cv Ev]. split; [done|]. split; [by split|]. split; [done|]. split; [|by rewrite Ei].
    rewrite Es, list_lookup_imap, Hv, Ei. done. }
  rewrite (run_map_returns _ point).
  2:{ intros s Hs. destruct (Each s Hs) as (ks & v & _ & _ & _ & Es & _). rewrite mask_returns. cbn [run_bind].
      unfold point. by rewrite Es. }
  cbn [run_bind]. unfold shamir_reconstruct. apply (interpolate_exact (point <$> ds)).
  - replace (fs_x <$> (point <$> ds)) with (gl <$> (ks_index <$> ms)); [by eapply holds_distinct|].
    clear -M. induction M as [|ks s ms ds [E _] M IH]; [done|]. cbn [fmap list_fmap]. f_equal; [unfold point; cbn [fs_x]; by rewrite E|exact IH].
  - rewrite length_fmap, <- (Forall2_length _ _ _ M), L. by apply shared_poly with secret.
  - intros q (s & -> & Hs)%list_elem_of_fmap. destruct (Each s Hs) as (ks & v & _ & _ & _ & Es & Ev).
    unfold point. cbn [fs_x fs_y]. rewrite Es. cbn [from_option]. unfold id. rewrite gl_unmask, Ev.
    destruct (shared_poly t secret f S e) as (cs & _ & Ec). rewrite !Ec. symmetry. apply eval_cong, gl_cong.
Qed.

(** ** The seed *)

Definition seed_elements (seed : list Z) : list Z := (fun i => gl (seed_chunk seed i)) <$> seq 0 SEED_ELEMENTS.

Lemma seed_elements_encode (seed : list Z) :
  bytes_ok seed -> length seed = 64%nat -> all_canonical seed = true -> enc_elements (seed_elements seed) = seed.
Proof.
  intros B L C. unfold all_canonical in C. rewrite forallb_forall in C.
  assert (forall i, (i < 8)%nat -> le_encode 8 (gl_to_u64 (gl (seed_chunk seed i))) = slice (i * 8) 8 seed) as E.
  { intros i Hi. unfold gl_to_u64. assert ((seed_chunk seed i <? GOLDILOCKS_PRIME) = true) as C'%Z.ltb_lt
      by (apply C, in_seq; unfold SEED_ELEMENTS; lia).
    assert (length (slice (i * 8) 8 seed) = 8%nat) as Ls by (unfold slice; rewrite length_take, length_drop; lia).
    assert (bytes_ok (slice (i * 8) 8 seed)) as Bs by by apply slice_bytes.
    rewrite gl_small by (split; [|done]; unfold seed_chunk; pose proof (le_decode_range _ Bs); lia).
    unfold seed_chunk. rewrite <- Ls at 1. by apply le_encode_decode. }
  unfold enc_elements, seed_elements, SEED_ELEMENTS. cbn [seq fmap list_fmap concat]. rewrite !E by lia. rewrite app_nil_r.
  unfold slice. cbn [Nat.mul Nat.add]. clear C E B.
  do 64 (destruct seed as [|? seed]; [discriminate|]). destruct seed; [reflexivity|discriminate].
Qed.
(** ** The symmetric layer *)

Lemma keystream_long (fuel : nat) (ss fp : list Z) (c : Z) (ks : list Z) (n : nat) :
  (n <= length ks + fuel)%nat -> (n <= length (keystream_from fuel ss fp c ks n))%nat.
Proof.
  revert c ks. induction fuel as [|fuel IH]; intros c ks H; cbn [keystream_from]; [lia|].
  destruct (Nat.ltb_spec (length ks) n) as [Hlt|]; [|done]. apply IH.
  rewrite length_app. unfold keystream_block. rewrite poseidon2_hash_length. lia.
Qed.

Lemma derive_keystream_length (ss ct : list Z) (n : nat) : length (derive_keystream ss ct n) = n.
Proof. unfold derive_keystream. rewrite length_take. pose proof (keystream_long n ss (poseidon2_hash ct) 0 [] n). cbn in *. lia. Qed.

Lemma xor_twice (data ks : list Z) : length ks = length data -> xor_bytes (xor_bytes data ks) ks = data.
Proof.
  revert ks. induction data as [|b data IH]; intros [|k ks] L; try done. cbn. f_equal; [|apply IH; cbn in L; lia].
  by rewrite Z.lxor_assoc, Z.lxor_nilpotent, Z.lxor_0_r.
Qed.

Lemma xor_length (data ks : list Z) : length ks = length data -> length (xor_bytes data ks) = length data.
Proof. intros L. unfold xor_bytes. rewrite length_zip_with. lia. Qed.

(** ** Decryption *)

(** A seed the generator accepts. *)
Definition good_seed (seed : list Z) : Prop := bytes_ok seed /\ length seed = 64%nat /\ all_canonical seed = true.

Lemma duplicate_index_false (l : list DecryptionShare) : NoDup (ds_index <$> l) -> duplicate_index l = false.
Proof.
  induction l as [|s l IH]; intros N; [done|]. cbn in N |- *. apply NoDup_cons in N as [Hs N].
  rewrite IH, orb_false_r by done. apply not_true_is_false. intros (s' & Hin & E%Z.eqb_eq)%existsb_exists.
  apply Hs. rewrite E. apply list_elem_of_fmap. exists s'. by rewrite list_elem_of_In.
Qed.

Lemma made_indices (ct_hash : list Z) (ms : list KeyShare) (ds : list DecryptionShare) :
  Forall2 (made ct_hash) ms ds -> ds_index <$> ds = ks_index <$> ms.
Proof. induction 1 as [|ks s ms ds [E _] M IH]; [done|]. cbn. by rewrite E, IH. Qed.

Lemma combine_elements (t : nat) (seed : list Z) (f : nat -> Z -> Z) (ct_hash : list Z) (ms : list KeyShare) (ds : list DecryptionShare) :
  good_seed seed -> shared t (seed_elements seed) f -> Forall (holds f) ms -> Forall2 (made ct_hash) ms ds ->
  (t <= length ms)%nat -> NoDup (ks_index <$> ms) ->
  run_map (reconstruct_element ct_hash (take t ds)) (seq 0 SEED_ELEMENTS) = Returns (seed_elements seed).
Proof.
  intros (B & L & C) S H M Lt N. rewrite (run_map_returns _ (fun e => gl (f e 0))).
  - f_equal. unfold seed_elements. apply list_fmap_ext. intros i e Hi. apply canonical_eq; [apply gl_canonical..|].
    rewrite gl_cong. apply (shared_secret _ _ _ S). unfold seed_elements. rewrite list_lookup_fmap.
    apply lookup_seq in Hi as [-> Hi]. rewrite lookup_seq_lt by done. done.
  - intros e He%elem_of_seq. apply (reconstruct_exact t (seed_elements seed) f ct_hash (take t ms)); try done.
    + by apply Forall_take.
    + by apply Forall2_take.
    + rewrite length_take. lia.
    + rewrite fmap_take. eapply sublist_NoDup; [apply N|]. apply sublist_take.
    + lia.
Qed.

Lemma combine_decrypts (t : Z) (seed : list Z) (f : nat -> Z -> Z) (tpk : ThresholdPublicKey) (msg r : list Z)
    (ct : ThresholdCiphertext) (ms : list KeyShare) (ds : list DecryptionShare) (committee : list (list Z)) :
  good_seed seed -> shared (Z.to_nat t) (seed_elements seed) f -> kem_recovers (kyber_pk tpk) seed r ->
  threshold_encrypt tpk msg r = Ok ct -> Forall (holds f) ms -> Forall2 (made (ciphertext_binding_hash ct)) ms ds ->
  t <= len ms -> NoDup (ks_index <$> ms) ->
  Forall (fun s => share_authentic (ciphertext_binding_hash ct) committee s = true) ds ->
  combine_shares ds t ct committee = Returns (Ok msg).
Proof.
  intros G S KR E H M Lt N A. unfold combine_shares.
  assert (length ds = length ms) as Ld by (symmetry; by eapply Forall2_length).
  destruct (Z.ltb_spec (len ds) t) as [|_]; [unfold len in *; lia|].
  assert (existsb index_out_of_range ds = false) as ->.
  { assert (Forall in_committee (ks_index <$> ms)) as R by (apply Forall_fmap; eapply Forall_impl; [exact H|]; by intros ks []).
    apply not_true_is_false. intros (s & Hin & Hs)%existsb_exists. rewrite <- (made_indices _ _ _ M), Forall_fmap, Forall_forall in R.
    apply list_elem_of_In in Hin. specialize (R s Hin). unfold index_out_of_range, in_committee in *. cbn in R. lia. }
  rewrite duplicate_index_false by (by rewrite (made_indices _ _ _ M)).
  assert (forallb (share_authentic (ciphertext_binding_hash ct) committee) ds = true) as ->.
  { apply forallb_forall. rewrite Forall_forall in A. intros s Hs. apply A. by apply list_elem_of_In. }
  cbn [negb]. rewrite (combine_elements _ seed f _ ms) by (done || (unfold len in *; lia)). cbn [run_bind].
  destruct G as (B & L & C). rewrite seed_elements_encode by done. unfold KyberSecretKey_from_bytes, kyber_decapsulate.
  assert (len seed = SEED_SIZE) as Ls by (unfold len, SEED_SIZE; lia). rewrite Ls, Z.eqb_refl, Ls, Z.eqb_refl. cbn [negb].
  unfold threshold_encrypt, kyber_encapsulate in E. destruct (negb _); [done|]. destruct (negb _); [done|].
  destruct (kem_encapsulate (kyber_pk tpk) r) as [kct ss] eqn:Ek. injection E as <-. cbn [Encrypted.kyber_ct encrypted_msg mac].
  pose proof (kem_ct_size (kyber_pk tpk) r) as Sz. unfold kem_recovers in KR. rewrite Ek in Sz, KR. cbn [fst snd] in Sz, KR.
  rewrite Sz, Z.eqb_refl, KR. cbn [negb]. cbv zeta. rewrite bool_decide_eq_true_2 by reflexivity.
  pose proof (derive_keystream_length ss kct (length msg)) as Lk.
  rewrite xor_length by done. by rewrite xor_twice.
Qed.
(** ** Key generation *)

Lemma draw_seed_good (rng : nat -> list Z) (left k : nat) (pk seed : list Z) :
  draw_seed rng left k = Ok (pk, seed) -> good_seed seed.
Proof.
  revert k. induction left as [|left IH]; intros k; cbn [draw_seed]; [done|]. unfold kyber_keygen.
  destruct (kem_generate (rng k)) as [pk' [s|]] eqn:E; [|done]. destruct (all_canonical s) eqn:C; [|apply IH].
  intros [= -> ->]. destruct (kem_seed_ok _ _ _ E). by split.
Qed.

Lemma row_holds (secrets : list Z) (t : nat) (entropy : list Z) (v : nat) :
  length secrets = SEED_ELEMENTS -> Z.of_nat v < MAX_VALIDATOR_INDEX ->
  holds (split_poly secrets t entropy) (mkKeyShare (Z.of_nat v + 1) (split_row secrets t entropy v)).
Proof.
  intros L Hv. split; cbn [ks_index ks_shares].
  - split; lia.
  - unfold split_row. by rewrite length_imap.
  - intros e y H%split_row_lookup. by replace (Z.of_nat v + 1) with (Z.of_nat (S v)) by lia.
Qed.

Lemma keygen_shared (rng : nat -> list Z) (n t : Z) (tpk : ThresholdPublicKey) (keys : list KeyShare) :
  threshold_keygen rng n t = Returns (Ok (tpk, keys)) -> n <= MAX_VALIDATOR_INDEX ->
  exists seed f, draw_seed rng MAX_REJECTIONS 0 = Ok (kyber_pk tpk, seed) /\ good_seed seed /\
    shared (Z.to_nat t) (seed_elements seed) f /\ Forall (holds f) keys.
Proof.
  unfold threshold_keygen. destruct (Z.ltb_spec n t) as [|Hn]; [done|]. destruct (Z.ltb_spec t 1) as [|Ht]; [done|].
  destruct (draw_seed rng MAX_REJECTIONS 0) as [[pk seed]|] eqn:D; [|done].
  rewrite split_elements_returns. cbn [run_bind]. intros [= <- <-] Hm.
  exists seed, (split_poly (seed_elements seed) (Z.to_nat t) (poseidon2_hash seed)).
  split; [done|]. split; [by eapply draw_seed_good|]. split; [apply split_poly_shared; lia|].
  apply Forall_lookup. intros i ks. rewrite list_lookup_imap, list_lookup_fmap. destruct (seq 0 (Z.to_nat n) !! i) as [v|] eqn:Ev; [|done].
  apply lookup_seq in Ev as [-> Hi]. intros [= <-]. apply row_holds; [done|lia].
Qed.
(** ** Refresh *)

Lemma run_all_true {A : Type} (f : A -> Run bool) (l : list A) :
  run_all f l = Returns true -> forall a, a ∈ l -> f a = Returns true.
Proof.
  induction l as [|b l IH]; cbn; intros H a Ha; [by apply elem_of_nil in Ha|].
  destruct (f b) as [[]| |] eqn:E; try done. cbn in H. apply elem_of_cons in Ha as [->|Ha]; [done|]. by apply IH.
Qed.

(** Entry [e] of row [v]. *)
Definition cell (rows : list (list Z)) (v e : nat) : Z := default 0 (default [] (rows !! v) !! e).

Definition points (rows : list (list Z)) (t e : nat) : list FieldShare :=
  (fun v => mkFieldShare (gl (Z.of_nat (v + 1))) (cell rows v e)) <$> seq 0 t.

Section Columns.
Variables (rows : list (list Z)) (t : nat).
Hypothesis wide : forallb (fun row => Nat.eqb (length row) SEED_ELEMENTS) rows = true.
Hypothesis tall : (t <= length rows)%nat.
Hypothesis small : len rows < GOLDILOCKS_PRIME.

Lemma cell_lookup (v e : nat) : (v < length rows)%nat -> (e < SEED_ELEMENTS)%nat ->
  exists row, rows !! v = Some row /\ row !! e = Some (cell rows v e).
Proof.
  intros [row Hr]%lookup_lt_is_Some_2 He. exists row. split; [done|]. unfold cell. rewrite Hr. cbn.
  rewrite forallb_forall in wide. specialize (wide row). rewrite Nat.eqb_eq in wide.
  destruct (lookup_lt_is_Some_2 row e) as [y Hy]; [|by rewrite Hy].
  rewrite wide; [done|]. apply list_elem_of_In. by eapply list_elem_of_lookup_2.
Qed.

Lemma column_points_returns (e : nat) : (e < SEED_ELEMENTS)%nat -> column_points rows t e = Returns (points rows t e).
Proof.
  intros He. apply run_map_returns. intros v Hv%elem_of_seq. destruct (cell_lookup v e) as (row & -> & Hy); [lia|done|].
  cbn [unwrap run_bind]. by rewrite Hy.
Qed.

Lemma points_distinct (e : nat) : distinct (fs_x <$> points rows t e).
Proof.
  unfold points. rewrite <- list_fmap_compose.
  replace ((fs_x ∘ (fun v => mkFieldShare (gl (Z.of_nat (v + 1))) (cell rows v e))) <$> seq 0 t)
    with (gl <$> ((fun v => Z.of_nat (v + 1)) <$> seq 0 t)) by by rewrite <- list_fmap_compose.
  apply distinct_canonical.
  - apply NoDup_fmap_2; [intros a b; lia|apply NoDup_seq].
  - apply Forall_fmap, Forall_forall. intros v Hv%elem_of_seq. split; cbn; unfold len in small; lia.
Qed.

(** The columns that pass lie on one polynomial each. *)
Lemma column_on (e v : nat) :
  (e < SEED_ELEMENTS)%nat -> (v < length rows)%nat ->
  column_consistent rows t e (points rows t e) = Returns true ->
  eqp (cell rows v e) (interpolant (points rows t e) (Z.of_nat (v + 1))).
Proof.
  intros He Hv C. destruct (interpolant_poly (points rows t e)) as (cs & _ & Ec).
  assert (forall x, eqp (interpolant (points rows t e) (gl x)) (interpolant (points rows t e) x)) as Gx
    by (intros x; rewrite !Ec; apply eval_cong, gl_cong).
  rewrite <- Gx. destruct (decide (v < t)%nat) as [L|L].
  - symmetry. apply (interpolant_through _ (points_distinct e) v (mkFieldShare (gl (Z.of_nat (v + 1))) (cell rows v e))).
    unfold points. rewrite list_lookup_fmap, lookup_seq_lt by done. done.
  - eapply run_all_true in C; [|apply elem_of_seq; split; [apply Nat.le_ngt, L|]; lia].
    rewrite interpolate_returns in C by apply points_distinct. cbn [run_bind] in C.
    destruct (cell_lookup v e Hv He) as (row & Hr & Hy). rewrite Hr in C. cbn [unwrap run_bind] in C. rewrite Hy in C.
    injection C as C%Z.eqb_eq. by rewrite C.
Qed.
End Columns.

(** A contribution adds zero to the secret. *)
Record delta (t : nat) (c : RefreshContribution) (g : nat -> Z -> Z) : Prop := {
  delta_poly : forall e, poly t (g e);
  delta_zero : forall e, eqp (g e 0) 0;
  delta_rows : forall v row, rf_deltas c !! v = Some row -> length row = SEED_ELEMENTS /\
    forall e d, row !! e = Some d -> eqp d (g e (Z.of_nat (v + 1)))
}.

Lemma verified_delta (c : RefreshContribution) (t epoch : Z) (pk : list Z) :
  verify_refresh_contribution c t epoch pk = Returns true -> len (rf_deltas c) < GOLDILOCKS_PRIME ->
  exists g, delta (Z.to_nat t) c g.
Proof.
  unfold verify_refresh_contribution. intros V Hs. destruct (negb (rf_epoch c =? epoch)); [done|].
  destruct ((t =? 0) || (len (rf_deltas c) <? t)) eqn:Ht; [done|]. apply orb_false_iff in Ht as [_ Ht%Z.ltb_ge].
  destruct (forallb _ (rf_deltas c)) eqn:W; [|done]. cbn [negb] in V.
  set (rows := rf_deltas c) in *. set (n := Z.to_nat t) in *. assert (n <= length rows)%nat as Hn by (unfold len in Ht; lia).
  destruct (run_all _ (seq 0 SEED_ELEMENTS)) as [[]| |] eqn:A; try done.
  assert (forall e, (e < SEED_ELEMENTS)%nat -> interpolant (points rows n e) 0 = 0 /\ column_consistent rows n e (points rows n e) = Returns true) as Col.
  { intros e He. eapply run_all_true in A; [|apply elem_of_seq; split; [|exact He]; lia].
    rewrite column_points_returns in A by done. cbn [run_bind] in A. unfold shamir_reconstruct in A.
    rewrite interpolate_returns in A by (by apply points_distinct). cbn [run_bind] in A.
    destruct (Z.eqb_spec (interpolant (points rows n e) 0) 0) as [E|]; [by split|done]. }
  exists (fun e => if decide (e < SEED_ELEMENTS)%nat then interpolant (points rows n e) else fun _ => 0). split.
  - intros e. destruct (decide _); [|apply poly_zero].
    replace n with (length (points rows n e)) at 1 by (unfold points; by rewrite length_fmap, length_seq). apply interpolant_poly.
  - intros e. destruct (decide _) as [He|]; [|reflexivity]. destruct (Col e He) as [-> _]. reflexivity.
  - intros v row Hr. assert (length row = SEED_ELEMENTS) as Lr.
    { rewrite forallb_forall in W. apply Nat.eqb_eq, W, list_elem_of_In. by eapply list_elem_of_lookup_2. }
    split; [done|]. intros e d Hd. pose proof (lookup_lt_Some _ _ _ Hd) as He. rewrite Lr in He.
    rewrite decide_True by done. destruct (Col e He) as [_ Cc].
    pose proof (column_on rows n W Hn Hs e v He (lookup_lt_Some _ _ _ Hr) Cc) as E.
    unfold cell in E. fold rows in Hr. rewrite Hr in E. cbn [from_option] in E. unfold id in E. by rewrite Hd in E.
Qed.

Lemma add_row_returns (row shares : list Z) :
  length row = SEED_ELEMENTS -> length shares = SEED_ELEMENTS -> add_row row shares = Returns (zip_with gl_add shares row).
Proof.
  intros Lr Ls. unfold SEED_ELEMENTS in *.
  do 8 (destruct row as [|? row]; [discriminate|]). destruct row; [|discriminate].
  do 8 (destruct shares as [|? shares]; [discriminate|]). destruct shares; [|discriminate]. reflexivity.
Qed.

Lemma apply_refresh_cons (ks : KeyShare) (c : RefreshContribution) (cs : list RefreshContribution) :
  apply_refresh ks (c :: cs) = (ks' <~ apply_refresh ks [c] ;; apply_refresh ks' cs).
Proof.
  unfold apply_refresh. cbn [run_fold]. destruct (unwrap _) as [row| |]; [|done..]. cbn [run_bind].
  destruct (add_row row (ks_shares ks)); done.
Qed.

(** Applying one contribution moves a share to the sum of the polynomials. *)
Lemma apply_one (t : nat) (f g : nat -> Z -> Z) (c : RefreshContribution) (ks ks' : KeyShare) :
  holds f ks -> delta t c g -> apply_refresh ks [c] = Returns ks' ->
  holds (fun e x => f e x + g e x) ks' /\ ks_index ks' = ks_index ks.
Proof.
  intros [Hi Hl Ho] [_ _ Dr]. unfold apply_refresh. cbn [run_fold]. unfold in_committee, MAX_VALIDATOR_INDEX in Hi.
  rewrite wrap_small by (unfold in_range; lia). destruct (rf_deltas c !! _) as [row|] eqn:Er; [|done]. cbn [unwrap run_bind].
  destruct (Dr _ _ Er) as [Lr Or]. rewrite add_row_returns by done. cbn [run_bind]. intros [= <-].
  split; [|done]. split; cbn [ks_index ks_shares]; [done|rewrite length_zip_with; lia|].
  intros e v. rewrite lookup_zip_with. destruct (ks_shares ks !! e) as [s|] eqn:Es; [|done].
  destruct (row !! e) as [d|] eqn:Ed; [|done]. cbn. intros [= <-]. split; [apply gl_canonical|].
  destruct (Ho e s Es) as [_ E1]. pose proof (Or e d Ed) as E2. unfold gl_add. rewrite gl_cong, E1, E2.
  by replace (Z.of_nat (Z.to_nat (ks_index ks - 1) + 1)) with (ks_index ks) by lia.
Qed.

Lemma refresh_shared (t : nat) (secret : list Z) (cs : list RefreshContribution) (f : nat -> Z -> Z) :
  shared t secret f -> Forall (fun c => exists g, delta t c g) cs ->
  exists f', shared t secret f' /\
    forall ks ks', holds f ks -> apply_refresh ks cs = Returns ks' -> holds f' ks' /\ ks_index ks' = ks_index ks.
Proof.
  intros S F. revert f S. induction F as [|c cs [g D] F IH]; intros f S.
  { exists f. split; [done|]. intros ks ks' H. unfold apply_refresh. cbn [run_fold run_bind]. intros [= <-].
    split; [|done]. by destruct ks. }
  destruct (IH (fun e x => f e x + g e x)) as (f' & S' & H').
  { split.
    - intros e. apply poly_add; [by eapply shared_poly|by eapply delta_poly].
    - intros e s Hs. rewrite (delta_zero _ _ _ D e), Z.add_0_r. by apply (shared_secret _ _ _ S). }
  exists f'. split; [done|]. intros ks ks' H. rewrite apply_refresh_cons. destruct (apply_refresh ks [c]) as [k1| |] eqn:E; try done.
  cbn [run_bind]. intros E'. destruct (apply_one t f g c ks k1 H D E) as [H1 I1]. destruct (H' k1 ks' H1 E') as [H2 I2].
  split; [done|]. by rewrite I2.
Qed.
(** ** Transfer *)

Definition sum (h : nat -> Z) (n : nat) : Z := foldl (fun s i => s + h i) 0 (seq 0 n).

Lemma sum_S (h : nat -> Z) (n : nat) : sum h (S n) = sum h n + h n.
Proof. unfold sum. by rewrite seq_S, foldl_snoc. Qed.

Lemma sum_ext (h k : nat -> Z) (n : nat) : (forall i, (i < n)%nat -> eqp (h i) (k i)) -> eqp (sum h n) (sum k n).
Proof.
  induction n as [|n IH]; intros H; [reflexivity|]. rewrite !sum_S. rewrite IH by (intros i Hi; apply H; lia). by rewrite H by lia.
Qed.

Lemma sum_poly (t n : nat) (h : nat -> Z -> Z) : (forall i, poly t (h i)) -> poly t (fun x => sum (fun i => h i x) n).
Proof.
  intros H. induction n as [|n IH]; [apply poly_zero|].
  apply (poly_ext _ (fun x => sum (fun i => h i x) n + h n x)); [intros x; by rewrite sum_S|]. by apply poly_add.
Qed.

Lemma fold_sum {A : Type} (term : nat * A -> Z) (l : list A) :
  eqp (foldl (fun y p => gl_add y (term p)) 0 (imap pair l))
      (sum (fun i => match l !! i with Some a => term (i, a) | None => 0 end) (length l)).
Proof.
  induction l as [|a l IH] using rev_ind; [reflexivity|].
  rewrite imap_app, foldl_app, length_app, Nat.add_1_r, sum_S. cbn [imap foldl].
  unfold gl_add at 1. rewrite gl_cong. apply cong_add.
  - rewrite IH. apply sum_ext. intros i Hi. by rewrite lookup_app_l.
  - rewrite lookup_app_r, Nat.sub_diag by done. cbn. by rewrite Nat.add_0_r.
Qed.

Lemma Forall2_choice {A B C : Type} (R : A -> B -> C -> Prop) (c0 : C) (l : list A) (k : list B) :
  Forall2 (fun a b => exists c, R a b c) l k ->
  exists G : nat -> C, forall i a b, l !! i = Some a -> k !! i = Some b -> R a b (G i).
Proof.
  induction 1 as [|a b l k [c H] F (G & HG)]; [by exists (fun _ => c0)|].
  exists (fun i => match i with O => c | S i => G i end). intros [|i] x y Hx Hy; [|by apply HG]. cbn in *. by simplify_eq.
Qed.

Lemma add_scaled_returns (lambda : Z) (row shares : list Z) :
  length row = SEED_ELEMENTS -> length shares = SEED_ELEMENTS ->
  add_scaled lambda row shares = Returns (zip_with (fun s g => gl_add s (gl_mul lambda g)) shares row).
Proof.
  intros Lr Ls. unfold SEED_ELEMENTS in *.
  do 8 (destruct row as [|? row]; [discriminate|]). destruct row; [|discriminate].
  do 8 (destruct shares as [|? shares]; [discriminate|]). destruct shares; [|discriminate]. reflexivity.
Qed.

Lemma run_fold_inv {A B : Type} (I : B -> Prop) (f : B -> A -> Run B) (g : B -> A -> B) (b : B) (l : list A) :
  (forall b a, a ∈ l -> I b -> f b a = Returns (g b a) /\ I (g b a)) -> I b -> run_fold f b l = Returns (foldl g b l).
Proof.
  revert b. induction l as [|a l IH]; intros b H Hb; [done|]. cbn. destruct (H b a) as [-> Hg]; [constructor|done|].
  cbn. apply IH; [|done]. intros b' x Hx. apply H. by constructor.
Qed.

(** The coefficient of contribution [i]. *)
Definition lambda_at (xs : list Z) (i : nat) : Z := foldl (factor 0 (default 0 (xs !! i))) 1 (delete i xs).

Section Aggregate.
Variables (cs : list ResharingContribution) (j : nat).
Abbreviation xs := ((fun c => gl (rs_from_old_index c)) <$> cs).
Hypothesis Dx : distinct xs.

Definition scaled (acc : list Z) (p : nat * ResharingContribution) : list Z :=
  zip_with (fun s g => gl_add s (gl_mul (lambda_at xs p.1) g)) acc (default [] (rs_sub_shares p.2 !! j)).

Lemma scaled_length (l : list (nat * ResharingContribution)) (acc : list Z) :
  Forall (fun p => length (default [] (rs_sub_shares p.2 !! j)) = SEED_ELEMENTS) l -> length acc = SEED_ELEMENTS ->
  length (foldl scaled acc l) = SEED_ELEMENTS.
Proof.
  revert acc. induction l as [|p l IH]; intros acc F L; [done|]. apply Forall_cons in F as [Fp F]. cbn [foldl].
  apply IH; [done|]. unfold scaled. rewrite length_zip_with. lia.
Qed.

Lemma scaled_lookup (l : list (nat * ResharingContribution)) (acc : list Z) (e : nat) :
  Forall (fun p => length (default [] (rs_sub_shares p.2 !! j)) = SEED_ELEMENTS) l -> length acc = SEED_ELEMENTS ->
  (e < SEED_ELEMENTS)%nat ->
  foldl scaled acc l !! e =
  Some (foldl (fun y p => gl_add y (gl_mul (lambda_at xs p.1) (cell (rs_sub_shares p.2) j e))) (default 0 (acc !! e)) l).
Proof.
  revert acc. induction l as [|p l IH]; intros acc F L He; cbn [foldl].
  { destruct (lookup_lt_is_Some_2 acc e) as [y Hy]; [lia|]. by rewrite Hy. }
  apply Forall_cons in F as [Fp F]. assert (length (scaled acc p) = SEED_ELEMENTS) as Ls by (unfold scaled; rewrite length_zip_with; lia).
  rewrite IH by done. do 2 f_equal. unfold scaled, cell. rewrite lookup_zip_with.
  destruct (lookup_lt_is_Some_2 acc e) as [y ->]; [lia|].
  destruct (lookup_lt_is_Some_2 (default [] (rs_sub_shares p.2 !! j)) e) as [g ->]; [lia|]. done.
Qed.

Lemma aggregate_spec (ks : KeyShare) :
  aggregate_new_share (Z.of_nat j + 1) cs = Returns (Some ks) ->
  ks_index ks = Z.of_nat j + 1 /\ length (ks_shares ks) = SEED_ELEMENTS /\ Forall (fun c => exists row, rs_sub_shares c !! j = Some row /\ length row = SEED_ELEMENTS) cs /\
  forall e v, ks_shares ks !! e = Some v ->
    v = foldl (fun y p => gl_add y (gl_mul (lambda_at xs p.1) (cell (rs_sub_shares p.2) j e))) 0 (imap pair cs).
Proof.
  unfold aggregate_new_share. destruct cs as [|first rest] eqn:Ecs; [done|]. rewrite <- Ecs in *. clear Ecs rest.
  destruct (Z.eqb_spec (Z.of_nat j + 1) 0) as [|_]; [lia|]. replace (Z.to_nat (Z.of_nat j + 1 - 1)) with j by lia.
  destruct (Nat.leb_spec (length (rs_sub_shares first)) j) as [|Hj]; [done|].
  destruct (forallb _ cs) eqn:W; [|done]. cbn [negb]. rewrite forallb_forall in W.
  assert (Forall (fun c => exists row, rs_sub_shares c !! j = Some row /\ length row = SEED_ELEMENTS) cs) as Rows.
  { apply Forall_forall. intros c Hc%list_elem_of_In. specialize (W c Hc). apply andb_true_iff in W as [W1%Nat.eqb_eq W2%Nat.eqb_eq].
    destruct (lookup_lt_is_Some_2 (rs_sub_shares c) j) as [row Hr]; [lia|]. exists row. split; [done|]. by rewrite Hr in W2. }
  rewrite (run_map_returns _ (lambda_at xs)).
  2:{ intros i Hi%elem_of_seq. destruct (lookup_lt_is_Some_2 xs i) as [x Hx]; [rewrite length_fmap; lia|].
      rewrite (basis_at_returns 0 xs i x Dx Hx). unfold lambda_at. by rewrite Hx. }
  cbn [run_bind].
  assert (Forall (fun p => length (default [] (rs_sub_shares p.2 !! j)) = SEED_ELEMENTS) (imap pair cs)) as Rows'.
  { apply Forall_lookup. intros i p. rewrite list_lookup_imap. destruct (cs !! i) as [c|] eqn:Ec; [|done]. intros [= <-].
    eapply Forall_lookup in Rows as (row & Hr & Lr); [|exact Ec]. cbn. by rewrite Hr. }
  rewrite (run_fold_inv (fun acc => length acc = SEED_ELEMENTS) _ scaled); [|clear W|done].
  - cbn [run_bind]. intros [= <-]. cbn [ks_index ks_shares]. split; [done|]. split; [by apply scaled_length|].
    split; [done|].
    intros e v Hv. pose proof (lookup_lt_Some _ _ _ Hv) as He. rewrite scaled_length in He by done.
    rewrite scaled_lookup in Hv by done. injection Hv as <-. unfold SEED_ELEMENTS in He.
    do 8 (destruct e as [|e]; [reflexivity|]). lia.
  - intros acc [i c] Hp Hacc. pose proof (proj1 (Forall_forall _ _) Rows' _ Hp) as Lr. cbn [snd] in Lr.
    assert (cs !! i = Some c) as Hi.
    { apply list_elem_of_lookup_1 in Hp as [k Hk]. rewrite list_lookup_imap in Hk. destruct (cs !! k) eqn:E; [|done]. cbn in Hk. by simplify_eq. }
    rewrite list_lookup_fmap, lookup_seq_lt by (by eapply lookup_lt_Some). cbn [fmap option_fmap option_map unwrap run_bind].
    eapply Forall_lookup in Rows as (row & Hr & Lw); [|exact Hi]. rewrite Hr. cbn [unwrap run_bind].
    rewrite add_scaled_returns by done. unfold scaled. cbn [fst snd]. rewrite Hr. cbn. split; [done|]. rewrite length_zip_with. lia.
Qed.
End Aggregate.
(** A contribution passes the giver's share on. *)
Record handed (t : nat) (ks : KeyShare) (c : ResharingContribution) (g : nat -> Z -> Z) : Prop := {
  handed_index : rs_from_old_index c = ks_index ks;
  handed_poly : forall e, poly t (g e);
  handed_secret : forall e v, ks_shares ks !! e = Some v -> eqp (g e 0) v;
  handed_rows : forall j e row, rs_sub_shares c !! j = Some row -> (e < SEED_ELEMENTS)%nat ->
    eqp (cell (rs_sub_shares c) j e) (g e (Z.of_nat j + 1))
}.

Lemma generated_handed (ks : KeyShare) (n t : nat) (epoch : Z) (entropy : list Z) (c : ResharingContribution) :
  length (ks_shares ks) = SEED_ELEMENTS -> (1 <= t)%nat ->
  generate_resharing_contribution ks n t epoch entropy = Returns c -> exists g, handed t ks c g.
Proof.
  intros L Ht. unfold generate_resharing_contribution.
  assert (run_map (fun e => unwrap (ks_shares ks !! e)) (seq 0 SEED_ELEMENTS) = Returns (ks_shares ks)) as ->.
  { revert L. generalize (ks_shares ks). intros l L.
    unfold SEED_ELEMENTS in *. do 8 (destruct l as [|? l]; [discriminate|]). destruct l; [reflexivity|discriminate]. }
  cbn [run_bind]. rewrite split_elements_returns. cbn [run_bind]. intros [= <-].
  set (dom := poseidon2_hash _). destruct (split_poly_shared (ks_shares ks) t dom Ht) as [Sp Ss].
  exists (split_poly (ks_shares ks) t dom). split; cbn [rs_from_old_index rs_sub_shares]; try done.
  intros j e row Hj He. unfold cell. rewrite Hj. rewrite list_lookup_fmap in Hj.
  destruct (seq 0 n !! j) as [v|] eqn:Ev; [|done]. apply lookup_seq in Ev as [-> _]. cbn in Hj. injection Hj as <-.
  cbn [from_option]. unfold id. destruct (lookup_lt_is_Some_2 (split_row (ks_shares ks) t dom (0 + j)) e) as [y Hy].
  { unfold split_row. rewrite length_imap. lia. }
  cbn in Hy |- *. rewrite Hy. apply split_row_lookup in Hy as [_ Hy]. cbn. by replace (Z.of_nat j + 1) with (Z.of_nat (S j)) by lia.
Qed.

Section Reshare.
Variables (told tnew : nat) (secret : list Z) (f : nat -> Z -> Z) (olds : list KeyShare) (cs : list ResharingContribution).
Variable G : nat -> nat -> Z -> Z.
Hypothesis S : shared told secret f.
Hypothesis Lsec : length secret = SEED_ELEMENTS.
Hypothesis N : NoDup (ks_index <$> olds).
Hypothesis Lt : (told <= length olds)%nat.
Hypothesis HG : Forall2 (fun ks c => exists g, handed tnew ks c g) olds cs.
Hypothesis At : forall i, (i < length cs)%nat ->
  exists ks c, olds !! i = Some ks /\ cs !! i = Some c /\ handed tnew ks c (G i) /\ holds f ks.

Abbreviation xs := ((fun c => gl (rs_from_old_index c)) <$> cs).

Definition mixed (e : nat) (x : Z) : Z :=
  sum (fun i => lambda_at xs i * (if decide (i < length cs)%nat then G i e x else 0)) (length cs).

Lemma old_indices : xs = gl <$> (ks_index <$> olds).
Proof.
  clear -HG. induction HG as [|ks c l k [g Hg] F IH]; [done|]. cbn. by rewrite (handed_index _ _ _ _ Hg), IH.
Qed.

Lemma olds_hold : Forall (holds f) olds.
Proof.
  apply Forall_lookup. intros i ks Hi. destruct (At i) as (ks' & c & Hk & _ & _ & H).
  - rewrite <- (Forall2_length _ _ _ HG). by eapply lookup_lt_Some.
  - by simplify_eq.
Qed.

Lemma old_distinct : distinct xs.
Proof. rewrite old_indices. eapply holds_distinct; [done|apply olds_hold]. Qed.

(** The points that interpolate to the old polynomial's value at zero. *)
Lemma old_interpolate (e : nat) :
  (e < SEED_ELEMENTS)%nat ->
  interpolate_at 0 ((fun ks => mkFieldShare (gl (ks_index ks)) (default 0 (ks_shares ks !! e))) <$> olds) = Returns (gl (f e 0)).
Proof.
  intros He. apply interpolate_exact.
  - rewrite <- list_fmap_compose. change (distinct ((fun ks => gl (ks_index ks)) <$> olds)).
    replace ((fun ks => gl (ks_index ks)) <$> olds) with xs by by rewrite old_indices, <- list_fmap_compose. apply old_distinct.
  - rewrite length_fmap. apply (poly_weaken told); [done|]. by eapply shared_poly.
  - intros q (ks & -> & Hk)%list_elem_of_fmap. destruct (proj1 (Forall_forall _ _) olds_hold ks Hk) as [_ Ll Hon].
    destruct (lookup_lt_is_Some_2 (ks_shares ks) e) as [v Hv]; [lia|]. cbn [fs_x fs_y]. rewrite Hv.
    destruct (Hon e v Hv) as [_ E]. cbn. rewrite E. destruct (shared_poly _ _ _ S e) as (q & _ & Eq). rewrite !Eq.
    symmetry. apply eval_cong, gl_cong.
Qed.

Lemma mixed_zero (e : nat) : (e < SEED_ELEMENTS)%nat -> eqp (mixed e 0) (f e 0).
Proof.
  intros He. pose proof (old_interpolate e He) as I. set (pts := _ <$> olds) in I.
  assert (fs_x <$> pts = xs) as Exs by (unfold pts; rewrite old_indices, <- !list_fmap_compose; done).
  assert (length pts = length cs) as Lp by (unfold pts; rewrite length_fmap; by eapply Forall2_length).
  rewrite interpolate_returns in I by (rewrite Exs; apply old_distinct). injection I as I.
  rewrite <- (gl_cong (f e 0)), <- I. unfold interpolant. rewrite fold_sum, Lp.
  apply sum_ext. intros i Hi. destruct (At i Hi) as (ks & c & Hk & Hc & Hg & [_ Ll Hon]).
  rewrite decide_True by done. unfold pts at 1. rewrite list_lookup_fmap, Hk. cbn [fmap option_fmap option_map].
  unfold term, lambda_at. cbn [fst snd fs_x fs_y]. rewrite Exs.
  replace (default 0 (xs !! i)) with (gl (ks_index ks)) by (rewrite old_indices, !list_lookup_fmap, Hk; done).
  unfold gl_mul. etransitivity; [|symmetry; apply gl_cong]. rewrite (Z.mul_comm _ (G i e 0)). apply cong_mul; [|reflexivity].
  destruct (lookup_lt_is_Some_2 (ks_shares ks) e) as [v Hv]; [lia|]. rewrite Hv. by apply (handed_secret _ _ _ _ Hg).
Qed.

Lemma mixed_shared : shared tnew secret mixed.
Proof.
  split.
  - intros e. apply (sum_poly tnew (length cs) (fun i x => lambda_at xs i * (if decide (i < length cs)%nat then G i e x else 0))).
    intros i. apply poly_scale. destruct (decide _) as [Hi|]; [|apply poly_zero].
    destruct (At i Hi) as (ks & c & _ & _ & Hg & _). by eapply handed_poly.
  - intros e s Hs. rewrite mixed_zero; [by apply (shared_secret _ _ _ S)|]. apply lookup_lt_Some in Hs. lia.
Qed.

Lemma mixed_holds (j : nat) (ks : KeyShare) :
  Z.of_nat j + 1 <= MAX_VALIDATOR_INDEX -> aggregate_new_share (Z.of_nat j + 1) cs = Returns (Some ks) -> holds mixed ks.
Proof.
  intros Hj Ha. destruct (aggregate_spec cs j old_distinct ks Ha) as (Ei & El & Rows & Ev).
  split; [rewrite Ei; split; lia|done|]. intros e v Hv. pose proof (lookup_lt_Some _ _ _ Hv) as He. rewrite El in He.
  apply Ev in Hv. split.
  - rewrite Hv. by apply fold_canonical.
  - rewrite Hv, (fold_sum (fun p => gl_mul (lambda_at xs p.1) (cell (rs_sub_shares p.2) j e)) cs), Ei. apply sum_ext.
    intros i Hi. destruct (At i Hi) as (k & c & Hk & Hc & Hg & _). rewrite Hc, decide_True by done.
    cbn [fst snd]. unfold gl_mul. etransitivity; [apply gl_cong|]. apply cong_mul; [reflexivity|].
    eapply Forall_lookup in Rows as (row & Hr & _); [|exact Hc]. by eapply handed_rows.
Qed.
End Reshare.

Lemma reshare_shared (told tnew : nat) (secret : list Z) (f : nat -> Z -> Z) (olds : list KeyShare) (cs : list ResharingContribution) :
  shared told secret f -> length secret = SEED_ELEMENTS -> Forall (holds f) olds -> NoDup (ks_index <$> olds) ->
  (told <= length olds)%nat -> Forall2 (fun ks c => exists g, handed tnew ks c g) olds cs ->
  exists h, shared tnew secret h /\
    forall j ks, Z.of_nat j + 1 <= MAX_VALIDATOR_INDEX -> aggregate_new_share (Z.of_nat j + 1) cs = Returns (Some ks) -> holds h ks.
Proof.
  intros S Lsec H N Lt F. destruct (Forall2_choice _ (fun _ _ => 0) _ _ F) as [G HG].
  assert (forall i, (i < length cs)%nat -> exists ks c, olds !! i = Some ks /\ cs !! i = Some c /\ handed tnew ks c (G i) /\ holds f ks) as At.
  { intros i Hi. destruct (lookup_lt_is_Some_2 cs i Hi) as [c Hc].
    destruct (lookup_lt_is_Some_2 olds i) as [ks Hk]; [by rewrite (Forall2_length _ _ _ F)|].
    exists ks, c. split; [done|]. split; [done|]. split; [by apply HG|]. eapply Forall_lookup; eauto. }
  exists (mixed cs G). split; [by eapply mixed_shared|]. intros j ks. by eapply mixed_holds.
Qed.
(** ** Custody of the key

    The committees that may come to hold a key: the one that generated it, a
    committee after a refresh with verified contributions, and a committee that
    received it from [t] members of the one before. *)
Inductive custody (rng : nat -> list Z) : ThresholdPublicKey -> Z -> list KeyShare -> Prop :=
| custody_generated (n t : Z) (tpk : ThresholdPublicKey) (keys : list KeyShare) :
    n <= MAX_VALIDATOR_INDEX -> threshold_keygen rng n t = Returns (Ok (tpk, keys)) -> custody rng tpk t keys
| custody_refreshed (tpk : ThresholdPublicKey) (t epoch : Z) (keys keys' : list KeyShare) (pool cs : list RefreshContribution) :
    custody rng tpk t keys ->
    Forall (fun c => len (rf_deltas c) < 2 ^ 63 /\ exists pk, verify_refresh_contribution c t epoch pk = Returns true) pool ->
    canonical_refresh_subset pool t = Some cs ->
    Forall2 (fun ks ks' => apply_refresh_canonical ks cs = Returns ks') keys keys' -> custody rng tpk t keys'
| custody_transferred (tpk : ThresholdPublicKey) (t t' epoch : Z) (n' : nat) (keys givers keys' : list KeyShare)
    (pool cs : list ResharingContribution) :
    custody rng tpk t keys -> 1 <= t' -> Forall (fun ks => ks ∈ keys) givers -> NoDup (ks_index <$> givers) ->
    Forall2 (fun ks c => exists entropy, generate_resharing_contribution ks n' (Z.to_nat t') epoch entropy = Returns c) givers pool ->
    canonical_resharing_subset pool t = Some cs ->
    Forall (fun ks' => exists j, in_committee j /\ aggregate_new_share j cs = Returns (Some ks')) keys' -> custody rng tpk t' keys'.

(** The invariant. *)
Definition keeps (rng : nat -> list Z) (tpk : ThresholdPublicKey) (t : Z) (keys : list KeyShare) : Prop :=
  exists seed f, draw_seed rng MAX_REJECTIONS 0 = Ok (kyber_pk tpk, seed) /\ good_seed seed /\
    shared (Z.to_nat t) (seed_elements seed) f /\ Forall (holds f) keys.

Lemma refreshed_keeps (rng : nat -> list Z) (tpk : ThresholdPublicKey) (t epoch : Z) (keys keys' : list KeyShare)
    (pool cs : list RefreshContribution) :
  keeps rng tpk t keys ->
  Forall (fun c => len (rf_deltas c) < 2 ^ 63 /\ exists pk, verify_refresh_contribution c t epoch pk = Returns true) pool ->
  canonical_refresh_subset pool t = Some cs ->
  Forall2 (fun ks ks' => apply_refresh_canonical ks cs = Returns ks') keys keys' -> keeps rng tpk t keys'.
Proof.
  intros (seed & f & D & G & S & H) V C A. unfold canonical_refresh_subset in C. destruct (len pool <? t); [done|]. injection C as <-.
  destruct (refresh_shared (Z.to_nat t) (seed_elements seed) (take (Z.to_nat t) (sort_by_key rf_from_index pool)) f S) as (f' & S' & H').
  { apply Forall_take. rewrite sort_by_key_perm. eapply Forall_impl; [exact V|]. intros c (L & pk & E).
    eapply verified_delta; [exact E|]. unfold GOLDILOCKS_PRIME. lia. }
  exists seed, f'. split; [done|]. split; [done|]. split; [done|]. apply Forall_lookup. intros i ks' Hi.
  destruct (Forall2_lookup_r _ _ _ _ _ A Hi) as (ks & Hk & E). destruct (H' ks ks'); [eapply Forall_lookup; eauto|done|done].
Qed.

Lemma transferred_keeps (rng : nat -> list Z) (tpk : ThresholdPublicKey) (t t' epoch : Z) (n' : nat) (keys givers keys' : list KeyShare)
    (pool cs : list ResharingContribution) :
  keeps rng tpk t keys -> 1 <= t' -> Forall (fun ks => ks ∈ keys) givers -> NoDup (ks_index <$> givers) ->
  Forall2 (fun ks c => exists entropy, generate_resharing_contribution ks n' (Z.to_nat t') epoch entropy = Returns c) givers pool ->
  canonical_resharing_subset pool t = Some cs ->
  Forall (fun ks' => exists j, in_committee j /\ aggregate_new_share j cs = Returns (Some ks')) keys' -> keeps rng tpk t' keys'.
Proof.
  intros (seed & f & D & G & S & H) Ht Hsub N F C A. unfold canonical_resharing_subset in C.
  destruct (Z.ltb_spec (len pool) t) as [|Lp]; [done|]. injection C as <-. set (cs := take _ _) in *.
  assert (Forall (holds f) givers) as Hg.
  { eapply Forall_impl; [exact Hsub|]. intros ks Hk. eapply Forall_forall; eauto. }
  assert (Forall2 (fun ks c => exists g, handed (Z.to_nat t') ks c g) givers pool) as Hh.
  { apply Forall2_same_length_lookup. split; [by eapply Forall2_length|]. intros i ks c Hk Hc.
    destruct (Forall2_lookup_lr _ _ _ _ _ _ F Hk Hc) as [entropy E]. eapply generated_handed; [|lia|exact E].
    eapply Forall_lookup in Hg; [|exact Hk]. by apply holds_len in Hg. }
  destruct (Permutation_Forall2 (symmetry (sort_by_key_perm rs_from_old_index pool)) (proj2 (Forall2_flip _ _ _) Hh)) as (givers' & Pg & Hh').
  assert (Forall2 (fun ks c => exists g, handed (Z.to_nat t') ks c g) (take (Z.to_nat t) givers') cs) as Hc.
  { apply Forall2_take, Forall2_flip. exact Hh'. }
  destruct (reshare_shared (Z.to_nat t) (Z.to_nat t') (seed_elements seed) f (take (Z.to_nat t) givers') cs S) as (h & Sh & Ah).
  - done.
  - apply Forall_take. by rewrite <- Pg.
  - rewrite fmap_take. eapply sublist_NoDup; [|apply sublist_take]. by rewrite <- Pg.
  - rewrite length_take, <- (Permutation_length Pg), (Forall2_length _ _ _ Hh). unfold len in Lp. lia.
  - exact Hc.
  - exists seed, h. split; [done|]. split; [done|]. split; [done|]. eapply Forall_impl; [exact A|].
    intros ks (j & Hj & E). unfold in_committee in Hj. apply (Ah (Z.to_nat (j - 1)));
      replace (Z.of_nat (Z.to_nat (j - 1)) + 1) with j by lia; [lia|done].
Qed.

Lemma custody_keeps (rng : nat -> list Z) (tpk : ThresholdPublicKey) (t : Z) (keys : list KeyShare) :
  custody rng tpk t keys -> keeps rng tpk t keys.
Proof.
  induction 1 as [n t tpk keys Hn E| | ].
  - destruct (keygen_shared rng n t tpk keys E Hn) as (seed & f & H). by exists seed, f.
  - by eapply refreshed_keeps.
  - by eapply transferred_keeps.
Qed.

(** [C3] Threshold encryption works whoever holds the key: after key
    generation, any number of refreshes with verified contributions and any
    number of transfers to other committees, every set of at least threshold
    members of the committee that now holds the shares decrypts every message
    encrypted under the public key, if their signatures verify and ML-KEM
    decapsulates. *)
Theorem any_committee_decrypts (rng : nat -> list Z) (tpk : ThresholdPublicKey) (t : Z) (keys members : list KeyShare)
    (msg r : list Z) (ct : ThresholdCiphertext) (committee : list (list Z)) (shares : list DecryptionShare) :
  custody rng tpk t keys ->
  (forall seed, draw_seed rng MAX_REJECTIONS 0 = Ok (kyber_pk tpk, seed) -> kem_recovers (kyber_pk tpk) seed r) ->
  threshold_encrypt tpk msg r = Ok ct ->
  Forall (fun ks => ks ∈ keys) members -> NoDup (ks_index <$> members) -> t <= len members ->
  Forall2 (fun ks s => exists sign, generate_decryption_share ks ct sign = Returns (Ok s)) members shares ->
  Forall (fun s => share_authentic (ciphertext_binding_hash ct) committee s = true) shares ->
  combine_shares shares t ct committee = Returns (Ok msg).
Proof.
  intros C KR E Sub N L M A. destruct (custody_keeps _ _ _ _ C) as (seed & f & D & G & S & H).
  eapply (combine_decrypts t seed f tpk msg r ct members); try done; [by apply KR| |].
  - eapply Forall_impl; [exact Sub|]. intros ks Hk. eapply Forall_forall; eauto.
  - eapply Forall2_impl; [exact M|]. intros ks s [sign Hs]. by apply generate_made in Hs as [Hs _].
Qed.
End Props.

(** ** A history, evaluated *)

Definition toy_pad (n : nat) (l : list Z) : list Z := (fun b => b mod 256) <$> take n (l ++ replicate n 0).

Definition zeros (n : nat) : list Z := replicate n 0.

(** The public key carries the seed and the ciphertext the randomness. *)
#[global] Instance toy_kem : Kem := {|
  kem_generate := fun r => (toy_pad 64 r ++ zeros 1120, Some (toy_pad 64 r));
  kem_accepts := fun _ => true;
  kem_encapsulate := fun pk r => (toy_pad 32 r ++ zeros 1056, poseidon2_hash (take 64 pk ++ toy_pad 32 r));
  kem_decapsulate := fun seed ct => poseidon2_hash (seed ++ take 32 ct)
|}.

Lemma toy_pad_length (n : nat) (l : list Z) : length (toy_pad n l) = n.
Proof. unfold toy_pad. rewrite length_fmap, length_take, length_app, length_replicate. lia. Qed.

#[global] Instance toy_kem_ok : KemOk toy_kem.
Proof.
  split.
  - intros r pk seed [= _ <-]. split; [|apply toy_pad_length]. apply Forall_fmap, Forall_true. intros b. by apply Z.mod_pos_bound.
  - intros pk r. cbn [kem_encapsulate toy_kem fst]. unfold len, zeros. rewrite length_app, toy_pad_length, length_replicate. done.
Qed.

Lemma toy_kem_recovers (rng : nat -> list Z) (pk seed r : list Z) (left k : nat) :
  draw_seed rng left k = Ok (pk, seed) -> kem_recovers pk seed r.
Proof.
  revert k. induction left as [|left IH]; intros k; cbn [draw_seed]; [done|]. unfold kyber_keygen. cbn [kem_generate toy_kem].
  destruct (all_canonical _); [|apply IH]. intros [= <- <-]. unfold kem_recovers. cbn [kem_decapsulate kem_encapsulate toy_kem fst snd].
  by rewrite !take_app_length' by (by rewrite toy_pad_length).
Qed.

Definition returned {A : Type} (d : A) (r : Run A) : A := match r with Returns a => a | _ => d end.
Definition ok_of {A E : Type} (d : A) (r : Result A E) : A := match r with Ok a => a | Err _ => d end.

Definition toy_rng (k : nat) : list Z := (fun i => Z.of_nat (7 * i + k)) <$> seq 1 64.
Definition toy_genesis : ThresholdPublicKey * list KeyShare :=
  ok_of (mkTpk [] 0 0, []) (returned (Err "") (threshold_keygen toy_rng 3 2)).
Definition toy_refreshes : list RefreshContribution :=
  (fun i => ok_of (mkRefresh 0 0 [] []) (returned (Err "") (generate_refresh_contribution i 3 2 9 [i] toy_sign))) <$> [3; 1; 2].
Definition toy_refreshed : list KeyShare :=
  (fun ks => returned ks (apply_refresh_canonical ks (default [] (canonical_refresh_subset toy_refreshes 2)))) <$> toy_genesis.2.
Definition toy_givers : list KeyShare := take 1 (drop 2 toy_refreshed) ++ take 1 toy_refreshed.
Definition toy_transfers : list ResharingContribution :=
  (fun ks => returned (mkResharing 0 []) (generate_resharing_contribution ks 4 3 10 [ks_index ks])) <$> toy_givers.
Definition toy_received : list KeyShare :=
  (fun j => default (mkKeyShare 0 []) (returned None (aggregate_new_share j (default [] (canonical_resharing_subset toy_transfers 2))))) <$> [1; 2; 3; 4].
Definition toy_ciphertext : ThresholdCiphertext :=
  ok_of (mkCiphertext [] [] []) (threshold_encrypt toy_genesis.1 [104; 105; 33] [1; 2; 3]).
Definition toy_shares (members : list KeyShare) : list DecryptionShare :=
  (fun ks => ok_of (mkDecShare 0 [] []) (returned (Err "") (generate_decryption_share ks toy_ciphertext toy_sign))) <$> members.

Definition is_returns {A : Type} (r : Run A) : bool := match r with Returns _ => true | _ => false end.

Lemma returned_all {A B : Type} (d : A -> B) (f : A -> Run B) (l : list A) :
  forallb (fun a => is_returns (f a)) l = true -> Forall2 (fun a b => f a = Returns b) l ((fun a => returned (d a) (f a)) <$> l).
Proof.
  intros H. apply Forall2_fmap_r, Forall_Forall2_diag, Forall_forall. intros a Ha%list_elem_of_In.
  rewrite forallb_forall in H. specialize (H a Ha). unfold compose. cbn beta in *. destruct (f a); [reflexivity|discriminate..].
Qed.

Lemma toy_given : Forall (fun ks => ks ∈ toy_refreshed) toy_givers.
Proof.
  apply Forall_app. split; apply Forall_forall; intros ks Hk.
  - apply (sublist_subseteq _ _ (sublist_drop toy_refreshed 2)). eapply sublist_subseteq; [apply sublist_take|exact Hk].
  - eapply sublist_subseteq; [apply sublist_take|exact Hk].
Qed.

Lemma toy_custody : custody toy_rng toy_genesis.1 3 toy_received.
Proof.
  eapply (custody_transferred toy_rng toy_genesis.1 2 3 10 4 toy_refreshed toy_givers toy_received toy_transfers
            (default [] (canonical_resharing_subset toy_transfers 2))).
  - eapply (custody_refreshed toy_rng toy_genesis.1 2 9 toy_genesis.2 toy_refreshed toy_refreshes
              (default [] (canonical_refresh_subset toy_refreshes 2))).
    + apply (custody_generated toy_rng 3 2); [discriminate|]. vm_compute. reflexivity.
    + apply Forall_forall. intros c Hc%list_elem_of_In.
      assert (forallb (fun c => (len (rf_deltas c) <? 2 ^ 63) && returned false (verify_refresh_contribution c 2 9 [])) toy_refreshes = true) as V
        by (vm_compute; reflexivity).
      rewrite forallb_forall in V. specialize (V c Hc). apply andb_true_iff in V as [V1%Z.ltb_lt V2]. split; [done|]. exists [].
      destruct (verify_refresh_contribution c 2 9 []) as [[]| |]; done.
    + vm_compute. reflexivity.
    + refine (returned_all (fun ks => ks) (fun ks => apply_refresh_canonical ks (default [] (canonical_refresh_subset toy_refreshes 2))) toy_genesis.2 _).
      vm_compute. reflexivity.
  - discriminate.
  - apply toy_given.
  - assert (ks_index <$> toy_givers = [3; 1]) as -> by (vm_compute; reflexivity). repeat constructor; set_solver.
  - refine (Forall2_impl _ _ _ _ (returned_all (fun _ => mkResharing 0 []) (fun ks => generate_resharing_contribution ks 4 3 10 [ks_index ks]) toy_givers _) _).
    + vm_compute. reflexivity.
    + intros ks c H. by exists [ks_index ks].
  - vm_compute. reflexivity.
  - assert (Forall2 (fun j ks => aggregate_new_share j (default [] (canonical_resharing_subset toy_transfers 2)) = Returns (Some ks)) [1; 2; 3; 4] toy_received) as A
      by (repeat (constructor; [vm_compute; reflexivity|]); constructor).
    apply Forall_lookup. intros i ks Hi. destruct (Forall2_lookup_r _ _ _ _ _ A Hi) as (j & Hj & E). exists j. split; [|done].
    eapply Forall_lookup; [|exact Hj]. clear. repeat (constructor; [split; discriminate|]). constructor.
Qed.

Lemma any_committee_decrypts_witness :
  let members := [4; 2; 1] in
  exists shares, shares = toy_shares (omap (fun i => toy_received !! Z.to_nat (i - 1)) members) /\
    ds_index <$> shares = members /\
    combine_shares shares 3 toy_ciphertext (replicate 4 []) = Returns (Ok [104; 105; 33]).
Proof.
  intros members. eexists. split; [reflexivity|]. split; [vm_compute; reflexivity|].
  apply (any_committee_decrypts toy_rng toy_genesis.1 3 toy_received (omap (fun i => toy_received !! Z.to_nat (i - 1)) members)
           [104; 105; 33] [1; 2; 3]).
  - apply toy_custody.
  - intros seed H. by eapply toy_kem_recovers.
  - vm_compute. reflexivity.
  - apply Forall_forall. intros ks (i & _ & Hi)%list_elem_of_omap. by eapply list_elem_of_lookup_2.
  - assert (ks_index <$> omap (fun i => toy_received !! Z.to_nat (i - 1)) members = [4; 2; 1]) as -> by (vm_compute; reflexivity).
    repeat constructor; set_solver.
  - vm_compute. discriminate.
  - unfold toy_shares. apply Forall2_fmap_r, Forall_Forall2_diag, Forall_forall. intros ks Hk%list_elem_of_In.
    assert (forallb (fun ks => match generate_decryption_share ks toy_ciphertext toy_sign with Returns (Ok _) => true | _ => false end)
              (omap (fun i => toy_received !! Z.to_nat (i - 1)) members) = true) as G by (vm_compute; reflexivity).
    rewrite forallb_forall in G. specialize (G ks Hk). exists toy_sign. unfold compose.
    destruct (generate_decryption_share ks toy_ciphertext toy_sign) as [[s|]| |]; done.
  - apply Forall_forall. intros s Hs%list_elem_of_In. revert s Hs. apply forallb_forall. vm_compute. reflexivity.
Defined.
