(* ===== verification/ThresholdFindings.v ===== *)
(** * The formats of the threshold scheme, and what it does not check

    The formats' round trips, and four behaviours of [crypto/src/threshold.rs] that
    its comments rule out. *)

From stdpp Require Import base numbers list option strings sets gmap.
From Stdlib Require Import ZArith Lia.
From S2P Require Import Prelude Crypto Wire Chain ViewChange Encrypted Goldilocks Threshold ThresholdProps.

#[local] Open Scope Z_scope.
#[local] Open Scope pyde_scope.

(** ** The formats *)

Lemma enc_elements_length (l : list Z) : length (enc_elements l) = (8 * length l)%nat.
Proof.
  unfold enc_elements. induction l as [|x l IH]; [done|]. cbn [fmap list_fmap concat]. rewrite length_app, length_le_encode, IH. cbn. lia.
Qed.

Lemma enc_elements_at (l : list Z) (post : list Z) (i : nat) (y : Z) :
  l !! i = Some y -> slice (8 * i) 8 (enc_elements l ++ post) = le_encode 8 y.
Proof.
  revert i. induction l as [|x l IH]; intros i Hi; [done|]. unfold enc_elements. cbn [fmap list_fmap concat].
  fold (enc_elements l). rewrite <- app_assoc. destruct i as [|i]; cbn in Hi.
  - simplify_eq. rewrite Nat.mul_0_r. apply slice_here. by rewrite length_le_encode.
  - replace (8 * S i)%nat with (8 + 8 * i)%nat by lia. unfold slice. rewrite <- drop_drop.
    rewrite (drop_app_length' (le_encode 8 _)) by (by rewrite length_le_encode). by apply IH.
Qed.

Lemma element_at_enc (pre l post : list Z) (i : nat) (y : Z) :
  l !! i = Some y -> canonical y -> element_at (length pre) i (pre ++ enc_elements l ++ post) = y.
Proof.
  intros Hi C. unfold element_at, le_at, slice. rewrite <- drop_drop, drop_app_length. fold (slice (8 * i) 8 (enc_elements l ++ post)).
  rewrite (enc_elements_at l post i y Hi). apply le_decode_encode. destruct C. unfold GOLDILOCKS_PRIME in *. cbn. lia.
Qed.

Lemma dec_elements_enc (pre l post : list Z) :
  Forall canonical l -> dec_elements (length pre) (length l) (pre ++ enc_elements l ++ post) = Some l.
Proof.
  intros C. apply mapM_Some_2, Forall2_same_length_lookup_2; [by rewrite length_seq|]. intros i j y Hj Hy.
  apply lookup_seq in Hj as [-> _]. cbn zeta. eapply Forall_lookup in C; [|exact Hy].
  rewrite Nat.add_0_l, (element_at_enc pre l post i y Hy C).
  destruct (Z.leb_spec GOLDILOCKS_PRIME y) as [|_]; [destruct C; lia|]. by rewrite gl_small.
Qed.

Lemma ks_roundtrip (k : KeyShare) :
  in_range u64 (ks_index k) -> len (ks_shares k) < 2 ^ 32 -> Forall canonical (ks_shares k) -> ks_from_bytes (ks_to_bytes k) = Some k.
Proof.
  intros Hi Hl C. destruct k as [i l]. cbn [ks_index ks_shares] in *. unfold ks_from_bytes, ks_to_bytes. cbn [ks_index ks_shares].
  set (pre := le_encode 8 i ++ le_encode 4 (len l)). assert (length pre = 12%nat) as Lp by (unfold pre; by rewrite length_app, !length_le_encode).
  assert (le_encode 8 i ++ le_encode 4 (len l) ++ enc_elements l = pre ++ enc_elements l ++ []) as -> by (unfold pre; by rewrite app_nil_r, <- app_assoc).
  assert (le_at 8 4 (pre ++ enc_elements l ++ []) = len l) as -> by (unfold pre; rewrite <- app_assoc; wire; apply le_decode_encode; unfold len in *; cbn; lia).
  assert (le_at 0 8 (pre ++ enc_elements l ++ []) = i) as -> by (unfold pre; rewrite <- app_assoc; wire; apply le_decode_encode; unfold in_range in Hi; cbn; lia).
  assert (len (pre ++ enc_elements l ++ []) = 12 + len l * 8) as -> by (unfold len; rewrite !length_app, Lp, enc_elements_length; cbn; lia).
  destruct (Z.ltb_spec (12 + len l * 8) 12) as [|_]; [unfold len in *; lia|].
  destruct (Z.ltb_spec (12 + len l * 8) (12 + len l * 8)) as [|_]; [lia|].
  unfold len. rewrite Nat2Z.id, <- Lp, dec_elements_enc by done. done.
Qed.

(** A message as its head, an encoded body, and a signature with its length. *)
Section Signed.
Variables (pre body sig : list Z).
Hypothesis Ls : len sig < 2 ^ 32.
Abbreviation data := (pre ++ body ++ le_encode 4 (len sig) ++ sig).

Lemma signed_sig_len (off : nat) : off = (length pre + length body)%nat -> le_at off 4 data = len sig.
Proof.
  intros ->. rewrite (app_assoc pre body). rewrite <- length_app. unfold le_at, slice. rewrite drop_app_length.
  rewrite take_app_length' by (by rewrite length_le_encode). apply le_decode_encode. unfold len in *. cbn. lia.
Qed.

Lemma signed_sig (off n : nat) : off = (length pre + length body + 4)%nat -> n = length sig -> slice off n data = sig.
Proof.
  intros -> ->. unfold slice. rewrite (app_assoc pre body), (app_assoc (pre ++ body)).
  rewrite drop_app_length' by (rewrite !length_app, length_le_encode; lia). by apply take_ge.
Qed.
End Signed.

Lemma ds_roundtrip (s : DecryptionShare) :
  in_range u64 (ds_index s) -> len (ds_shares s) < 2 ^ 32 -> len (ds_signature s) < 2 ^ 32 -> Forall canonical (ds_shares s) ->
  ds_from_bytes (ds_to_bytes s) = Some s.
Proof.
  intros Hi Hl Hs C. destruct s as [i l sig]. cbn [ds_index ds_shares ds_signature] in *. unfold ds_from_bytes, ds_to_bytes.
  cbn [ds_index ds_shares ds_signature].
  set (pre := le_encode 8 i ++ le_encode 4 (len l)). assert (length pre = 12%nat) as Lp by (unfold pre; by rewrite length_app, !length_le_encode).
  rewrite (app_assoc (le_encode 8 i)). fold pre. set (data := pre ++ _).
  assert (le_at 8 4 data = len l) as -> by (unfold data, pre; rewrite <- app_assoc; wire; apply le_decode_encode; unfold len in *; cbn; lia).
  assert (le_at 0 8 data = i) as -> by (unfold data, pre; rewrite <- app_assoc; wire; apply le_decode_encode; unfold in_range in Hi; cbn; lia).
  assert (len data = 16 + len l * 8 + len sig) as Ld
    by (unfold data, len; rewrite !length_app, Lp, enc_elements_length, length_le_encode; lia).
  rewrite Ld. destruct (Z.ltb_spec (16 + len l * 8 + len sig) 12) as [|_]; [unfold len in *; lia|].
  destruct (Z.ltb_spec (16 + len l * 8 + len sig) (12 + len l * 8 + 4)) as [|_]; [unfold len in *; lia|].
  assert (Z.to_nat (len l) = length l) as -> by (unfold len; lia). unfold data at 1. rewrite <- Lp, dec_elements_enc by done.
  assert (Z.to_nat (12 + len l * 8) = (length pre + length (enc_elements l))%nat) as E1 by (rewrite enc_elements_length; unfold len; lia).
  unfold data. rewrite signed_sig_len by done.
  destruct (Z.ltb_spec (16 + len l * 8 + len sig) (12 + len l * 8 + 4 + len sig)) as [|_]; [unfold len in *; lia|].
  rewrite signed_sig; [done|rewrite enc_elements_length; unfold len; lia|unfold len; lia].
Qed.

(** The rows of a matrix of width eight. *)
Lemma enc_rows_at (rows : list (list Z)) (post : list Z) (w v : nat) (row : list Z) :
  Forall (fun r => length r = w) rows -> rows !! v = Some row ->
  exists pre' post', concat (enc_elements <$> rows) ++ post = pre' ++ enc_elements row ++ post' /\ length pre' = (8 * (v * w))%nat.
Proof.
  revert v. induction rows as [|r rows IH]; intros v F Hv; [done|]. apply Forall_cons in F as [Fr F]. destruct v as [|v]; cbn in Hv.
  - simplify_eq. exists [], (concat (enc_elements <$> rows) ++ post). cbn [fmap list_fmap concat]. by rewrite <- app_assoc.
  - destruct (IH v F Hv) as (pre' & post' & E & L). exists (enc_elements r ++ pre'), post'. cbn [fmap list_fmap concat].
    rewrite <- !app_assoc, E. split; [done|]. rewrite length_app, enc_elements_length, L, Fr. lia.
Qed.

Lemma enc_rows_length (rows : list (list Z)) (w : nat) :
  Forall (fun r => length r = w) rows -> length (concat (enc_elements <$> rows)) = (8 * (length rows * w))%nat.
Proof.
  induction 1 as [|r rows Fr F IH]; [done|]. cbn [fmap list_fmap concat length]. rewrite length_app, enc_elements_length, IH, Fr. lia.
Qed.

Lemma dec_rows_enc (pre post : list Z) (rows : list (list Z)) (w off : nat) :
  length pre = off -> Forall (fun r => length r = w) rows -> Forall (Forall canonical) rows ->
  mapM (fun v => dec_elements (off + 8 * (v * w)) w (pre ++ concat (enc_elements <$> rows) ++ post)) (seq 0 (length rows)) = Some rows.
Proof.
  intros Lp F C. apply mapM_Some_2, Forall2_same_length_lookup_2; [by rewrite length_seq|]. intros i j row Hj Hr.
  apply lookup_seq in Hj as [-> _]. destruct (enc_rows_at rows post w i row F Hr) as (p' & q' & E & L).
  rewrite E, (app_assoc pre p'). eapply Forall_lookup in F; [|exact Hr]. eapply Forall_lookup in C; [|exact Hr].
  replace (off + 8 * ((0 + i) * w))%nat with (length (pre ++ p')) by (rewrite length_app; lia).
  rewrite <- F at 1. by apply dec_elements_enc.
Qed.

(** A matrix as the committee's messages carry it. *)
Record matrix (rows : list (list Z)) : Prop := {
  matrix_tall : len rows < 2 ^ 32;
  matrix_wide : Forall (fun r => length r = SEED_ELEMENTS) rows;
  matrix_canonical : Forall (Forall canonical) rows
}.

Lemma matrix_width (rows : list (list Z)) :
  matrix rows -> 0 <= row_width rows <= 8 /\ Forall (fun r => length r = Z.to_nat (row_width rows)) rows.
Proof.
  intros [_ W _]. destruct rows as [|r rows]; [done|]. cbn [row_width]. pose proof (proj1 (proj1 (Forall_cons _ _ _) W)) as Lr.
  unfold len. rewrite Lr. split; [done|]. by rewrite Nat2Z.id.
Qed.

Lemma rf_roundtrip (c : RefreshContribution) :
  in_range u64 (rf_from_index c) -> in_range u64 (rf_epoch c) -> matrix (rf_deltas c) -> len (rf_signature c) < 2 ^ 32 ->
  rf_from_bytes (rf_to_bytes c) = Some c.
Proof.
  intros Hi He M Hs. destruct c as [i ep rows sig]. cbn [rf_from_index rf_epoch rf_deltas rf_signature] in *.
  destruct (matrix_width rows M) as [Hw Fw]. destruct M as [Ht _ C]. set (w := row_width rows) in *.
  unfold rf_from_bytes, rf_to_bytes. cbn [rf_from_index rf_epoch rf_deltas rf_signature]. fold w.
  set (pre := le_encode 8 i ++ le_encode 8 ep ++ le_encode 4 (len rows) ++ le_encode 4 w).
  assert (length pre = 24%nat) as Lp by (unfold pre; by rewrite !length_app, !length_le_encode).
  set (body := concat (enc_elements <$> rows)).
  replace (le_encode 8 i ++ le_encode 8 ep ++ le_encode 4 (len rows) ++ le_encode 4 w ++ body ++ le_encode 4 (len sig) ++ sig)
    with (pre ++ body ++ le_encode 4 (len sig) ++ sig) by (unfold pre; by rewrite <- !app_assoc).
  set (data := pre ++ _).
  assert (le_at 0 8 data = i) as -> by (unfold data, pre; rewrite <- !app_assoc; wire; apply le_decode_encode; unfold in_range in *; cbn; lia).
  assert (le_at 8 8 data = ep) as -> by (unfold data, pre; rewrite <- !app_assoc; wire; apply le_decode_encode; unfold in_range in *; cbn; lia).
  assert (le_at 16 4 data = len rows) as -> by (unfold data, pre; rewrite <- !app_assoc; wire; apply le_decode_encode; unfold len in *; cbn; lia).
  assert (le_at 20 4 data = w) as -> by (unfold data, pre; rewrite <- !app_assoc; wire; apply le_decode_encode; cbn; lia).
  assert (0 <= len rows) as Hn by (unfold len; lia).
  assert (len data = 28 + len rows * w * 8 + len sig) as Ld.
  { unfold data, body, len. rewrite !length_app, Lp, (enc_rows_length rows (Z.to_nat w) Fw), length_le_encode. unfold len in *. nia. }
  rewrite Ld. assert (0 <= len sig) as Hs0 by (unfold len; lia). assert (0 <= len rows * w <= 2 ^ 36) as Hc by nia.
  destruct (Z.ltb_spec (28 + len rows * w * 8 + len sig) 24) as [|_]; [lia|].
  unfold checked_mul, checked_add. destruct (Z.ltb_spec (len rows * w) (2 ^ 64)) as [_|]; [|lia].
  destruct (Z.ltb_spec (len rows * w * 8) (2 ^ 64)) as [_|]; [|lia]. destruct (Z.ltb_spec (24 + len rows * w * 8) (2 ^ 64)) as [_|]; [|lia].
  destruct (Z.ltb_spec (28 + len rows * w * 8 + len sig) (24 + len rows * w * 8 + 4)) as [|_]; [lia|].
  assert (Z.to_nat (len rows) = length rows) as -> by (unfold len; lia). unfold data at 1, body. rewrite dec_rows_enc by done.
  unfold data. rewrite signed_sig_len by (done || (unfold body; rewrite Lp, (enc_rows_length rows (Z.to_nat w) Fw); unfold len in *; nia)).
  destruct (Z.ltb_spec (28 + len rows * w * 8 + len sig) (24 + len rows * w * 8 + 4 + len sig)) as [|_]; [lia|].
  rewrite signed_sig; [done| |unfold len; lia]. unfold body. rewrite Lp, (enc_rows_length rows (Z.to_nat w) Fw). unfold len in *. nia.
Qed.

(** Reading every position of a list gives the list. *)
Lemma lookup_all {A : Type} (d : A) (l : list A) (n : nat) : length l = n -> (fun i => default d (l !! i)) <$> seq 0 n = l.
Proof.
  intros <-. apply list_eq. intros i. rewrite list_lookup_fmap. destruct (decide (i < length l)%nat) as [L|L].
  - rewrite lookup_seq_lt by done. cbn. destruct (lookup_lt_is_Some_2 l i L) as [x Hx]. by rewrite Hx.
  - rewrite !lookup_ge_None_2; [done|lia|rewrite length_seq; lia].
Qed.

Lemma rs_roundtrip (c : ResharingContribution) :
  in_range u64 (rs_from_old_index c) -> matrix (rs_sub_shares c) -> rs_from_bytes (rs_to_bytes c) = Returns (Some c).
Proof.
  intros Hi M. destruct c as [i rows]. cbn [rs_from_old_index rs_sub_shares] in *.
  destruct (matrix_width rows M) as [Hw Fw]. destruct M as [Ht _ C]. set (w := row_width rows) in *.
  unfold rs_from_bytes, rs_to_bytes. cbn [rs_from_old_index rs_sub_shares]. fold w.
  set (pre := le_encode 8 i ++ le_encode 4 (len rows) ++ le_encode 4 w).
  assert (length pre = 16%nat) as Lp by (unfold pre; by rewrite !length_app, !length_le_encode).
  replace (le_encode 8 i ++ le_encode 4 (len rows) ++ le_encode 4 w ++ concat (enc_elements <$> rows))
    with (pre ++ concat (enc_elements <$> rows) ++ []) by (unfold pre; by rewrite app_nil_r, <- !app_assoc).
  set (data := pre ++ _).
  assert (le_at 0 8 data = i) as -> by (unfold data, pre; rewrite <- !app_assoc; wire; apply le_decode_encode; unfold in_range in *; cbn; lia).
  assert (le_at 8 4 data = len rows) as -> by (unfold data, pre; rewrite <- !app_assoc; wire; apply le_decode_encode; unfold len in *; cbn; lia).
  assert (le_at 12 4 data = w) as -> by (unfold data, pre; rewrite <- !app_assoc; wire; apply le_decode_encode; cbn; lia).
  assert (0 <= len rows) as Hn by (unfold len; lia).
  assert (len data = 16 + len rows * w * 8) as Ld.
  { unfold data, len. rewrite !length_app, Lp, (enc_rows_length rows (Z.to_nat w) Fw). cbn [length]. unfold len in *. nia. }
  assert (0 <= len rows * w <= 2 ^ 36) as Hc by nia. rewrite Ld, wrap_small by (unfold in_range; lia).
  destruct (Z.ltb_spec (16 + len rows * w * 8) 16) as [|_]; [lia|]. destruct (Z.ltb_spec (16 + len rows * w * 8) (16 + len rows * w * 8)) as [|_]; [lia|].
  rewrite (run_map_returns _ (fun v => default [] (rows !! v))).
  { cbn [run_bind]. do 3 f_equal. apply lookup_all. unfold len. lia. }
  intros v Hv%elem_of_seq. destruct (lookup_lt_is_Some_2 rows v) as [row Hr]; [unfold len in Hv; lia|]. rewrite Hr. cbn [from_option]. unfold id.
  destruct (enc_rows_at rows [] (Z.to_nat w) v row Fw Hr) as (p' & q' & E & L).
  pose proof (proj1 (Forall_lookup _ _) Fw _ _ Hr) as Lr. pose proof (proj1 (Forall_lookup _ _) C _ _ Hr) as Cr. cbn beta in Lr.
  rewrite (run_map_returns _ (fun e => default 0 (row !! e))).
  { f_equal. by apply lookup_all. }
  intros e He%elem_of_seq. destruct (lookup_lt_is_Some_2 row e) as [y Hy]; [lia|]. rewrite Hy. cbn [from_option]. unfold id, rs_element.
  assert (data = (pre ++ p') ++ enc_elements row ++ q') as Ed by (unfold data; by rewrite E, app_assoc).
  replace (16 + 8 * (v * Z.to_nat w + e))%nat with (length (pre ++ p') + 8 * e)%nat by (rewrite length_app; lia).
  destruct (Nat.leb_spec (length (pre ++ p') + 8 * e + 8) (length data)) as [_|Hlt].
  - pose proof (proj1 (Forall_lookup _ _) Cr _ _ Hy) as Cy. f_equal. rewrite Ed.
    fold (element_at (length (pre ++ p')) e ((pre ++ p') ++ enc_elements row ++ q')). rewrite (element_at_enc _ row q' e y Hy Cy). by apply gl_small.
  - rewrite Ed in Hlt. rewrite (length_app (pre ++ p')), (length_app (enc_elements row)), enc_elements_length in Hlt. lia.
Qed.

(** What the committee's members send each other about the key survives the
    wire: key shares, decryption shares, refresh contributions and resharing
    contributions decode to what was encoded. *)
Theorem threshold_messages_roundtrip (k : KeyShare) (s : DecryptionShare) (rf : RefreshContribution) (rs : ResharingContribution) :
  in_range u64 (ks_index k) -> len (ks_shares k) < 2 ^ 32 -> Forall canonical (ks_shares k) ->
  in_range u64 (ds_index s) -> len (ds_shares s) < 2 ^ 32 -> len (ds_signature s) < 2 ^ 32 -> Forall canonical (ds_shares s) ->
  in_range u64 (rf_from_index rf) -> in_range u64 (rf_epoch rf) -> matrix (rf_deltas rf) -> len (rf_signature rf) < 2 ^ 32 ->
  in_range u64 (rs_from_old_index rs) -> matrix (rs_sub_shares rs) ->
  ks_from_bytes (ks_to_bytes k) = Some k /\ ds_from_bytes (ds_to_bytes s) = Some s /\
  rf_from_bytes (rf_to_bytes rf) = Some rf /\ rs_from_bytes (rs_to_bytes rs) = Returns (Some rs).
Proof. intros. auto using ks_roundtrip, ds_roundtrip, rf_roundtrip, rs_roundtrip. Qed.

Lemma threshold_messages_roundtrip_witness :
  let row := [1; 2; 3; 4; 5; 6; 7; GOLDILOCKS_PRIME - 1] in
  rf_from_bytes (rf_to_bytes (mkRefresh 3 9 [row; row] (replicate 600 1))) = Some (mkRefresh 3 9 [row; row] (replicate 600 1)).
Proof.
  intros row.
  assert (Forall canonical row) as C by (repeat (constructor; [split; [discriminate|reflexivity]|]); constructor).
  assert (matrix [row; row]) as M by (split; [reflexivity|do 2 (constructor; [reflexivity|]); constructor|do 2 (constructor; [exact C|]); constructor]).
  assert (forall x, 0 <= x < 100 -> in_range u64 x) as R by (unfold in_range; lia).
  destruct (threshold_messages_roundtrip (mkKeyShare 3 row) (mkDecShare 3 row []) (mkRefresh 3 9 [row; row] (replicate 600 1)) (mkResharing 3 [row; row]))
    as (_ & _ & H & _); [first [apply R; cbn; lia|exact C|exact M|reflexivity]..|exact H].
Defined.

(** ** Behaviours the comments rule out *)

Section Findings.
Context {P : Primitives} {PO : PrimitivesOk P} {K : Kem}.

(** The coefficients when one abscissa is zero. *)
Lemma lambda_zero (xs : list Z) (k i : nat) :
  distinct xs -> xs !! k = Some 0 -> (i < length xs)%nat -> eqp (lambda_at xs i) (if decide (i = k) then 1 else 0).
Proof.
  intros D Hk Hi. unfold lambda_at. destruct (decide (i = k)) as [->|Hne].
  - rewrite Hk. cbn [from_option]. unfold id. apply basis_one. apply Forall_forall. intros y (j & Hj)%list_elem_of_lookup_1.
    destruct (decide (j < k)%nat).
    + rewrite list_lookup_delete_lt in Hj by done. eapply (distinct_lookup xs k j); eauto. lia.
    + rewrite list_lookup_delete_ge in Hj by lia. eapply (distinct_lookup xs k (S j)); eauto. lia.
  - apply basis_zero. right. destruct (decide (k < i)%nat).
    + apply (list_elem_of_lookup_2 _ k). by rewrite list_lookup_delete_lt.
    + apply (list_elem_of_lookup_2 _ (k - 1)). rewrite list_lookup_delete_ge by lia. by replace (S (k - 1)) with k by lia.
Qed.

Lemma sum_only (n k : nat) (h : nat -> Z) :
  (k < n)%nat -> (forall i, (i < n)%nat -> i <> k -> eqp (h i) 0) -> eqp (sum h n) (h k).
Proof.
  intros Hk H. assert (forall m, (m <= k)%nat -> eqp (sum h m) 0) as Z0.
  { induction m as [|m IH]; intros Hm; [reflexivity|]. rewrite sum_S, IH, H by lia. reflexivity. }
  induction n as [|n IH]; [lia|]. rewrite sum_S. destruct (decide (k = n)) as [->|].
  - rewrite Z0 by done. by rewrite Z.add_0_l.
  - rewrite IH by (try lia; intros i Hi; apply H; lia). rewrite (H n) by lia. by rewrite Z.add_0_r.
Qed.

Lemma NoDup_fmap_inj {A B : Type} (f : A -> B) (l : list A) (x y : A) :
  NoDup (f <$> l) -> x ∈ l -> y ∈ l -> f x = f y -> x = y.
Proof.
  induction l as [|a l IH]; cbn; intros N Hx Hy E; [by apply elem_of_nil in Hx|]. apply NoDup_cons in N as [Na N].
  apply elem_of_cons in Hx as [Hx|Hx]; apply elem_of_cons in Hy as [Hy|Hy]; subst; [done|..|by apply IH].
  - destruct Na. rewrite E. by apply list_elem_of_fmap_2.
  - destruct Na. rewrite <- E. by apply list_elem_of_fmap_2.
Qed.

(** The lowest index comes first. *)
Lemma index_zero_first (pool : list ResharingContribution) (c : ResharingContribution) (t : Z) (cs : list ResharingContribution) :
  c ∈ pool -> rs_from_old_index c = 0 -> Forall (fun c => canonical (rs_from_old_index c)) pool ->
  NoDup (rs_from_old_index <$> pool) -> 1 <= t -> canonical_resharing_subset pool t = Some cs ->
  cs !! 0%nat = Some c /\ NoDup (rs_from_old_index <$> cs) /\ Forall (fun c => canonical (rs_from_old_index c)) cs.
Proof.
  intros Hc H0 C N Ht. unfold canonical_resharing_subset. destruct (len pool <? t); [done|]. intros [= <-].
  pose proof (sort_by_key_perm rs_from_old_index pool) as Pm. pose proof (sort_by_key_sorted rs_from_old_index pool) as S.
  rewrite <- Pm in Hc, N, C. destruct (sort_by_key rs_from_old_index pool) as [|x l]; [by apply elem_of_nil in Hc|].
  split; [|split].
  - destruct (Z.to_nat t) as [|n] eqn:En; [lia|]. cbn [take lookup list_lookup]. f_equal.
    apply (NoDup_fmap_inj rs_from_old_index (x :: l)); [done|constructor|done|].
    inversion S as [|? ? S' F]; subst. rewrite Forall_forall in F, C. destruct (C x) as [Cx _]; [constructor|].
    apply elem_of_cons in Hc as [->|Hc]; [done|]. specialize (F c Hc). cbn in F. lia.
  - rewrite fmap_take. eapply sublist_NoDup; [exact N|]. apply sublist_take.
  - by apply Forall_take.
Qed.

(** A resharing contribution that claims the index zero decides the new key
    alone.  No step authenticates contributions; the one with index zero is
    always in the canonical subset, and every new member's share is then, for
    whatever the honest members sent, the row the contribution carries for it. *)
Theorem forged_resharing_takes_over (pool cs : list ResharingContribution) (c : ResharingContribution) (t : Z) (j : nat)
    (ks : KeyShare) (row : list Z) :
  c ∈ pool -> rs_from_old_index c = 0 -> Forall (fun c => canonical (rs_from_old_index c)) pool ->
  NoDup (rs_from_old_index <$> pool) -> 1 <= t -> canonical_resharing_subset pool t = Some cs ->
  rs_sub_shares c !! j = Some row -> Forall canonical row ->
  aggregate_new_share (Z.of_nat j + 1) cs = Returns (Some ks) -> ks_shares ks = row.
Proof.
  intros Hc H0 C N Ht E Hr Cr A. destruct (index_zero_first pool c t cs Hc H0 C N Ht E) as (Hfirst & Nc & Cc).
  set (xs := (fun c => gl (rs_from_old_index c)) <$> cs).
  assert (distinct xs) as D.
  { replace xs with (gl <$> (rs_from_old_index <$> cs)) by (unfold xs; by rewrite <- list_fmap_compose). apply distinct_canonical; [done|]. by apply Forall_fmap. }
  destruct (aggregate_spec cs j D ks A) as (_ & Ll & Rows & Hv).
  pose proof (proj1 (Forall_lookup _ _) Rows _ _ Hfirst) as (row' & Hr' & Lr). rewrite Hr in Hr'. injection Hr' as <-.
  pose proof (lookup_lt_Some _ _ _ Hfirst) as Lc.
  apply list_eq. intros e. destruct (decide (e < SEED_ELEMENTS)%nat) as [He|He]; [|by rewrite !lookup_ge_None_2 by lia].
  destruct (lookup_lt_is_Some_2 (ks_shares ks) e) as [v Ev]; [lia|]. destruct (lookup_lt_is_Some_2 row e) as [y Ey]; [lia|].
  rewrite Ev, Ey. f_equal. pose proof (Hv e v Ev) as ->. apply canonical_eq; [by apply fold_canonical|by eapply Forall_lookup in Cr|].
  etransitivity; [exact (fold_sum (fun p => gl_mul (lambda_at xs p.1) (cell (rs_sub_shares p.2) j e)) cs)|]. rewrite (sum_only (length cs) 0).
  - rewrite Hfirst. cbn [fst snd]. unfold gl_mul. etransitivity; [apply gl_cong|]. unfold cell. rewrite Hr. cbn [from_option]. unfold id. rewrite Ey.
    cbn [from_option]. rewrite (lambda_zero xs 0 0 D); [|unfold xs; rewrite list_lookup_fmap, Hfirst; cbn; by rewrite H0|unfold xs; by rewrite length_fmap].
    cbn. by rewrite Z.mul_1_l.
  - done.
  - intros i Hi Hne. destruct (lookup_lt_is_Some_2 cs i Hi) as [ci ->]. cbn [fst snd]. unfold gl_mul. etransitivity; [apply gl_cong|].
    rewrite (lambda_zero xs 0 i D); [|unfold xs; rewrite list_lookup_fmap, Hfirst; cbn; by rewrite H0|unfold xs; by rewrite length_fmap].
    by rewrite decide_False.
Qed.
(** A decryption share gives its key share away: the mask on every element
    is a digest of the ciphertext and two indices, all public, so whoever sees
    the share and the ciphertext subtracts it. *)
Theorem decryption_share_reveals_key (ks : KeyShare) (ct : ThresholdCiphertext) (sign : Signer) (s : DecryptionShare) :
  Forall canonical (ks_shares ks) -> generate_decryption_share ks ct sign = Returns (Ok s) ->
  run_map (fun '(e, d) => mask <~ derive_blinding_mask (ciphertext_binding_hash ct) (ds_index s) e ;; Returns (gl_sub d mask))
    (imap pair (ds_shares s)) = Returns (ks_shares ks).
Proof.
  intros C [[Ei Es] _]%generate_made.
  rewrite (run_map_returns _ (fun '(e, d) => gl_sub d (mask_of (ciphertext_binding_hash ct) (ds_index s) e)))
    by (intros [e d] _; by rewrite mask_returns).
  f_equal. rewrite fmap_imap, Es, Ei. apply list_eq. intros e. rewrite !list_lookup_imap.
  destruct (ks_shares ks !! e) as [v|] eqn:Ev; [|done]. cbn [fmap option_fmap option_map]. f_equal.
  apply canonical_eq; [apply gl_canonical|by eapply Forall_lookup in C|apply gl_unmask].
Qed.

Lemma run_map_panics {A B : Type} (f : A -> Run B) (l : list A) (a : A) :
  a ∈ l -> f a = Panics -> (forall b, b ∈ l -> f b <> OutOfFuel) -> run_map f l = Panics.
Proof.
  induction l as [|b l IH]; intros Ha E H; [by apply elem_of_nil in Ha|]. cbn.
  destruct (f b) as [y| |] eqn:Eb; [|done|by destruct (H b); [constructor|]].
  apply elem_of_cons in Ha as [->|Ha]; [congruence|]. cbn. rewrite IH; [done..|]. intros x Hx. apply H. by constructor.
Qed.

(** A signed share without elements aborts whoever combines it.  The checks
    in front of the interpolation, the signature included, say nothing of the
    number of elements, and neither does the decoder. *)
Theorem empty_share_aborts (shares : list DecryptionShare) (s : DecryptionShare) (t : Z) (ct : ThresholdCiphertext) (keys : list (list Z)) :
  t <= len shares -> existsb index_out_of_range shares = false -> duplicate_index shares = false ->
  forallb (share_authentic (ciphertext_binding_hash ct) keys) shares = true ->
  s ∈ take (Z.to_nat t) shares -> ds_shares s = [] -> combine_shares shares t ct keys = Panics.
Proof.
  intros L R D A Hs E. unfold combine_shares. destruct (Z.ltb_spec (len shares) t) as [|_]; [lia|]. rewrite R, D, A. cbn [negb].
  assert (reconstruct_element (ciphertext_binding_hash ct) (take (Z.to_nat t) shares) 0 = Panics) as P0.
  { unfold reconstruct_element. rewrite (run_map_panics _ _ s Hs); [done|by rewrite mask_returns, E|].
    intros b _. rewrite mask_returns. cbn [run_bind]. by destruct (ds_shares b). }
  unfold SEED_ELEMENTS. cbn [seq run_map]. by rewrite P0.
Qed.
End Findings.

(** Sixteen bytes of gossip abort a validator: the length guard of the
    decoder multiplies two announced sizes in 64 bits, which wraps, and the
    elements are then read behind the end of the message. *)
Theorem crafted_resharing_message_aborts :
  exists data, len data = 16 /\ bytes_ok data /\ rs_from_bytes data = Panics.
Proof.
  exists (le_encode 8 1 ++ le_encode 4 (2 ^ 31) ++ le_encode 4 (2 ^ 30)). split; [reflexivity|].
  split; [repeat apply Forall_app_2; apply le_encode_bytes|]. unfold rs_from_bytes. set (data := _ ++ _ ++ _).
  assert (le_at 8 4 data = 2 ^ 31) as -> by (vm_compute; reflexivity). assert (le_at 12 4 data = 2 ^ 30) as -> by (vm_compute; reflexivity).
  assert (len data = 16) as -> by reflexivity. assert (length data = 16%nat) as Ld by reflexivity.
  change (16 <? 16) with false. cbn match. assert (wrap u64 (16 + 2 ^ 31 * 2 ^ 30 * 8) = 16) as -> by (vm_compute; reflexivity).
  change (16 <? 16) with false. cbn match.
  assert (exists n, Z.to_nat (2 ^ 31) = S n) as [n ->] by (exists (Z.to_nat (2 ^ 31 - 1)); lia).
  assert (exists m, Z.to_nat (2 ^ 30) = S m) as [m ->] by (exists (Z.to_nat (2 ^ 30 - 1)); lia).
  cbn [seq run_map]. unfold rs_element at 1. rewrite Ld. reflexivity.
Qed.

(** ** Evaluated *)

Definition toy_forged : ResharingContribution := mkResharing 0 (replicate 4 (replicate SEED_ELEMENTS 42)).
Definition toy_captured : list ResharingContribution := default [] (canonical_resharing_subset (toy_transfers ++ [toy_forged]) 2).

Lemma forged_resharing_takes_over_witness :
  verify_resharing_contribution toy_forged 3 4 = Returns true /\
  exists ks, aggregate_new_share 3 toy_captured = Returns (Some ks) /\ ks_shares ks = replicate SEED_ELEMENTS 42.
Proof.
  split; [vm_compute; reflexivity|].
  exists (default (mkKeyShare 0 []) (returned None (aggregate_new_share 3 toy_captured))).
  assert (aggregate_new_share (Z.of_nat 2 + 1) toy_captured = Returns (Some (default (mkKeyShare 0 []) (returned None (aggregate_new_share 3 toy_captured))))) as A
    by (vm_compute; reflexivity).
  split; [exact A|].
  apply (forged_resharing_takes_over (toy_transfers ++ [toy_forged]) toy_captured toy_forged 2 2 _ (replicate SEED_ELEMENTS 42)).
  - apply elem_of_app. right. constructor.
  - reflexivity.
  - apply Forall_forall. intros c Hc%list_elem_of_In.
    assert (forallb (fun c => (0 <=? rs_from_old_index c) && (rs_from_old_index c <? GOLDILOCKS_PRIME)) (toy_transfers ++ [toy_forged]) = true) as B
      by (vm_compute; reflexivity).
    rewrite forallb_forall in B. specialize (B c Hc). unfold canonical. lia.
  - assert (rs_from_old_index <$> (toy_transfers ++ [toy_forged]) = [3; 1; 0]) as -> by (vm_compute; reflexivity).
    clear. repeat constructor; set_solver.
  - clear. discriminate.
  - vm_compute. reflexivity.
  - reflexivity.
  - repeat (constructor; [split; [discriminate|reflexivity]|]). constructor.
  - exact A.
Defined.

Lemma decryption_share_reveals_key_witness :
  exists ks s, generate_decryption_share ks toy_ciphertext toy_sign = Returns (Ok s) /\ ds_shares s <> ks_shares ks /\
  run_map (fun '(e, d) => mask <~ derive_blinding_mask (ciphertext_binding_hash toy_ciphertext) (ds_index s) e ;; Returns (gl_sub d mask))
    (imap pair (ds_shares s)) = Returns (ks_shares ks).
Proof.
  set (ks := mkKeyShare 2 [1; 2; 3; 4; 5; 6; 7; 8]).
  set (s := ok_of (mkDecShare 0 [] []) (returned (Err "") (generate_decryption_share ks toy_ciphertext toy_sign))).
  exists ks, s. assert (generate_decryption_share ks toy_ciphertext toy_sign = Returns (Ok s)) as G by (vm_compute; reflexivity).
  split; [exact G|]. split; [vm_compute; discriminate|]. apply (decryption_share_reveals_key ks toy_ciphertext toy_sign s); [|exact G].
  repeat (constructor; [split; [discriminate|reflexivity]|]). constructor.
Defined.

Lemma empty_share_aborts_witness :
  exists s, ds_shares s = [] /\ ds_from_bytes (ds_to_bytes s) = Some s /\ combine_shares [s] 1 toy_ciphertext [[]] = Panics.
Proof.
  set (s := mkDecShare 1 [] (ok_of [] (toy_sign (share_preimage (ciphertext_binding_hash toy_ciphertext) 1 [])))).
  exists s. split; [reflexivity|]. split; [vm_compute; reflexivity|].
  apply (empty_share_aborts [s] s 1 toy_ciphertext [[]]); [discriminate|reflexivity|reflexivity|vm_compute; reflexivity| |reflexivity].
  change (take (Z.to_nat 1) [s]) with [s]. constructor.
Defined.
