(* ===== verification/BlockStore.v ===== *)
(** * The block store

    [node/src/block_store.rs]: headers, raw blocks, the head and finality
    certificates in one key-value database.  RocksDB is a map from keys to
    values; its I/O errors are not modelled. *)

From stdpp Require Import base numbers list option gmap strings.
From Stdlib Require Import ZArith Lia.
From S2P Require Import Prelude Crypto Wire Account Transaction Chain ViewChange HotStuff Finality Codec NodeWire NodeWireProps.

#[local] Open Scope Z_scope.
#[local] Open Scope pyde_scope.

Abbreviation BlockStore := (gmap (list Z) (list Z)) (only parsing).

Definition header_key (slot : Z) : list Z := bytes_of_string "h:" ++ le_encode 8 slot.
Definition index_key (hash : list Z) : list Z := bytes_of_string "i:" ++ hash.
Definition block_key (slot : Z) : list Z := bytes_of_string "b:" ++ le_encode 8 slot.
Definition cert_key (slot : Z) : list Z := bytes_of_string "c:" ++ le_encode 8 slot.
Definition head_key : list Z := bytes_of_string "meta:head".

Section Store.
Context {P : Primitives}.

Definition put_header (h : BlockHeader) (db : BlockStore) : BlockStore :=
  <[index_key (header_hash h) := le_encode 8 (slot h)]> (<[header_key (slot h) := encode_block_header h]> db).

Definition get_header (db : BlockStore) (s : Z) : option BlockHeader :=
  match db !! header_key s with
  | None => None
  | Some bytes => match decode_block_header bytes with Ok h => Some h | Err _ => None end
  end.

(** [bytes[..8]] panics on a short value; [None] inside is a missing key. *)
Definition read_slot (bytes : list Z) : Run Z := if (length bytes <? 8)%nat then Panics else Returns (le_decode (take 8 bytes)).

Definition get_slot_by_hash (db : BlockStore) (hash : list Z) : Run (option Z) :=
  match db !! index_key hash with
  | None => Returns None
  | Some bytes => s <~ read_slot bytes ;; Returns (Some s)
  end.

Definition get_header_by_hash (db : BlockStore) (hash : list Z) : Run (option BlockHeader) :=
  s <~ get_slot_by_hash db hash ;; Returns (match s with Some s => get_header db s | None => None end).

Definition put_head (s : Z) (db : BlockStore) : BlockStore := <[head_key := le_encode 8 s]> db.

Definition get_head (db : BlockStore) : Run Z := match db !! head_key with None => Returns 0 | Some bytes => read_slot bytes end.

Definition put_block (h : BlockHeader) (raw_bytes : list Z) (db : BlockStore) : BlockStore :=
  <[block_key (slot h) := raw_bytes]> (put_header h db).

Definition get_block_raw (db : BlockStore) (s : Z) : option (list Z) := db !! block_key s.

Definition has_block_data (db : BlockStore) (s : Z) : bool := is_some (get_block_raw db s).

Definition put_finality_cert (cp : FinalityCheckpoint) (db : BlockStore) : BlockStore :=
  <[cert_key (cp_slot cp) := encode_finality_checkpoint cp]> db.

Definition get_finality_cert (db : BlockStore) (s : Z) : option FinalityCheckpoint :=
  match db !! cert_key s with
  | None => None
  | Some bytes => match decode_finality_checkpoint bytes with Ok cp => Some cp | Err _ => None end
  end.
End Store.

(** ** What the store promises: five maps *)

Record View : Type := mkView {
  v_headers : gmap Z BlockHeader;
  v_index : gmap (list Z) Z;
  v_blocks : gmap Z (list Z);
  v_certs : gmap Z FinalityCheckpoint;
  v_head : Z
}.

Inductive StoreOp : Type :=
| PutHeader (h : BlockHeader)
| PutBlock (h : BlockHeader) (raw : list Z)
| PutHead (s : Z)
| PutCert (cp : FinalityCheckpoint).

(** Keys of different kinds differ in their first two bytes. *)
Ltac other_key := let E := fresh in intros E; apply (f_equal (take 2)) in E; vm_compute in E; discriminate E.

Section Refine.
Context {P : Primitives}.

Definition store_op (db : BlockStore) (op : StoreOp) : BlockStore :=
  match op with
  | PutHeader h => put_header h db
  | PutBlock h raw => put_block h raw db
  | PutHead s => put_head s db
  | PutCert cp => put_finality_cert cp db
  end.

Definition view_header (h : BlockHeader) (v : View) : View :=
  mkView (<[slot h := h]> (v_headers v)) (<[header_hash h := slot h]> (v_index v)) (v_blocks v) (v_certs v) (v_head v).

Definition view_op (v : View) (op : StoreOp) : View :=
  match op with
  | PutHeader h => view_header h v
  | PutBlock h raw =>
      let v := view_header h v in mkView (v_headers v) (v_index v) (<[slot h := raw]> (v_blocks v)) (v_certs v) (v_head v)
  | PutHead s => mkView (v_headers v) (v_index v) (v_blocks v) (v_certs v) s
  | PutCert cp => mkView (v_headers v) (v_index v) (v_blocks v) (<[cp_slot cp := cp]> (v_certs v)) (v_head v)
  end.

Definition op_ok (op : StoreOp) : Prop :=
  match op with
  | PutHeader h | PutBlock h _ => wire_header h
  | PutHead s => in_range u64 s
  | PutCert cp => wire_checkpoint cp
  end.

(** The database answers as the maps do. *)
Record represents (db : BlockStore) (v : View) : Prop := {
  rep_header : forall s, in_range u64 s -> get_header db s = v_headers v !! s;
  rep_index : forall hash, get_slot_by_hash db hash = Returns (v_index v !! hash);
  rep_block : forall s, in_range u64 s -> get_block_raw db s = v_blocks v !! s;
  rep_cert : forall s, in_range u64 s -> get_finality_cert db s = v_certs v !! s;
  rep_head : get_head db = Returns (v_head v)
}.

Lemma slot_key_inj (a b : list Z) (s s' : Z) :
  length a = length b -> in_range u64 s -> in_range u64 s' -> a ++ le_encode 8 s = b ++ le_encode 8 s' -> s = s'.
Proof.
  intros L H H' E. apply app_inj_1 in E as [_ E]; [|done]. eapply (le_encode_inj 8); [..|exact E]; unfold in_range in *; cbn; lia.
Qed.

Lemma read_slot_encode (s : Z) : in_range u64 s -> read_slot (le_encode 8 s) = Returns s.
Proof.
  intros H. unfold read_slot. rewrite length_le_encode. cbn [Nat.ltb Nat.leb]. rewrite take_ge by (by rewrite length_le_encode).
  rewrite le_decode_encode; [done|]. unfold in_range in H. cbn. lia.
Qed.

Lemma put_header_represents (h : BlockHeader) (db : BlockStore) (v : View) :
  wire_header h -> represents db v -> represents (put_header h db) (view_header h v).
Proof.
  intros Wh [Rh Ri Rb Rc Rm]. pose proof (wh_slot h Wh) as Hs. pose proof (decodes_decode _ _ _ (decodes_header h Wh)) as Dh.
  split; unfold put_header, view_header; cbn [v_headers v_index v_blocks v_certs v_head].
  - intros s Hr. unfold get_header. rewrite (lookup_insert_ne _ (index_key _)) by other_key.
    destruct (decide (s = slot h)) as [->|Hne].
    + rewrite !lookup_insert_eq. unfold decode_block_header. by rewrite Dh.
    + rewrite !lookup_insert_ne; [by apply Rh|done|]. intros E. by apply slot_key_inj in E.
  - intros hash. unfold get_slot_by_hash. destruct (decide (hash = header_hash h)) as [->|Hne].
    + rewrite !lookup_insert_eq, read_slot_encode by done. done.
    + rewrite (lookup_insert_ne (v_index v)) by done. rewrite lookup_insert_ne, (lookup_insert_ne db); [apply Ri|other_key|].
      intros E. apply app_inv_head in E. done.
  - intros s Hr. unfold get_block_raw. rewrite !lookup_insert_ne by other_key. by apply Rb.
  - intros s Hr. unfold get_finality_cert. rewrite !lookup_insert_ne by other_key. by apply Rc.
  - unfold get_head. rewrite !lookup_insert_ne by other_key. done.
Qed.
Lemma store_op_represents (db : BlockStore) (v : View) (op : StoreOp) :
  op_ok op -> represents db v -> represents (store_op db op) (view_op v op).
Proof.
  destruct op as [h|h raw|s|cp]; cbn [op_ok store_op view_op]; intros Hok R.
  - by apply put_header_represents.
  - destruct (put_header_represents h db v Hok R) as [Rh Ri Rb Rc Rm]. pose proof (wh_slot h Hok) as Hs.
    split; unfold put_block; cbn [v_headers v_index v_blocks v_certs v_head].
    + intros s Hr. unfold get_header. rewrite (lookup_insert_ne (put_header h db)) by other_key. by apply Rh.
    + intros hash. unfold get_slot_by_hash. rewrite (lookup_insert_ne (put_header h db)) by other_key. apply Ri.
    + intros s Hr. unfold get_block_raw. destruct (decide (s = slot h)) as [->|Hne]; [by rewrite !lookup_insert_eq|].
      rewrite !lookup_insert_ne; [by apply Rb|done|]. intros E. by apply slot_key_inj in E.
    + intros s Hr. unfold get_finality_cert. rewrite (lookup_insert_ne (put_header h db)) by other_key. by apply Rc.
    + unfold get_head. rewrite (lookup_insert_ne (put_header h db)) by other_key. apply Rm.
  - destruct R as [Rh Ri Rb Rc Rm]. split; unfold put_head; cbn [v_headers v_index v_blocks v_certs v_head].
    + intros s' Hr. unfold get_header. rewrite (lookup_insert_ne db) by other_key. by apply Rh.
    + intros hash. unfold get_slot_by_hash. rewrite (lookup_insert_ne db) by other_key. apply Ri.
    + intros s' Hr. unfold get_block_raw. rewrite (lookup_insert_ne db) by other_key. by apply Rb.
    + intros s' Hr. unfold get_finality_cert. rewrite (lookup_insert_ne db) by other_key. by apply Rc.
    + unfold get_head. rewrite lookup_insert_eq. by apply read_slot_encode.
  - destruct R as [Rh Ri Rb Rc Rm]. pose proof (proj1 (wc_slots cp Hok)) as Hs.
    split; unfold put_finality_cert; cbn [v_headers v_index v_blocks v_certs v_head].
    + intros s' Hr. unfold get_header. rewrite (lookup_insert_ne db) by other_key. by apply Rh.
    + intros hash. unfold get_slot_by_hash. rewrite (lookup_insert_ne db) by other_key. apply Ri.
    + intros s' Hr. unfold get_block_raw. rewrite (lookup_insert_ne db) by other_key. by apply Rb.
    + intros s Hr. unfold get_finality_cert. destruct (decide (s = cp_slot cp)) as [->|Hne].
      * rewrite !lookup_insert_eq. unfold decode_finality_checkpoint. by rewrite (decodes_decode _ _ _ (decodes_checkpoint cp Hok)).
      * rewrite !lookup_insert_ne; [by apply Rc|done|]. intros E. by apply slot_key_inj in E.
    + unfold get_head. rewrite (lookup_insert_ne db) by other_key. apply Rm.
Qed.

(** [C22] The block store refines five maps: after any sequence of writes of records
    within the limits of their formats (a header's certificate has at most 16
    signatures), what it returns for a slot, a hash or the head is what was last written there, with
    headers and certificates decoded from what was encoded, and no write to one
    kind of record is seen in another. *)
Theorem block_store_refines (ops : list StoreOp) :
  Forall op_ok ops -> represents (foldl store_op ∅ ops) (foldl view_op (mkView ∅ ∅ ∅ ∅ 0) ops).
Proof.
  intros F. assert (represents ∅ (mkView ∅ ∅ ∅ ∅ 0)) as R by done. revert R.
  generalize (∅ : BlockStore) (mkView ∅ ∅ ∅ ∅ 0). induction F as [|op ops Hop F IH]; intros db v R; [done|].
  cbn [foldl]. apply IH. by apply store_op_represents.
Qed.
End Refine.

(** The index by hash is not maintained: once another header is stored at the
    slot, the hash of the replaced one still finds a header, which has another
    hash. *)
Theorem stale_hash_finds_other_header {P : Primitives} (h h' : BlockHeader) (db : BlockStore) :
  wire_header h -> wire_header h' -> slot h = slot h' -> header_hash h <> header_hash h' ->
  get_header_by_hash (put_header h' (put_header h db)) (header_hash h) = Returns (Some h').
Proof.
  intros W W' Es Hne. unfold get_header_by_hash, get_slot_by_hash, put_header.
  assert (index_key (header_hash h') <> index_key (header_hash h)) as K by (intros E%app_inv_head; by apply Hne).
  rewrite (lookup_insert_ne _ _ _ _ K), lookup_insert_ne by other_key. rewrite lookup_insert_eq, read_slot_encode by by apply wh_slot.
  cbn [run_bind]. rewrite Es. unfold get_header. rewrite (lookup_insert_ne _ (index_key _)) by other_key. rewrite lookup_insert_eq.
  unfold decode_block_header. by rewrite (decodes_decode _ _ _ (decodes_header h' W')).
Qed.

(** ** Evaluated *)

Definition toy_stored (s view : Z) : BlockHeader := fallback_header s view QuorumCert_empty.

Lemma toy_stored_wire : wire_header (toy_stored 5 1) /\ wire_header (toy_stored 5 2) /\ wire_header (toy_stored 6 2).
Proof.
  split_and!; (split; try (vm_compute; reflexivity); try (split; [discriminate|reflexivity]);
    split; [split; [discriminate|reflexivity]|reflexivity|split; [discriminate|reflexivity]|discriminate|constructor]).
Qed.

Lemma block_store_refines_witness :
  let ops := [PutHead 4; PutBlock (toy_stored 5 1) [1; 2]; PutHead 5; PutHeader (toy_stored 6 2); PutBlock (toy_stored 5 2) [7]] in
  represents (foldl store_op ∅ ops) (foldl view_op (mkView ∅ ∅ ∅ ∅ 0) ops) /\
  get_head (foldl store_op ∅ ops) = Returns 5 /\ get_block_raw (foldl store_op ∅ ops) 5 = Some [7].
Proof.
  intros ops. split; [|split; vm_compute; reflexivity]. apply block_store_refines.
  destruct toy_stored_wire as (W1 & W2 & W3). repeat (constructor; [first [exact W1|exact W2|exact W3|split; [discriminate|reflexivity]]|]). constructor.
Defined.

Lemma stale_hash_finds_other_header_witness :
  let h := toy_stored 5 1 in let h' := toy_stored 5 2 in
  get_header_by_hash (put_header h' (put_header h ∅)) (header_hash h) = Returns (Some h') /\ header_hash h <> header_hash h'.
Proof.
  intros h h'. assert (header_hash h <> header_hash h') as Hne by (vm_compute; discriminate). split; [|exact Hne].
  apply stale_hash_finds_other_header; [apply toy_stored_wire..|reflexivity|exact Hne].
Defined.
