(* ===== verification/Decryption.v ===== *)
(** * Decrypting a block's transactions

    The coordinator of [mempool/src/decryption.rs], the payloads of
    [mempool/src/encrypted.rs] ([encrypt_transaction], [decrypt_payload]) and the
    execution of what was decrypted ([try_decrypt_and_execute] of
    [node/src/block_processor.rs]).  Messages of errors are constructors; the
    diagnostics behind an environment variable and log lines are left out. *)

From stdpp Require Import base numbers list option gmap strings.
From Stdlib Require Import ZArith Lia.
From S2P Require Import Prelude Crypto Wire Keys Nonce Account Economics Airdrop Multisig State StateManager Transaction Validation.
From S2P Require Import Execution Store Handlers Pipeline Chain ViewChange HotStuff Codec NodeWire Encrypted Mempool BlockCheck BlockExec.
From S2P Require Import Goldilocks Threshold BlockStore.

#[local] Open Scope Z_scope.
#[local] Open Scope pyde_scope.

Inductive DecryptError : Type :=
| ThresholdOutOfRange (threshold : Z)
| IndexOutOfBounds
| InsufficientShares (have need : Z)
| DecryptionFailed (e : string)
| PayloadTooShort.

(** [iter().map(f).collect()] into a [Result]: stops at the first error. *)
Fixpoint run_collect {A B E : Type} (f : A -> Run (Result B E)) (l : list A) : Run (Result (list B) E) :=
  match l with
  | [] => Returns (Ok [])
  | a :: l' =>
      r <~ f a ;;
      match r with
      | Err e => Returns (Err e)
      | Ok b =>
          rest <~ run_collect f l' ;;
          match rest with Err e => Returns (Err e) | Ok bs => Returns (Ok (b :: bs)) end
      end
  end.

(** [BlockDecryptor]: the shares of every transaction, by its position. *)
Record BlockDecryptor : Type := mkDecryptor {
  bd_encrypted_txs : list EncryptedTx;
  bd_shares : list (list DecryptionShare);
  bd_threshold : Z;
  bd_decrypted : list bool;
  bd_committee_keys : list (list Z)
}.

Definition BlockDecryptor_new (encrypted_txs : list EncryptedTx) (threshold : Z) (committee_keys : list (list Z)) :
    Result BlockDecryptor DecryptError :=
  if negb ((1 <=? threshold) && (threshold <=? 128)) then Err (ThresholdOutOfRange threshold)
  else
    let n := length encrypted_txs in
    Ok (mkDecryptor encrypted_txs (replicate n []) threshold (replicate n false) committee_keys).

Definition tx_count (d : BlockDecryptor) : Z := len (bd_encrypted_txs d).

Definition set_bd_shares (shares : list (list DecryptionShare)) (d : BlockDecryptor) : BlockDecryptor :=
  mkDecryptor (bd_encrypted_txs d) shares (bd_threshold d) (bd_decrypted d) (bd_committee_keys d).
Definition set_bd_decrypted (flags : list bool) (d : BlockDecryptor) : BlockDecryptor :=
  mkDecryptor (bd_encrypted_txs d) (bd_shares d) (bd_threshold d) flags (bd_committee_keys d).

Definition add_share (tx_index : nat) (share : DecryptionShare) (d : BlockDecryptor) : BlockDecryptor * bool :=
  match bd_shares d !! tx_index with
  | None => (d, false)
  | Some l =>
      if existsb (fun s => ds_index s =? ds_index share) l then (d, false)
      else (set_bd_shares (<[tx_index := l ++ [share]]> (bd_shares d)) d, true)
  end.

(** The shares one after the other, with the number of those accepted. *)
Definition add_all (shares : list DecryptionShare) (d : BlockDecryptor) : BlockDecryptor * Z :=
  foldl (fun '(d, accepted) '(i, share) => let '(d, new) := add_share i share d in (d, if new : bool then accepted + 1 else accepted))
    (d, 0) (imap pair shares).

Definition share_count (tx_index : nat) (d : BlockDecryptor) : Z :=
  match bd_shares d !! tx_index with Some l => len l | None => 0 end.

Definition can_decrypt (tx_index : nat) (d : BlockDecryptor) : bool := bd_threshold d <=? share_count tx_index d.

Definition all_ready (d : BlockDecryptor) : bool := forallb (fun i => can_decrypt i d) (seq 0 (length (bd_encrypted_txs d))).

Section Decrypt.
Context {P : Primitives} {K : Kem}.

Definition add_member_shares (key_share : KeyShare) (sign : Signer) (d : BlockDecryptor) : Run (BlockDecryptor * Z) :=
  shares_res <~ run_collect (fun tx => generate_decryption_share key_share (ciphertext tx) sign) (bd_encrypted_txs d) ;;
  match shares_res with
  | Err _ => Returns (d, 0)
  | Ok shares => Returns (add_all shares d)
  end.

(** ** Payloads *)

Definition payload_bytes (to : Address) (value : Z) (calldata : list Z) : list Z := to ++ le_encode 16 value ++ calldata.

Definition encrypt_transaction (sender : Address) (nonce gas_limit : Z) (access_list : list AccessEntry) (deadline : option Z)
    (chain_id : Z) (signature : list Z) (to : Address) (value : Z) (calldata : list Z) (committee_pk : ThresholdPublicKey) (r : list Z) :
    Result EncryptedTx string :=
  match threshold_encrypt committee_pk (payload_bytes to value calldata) r with
  | Err _ => Err "threshold encryption failed"
  | Ok ct => Ok (mkEtx sender nonce gas_limit access_list deadline chain_id signature ct)
  end.

Definition decrypt_payload (ct : ThresholdCiphertext) (shares : list DecryptionShare) (threshold : Z) (committee_keys : list (list Z)) :
    Run (Result (Address * Z * list Z) DecryptError) :=
  plaintext <~ combine_shares shares threshold ct committee_keys ;;
  match plaintext with
  | Err e => Returns (Err (DecryptionFailed e))
  | Ok p =>
      if len p <? 48 then Returns (Err PayloadTooShort)
      else Returns (Ok (take 32 p, le_decode (slice 32 16 p), drop 48 p))
  end.

Definition decrypted_transaction (etx : EncryptedTx) (to : Address) (value : Z) (calldata : list Z) : Transaction :=
  Tx.mkTx (etx_sender etx) to value calldata (etx_gas_limit etx) (etx_nonce etx) (etx_signature etx) Sender
    (etx_access_list etx) (etx_deadline etx) (etx_chain_id etx) Standard.

Definition decrypt_tx_inner (tx_index : nat) (d : BlockDecryptor) : Run (Result Transaction DecryptError) :=
  match bd_encrypted_txs d !! tx_index with
  | None => Returns (Err IndexOutOfBounds)
  | Some etx =>
      if share_count tx_index d <? bd_threshold d
      then Returns (Err (InsufficientShares (share_count tx_index d) (bd_threshold d)))
      else
        shares <~ unwrap (bd_shares d !! tx_index) ;;
        payload <~ decrypt_payload (ciphertext etx) shares (bd_threshold d) (bd_committee_keys d) ;;
        match payload with
        | Err e => Returns (Err e)
        | Ok (to, value, calldata) => Returns (Ok (decrypted_transaction etx to value calldata))
        end
  end.

Definition decrypt_tx (tx_index : nat) (d : BlockDecryptor) : Run (BlockDecryptor * Result Transaction DecryptError) :=
  r <~ decrypt_tx_inner tx_index d ;;
  match r with
  | Err e => Returns (d, Err e)
  | Ok tx => Returns (set_bd_decrypted (<[tx_index := true]> (bd_decrypted d)) d, Ok tx)
  end.

(** The pass runs on a pool: when several transactions fail, this is the error
    of the first by position, where the pool may report another. *)
Definition decrypt_all (d : BlockDecryptor) : Run (BlockDecryptor * Result (list Transaction) DecryptError) :=
  txs <~ run_collect (fun i => decrypt_tx_inner i d) (seq 0 (length (bd_encrypted_txs d))) ;;
  match txs with
  | Err e => Returns (d, Err e)
  | Ok txs => Returns (set_bd_decrypted ((fun _ => true) <$> bd_decrypted d) d, Ok txs)
  end.
End Decrypt.

(** ** Execution ([block_processor.rs]) *)

Inductive DecryptOutcome : Type :=
| Executed (tx_count : Z) (receipts : list Receipt)
| HeaderMissing
| OutcomeTxRootMismatch
| DecryptFailed (e : DecryptError).

Section Execute.
Context {P : Primitives} {K : Kem} {J : Type} `{StateAccess J}.
Context (key_le : Key * Bytes -> Key * Bytes -> Prop) `{!RelDecision key_le}.
Context (fuel : nat).
#[local] Abbreviation SM := (StateManager J).
#[local] Abbreviation Ov := (StateOverlay (StateManager J)).

Definition verify_decryptor_against_committed_root (committed_tx_root : list Z) (block_plaintext_txs : list Transaction)
    (decryptor_encrypted_txs : list EncryptedTx) : bool :=
  verify_tx_root committed_tx_root block_plaintext_txs (etx_hash <$> decryptor_encrypted_txs).

Definition plaintext_txs (db : BlockStore) (slot : Z) : list Transaction :=
  match get_block_raw db slot with
  | None => []
  | Some raw => match decode_block raw with Ok b => transactions (body b) | Err _ => [] end
  end.

(** The sender's registered key verifies the signature on the encrypted form. *)
Definition sender_verified (s : SM) (etx : EncryptedTx) : bool :=
  match auth_keys <$> stored_account s (etx_sender etx) with
  | Some (Single pk) => verify_signature_with_key etx pk
  | _ => false
  end.

Fixpoint execute_decrypted (ctx : BlockContext) (txs : list (bool * Transaction)) (o : Ov) : Run (Ov * list Receipt) :=
  match txs with
  | [] => Returns (o, [])
  | (verified, dtx) :: rest =>
      if verified : bool then
        step <~ execute_transaction fuel dtx o ctx ;;
        let '(o, r) := step in
        rest <~ execute_decrypted ctx rest o ;;
        let '(o, receipts) := rest in
        Returns (o, match r with Ok receipt => receipt :: receipts | Err _ => receipts end)
      else execute_decrypted ctx rest o
  end.

Definition decrypt_context (h : BlockHeader) (slot block_gas_limit base_fee chain_id : Z) (proposer_addr : Address) : BlockContext :=
  mkBlock slot (timestamp h) base_fee block_gas_limit chain_id proposer_addr true false.

(** What the overlay holds goes to the manager, with its undo entries, and is
    flushed. *)
Definition settle_decrypted (slot : Z) (o : Ov) (s : SM) : SM :=
  let '(w, undo) := into_writes_with_undo key_le o in
  let s := defer w s in
  let s := match undo with [] => s | _ => record_block_undo slot undo s end in
  refresh_root (flush_pending s).1.

Definition try_decrypt_and_execute (db : BlockStore) (slot : Z) (d : BlockDecryptor) (s : SM) (block_gas_limit base_fee chain_id : Z)
    (proposer_addr : Address) : Run (SM * BlockDecryptor * DecryptOutcome) :=
  match get_header db slot with
  | None => Returns (s, d, HeaderMissing)
  | Some h =>
      if negb (verify_decryptor_against_committed_root (tx_root h) (plaintext_txs db slot) (bd_encrypted_txs d))
      then Returns (s, d, OutcomeTxRootMismatch)
      else
        let verify_results := sender_verified s <$> bd_encrypted_txs d in
        all <~ decrypt_all d ;;
        match all with
        | (d, Err e) => Returns (s, d, DecryptFailed e)
        | (d, Ok decrypted_txs) =>
            let ctx := decrypt_context h slot block_gas_limit base_fee chain_id proposer_addr in
            result <~ execute_decrypted ctx (zip verify_results decrypted_txs) (Overlay_new s) ;;
            let '(o, receipts) := result in
            Returns (settle_decrypted slot o s, d, Executed (len (filter (fun v : bool => v = true) verify_results)) receipts)
        end
  end.

(** ** The node's decryptors ([node.rs]) *)

(** Decryptors by slot, and the messages that came before theirs. *)
Record DecryptionPool : Type := mkDecPool {
  pending_decryptors : gmap Z BlockDecryptor;
  queued_shares : gmap Z (list DecryptionShareMsg)
}.

(** What a validator holds, as far as decryption uses it. *)
Record ShareHolder : Type := mkHolder { sh_committee_index : Z; sh_sign : Signer; sh_key_share : option KeyShare }.

Definition feed_share (d : BlockDecryptor) (i : nat) (share_bytes : list Z) : BlockDecryptor :=
  match ds_from_bytes share_bytes with Some share => (add_share i share d).1 | None => d end.

Definition feed_shares (msg : DecryptionShareMsg) (d : BlockDecryptor) : BlockDecryptor :=
  foldl (fun d '(i, b) => feed_share d i b) d (imap pair (NodeWire.ds_shares msg)).

Definition share_proposer (db : BlockStore) (slot : Z) : Address :=
  match get_header db slot with Some h => proposer h | None => replicate 32 0 end.

(** A message of shares: fed to the slot's decryptor, which executes and is
    dropped once every transaction has enough of them, or kept for later. *)
Definition add_decryption_shares (db : BlockStore) (gas_ceiling base_fee chain_id : Z) (msg : DecryptionShareMsg)
    (p : DecryptionPool) (s : SM) : Run (DecryptionPool * SM * option DecryptOutcome) :=
  let slot := ds_slot msg in
  match pending_decryptors p !! slot with
  | None =>
      let queued := default [] (queued_shares p !! slot) in
      Returns (mkDecPool (pending_decryptors p) (<[slot := queued ++ [msg]]> (queued_shares p)), s, None)
  | Some d =>
      let d := feed_shares msg d in
      if all_ready d then
        result <~ try_decrypt_and_execute db slot d s gas_ceiling base_fee chain_id (share_proposer db slot) ;;
        let '(s, _, outcome) := result in
        Returns (mkDecPool (delete slot (pending_decryptors p)) (queued_shares p), s, Some outcome)
      else Returns (mkDecPool (<[slot := d]> (pending_decryptors p)) (queued_shares p), s, None)
  end.

(** [generate_decryption_shares] of the engine: all of them or none. *)
Definition generate_decryption_shares (id : ShareHolder) (encrypted_txs : list EncryptedTx) : Run (option (list DecryptionShare)) :=
  match sh_key_share id with
  | None => Returns None
  | Some key_share =>
      results <~ run_map (fun tx => generate_decryption_share key_share (ciphertext tx) (sh_sign id)) encrypted_txs ;;
      let shares := omap (fun r => match r with Ok s => Some s | Err _ => None end) results in
      if negb (len shares =? len encrypted_txs) then Returns None else Returns (Some shares)
  end.

Definition share_message (slot : Z) (id : ShareHolder) (shares : list DecryptionShare) : DecryptionShareMsg :=
  mkShares slot (sh_committee_index id) (ds_to_bytes <$> shares).

(** The decryptor a validator opens: its own shares, then the queued ones. *)
Definition open_decryptor (key_share : KeyShare) (sign : Signer) (enc_txs : list EncryptedTx) (threshold : Z)
    (committee_pks : list (list Z)) (qc_slot : Z) (p : DecryptionPool) : Run DecryptionPool :=
  match BlockDecryptor_new enc_txs threshold committee_pks with
  | Err _ => Returns p
  | Ok d =>
      own <~ add_member_shares key_share sign d ;;
      let d := foldl (fun d m => feed_shares m d) own.1 (default [] (queued_shares p !! qc_slot)) in
      Returns (mkDecPool (<[qc_slot := d]> (pending_decryptors p)) (delete qc_slot (queued_shares p)))
  end.

(** On a canonical block with encrypted transactions: opens the decryptor and
    returns the message to broadcast.  [committee_keys] is the engine's, if the
    node runs one. *)
Definition maybe_kick_decryption_pipeline (committee_keys : option (list (list Z))) (id : option ShareHolder) (b : Block) (qc_slot : Z)
    (p : DecryptionPool) : Run (DecryptionPool * option DecryptionShareMsg) :=
  match encrypted_txs (body b), id ≫= (fun id => pair id <$> sh_key_share id) with
  | [], _ | _, None => Returns (p, None)
  | _, Some (id, key_share) =>
      if bool_decide (is_Some (pending_decryptors p !! qc_slot)) then Returns (p, None)
      else
        let enc_txs := omap etx_from_bytes (encrypted_txs (body b)) in
        if negb (verify_decryptor_against_committed_root (tx_root (header b)) (transactions (body b)) enc_txs) then Returns (p, None)
        else match committee_keys with
        | None => Returns (p, None)
        | Some keys =>
            match mapM FalconPublicKey_from_bytes keys with
            | None => Returns (p, None)
            | Some committee_pks =>
                p <~ open_decryptor key_share (sh_sign id) enc_txs (quorum_for_committee (len keys)) committee_pks qc_slot p ;;
                shares <~ generate_decryption_shares id enc_txs ;;
                Returns (p, share_message qc_slot id <$> shares)
            end
        end
  end.

(** The maintenance tick drops what is 100 slots old; [slot + 100] wraps. *)
Definition prune_decryption (head : Z) (p : DecryptionPool) : DecryptionPool :=
  let keep (slot : Z) := head <? wrap u64 (slot + 100) in
  mkDecPool (filter (fun e => keep e.1 = true) (pending_decryptors p)) (filter (fun e => keep e.1 = true) (queued_shares p)).

(** The retry tick sends the shares again for the decryptors still short of them. *)
Definition rebroadcast_shares (id : ShareHolder) (p : DecryptionPool) : Run (list DecryptionShareMsg) :=
  match sh_key_share id with
  | None => Returns []
  | Some _ =>
      let stuck := filter (fun e => all_ready e.2 = false) (map_to_list (pending_decryptors p)) in
      msgs <~ run_map (fun '(slot, d) =>
        shares <~ generate_decryption_shares id (bd_encrypted_txs d) ;; Returns (share_message slot id <$> shares)) stuck ;;
      Returns (omap (fun m => m) msgs)
  end.
End Execute.
