(* ===== verification/DecryptionProps.v ===== *)
(** * What a committee decrypts, and what it executes

    Theorems about [Decryption]: honest shares, in any order and by any route,
    give back the transactions that were encrypted; a decrypted transaction runs
    only under its sender's signature; and one forged share loses a block's
    transactions. *)

From stdpp Require Import base numbers list option gmap strings sets.
From Stdlib Require Import ZArith Lia.
From S2P Require Import Prelude Crypto Wire Keys Nonce Account Economics Airdrop Multisig State StateManager Transaction Validation.
From S2P Require Import Execution Store Handlers Pipeline Chain ViewChange HotStuff Codec NodeWire Encrypted Mempool BlockCheck BlockExec BlockProps.
From S2P Require Import Goldilocks Threshold ThresholdProps ThresholdFindings BlockStore Decryption.

#[local] Open Scope Z_scope.
#[local] Open Scope pyde_scope.

(** A member of the committee: its key share and its signer. *)
Definition Member : Type := KeyShare * Signer.

Definition indices (ms : list Member) : list Z := (fun m => ks_index m.1) <$> ms.

(** A new index is appended, a known one ignored. *)
Definition push (s : DecryptionShare) (l : list DecryptionShare) : list DecryptionShare :=
  if existsb (fun s' => ds_index s' =? ds_index s) l then l else l ++ [s].

Definition add_shares (shares : list DecryptionShare) (d : BlockDecryptor) : BlockDecryptor :=
  foldl (fun d '(i, s) => (add_share i s d).1) d (imap pair shares).

Section Collect.
Context {P : Primitives} {PO : PrimitivesOk P} {K : Kem} {KO : KemOk K}.

(** The member's signature on a share verifies under its key in [committee]. *)
Definition honest (committee : list (list Z)) (m : Member) : Prop :=
  forall ct shares, exists sig pk,
    m.2 (share_preimage (ciphertext_binding_hash ct) (ks_index m.1) shares) = Ok sig /\
    FalconSignature_from_bytes sig = Some sig /\ committee !! Z.to_nat (ks_index m.1 - 1) = Some pk /\
    falcon_verify pk (share_preimage (ciphertext_binding_hash ct) (ks_index m.1) shares) sig = true.

(** [etx] is the transaction [tx], encrypted under [tpk] with randomness for
    which the encapsulation is recovered. *)
Definition sealed (rng : nat -> list Z) (tpk : ThresholdPublicKey) (tx : Transaction) (etx : EncryptedTx) : Prop :=
  Tx.fee_payer tx = Sender /\ Tx.tx_type tx = Standard /\ length (Tx.to tx) = 32%nat /\ in_range u128 (Tx.value tx) /\
  exists r, (forall seed, draw_seed rng MAX_REJECTIONS 0 = Ok (kyber_pk tpk, seed) -> kem_recovers (kyber_pk tpk) seed r) /\
    encrypt_transaction (Tx.from tx) (Tx.nonce tx) (Tx.gas_limit tx) (Tx.access_list tx) (Tx.deadline tx) (Tx.chain_id tx)
      (Tx.signature tx) (Tx.to tx) (Tx.value tx) (Tx.data tx) tpk r = Ok etx.

(** A decryptor and the members whose shares it has: its own, those of
    messages, and repeated messages. *)
Inductive collects (committee : list (list Z)) (etxs : list EncryptedTx) (t : Z) : list Member -> BlockDecryptor -> Prop :=
| collected_new d :
    BlockDecryptor_new etxs t committee = Ok d -> collects committee etxs t [] d
| collected_own ms d m d' n :
    collects committee etxs t ms d -> ks_index m.1 ∉ indices ms -> add_member_shares m.1 m.2 d = Returns (d', n) ->
    collects committee etxs t (ms ++ [m]) d'
| collected_message ms d m slot i shares :
    let id := mkHolder i m.2 (Some m.1) in
    collects committee etxs t ms d -> ks_index m.1 ∉ indices ms -> generate_decryption_shares id etxs = Returns (Some shares) ->
    collects committee etxs t (ms ++ [m]) (feed_shares (share_message slot id shares) d)
| collected_repeat ms d m slot i shares :
    let id := mkHolder i m.2 (Some m.1) in
    collects committee etxs t ms d -> m ∈ ms -> generate_decryption_shares id etxs = Returns (Some shares) ->
    collects committee etxs t ms (feed_shares (share_message slot id shares) d).

(** ** Adding shares *)

Lemma add_share_frame (i : nat) (s : DecryptionShare) (d : BlockDecryptor) :
  bd_encrypted_txs (add_share i s d).1 = bd_encrypted_txs d /\ bd_threshold (add_share i s d).1 = bd_threshold d /\
  bd_committee_keys (add_share i s d).1 = bd_committee_keys d.
Proof. unfold add_share. destruct (bd_shares d !! i); [|done]. by destruct (existsb _ _). Qed.

Lemma add_share_lookup (i j : nat) (s : DecryptionShare) (d : BlockDecryptor) :
  bd_shares (add_share i s d).1 !! j = (if decide (i = j) then push s else id) <$> bd_shares d !! j.
Proof.
  unfold add_share, push. destruct (decide (i = j)) as [->|N].
  - destruct (bd_shares d !! j) as [l|] eqn:E; [|by cbn; rewrite E]. cbn [fmap option_fmap option_map].
    destruct (existsb _ _); [done|]. cbn [fst set_bd_shares bd_shares]. apply list_lookup_insert_eq. by eapply lookup_lt_Some.
  - rewrite option_fmap_id. destruct (bd_shares d !! i) as [l|]; [|done]. destruct (existsb _ _); [done|]. cbn. by apply list_lookup_insert_ne.
Qed.

Lemma add_shares_spec (shares : list DecryptionShare) (d : BlockDecryptor) :
  bd_encrypted_txs (add_shares shares d) = bd_encrypted_txs d /\ bd_threshold (add_shares shares d) = bd_threshold d /\
  bd_committee_keys (add_shares shares d) = bd_committee_keys d /\
  forall j l, bd_shares d !! j = Some l ->
    bd_shares (add_shares shares d) !! j = Some (match shares !! j with Some s => push s l | None => l end).
Proof.
  unfold add_shares. induction shares as [|s shares IH] using rev_ind; [done|].
  rewrite imap_app, foldl_app. cbn [imap foldl]. set (d1 := foldl _ d (imap pair shares)) in *. rewrite Nat.add_0_r.
  destruct IH as (E1 & E2 & E3 & E4), (add_share_frame (length shares) s d1) as (F1 & F2 & F3).
  split; [congruence|]. split; [congruence|]. split; [congruence|]. intros j l Hj.
  rewrite add_share_lookup, (E4 j l Hj). cbn [fmap option_fmap option_map]. f_equal. destruct (decide (length shares = j)) as [<-|N].
  - by rewrite (lookup_ge_None_2 shares) by lia; rewrite list_lookup_middle by done.
  - destruct (decide (j < length shares)%nat).
    + by rewrite lookup_app_l by done.
    + by rewrite !lookup_ge_None_2 by (rewrite ?length_app; cbn; lia).
Qed.

Lemma add_all_shares (shares : list DecryptionShare) (d : BlockDecryptor) : (add_all shares d).1 = add_shares shares d.
Proof.
  unfold add_all, add_shares. generalize 0. generalize (imap pair shares) as l. intros l. revert d.
  induction l as [|[i s] l IH]; intros d z; [done|]. cbn [foldl]. destruct (add_share i s d) as [d' new]. apply IH.
Qed.

Lemma feed_message (slot : Z) (id : ShareHolder) (shares : list DecryptionShare) (d : BlockDecryptor) :
  Forall (fun s => ds_from_bytes (ds_to_bytes s) = Some s) shares -> feed_shares (share_message slot id shares) d = add_shares shares d.
Proof.
  intros F. unfold feed_shares, add_shares, share_message. cbn [NodeWire.ds_shares].
  induction shares as [|s shares IH] using rev_ind; [done|]. apply Forall_app in F as [F [Fs _]%Forall_cons].
  rewrite fmap_app, !imap_app, !foldl_app, IH by done. cbn [imap foldl fmap list_fmap]. unfold feed_share.
  by rewrite Fs, length_fmap.
Qed.

(** ** Honest shares *)

Lemma checked_sub_one (i : Z) : in_committee i -> checked_sub i 1 = Some (i - 1).
Proof. intros [L _]. unfold checked_sub. destruct (Z.leb_spec 1 i); [done|lia]. Qed.

Lemma honest_share (f : nat -> Z -> Z) (committee : list (list Z)) (m : Member) (ct : ThresholdCiphertext) :
  holds f m.1 -> honest committee m ->
  exists s, generate_decryption_share m.1 ct m.2 = Returns (Ok s) /\ made (ciphertext_binding_hash ct) m.1 s /\
    share_authentic (ciphertext_binding_hash ct) committee s = true /\ ds_from_bytes (ds_to_bytes s) = Some s.
Proof.
  intros Hf Hh. destruct (generate_decryption_share m.1 ct m.2) as [r| |] eqn:E; unfold generate_decryption_share in E;
    rewrite (run_map_returns _ (fun '(e, v) => gl_add v (mask_of (ciphertext_binding_hash ct) (ks_index m.1) e))) in E
      by (intros [e v] _; by rewrite mask_returns); cbn [run_bind] in E;
    set (l := _ <$> imap pair (ks_shares m.1)) in E; destruct (Hh ct l) as (sig & pk & Es & Ef & Ek & Ev); rewrite Es in E; [|done..].
  injection E as <-. eexists. split; [reflexivity|]. split; [split; [done|]; unfold l; cbn; by rewrite fmap_imap|].
  destruct Hf as [Hi Hl _]. split.
  - unfold share_authentic. cbn [ds_index ds_signature Threshold.ds_shares]. by rewrite checked_sub_one, Ek, Ef by done.
  - assert (length l = SEED_ELEMENTS) as Ll by (unfold l; by rewrite length_fmap, length_imap).
    apply ds_roundtrip; cbn [ds_index ds_signature Threshold.ds_shares].
    + destruct Hi. unfold in_range, MAX_VALIDATOR_INDEX in *. cbn. lia.
    + unfold len. rewrite Ll. done.
    + unfold FalconSignature_from_bytes in Ef. destruct ((500 <=? len sig) && (len sig <=? 1000)) eqn:B; [lia|done].
    + unfold l. apply Forall_fmap, Forall_forall. intros [e v] _. apply gl_canonical.
Qed.

(** ** What a decryptor has gathered *)

Definition share_of (etx : EncryptedTx) (m : Member) (s : DecryptionShare) : Prop :=
  generate_decryption_share m.1 (ciphertext etx) m.2 = Returns (Ok s).

Record gathered (committee : list (list Z)) (etxs : list EncryptedTx) (t : Z) (ms : list Member) (d : BlockDecryptor) : Prop := {
  gathered_txs : bd_encrypted_txs d = etxs;
  gathered_threshold : bd_threshold d = t;
  gathered_keys : bd_committee_keys d = committee;
  gathered_pos : 1 <= t;
  gathered_distinct : NoDup (indices ms);
  gathered_shares : forall i etx, etxs !! i = Some etx -> exists l, bd_shares d !! i = Some l /\ Forall2 (share_of etx) ms l
}.

Lemma share_of_index (etx : EncryptedTx) (m : Member) (s : DecryptionShare) : share_of etx m s -> ds_index s = ks_index m.1.
Proof. intros [[E _] _]%generate_made. exact E. Qed.

Lemma share_of_indices (etx : EncryptedTx) (ms : list Member) (l : list DecryptionShare) :
  Forall2 (share_of etx) ms l -> ds_index <$> l = indices ms.
Proof. induction 1 as [|m s ms l H _ IH]; [done|]. cbn. by rewrite IH, (share_of_index _ _ _ H). Qed.

Lemma push_spec (s : DecryptionShare) (l : list DecryptionShare) :
  push s l = if decide (ds_index s ∈ ds_index <$> l) then l else l ++ [s].
Proof.
  unfold push. destruct (existsb _ l) eqn:E; destruct (decide _) as [D|D]; try done.
  - apply existsb_exists in E as (s' & Hin%list_elem_of_In & Hi%Z.eqb_eq). destruct D. apply list_elem_of_fmap. by exists s'.
  - apply list_elem_of_fmap in D as (s' & Ei & Hin%list_elem_of_In).
    assert (existsb (fun s' => ds_index s' =? ds_index s) l = true) as T by (apply existsb_exists; exists s'; split; [done|lia]). congruence.
Qed.

Lemma gathered_add (committee : list (list Z)) (etxs : list EncryptedTx) (t : Z) (ms : list Member) (m : Member)
    (d : BlockDecryptor) (shares : list DecryptionShare) :
  gathered committee etxs t ms d -> Forall2 (fun etx s => share_of etx m s) etxs shares ->
  (ks_index m.1 ∉ indices ms -> gathered committee etxs t (ms ++ [m]) (add_shares shares d)) /\
  (ks_index m.1 ∈ indices ms -> gathered committee etxs t ms (add_shares shares d)).
Proof.
  intros [E1 E2 E3 E4 E5 E6] F. destruct (add_shares_spec shares d) as (A1 & A2 & A3 & A4).
  assert (forall i etx, etxs !! i = Some etx -> exists l s, share_of etx m s /\ Forall2 (share_of etx) ms l /\
            bd_shares (add_shares shares d) !! i = Some (if decide (ks_index m.1 ∈ indices ms) then l else l ++ [s])) as G.
  { intros i etx Hi. destruct (E6 i etx Hi) as (l & Hl & Fl). destruct (Forall2_lookup_l _ _ _ _ _ F Hi) as (s & Hs & Gs).
    exists l, s. split; [done|]. split; [done|]. rewrite (A4 i l Hl), Hs, push_spec, (share_of_index _ _ _ Gs). by rewrite (share_of_indices _ _ _ Fl). }
  split; intros Hm; split; try congruence.
  - unfold indices. rewrite fmap_app. apply NoDup_app. split; [done|]. split; [|apply NoDup_singleton].
    intros x Hx ->%list_elem_of_singleton. done.
  - intros i etx Hi. destruct (G i etx Hi) as (l & s & Gs & Fl & ->). exists (l ++ [s]). rewrite decide_False by done.
    split; [done|]. by apply Forall2_app; [|constructor].
  - intros i etx Hi. destruct (G i etx Hi) as (l & s & Gs & Fl & ->). exists l. by rewrite decide_True by done.
Qed.

Lemma collect_ok {A B E : Type} (f : A -> Run (Result B E)) (l : list A) (bs : list B) :
  Forall2 (fun a b => f a = Returns (Ok b)) l bs -> run_collect f l = Returns (Ok bs) /\ run_map f l = Returns (Ok <$> bs).
Proof.
  induction 1 as [|a b l bs H _ [IH1 IH2]]; [done|]. cbn [run_collect run_map]. rewrite H. cbn [run_bind]. by rewrite IH1, IH2.
Qed.

Lemma omap_ok {A E : Type} (l : list A) : omap (fun r : Result A E => match r with Ok a => Some a | Err _ => None end) (Ok <$> l) = l.
Proof. induction l as [|a l IH]; [done|]. cbn. by rewrite IH. Qed.

(** An honest member has a share of every transaction, and all its routes carry them. *)
Lemma honest_shares (f : nat -> Z -> Z) (committee : list (list Z)) (m : Member) (etxs : list EncryptedTx) :
  holds f m.1 -> honest committee m ->
  exists shares, Forall2 (fun etx s => share_of etx m s) etxs shares /\ Forall (fun s => ds_from_bytes (ds_to_bytes s) = Some s) shares.
Proof.
  intros Hf Hh. induction etxs as [|etx etxs (shares & F & R)]; [by exists []|].
  destruct (honest_share f committee m (ciphertext etx) Hf Hh) as (s & G & _ & _ & D). exists (s :: shares). by split; constructor.
Qed.

Lemma honest_message (f : nat -> Z -> Z) (committee : list (list Z)) (m : Member) (etxs : list EncryptedTx) (slot i : Z)
    (shares : list DecryptionShare) (d : BlockDecryptor) :
  let id := mkHolder i m.2 (Some m.1) in
  holds f m.1 -> honest committee m -> generate_decryption_shares id etxs = Returns (Some shares) ->
  Forall2 (fun etx s => share_of etx m s) etxs shares /\ feed_shares (share_message slot id shares) d = add_shares shares d.
Proof.
  intros id Hf Hh. destruct (honest_shares f committee m etxs Hf Hh) as (shares' & F & R). unfold generate_decryption_shares.
  cbn [id sh_key_share sh_sign]. rewrite (proj2 (collect_ok _ _ _ F)). cbn [run_bind]. rewrite omap_ok.
  destruct (negb _); [done|]. intros [= <-]. split; [done|]. by apply feed_message.
Qed.

Lemma collected_gathered (f : nat -> Z -> Z) (committee : list (list Z)) (etxs : list EncryptedTx) (t : Z) (ms : list Member) (d : BlockDecryptor) :
  collects committee etxs t ms d -> Forall (fun m => holds f m.1 /\ honest committee m) ms -> gathered committee etxs t ms d.
Proof.
  induction 1 as [d N|ms d m d' n _ IH Hm E|ms d m slot i shares id _ IH Hm E|ms d m slot i shares id _ IH Hm E]; intros H.
  - unfold BlockDecryptor_new in N. destruct (negb _) eqn:B; [done|]. injection N as <-. split; try done; [lia|apply NoDup_nil_2|].
    intros j etx Hj. exists []. split; [|done]. apply lookup_replicate. split; [done|]. by eapply lookup_lt_Some.
  - apply Forall_app in H as [H [[Hf Hh] _]%Forall_cons]. specialize (IH H).
    destruct (honest_shares f committee m etxs Hf Hh) as (shares & F & _). unfold add_member_shares in E.
    rewrite (gathered_txs _ _ _ _ _ IH), (proj1 (collect_ok _ _ _ F)) in E. cbn [run_bind] in E. injection E as E.
    rewrite <- (f_equal fst E : _ = d'), add_all_shares. by apply (gathered_add _ _ _ _ _ _ _ IH F).
  - apply Forall_app in H as [H [[Hf Hh] _]%Forall_cons]. specialize (IH H).
    subst id. destruct (honest_message f committee m etxs slot i shares d Hf Hh E) as [F ->]. by apply (gathered_add _ _ _ _ _ _ _ IH F).
  - specialize (IH H). destruct (proj1 (Forall_forall _ _) H m Hm) as [Hf Hh].
    subst id. destruct (honest_message f committee m etxs slot i shares d Hf Hh E) as [F ->].
    apply (gathered_add _ _ _ _ _ _ _ IH F), list_elem_of_fmap. by exists m.
Qed.

(** ** Decrypting *)

Lemma payload_decodes (to : Address) (value : Z) (calldata : list Z) :
  length to = 32%nat -> in_range u128 value ->
  let p := payload_bytes to value calldata in
  (len p <? 48) = false /\ take 32 p = to /\ le_decode (slice 32 16 p) = value /\ drop 48 p = calldata.
Proof.
  intros L V p. unfold p, payload_bytes, slice. assert (length (le_encode 16 value) = 16%nat) as Lv by apply length_le_encode.
  split; [unfold len; rewrite !length_app, L, Lv; destruct (Z.ltb_spec (Z.of_nat (32 + (16 + length calldata))) 48); [lia|done]|]. split; [by apply take_app_length'|]. split.
  - rewrite drop_app_length' by done. rewrite take_app_length' by done. apply le_decode_encode. unfold in_range in V. cbn in *. lia.
  - rewrite app_assoc. apply drop_app_length'. by rewrite length_app, L, Lv.
Qed.

Lemma decrypt_sealed (rng : nat -> list Z) (tpk : ThresholdPublicKey) (t : Z) (keys : list KeyShare) (members : list Member)
    (committee : list (list Z)) (etxs : list EncryptedTx) (d : BlockDecryptor) (i : nat) (tx : Transaction) (etx : EncryptedTx) :
  custody rng tpk t keys -> Forall (fun m => m.1 ∈ keys /\ honest committee m) members ->
  gathered committee etxs t members d -> t <= len members -> etxs !! i = Some etx -> sealed rng tpk tx etx ->
  can_decrypt i d = true /\ decrypt_tx_inner i d = Returns (Ok tx).
Proof.
  intros C M [E1 E2 E3 E4 E5 E6] Lt Hi (Ef & Et & Ll & Lv & r & KR & Enc). destruct (E6 i etx Hi) as (l & Hl & Fl).
  destruct (custody_keeps _ _ _ _ C) as (seed & f & D & G & S & H). rewrite Forall_forall in H.
  assert (share_count i d = len members) as Sc by (unfold share_count, len; by rewrite Hl, (Forall2_length _ _ _ Fl)).
  unfold can_decrypt, decrypt_tx_inner. rewrite Sc, E1, E2, Hi, Hl. split; [lia|].
  destruct (Z.ltb_spec (len members) t) as [|_]; [lia|]. cbn [unwrap run_bind]. unfold encrypt_transaction in Enc.
  destruct (threshold_encrypt _ _ r) as [ct|] eqn:Ec; [|done]. injection Enc as <-. cbn [ciphertext] in *. unfold decrypt_payload. rewrite E3.
  rewrite (combine_decrypts t seed f tpk (payload_bytes (Tx.to tx) (Tx.value tx) (Tx.data tx)) r ct members.*1); [| | |by apply KR| | | | | |]; try done.
  - cbn [run_bind]. destruct (payload_decodes (Tx.to tx) (Tx.value tx) (Tx.data tx) Ll Lv) as (-> & -> & -> & ->).
    unfold decrypted_transaction. cbn. destruct tx; cbn in *. by rewrite Ef, Et.
  - apply Forall_fmap. eapply Forall_impl; [exact M|]. intros m [Hm _]. by apply H.
  - apply Forall2_fmap_l. eapply Forall2_impl; [exact Fl|]. intros m s Hs. by apply generate_made in Hs as [Hs _].
  - unfold len in *. by rewrite length_fmap.
  - by rewrite <- list_fmap_compose.
  - apply Forall_forall. intros s Hs. apply list_elem_of_lookup_1 in Hs as [j Hj]. destruct (Forall2_lookup_r _ _ _ _ _ Fl Hj) as (m & Hm & Gm).
    destruct (Forall_lookup_1 _ _ _ _ M Hm) as [Hk Hh]. destruct (honest_share f committee m ct (H _ Hk) Hh) as (s' & G' & _ & A & _).
    unfold share_of in Gm. cbn [ciphertext] in Gm. congruence.
Qed.

(** [C6] What users encrypt is what the committee executes.  Let a threshold key
    have passed through any number of refreshes and transfers, transactions be
    encrypted under its public key, and a decryptor collect the shares of
    distinct honest members of the current committee, in any order: its own,
    those of gossiped messages, some of them repeated.  With as many members as
    the threshold, the decryptor is ready and returns exactly the transactions
    that were encrypted, in order, each with the recipient, value and calldata
    its sender sealed and the fields that travelled in the clear. *)
Theorem committee_decrypts_block (rng : nat -> list Z) (tpk : ThresholdPublicKey) (t : Z) (keys : list KeyShare) (members : list Member)
    (committee : list (list Z)) (txs : list Transaction) (etxs : list EncryptedTx) (d : BlockDecryptor) :
  custody rng tpk t keys -> Forall (fun m => m.1 ∈ keys /\ honest committee m) members -> Forall2 (sealed rng tpk) txs etxs ->
  collects committee etxs t members d -> t <= len members ->
  all_ready d = true /\ exists d', decrypt_all d = Returns (d', Ok txs).
Proof.
  intros C M S Col Lt. destruct (custody_keeps _ _ _ _ C) as (seed & f & _ & _ & _ & H). rewrite Forall_forall in H.
  assert (gathered committee etxs t members d) as G.
  { eapply collected_gathered; [exact Col|]. eapply Forall_impl; [exact M|]. intros m [Hk Hh]. split; [by apply H|done]. }
  assert (forall i tx, txs !! i = Some tx -> can_decrypt i d = true /\ decrypt_tx_inner i d = Returns (Ok tx)) as At.
  { intros i tx Hi. destruct (Forall2_lookup_l _ _ _ _ _ S Hi) as (etx & He & Hs). by eapply decrypt_sealed. }
  pose proof (gathered_txs _ _ _ _ _ G) as E. pose proof (Forall2_length _ _ _ S) as L. split.
  - unfold all_ready. apply forallb_forall. intros i Hi%in_seq. rewrite E in Hi. destruct (lookup_lt_is_Some_2 txs i) as [tx Ht]; [lia|].
    by apply At in Ht as [Ht _].
  - assert (Forall2 (fun i tx => decrypt_tx_inner i d = Returns (Ok tx)) (seq 0 (length txs)) txs) as F.
    { apply Forall2_same_length_lookup_2; [by rewrite length_seq|]. intros i j tx Hj Ht. apply lookup_seq in Hj as [-> _]. by apply At. }
    unfold decrypt_all. rewrite E, <- L, (proj1 (collect_ok _ _ _ F)). by eexists.
Qed.
End Collect.

(** ** Executing *)

Section Settle.
Context {P : Primitives} {K : Kem} {J : Type} `{StateAccessOk J} `{!StateBatchOk J}.
Context (key_le : Key * Bytes -> Key * Bytes -> Prop) `{!RelDecision key_le}.
Context (fuel : nat).
#[local] Abbreviation SM := (StateManager J).

(** [a] and [b] read the same. *)
Definition same_reads (a b : SM) : Prop := forall k, sm_get a k = sm_get b k.

(** Both end well, with the same reads. *)
Definition revert_alike (x y : SM * Result Z string) : Prop :=
  is_ok x.2 = true /\ is_ok y.2 = true /\ same_reads x.1 y.1.

(** Reverting depends on the reads and on the logs above the target. *)
Lemma revert_loop_alike (logs tail : list (Z * list UndoEntry)) (t n m : Z) (a b : SM) :
  Forall (fun e => e.1 <= t) tail -> same_reads a b ->
  revert_alike (revert_loop (logs ++ tail) t n a) (revert_loop logs t m b).
Proof.
  intros T. revert n m a b. induction logs as [|[slot es] logs IH]; intros n m a b E.
  - cbn [app]. destruct tail as [|[slot es] tail]; cbn [revert_loop]; [done|]. apply Forall_cons in T as [T _]. cbn in T.
    destruct (Z.leb_spec slot t); [done|lia].
  - cbn [app revert_loop]. destruct (slot <=? t); [done|].
    destruct (revert_log_spec a es) as (a' & -> & _ & Ga), (revert_log_spec b es) as (b' & -> & _ & Gb).
    apply IH. intros k. by rewrite Ga, Gb, E.
Qed.

Lemma revert_to_loop (block_slot : Z) (s : SM) :
  0 < block_slot < 2 ^ 64 -> Forall (fun e => e.1 <= block_slot) (block_undo_logs s) ->
  revert_to (block_slot - 1) s = revert_loop (rev (block_undo_logs s)) (block_slot - 1) 0 s.
Proof.
  intros Hb Hl. unfold revert_to. destruct (block_undo_logs s) as [|[oldest es] l]; [done|]. apply Forall_cons in Hl as [Ho _]. cbn in Ho.
  rewrite wrap_small by (unfold in_range; lia). by destruct (Z.ltb_spec (block_slot - 1 + 1) oldest); [lia|].
Qed.

(** One more log of the slot, undone, leaves what the others undo. *)
Lemma revert_one_more (block_slot : Z) (pre rest : list (Z * list UndoEntry)) (u : list UndoEntry) (s s1 s2 : SM) :
  0 < block_slot < 2 ^ 64 -> Forall (fun e => e.1 < block_slot) pre -> Forall (fun e => e.1 <= block_slot) rest ->
  block_undo_logs s = pre ++ rest -> block_undo_logs s2 = rest ++ [(block_slot, u)] -> covers s s1 u -> same_reads s2 s1 ->
  revert_alike (revert_to (block_slot - 1) s) (revert_to (block_slot - 1) s2).
Proof.
  intros Hb Hp Hr E E2 C R. rewrite !revert_to_loop; [|done| |done|].
  2:{ rewrite E2. apply Forall_app. split; [done|]. by constructor. }
  2:{ rewrite E. apply Forall_app. split; [|done]. eapply Forall_impl; [exact Hp|]. cbn. lia. }
  rewrite E, E2, !rev_app_distr. cbn [rev app revert_loop]. destruct (Z.leb_spec block_slot (block_slot - 1)); [lia|].
  destruct (covers_reverts s s1 s2 u C R) as (s3 & -> & G). apply revert_loop_alike; [|intros k; by rewrite G].
  apply Forall_forall. intros e He%list_elem_of_In%in_rev%list_elem_of_In. rewrite Forall_forall in Hp. specialize (Hp e He). lia.
Qed.

Lemma flush_reads (s : SM) : coherent (s, []) -> same_reads (flush_pending s).1 s.
Proof.
  intros C k. destruct (flush_spec s) as (Ec & _ & Es). specialize (C k). unfold sm_get. rewrite Ec, Es. unfold coherent_at in C. cbn in C.
  destruct (cache s !! k); [done|]. by rewrite C.
Qed.

Lemma flush_logs (s : SM) : block_undo_logs (flush_pending s).1 = block_undo_logs s.
Proof.
  unfold flush_pending. destruct (pending_writes s) as [|e l]; [done|]. unfold update_batch. by destruct (smt_update_all _ _) as [j []].
Qed.

Lemma defer_coherent (w : list (Key * Bytes)) (s : SM) : coherent (s, []) -> coherent (defer w s, []).
Proof. intros C. unfold defer. case_decide; [done|]. intros k. eapply node_step_coherent_at; [apply step_write|apply not_elem_of_nil|apply C]. Qed.

(** The undo log of what is settled, and the reads afterwards. *)
Lemma settle_spec (block_slot : Z) (o : StateOverlay SM) (s : SM) :
  ov_base o = s -> coherent (s, []) ->
  exists s1 u, covers s s1 u /\ same_reads (settle_decrypted key_le block_slot o s) s1 /\
    block_undo_logs (settle_decrypted key_le block_slot o s) =
      match u with [] => block_undo_logs s | _ => block_undo_logs (record_block_undo block_slot u s) end.
Proof.
  intros Eb C. unfold settle_decrypted. rewrite surjective_pairing with (p := into_writes_with_undo key_le o). cbn [fst snd].
  set (u := (into_writes_with_undo key_le o).2). set (w := (into_writes_with_undo key_le o).1).
  exists (defer w s), u. split.
  { apply defer_covers.
    - intros e He. apply list_elem_of_fmap in He as (k & -> & _). by rewrite Eb.
    - intros k Hk. unfold u, into_writes_with_undo. cbn [snd]. rewrite <- list_fmap_compose. apply list_elem_of_fmap. by exists k. }
  set (s2 := match u with [] => defer w s | _ => record_block_undo block_slot u (defer w s) end).
  assert (coherent (s2, [])) as C2 by (unfold s2; destruct u; by apply (defer_coherent w s)). split.
  - intros k. change (sm_get (flush_pending s2).1 k = sm_get (defer w s) k). rewrite (flush_reads s2 C2). by unfold s2; destruct u.
  - change (block_undo_logs (flush_pending s2).1 = match u with [] => block_undo_logs s | _ => block_undo_logs (record_block_undo block_slot u s) end).
    rewrite flush_logs. unfold s2. destruct u; cbn [record_block_undo set_logs block_undo_logs]; by rewrite defer_logs.
Qed.

Lemma settled_reverts (block_slot : Z) (o : StateOverlay SM) (s : SM) :
  0 < block_slot < 2 ^ 64 -> (length (block_undo_logs s) <= MAX_UNDO_DEPTH)%nat ->
  Forall (fun e => e.1 <= block_slot) (block_undo_logs s) -> Forall (fun e => e.1 < block_slot) (take 1 (block_undo_logs s)) ->
  ov_base o = s -> coherent (s, []) ->
  revert_alike (revert_to (block_slot - 1) s) (revert_to (block_slot - 1) (settle_decrypted key_le block_slot o s)).
Proof.
  intros Hb Hd Hl Hf Eb C. destruct (settle_spec block_slot o s Eb C) as (s1 & u & Cov & R & L).
  set (s2 := settle_decrypted key_le block_slot o s) in *. clearbody s2. destruct u as [|e u].
  - rewrite !revert_to_loop, L by (done || by rewrite L). rewrite <- (app_nil_r (rev _)) at 1. apply revert_loop_alike; [done|].
    intros k. rewrite R. symmetry. apply (co_all _ _ _ Cov). apply not_elem_of_nil.
  - cbn [record_block_undo set_logs block_undo_logs] in L. set (n := (length (block_undo_logs s ++ [(block_slot, e :: u)]) - MAX_UNDO_DEPTH)%nat) in L.
    assert (n <= 1)%nat as Hn by (unfold n; rewrite length_app; cbn [length]; lia).
    assert (n <= length (block_undo_logs s))%nat as Hn' by (unfold n, MAX_UNDO_DEPTH; rewrite length_app; cbn [length]; lia).
    rewrite drop_app_le in L by done.
    apply (revert_one_more block_slot (take n (block_undo_logs s)) (drop n (block_undo_logs s)) (e :: u) s s1 s2); try done.
    + replace n with (n `min` 1)%nat by lia. rewrite <- take_take. by apply Forall_take.
    + by apply Forall_drop.
    + by rewrite take_drop.
Qed.

Lemma execute_decrypted_spec (ctx : BlockContext) (l : list (bool * Transaction)) (o o' : StateOverlay SM) (rs : list Receipt) :
  execute_decrypted fuel ctx l o = Returns (o', rs) ->
  ov_base o' = ov_base o /\ Forall (fun r => exists tx, (true, tx) ∈ l /\ rc_tx_hash r = tx_hash tx) rs /\
  (length rs <= length (filter (fun v : bool => v = true) l.*1))%nat.
Proof.
  revert o rs. induction l as [|[v tx] l IH]; intros o rs; cbn [execute_decrypted]; [by intros [= <- <-]|].
  assert (forall rs, Forall (fun r => exists tx, (true, tx) ∈ l /\ rc_tx_hash r = tx_hash tx) rs ->
            Forall (fun r => exists tx', (true, tx') ∈ (v, tx) :: l /\ rc_tx_hash r = tx_hash tx') rs) as W.
  { intros k F. eapply Forall_impl; [exact F|]. intros r (tx' & Hin & Er). exists tx'. split; [by right|done]. }
  destruct v.
  2:{ intros E. destruct (IH o rs E) as (E1 & E2 & E3). split; [done|]. split; [by apply W|]. by rewrite fmap_cons, filter_cons_False by done. }
  assert (ends_in (fun x => ov_base x = ov_base o) fst (execute_transaction fuel tx o ctx)) as B.
  { apply execute_keeps; [done| |done]. intros k x <-. cbn [smt_update_all Overlay_access]. by rewrite Overlay_update_all. }
  destruct (execute_transaction fuel tx o ctx) as [[o1 r]| |] eqn:X; cbn [run_bind]; [|done|done]. cbn in B.
  destruct (execute_decrypted fuel ctx l o1) as [[o2 rs2]| |] eqn:E; cbn [run_bind]; [|done|done]. intros [= <- <-].
  destruct (IH o1 rs2 E) as (E1 & E2 & E3). rewrite fmap_cons, filter_cons_True by done. split; [congruence|].
  destruct r as [r|e]; cbn [length]; (split; [|lia]); [constructor|]; try by apply W.
  exists tx. split; [left|]. exact (execute_receipt fuel tx o o1 ctx r X).
Qed.

Lemma sender_verified_key (s : SM) (etx : EncryptedTx) :
  sender_verified s etx = true ->
  exists acct pk, stored_account s (etx_sender etx) = Some acct /\ auth_keys acct = Single pk /\ verify_signature_with_key etx pk = true.
Proof.
  unfold sender_verified. destruct (stored_account s _) as [acct|]; [|done]. cbn [fmap option_fmap option_map].
  destruct (auth_keys acct) eqn:E; try done. intros V. eauto.
Qed.

(** [C14] What an encrypted block does.  Decrypting and executing it either
    leaves the state as it was, or: the stored header commits to the block's
    plaintext transactions followed by the encrypted ones in this order, all of
    them decrypt, and every receipt is of a decrypted transaction whose sender
    has a registered key that verifies its signature over the encrypted form.
    No more receipts are returned than transactions are counted. *)
Theorem decrypted_execution_signed (db : BlockStore) (slot : Z) (d d' : BlockDecryptor) (s s' : SM) (gas base_fee chain_id : Z)
    (proposer_addr : Address) (out : DecryptOutcome) :
  try_decrypt_and_execute key_le fuel db slot d s gas base_fee chain_id proposer_addr = Returns (s', d', out) ->
  match out with
  | Executed n receipts =>
      exists h txs, get_header db slot = Some h /\
        compute_tx_root (plaintext_txs db slot) (etx_hash <$> bd_encrypted_txs d) = tx_root h /\
        decrypt_all d = Returns (d', Ok txs) /\ len receipts <= n /\
        Forall (fun r => exists i etx tx acct pk, bd_encrypted_txs d !! i = Some etx /\ txs !! i = Some tx /\ rc_tx_hash r = tx_hash tx /\
          stored_account s (etx_sender etx) = Some acct /\ auth_keys acct = Single pk /\ verify_signature_with_key etx pk = true) receipts
  | _ => s' = s
  end.
Proof.
  unfold try_decrypt_and_execute. destruct (get_header db slot) as [h|] eqn:Eh; [|by intros [= <- _ <-]].
  destruct (negb _) eqn:V; [by intros [= <- _ <-]|].
  destruct (decrypt_all d) as [[d1 [txs|e]]| |] eqn:D; cbn [run_bind]; [|by intros [= <- _ <-]|done|done].
  destruct (execute_decrypted _ _ _ _) as [[o receipts]| |] eqn:X; cbn [run_bind]; [|done|done]. intros [= <- <- <-].
  exists h, txs. split; [done|]. split.
  { unfold verify_decryptor_against_committed_root, verify_tx_root in V. apply negb_false_iff, bool_decide_eq_true in V. exact V. }
  split; [done|]. apply execute_decrypted_spec in X as (_ & F & L). split.
  - unfold len. apply inj_le. etransitivity; [exact L|]. generalize (sender_verified s <$> bd_encrypted_txs d) as vs. clear. intros vs.
    revert txs. induction vs as [|v vs IH]; intros [|t ts]; cbn [zip zip_with fmap list_fmap fst length]; try (cbn; lia).
    specialize (IH ts). rewrite !filter_cons. case_decide; cbn [length]; [apply le_n_S|]; exact IH.
  - eapply Forall_impl; [exact F|]. intros r (tx & Hin & Er). apply list_elem_of_lookup_1 in Hin as [i Hi].
    apply lookup_zip_Some in Hi as [Hv Ht]. rewrite list_lookup_fmap in Hv. destruct (bd_encrypted_txs d !! i) as [etx|] eqn:Ee; [|done].
    injection Hv as Hv. destruct (sender_verified_key s etx Hv) as (acct & pk & Ea & Ek & Ev). by exists i, etx, tx, acct, pk.
Qed.

(** [C15] Decrypted transactions are reverted with their block.  Let the block of a
    slot have been applied and then its encrypted transactions been executed.
    Reverting to the slot before succeeds, and gives the same reads as if the
    encrypted transactions had never been executed. *)
Theorem decrypted_block_reverts (db : BlockStore) (slot : Z) (d d' : BlockDecryptor) (s s' : SM) (gas base_fee chain_id : Z)
    (proposer_addr : Address) (n : Z) (receipts : list Receipt) :
  0 < slot < 2 ^ 64 -> coherent (s, []) -> (length (block_undo_logs s) <= MAX_UNDO_DEPTH)%nat ->
  Forall (fun e => e.1 <= slot) (block_undo_logs s) -> Forall (fun e => e.1 < slot) (take 1 (block_undo_logs s)) ->
  try_decrypt_and_execute key_le fuel db slot d s gas base_fee chain_id proposer_addr = Returns (s', d', Executed n receipts) ->
  revert_alike (revert_to (slot - 1) s) (revert_to (slot - 1) s').
Proof.
  intros Hs C Hd Hl Hf. unfold try_decrypt_and_execute. destruct (get_header db slot) as [h|]; [|done]. destruct (negb _); [done|].
  destruct (decrypt_all d) as [[d1 [txs|e]]| |]; cbn [run_bind]; [|done..].
  destruct (execute_decrypted _ _ _ _) as [[o rs]| |] eqn:X; cbn [run_bind]; [|done|done]. intros [= <- _ _ _].
  apply execute_decrypted_spec in X as (Eb & _ & _). by apply settled_reverts.
Qed.

Lemma combine_rejects (shares : list DecryptionShare) (t : Z) (ct : ThresholdCiphertext) (committee : list (list Z)) (bad : DecryptionShare) :
  bad ∈ shares -> share_authentic (ciphertext_binding_hash ct) committee bad = false -> exists e, combine_shares shares t ct committee = Returns (Err e).
Proof.
  intros Hin Hb. unfold combine_shares. destruct (_ <? _); [eauto|]. destruct (existsb _ _); [eauto|]. destruct (duplicate_index _); [eauto|].
  assert (forallb (share_authentic (ciphertext_binding_hash ct) committee) shares = false) as ->; [|cbn; eauto].
  apply not_true_is_false. intros F. rewrite forallb_forall in F. rewrite F in Hb; [done|by apply list_elem_of_In].
Qed.

Lemma forged_fails (d : BlockDecryptor) (etx : EncryptedTx) (l : list DecryptionShare) (bad : DecryptionShare) :
  bd_encrypted_txs d !! 0%nat = Some etx -> bd_shares d !! 0%nat = Some l -> bad ∈ l ->
  share_authentic (ciphertext_binding_hash (ciphertext etx)) (bd_committee_keys d) bad = false ->
  exists e, decrypt_all d = Returns (d, Err e).
Proof.
  intros He Hl Hin Hb. assert (exists e, decrypt_tx_inner 0 d = Returns (Err e)) as [e E].
  { unfold decrypt_tx_inner. rewrite He, Hl. destruct (_ <? _); [eauto|]. cbn [unwrap run_bind]. unfold decrypt_payload.
    destruct (combine_rejects l (bd_threshold d) (ciphertext etx) (bd_committee_keys d) bad Hin Hb) as [e ->]. cbn. eauto. }
  unfold decrypt_all. destruct (bd_encrypted_txs d) as [|x txs]; [done|]. cbn [length seq run_collect]. rewrite E. cbn. eauto.
Qed.

Lemma feed_shares_fold (msg : DecryptionShareMsg) (d : BlockDecryptor) :
  let d' := feed_shares msg d in
  bd_encrypted_txs d' = bd_encrypted_txs d /\ bd_committee_keys d' = bd_committee_keys d /\
  forall bytes share l, NodeWire.ds_shares msg !! 0%nat = Some bytes -> ds_from_bytes bytes = Some share -> bd_shares d !! 0%nat = Some l ->
    bd_shares d' !! 0%nat = Some (push share l).
Proof.
  cbv zeta. unfold feed_shares. induction (NodeWire.ds_shares msg) as [|b bs IH] using rev_ind; [done|]. rewrite imap_app, foldl_app.
  cbn [imap foldl]. rewrite Nat.add_0_r. set (d1 := foldl _ d (imap pair bs)) in *. destruct IH as (E1 & E2 & E3). unfold feed_share.
  assert (forall s, let d2 := (add_share (length bs) s d1).1 in bd_encrypted_txs d2 = bd_encrypted_txs d /\ bd_committee_keys d2 = bd_committee_keys d) as F.
  { intros s. destruct (add_share_frame (length bs) s d1) as (F1 & F2 & F3). split; congruence. }
  split; [destruct (ds_from_bytes b); [apply F|done]|]. split; [destruct (ds_from_bytes b); [apply F|done]|].
  intros bytes share l Hb Hs Hl. destruct bs as [|b0 bs].
  - cbn in Hb. injection Hb as ->. rewrite Hs, add_share_lookup. cbn [length]. rewrite decide_True by done. cbn in d1. unfold d1. by rewrite Hl.
  - specialize (E3 bytes share l Hb Hs Hl). destruct (ds_from_bytes b); [|done]. rewrite add_share_lookup, decide_False by done. by rewrite E3.
Qed.

(** [C40] Finding: one forged share loses a block's encrypted transactions.  Shares
    from the network enter a decryptor without a check of their signature; only
    their index must be new.  If the message that completes a decryptor brings a
    share that does not verify, whoever made it up, the attempt fails, the state
    stays as it was, and the decryptor is dropped with the honest shares in it:
    later messages for the slot, honest or not, are only queued. *)
Theorem forged_share_discards_block (db : BlockStore) (gas base_fee chain_id : Z) (msg : DecryptionShareMsg) (p : DecryptionPool) (s : SM)
    (d : BlockDecryptor) (etx : EncryptedTx) (l : list DecryptionShare) (bytes : list Z) (bad : DecryptionShare) :
  pending_decryptors p !! ds_slot msg = Some d -> bd_encrypted_txs d !! 0%nat = Some etx -> bd_shares d !! 0%nat = Some l ->
  NodeWire.ds_shares msg !! 0%nat = Some bytes -> ds_from_bytes bytes = Some bad -> ds_index bad ∉ ds_index <$> l ->
  share_authentic (ciphertext_binding_hash (ciphertext etx)) (bd_committee_keys d) bad = false ->
  all_ready (feed_shares msg d) = true ->
  exists p' out, add_decryption_shares key_le fuel db gas base_fee chain_id msg p s = Returns (p', s, Some out) /\
    (forall n receipts, out <> Executed n receipts) /\
    forall later, ds_slot later = ds_slot msg ->
      exists p'', add_decryption_shares key_le fuel db gas base_fee chain_id later p' s = Returns (p'', s, None) /\
        pending_decryptors p'' = pending_decryptors p'.
Proof.
  intros Hp He Hl Hb Hs Hi Ha R. destruct (feed_shares_fold msg d) as (E1 & E2 & E3). specialize (E3 bytes bad l Hb Hs Hl).
  rewrite push_spec, decide_False in E3 by done. set (d1 := feed_shares msg d) in *.
  assert (exists e, decrypt_all d1 = Returns (d1, Err e)) as [e D].
  { eapply (forged_fails d1 etx (l ++ [bad]) bad); [by rewrite E1|done|set_solver|by rewrite E2]. }
  exists (mkDecPool (delete (ds_slot msg) (pending_decryptors p)) (queued_shares p)).
  assert (exists out, try_decrypt_and_execute key_le fuel db (ds_slot msg) d1 s gas base_fee chain_id (share_proposer db (ds_slot msg)) =
            Returns (s, d1, out) /\ forall n receipts, out <> Executed n receipts) as (out & T & N).
  { unfold try_decrypt_and_execute. destruct (get_header _ _); [|by eexists]. destruct (negb _); [by eexists|]. rewrite D. by eexists. }
  exists out. split; [|split; [done|]].
  - unfold add_decryption_shares. rewrite Hp. fold d1. rewrite R, T. done.
  - intros later El. unfold add_decryption_shares. cbn [pending_decryptors queued_shares]. rewrite El, lookup_delete_eq. by eexists.
Qed.
End Settle.

(** ** A block, decrypted *)

Definition toy_keys : list (list Z) := replicate 3 [].
Definition toy_member (i : Z) : Member := (default (mkKeyShare 0 []) (toy_genesis.2 !! Z.to_nat (i - 1)), toy_sign).
Definition toy_holder (i : Z) : ShareHolder := mkHolder i (toy_member i).2 (Some (toy_member i).1).

(** Alice sends bob 500; her signature is over the encrypted form. *)
Definition toy_seal (signature : list Z) : EncryptedTx :=
  ok_of (mkEtx [] 0 0 [] None 0 [] (mkCiphertext [] [] []))
    (encrypt_transaction alice 0 30000 [] None DEVNET signature bob 500 [] toy_genesis.1 [1; 2; 3]).
Definition sealed_etx : EncryptedTx := toy_seal (ok_of [] (toy_sign (etx_hash (toy_seal [])))).
Definition toy_tx : Transaction := Tx.mkTx alice bob 500 [] 30000 0 (etx_signature sealed_etx) Sender [] None DEVNET Standard.

Definition toy_shares_of (i : Z) : list DecryptionShare := default [] (returned None (generate_decryption_shares (toy_holder i) [sealed_etx])).
Definition toy_message (i : Z) : DecryptionShareMsg := share_message 1 (toy_holder i) (toy_shares_of i).

(** A decryptor with the shares of 3, and with those of 1 too, twice sent. *)
Definition toy_opened : BlockDecryptor := ok_of (mkDecryptor [] [] 0 [] []) (BlockDecryptor_new [sealed_etx] 2 toy_keys).
Definition toy_short : BlockDecryptor := (returned (toy_opened, 0) (add_member_shares (toy_member 3).1 toy_sign toy_opened)).1.
Definition toy_ready : BlockDecryptor := feed_shares (toy_message 1) (feed_shares (toy_message 1) toy_short).

Lemma toy_honest (i : Z) : 1 <= i <= 3 -> ks_index (toy_member i).1 = i -> honest toy_keys (toy_member i).
Proof.
  intros Hi Ei ct shares. rewrite Ei. cbn [toy_member snd]. unfold toy_sign. set (msg := share_preimage _ i shares).
  assert (length msg = 72%nat) as L by (unfold msg, share_preimage, ciphertext_binding_hash; by rewrite !length_app, !poseidon2_hash_length, length_le_encode).
  eexists _, []. split; [reflexivity|]. rewrite L. split.
  - unfold FalconSignature_from_bytes, len. by rewrite length_app, length_replicate, L.
  - split; [unfold toy_keys; apply lookup_replicate; split; [done|lia]|]. unfold falcon_verify. cbn [fn_dsa_verify toy_primitives].
    apply bool_decide_eq_true. by apply take_app_length.
Qed.

Lemma toy_collected : collects toy_keys [sealed_etx] 2 (toy_member <$> [3; 1]) toy_ready.
Proof.
  assert (generate_decryption_shares (toy_holder 1) [sealed_etx] = Returns (Some (toy_shares_of 1))) as G by (vm_compute; reflexivity).
  apply (collected_repeat toy_keys [sealed_etx] 2 [toy_member 3; toy_member 1] (feed_shares (toy_message 1) toy_short) (toy_member 1) 1 1 (toy_shares_of 1));
    [|right; left|exact G].
  apply (collected_message toy_keys [sealed_etx] 2 [toy_member 3] toy_short (toy_member 1) 1 1 (toy_shares_of 1)); [| |exact G].
  - apply (collected_own toy_keys [sealed_etx] 2 [] toy_opened (toy_member 3) toy_short 1); [|apply not_elem_of_nil|vm_compute; reflexivity].
    apply collected_new. vm_compute. reflexivity.
  - assert (ks_index (toy_member 3).1 = 3 /\ ks_index (toy_member 1).1 = 1) as [E3 E1] by (vm_compute; split; reflexivity).
    unfold indices. cbn [fmap list_fmap]. rewrite E3, E1. clear. intros [=]%list_elem_of_singleton.
Qed.

Lemma committee_decrypts_block_witness :
  all_ready toy_short = false /\ all_ready toy_ready = true /\ exists d', decrypt_all toy_ready = Returns (d', Ok [toy_tx]).
Proof.
  split; [vm_compute; reflexivity|].
  apply (committee_decrypts_block toy_rng toy_genesis.1 2 toy_genesis.2 (toy_member <$> [3; 1]) toy_keys [toy_tx] [sealed_etx] toy_ready).
  - apply (custody_generated toy_rng 3 2); [discriminate|]. vm_compute. reflexivity.
  - assert (forallb (fun i => bool_decide (ks_index (toy_member i).1 = i /\ is_Some (toy_genesis.2 !! Z.to_nat (i - 1)))) [3; 1] = true) as G
      by (vm_compute; reflexivity).
    rewrite forallb_forall in G. apply Forall_fmap, Forall_forall. intros i Hi. cbn [compose].
    assert (1 <= i <= 3) as Hr by (clear -Hi; set_solver by lia).
    apply list_elem_of_In, G, bool_decide_eq_true in Hi as [Ei [ks Hk]]. split; [|by apply toy_honest].
    unfold toy_member. cbn [fst]. rewrite Hk. by eapply list_elem_of_lookup_2.
  - constructor; [|constructor]. split; [reflexivity|]. split; [reflexivity|]. split; [reflexivity|]. split; [split; [discriminate|reflexivity]|].
    exists [1; 2; 3]. split; [intros seed H; by eapply toy_kem_recovers|]. vm_compute. reflexivity.
  - apply toy_collected.
  - discriminate.
Defined.

(** Alice has registered a key; the store has a header that commits to her transaction. *)
Definition keyed_alice : Account :=
  let a := funded alice 100000 in
  mkAccount (address a) (Account.nonce a) (balance a) (code_hash a) (storage_root a) (account_type a) (Single (replicate 897 0)) (gas_tank a) (key_nonce a).
Definition toy_header (root : list Z) : BlockHeader := mkHeader 1 0 H256_zero bob [] QuorumCert_empty root H256_zero 100.
Definition toy_db : BlockStore := put_header (toy_header (compute_tx_root [] [etx_hash sealed_etx])) ∅.
Definition toy_node : StateManager MapState := sm_open (with_account keyed_alice PydeSMT_new).

Definition decrypt_toy (d : BlockDecryptor) : Run (StateManager MapState * BlockDecryptor * DecryptOutcome) :=
  try_decrypt_and_execute any_order 0 toy_db 1 d toy_node 1000000 1 DEVNET bob.

Definition toy_executed (r : Run (StateManager MapState * BlockDecryptor * DecryptOutcome)) : option (Z * Z * Z) :=
  match r with
  | Returns (s, _, Executed n receipts) => Some (n, len receipts, balance (load_account s bob))
  | _ => None
  end.

Lemma decrypted_execution_signed_witness :
  exists s' d' n receipts, decrypt_toy toy_ready = Returns (s', d', Executed n receipts) /\ n = 1 /\ len receipts = 1 /\
    balance (load_account s' bob) = 500 /\
    exists h txs, get_header toy_db 1 = Some h /\ decrypt_all toy_ready = Returns (d', Ok txs) /\
      Forall (fun r => exists tx, tx ∈ txs /\ rc_tx_hash r = tx_hash tx) receipts.
Proof.
  assert (toy_executed (decrypt_toy toy_ready) = Some (1, 1, 500)) as E by (vm_compute; reflexivity).
  destruct (decrypt_toy toy_ready) as [[[s' d'] [n receipts| | |e]]| |] eqn:R; [|discriminate E..].
  unfold decrypt_toy in R.
  pose proof (decrypted_execution_signed any_order 0 toy_db 1 toy_ready d' toy_node s' 1000000 1 DEVNET bob (Executed n receipts) R) as (h & txs & Eh & _ & D & _ & F).
  cbn [toy_executed] in E. injection E as E1 E2 E3.
  exists s', d', n, receipts. do 4 (split; [first [reflexivity|exact E1|exact E2|exact E3]|]). exists h, txs. split; [exact Eh|]. split; [exact D|].
  eapply Forall_impl; [exact F|]. intros r (i & etx & tx & acct & pk & _ & Ht & Er & _). exists tx. split; [|exact Er]. by eapply list_elem_of_lookup_2.
Defined.

(** The block's own log, empty, is of the slot; an older one is of slot 0. *)
Definition toy_logged : StateManager MapState := record_block_undo 1 [] (record_block_undo 0 [] toy_node).

Lemma decrypted_block_reverts_witness :
  exists s' d' n receipts,
    try_decrypt_and_execute any_order 0 toy_db 1 toy_ready toy_logged 1000000 1 DEVNET bob = Returns (s', d', Executed n receipts) /\
    balance (load_account s' bob) = 500 /\ revert_alike (revert_to 0 toy_logged) (revert_to 0 s').
Proof.
  assert (toy_executed (try_decrypt_and_execute any_order 0 toy_db 1 toy_ready toy_logged 1000000 1 DEVNET bob) = Some (1, 1, 500)) as E
    by (vm_compute; reflexivity).
  destruct (try_decrypt_and_execute any_order 0 toy_db 1 toy_ready toy_logged 1000000 1 DEVNET bob) as [[[s' d'] [n receipts| | |e]]| |] eqn:R; [|discriminate E..].
  exists s', d', n, receipts. split; [reflexivity|]. cbn [toy_executed] in E. injection E as _ _ E. split; [exact E|].
  apply (decrypted_block_reverts any_order 0 toy_db 1 toy_ready d' toy_logged s' 1000000 1 DEVNET bob n receipts).
  - split; reflexivity.
  - intros k. unfold coherent_at. cbn. by rewrite lookup_empty.
  - vm_compute. lia.
  - constructor; [discriminate|constructor; [discriminate|constructor]].
  - constructor; [reflexivity|constructor].
  - exact R.
Defined.

(** A share of nobody, with index 200 and an empty signature. *)
Definition forged_share : DecryptionShare := mkDecShare 200 [] [].

Lemma forged_share_discards_block_witness :
  let p := mkDecPool {[1 := toy_short]} ∅ in
  let msg := mkShares 1 0 [ds_to_bytes forged_share] in
  exists p' out, add_decryption_shares any_order 0 toy_db 1000000 1 DEVNET msg p toy_node = Returns (p', toy_node, Some out) /\
    (forall n receipts, out <> Executed n receipts) /\
    exists p'', add_decryption_shares any_order 0 toy_db 1000000 1 DEVNET (toy_message 1) p' toy_node = Returns (p'', toy_node, None).
Proof.
  intros p msg.
  assert (exists l, bd_shares toy_short !! 0%nat = Some l /\ ds_index <$> l = [3]) as (l & Hl & Ei) by (eexists; split; vm_compute; reflexivity).
  destruct (forged_share_discards_block any_order 0 toy_db 1000000 1 DEVNET msg p toy_node toy_short sealed_etx l (ds_to_bytes forged_share) forged_share)
    as (p' & out & E & N & L); [apply lookup_singleton_eq|vm_compute; reflexivity|exact Hl|reflexivity|vm_compute; reflexivity|
      rewrite Ei; clear; set_solver|vm_compute; reflexivity|vm_compute; reflexivity|].
  assert (ds_slot (toy_message 1) = ds_slot msg) as Es by (unfold toy_message, share_message, msg; cbn [ds_slot]; reflexivity).
  exists p', out. split; [exact E|]. split; [exact N|]. destruct (L (toy_message 1) Es) as (p'' & E' & _). exists p''. exact E'.
Defined.
