(* ===== verification/BlockBuilder.v ===== *)
(** * Building a block

    The proposer's choice of plaintext transactions ([node/src/block_builder.rs]),
    the slashing transactions put before them and the admission of gossiped
    transactions ([node/src/node.rs], [node/src/validator.rs]), and the builder of
    [mempool/src/block_builder.rs] for encrypted ones.  A [BTreeMap] is a finite
    map whose entries are listed in the order of its keys.  The loops take fuel;
    one more than the number of transactions is enough, as the theorems show. *)

From stdpp Require Import base numbers list option gmap strings sets sorting relations.
From Stdlib Require Import ZArith Lia.
From S2P Require Import Prelude Crypto Wire Keys Nonce Account Economics Airdrop Multisig State StateManager Transaction Scheduler Validation.
From S2P Require Import Execution Store Handlers Pipeline Chain ViewChange Codec NodeWire Encrypted Mempool BlockCheck.

#[local] Open Scope Z_scope.
#[local] Open Scope pyde_scope.

(** The order of byte arrays. *)
Fixpoint bytes_le (a b : list Z) : bool :=
  match a, b with
  | [], _ => true
  | _ :: _, [] => false
  | x :: a', y :: b' => if x <? y then true else if y <? x then false else bytes_le a' b'
  end.

Section Group.
Context {A : Type} (sender : A -> Address).

Definition group_push (m : gmap Address (list A)) (a : A) : gmap Address (list A) :=
  <[sender a := default [] (m !! sender a) ++ [a]]> m.

Definition entry_le (p q : Address * list A) : Prop := bytes_le p.1 q.1 = true.
#[export] Instance entry_le_dec : RelDecision entry_le := fun p q => decide (bytes_le p.1 q.1 = true).

(** The transactions by sender, in the order of the senders. *)
Definition by_sender (l : list A) : list (Address * list A) := merge_sort entry_le (map_to_list (foldl group_push ∅ l)).

End Group.

(** ** Plaintext transactions *)

Definition SENDER_CAP : nat := 16.

Record Picked : Type := mkPicked { pk_selected : list Transaction; pk_gas : Z; any_taken : bool }.

Section Plain.
Context (block_gas_limit max_count : Z).

(** One pass through the queues; [gas_used + gas_limit] wraps. *)
Fixpoint pass (qs : list (list Transaction)) (p : Picked) : list (list Transaction) * Picked :=
  match qs with
  | [] => ([], p)
  | q :: rest =>
      if max_count <=? len (pk_selected p) then (qs, p)
      else
        match q with
        | [] => let '(rest, p) := pass rest p in (q :: rest, p)
        | tx :: q' =>
            let gas := wrap u64 (pk_gas p + Tx.gas_limit tx) in
            if block_gas_limit <? gas then let '(rest, p) := pass rest p in (q :: rest, p)
            else
              let p := mkPicked (pk_selected p ++ [tx]) gas true in
              if block_gas_limit <=? gas then (q' :: rest, p)
              else let '(rest, p) := pass rest p in (q' :: rest, p)
        end
  end.

Fixpoint passes (fuel : nat) (qs : list (list Transaction)) (selected : list Transaction) (gas_used : Z) :
    option (list (list Transaction) * list Transaction) :=
  match fuel with
  | O => None
  | S fuel =>
      let '(qs, p) := pass qs (mkPicked selected gas_used false) in
      if negb (any_taken p) || (block_gas_limit <=? pk_gas p) || (max_count <=? len (pk_selected p))
      then Some (qs, pk_selected p)
      else passes fuel qs (pk_selected p) (pk_gas p)
  end.

(** The selected and the remaining transactions. *)
Definition build_tx_list (pending : list Transaction) : option (list Transaction * list Transaction) :=
  let sorted := sort_by_key Tx.nonce <$> (by_sender Tx.from pending).*2 in
  let overflow := concat (drop SENDER_CAP <$> sorted) in
  '(qs, selected) ← passes (S (length pending)) (take SENDER_CAP <$> sorted) [] 0;
  Some (selected, overflow ++ concat qs).
End Plain.

(** ** The proposal *)

(** A slashing transaction for each piece of evidence that can be signed. *)
Fixpoint slash_txs {P : Primitives} (address : Address) (sign : Signer) (chain_id next_nonce : Z) (pending_evidence : list SlashEvidence) :
    list Transaction :=
  match pending_evidence with
  | [] => []
  | ev :: rest =>
      let ev := mkEvidence (ev_slot ev) (block_hash_1 ev) (signature_1 ev) (block_hash_2 ev) (signature_2 ev) (signer ev) address in
      let unsigned := Tx.mkTx address (replicate 32 0) 0 (encode_double_sign_evidence ev) 300000 next_nonce [] Sender [] None chain_id Slash in
      match sign (tx_hash unsigned) with
      | Err _ => slash_txs address sign chain_id next_nonce rest
      | Ok sig =>
          Tx.mkTx address (replicate 32 0) 0 (encode_double_sign_evidence ev) 300000 next_nonce sig Sender [] None chain_id Slash ::
          slash_txs address sign chain_id (saturating_add u64 next_nonce 1) rest
      end
  end.

(** The plaintext part of a proposal: slashing first. *)
Definition proposal_txs {P : Primitives} (address : Address) (sign : Signer) (chain_id base_nonce gas_ceiling : Z)
    (pending_evidence : list SlashEvidence) (pending : list Transaction) : option (list Transaction) :=
  '(txs, _) ← build_tx_list gas_ceiling MAX_TXS_PER_BLOCK pending;
  Some (slash_txs address sign chain_id base_nonce pending_evidence ++ txs).

(** ** Gossiped transactions *)

Definition GOSSIP_MEMPOOL_GLOBAL_CAP : Z := 100000.

Section Gossip.
Context {P : Primitives} {J : Type} `{StateAccess J}.

(** A signature that is there, of a sender with one registered key, is checked. *)
Definition gossip_signature_ok (s : StateManager J) (chain_id : Z) (tx : Transaction) : bool :=
  if (chain_id =? 31337) || bool_decide (Tx.signature tx = []) then true
  else
    match auth_keys <$> stored_account s (Tx.from tx) with
    | Some (Single pk) => Transaction.verify_signature tx pk
    | _ => true
    end.

Definition accept_transaction (tx : Transaction) (pending : gmap (list Z) Transaction) : gmap (list Z) Transaction :=
  if GOSSIP_MEMPOOL_GLOBAL_CAP <=? Z.of_nat (size pending) then pending
  else if existsb (fun t => bool_decide (Tx.from t = Tx.from tx) && (Tx.nonce t =? Tx.nonce tx)) (map_to_list pending).*2 then pending
  else <[tx_hash tx := tx]> pending.

Definition on_gossiped_tx (s : StateManager J) (chain_id : Z) (data : list Z) (pending : gmap (list Z) Transaction) :
    gmap (list Z) Transaction :=
  match decode_transaction data with
  | Err _ => pending
  | Ok tx => if gossip_signature_ok s chain_id tx then accept_transaction tx pending else pending
  end.
End Gossip.

(** ** Encrypted transactions *)

Record ConstructedBlock : Type := mkConstructed {
  cb_transactions : list EncryptedTx;
  execution_schedule : list (list nat);
  cb_total_gas : Z;
  shuffle_permutation : list nat
}.

(** One round over the senders' queues: a transaction that does not fit ends its
    sender's turn for good. *)
Fixpoint take_round (block_gas_limit : Z) (qs : list (list EncryptedTx)) (selected : list EncryptedTx) (gas_used : Z) (progress : bool) :
    list (list EncryptedTx) * list EncryptedTx * Z * bool :=
  match qs with
  | [] => ([], selected, gas_used, progress)
  | [] :: rest =>
      let '(rest, selected, gas_used, progress) := take_round block_gas_limit rest selected gas_used progress in
      ([] :: rest, selected, gas_used, progress)
  | (tx :: q) :: rest =>
      if block_gas_limit <? saturating_add u64 gas_used (etx_gas_limit tx) then
        let '(rest, selected, gas_used, progress) := take_round block_gas_limit rest selected gas_used progress in
        ([] :: rest, selected, gas_used, progress)
      else
        let '(rest, selected, gas_used, progress) :=
          take_round block_gas_limit rest (selected ++ [tx]) (wrap u64 (gas_used + etx_gas_limit tx)) true in
        (q :: rest, selected, gas_used, progress)
  end.

Fixpoint take_rounds (fuel : nat) (block_gas_limit : Z) (qs : list (list EncryptedTx)) (selected : list EncryptedTx) (gas_used : Z) :
    option (list EncryptedTx) :=
  match fuel with
  | O => None
  | S fuel =>
      let '(qs, selected, gas_used, progress) := take_round block_gas_limit qs selected gas_used false in
      if progress then take_rounds fuel block_gas_limit qs selected gas_used else Some selected
  end.

Definition select_and_order (m : Mempool) (block_gas_limit current_slot : Z) : option (list EncryptedTx) :=
  let live := filter (fun tx => is_expired tx current_slot = false) (Mempool.txs m) in
  take_rounds (S (length live)) block_gas_limit (sort_by_key etx_nonce <$> (by_sender etx_sender live).*2) [] 0.

Definition build_block {P : Primitives} (m : Mempool) (block_gas_limit current_slot : Z) (vrf_output : list Z) : option ConstructedBlock :=
  ordered ← select_and_order m block_gas_limit current_slot;
  match ordered with
  | [] => Some (mkConstructed [] [] 0 [])
  | _ =>
      let permutation := vrf_shuffle (length ordered) (shuffle_seed vrf_output) in
      shuffled ← apply_shuffle ordered permutation;
      Some (mkConstructed shuffled (schedule_from_access_lists (etx_access_list <$> shuffled))
              (foldl (fun g tx => wrap u64 (g + etx_gas_limit tx)) 0 ordered) permutation)
  end.
