(* ===== verification/BlockBuilderProps.v ===== *)
(** * What a proposer's block holds

    Theorems about [BlockBuilder]: the plaintext transactions of a proposal are a
    fair choice within the limits the other validators check, except when slashing
    transactions are added or gas limits overflow. *)

From stdpp Require Import base numbers list option gmap strings sets sorting relations.
From Stdlib Require Import ZArith Lia.
From S2P Require Import Prelude Crypto Wire Keys Nonce Account Economics Airdrop Multisig State StateManager Transaction Scheduler Validation.
From S2P Require Import Execution Store Handlers Pipeline Chain ViewChange Codec NodeWire Encrypted Mempool MempoolProps BlockCheck BlockBuilder.

#[local] Open Scope Z_scope.
#[local] Open Scope pyde_scope.

(** ** Grouping *)

Section Group.
Context {A : Type} (sender : A -> Address).

Definition of_sender (s : Address) (l : list A) : list A := filter (fun a => sender a = s) l.

Lemma group_lookup (l : list A) (s : Address) :
  foldl (group_push sender) ∅ l !! s = if decide (of_sender s l = []) then None else Some (of_sender s l).
Proof.
  induction l as [|a l IH] using rev_ind; [done|]. rewrite foldl_app. cbn [foldl]. unfold group_push, of_sender in *. rewrite filter_app.
  rewrite (filter_cons (fun a => sender a = s)), filter_nil. destruct (decide (sender a = s)) as [<-|N].
  - rewrite lookup_insert_eq, IH. case_decide as E.
    + rewrite E. cbn [default app]. by rewrite decide_False.
    + cbn [default]. rewrite decide_False; [done|]. intros [??]%app_nil. done.
  - by rewrite lookup_insert_ne, IH, app_nil_r.
Qed.

Lemma by_sender_elem (l : list A) (s : Address) (q : list A) : (s, q) ∈ by_sender sender l <-> q = of_sender s l /\ q <> [].
Proof.
  unfold by_sender. rewrite merge_sort_Permutation, elem_of_map_to_list, group_lookup. case_decide; naive_solver.
Qed.

Lemma by_sender_nodup (l : list A) : NoDup (by_sender sender l).*1.
Proof. unfold by_sender. rewrite merge_sort_Permutation. apply NoDup_fst_map_to_list. Qed.

Lemma group_push_perm (m : gmap Address (list A)) (a : A) :
  concat (map_to_list (group_push sender m a)).*2 ≡ₚ a :: concat (map_to_list m).*2.
Proof.
  unfold group_push. destruct (m !! sender a) as [q|] eqn:E; cbn [default].
  - rewrite <- (insert_delete_id m (sender a) q E) at 2. rewrite <- insert_delete_eq.
    rewrite !map_to_list_insert by apply lookup_delete_eq. cbn. rewrite <- app_assoc. symmetry. apply Permutation_middle.
  - rewrite map_to_list_insert by done. cbn. done.
Qed.

Lemma by_sender_perm (l : list A) : concat (by_sender sender l).*2 ≡ₚ l.
Proof.
  unfold by_sender. rewrite merge_sort_Permutation. induction l as [|a l IH] using rev_ind; [done|].
  rewrite foldl_app. cbn [foldl]. rewrite group_push_perm, IH. apply Permutation_cons_append.
Qed.

End Group.

(** ** One transaction at a time *)

Definition gas_of (l : list Transaction) : Z := foldr (fun tx g => Tx.gas_limit tx + g) 0 l.

Definition BuildState : Type := list (list Transaction) * list Transaction * Z.

Section Pick.
Context (limit max : Z).

(** The front of a queue is selected, if it fits. *)
Inductive pick : BuildState -> BuildState -> Prop :=
| pick_front pre tx q post sel gas :
    len sel < max -> wrap u64 (gas + Tx.gas_limit tx) <= limit ->
    pick (pre ++ (tx :: q) :: post, sel, gas) (pre ++ q :: post, sel ++ [tx], wrap u64 (gas + Tx.gas_limit tx)).

Definition blocked (gas : Z) (q : list Transaction) : Prop :=
  match q with [] => True | tx :: _ => limit < wrap u64 (gas + Tx.gas_limit tx) end.

Lemma pass_picks (pre qs qs' : list (list Transaction)) (p p' : Picked) :
  pass limit max qs p = (qs', p') -> rtc pick (pre ++ qs, pk_selected p, pk_gas p) (pre ++ qs', pk_selected p', pk_gas p').
Proof.
  revert pre qs' p p'. induction qs as [|q qs IH]; intros pre qs' p p'; cbn [pass]; [by intros [= <- <-]|].
  destruct (Z.leb_spec max (len (pk_selected p))) as [|L]; [by intros [= <- <-]|].
  assert (forall q0 p0, (let '(rest, p1) := pass limit max qs p0 in (q0 :: rest, p1)) = (qs', p') ->
            rtc pick (pre ++ q0 :: qs, pk_selected p0, pk_gas p0) (pre ++ qs', pk_selected p', pk_gas p')) as Next.
  { intros q0 p0. destruct (pass limit max qs p0) as [rest p1] eqn:E. intros [= <- <-].
    pose proof (IH (pre ++ [q0]) _ _ _ E) as R. by rewrite <- !app_assoc in R. }
  destruct q as [|tx q]; [apply Next|]. destruct (Z.ltb_spec limit (wrap u64 (pk_gas p + Tx.gas_limit tx))) as [|G]; [apply Next|].
  pose proof (pick_front pre tx q qs (pk_selected p) (pk_gas p) L G) as Step. destruct (_ <=? _).
  - intros [= <- <-]. by apply rtc_once.
  - intros E. eapply rtc_l; [exact Step|]. exact (Next q (mkPicked _ _ true) E).
Qed.

Lemma pass_taken (qs qs' : list (list Transaction)) (p p' : Picked) :
  pass limit max qs p = (qs', p') ->
  (any_taken p = true -> any_taken p' = true) /\ (length (pk_selected p) <= length (pk_selected p'))%nat /\
  (any_taken p = false -> any_taken p' = true -> length (pk_selected p) < length (pk_selected p'))%nat /\
  (any_taken p = false -> any_taken p' = false -> qs' = qs /\ p' = p /\ (max <= len (pk_selected p) \/ Forall (blocked (pk_gas p)) qs)).
Proof.
  revert qs' p p'. induction qs as [|q qs IH]; intros qs' p p'; cbn [pass].
  { intros [= <- <-]. split; [done|]. split; [done|]. split; [congruence|]. intros _ _. split; [done|]. split; [done|]. right. constructor. }
  destruct (Z.leb_spec max (len (pk_selected p))) as [M|M].
  { intros [= <- <-]. split; [done|]. split; [done|]. split; [congruence|]. intros _ _. split; [done|]. split; [done|by left]. }
  assert (blocked (pk_gas p) q -> (let '(rest, p1) := pass limit max qs p in (q :: rest, p1)) = (qs', p') ->
    (any_taken p = true -> any_taken p' = true) /\ (length (pk_selected p) <= length (pk_selected p'))%nat /\
    (any_taken p = false -> any_taken p' = true -> length (pk_selected p) < length (pk_selected p'))%nat /\
    (any_taken p = false -> any_taken p' = false -> qs' = q :: qs /\ p' = p /\ (max <= len (pk_selected p) \/ Forall (blocked (pk_gas p)) (q :: qs)))) as Skip.
  { intros B. destruct (pass limit max qs p) as [rest p1] eqn:E. intros [= <- <-]. destruct (IH _ _ _ E) as (E1 & E2 & E3 & E4).
    split; [done|]. split; [done|]. split; [done|]. intros Hp Hp'. destruct (E4 Hp Hp') as (-> & -> & [|F]); [naive_solver|].
    split; [done|]. split; [done|]. right. by constructor. }
  destruct q as [|tx q]; [by apply Skip|]. destruct (Z.ltb_spec limit (wrap u64 (pk_gas p + Tx.gas_limit tx))) as [B|_]; [by apply Skip|].
  set (p2 := mkPicked (pk_selected p ++ [tx]) _ true). assert (length (pk_selected p2) = S (length (pk_selected p))) as L
    by (unfold p2; cbn; rewrite length_app; cbn; lia).
  destruct (_ <=? _).
  - intros [= <- <-]. split; [done|]. split; [lia|]. split; [intros; lia|done].
  - destruct (pass limit max qs p2) as [rest p1] eqn:E. intros [= <- <-]. destruct (IH _ _ _ E) as (E1 & E2 & _).
    specialize (E1 eq_refl). split; [done|]. split; [lia|]. split; [intros; lia|congruence].
Qed.

Lemma pick_length (x y : BuildState) : rtc pick x y ->
  (length (concat y.1.1) + length y.1.2 = length (concat x.1.1) + length x.1.2)%nat.
Proof.
  induction 1 as [x|x y z S _ IH]; [done|]. rewrite IH. destruct S. cbn. rewrite !concat_app, !length_app. cbn. rewrite !length_app. lia.
Qed.

(** The passes end, after transactions picked one at a time. *)
Lemma passes_end (fuel : nat) (qs : list (list Transaction)) (sel : list Transaction) (gas : Z) :
  (length (concat qs) < fuel)%nat ->
  exists qs' sel' gas', passes limit max fuel qs sel gas = Some (qs', sel') /\ rtc pick (qs, sel, gas) (qs', sel', gas') /\
    (max <= len sel' \/ limit <= gas' \/ Forall (blocked gas') qs').
Proof.
  revert qs sel gas. induction fuel as [|fuel IH]; intros qs sel gas Hf; [lia|]. cbn [passes].
  destruct (pass limit max qs (mkPicked sel gas false)) as [qs1 p1] eqn:E. pose proof (pass_picks [] _ _ _ _ E) as R. cbn in R.
  destruct (pass_taken _ _ _ _ E) as (_ & _ & T & I). cbn [any_taken pk_selected pk_gas] in T, I.
  destruct (any_taken p1) eqn:Ta; cbn [negb orb].
  - destruct (Z.leb_spec limit (pk_gas p1)) as [G|G]; cbn [orb].
    { exists qs1, (pk_selected p1), (pk_gas p1). auto. }
    destruct (Z.leb_spec max (len (pk_selected p1))) as [M|M].
    { exists qs1, (pk_selected p1), (pk_gas p1). auto. }
    pose proof (pick_length _ _ R) as L. cbn in L. specialize (T eq_refl eq_refl).
    destruct (IH qs1 (pk_selected p1) (pk_gas p1)) as (qs' & sel' & gas' & E' & R' & D); [lia|].
    exists qs', sel', gas'. split; [done|]. split; [by etransitivity|done].
  - destruct (I eq_refl eq_refl) as (-> & -> & D). exists qs, sel, gas. cbn. naive_solver.
Qed.
End Pick.

(** ** What is built *)

Lemma gas_of_app (l k : list Transaction) : gas_of (l ++ k) = gas_of l + gas_of k.
Proof. unfold gas_of. induction l as [|t l IH]; [done|]. cbn [app foldr]. rewrite IH. lia. Qed.

Section Build.
Context (limit max : Z) (ss : list Address) (qs0 : list (list Transaction)).
Context (Hs : NoDup ss) (Hl : length qs0 = length ss).
Context (Hq : forall i s q, ss !! i = Some s -> qs0 !! i = Some q -> Forall (fun tx => Tx.from tx = s) q).
Context (Hg : Forall (fun tx => 0 <= Tx.gas_limit tx /\ limit + Tx.gas_limit tx < 2 ^ 64) (concat qs0)).

(** A prefix of each queue is selected, within the limits. *)
Record partial (st : BuildState) : Prop := {
  pa_len : length st.1.1 = length ss;
  pa_queue i s q0 q : ss !! i = Some s -> qs0 !! i = Some q0 -> st.1.1 !! i = Some q -> q0 = of_sender Tx.from s st.1.2 ++ q;
  pa_perm : st.1.2 ++ concat st.1.1 ≡ₚ concat qs0;
  pa_count : len st.1.2 <= max;
  pa_total : st.2 = gas_of st.1.2;
  pa_gas : 0 <= st.2 <= limit
}.

Lemma partial_start : 0 <= limit -> 0 <= max -> partial (qs0, [], 0).
Proof. intros. split; cbn; try done. intros i s q0 q _ H1 H2. congruence. Qed.

Lemma pick_partial (x y : BuildState) : pick limit max x y -> partial x -> partial y.
Proof.
  intros [pre tx q post sel gas L G] [E1 E2 E3 E4 E5 E6]. cbn [fst snd] in *.
  assert (tx ∈ concat qs0) as Hin by (rewrite <- E3, concat_app; cbn; set_solver).
  rewrite Forall_forall in Hg. destruct (Hg tx Hin) as [G1 G2]. rewrite wrap_small in * by (unfold in_range; lia).
  assert (ss !! length pre = Some (Tx.from tx)) as Hi.
  { destruct (lookup_lt_is_Some_2 ss (length pre)) as [s Es]; [rewrite <- E1, length_app; cbn; lia|].
    destruct (lookup_lt_is_Some_2 qs0 (length pre)) as [q0 Eq]; [rewrite Hl; by eapply lookup_lt_Some|].
    pose proof (E2 _ s q0 (tx :: q) Es Eq (list_lookup_middle pre _ _ _ eq_refl)) as ->.
    pose proof (Hq _ _ _ Es Eq) as F. apply Forall_app in F as [_ [F _]%Forall_cons]. by rewrite Es, F. }
  split; cbn [fst snd].
  - rewrite <- E1, !length_app. done.
  - intros i s q0 q1 Es Eq Hl1. unfold of_sender. rewrite filter_app, filter_cons, filter_nil. destruct (decide (i = length pre)) as [->|N].
    + rewrite list_lookup_middle in Hl1 by done. injection Hl1 as <-. rewrite Hi in Es. injection Es as <-. rewrite decide_True by done.
      rewrite <- app_assoc. cbn [app]. apply (E2 _ _ _ _ Hi Eq). by apply list_lookup_middle.
    + rewrite decide_False, app_nil_r.
      * apply (E2 _ _ _ _ Es Eq). destruct (decide (i < length pre)%nat).
        -- rewrite lookup_app_l in * by done. done.
        -- rewrite lookup_app_r in * by lia. destruct (i - length pre)%nat eqn:D; [lia|done].
      * intros E. apply N. rewrite E in Hi. by eapply NoDup_lookup.
  - rewrite <- E3, !concat_app. cbn. rewrite <- !app_assoc. cbn. apply Permutation_app_head.
    rewrite Permutation_middle. apply Permutation_app_head. done.
  - unfold len in *. rewrite length_app. cbn. lia.
  - rewrite gas_of_app, E5. cbn. lia.
  - lia.
Qed.

Lemma picks_partial (x y : BuildState) : rtc (pick limit max) x y -> partial x -> partial y.
Proof. induction 1; eauto using pick_partial. Qed.
End Build.

Lemma concat_split (n : nat) (ls : list (list Transaction)) : concat (take n <$> ls) ++ concat (drop n <$> ls) ≡ₚ concat ls.
Proof.
  induction ls as [|l ls IH]; [done|]. cbn. rewrite <- IH. rewrite <- (take_drop n l) at 3. rewrite <- !app_assoc.
  apply Permutation_app_head. rewrite !app_assoc. apply Permutation_app_tail, Permutation_app_comm.
Qed.

Lemma concat_sorted {A : Type} (key : A -> Z) (ls : list (list A)) : concat (sort_by_key key <$> ls) ≡ₚ concat ls.
Proof. induction ls as [|l ls IH]; [done|]. cbn. by rewrite IH, sort_by_key_perm. Qed.

(** [C24] The proposer's choice.  If the gas limit of the block plus that of any
    pending transaction is below 2^64, building ends
    and splits the pending transactions into those selected and those that
    remain.  The selected are within the count and the gas limit.  Each sender's
    part of them is a prefix, of at most 16, of that sender's transactions in
    order of nonce; and the choice is maximal: if neither the count nor the gas
    is used up, a sender's next transaction was left out because it does not
    fit, or because the sender's share was exhausted. *)
Theorem build_exact (limit max : Z) (pending : list Transaction) :
  0 <= limit -> 0 <= max -> Forall (fun tx => 0 <= Tx.gas_limit tx /\ limit + Tx.gas_limit tx < 2 ^ 64) pending ->
  exists selected remaining, build_tx_list limit max pending = Some (selected, remaining) /\
    selected ++ remaining ≡ₚ pending /\ len selected <= max /\ gas_of selected <= limit /\
    forall s, exists left, take SENDER_CAP (sort_by_key Tx.nonce (of_sender Tx.from s pending)) = of_sender Tx.from s selected ++ left /\
      (len selected = max \/ gas_of selected = limit \/ match left with [] => True | tx :: _ => limit < gas_of selected + Tx.gas_limit tx end).
Proof.
  intros Hlim Hmax Hg. unfold build_tx_list. set (entries := by_sender Tx.from pending).
  set (sorted := sort_by_key Tx.nonce <$> entries.*2). set (qs0 := take SENDER_CAP <$> sorted).
  assert (concat sorted ≡ₚ pending) as Ps by (unfold sorted; rewrite concat_sorted; apply by_sender_perm).
  pose proof (concat_split SENDER_CAP sorted) as Pc. fold qs0 in Pc.
  assert (length qs0 = length entries.*1) as Hl by (unfold qs0, sorted; by rewrite !length_fmap).
  assert (forall i a q, entries.*1 !! i = Some a -> qs0 !! i = Some q -> q = take SENDER_CAP (sort_by_key Tx.nonce (of_sender Tx.from a pending))) as Hq.
  { intros i a q Ha. unfold qs0, sorted. rewrite !list_lookup_fmap in *. destruct (entries !! i) as [[a' q']|] eqn:Ei; [|done].
    injection Ha as ->. intros [= <-]. apply list_elem_of_lookup_2, by_sender_elem in Ei as [-> _]. done. }
  assert (Forall (fun tx => 0 <= Tx.gas_limit tx /\ limit + Tx.gas_limit tx < 2 ^ 64) (concat qs0)) as Hg0.
  { rewrite <- Ps, <- Pc in Hg. by apply Forall_app in Hg as [? _]. }
  destruct (passes_end limit max (S (length pending)) qs0 [] 0) as (qs & sel & gas & E & R & D).
  { apply Permutation_length in Ps, Pc. rewrite length_app in Pc. lia. }
  apply (picks_partial limit max entries.*1 qs0) in R as [L Q Pm C T G]; [|by apply by_sender_nodup|done| |done|by apply partial_start].
  2:{ intros i a q Ha Hi. rewrite (Hq i a q Ha Hi). apply Forall_take. rewrite sort_by_key_perm. apply Forall_forall. by intros tx [? _]%list_elem_of_filter. }
  cbn [fst snd] in *. rewrite E. cbn [mbind option_bind]. exists sel, (concat (drop SENDER_CAP <$> sorted) ++ concat qs).
  assert (sel ++ concat (drop SENDER_CAP <$> sorted) ++ concat qs ≡ₚ pending) as Pt.
  { rewrite <- Ps, <- Pc, <- Pm, <- app_assoc. apply Permutation_app_head, Permutation_app_comm. }
  split; [done|]. split; [done|]. split; [done|]. split; [lia|]. intros a. destruct (decide (a ∈ entries.*1)) as [Ha|Ha].
  - apply list_elem_of_lookup_1 in Ha as [i Hi]. destruct (lookup_lt_is_Some_2 qs0 i) as [q0 H0]; [rewrite Hl; by eapply lookup_lt_Some|].
    destruct (lookup_lt_is_Some_2 qs i) as [q H1]; [rewrite L; by eapply lookup_lt_Some|]. pose proof (Q i a q0 q Hi H0 H1) as Eq.
    exists q. split; [by rewrite <- (Hq i a q0 Hi H0)|]. destruct D as [D|[D|D]]; [left; lia|right; left; lia|]. right. right.
    pose proof (Forall_lookup_1 _ _ _ _ D H1) as B. destruct q as [|tx q]; [done|]. cbn in B.
    assert (tx ∈ concat qs0) as Hin by (apply list_elem_of_In, in_concat; exists q0; split; apply list_elem_of_In; [by eapply list_elem_of_lookup_2|rewrite Eq; set_solver]).
    rewrite Forall_forall in Hg0. specialize (Hg0 tx Hin). rewrite wrap_small in B by (unfold in_range; lia). lia.
  - assert (of_sender Tx.from a pending = []) as Ep.
    { destruct (decide (of_sender Tx.from a pending = [])) as [|N]; [done|]. destruct Ha. apply list_elem_of_fmap.
      exists (a, of_sender Tx.from a pending). split; [done|]. by apply by_sender_elem. }
    exists []. rewrite Ep, app_nil_r. split; [|by right; right]. symmetry. cbn. unfold of_sender in *.
    assert (filter (fun tx => Tx.from tx = a) (sel ++ concat (drop SENDER_CAP <$> sorted) ++ concat qs) ≡ₚ []) as F by (by rewrite Pt, Ep).
    apply Permutation_nil_r in F. rewrite filter_app in F. by apply app_nil in F as [? _].
Qed.

(** ** Slashing transactions are not counted *)

(** Finding: a proposal with evidence can be one that nobody accepts.  The
    builder fills the block up to the cap on transactions, and the slashing
    transactions are put before them afterwards.  When the pending transactions
    fill the block, every validator rejects the proposal, and the evidence has
    left the queue. *)
Theorem slashing_proposal_rejected {P : Primitives} {J : Type} `{StateAccess J} (address : Address) (sign : Signer)
    (chain_id base_nonce gas_ceiling : Z) (evidence : list SlashEvidence) (pending selected remaining : list Transaction)
    (b : Block) (s : StateManager J) (verify_signatures : bool) :
  build_tx_list gas_ceiling MAX_TXS_PER_BLOCK pending = Some (selected, remaining) -> len selected = MAX_TXS_PER_BLOCK ->
  slash_txs address sign chain_id base_nonce evidence <> [] ->
  proposal_txs address sign chain_id base_nonce gas_ceiling evidence pending = Some (transactions (body b)) ->
  validate_block_body_inner b s chain_id verify_signatures <> Ok tt.
Proof.
  intros B L N. unfold proposal_txs. rewrite B. cbn [mbind option_bind]. intros [= Et] V. unfold validate_block_body_inner in V.
  destruct (negb _); [done|]. destruct (_ <? len (encrypted_txs _)); [done|].
  rewrite <- Et in V. unfold len in L, V. rewrite length_app in V. destruct (slash_txs _ _ _ _ _) as [|t l]; [done|]. cbn [length] in V.
  destruct (Z.ltb_spec MAX_TXS_PER_BLOCK (Z.of_nat (S (length l) + length selected))); [done|lia].
Qed.

(** ** The pool of gossiped transactions *)

(** Entries under their hash, one per sender and nonce, up to the cap. *)
Record pending_ok {P : Primitives} (m : gmap (list Z) Transaction) : Prop := {
  pe_key h tx : m !! h = Some tx -> h = tx_hash tx;
  pe_once h1 h2 t1 t2 : m !! h1 = Some t1 -> m !! h2 = Some t2 -> Tx.from t1 = Tx.from t2 -> Tx.nonce t1 = Tx.nonce t2 -> h1 = h2;
  pe_size : Z.of_nat (size m) <= GOSSIP_MEMPOOL_GLOBAL_CAP
}.

Section Gossip.
Context {P : Primitives} {J : Type} `{StateAccess J}.

Lemma accept_ok (tx : Transaction) (m : gmap (list Z) Transaction) : pending_ok m -> pending_ok (accept_transaction tx m).
Proof.
  intros [Ky On Sz]. unfold accept_transaction. destruct (Z.leb_spec GOSSIP_MEMPOOL_GLOBAL_CAP (Z.of_nat (size m))) as [|L]; [done|].
  destruct (existsb _ _) eqn:E; [done|].
  assert (forall h t, m !! h = Some t -> Tx.from t = Tx.from tx -> Tx.nonce t = Tx.nonce tx -> False) as Fresh.
  { intros h t Ht Ef En. apply not_true_iff_false in E. apply E, existsb_exists. exists t. split.
    - apply list_elem_of_In, list_elem_of_fmap. exists (h, t). split; [done|]. by apply elem_of_map_to_list.
    - rewrite bool_decide_eq_true_2 by done. lia. }
  split.
  - intros h t. rewrite lookup_insert_Some. intros [[<- <-]|[_ Ht]]; [done|by apply Ky].
  - intros h1 h2 t1 t2. rewrite !lookup_insert_Some. intros [[<- <-]|[N1 H1]] [[<- <-]|[N2 H2]] Ef En; [done| | |by eapply On].
    + by edestruct (Fresh h2 t2).
    + by edestruct (Fresh h1 t1).
  - destruct (m !! tx_hash tx) eqn:Hx.
    + rewrite map_size_insert_Some by (rewrite Hx; eauto). done.
    + rewrite map_size_insert_None by done. lia.
Qed.

(** The pool of gossiped plaintext transactions.  Whatever bytes arrive, the
    pool holds transactions under their own hashes, at most one for each sender
    and nonce, and never more than its cap. *)
Theorem gossip_pool_invariant (chain_id : Z) (messages : list (StateManager J * list Z)) :
  pending_ok (foldl (fun m '(s, data) => on_gossiped_tx s chain_id data m) ∅ messages).
Proof.
  assert (pending_ok ∅) as S.
  { split; [intros h t Ht|intros h1 h2 t1 t2 Ht|done]; by rewrite lookup_empty in Ht. }
  revert S. generalize (∅ : gmap (list Z) Transaction). induction messages as [|[s data] l IH]; intros m Hm; [done|]. cbn [foldl]. apply IH.
  unfold on_gossiped_tx. destruct (decode_transaction data) as [tx|]; [|done]. destruct (gossip_signature_ok _ _ _); [by apply accept_ok|done].
Qed.
End Gossip.

(** ** Gas limits overflow *)

Definition plain_tx (from : Address) (nonce gas : Z) : Transaction := Tx.mkTx from (replicate 32 9) 0 [] gas nonce [] Sender [] None 1 Standard.

(** Finding: gas limits that overflow defeat the block's gas limit.  A gossiped
    transaction may state any gas limit; the builder adds it to the gas used with
    wrap-around, and so does the check of the validators.  Here two transactions
    that together exceed the ceiling are built into one block, and pass the check
    of the sum, by a third one whose limit takes the sum past 2^64. *)
Theorem overflowing_gas_passes :
  let big := 1500000000 in
  let txs := [plain_tx [1] 0 big; plain_tx [2] 0 (2 ^ 64 - 1400000000); plain_tx [3] 0 big] in
  let pool := foldl (fun m tx => accept_transaction tx m) ∅ txs in
  build_tx_list GAS_CEILING MAX_TXS_PER_BLOCK (map_to_list pool).*2 = Some (txs, []) /\ gas_sum txs <= GAS_CEILING /\ GAS_CEILING < big + big.
Proof. vm_compute. split; [reflexivity|]. split; [discriminate|reflexivity]. Qed.

(** ** The builder for encrypted transactions *)

Section EncryptedBuild.
Context (limit : Z) (Hlim : 0 <= limit < 2 ^ 64 - 1).

(** What a round takes and what it gives up on. *)
Lemma take_round_spec (qs qs' : list (list EncryptedTx)) (sel sel' : list EncryptedTx) (gas gas' : Z) (pr pr' : bool) :
  Forall (fun tx => 0 <= etx_gas_limit tx) (concat qs) -> gas = total_gas sel -> 0 <= gas <= limit ->
  take_round limit qs sel gas pr = (qs', sel', gas', pr') ->
  exists extra dropped, sel' = sel ++ extra /\ extra ++ concat qs' ++ dropped ≡ₚ concat qs /\ gas' = total_gas sel' /\ 0 <= gas' <= limit /\
    (pr = false -> pr' = true -> extra <> []).
Proof.
  revert qs' sel gas pr. induction qs as [|q qs IH]; intros qs' sel gas pr F Eg Hg; cbn [take_round].
  { intros [= <- <- <- <-]. exists [], []. rewrite app_nil_r. split; [done|]. split; [done|]. split; [done|]. split; [done|]. congruence. }
  cbn [concat] in F. apply Forall_app in F as [Fq F]. destruct q as [|tx q].
  - destruct (take_round limit qs sel gas pr) as [[[rest s1] g1] p1] eqn:E. intros [= <- <- <- <-].
    destruct (IH _ _ _ _ F Eg Hg E) as (x & d & E1 & E2 & E3). by exists x, d.
  - apply Forall_cons in Fq as [Ft _]. destruct (Z.ltb_spec limit (saturating_add u64 gas (etx_gas_limit tx))) as [B|B].
    + destruct (take_round limit qs sel gas pr) as [[[rest s1] g1] p1] eqn:E. intros [= <- <- <- <-].
      destruct (IH _ _ _ _ F Eg Hg E) as (x & d & E1 & E2 & E3). exists x, (d ++ tx :: q). split; [done|]. split; [|done].
      cbn [concat app]. rewrite (app_assoc (concat rest)), (app_assoc x), E2. by rewrite Permutation_app_comm.
    + assert (gas + etx_gas_limit tx <= limit) as Le by (unfold saturating_add in B; lia).
      rewrite wrap_small by (unfold in_range; lia).
      destruct (take_round limit qs (sel ++ [tx]) (gas + etx_gas_limit tx) true) as [[[rest s1] g1] p1] eqn:E. intros [= <- <- <- <-].
      assert (gas + etx_gas_limit tx = total_gas (sel ++ [tx])) as Eg' by (rewrite total_gas_app, Eg; cbn; lia).
      destruct (IH _ _ _ _ F Eg' ltac:(lia) E) as (x & d & E1 & E2 & E3 & E4 & _). exists (tx :: x), d. rewrite E1. split; [by rewrite <- app_assoc|].
      split; [|by rewrite <- E1]. cbn [concat app]. constructor. rewrite <- E2, <- !app_assoc. rewrite !(app_assoc _ q), (Permutation_app_comm x q). by rewrite <- !app_assoc.
Qed.

Lemma take_rounds_end (fuel : nat) (qs : list (list EncryptedTx)) (sel : list EncryptedTx) (gas : Z) :
  (length (concat qs) < fuel)%nat -> Forall (fun tx => 0 <= etx_gas_limit tx) (concat qs) -> gas = total_gas sel -> 0 <= gas <= limit ->
  exists extra left, take_rounds fuel limit qs sel gas = Some (sel ++ extra) /\ extra ++ left ≡ₚ concat qs /\ total_gas (sel ++ extra) <= limit.
Proof.
  revert qs sel gas. induction fuel as [|fuel IH]; intros qs sel gas L F Eg Hg; [lia|]. cbn [take_rounds].
  destruct (take_round limit qs sel gas false) as [[[qs1 sel1] gas1] pr] eqn:E.
  destruct (take_round_spec _ _ _ _ _ _ _ _ F Eg Hg E) as (x & d & -> & Pm & Eg1 & Hg1 & Pr). destruct pr.
  - specialize (Pr eq_refl eq_refl). pose proof (Permutation_length Pm) as Ln. rewrite !length_app in Ln. destruct x as [|tx x]; [done|].
    destruct (IH qs1 (sel ++ tx :: x) gas1) as (x2 & l2 & -> & P2 & G2); [cbn [length] in Ln; lia| |done|done|].
    { rewrite <- Pm in F. apply Forall_app in F as [_ F]. by apply Forall_app in F as [F _]. }
    exists ((tx :: x) ++ x2), (l2 ++ d). rewrite <- !app_assoc in *. split; [done|]. split; [|done].
    rewrite (app_assoc x2), P2. exact Pm.
  - exists x, (concat qs1 ++ d). split; [done|]. split; [done|]. lia.
Qed.
End EncryptedBuild.

Lemma total_gas_perm (l k : list EncryptedTx) : l ≡ₚ k -> total_gas l = total_gas k.
Proof. unfold total_gas. induction 1; cbn; lia. Qed.

Lemma gas_fold (l : list EncryptedTx) (g : Z) :
  Forall (fun tx => 0 <= etx_gas_limit tx) l -> 0 <= g -> g + total_gas l < 2 ^ 64 ->
  foldl (fun g tx => wrap u64 (g + etx_gas_limit tx)) g l = g + total_gas l.
Proof.
  intros F. revert g. induction F as [|tx l Ht F IH]; intros g Hg L; cbn in *; [lia|].
  assert (0 <= total_gas l) as N by (clear -F; unfold total_gas; induction F; cbn; lia). unfold total_gas in *.
  rewrite wrap_small by (unfold in_range; lia). rewrite IH; lia.
Qed.

(** The builder for encrypted transactions ends with a block: the shuffle does
    not panic, the block is a reordering of a choice among the transactions that
    have not expired, none of them twice, within the gas limit and with the total
    it states. *)
Theorem built_block_is_a_choice {P : Primitives} (m : Mempool) (limit slot : Z) (vrf_output : list Z) :
  0 <= limit < 2 ^ 64 - 1 -> Forall (fun tx => 0 <= etx_gas_limit tx) (Mempool.txs m) ->
  exists cb left, build_block m limit slot vrf_output = Some cb /\
    cb_transactions cb ++ left ≡ₚ filter (fun tx => is_expired tx slot = false) (Mempool.txs m) /\
    total_gas (cb_transactions cb) <= limit /\ cb_total_gas cb = total_gas (cb_transactions cb).
Proof.
  intros Hlim F. unfold build_block, select_and_order. set (live := filter _ (Mempool.txs m)).
  assert (Forall (fun tx => 0 <= etx_gas_limit tx) live) as Fl
    by (apply Forall_forall; intros tx [_ Hin]%list_elem_of_filter; rewrite Forall_forall in F; by apply F).
  set (qs := sort_by_key etx_nonce <$> (by_sender etx_sender live).*2).
  assert (concat qs ≡ₚ live) as Pq by (unfold qs; rewrite concat_sorted; apply by_sender_perm).
  destruct (take_rounds_end limit Hlim (S (length live)) qs [] 0) as (x & left & -> & Pm & G); [rewrite Pq; lia| |done|lia|].
  { by rewrite Pq. }
  cbn [mbind option_bind app] in *. assert (Forall (fun tx => 0 <= etx_gas_limit tx) x) as Fx.
  { rewrite <- Pq, <- Pm in Fl. by apply Forall_app in Fl as [? _]. }
  destruct x as [|tx x]; [exists (mkConstructed [] [] 0 []), left; split; [done|]; split; [by rewrite Pm|]; split; [done|done]|].
  assert (vrf_shuffle (length (tx :: x)) (shuffle_seed vrf_output) ≡ₚ seq 0 (length (tx :: x))) as Ps by apply shuffle_from_perm.
  set (order := vrf_shuffle _ _) in *. set (l := tx :: x) in *.
  destruct (apply_shuffle_perm l order Ps) as (r & -> & Pr). cbn [mbind option_bind].
  assert (total_gas r = total_gas l) as Er by (by apply total_gas_perm).
  eexists _, left. split; [reflexivity|]. cbn [cb_transactions cb_total_gas]. split; [by rewrite Pr, Pm|]. split; [lia|].
  rewrite Er. apply (gas_fold l 0); [done|lia|]. lia.
Qed.

(** ** Examples *)

Definition crowd : list Transaction := concat ((fun a => (fun n => plain_tx [a] n 21000) <$> [3; 1; 2; 0; 4; 5; 6; 7; 8; 9; 10; 11; 12; 13; 14; 15]) <$> seqZ 0 32).

Lemma build_exact_witness :
  let pending := [plain_tx [2] 5 30; plain_tx [1] 1 40; plain_tx [2] 3 60; plain_tx [1] 0 50] in
  exists selected remaining, build_tx_list 150 10 pending = Some (selected, remaining) /\ gas_of selected <= 150 /\ selected ++ remaining ≡ₚ pending.
Proof.
  intros pending. destruct (build_exact 150 10 pending) as (sel & rem & E & Pm & _ & G & _); [discriminate|discriminate| |by exists sel, rem].
  repeat (constructor; [split; [discriminate|reflexivity]|]). constructor.
Defined.

Lemma slashing_proposal_rejected_witness :
  let ev := mkEvidence 3 (replicate 32 1) [] (replicate 32 2) [] (replicate 32 7) [] in
  exists selected remaining txs,
    build_tx_list GAS_CEILING MAX_TXS_PER_BLOCK crowd = Some (selected, remaining) /\
    proposal_txs [5] toy_sign 1 0 GAS_CEILING [ev] crowd = Some txs /\
    validate_block_body_inner (mkBlk (header (genesis_block [] 0)) (mkBody txs [] [] 0) []) (sm_open (PydeSMT_new : MapState)) 1 false <> Ok tt.
Proof.
  intros ev. assert (match build_tx_list GAS_CEILING MAX_TXS_PER_BLOCK crowd with Some (sel, _) => len sel | None => 0 end = MAX_TXS_PER_BLOCK) as E by (vm_compute; reflexivity).
  destruct (build_tx_list GAS_CEILING MAX_TXS_PER_BLOCK crowd) as [[sel rem]|] eqn:B; [|discriminate E].
  assert (proposal_txs [5] toy_sign 1 0 GAS_CEILING [ev] crowd = Some (slash_txs [5] toy_sign 1 0 [ev] ++ sel)) as Pr
    by (unfold proposal_txs; rewrite B; reflexivity).
  assert (length (slash_txs [5] toy_sign 1 0 [ev]) = 1%nat) as N by (vm_compute; reflexivity).
  exists sel, rem, (slash_txs [5] toy_sign 1 0 [ev] ++ sel). split; [reflexivity|]. split; [exact Pr|]. set (txs := slash_txs [5] toy_sign 1 0 [ev] ++ sel) in *.
  clearbody txs. set (b := mkBlk (header (genesis_block [] 0)) (mkBody txs [] [] 0) []).
  apply (slashing_proposal_rejected [5] toy_sign 1 0 GAS_CEILING [ev] crowd sel rem b _ false B E); [|exact Pr].
  intros En. rewrite En in N. discriminate N.
Defined.

Lemma built_block_is_a_choice_witness :
  let m := toy_pool [toy_etx (toy_sender 1) 1 21000; toy_etx (toy_sender 1) 0 21000; toy_etx (toy_sender 2) 0 30000] in
  exists cb, build_block m 60000 1 [7] = Some cb /\ total_gas (cb_transactions cb) <= 60000 /\ length (cb_transactions cb) = 2%nat.
Proof.
  intros m. assert (match build_block m 60000 1 [7] with Some cb => length (cb_transactions cb) | None => 0%nat end = 2%nat) as L by (vm_compute; reflexivity).
  destruct (built_block_is_a_choice m 60000 1 [7]) as (cb & left & E & _ & G & _).
  - split; [discriminate|reflexivity].
  - assert (forallb (fun t => 0 <=? etx_gas_limit t) (Mempool.txs m) = true) as B by (vm_compute; reflexivity).
    apply Forall_forall. intros x Hx. rewrite forallb_forall in B. apply list_elem_of_In in Hx. specialize (B x Hx). lia.
  - exists cb. rewrite E in L. split; [exact E|]. split; [exact G|exact L].
Defined.
