(* ===== verification/Commit.v ===== *)
(** * Committing the certified block

    [node/src/canonical_commit.rs]: a quorum certificate decides which block is at
    a slot, and [commit_canonical] applies it, takes the local one back for it, or
    reports why it cannot. *)

From stdpp Require Import base numbers list option gmap strings sets.
From Stdlib Require Import ZArith Lia.
From S2P Require Import Prelude Crypto Wire Keys Nonce Account Economics Airdrop Multisig State StateManager Transaction Validation.
From S2P Require Import Execution Store Handlers Pipeline Chain ViewChange HotStuff Codec NodeWire Encrypted BlockCheck BlockExec BlockProps.

#[local] Open Scope Z_scope.
#[local] Open Scope pyde_scope.

Inductive CommitOutcome : Type :=
| Applied (txs gas : Z) (receipts : list Receipt)
| Idempotent
| Reorged (txs gas : Z) (receipts : list Receipt)
| DivergenceUnresolved (local_hash : list Z)
| Gap (head qc_slot : Z)
| CommitFailed (error : BlockError).

(** Blocks that lost against the local one, by slot and hash. *)
Abbreviation Competing := (gmap (Z * list Z) Block).

Section Commit.
Context {P : Primitives} {J : Type} `{StateAccess J}.
Context (key_le : Key * Bytes -> Key * Bytes -> Prop) `{!RelDecision key_le}.
Context (debug : PipelineError -> list Z) (fuel : nat).
#[local] Abbreviation SM := (StateManager J).

Definition commit_canonical (ws_checkpoint_slot : option Z) (qc_slot : Z) (qc_block_hash : list Z) (block : Block)
    (competing_blocks : option Competing) (c : ChainState) (s : SM) :
    Run (ChainState * SM * option Competing * CommitOutcome) :=
  match header_at c qc_slot with
  | Some h =>
      let local_hash := header_hash h in
      if bool_decide (local_hash = qc_block_hash) then Returns (c, s, competing_blocks, Idempotent)
      else
        let buffered := competing_blocks ≫= (fun cb => cb !! (qc_slot, qc_block_hash)) in
        let reorg_target := default block buffered in
        run_bind (reorg_to_block key_le debug fuel reorg_target ws_checkpoint_slot c s) (fun '(c, s, r) =>
          match r with
          | Ok (txs, gas, receipts) => Returns (c, s, delete (qc_slot, qc_block_hash) <$> competing_blocks, Reorged txs gas receipts)
          | Err _ => Returns (c, s, competing_blocks, DivergenceUnresolved local_hash)
          end)
  | None =>
      let next := wrap u64 (head_slot c + 1) in
      if qc_slot =? next then
        run_bind (process_full_block key_le debug fuel block ws_checkpoint_slot c s) (fun '(c, s, r) =>
          match r with
          | Ok (txs, gas, receipts) => Returns (c, s, competing_blocks, Applied txs gas receipts)
          | Err e => Returns (c, s, competing_blocks, CommitFailed e)
          end)
      else if next <? qc_slot then Returns (c, s, competing_blocks, Gap (head_slot c) qc_slot)
      else Returns (c, s, competing_blocks, Idempotent)
  end.
End Commit.

Section CommitProps.
Context {P : Primitives} {J : Type} `{StateAccessOk J} `{!StateBatchOk J}.
Context (key_le : Key * Bytes -> Key * Bytes -> Prop) `{!RelDecision key_le}.
Context (debug : PipelineError -> list Z) (fuel : nat).
#[local] Abbreviation SM := (StateManager J).

(** The block is the one that the certificate names. *)
Definition certified (qc_slot : Z) (qc_block_hash : list Z) (b : Block) : Prop :=
  slot (header b) = qc_slot /\ header_hash (header b) = qc_block_hash.







(** Finding: a reorganisation after a skipped slot takes the state back and not
    the chain.  The state is reverted to the slot before the block; the chain is
    then asked to revert to a header at that very slot, and there is none if the
    slot was skipped.  Whatever the two blocks are, the divergence is reported with
    the chain as it was, still headed by the local block, over a state in which
    that block has been undone. *)
Theorem reorg_after_skipped_slot (cp : option Z) (qc_slot : Z) (qc_hash : list Z) (b : Block) (c : ChainState) (s s1 : SM) (n : Z) (h : BlockHeader) :
  certified qc_slot qc_hash b -> header_at c qc_slot = Some h -> header_hash h <> qc_hash -> qc_slot <= head_slot c ->
  1 < qc_slot -> header_at c (qc_slot - 1) = None -> (forall x, cp = Some x -> x < qc_slot) ->
  revert_to (qc_slot - 1) s = (s1, Ok n) ->
  commit_canonical key_le debug fuel cp qc_slot qc_hash b None c s = Returns (c, s1, None, DivergenceUnresolved (header_hash h)).
Proof.
  intros [Es Eh] Hh Ne L L1 Hn Hcp R. unfold commit_canonical. rewrite Hh, bool_decide_eq_false_2 by done. cbn [mbind option_bind default].
  unfold reorg_to_block. rewrite Es. destruct (Z.ltb_spec (head_slot c) qc_slot); [lia|].
  assert (saturating_sub qc_slot 1 = qc_slot - 1) as -> by (unfold saturating_sub; lia).
  assert (match cp with Some cp0 => if qc_slot <=? cp0 then Err (ReorgPastCheckpoint qc_slot cp0) else Ok tt | None => Ok tt end = Ok tt) as ->.
  { destruct cp as [x|]; [|done]. specialize (Hcp x eq_refl). by destruct (Z.leb_spec qc_slot x); [lia|]. }
  rewrite R. unfold revert. destruct (Z.ltb_spec (head_slot c) (qc_slot - 1)); [lia|].
  destruct (Z.eqb_spec (qc_slot - 1) (head_slot c)); [lia|]. destruct (Z.eqb_spec (qc_slot - 1) 0); [lia|].
  unfold header_at in Hn. rewrite Hn. cbn. done.
Qed.
End CommitProps.

(** ** Examples *)


(** A chain with blocks at slots 1 and 3, and the undo log of slot 3. *)
Definition gap_header (s ts : Z) : BlockHeader := mkHeader s 0 H256_zero bob [] QuorumCert_empty H256_zero H256_zero ts.
Definition gap_chain : ChainState := advance (gap_header 3 9) (advance (gap_header 1 4) (small_chain DEVNET)).
Definition gap_node : StateManager MapState :=
  record_block_undo 3 [mkUndo [7] None] (update_batch_deferred [([7], [42])] (record_block_undo 1 [] (small_node small_world))).

Lemma reorg_after_skipped_slot_witness :
  let b := mkBlk (gap_header 3 10) (mkBody [] [] [] 0) [] in
  exists s1, commit_canonical any_order (fun _ => []) 0 None 3 (header_hash (header b)) b None gap_chain gap_node =
      Returns (gap_chain, s1, None, DivergenceUnresolved (header_hash (gap_header 3 9))) /\
    sm_get gap_node [7] = Some [42] /\ sm_get s1 [7] = None.
Proof.
  intros b. assert (match revert_to 2 gap_node with (s1, Ok n) => bool_decide (n = 1 /\ sm_get s1 [7] = None) | _ => false end = true) as E
    by (vm_compute; reflexivity).
  destruct (revert_to 2 gap_node) as [s1 [n|e]] eqn:R; [|discriminate E]. apply bool_decide_eq_true in E as [_ E].
  exists s1. split; [|split; [vm_compute; reflexivity|exact E]].
  apply (reorg_after_skipped_slot any_order (fun _ => []) 0 None 3 (header_hash (header b)) b gap_chain gap_node s1 n).
  - split; reflexivity.
  - vm_compute. reflexivity.
  - assert (bool_decide (header_hash (gap_header 3 9) = header_hash (header b)) = false) as N by (vm_compute; reflexivity).
    by apply bool_decide_eq_false in N.
  - vm_compute. discriminate.
  - reflexivity.
  - vm_compute. reflexivity.
  - discriminate.
  - exact R.
Defined.
