(* ===== verification/Reshare.v ===== *)
(** * Refreshing the shares and handing them over

    The part of the validator engine that keeps the threshold key in the hands of
    the current committee ([node/src/validator.rs]), and the places of the node that
    drive it ([node/src/node.rs]): the epoch boundary, the arrival of contributions
    and the slot tick.  The disk store is the last snapshot that was saved. *)

From stdpp Require Import base numbers list option gmap strings.
From Stdlib Require Import ZArith Lia.
From S2P Require Import Prelude Crypto Wire Chain ViewChange Codec NodeWire Encrypted Goldilocks Threshold.

#[local] Open Scope Z_scope.
#[local] Open Scope pyde_scope.

Definition RESHARE_REBROADCAST_SLOTS : Z := 10.
Definition RESHARE_REBROADCAST_INTERVAL_SLOTS : Z := 2.
Definition RESHARE_AGGREGATION_DELAY_SLOTS : Z := 5.

(** The fields [pss_*]. *)
Record Refresh : Type := mkPss {
  pss_contributions : list RefreshContribution;
  pss_target_epoch : Z;
  pss_aggregation_trigger_slot : Z;
  pss_aggregated : bool;
  pending_pss_rebroadcast : option (Z * list Z);
  pss_broadcast_start_slot : Z
}.

(** The fields [reshare_*]. *)
Record Handoff : Type := mkHandoff {
  reshare_contributions : list ResharingContribution;
  reshare_target_epoch : Z;
  reshare_new_committee : list (list Z);
  reshare_new_index : Z;
  reshare_aggregation_trigger_slot : Z;
  reshare_aggregated : bool;
  pending_reshare_rebroadcast : option (Z * list Z);
  reshare_broadcast_start_slot : Z
}.

Record Engine : Type := mkEngine {
  eng_committee_keys : list (list Z);
  eng_prev_committee_keys : list (list Z);
  eng_current_slot : Z;
  eng_epoch_randomness : list Z;
  eng_refresh : Refresh;
  eng_handoff : Handoff;
  key_share_dirty : bool;
  (** The attached store, if any, and what it holds. *)
  eng_store : option (option ReshareState)
}.

Record KeyHolder : Type := mkKeyHolder { kh_secret_key : list Z; kh_sign : Signer; kh_share : option KeyShare }.

Definition set_refresh (r : Refresh) (e : Engine) : Engine :=
  mkEngine (eng_committee_keys e) (eng_prev_committee_keys e) (eng_current_slot e) (eng_epoch_randomness e) r (eng_handoff e)
    (key_share_dirty e) (eng_store e).
Definition set_handoff (h : Handoff) (e : Engine) : Engine :=
  mkEngine (eng_committee_keys e) (eng_prev_committee_keys e) (eng_current_slot e) (eng_epoch_randomness e) (eng_refresh e) h
    (key_share_dirty e) (eng_store e).
Definition mark_dirty (e : Engine) : Engine :=
  mkEngine (eng_committee_keys e) (eng_prev_committee_keys e) (eng_current_slot e) (eng_epoch_randomness e) (eng_refresh e) (eng_handoff e)
    true (eng_store e).
Definition set_store (st : option (option ReshareState)) (e : Engine) : Engine :=
  mkEngine (eng_committee_keys e) (eng_prev_committee_keys e) (eng_current_slot e) (eng_epoch_randomness e) (eng_refresh e) (eng_handoff e)
    (key_share_dirty e) st.
Definition set_share (ks : KeyShare) (id : KeyHolder) : KeyHolder := mkKeyHolder (kh_secret_key id) (kh_sign id) (Some ks).

(** Whether a stashed contribution is sent again now, and what stays stashed. *)
Definition rebroadcast (pending : option (Z * list Z)) (start now : Z) : option (Z * list Z) * option (Z * list Z) :=
  match pending with
  | None => (None, None)
  | Some m =>
      let elapsed := saturating_sub now start in
      if RESHARE_REBROADCAST_SLOTS <? elapsed then (None, None)
      else if elapsed =? 0 then (pending, None)
      else if negb (elapsed mod RESHARE_REBROADCAST_INTERVAL_SLOTS =? 0) then (pending, None)
      else (pending, Some m)
  end.

Section Engine.
Context {P : Primitives}.

(** ** Refresh *)

Definition start_pss_refresh (epoch : Z) (id : KeyHolder) (e : Engine) : Run (Engine * option RefreshContribution) :=
  match kh_share id with
  | None => Returns (e, None)
  | Some key_share =>
      let n := len (eng_committee_keys e) in
      let entropy := poseidon2_hash (kh_secret_key id ++ eng_epoch_randomness e) in
      r <~ generate_refresh_contribution (ks_index key_share) (Z.to_nat n) (Z.to_nat (quorum_for_committee n)) epoch entropy (kh_sign id) ;;
      match r with
      | Err _ => Returns (e, None)
      | Ok c =>
          let trigger := wrap u64 (eng_current_slot e + RESHARE_AGGREGATION_DELAY_SLOTS) in
          Returns (set_refresh (mkPss [c] epoch trigger false (Some (epoch, rf_to_bytes c)) (eng_current_slot e)) e, Some c)
      end
  end.

Definition maybe_rebroadcast_pss (e : Engine) : Engine * option (Z * list Z) :=
  let r := eng_refresh e in
  let '(pending, out) := rebroadcast (pending_pss_rebroadcast r) (pss_broadcast_start_slot r) (eng_current_slot e) in
  (set_refresh (mkPss (pss_contributions r) (pss_target_epoch r) (pss_aggregation_trigger_slot r) (pss_aggregated r) pending
     (pss_broadcast_start_slot r)) e, out).

(** The issuer's key in a committee's table verifies the contribution. *)
Definition try_verify (c : RefreshContribution) (threshold target from_idx0 : Z) (table : list (list Z)) : Run bool :=
  match table !! Z.to_nat from_idx0 ≫= FalconPublicKey_from_bytes with
  | None => Returns false
  | Some pk => verify_refresh_contribution c threshold target pk
  end.

Definition on_pss_contribution (c : RefreshContribution) (e : Engine) : Run (Engine * bool) :=
  let r := eng_refresh e in
  let threshold := quorum_for_committee (len (eng_committee_keys e)) in
  if pss_aggregated r then Returns (e, false)
  else
    match checked_sub (rf_from_index c) 1 with
    | None => Returns (e, false)
    | Some from_idx0 =>
        current <~ try_verify c threshold (pss_target_epoch r) from_idx0 (eng_committee_keys e) ;;
        ok <~ (if current : bool then Returns true else try_verify c threshold (pss_target_epoch r) from_idx0 (eng_prev_committee_keys e)) ;;
        if negb ok then Returns (e, false)
        else if existsb (fun c' => rf_from_index c' =? rf_from_index c) (pss_contributions r) then Returns (e, false)
        else
          Returns (set_refresh (mkPss (pss_contributions r ++ [c]) (pss_target_epoch r) (pss_aggregation_trigger_slot r) (pss_aggregated r)
            (pending_pss_rebroadcast r) (pss_broadcast_start_slot r)) e, true)
    end.

Definition try_apply_pss_on_slot (current_slot : Z) (e : Engine) (id : KeyHolder) : Run (Engine * KeyHolder * bool) :=
  let r := eng_refresh e in
  if pss_aggregated r || (pss_aggregation_trigger_slot r =? 0) then Returns (e, id, false)
  else if current_slot <? pss_aggregation_trigger_slot r then Returns (e, id, false)
  else
    let threshold := quorum_for_committee (len (eng_committee_keys e)) in
    if threshold =? 0 then Returns (e, id, false)
    else
      match canonical_refresh_subset (pss_contributions r) threshold with
      | None => Returns (e, id, false)
      | Some canonical =>
          match kh_share id with
          | None => Returns (e, id, false)
          | Some old_share =>
              new_share <~ apply_refresh_canonical old_share canonical ;;
              Returns (mark_dirty (set_refresh (mkPss [] (pss_target_epoch r) (pss_aggregation_trigger_slot r) true (pending_pss_rebroadcast r)
                (pss_broadcast_start_slot r)) e), set_share new_share id, true)
          end
      end.

(** ** Handoff *)

Definition reshare_state_snapshot (e : Engine) : option ReshareState :=
  let h := eng_handoff e in
  if (reshare_target_epoch h =? 0) && bool_decide (pending_reshare_rebroadcast h = None) then None
  else
    Some (mkReshare (reshare_target_epoch h) (reshare_new_index h) (reshare_aggregation_trigger_slot h) (reshare_aggregated h)
      (reshare_broadcast_start_slot h) (pending_reshare_rebroadcast h) (reshare_new_committee h)).

Definition restore_reshare_state (st : ReshareState) (e : Engine) : Engine :=
  set_handoff (mkHandoff [] (rs_target_epoch st) (new_committee_keys st) (rs_new_index st) (aggregation_trigger_slot st) (aggregated st)
    (pending_rebroadcast st) (broadcast_start_slot st)) e.

(** A failed write stops the process and is left out. *)
Definition persist_reshare_state (e : Engine) : Engine :=
  match eng_store e, reshare_state_snapshot e with
  | Some _, Some snap => set_store (Some (Some snap)) e
  | _, _ => e
  end.

Definition start_committee_reshare (target_epoch : Z) (new_committee : list (list Z)) (id : KeyHolder) (e : Engine) :
    Run (Engine * option ResharingContribution) :=
  match kh_share id with
  | None => Returns (e, None)
  | Some key_share =>
      let new_n := len new_committee in
      if new_n =? 0 then Returns (e, None)
      else
        let entropy := poseidon2_hash (kh_secret_key id ++ eng_epoch_randomness e ++ le_encode 8 target_epoch) in
        c <~ generate_resharing_contribution key_share (Z.to_nat new_n) (Z.to_nat (quorum_for_committee new_n)) target_epoch entropy ;;
        let h := eng_handoff e in
        let pool :=
          if forallb (fun c' => negb (rs_from_old_index c' =? rs_from_old_index c)) (reshare_contributions h)
          then reshare_contributions h ++ [c] else reshare_contributions h in
        let h := mkHandoff pool (reshare_target_epoch h) (reshare_new_committee h) (reshare_new_index h) (reshare_aggregation_trigger_slot h)
          (reshare_aggregated h) (Some (target_epoch, rs_to_bytes c)) (eng_current_slot e) in
        Returns (persist_reshare_state (set_handoff h e), Some c)
  end.

Definition maybe_rebroadcast_reshare (e : Engine) : Engine * option (Z * list Z) :=
  let h := eng_handoff e in
  let '(pending, out) := rebroadcast (pending_reshare_rebroadcast h) (reshare_broadcast_start_slot h) (eng_current_slot e) in
  (set_handoff (mkHandoff (reshare_contributions h) (reshare_target_epoch h) (reshare_new_committee h) (reshare_new_index h)
     (reshare_aggregation_trigger_slot h) (reshare_aggregated h) pending (reshare_broadcast_start_slot h)) e, out).

Definition prepare_for_reshare_reception (target_epoch : Z) (new_committee : list (list Z)) (our_new_index : Z) (e : Engine) : Engine :=
  let h := eng_handoff e in
  persist_reshare_state (set_handoff (mkHandoff [] target_epoch new_committee our_new_index
    (wrap u64 (eng_current_slot e + RESHARE_AGGREGATION_DELAY_SLOTS)) false (pending_reshare_rebroadcast h) (reshare_broadcast_start_slot h)) e).

Definition on_reshare_contribution (c : ResharingContribution) (e : Engine) : Run (Engine * bool) :=
  let h := eng_handoff e in
  if (reshare_new_index h =? 0) || bool_decide (reshare_new_committee h = []) then Returns (e, false)
  else if reshare_aggregated h then Returns (e, false)
  else
    let new_n := len (reshare_new_committee h) in
    ok <~ verify_resharing_contribution c (quorum_for_committee new_n) new_n ;;
    if negb ok then Returns (e, false)
    else if existsb (fun c' => rs_from_old_index c' =? rs_from_old_index c) (reshare_contributions h) then Returns (e, false)
    else
      Returns (set_handoff (mkHandoff (reshare_contributions h ++ [c]) (reshare_target_epoch h) (reshare_new_committee h) (reshare_new_index h)
        (reshare_aggregation_trigger_slot h) (reshare_aggregated h) (pending_reshare_rebroadcast h) (reshare_broadcast_start_slot h)) e, true).

Definition try_aggregate_reshare_on_slot (current_slot old_committee_size : Z) (e : Engine) (id : KeyHolder) : Run (Engine * KeyHolder * bool) :=
  let h := eng_handoff e in
  if reshare_aggregated h || (reshare_new_index h =? 0) || bool_decide (reshare_new_committee h = []) || (reshare_aggregation_trigger_slot h =? 0)
  then Returns (e, id, false)
  else if current_slot <? reshare_aggregation_trigger_slot h then Returns (e, id, false)
  else
    let old_threshold := quorum_for_committee old_committee_size in
    if old_threshold =? 0 then Returns (e, id, false)
    else if len (reshare_contributions h) <? old_threshold then Returns (e, id, false)
    else
      match canonical_resharing_subset (reshare_contributions h) old_threshold with
      | None => Returns (e, id, false)
      | Some canonical =>
          share <~ aggregate_new_share (reshare_new_index h) canonical ;;
          match share with
          | None => Returns (e, id, false)
          | Some new_share =>
              let h := mkHandoff [] (reshare_target_epoch h) (reshare_new_committee h) (reshare_new_index h) (reshare_aggregation_trigger_slot h)
                true (pending_reshare_rebroadcast h) (reshare_broadcast_start_slot h) in
              Returns (persist_reshare_state (mark_dirty (set_handoff h e)), set_share new_share id, true)
          end
      end.

(** ** The node *)

(** At the epoch boundary, after the committee has rotated: what to broadcast. *)
Definition key_epoch_boundary (new_epoch : Z) (new_keys : list (list Z)) (our_new_index : Z) (was_in_old_committee : bool) (id : option KeyHolder)
    (e : Engine) : Run (Engine * option RefreshContribution * option ResharingContribution) :=
  let e := prepare_for_reshare_reception new_epoch new_keys our_new_index e in
  match id with
  | None => Returns (e, None, None)
  | Some id =>
      refresh <~ start_pss_refresh (wrap u64 (new_epoch + 1)) id e ;;
      let '(e, refresh) := refresh in
      if was_in_old_committee && is_some (kh_share id) then
        handoff <~ start_committee_reshare new_epoch new_keys id e ;;
        let '(e, handoff) := handoff in Returns (e, refresh, handoff)
      else Returns (e, refresh, None)
  end.

(** Contributions of another epoch are dropped; the others are handed to the
    engine of a validator. *)
Definition on_pss_message (epoch : Z) (contrib_bytes : list Z) (is_validator : bool) (e : Engine) : Run Engine :=
  if negb (epoch =? pss_target_epoch (eng_refresh e)) then Returns e
  else
    match rf_from_bytes contrib_bytes with
    | Some c => if is_validator then r <~ on_pss_contribution c e ;; Returns r.1 else Returns e
    | None => Returns e
    end.

Definition on_resharing_message (target_epoch : Z) (contrib_bytes : list Z) (is_validator : bool) (e : Engine) : Run Engine :=
  if negb (target_epoch =? reshare_target_epoch (eng_handoff e)) then Returns e
  else
    parsed <~ rs_from_bytes contrib_bytes ;;
    match parsed with
    | Some c => if is_validator then r <~ on_reshare_contribution c e ;; Returns r.1 else Returns e
    | None => Returns e
    end.

(** The slot tick: the handoff first, then the refresh. *)
Definition key_tick (current_slot last_outgoing_committee_size : Z) (e : Engine) (id : KeyHolder) : Run (Engine * KeyHolder) :=
  handoff <~ try_aggregate_reshare_on_slot current_slot last_outgoing_committee_size e id ;;
  let '(e, id, _) := handoff in
  refresh <~ try_apply_pss_on_slot current_slot e id ;;
  let '(e, id, _) := refresh in Returns (e, id).
End Engine.
