(* ===== verification/ReshareProps.v ===== *)
(** * A committee that refreshes and hands over its key

    Theorems about [Reshare]: members that pool the same contributions move their
    shares together, in whatever order the contributions arrived; the pools hold
    one contribution per member; and three ways in which the protocol goes wrong. *)

From stdpp Require Import base numbers list option gmap strings sets relations.
From Stdlib Require Import ZArith Lia.
From S2P Require Import Prelude Crypto Wire Chain ViewChange Codec NodeWire Encrypted Goldilocks Threshold ThresholdProps Reshare.

#[local] Open Scope Z_scope.
#[local] Open Scope pyde_scope.

(** The engine will apply its refresh at [slot]. *)
Definition refresh_due (slot : Z) (e : Engine) : Prop :=
  let r := eng_refresh e in
  pss_aggregated r = false /\ pss_aggregation_trigger_slot r <> 0 /\ pss_aggregation_trigger_slot r <= slot /\
  quorum_for_committee (len (eng_committee_keys e)) <> 0.

Section Props.
Context {P : Primitives} {PO : PrimitivesOk P} {K : Kem} {KO : KemOk K}.

(** ** Applying *)

(** The rows of a contribution, one for each index up to [n]. *)
Definition complete (n : Z) (c : RefreshContribution) : Prop :=
  n <= len (rf_deltas c) /\ Forall (fun row => length row = SEED_ELEMENTS) (rf_deltas c).

Lemma apply_refresh_returns (ks : KeyShare) (cs : list RefreshContribution) :
  in_committee (ks_index ks) -> length (ks_shares ks) = SEED_ELEMENTS -> Forall (complete (ks_index ks)) cs ->
  exists ks', apply_refresh ks cs = Returns ks'.
Proof.
  intros [I1 I2] L F. unfold apply_refresh, MAX_VALIDATOR_INDEX in *. rewrite wrap_small by (unfold in_range; lia).
  assert (exists sh, run_fold (fun shares contrib => row <~ unwrap (rf_deltas contrib !! Z.to_nat (ks_index ks - 1)) ;; add_row row shares)
    (ks_shares ks) cs = Returns sh) as [sh E]; [|rewrite E; cbn; eauto].
  revert L. generalize (ks_shares ks). induction F as [|c cs [Hn Hr] F IH]; intros sh L; [by exists sh|]. cbn [run_fold].
  destruct (lookup_lt_is_Some_2 (rf_deltas c) (Z.to_nat (ks_index ks - 1))) as [row Er]; [unfold len in Hn; lia|]. rewrite Er. cbn [unwrap run_bind].
  pose proof (Forall_lookup_1 _ _ _ _ Hr Er) as Lr. cbn beta in Lr. rewrite add_row_returns by done. cbn [run_bind]. apply IH. rewrite length_zip_with. lia.
Qed.

Lemma verified_rows (c : RefreshContribution) (t epoch : Z) (pk : list Z) :
  verify_refresh_contribution c t epoch pk = Returns true -> Forall (fun row => length row = SEED_ELEMENTS) (rf_deltas c).
Proof.
  unfold verify_refresh_contribution. destruct (negb (rf_epoch c =? epoch)); [done|]. destruct (_ || _); [done|].
  destruct (forallb _ (rf_deltas c)) eqn:W; [|done]. intros _. apply Forall_forall. intros row Hr%list_elem_of_In.
  rewrite forallb_forall in W. by apply Nat.eqb_eq, W.
Qed.

Lemma apply_due (slot : Z) (e : Engine) (id : KeyHolder) (ks : KeyShare) (cs : list RefreshContribution) :
  refresh_due slot e -> kh_share id = Some ks ->
  canonical_refresh_subset (pss_contributions (eng_refresh e)) (quorum_for_committee (len (eng_committee_keys e))) = Some cs ->
  try_apply_pss_on_slot slot e id = run_bind (apply_refresh_canonical ks cs) (fun ks' =>
    let r := eng_refresh e in
    Returns (mark_dirty (set_refresh (mkPss [] (pss_target_epoch r) (pss_aggregation_trigger_slot r) true (pending_pss_rebroadcast r)
      (pss_broadcast_start_slot r)) e), set_share ks' id, true)).
Proof.
  intros (A & B & C & D) Ek Ec. unfold try_apply_pss_on_slot. rewrite A, (proj2 (Z.eqb_neq _ _) B), (proj2 (Z.ltb_ge _ _) C), (proj2 (Z.eqb_neq _ _) D).
  cbn [orb]. by rewrite Ec, Ek.
Qed.

(** [C16] A committee refreshes its key together.  Let the members of a committee
    hold the shares of a threshold key, and each have the same contributions in
    its pool, in any order: at least the threshold of them, of distinct members,
    verified, with a row for every member.  When the refresh is due, every member
    applies it, and the new shares are again shares of the same key. *)
Theorem committee_refreshes_together (rng : nat -> list Z) (tpk : ThresholdPublicKey) (t epoch slot : Z) (keys : list KeyShare)
    (pool : list RefreshContribution) (members : list (Engine * KeyHolder)) :
  custody rng tpk t keys -> NoDup (rf_from_index <$> pool) -> t <= len pool ->
  Forall (fun c => len (rf_deltas c) < 2 ^ 63 /\ Forall (fun ks => ks_index ks <= len (rf_deltas c)) keys /\
    exists pk, verify_refresh_contribution c t epoch pk = Returns true) pool ->
  Forall2 (fun ks m => kh_share m.2 = Some ks /\ refresh_due slot m.1 /\ quorum_for_committee (len (eng_committee_keys m.1)) = t /\
    pss_contributions (eng_refresh m.1) ≡ₚ pool) keys members ->
  exists keys', custody rng tpk t keys' /\
    Forall2 (fun m ks' => exists e' id', try_apply_pss_on_slot slot m.1 m.2 = Returns (e', id', true) /\ kh_share id' = Some ks' /\
      pss_aggregated (eng_refresh e') = true) members keys'.
Proof.
  intros C N Lt V M. set (cs := take (Z.to_nat t) (sort_by_key rf_from_index pool)).
  assert (forall p, p ≡ₚ pool -> canonical_refresh_subset p t = Some cs) as Ec.
  { intros p Pm. unfold canonical_refresh_subset, len in *. rewrite (Permutation_length Pm). destruct (Z.ltb_spec (Z.of_nat (length pool)) t); [lia|].
    by rewrite (sort_by_key_unique rf_from_index p pool) by (done || by rewrite Pm). }
  destruct (custody_keeps _ _ _ _ C) as (seed & f & _ & _ & _ & H).
  assert (Forall2 (fun ks (m : Engine * KeyHolder) => exists ks', apply_refresh_canonical ks cs = Returns ks') keys members) as A.
  { apply Forall2_same_length_lookup_2; [by eapply Forall2_length|]. intros i ks m Hk _. pose proof (Forall_lookup_1 _ _ _ _ H Hk) as [Hi Hl _].
    apply apply_refresh_returns; [done|done|]. apply Forall_take. rewrite sort_by_key_perm. eapply Forall_impl; [exact V|].
    intros c (_ & Hx & pk & Hv). split; [exact (Forall_lookup_1 _ _ _ _ Hx Hk)|]. by eapply verified_rows. }
  assert (exists keys', Forall2 (fun ks ks' => apply_refresh_canonical ks cs = Returns ks') keys keys') as [keys' A'].
  { clear -A. induction A as [|ks m keys members [ks' E] _ [keys' IH]]; [by exists []|]. exists (ks' :: keys'). by constructor. }
  exists keys'. split.
  - eapply (custody_refreshed rng tpk t epoch keys keys' pool cs); [done| |by apply Ec|done].
    eapply Forall_impl; [exact V|]. by intros c (L & _ & pk).
  - apply Forall2_same_length_lookup_2; [rewrite <- (Forall2_length _ _ _ M); by eapply Forall2_length|]. intros i m ks' Hm Hk'.
    destruct (Forall2_lookup_r _ _ _ _ _ M Hm) as (ks & Hk & Ek & D & Q & Pm).
    eexists _, _. erewrite apply_due; [|done|done|rewrite Q; by apply Ec]. erewrite (Forall2_lookup_lr _ _ _ _ _ _ A' Hk Hk'). done.
Qed.

(** ** Pools *)

(** One contribution per member, those of the refresh all for its epoch. *)
Definition pools_ok (e : Engine) : Prop :=
  NoDup (rf_from_index <$> pss_contributions (eng_refresh e)) /\
  Forall (fun c => rf_epoch c = pss_target_epoch (eng_refresh e)) (pss_contributions (eng_refresh e)) /\
  NoDup (rs_from_old_index <$> reshare_contributions (eng_handoff e)).

(** What the node does with its engine, between changes of the committee. *)
Inductive key_step : Engine -> Engine -> Prop :=
| step_boundary epoch keys i was id e e' r h : key_epoch_boundary epoch keys i was id e = Returns (e', r, h) -> key_step e e'
| step_pss epoch bytes v e e' : on_pss_message epoch bytes v e = Returns e' -> key_step e e'
| step_resharing epoch bytes v e e' : on_resharing_message epoch bytes v e = Returns e' -> key_step e e'
| step_tick slot n e id e' id' : key_tick slot n e id = Returns (e', id') -> key_step e e'
| step_resend_pss e : key_step e (maybe_rebroadcast_pss e).1
| step_resend_reshare e : key_step e (maybe_rebroadcast_reshare e).1.

Lemma persist_pools (e : Engine) : eng_refresh (persist_reshare_state e) = eng_refresh e /\ eng_handoff (persist_reshare_state e) = eng_handoff e.
Proof. unfold persist_reshare_state. destruct (eng_store e); [|done]. by destruct (reshare_state_snapshot e). Qed.

Lemma persist_ok (e : Engine) : pools_ok e -> pools_ok (persist_reshare_state e).
Proof. intros I. unfold pools_ok. by destruct (persist_pools e) as [-> ->]. Qed.

Lemma nodup_snoc {A : Type} (key : A -> Z) (l : list A) (a : A) : NoDup (key <$> l) -> key a ∉ key <$> l -> NoDup (key <$> l ++ [a]).
Proof. intros N Ha. rewrite fmap_app. apply NoDup_app. split; [done|]. split; [|apply NoDup_singleton]. intros x Hx ->%list_elem_of_singleton. done. Qed.

Lemma existsb_fresh {A : Type} (key : A -> Z) (l : list A) (a : A) : existsb (fun b => key b =? key a) l = false -> key a ∉ key <$> l.
Proof.
  intros E Ha. apply list_elem_of_fmap in Ha as (b & Eb & Hb%list_elem_of_In). apply not_true_iff_false in E. apply E, existsb_exists.
  exists b. split; [done|lia].
Qed.

Lemma start_pss_ok (epoch : Z) (id : KeyHolder) (e e' : Engine) (out : option RefreshContribution) :
  start_pss_refresh epoch id e = Returns (e', out) -> pools_ok e -> pools_ok e'.
Proof.
  unfold start_pss_refresh. intros E (I1 & I2 & I3). destruct (kh_share id) as [ks|]; [|injection E as <- _; by split].
  destruct (generate_refresh_contribution _ _ _ _ _ _) as [[c|err]| |] eqn:G; cbn [run_bind] in E; [|injection E as <- _; by split|done|done].
  injection E as <- _. split; [apply NoDup_singleton|]. split; [|done]. constructor; [|done]. cbn. unfold generate_refresh_contribution in G.
  destruct (split_elements _ _ _ _) as [deltas| |]; cbn [run_bind] in G; [|done|done]. destruct (kh_sign id _); [|done]. by injection G as <-.
Qed.

Lemma start_reshare_ok (epoch : Z) (keys : list (list Z)) (id : KeyHolder) (e e' : Engine) (out : option ResharingContribution) :
  start_committee_reshare epoch keys id e = Returns (e', out) -> pools_ok e -> pools_ok e'.
Proof.
  unfold start_committee_reshare. intros E (I1 & I2 & I3). destruct (kh_share id) as [ks|]; [|injection E as <- _; by split].
  destruct (_ =? 0); [injection E as <- _; by split|]. destruct (generate_resharing_contribution _ _ _ _ _) as [c| |]; cbn [run_bind] in E; [|done|done].
  injection E as <- _. apply persist_ok. split; [done|]. split; [done|]. cbn [set_handoff eng_handoff reshare_contributions].
  destruct (forallb _ _) eqn:F; [|done]. apply nodup_snoc; [done|]. intros Hc. apply list_elem_of_fmap in Hc as (b & Eb & Hb%list_elem_of_In).
  rewrite forallb_forall in F. specialize (F b Hb). lia.
Qed.

Lemma on_pss_ok (c : RefreshContribution) (e e' : Engine) (b : bool) : on_pss_contribution c e = Returns (e', b) -> pools_ok e -> pools_ok e'.
Proof.
  unfold on_pss_contribution. intros E I. destruct (pss_aggregated _); [by injection E as <- _|]. destruct (checked_sub _ _) as [i|]; [|by injection E as <- _].
  assert (forall tbl v, try_verify c (quorum_for_committee (len (eng_committee_keys e))) (pss_target_epoch (eng_refresh e)) i tbl = Returns v -> v = true ->
            rf_epoch c = pss_target_epoch (eng_refresh e)) as Ep.
  { intros tbl v Ev ->. unfold try_verify in Ev. destruct (_ ≫= _); [|done]. unfold verify_refresh_contribution in Ev.
    destruct (Z.eqb_spec (rf_epoch c) (pss_target_epoch (eng_refresh e))); [done|done]. }
  destruct (try_verify _ _ _ _ (eng_committee_keys e)) as [v| |] eqn:E1; cbn [run_bind] in E; [|done|done].
  destruct (if v then _ else _) as [ok| |] eqn:E2; cbn [run_bind] in E; [|done|done]. destruct ok; cbn [negb] in E; [|by injection E as <- _].
  assert (rf_epoch c = pss_target_epoch (eng_refresh e)) as Ec by (destruct v; [by eapply Ep|by eapply (Ep _ true)]).
  destruct (existsb _ _) eqn:X; [by injection E as <- _|]. injection E as <- _. destruct I as (I1 & I2 & I3). split; [|split; [|done]].
  - apply nodup_snoc; [done|by apply existsb_fresh].
  - apply Forall_app. split; [done|]. by constructor.
Qed.

Lemma on_reshare_ok (c : ResharingContribution) (e e' : Engine) (b : bool) : on_reshare_contribution c e = Returns (e', b) -> pools_ok e -> pools_ok e'.
Proof.
  unfold on_reshare_contribution. intros E I. destruct (_ || _); [by injection E as <- _|]. destruct (reshare_aggregated _); [by injection E as <- _|].
  destruct (verify_resharing_contribution _ _ _) as [ok| |]; cbn [run_bind] in E; [|done|done]. destruct ok; cbn [negb] in E; [|by injection E as <- _].
  destruct (existsb _ _) eqn:X; [by injection E as <- _|]. injection E as <- _. destruct I as (I1 & I2 & I3). split; [done|]. split; [done|].
  apply nodup_snoc; [done|by apply existsb_fresh].
Qed.

Lemma aggregate_ok (slot n : Z) (e e' : Engine) (id id' : KeyHolder) (b : bool) :
  try_aggregate_reshare_on_slot slot n e id = Returns (e', id', b) -> pools_ok e -> pools_ok e'.
Proof.
  unfold try_aggregate_reshare_on_slot. intros E I. repeat (destruct (_ || _); [by injection E as <- _ _|]). destruct (_ <? _); [by injection E as <- _ _|].
  destruct (_ =? 0); [by injection E as <- _ _|]. destruct (_ <? _); [by injection E as <- _ _|].
  destruct (canonical_resharing_subset _ _) as [cs|]; [|by injection E as <- _ _].
  destruct (aggregate_new_share _ _) as [[ks|]| |]; cbn [run_bind] in E; [|by injection E as <- _ _|done|done]. injection E as <- _ _.
  apply persist_ok. destruct I as (I1 & I2 & I3). split; [done|]. split; [done|]. apply NoDup_nil_2.
Qed.

Lemma apply_ok (slot : Z) (e e' : Engine) (id id' : KeyHolder) (b : bool) :
  try_apply_pss_on_slot slot e id = Returns (e', id', b) -> pools_ok e -> pools_ok e'.
Proof.
  unfold try_apply_pss_on_slot. intros E I. destruct (_ || _); [by injection E as <- _ _|]. destruct (_ <? _); [by injection E as <- _ _|].
  destruct (_ =? 0); [by injection E as <- _ _|]. destruct (canonical_refresh_subset _ _) as [cs|]; [|by injection E as <- _ _].
  destruct (kh_share id) as [ks|]; [|by injection E as <- _ _]. destruct (apply_refresh_canonical _ _) as [ks'| |]; cbn [run_bind] in E; [|done|done].
  injection E as <- _ _. destruct I as (I1 & I2 & I3). split; [apply NoDup_nil_2|]. split; [constructor|done].
Qed.

Lemma key_step_ok (e e' : Engine) : key_step e e' -> pools_ok e -> pools_ok e'.
Proof.
  intros S I. destruct S as [epoch keys i was id e e' r0 h0 E|epoch bytes v e e' E|epoch bytes v e e' E|slot n e id e' id' E|e|e].
  - unfold key_epoch_boundary in E. assert (pools_ok (prepare_for_reshare_reception epoch keys i e)) as I0.
    { apply persist_ok. destruct I as (I1 & I2 & _). split; [done|]. split; [done|]. apply NoDup_nil_2. }
    destruct id as [id|]; [|by injection E as <- _ _]. destruct (start_pss_refresh _ _ _) as [[e1 r]| |] eqn:E1; cbn [run_bind] in E; [|done|done].
    apply start_pss_ok in E1; [|done]. destruct (was && _); [|by injection E as <- _ _].
    destruct (start_committee_reshare _ _ _ _) as [[e2 h]| |] eqn:E2; cbn [run_bind] in E; [|done|done]. injection E as <- _ _. by eapply start_reshare_ok.
  - unfold on_pss_message in E. destruct (negb _); [by injection E as <-|]. destruct (rf_from_bytes _) as [c|]; [|by injection E as <-].
    destruct v; [|by injection E as <-]. destruct (on_pss_contribution c e) as [[e1 b]| |] eqn:E1; cbn [run_bind] in E; [|done|done]. injection E as <-. by eapply on_pss_ok.
  - unfold on_resharing_message in E. destruct (negb _); [by injection E as <-|]. destruct (rs_from_bytes _) as [[c|]| |]; cbn [run_bind] in E; [|by injection E as <-|done|done].
    destruct v; [|by injection E as <-]. destruct (on_reshare_contribution c e) as [[e1 b]| |] eqn:E1; cbn [run_bind] in E; [|done|done]. injection E as <-. by eapply on_reshare_ok.
  - unfold key_tick in E. destruct (try_aggregate_reshare_on_slot _ _ _ _) as [[[e1 id1] b1]| |] eqn:E1; cbn [run_bind] in E; [|done|done].
    destruct (try_apply_pss_on_slot _ _ _) as [[[e2 id2] b2]| |] eqn:E2; cbn [run_bind] in E; [|done|done]. injection E as <- _.
    eapply apply_ok; [exact E2|]. by eapply aggregate_ok.
  - unfold maybe_rebroadcast_pss. by destruct (rebroadcast _ _ _).
  - unfold maybe_rebroadcast_reshare. by destruct (rebroadcast _ _ _).
Qed.

(** Whatever arrives, and whatever the clock does, the pools of an engine hold
    at most one contribution per member, and those of the refresh are for the epoch
    that it collects for. *)
Theorem pools_stay_distinct (e e' : Engine) : pools_ok e -> rtc key_step e e' -> pools_ok e'.
Proof. intros I R. induction R as [e|e1 e2 e3 S _ IH]; [done|]. by eapply IH, key_step_ok. Qed.

(** ** What goes wrong *)

Lemma fold_panics {A B : Type} (f : B -> A -> Run B) (l : list A) (a : A) (b : B) :
  (forall b x, f b x <> OutOfFuel) -> (forall b, f b a = Panics) -> a ∈ l -> run_fold f b l = Panics.
Proof.
  intros Hf Ha. revert b. induction l as [|x l IH]; intros b Hin; [by apply not_elem_of_nil in Hin|]. cbn [run_fold].
  apply elem_of_cons in Hin as [<-|Hin]; [by rewrite Ha|]. specialize (Hf b x). destruct (f b x); [|done|done]. by apply IH.
Qed.

Lemma add_row_fuel (row shares : list Z) : add_row row shares <> OutOfFuel.
Proof.
  unfold add_row. revert shares. induction (seq 0 SEED_ELEMENTS) as [|e l IH]; intros sh; [done|]. cbn [run_fold].
  destruct (sh !! e); [|done]. destruct (row !! e); [|done]. apply IH.
Qed.

(** Finding: a short contribution stops the validators it leaves out.  Verification
    asks a refresh contribution for as many rows as the threshold, not for one per
    member.  Once such a contribution is among those that are applied, every member
    whose index is beyond its rows indexes out of bounds. *)
Theorem short_refresh_aborts (slot : Z) (e : Engine) (id : KeyHolder) (ks : KeyShare) (cs : list RefreshContribution) (c : RefreshContribution) :
  refresh_due slot e -> kh_share id = Some ks -> in_committee (ks_index ks) ->
  canonical_refresh_subset (pss_contributions (eng_refresh e)) (quorum_for_committee (len (eng_committee_keys e))) = Some cs ->
  c ∈ cs -> len (rf_deltas c) < ks_index ks ->
  try_apply_pss_on_slot slot e id = Panics.
Proof.
  intros D Ek [I1 I2] Ec Hc L. erewrite apply_due by done. unfold apply_refresh_canonical, apply_refresh, MAX_VALIDATOR_INDEX in *.
  rewrite wrap_small by (unfold in_range; lia). rewrite (fold_panics _ _ c); [done| | |done].
  - intros b x. destruct (rf_deltas x !! _); [|done]. apply add_row_fuel.
  - intros b. rewrite lookup_ge_None_2; [done|]. unfold len in L. lia.
Qed.

(** Finding: a handoff that completes after the refresh drops it.  The tick
    derives the new share before it applies the refresh.  A member that lacks
    contributions to the handoff when the refresh is applied has it applied to the
    share it is about to lose: the share it derives later is that of the handoff
    alone, and the refresh is not applied again.  Members that were in time hold
    refreshed shares of the new committee. *)
Theorem late_handoff_drops_refresh (slot1 slot2 n : Z) (e e1 e2 : Engine) (id id1 id2 : KeyHolder) :
  try_apply_pss_on_slot slot1 e id = Returns (e1, id1, true) ->
  try_aggregate_reshare_on_slot slot2 n e1 id1 = Returns (e2, id2, true) ->
  (exists cs ks, canonical_resharing_subset (reshare_contributions (eng_handoff e)) (quorum_for_committee n) = Some cs /\
    aggregate_new_share (reshare_new_index (eng_handoff e)) cs = Returns (Some ks) /\ kh_share id2 = Some ks) /\
  forall slot3, try_apply_pss_on_slot slot3 e2 id2 = Returns (e2, id2, false).
Proof.
  intros E1 E2. assert (eng_handoff e1 = eng_handoff e /\ pss_aggregated (eng_refresh e1) = true) as [Eh Ea].
  { unfold try_apply_pss_on_slot in E1. destruct (_ || _); [done|]. destruct (_ <? _); [done|]. destruct (_ =? 0); [done|].
    destruct (canonical_refresh_subset _ _); [|done]. destruct (kh_share id); [|done]. destruct (apply_refresh_canonical _ _); cbn [run_bind] in E1; [|done|done].
    by injection E1 as <- _. }
  rewrite <- Eh. unfold try_aggregate_reshare_on_slot in E2. destruct (_ || _); [done|]. destruct (_ <? _); [done|]. destruct (_ =? 0); [done|].
  destruct (_ <? _); [done|]. destruct (canonical_resharing_subset _ _) as [cs|]; [|done].
  destruct (aggregate_new_share _ cs) as [[ks|]| |] eqn:A; cbn [run_bind] in E2; [|done..]. injection E2 as <- <-. split; [by exists cs, ks|].
  intros slot3. unfold try_apply_pss_on_slot. match goal with |- context [persist_reshare_state ?x] => destruct (persist_pools x) as [-> _] end.
  cbn [mark_dirty set_handoff eng_refresh]. by rewrite Ea.
Qed.
End Props.

(** ** A committee of four *)

Definition quad : ThresholdPublicKey * list KeyShare := ok_of (mkTpk [] 0 0, []) (returned (Err "") (threshold_keygen toy_rng 4 3)).
Definition quad_holder (i : Z) : KeyHolder := mkKeyHolder [i] toy_sign (quad.2 !! Z.to_nat (i - 1)).
Definition idle_handoff : Handoff := mkHandoff [] 0 [] 0 0 false None 0.
Definition quad_engine (r : Refresh) : Engine := mkEngine toy_committee [] 105 [] r idle_handoff false None.

(** What member [i] contributes to the refresh for epoch 9. *)
Definition quad_refresh (i : Z) : RefreshContribution :=
  ok_of (mkRefresh 0 0 [] []) (returned (Err "") (generate_refresh_contribution i 4 3 9 [i] toy_sign)).

(** An engine whose refresh is due, with a pool. *)
Definition quad_due (pool : list RefreshContribution) : Engine := quad_engine (mkPss pool 9 105 false None 100).

(** The share that member [i] has after the tick. *)
Definition quad_after (i : Z) (pool : list RefreshContribution) : option KeyShare :=
  match try_apply_pss_on_slot 105 (quad_due pool) (quad_holder i) with Returns (_, id, true) => kh_share id | _ => None end.

(** The contributions arrive one after the other; all of them are accepted. *)
Definition quad_receives (start : list RefreshContribution) (l : list RefreshContribution) : option (list RefreshContribution) :=
  match run_fold (fun e c => r <~ on_pss_contribution c e ;; if r.2 then Returns r.1 else Panics) (quad_due start) l with
  | Returns e => Some (pss_contributions (eng_refresh e))
  | _ => None
  end.

Definition quad_ciphertext : ThresholdCiphertext := ok_of (mkCiphertext [] [] []) (threshold_encrypt quad.1 [104; 105] [1; 2; 3]).
Definition quad_decrypts (keys : list KeyShare) : Run (Result (list Z) string) :=
  shares <~ run_map (fun ks => generate_decryption_share ks quad_ciphertext toy_sign) keys ;;
  combine_shares (omap (fun r => match r with Ok s => Some s | Err _ => None end) shares) 3 quad_ciphertext toy_committee.

Lemma committee_refreshes_together_witness :
  let pools := [[3; 1; 2; 4]; [1; 2; 3; 4]; [4; 3; 2; 1]; [2; 4; 1; 3]] in
  let members := zip_with (fun i pool => (quad_due (quad_refresh <$> pool), quad_holder i)) [1; 2; 3; 4] pools in
  exists keys', custody toy_rng quad.1 3 keys' /\
    Forall2 (fun m ks' => exists e' id', try_apply_pss_on_slot 105 m.1 m.2 = Returns (e', id', true) /\ kh_share id' = Some ks' /\
      pss_aggregated (eng_refresh e') = true) members keys'.
Proof.
  intros pools members. apply (committee_refreshes_together toy_rng quad.1 3 9 105 quad.2 (quad_refresh <$> [1; 2; 3; 4]) members).
  - apply (custody_generated toy_rng 4 3); [discriminate|]. vm_compute. reflexivity.
  - assert (rf_from_index <$> (quad_refresh <$> [1; 2; 3; 4]) = [1; 2; 3; 4]) as -> by (vm_compute; reflexivity).
    clear. repeat (apply NoDup_cons; split; [set_solver|]). apply NoDup_nil_2.
  - vm_compute. discriminate.
  - assert (forallb (fun c => (len (rf_deltas c) <? 2 ^ 63) && forallb (fun ks => ks_index ks <=? len (rf_deltas c)) quad.2 &&
              returned false (verify_refresh_contribution c 3 9 [])) (quad_refresh <$> [1; 2; 3; 4]) = true) as G by (vm_compute; reflexivity).
    apply Forall_forall. intros c Hc%list_elem_of_In. rewrite forallb_forall in G. specialize (G c Hc). apply andb_true_iff in G as [G1 G3].
    apply andb_true_iff in G1 as [G1 G2]. split; [clear -G1; lia|]. split.
    + apply Forall_forall. intros ks Hk%list_elem_of_In. rewrite forallb_forall in G2. specialize (G2 ks Hk). clear -G2. lia.
    + exists []. clear -G3. destruct (verify_refresh_contribution c 3 9 []) as [[]| |]; [reflexivity|discriminate G3..].
  - assert (length quad.2 = 4%nat) as L by (vm_compute; reflexivity). unfold members, pools.
    assert (forall pool, pool ≡ₚ [1; 2; 3; 4] -> refresh_due 105 (quad_due (quad_refresh <$> pool)) /\
              quorum_for_committee (len (eng_committee_keys (quad_due (quad_refresh <$> pool)))) = 3 /\
              pss_contributions (eng_refresh (quad_due (quad_refresh <$> pool))) ≡ₚ quad_refresh <$> [1; 2; 3; 4]) as M.
    { intros pool Pm. split; [split; [reflexivity|]; split; [discriminate|]; split; [discriminate|vm_compute; discriminate]|].
      split; [vm_compute; reflexivity|]. cbn [quad_due quad_engine eng_refresh pss_contributions]. by rewrite Pm. }
    apply Forall2_same_length_lookup_2; [rewrite L; reflexivity|]. intros i ks m Hk Hm.
    rewrite lookup_zip_with in Hm. assert (i < 4)%nat as Hi by (rewrite <- L; by eapply lookup_lt_Some).
    destruct i as [|[|[|[|i]]]]; [..|lia]; cbn in Hm; injection Hm as <-; cbn [fst snd quad_holder kh_share]; (split; [exact Hk|]).
    + apply (M [3; 1; 2; 4]). clear. solve_Permutation.
    + apply (M [1; 2; 3; 4]). reflexivity.
    + apply (M [4; 3; 2; 1]). clear. solve_Permutation.
    + apply (M [2; 4; 1; 3]). clear. solve_Permutation.
Defined.

Lemma pools_stay_distinct_witness :
  let e := quad_due [quad_refresh 2] in
  exists e', on_pss_message 9 (rf_to_bytes (quad_refresh 1)) true e = Returns e' /\ pools_ok e' /\
    rf_from_index <$> pss_contributions (eng_refresh e') = [2; 1].
Proof.
  intros e. assert (match on_pss_message 9 (rf_to_bytes (quad_refresh 1)) true e with
      | Returns e' => bool_decide (rf_from_index <$> pss_contributions (eng_refresh e') = [2; 1]) | _ => false end = true) as E by (vm_compute; reflexivity).
  destruct (on_pss_message 9 (rf_to_bytes (quad_refresh 1)) true e) as [e'| |] eqn:R; [|discriminate E..]. apply bool_decide_eq_true in E.
  exists e'. split; [reflexivity|]. split; [|exact E]. apply (pools_stay_distinct e e').
  - split; [apply NoDup_singleton|]. split; [|apply NoDup_nil_2]. constructor; [vm_compute; reflexivity|constructor].
  - apply rtc_once. exact (step_pss 9 (rf_to_bytes (quad_refresh 1)) true e e' R).
Defined.

(** Member 1 contributes three rows, for a committee of four; everyone accepts it. *)
Definition short_refresh : RefreshContribution :=
  ok_of (mkRefresh 0 0 [] []) (returned (Err "") (generate_refresh_contribution 1 3 3 9 [1] toy_sign)).

Lemma short_refresh_aborts_witness :
  quad_receives [quad_refresh 4] [short_refresh; quad_refresh 2] = Some [quad_refresh 4; short_refresh; quad_refresh 2] /\
  try_apply_pss_on_slot 105 (quad_due [quad_refresh 4; short_refresh; quad_refresh 2]) (quad_holder 4) = Panics.
Proof.
  split; [vm_compute; reflexivity|]. set (e := quad_due [quad_refresh 4; short_refresh; quad_refresh 2]).
  assert (match kh_share (quad_holder 4) with Some ks => ks_index ks | None => 0 end = 4) as E by (vm_compute; reflexivity).
  destruct (kh_share (quad_holder 4)) as [ks|] eqn:Ek; [|discriminate E].
  assert (canonical_refresh_subset (pss_contributions (eng_refresh e)) (quorum_for_committee (len (eng_committee_keys e))) =
            Some [short_refresh; quad_refresh 2; quad_refresh 4]) as Ec by (vm_compute; reflexivity).
  apply (short_refresh_aborts 105 e (quad_holder 4) ks [short_refresh; quad_refresh 2; quad_refresh 4] short_refresh).
  - split; [reflexivity|]. split; [discriminate|]. split; [discriminate|]. vm_compute. discriminate.
  - exact Ek.
  - rewrite E. split; discriminate.
  - exact Ec.
  - left.
  - rewrite E. vm_compute. reflexivity.
Defined.

(** Finding: a contribution sent to some members only destroys the key.  Four
    members hold the key, and the refresh takes the three lowest of the
    contributions in each member's own pool.  If member 1 sends its contribution to
    all but member 4, every pool has enough, every contribution is accepted, every
    member refreshes; but the shares of members 2, 3 and 4 no longer decrypt,
    while those of three members with equal pools do. *)
Theorem selective_refresh_splits :
  let all := quad_refresh <$> [1; 2; 3; 4] in
  let most := quad_refresh <$> [2; 3; 4] in
  quad_receives [] all = Some all /\ quad_receives [] most = Some most /\
  (exists keys, [quad_after 2 all; quad_after 3 all; quad_after 4 most] = Some <$> keys /\ quad_decrypts keys = Returns (Err "decryption failed")) /\
  (exists keys, [quad_after 2 all; quad_after 3 all; quad_after 4 all] = Some <$> keys /\ quad_decrypts keys = Returns (Ok [104; 105])).
Proof.
  split; [vm_compute; reflexivity|]. split; [vm_compute; reflexivity|]. set (get := fun o => default (mkKeyShare 0 []) o). split.
  - exists (get <$> [quad_after 2 (quad_refresh <$> [1; 2; 3; 4]); quad_after 3 (quad_refresh <$> [1; 2; 3; 4]); quad_after 4 (quad_refresh <$> [2; 3; 4])]).
    split; vm_compute; reflexivity.
  - exists (get <$> [quad_after 2 (quad_refresh <$> [1; 2; 3; 4]); quad_after 3 (quad_refresh <$> [1; 2; 3; 4]); quad_after 4 (quad_refresh <$> [1; 2; 3; 4])]).
    split; vm_compute; reflexivity.
Qed.

(** A member of the old and of the new committee, both of four, whose third
    contribution to the handoff comes after the refresh. *)
Definition quad_transfer (i : Z) : ResharingContribution :=
  match quad.2 !! Z.to_nat (i - 1) with
  | Some ks => returned (mkResharing 0 []) (generate_resharing_contribution ks 4 3 8 [i])
  | None => mkResharing 0 []
  end.
Definition quad_late : Engine :=
  mkEngine toy_committee [] 105 [] (mkPss (quad_refresh <$> [1; 2; 3]) 9 105 false None 100)
    (mkHandoff (quad_transfer <$> [1; 2; 3]) 8 toy_committee 2 106 false None 100) false None.

Lemma late_handoff_drops_refresh_witness :
  exists e1 id1 e2 id2, try_apply_pss_on_slot 105 quad_late (quad_holder 2) = Returns (e1, id1, true) /\
    try_aggregate_reshare_on_slot 106 4 e1 id1 = Returns (e2, id2, true) /\ try_apply_pss_on_slot 107 e2 id2 = Returns (e2, id2, false).
Proof.
  assert (match try_apply_pss_on_slot 105 quad_late (quad_holder 2) with
    | Returns (e1, id1, true) => match try_aggregate_reshare_on_slot 106 4 e1 id1 with Returns (_, _, b) => b | _ => false end
    | _ => false end = true) as E by (vm_compute; reflexivity).
  destruct (try_apply_pss_on_slot 105 quad_late (quad_holder 2)) as [[[e1 id1] [|]]| |] eqn:R1; [|discriminate E..].
  destruct (try_aggregate_reshare_on_slot 106 4 e1 id1) as [[[e2 id2] [|]]| |] eqn:R2; [|discriminate E..].
  exists e1, id1, e2, id2. split; [reflexivity|]. split; [exact R2|].
  exact (proj2 (late_handoff_drops_refresh 105 106 4 quad_late e1 e2 (quad_holder 2) id1 id2 R1 R2) 107).
Defined.
