(* ===== verification/Dkg.v ===== *)
(** * Distributed key generation

    [crypto/src/dkg.rs]: every member of a committee deals shares of a secret of
    its own, commits to them by a signed Merkle root, and sends each member its
    row in an envelope under that member's ML-KEM key.  Rows that verify are
    added up to a share of the sum of the secrets; a row that does not is the
    matter of a complaint.

    Indices are [usize]; the formats carry their low 32 bits. *)

From stdpp Require Import base numbers list option strings.
From Stdlib Require Import ZArith Lia.
From S2P Require Import Prelude Crypto Wire Chain ViewChange Encrypted Goldilocks Threshold.

#[local] Open Scope Z_scope.
#[local] Open Scope pyde_scope.

Definition DKG_COMMIT_SIG_DOMAIN : list Z := bytes_of_string "PYDE_DKG_COMMIT_V1" ++ [0].
Definition DKG_MERKLE_LEAF_DOMAIN : list Z := bytes_of_string "PYDE_DKG_MERKLE_LEAF_V1" ++ [0].
Definition DKG_MERKLE_NODE_DOMAIN : list Z := bytes_of_string "PYDE_DKG_MERKLE_NODE_V1" ++ [0].
Definition DKG_MERKLE_EMPTY_DOMAIN : list Z := bytes_of_string "PYDE_DKG_MERKLE_EMPTY_V1" ++ [0].
Definition DKG_AEAD_KS_DOMAIN : list Z := bytes_of_string "PYDE_DKG_AEAD_KS_V1" ++ [0].
Definition DKG_AEAD_MAC_DOMAIN : list Z := bytes_of_string "PYDE_DKG_AEAD_MAC_V1" ++ [0].
Definition DKG_COMPLAINT_SIG_DOMAIN : list Z := bytes_of_string "PYDE_DKG_COMPLAINT_V1" ++ [0].
Definition DKG_SECRET_SEED_DOMAIN : list Z := bytes_of_string "PYDE_DKG_SECRET_SEED_V1" ++ [0].
Definition DKG_POLY_COEFF_DOMAIN : list Z := bytes_of_string "PYDE_DKG_POLY_COEFF_V1" ++ [0].

(** [x as u32], little endian. *)
Definition index_bytes (x : Z) : list Z := le_encode 4 (wrap u32 x).

(** ** Rows *)

Record ShareRow : Type := mkRow { receiver_index : Z; values : list Z }.

Definition WIRE_LEN : Z := 4 + 8 * Z.of_nat SEED_ELEMENTS.

Definition row_to_bytes (r : ShareRow) : list Z := index_bytes (receiver_index r) ++ enc_elements (values r).

Definition row_from_bytes (bytes : list Z) : option ShareRow :=
  if negb (len bytes =? WIRE_LEN) then None
  else mkRow (le_at 0 4 bytes) <$> dec_elements 4 SEED_ELEMENTS bytes.

Record MerkleProof : Type := mkProof { leaf_index : Z; siblings : list (list Z) }.

Definition proof_to_bytes (p : MerkleProof) : list Z :=
  index_bytes (leaf_index p) ++ index_bytes (len (siblings p)) ++ concat (siblings p).

Definition proof_from_bytes (bytes : list Z) : option MerkleProof :=
  if len bytes <? 8 then None
  else
    let count := le_at 4 4 bytes in
    if negb (len bytes =? 8 + 32 * count) then None
    else Some (mkProof (le_at 0 4 bytes) ((fun i => slice (8 + i * 32) 32 bytes) <$> seq 0 (Z.to_nat count))).

Record DkgCommitment : Type := mkCommitment {
  cm_epoch : Z; cm_from_index : Z; cm_n : Z; cm_threshold : Z; cm_merkle_root : list Z; cm_signature : list Z
}.

Definition commitment_preimage (c : DkgCommitment) : list Z :=
  DKG_COMMIT_SIG_DOMAIN ++ le_encode 8 (cm_epoch c) ++ index_bytes (cm_from_index c) ++ index_bytes (cm_n c) ++
  index_bytes (cm_threshold c) ++ cm_merkle_root c.

Definition commitment_sign (c : DkgCommitment) (sign : Signer) : Result DkgCommitment string :=
  match sign (commitment_preimage c) with
  | Err e => Err e
  | Ok sig => Ok (mkCommitment (cm_epoch c) (cm_from_index c) (cm_n c) (cm_threshold c) (cm_merkle_root c) sig)
  end.

Definition commitment_to_bytes (c : DkgCommitment) : list Z :=
  le_encode 8 (cm_epoch c) ++ index_bytes (cm_from_index c) ++ index_bytes (cm_n c) ++ index_bytes (cm_threshold c) ++
  cm_merkle_root c ++ index_bytes (len (cm_signature c)) ++ cm_signature c.

Definition commitment_from_bytes (bytes : list Z) : option DkgCommitment :=
  if len bytes <? 56 then None
  else
    let sig_len := le_at 52 4 bytes in
    if negb (len bytes =? 56 + sig_len) then None
    else Some (mkCommitment (le_at 0 8 bytes) (le_at 8 4 bytes) (le_at 12 4 bytes) (le_at 16 4 bytes)
                 (slice 20 32 bytes) (slice 56 (Z.to_nat sig_len) bytes)).

Record DkgShareEnvelope : Type := mkEnvelope { ev_kyber_ct : list Z; ev_ciphertext : list Z; ev_mac : list Z }.

Definition envelope_to_bytes (e : DkgShareEnvelope) : list Z :=
  index_bytes (len (ev_kyber_ct e)) ++ ev_kyber_ct e ++ index_bytes (len (ev_ciphertext e)) ++ ev_ciphertext e ++ ev_mac e.

Definition envelope_from_bytes (bytes : list Z) : option DkgShareEnvelope :=
  if len bytes <? 4 then None
  else
    let ct_len := le_at 0 4 bytes in
    let after_kct := 4 + ct_len in
    if len bytes <? after_kct + 4 then None
    else
      let cipher_len := le_at (Z.to_nat after_kct) 4 bytes in
      let after_cipher := after_kct + 4 + cipher_len in
      if negb (len bytes =? after_cipher + 32) then None
      else Some (mkEnvelope (slice 4 (Z.to_nat ct_len) bytes) (slice (Z.to_nat (after_kct + 4)) (Z.to_nat cipher_len) bytes)
                   (slice (Z.to_nat after_cipher) 32 bytes)).

Record DkgComplaint : Type := mkComplaint {
  cp_epoch : Z; cp_from_index : Z; cp_against_index : Z; cp_envelope : DkgShareEnvelope; cp_revealed_ss : list Z;
  cp_merkle_proof : MerkleProof; cp_signature : list Z
}.

Definition complaint_to_bytes (c : DkgComplaint) : list Z :=
  let env_bytes := envelope_to_bytes (cp_envelope c) in
  let proof_bytes := proof_to_bytes (cp_merkle_proof c) in
  le_encode 8 (cp_epoch c) ++ index_bytes (cp_from_index c) ++ index_bytes (cp_against_index c) ++
  index_bytes (len env_bytes) ++ env_bytes ++ cp_revealed_ss c ++ index_bytes (len proof_bytes) ++ proof_bytes ++
  index_bytes (len (cp_signature c)) ++ cp_signature c.

Definition complaint_from_bytes (bytes : list Z) : option DkgComplaint :=
  if len bytes <? 20 then None
  else
    let env_len := le_at 16 4 bytes in
    let env_end := 20 + env_len in
    if len bytes <? env_end + 36 then None
    else
      match envelope_from_bytes (slice 20 (Z.to_nat env_len) bytes) with
      | None => None
      | Some envelope =>
          let proof_len_off := env_end + 32 in
          let proof_len := le_at (Z.to_nat proof_len_off) 4 bytes in
          let proof_end := proof_len_off + 4 + proof_len in
          if len bytes <? proof_end + 4 then None
          else
            match proof_from_bytes (slice (Z.to_nat (proof_len_off + 4)) (Z.to_nat proof_len) bytes) with
            | None => None
            | Some merkle_proof =>
                let sig_len := le_at (Z.to_nat proof_end) 4 bytes in
                if negb (len bytes =? proof_end + 4 + sig_len) then None
                else Some (mkComplaint (le_at 0 8 bytes) (le_at 8 4 bytes) (le_at 12 4 bytes) envelope
                             (slice (Z.to_nat env_end) 32 bytes) merkle_proof (drop (Z.to_nat (proof_end + 4)) bytes))
            end
      end.

Record MasterShare : Type := mkMaster { ms_index : Z; ms_values : list Z }.

Definition master_to_bytes (m : MasterShare) : list Z := index_bytes (ms_index m) ++ enc_elements (ms_values m).

Definition master_from_bytes (bytes : list Z) : option MasterShare :=
  if negb (len bytes =? WIRE_LEN) then None
  else mkMaster (le_at 0 4 bytes) <$> dec_elements 4 SEED_ELEMENTS bytes.

Section Dkg.
Context {P : Primitives} {K : Kem}.

(** ** The Merkle tree over the rows *)

Definition row_leaf_hash (r : ShareRow) (epoch from_index : Z) : list Z :=
  poseidon2_hash (DKG_MERKLE_LEAF_DOMAIN ++ le_encode 8 epoch ++ index_bytes from_index ++
                  index_bytes (receiver_index r) ++ enc_elements (values r)).

Definition empty_leaf_hash (epoch from_index : Z) : list Z :=
  poseidon2_hash (DKG_MERKLE_EMPTY_DOMAIN ++ le_encode 8 epoch ++ index_bytes from_index).

Definition node_hash (l r : list Z) : list Z := poseidon2_hash (DKG_MERKLE_NODE_DOMAIN ++ l ++ r).

Definition next_power_of_two (n : nat) : nat := 2 ^ Nat.log2_up n.

(** The [while] that pushes [empty] up to the target. *)
Definition pad_level (leaves : list (list Z)) (empty : list Z) : list (list Z) :=
  leaves ++ replicate (next_power_of_two (length leaves) - length leaves) empty.

(** One level up: [chunk[1]] of a chunk of one leaf is out of bounds. *)
Fixpoint pair_up (level : list (list Z)) : Run (list (list Z)) :=
  match level with
  | [] => Returns []
  | [_] => Panics
  | a :: b :: rest => next <~ pair_up rest ;; Returns (node_hash a b :: next)
  end.

(** A level has half the nodes of the one below, so its number of nodes is fuel
    enough (Lemma [root_returns]). *)
Fixpoint climb (fuel : nat) (level : list (list Z)) : Run (list Z) :=
  if (1 <? length level)%nat then
    match fuel with
    | O => OutOfFuel
    | S fuel' => next <~ pair_up level ;; climb fuel' next
    end
  else unwrap (level !! 0%nat).

Definition compute_merkle_root (leaves : list (list Z)) (epoch from_index : Z) : Run (list Z) :=
  let empty := empty_leaf_hash epoch from_index in
  match leaves with
  | [] => Returns empty
  | _ => climb (length (pad_level leaves empty)) (pad_level leaves empty)
  end.

Fixpoint climb_proof (fuel : nat) (level : list (list Z)) (idx : nat) : Run (list (list Z)) :=
  if (1 <? length level)%nat then
    match fuel with
    | O => OutOfFuel
    | S fuel' =>
        sibling <~ unwrap (if Nat.even idx then level !! S idx else level !! Nat.pred idx) ;;
        next <~ pair_up level ;;
        rest <~ climb_proof fuel' next (Nat.div2 idx) ;;
        Returns (sibling :: rest)
    end
  else Returns [].

Definition merkle_proof (leaves : list (list Z)) (index : nat) (epoch from_index : Z) : Run (option MerkleProof) :=
  if (length leaves <=? index)%nat then Returns None
  else
    let level := pad_level leaves (empty_leaf_hash epoch from_index) in
    path <~ climb_proof (length level) level index ;;
    Returns (Some (mkProof (Z.of_nat index) path)).

Definition fold_path (leaf : list Z) (path : list (list Z)) (index : Z) : list Z :=
  (foldl (fun '(cur, idx) sib => (if Z.even idx then node_hash cur sib else node_hash sib cur, idx / 2)) (leaf, index) path).1.

Definition verify_merkle_proof (root leaf : list Z) (proof : MerkleProof) : bool :=
  bool_decide (fold_path leaf (siblings proof) (leaf_index proof) = root).

Definition commitment_verify (c : DkgCommitment) (pk : list Z) : bool :=
  match FalconSignature_from_bytes (cm_signature c) with
  | None => false
  | Some sig => falcon_verify pk (commitment_preimage c) sig
  end.

(** ** Envelopes *)

(** The key material, the ciphertext and the tuple an envelope is bound to. *)
Definition binding (ss kyber_ct : list Z) (epoch from_index recipient_index : Z) : list Z :=
  ss ++ kyber_ct ++ le_encode 8 epoch ++ index_bytes from_index ++ index_bytes recipient_index.

Fixpoint aead_blocks (fuel : nat) (bound : list Z) (counter : Z) (out : list Z) (n : nat) : list Z :=
  match fuel with
  | O => out
  | S fuel' =>
      if (length out <? n)%nat
      then aead_blocks fuel' bound (wrap u64 (counter + 1)) (out ++ poseidon2_hash (DKG_AEAD_KS_DOMAIN ++ bound ++ le_encode 8 counter)) n
      else out
  end.

(** Every round adds 32 bytes, so [n] rounds are enough. *)
Definition dkg_aead_keystream (ss kyber_ct : list Z) (epoch from_index recipient_index : Z) (n : nat) : list Z :=
  take n (aead_blocks n (binding ss kyber_ct epoch from_index recipient_index) 0 [] n).

Definition dkg_aead_mac (ss kyber_ct : list Z) (epoch from_index recipient_index : Z) (ciphertext : list Z) : list Z :=
  poseidon2_hash (DKG_AEAD_MAC_DOMAIN ++ binding ss kyber_ct epoch from_index recipient_index ++ ciphertext).

Definition encrypt_share_row (row : ShareRow) (recipient_pk r : list Z) (epoch from_index : Z) : Result DkgShareEnvelope string :=
  match kyber_encapsulate recipient_pk r with
  | Err e => Err e
  | Ok (kct, ss) =>
      let plaintext := row_to_bytes row in
      let ciphertext := xor_bytes plaintext (dkg_aead_keystream ss kct epoch from_index (receiver_index row) (length plaintext)) in
      Ok (mkEnvelope kct ciphertext (dkg_aead_mac ss kct epoch from_index (receiver_index row) ciphertext))
  end.

Definition decrypt_share_row (envelope : DkgShareEnvelope) (recipient_sk : list Z) (epoch from_index expected_receiver_index : Z) :
    option ShareRow :=
  let ss := match KyberCiphertext_from_bytes (ev_kyber_ct envelope) with
            | Some kct => match kyber_decapsulate recipient_sk kct with Ok ss => ss | Err _ => replicate 32 0 end
            | None => replicate 32 0
            end in
  let expected_mac := dkg_aead_mac ss (ev_kyber_ct envelope) epoch from_index expected_receiver_index (ev_ciphertext envelope) in
  if negb (bool_decide (expected_mac = ev_mac envelope)) then None
  else
    let plaintext := xor_bytes (ev_ciphertext envelope)
      (dkg_aead_keystream ss (ev_kyber_ct envelope) epoch from_index expected_receiver_index (length (ev_ciphertext envelope))) in
    match row_from_bytes plaintext with
    | None => None
    | Some row => if negb (receiver_index row =? expected_receiver_index) then None else Some row
    end.

(** ** Complaints *)

Definition complaint_preimage (c : DkgComplaint) : list Z :=
  DKG_COMPLAINT_SIG_DOMAIN ++ le_encode 8 (cp_epoch c) ++ index_bytes (cp_from_index c) ++ index_bytes (cp_against_index c) ++
  poseidon2_hash (envelope_to_bytes (cp_envelope c)) ++ cp_revealed_ss c ++ poseidon2_hash (proof_to_bytes (cp_merkle_proof c)).

Definition complaint_sign (c : DkgComplaint) (sign : Signer) : Result DkgComplaint string :=
  match sign (complaint_preimage c) with
  | Err e => Err e
  | Ok sig => Ok (mkComplaint (cp_epoch c) (cp_from_index c) (cp_against_index c) (cp_envelope c) (cp_revealed_ss c) (cp_merkle_proof c) sig)
  end.

Inductive ComplaintVerdict : Type := InvalidSignature | Malformed | EnvelopeUnverifiable | ContributorFaulty | Slander.

Definition verify_complaint (c : DkgComplaint) (complainant_falcon_pk contributor_merkle_root : list Z) : ComplaintVerdict :=
  let envelope := cp_envelope c in
  match FalconSignature_from_bytes (cp_signature c) with
  | None => InvalidSignature
  | Some sig =>
      if negb (falcon_verify complainant_falcon_pk (complaint_preimage c) sig) then InvalidSignature
      else if negb (wrap u64 (leaf_index (cp_merkle_proof c) + 1) =? cp_against_index c) then Malformed
      else if negb (bool_decide (dkg_aead_mac (cp_revealed_ss c) (ev_kyber_ct envelope) (cp_epoch c) (cp_from_index c)
                                   (cp_against_index c) (ev_ciphertext envelope) = ev_mac envelope)) then EnvelopeUnverifiable
      else
        let plaintext := xor_bytes (ev_ciphertext envelope)
          (dkg_aead_keystream (cp_revealed_ss c) (ev_kyber_ct envelope) (cp_epoch c) (cp_from_index c) (cp_against_index c)
             (length (ev_ciphertext envelope))) in
        match row_from_bytes plaintext with
        | None => ContributorFaulty
        | Some row =>
            if negb (receiver_index row =? cp_against_index c) then ContributorFaulty
            else if verify_merkle_proof contributor_merkle_root (row_leaf_hash row (cp_epoch c) (cp_from_index c)) (cp_merkle_proof c)
            then Slander
            else ContributorFaulty
        end
  end.

(** ** Contributions *)

Definition MAX_REJECTION_RETRIES : nat := 64.

(** [remaining] attempts of the budget are left, [attempt] have been made. *)
Fixpoint sample_from (remaining : nat) (prefix : list Z) (attempt : Z) : Result Z string :=
  match remaining with
  | O => Err "DKG sampling exceeded rejection-retry budget"
  | S remaining' =>
      let val := le_decode (take 8 (poseidon2_hash (prefix ++ le_encode 8 attempt))) in
      if val <? GOLDILOCKS_PRIME then Ok (gl val) else sample_from remaining' prefix (attempt + 1)
  end.

Definition sample_goldilocks (domain rng_seed : list Z) (from_index element_idx coeff_idx : Z) : Result Z string :=
  sample_from MAX_REJECTION_RETRIES
    (domain ++ rng_seed ++ index_bytes from_index ++ index_bytes element_idx ++ index_bytes coeff_idx) 0.

Fixpoint collect_ok {A B E : Type} (f : A -> Result B E) (l : list A) : Result (list B) E :=
  match l with
  | [] => Ok []
  | a :: l' => and_then (f a) (fun b => and_then (collect_ok f l') (fun bs => Ok (b :: bs)))
  end.

Definition dkg_shamir_split_y (secret : Z) (n threshold : nat) (rng_seed : list Z) (from_index element_idx : Z) : Result (list Z) string :=
  and_then (collect_ok (fun k => sample_goldilocks DKG_POLY_COEFF_DOMAIN rng_seed from_index element_idx (Z.of_nat k)) (seq 1 (threshold - 1)))
    (fun rest => Ok ((fun j => evaluate (secret :: rest) (gl (Z.of_nat j))) <$> seq 1 n)).

Record DkgContribution : Type := mkContribution {
  ct_commitment : DkgCommitment;
  ct_recipient_envelopes : list (DkgShareEnvelope * MerkleProof);
  ct_own_share_row : ShareRow;
  ct_own_merkle_proof : MerkleProof
}.

(** The secret's elements and their polynomials' values, a list per element. *)
Definition deal (rng_seed : list Z) (from_index : Z) (n threshold : nat) : Result (list (list Z)) string :=
  and_then (collect_ok (fun k => sample_goldilocks DKG_SECRET_SEED_DOMAIN rng_seed from_index (Z.of_nat k) 0) (seq 0 SEED_ELEMENTS))
    (fun secret => collect_ok (fun '(k, s) => dkg_shamir_split_y s n threshold rng_seed from_index (Z.of_nat k)) (imap pair secret)).

Definition rows_of (n : nat) (ys : list (list Z)) : Run (list ShareRow) :=
  run_map (fun j => values <~ run_map (fun y => unwrap (y !! Nat.pred j)) ys ;; Returns (mkRow (Z.of_nat j) values)) (seq 1 n).

(** The commitment to rows and the envelopes that carry them; [r j] is the
    randomness of the encapsulation for member [j + 1]. *)
Definition commit_rows (rows : list ShareRow) (r : nat -> list Z) (epoch from_index : Z) (n threshold : nat)
    (recipient_kem_pks : list (list Z)) (sign : Signer) : Run (Result DkgContribution string) :=
  let leaves := (fun row => row_leaf_hash row epoch from_index) <$> rows in
  merkle_root <~ compute_merkle_root leaves epoch from_index ;;
  match commitment_sign (mkCommitment epoch from_index (Z.of_nat n) (Z.of_nat threshold) merkle_root []) sign with
  | Err e => Returns (Err e)
  | Ok commitment =>
      proofs <~ run_map (fun j => proof <~ merkle_proof leaves j epoch from_index ;; unwrap proof) (seq 0 n) ;;
      sealed <~ run_map (fun '(i, row) =>
        pk <~ unwrap (recipient_kem_pks !! i) ;;
        proof <~ unwrap (proofs !! i) ;;
        Returns (and_then (encrypt_share_row row pk (r i) epoch from_index) (fun env => Ok (env, proof)))) (imap pair rows) ;;
      match collect_ok (fun x => x) sealed with
      | Err e => Returns (Err e)
      | Ok recipient_envelopes =>
          let own := Z.to_nat (from_index - 1) in
          own_share_row <~ unwrap (rows !! own) ;;
          own_merkle_proof <~ unwrap (proofs !! own) ;;
          Returns (Ok (mkContribution commitment recipient_envelopes own_share_row own_merkle_proof))
      end
  end.

Definition generate_dkg_contribution (rng_seed : list Z) (r : nat -> list Z) (epoch from_index : Z) (n threshold : nat)
    (recipient_kem_pks : list (list Z)) (sign : Signer) : Run (Result DkgContribution string) :=
  if (from_index =? 0) || (Z.of_nat n <? from_index) then Returns (Err "from_index out of range (must be 1..=n)")
  else if ((threshold =? 0) || (n <? threshold))%nat then Returns (Err "threshold out of range (must be 1..=n)")
  else if negb (length recipient_kem_pks =? n)%nat then Returns (Err "recipient_kem_pks length must equal n")
  else
    match deal rng_seed from_index n threshold with
    | Err e => Returns (Err e)
    | Ok ys =>
        rows <~ rows_of n ys ;;
        commit_rows rows r epoch from_index n threshold recipient_kem_pks sign
    end.

Inductive ShareVerificationError : Type :=
  CommitmentSignatureInvalid | CommitmentHeaderMismatch | EnvelopeUndecryptable | MerkleProofPositionMismatch | MerkleProofMismatch.

Definition verify_received_share (envelope : DkgShareEnvelope) (proof : MerkleProof) (c : DkgCommitment) (contributor_falcon_pk : list Z)
    (expected_epoch expected_from_index expected_n expected_threshold recipient_index : Z) (recipient_kem_sk : list Z) :
    Result ShareRow ShareVerificationError :=
  if negb (commitment_verify c contributor_falcon_pk) then Err CommitmentSignatureInvalid
  else if negb (cm_epoch c =? expected_epoch) || negb (cm_from_index c =? expected_from_index) ||
          negb (cm_n c =? expected_n) || negb (cm_threshold c =? expected_threshold) then Err CommitmentHeaderMismatch
  else if negb (wrap u64 (leaf_index proof + 1) =? recipient_index) then Err MerkleProofPositionMismatch
  else
    match decrypt_share_row envelope recipient_kem_sk expected_epoch expected_from_index recipient_index with
    | None => Err EnvelopeUndecryptable
    | Some row =>
        if verify_merkle_proof (cm_merkle_root c) (row_leaf_hash row expected_epoch expected_from_index) proof
        then Ok row else Err MerkleProofMismatch
    end.

Fixpoint add_rows (holder_index : Z) (acc : list Z) (rows : list ShareRow) : Result (list Z) string :=
  match rows with
  | [] => Ok acc
  | row :: rest =>
      if negb (receiver_index row =? holder_index) then Err "aggregate_local_share: row addressed to a different holder"
      else add_rows holder_index (zip_with gl_add acc (values row)) rest
  end.

Definition aggregate_local_share (holder_index : Z) (verified_share_rows : list ShareRow) : Result MasterShare string :=
  match verified_share_rows with
  | [] => Err "aggregate_local_share: no contributors"
  | _ => and_then (add_rows holder_index (replicate SEED_ELEMENTS 0) verified_share_rows) (fun values => Ok (mkMaster holder_index values))
  end.
End Dkg.
