(* ===== verification/DkgProps.v ===== *)
(** * What distributed key generation promises

    Theorems about [Dkg]: honest contributions are accepted by every member and
    add up to shares of the sum of the secrets, a commitment binds its dealer to
    one row per member, a complaint settles as its recipient decided, and what
    commitments and complaints do not show. *)

From stdpp Require Import base numbers list option strings sets gmap.
From Stdlib Require Import ZArith Lia.
From S2P Require Import Prelude Crypto Wire Chain ViewChange Encrypted Goldilocks Threshold ThresholdProps ThresholdFindings Dkg.

#[local] Open Scope Z_scope.
#[local] Open Scope pyde_scope.

(** A row as dealers make them: addressed to a member, eight canonical values. *)
Record row_ok (r : ShareRow) : Prop := {
  ok_index : 0 <= receiver_index r < 2 ^ 32;
  ok_values : Forall canonical (values r);
  ok_count : length (values r) = SEED_ELEMENTS
}.

(** Node [k] of height [d] above [leaf]. *)
Fixpoint node {P : Primitives} (leaf : nat -> list Z) (d k : nat) : list Z :=
  match d with
  | O => leaf k
  | S d' => node_hash (node leaf d' (2 * k)) (node leaf d' (2 * k + 1))
  end.

(** A hash input [x] that is not another input [y] has another digest. *)
Definition separate {P : Primitives} (s : list (list Z)) : Prop :=
  forall x y, x ∈ s -> y ∈ s -> poseidon2_hash x = poseidon2_hash y -> x = y.

Definition node_input (l r : list Z) : list Z := DKG_MERKLE_NODE_DOMAIN ++ l ++ r.

Definition leaf_input (r : ShareRow) (epoch from_index : Z) : list Z :=
  DKG_MERKLE_LEAF_DOMAIN ++ le_encode 8 epoch ++ index_bytes from_index ++ index_bytes (receiver_index r) ++ enc_elements (values r).

Definition empty_input (epoch from_index : Z) : list Z :=
  DKG_MERKLE_EMPTY_DOMAIN ++ le_encode 8 epoch ++ index_bytes from_index.

Section Props.
Context {P : Primitives} {PO : PrimitivesOk P} {K : Kem} {KO : KemOk K}.

(** ** The tree *)

Lemma pair_up_even (m : nat) (level : list (list Z)) :
  length level = (2 * m)%nat ->
  exists next, pair_up level = Returns next /\ length next = m /\
    forall i a b, level !! (2 * i)%nat = Some a -> level !! S (2 * i) = Some b -> next !! i = Some (node_hash a b).
Proof.
  revert level. induction m as [|m IH]; intros level L.
  - destruct level; [|discriminate]. exists []. split_and!; [done..|]. intros i a b Ha. done.
  - destruct level as [|a [|b rest]]; [discriminate|cbn in L; lia|].
    destruct (IH rest) as (next & E & Ln & H); [cbn in L; lia|].
    exists (node_hash a b :: next). split_and!; [cbn [pair_up]; by rewrite E|cbn; by rewrite Ln|].
    intros [|i] x y Hx Hy; [cbn in *; congruence|].
    replace (2 * S i)%nat with (S (S (2 * i))) in * by lia. cbn in Hx, Hy |- *. by apply H.
Qed.

(** A full level climbs to its root, and the proof of any of its nodes folds up
    to that root. *)
Lemma climb_spec (d : nat) : forall (fuel idx : nat) (level : list (list Z)) (leaf : list Z),
  (d <= fuel)%nat -> length level = (2 ^ d)%nat -> level !! idx = Some leaf ->
  exists root path, climb fuel level = Returns root /\ climb_proof fuel level idx = Returns path /\
    length path = d /\ fold_path leaf path (Z.of_nat idx) = root.
Proof.
  induction d as [|d IH]; intros fuel idx level leaf Hf L Hi.
  - destruct level as [|x []]; try discriminate. destruct idx as [|idx]; [|done]. cbn in Hi. simplify_eq.
    exists leaf, []. destruct fuel; done.
  - rewrite Nat.pow_succ_r' in L. destruct (pair_up_even _ _ L) as (next & E & Ln & H).
    assert (0 < 2 ^ d)%nat as Hp by (apply Nat.neq_0_lt_0, Nat.pow_nonzero; lia).
    pose proof (lookup_lt_Some _ _ _ Hi) as Hlt.
    pose proof (Nat.div2_odd idx) as Ed. set (h := Nat.div2 idx) in *.
    assert (h < 2 ^ d)%nat as Hh by (destruct (Nat.odd idx); cbn in Ed; lia).
    destruct (lookup_lt_is_Some_2 level (2 * h)) as [a Ha]; [lia|].
    destruct (lookup_lt_is_Some_2 level (S (2 * h))) as [b Hb]; [lia|].
    destruct fuel as [|fuel]; [lia|].
    destruct (IH fuel h next (node_hash a b)) as (root & path & Ec & Ep & Lp & Ef); [lia|done|by apply H|].
    exists root. exists ((if Nat.even idx then b else a) :: path).
    assert ((1 <? length level)%nat = true) as Hl by (apply Nat.ltb_lt; lia).
    cbn [climb climb_proof]. rewrite Hl, E. cbn [run_bind]. rewrite Ec.
    split; [done|].
    assert (Z.of_nat idx / 2 = Z.of_nat h) as Ez.
    { unfold h. rewrite Nat.div2_div, Nat2Z.inj_div. done. }
    assert (Z.even (Z.of_nat idx) = Nat.even idx) as Ee.
    { rewrite Ed at 1. rewrite <- Nat.negb_odd. destruct (Nat.odd idx); rewrite Nat2Z.inj_add, Nat2Z.inj_mul, Z.add_comm, Z.even_add_mul_2; done. }
    unfold fold_path in *. cbn [foldl]. rewrite Ez, Ee. rewrite <- Nat.negb_odd in *.
    destruct (Nat.odd idx) eqn:Eo; cbn [negb Nat.b2n] in *.
    + replace (Nat.pred idx) with (2 * h)%nat by lia. rewrite Ha. cbn [unwrap run_bind]. fold h. rewrite Ep. cbn [run_bind].
      assert (leaf = b) as -> by (rewrite Ed in Hi; replace (2 * h + 1)%nat with (S (2 * h)) in Hi by lia; congruence).
      split_and!; [done|cbn; by rewrite Lp|exact Ef].
    + replace (S idx) with (S (2 * h)) by lia. rewrite Hb. cbn [unwrap run_bind]. fold h. rewrite Ep. cbn [run_bind].
      assert (leaf = a) as -> by (rewrite Ed, Nat.add_0_r in Hi; congruence).
      split_and!; [done|cbn; by rewrite Lp|exact Ef].
Qed.

Lemma pad_level_length (leaves : list (list Z)) (empty : list Z) :
  leaves <> [] -> length (pad_level leaves empty) = (2 ^ Nat.log2_up (length leaves))%nat.
Proof.
  intros H. unfold pad_level, next_power_of_two. rewrite length_app, length_replicate.
  assert (length leaves <= 2 ^ Nat.log2_up (length leaves))%nat; [|lia].
  destruct (decide (length leaves <= 1)%nat) as [Hs|]; [|apply Nat.log2_up_spec; lia].
  pose proof (Nat.pow_nonzero 2 (Nat.log2_up (length leaves))). lia.
Qed.

Lemma pow_fuel (d : nat) : (d <= 2 ^ d)%nat.
Proof. pose proof (Nat.pow_gt_lin_r 2 d). lia. Qed.

(** Every leaf of a tree has a proof, and it verifies. *)
Lemma merkle_complete (leaves : list (list Z)) (epoch from_index : Z) :
  leaves <> [] ->
  exists root, compute_merkle_root leaves epoch from_index = Returns root /\
    forall i leaf, leaves !! i = Some leaf ->
      exists proof, merkle_proof leaves i epoch from_index = Returns (Some proof) /\ leaf_index proof = Z.of_nat i /\
        verify_merkle_proof root leaf proof = true.
Proof.
  intros Hne. set (level := pad_level leaves (empty_leaf_hash epoch from_index)).
  pose proof (pad_level_length leaves (empty_leaf_hash epoch from_index) Hne) as L. fold level in L.
  assert (forall i leaf, leaves !! i = Some leaf -> exists root path, climb (length level) level = Returns root /\
    climb_proof (length level) level i = Returns path /\ fold_path leaf path (Z.of_nat i) = root) as Each.
  { intros i leaf Hi. destruct (climb_spec (Nat.log2_up (length leaves)) (length level) i level leaf) as (root & path & Ec & Ep & _ & Ef).
    - rewrite L. apply pow_fuel.
    - exact L.
    - unfold level, pad_level. by apply lookup_app_l_Some.
    - by exists root, path. }
  assert (exists l0, leaves !! 0%nat = Some l0) as [l0 H0] by (destruct leaves as [|l0 ls]; [done|by exists l0]).
  destruct (Each 0%nat l0 H0) as (root & _ & Ec & _).
  exists root. split; [unfold compute_merkle_root; fold level; by destruct leaves|].
  intros i leaf Hi. destruct (Each i leaf Hi) as (root' & path & Ec' & Ep & Ef).
  exists (mkProof (Z.of_nat i) path). split; [|split; [done|apply bool_decide_eq_true; cbn; congruence]].
  unfold merkle_proof. apply lookup_lt_Some in Hi. destruct (Nat.leb_spec (length leaves) i); [lia|].
  fold level. by rewrite Ep.
Qed.

(** ** Envelopes *)

Lemma index_bytes_length (x : Z) : length (index_bytes x) = 4%nat.
Proof. apply length_le_encode. Qed.

Lemma le_index (x : Z) : 0 <= x < 2 ^ 32 -> le_decode (index_bytes x) = x.
Proof. intros H. unfold index_bytes. rewrite wrap_small by done. apply le_decode_encode. cbn. lia. Qed.

Lemma indexed_elements (i : Z) (l : list Z) :
  0 <= i < 2 ^ 32 -> Forall canonical l -> length l = SEED_ELEMENTS ->
  let bytes := index_bytes i ++ enc_elements l in
  len bytes = WIRE_LEN /\ le_at 0 4 bytes = i /\ dec_elements 4 SEED_ELEMENTS bytes = Some l.
Proof.
  intros Hi C L bytes. split_and!.
  - unfold bytes, len. rewrite length_app, index_bytes_length, enc_elements_length, L. done.
  - unfold bytes, le_at. rewrite slice_here by apply index_bytes_length. by apply le_index.
  - unfold bytes. rewrite <- (index_bytes_length i), <- L. rewrite <- (app_nil_r (enc_elements l)) at 1. by apply dec_elements_enc.
Qed.

Lemma row_roundtrip (r : ShareRow) : row_ok r -> row_from_bytes (row_to_bytes r) = Some r.
Proof.
  intros [Hi C L]. destruct (indexed_elements _ _ Hi C L) as (E1 & E2 & E3). destruct r as [i l]. cbn [receiver_index values] in *.
  unfold row_from_bytes, row_to_bytes. cbn [receiver_index values]. by rewrite E1, E2, E3, Z.eqb_refl.
Qed.

Lemma aead_blocks_long (fuel : nat) (bound : list Z) (c : Z) (out : list Z) (n : nat) :
  (n <= length out + fuel)%nat -> (n <= length (aead_blocks fuel bound c out n))%nat.
Proof.
  revert c out. induction fuel as [|fuel IH]; intros c out H; cbn [aead_blocks]; [lia|].
  destruct (Nat.ltb_spec (length out) n); [|done]. apply IH. rewrite length_app, poseidon2_hash_length. lia.
Qed.

Lemma dkg_keystream_length (ss ct : list Z) (epoch from to : Z) (n : nat) : length (dkg_aead_keystream ss ct epoch from to n) = n.
Proof.
  unfold dkg_aead_keystream. rewrite length_take. pose proof (aead_blocks_long n (binding ss ct epoch from to) 0 [] n). cbn in *. lia.
Qed.

Lemma dkg_xor_twice (plain ss ct : list Z) (epoch from to : Z) :
  let ks n := dkg_aead_keystream ss ct epoch from to n in
  let cipher := xor_bytes plain (ks (length plain)) in xor_bytes cipher (ks (length cipher)) = plain.
Proof.
  intros ks cipher. assert (length cipher = length plain) as -> by (apply xor_length, dkg_keystream_length).
  apply xor_twice, dkg_keystream_length.
Qed.

(** The holder of [sk] recovers what was encapsulated under [pk] with [r]. *)
Record kem_pair (pk sk r : list Z) : Prop := {
  pair_pk : len pk = EK_SIZE;
  pair_accepts : kem_accepts pk = true;
  pair_sk : len sk = SEED_SIZE;
  pair_recovers : kem_recovers pk sk r
}.

Lemma sealed_row (row : ShareRow) (pk sk r : list Z) (epoch from : Z) :
  row_ok row -> kem_pair pk sk r ->
  exists env, encrypt_share_row row pk r epoch from = Ok env /\
    decrypt_share_row env sk epoch from (receiver_index row) = Some row.
Proof.
  intros Hr [Lp Ac Ls Rc]. unfold encrypt_share_row, kyber_encapsulate. rewrite Lp, Ac, Z.eqb_refl. cbn [negb].
  pose proof (kem_ct_size pk r) as Lc. unfold kem_recovers in Rc. destruct (kem_encapsulate pk r) as [kct ss]. cbn [fst snd] in *.
  assert (KyberCiphertext_from_bytes kct = Some kct) as Ek by (unfold KyberCiphertext_from_bytes; by rewrite Lc, Z.eqb_refl).
  assert (kyber_decapsulate sk kct = Ok ss) as Ed by (unfold kyber_decapsulate; by rewrite Lc, Ls, !Z.eqb_refl, Rc).
  eexists. split; [reflexivity|]. unfold decrypt_share_row. cbn [ev_kyber_ct ev_ciphertext ev_mac]. rewrite Ek, Ed.
  rewrite bool_decide_eq_true_2 by done. cbn [negb]. rewrite dkg_xor_twice, row_roundtrip by done. by rewrite Z.eqb_refl.
Qed.

(** ** Commitments *)

(** [sign] makes signatures that [pk] verifies, of messages of this size. *)
Definition signs_for (sign : Signer) (pk : list Z) : Prop :=
  forall msg, len msg <= 256 -> exists sig, sign msg = Ok sig /\ FalconSignature_from_bytes sig = Some sig /\ falcon_verify pk msg sig = true.

Lemma collect_ok_all {A B E : Type} (f : A -> Result B E) (l : list A) (k : list B) :
  Forall2 (fun a b => f a = Ok b) l k -> collect_ok f l = Ok k.
Proof. induction 1 as [|a b l k E' F IH]; [done|]. cbn. by rewrite E', IH. Qed.

Lemma run_map_Forall2 {A B : Type} (f : A -> Run B) (l : list A) (k : list B) :
  Forall2 (fun a b => f a = Returns b) l k -> run_map f l = Returns k.
Proof. induction 1 as [|a b l k E F IH]; [done|]. cbn. by rewrite E, IH. Qed.

Lemma compute_root_length (leaves : list (list Z)) (epoch from : Z) (root : list Z) :
  Forall (fun l => length l = 32%nat) leaves -> compute_merkle_root leaves epoch from = Returns root -> length root = 32%nat.
Proof.
  intros F. unfold compute_merkle_root. destruct leaves as [|l0 ls] eqn:El; [intros [= <-]; apply poseidon2_hash_length|]. rewrite <- El in *.
  assert (Forall (fun l => length l = 32%nat) (pad_level leaves (empty_leaf_hash epoch from))) as Fp
    by (apply Forall_app; split; [done|apply Forall_replicate, poseidon2_hash_length]).
  revert Fp. generalize (pad_level leaves (empty_leaf_hash epoch from)) as level.
  intros level. generalize (length level) as fuel. clear -PO. intros fuel. revert level.
  assert (forall level next, pair_up level = Returns next -> Forall (fun l => length l = 32%nat) next) as Hp.
  { fix IH 1. intros [|a [|b rest]] next; cbn [pair_up]; [by intros [= <-]|done|].
    destruct (pair_up rest) eqn:E; cbn [run_bind]; [|done..]. intros [= <-]. constructor; [apply poseidon2_hash_length|by eapply IH]. }
  induction fuel as [|fuel IH]; intros level F; cbn [climb]; destruct (1 <? length level)%nat; [done|..].
  - destruct level; [done|]. intros [= <-]. by apply Forall_cons in F as [? _].
  - destruct (pair_up level) eqn:E; cbn [run_bind]; [|done..]. apply IH. by eapply Hp.
  - destruct level; [done|]. intros [= <-]. by apply Forall_cons in F as [? _].
Qed.

(** Rows addressed to the members in order. *)
Definition dealt (rows : list ShareRow) (n : nat) : Prop :=
  length rows = n /\ forall i row, rows !! i = Some row -> row_ok row /\ receiver_index row = Z.of_nat i + 1.

(** What a contribution [c] to [rows] gives member [i + 1]. *)
Definition delivers (c : DkgContribution) (falcon_pk : list Z) (epoch from : Z) (n t i : nat) (sk : list Z) (row : ShareRow) : Prop :=
  exists env proof, ct_recipient_envelopes c !! i = Some (env, proof) /\
    verify_received_share env proof (ct_commitment c) falcon_pk epoch from (Z.of_nat n) (Z.of_nat t) (Z.of_nat i + 1) sk = Ok row.

Lemma commit_preimage_short (c : DkgCommitment) : length (cm_merkle_root c) = 32%nat -> len (commitment_preimage c) <= 256.
Proof.
  intros L. unfold commitment_preimage, len. rewrite !length_app, !index_bytes_length, length_le_encode, L. cbn. lia.
Qed.

Section Dealer.
Variables (rows : list ShareRow) (r : nat -> list Z) (epoch from : Z) (n t : nat) (pks sks : list (list Z)).
Variables (sign : Signer) (falcon_pk : list Z).
Hypothesis Hd : dealt rows n.
Hypothesis Hn : Z.of_nat n < 2 ^ 32.
Hypothesis Hf : 1 <= from <= Z.of_nat n.
Hypothesis Lpk : length pks = n.
Hypothesis Hk : forall i pk, pks !! i = Some pk -> exists sk, sks !! i = Some sk /\ kem_pair pk sk (r i).
Hypothesis Hs : signs_for sign falcon_pk.

Abbreviation leaves := ((fun row => row_leaf_hash row epoch from) <$> rows).

Definition proof_of (i : nat) : MerkleProof :=
  match merkle_proof leaves i epoch from with Returns (Some p) => p | _ => mkProof 0 [] end.

Definition env_of (i : nat) (row : ShareRow) : DkgShareEnvelope :=
  match encrypt_share_row row (default [] (pks !! i)) (r i) epoch from with Ok e => e | Err _ => mkEnvelope [] [] [] end.

Lemma proofs_verify : exists root, compute_merkle_root leaves epoch from = Returns root /\ length root = 32%nat /\
  forall i row, rows !! i = Some row -> merkle_proof leaves i epoch from = Returns (Some (proof_of i)) /\
    leaf_index (proof_of i) = Z.of_nat i /\ verify_merkle_proof root (row_leaf_hash row epoch from) (proof_of i) = true.
Proof.
  destruct Hd as [Ln _]. destruct (merkle_complete leaves epoch from) as (root & Er & Hp).
  { intros E%(f_equal length). rewrite length_fmap in E. cbn in E. lia. }
  exists root. split; [done|]. split.
  { eapply compute_root_length; [|exact Er]. apply Forall_fmap, Forall_true. intros. apply poseidon2_hash_length. }
  intros i row Hi. destruct (Hp i (row_leaf_hash row epoch from)) as (p & Em & El & Hv); [by rewrite list_lookup_fmap, Hi|].
  unfold proof_of. by rewrite Em.
Qed.

Lemma envelopes_open (i : nat) (row : ShareRow) : rows !! i = Some row ->
  exists pk sk, pks !! i = Some pk /\ sks !! i = Some sk /\ encrypt_share_row row pk (r i) epoch from = Ok (env_of i row) /\
    decrypt_share_row (env_of i row) sk epoch from (Z.of_nat i + 1) = Some row.
Proof.
  intros Hi. destruct Hd as [Ln Hrows]. destruct (lookup_lt_is_Some_2 pks i) as [pk Hpk]; [apply lookup_lt_Some in Hi; lia|].
  destruct (Hk i pk Hpk) as (sk & Hsk & Kp). destruct (Hrows i row Hi) as [Hok Eri].
  destruct (sealed_row row pk sk (r i) epoch from Hok Kp) as (env & Ee & Ed). exists pk, sk.
  unfold env_of. rewrite Hpk. cbn [default from_option]. unfold id. by rewrite Ee, <- Eri.
Qed.

Lemma proofs_at (i : nat) : (i < n)%nat -> (proof_of <$> seq 0 n) !! i = Some (proof_of i).
Proof. intros H. by rewrite list_lookup_fmap, lookup_seq_lt. Qed.

(** Whatever rows a dealer commits to, every member takes its row. *)
Lemma commit_rows_delivers :
  exists c, commit_rows rows r epoch from n t pks sign = Returns (Ok c) /\ length (ct_recipient_envelopes c) = n /\
    rows !! Z.to_nat (from - 1) = Some (ct_own_share_row c) /\
    forall i row sk, rows !! i = Some row -> sks !! i = Some sk -> delivers c falcon_pk epoch from n t i sk row.
Proof.
  destruct Hd as [Ln Hrows]. destruct proofs_verify as (root & Er & Lr & Hproof). unfold commit_rows. rewrite Er. cbn [run_bind].
  set (c0 := mkCommitment epoch from (Z.of_nat n) (Z.of_nat t) root []). unfold commitment_sign.
  destruct (Hs (commitment_preimage c0)) as (sig & -> & Eb & Ev); [by apply commit_preimage_short|].
  rewrite (run_map_returns _ proof_of).
  2:{ intros i Hi%elem_of_seq. destruct (lookup_lt_is_Some_2 rows i) as [row Hr]; [lia|]. by rewrite (proj1 (Hproof i row Hr)). }
  cbn [run_bind]. set (sealed := imap (fun i row => (env_of i row, proof_of i)) rows).
  rewrite (run_map_returns _ (fun '(i, row) => Ok (env_of i row, proof_of i))).
  2:{ intros [i row] (j & row' & [= -> ->] & Hi)%elem_of_lookup_imap_1. destruct (envelopes_open j row' Hi) as (pk & sk & Hpk & _ & Ee & _).
      rewrite Hpk, proofs_at by (apply lookup_lt_Some in Hi; lia). cbn [unwrap run_bind]. by rewrite Ee. }
  cbn [run_bind]. rewrite (collect_ok_all _ _ sealed).
  2:{ unfold sealed. rewrite fmap_imap. apply Forall2_same_length_lookup_2; [by rewrite !length_imap|]. intros i a b Ha Hb.
      rewrite list_lookup_imap in Ha. rewrite list_lookup_imap in Hb. destruct (rows !! i); cbn in *; by simplify_eq. }
  destruct (lookup_lt_is_Some_2 rows (Z.to_nat (from - 1))) as [own Ho]; [lia|]. rewrite Ho, proofs_at by lia. cbn [unwrap run_bind].
  eexists. split; [reflexivity|]. cbn [ct_recipient_envelopes ct_own_share_row]. split; [by unfold sealed; rewrite length_imap|]. split; [done|].
  intros i row sk Hi Hsk. exists (env_of i row), (proof_of i). cbn [ct_recipient_envelopes ct_commitment].
  split; [unfold sealed; by rewrite list_lookup_imap, Hi|]. destruct (envelopes_open i row Hi) as (pk & sk' & _ & Hsk' & _ & Ed).
  destruct (Hproof i row Hi) as (_ & El & Hv). unfold verify_received_share, commitment_verify. cbn [cm_signature].
  rewrite Eb. change (commitment_preimage _) with (commitment_preimage c0). rewrite Ev. cbn [negb cm_epoch cm_from_index cm_n cm_threshold cm_merkle_root].
  rewrite !Z.eqb_refl. cbn [negb orb]. rewrite El, wrap_small, Z.eqb_refl by (apply lookup_lt_Some in Hi; unfold in_range; lia).
  cbn [negb]. simplify_eq. rewrite Ed. change (cm_merkle_root _) with root. by rewrite Hv.
Qed.
End Dealer.

(** ** Dealing *)

Lemma sample_goldilocks_ok (domain seed : list Z) (from e k : Z) :
  sample_goldilocks domain seed from e k = Ok (sampled (domain ++ seed ++ index_bytes from ++ index_bytes e ++ index_bytes k)).
Proof.
  unfold sample_goldilocks, MAX_REJECTION_RETRIES, sampled. set (prefix := _ ++ _). clearbody prefix. cbn [sample_from].
  pose proof (digest_word_canonical (prefix ++ le_encode 8 0)) as C.
  destruct (Z.ltb_spec (le_decode (take 8 (poseidon2_hash (prefix ++ le_encode 8 0)))) GOLDILOCKS_PRIME) as [_|H]; [by rewrite gl_small|destruct C; lia].
Qed.

Definition dealer_sample (domain seed : list Z) (from : Z) (e k : nat) : Z :=
  sampled (domain ++ seed ++ index_bytes from ++ index_bytes (Z.of_nat e) ++ index_bytes (Z.of_nat k)).

(** Element [e] of a dealer's secret, and the polynomial it is shared by. *)
Definition dealer_secret (seed : list Z) (from : Z) (e : nat) : Z := dealer_sample DKG_SECRET_SEED_DOMAIN seed from e 0.

Definition dealer_coeffs (seed : list Z) (from : Z) (t e : nat) : list Z :=
  dealer_secret seed from e :: (dealer_sample DKG_POLY_COEFF_DOMAIN seed from e <$> seq 1 (t - 1)).

Definition dealer_row (seed : list Z) (from : Z) (t i : nat) : ShareRow :=
  mkRow (Z.of_nat (S i)) ((fun e => evaluate (dealer_coeffs seed from t e) (gl (Z.of_nat (S i)))) <$> seq 0 SEED_ELEMENTS).

Lemma collect_ok_fmap {A B E : Type} (f : A -> Result B E) (g : A -> B) (l : list A) :
  (forall a, a ∈ l -> f a = Ok (g a)) -> collect_ok f l = Ok (g <$> l).
Proof. intros H. apply collect_ok_all, Forall2_fmap_r, Forall_Forall2_diag, Forall_forall. exact H. Qed.

Lemma deal_ok (seed : list Z) (from : Z) (n t : nat) :
  deal seed from n t = Ok ((fun e => (fun j => evaluate (dealer_coeffs seed from t e) (gl (Z.of_nat j))) <$> seq 1 n) <$> seq 0 SEED_ELEMENTS).
Proof.
  unfold deal. rewrite (collect_ok_fmap _ (dealer_secret seed from)) by (intros; apply sample_goldilocks_ok). cbn [and_then].
  assert (imap pair (dealer_secret seed from <$> seq 0 SEED_ELEMENTS) = (fun e => (e, dealer_secret seed from e)) <$> seq 0 SEED_ELEMENTS) as -> by done.
  rewrite (collect_ok_fmap _ (fun '(e, s) => (fun j => evaluate (s :: (dealer_sample DKG_POLY_COEFF_DOMAIN seed from e <$> seq 1 (t - 1))) (gl (Z.of_nat j))) <$> seq 1 n)).
  - done.
  - intros [e s] _. unfold dkg_shamir_split_y. rewrite (collect_ok_fmap _ (dealer_sample DKG_POLY_COEFF_DOMAIN seed from e)) by (intros; apply sample_goldilocks_ok).
    done.
Qed.

Lemma rows_of_ok (seed : list Z) (from : Z) (n t : nat) :
  rows_of n ((fun e => (fun j => evaluate (dealer_coeffs seed from t e) (gl (Z.of_nat j))) <$> seq 1 n) <$> seq 0 SEED_ELEMENTS) =
  Returns (dealer_row seed from t <$> seq 0 n).
Proof.
  unfold rows_of. rewrite (run_map_returns _ (fun j => dealer_row seed from t (Nat.pred j))).
  - f_equal. rewrite <- fmap_S_seq, <- list_fmap_compose. done.
  - intros j Hj%elem_of_seq. destruct j as [|i]; [lia|]. cbn [Nat.pred].
    rewrite (run_map_returns _ (fun y => default 0 (y !! i))).
    + cbn [run_bind]. unfold dealer_row. rewrite <- list_fmap_compose. do 2 f_equal. apply list_fmap_ext. intros k e _.
      unfold compose. by rewrite list_lookup_fmap, lookup_seq_lt by lia.
    + intros y (e & -> & _)%list_elem_of_fmap. by rewrite list_lookup_fmap, lookup_seq_lt by lia.
Qed.

Lemma dealer_rows_dealt (seed : list Z) (from : Z) (n t : nat) :
  Z.of_nat n < 2 ^ 32 -> dealt (dealer_row seed from t <$> seq 0 n) n.
Proof.
  intros Hn. split; [by rewrite length_fmap, length_seq|]. intros i row Hi. rewrite list_lookup_fmap in Hi.
  destruct (decide (i < n)%nat); [|rewrite lookup_seq_ge in Hi by lia; done]. rewrite lookup_seq_lt in Hi by lia. injection Hi as <-.
  split; [|cbn; lia]. split; cbn [dealer_row receiver_index values]; [lia|..].
  - apply Forall_fmap, Forall_true. intros e. apply evaluate_eval.
  - by rewrite length_fmap, length_seq.
Qed.

Lemma generate_commits (seed : list Z) (r : nat -> list Z) (epoch from : Z) (n t : nat) (pks : list (list Z)) (sign : Signer) :
  1 <= from <= Z.of_nat n -> (1 <= t <= n)%nat -> length pks = n ->
  generate_dkg_contribution seed r epoch from n t pks sign = commit_rows (dealer_row seed from t <$> seq 0 n) r epoch from n t pks sign.
Proof.
  intros Hf Ht Hp. unfold generate_dkg_contribution. rewrite deal_ok, rows_of_ok, Hp, Nat.eqb_refl.
  destruct (Z.eqb_spec from 0); [lia|]. destruct (Z.ltb_spec (Z.of_nat n) from); [lia|].
  destruct (Nat.eqb_spec t 0); [lia|]. destruct (Nat.ltb_spec n t); [lia|]. done.
Qed.

(** ** Aggregation *)

Lemma fold_gl_add (l : list Z) (acc : Z) :
  (canonical acc -> canonical (foldl gl_add acc l)) /\ eqp (foldl gl_add acc l) (acc + foldr Z.add 0 l).
Proof.
  revert acc. induction l as [|x l IH]; intros acc; cbn [foldl foldr]; [split; [done|by rewrite Z.add_0_r]|].
  destruct (IH (gl_add acc x)) as [C E]. split; [intros _; apply C, gl_canonical|]. rewrite E. unfold gl_add. rewrite gl_cong.
  apply eq_subrelation; [apply _|ring].
Qed.

Lemma add_rows_ok (holder : Z) (rows : list ShareRow) (acc : list Z) :
  Forall (fun row => receiver_index row = holder /\ length (values row) = SEED_ELEMENTS) rows -> length acc = SEED_ELEMENTS ->
  exists vals, add_rows holder acc rows = Ok vals /\ length vals = SEED_ELEMENTS /\
    forall e a, acc !! e = Some a -> vals !! e = Some (foldl gl_add a ((fun row => default 0 (values row !! e)) <$> rows)).
Proof.
  intros F. revert acc. induction F as [|row rows [Hi Hl] F IH]; intros acc La; cbn [add_rows].
  - exists acc. done.
  - rewrite Hi, Z.eqb_refl. cbn [negb]. destruct (IH (zip_with gl_add acc (values row))) as (vals & E & L & H).
    { rewrite length_zip_with. lia. }
    exists vals. split_and!; [done..|]. intros e a Ha. cbn [fmap list_fmap foldl]. apply H.
    destruct (lookup_lt_is_Some_2 (values row) e) as [v Hv]; [apply lookup_lt_Some in Ha; lia|].
    rewrite lookup_zip_with, Ha, Hv. done.
Qed.

(** ** The round *)

(** A dealer of the round: its position, seed, randomness and signing key. *)
Record Dealer : Type := mkDealer {
  d_from : Z; d_seed : list Z; d_rand : nat -> list Z; d_sign : Signer; d_pk : list Z
}.

Definition dealer_ok (n : nat) (pks sks : list (list Z)) (d : Dealer) : Prop :=
  1 <= d_from d <= Z.of_nat n /\ signs_for (d_sign d) (d_pk d) /\
  forall i pk, pks !! i = Some pk -> exists sk, sks !! i = Some sk /\ kem_pair pk sk (d_rand d i).

Definition contributes (epoch : Z) (n t : nat) (pks : list (list Z)) (d : Dealer) (c : DkgContribution) : Prop :=
  generate_dkg_contribution (d_seed d) (d_rand d) epoch (d_from d) n t pks (d_sign d) = Returns (Ok c).

(** The sharing polynomial of the sum of the secrets. *)
Definition round_poly (dealers : list Dealer) (t e : nat) (x : Z) : Z :=
  foldr (fun d s => eval (dealer_coeffs (d_seed d) (d_from d) t e) x + s) 0 dealers.

Lemma round_poly_poly (dealers : list Dealer) (t e : nat) : (1 <= t)%nat -> poly t (round_poly dealers t e).
Proof.
  intros Ht. unfold round_poly. induction dealers as [|d ds IH]; cbn [foldr]; [apply poly_zero|]. apply poly_add; [|exact IH].
  eapply poly_weaken; [|apply poly_eval]. unfold dealer_coeffs. cbn [length]. rewrite length_fmap, length_seq. lia.
Qed.

(** The share of member [i + 1]. *)
Definition round_share (dealers : list Dealer) (t i : nat) : MasterShare :=
  mkMaster (Z.of_nat i + 1) ((fun e => foldl gl_add 0 ((fun d => evaluate (dealer_coeffs (d_seed d) (d_from d) t e) (gl (Z.of_nat (S i)))) <$> dealers)) <$> seq 0 SEED_ELEMENTS).

Lemma aggregate_round (dealers : list Dealer) (t i : nat) :
  dealers <> [] ->
  aggregate_local_share (Z.of_nat i + 1) ((fun d => dealer_row (d_seed d) (d_from d) t i) <$> dealers) = Ok (round_share dealers t i).
Proof.
  intros Hne. set (rows := (fun d => dealer_row (d_seed d) (d_from d) t i) <$> dealers).
  destruct (add_rows_ok (Z.of_nat i + 1) rows (replicate SEED_ELEMENTS 0)) as (vals & E & L & H).
  { apply Forall_fmap, Forall_true. intros d. cbn [compose dealer_row receiver_index values]. split; [cbn; lia|]. by rewrite length_fmap, length_seq. }
  { done. }
  unfold aggregate_local_share. destruct rows as [|row rows'] eqn:Er; [by destruct dealers|]. rewrite <- Er in *. rewrite E. cbn [and_then].
  unfold round_share. do 2 f_equal. apply list_eq. intros e. destruct (decide (e < SEED_ELEMENTS)%nat) as [He|He].
  - rewrite (H e 0) by (by apply lookup_replicate_2). rewrite list_lookup_fmap, lookup_seq_lt by done. cbn. do 2 f_equal. unfold rows.
    rewrite <- list_fmap_compose. apply list_fmap_ext. intros k d _. unfold compose, dealer_row. cbn [values].
    by rewrite list_lookup_fmap, lookup_seq_lt by done.
  - rewrite !lookup_ge_None_2; [done|rewrite length_fmap, length_seq; lia|lia].
Qed.

Lemma round_share_on (dealers : list Dealer) (t i e : nat) (v : Z) :
  ms_values (round_share dealers t i) !! e = Some v -> eqp v (round_poly dealers t e (gl (Z.of_nat i + 1))).
Proof.
  cbn [round_share ms_values]. rewrite list_lookup_fmap. destruct (decide (e < SEED_ELEMENTS)%nat); [|rewrite lookup_seq_ge by lia; done].
  rewrite lookup_seq_lt by done. intros [= <-]. cbn [Nat.add]. destruct (fold_gl_add ((fun d => evaluate (dealer_coeffs (d_seed d) (d_from d) t e) (gl (Z.of_nat (S i)))) <$> dealers) 0) as [_ ->].
  rewrite Z.add_0_l. replace (Z.of_nat i + 1) with (Z.of_nat (S i)) by lia. unfold round_poly.
  induction dealers as [|d ds IH]; [reflexivity|]. cbn [fmap list_fmap foldr]. rewrite IH. by rewrite (proj2 (evaluate_eval _ _)).
Qed.

Lemma round_poly_zero (dealers : list Dealer) (t e : nat) :
  round_poly dealers t e 0 = foldr Z.add 0 ((fun d => dealer_secret (d_seed d) (d_from d) e) <$> dealers).
Proof. unfold round_poly. induction dealers as [|d ds IH]; [done|]. cbn [foldr fmap list_fmap]. rewrite IH. cbn [dealer_coeffs eval]. lia. Qed.

(** Any [t] members' shares give the sum of the secrets. *)
Lemma round_reconstructs (dealers : list Dealer) (n t e : nat) (holders : list nat) :
  (1 <= t)%nat -> Z.of_nat n < 2 ^ 32 -> NoDup holders -> Forall (fun i => (i < n)%nat) holders -> length holders = t -> (e < SEED_ELEMENTS)%nat ->
  shamir_reconstruct ((fun m => mkFieldShare (gl (ms_index m)) (default 0 (ms_values m !! e))) <$> (round_share dealers t <$> holders)) =
  Returns (foldl gl_add 0 ((fun d => dealer_secret (d_seed d) (d_from d) e) <$> dealers)).
Proof.
  intros Ht Hn N F L He. set (points := _ <$> (round_share dealers t <$> holders)).
  assert (distinct (fs_x <$> points)) as D.
  { unfold points. replace (fs_x <$> _) with (gl <$> ((fun i => Z.of_nat i + 1) <$> holders)) by (by rewrite <- !list_fmap_compose).
    apply distinct_canonical.
    - apply NoDup_fmap_2; [intros x y E; lia|done].
    - apply Forall_fmap. eapply Forall_impl; [exact F|]. intros i Hi. cbn beta in Hi. unfold compose, canonical, GOLDILOCKS_PRIME; lia. }
  unfold shamir_reconstruct. rewrite (interpolate_exact points D (round_poly dealers t e)).
  - f_equal. apply canonical_eq; [apply gl_canonical|by apply fold_gl_add|]. rewrite gl_cong, round_poly_zero. symmetry. apply fold_gl_add.
  - unfold points. rewrite !length_fmap, L. by apply round_poly_poly.
  - intros s (m & -> & (i & -> & Hi)%list_elem_of_fmap)%list_elem_of_fmap. cbn [fs_x fs_y].
    destruct (lookup_lt_is_Some_2 (ms_values (round_share dealers t i)) e) as [v Hv]; [cbn [round_share ms_values]; by rewrite length_fmap, length_seq|].
    rewrite Hv. by apply round_share_on.
Qed.

(** [C10] A round of key generation succeeds.  Every dealer's contribution is
    made, every member accepts the row of every dealer, the rows add up to a
    share, and any [t] members' shares reconstruct, element by element, the sum
    of the dealers' secrets. *)
Theorem dkg_yields_shared_key (epoch : Z) (n t : nat) (pks sks : list (list Z)) (dealers : list Dealer) :
  (1 <= t <= n)%nat -> Z.of_nat n < 2 ^ 32 -> length pks = n -> dealers <> [] -> Forall (dealer_ok n pks sks) dealers ->
  exists (cs : list DkgContribution) (share : nat -> MasterShare),
    Forall2 (contributes epoch n t pks) dealers cs /\
    (forall i sk, (i < n)%nat -> sks !! i = Some sk ->
      exists rows, Forall2 (fun '(d, c) row => delivers c (d_pk d) epoch (d_from d) n t i sk row) (zip dealers cs) rows /\
        aggregate_local_share (Z.of_nat i + 1) rows = Ok (share i)) /\
    forall holders e, NoDup holders -> Forall (fun i => (i < n)%nat) holders -> length holders = t -> (e < SEED_ELEMENTS)%nat ->
      shamir_reconstruct ((fun m => mkFieldShare (gl (ms_index m)) (default 0 (ms_values m !! e))) <$> (share <$> holders)) =
      Returns (foldl gl_add 0 ((fun d => dealer_secret (d_seed d) (d_from d) e) <$> dealers)).
Proof.
  intros Ht Hn Lp Hne F.
  assert (exists cs, Forall2 (contributes epoch n t pks) dealers cs /\
    forall i sk, (i < n)%nat -> sks !! i = Some sk ->
      Forall2 (fun '(d, c) row => delivers c (d_pk d) epoch (d_from d) n t i sk row) (zip dealers cs)
        ((fun d => dealer_row (d_seed d) (d_from d) t i) <$> dealers)) as (cs & G & D).
  { clear Hne. induction F as [|d ds (Hf & Hs & Hk) F (cs & G & D)]; [exists []; split; [constructor|intros; constructor]|].
    destruct (commit_rows_delivers (dealer_row (d_seed d) (d_from d) t <$> seq 0 n) (d_rand d) epoch (d_from d) n t pks sks (d_sign d) (d_pk d))
      as (c & Ec & _ & _ & Hd); [by apply dealer_rows_dealt|done..|].
    exists (c :: cs). split; [constructor; [unfold contributes; by rewrite generate_commits|done]|].
    intros i sk Hi Hsk. cbn [zip_with fmap list_fmap]. constructor; [|by apply D]. apply Hd; [|done]. by rewrite list_lookup_fmap, lookup_seq_lt. }
  exists cs, (round_share dealers t). split; [done|]. split.
  - intros i sk Hi Hsk. eexists. split; [by apply D|by apply aggregate_round].
  - intros holders e N Fh L He. apply (round_reconstructs dealers n); [lia|done..].
Qed.

(** ** Binding *)

(** What is hashed to build the subtree, and to fold a path up. *)
Fixpoint node_inputs (leaf : nat -> list Z) (d k : nat) : list (list Z) :=
  match d with
  | O => []
  | S d' => node_input (node leaf d' (2 * k)) (node leaf d' (2 * k + 1)) :: node_inputs leaf d' (2 * k) ++ node_inputs leaf d' (2 * k + 1)
  end.

Definition step_input (cur : list Z) (idx : Z) (sib : list Z) : list Z := if Z.even idx then node_input cur sib else node_input sib cur.

Fixpoint path_inputs (cur : list Z) (idx : Z) (path : list (list Z)) : list (list Z) :=
  match path with
  | [] => []
  | sib :: rest => step_input cur idx sib :: path_inputs (poseidon2_hash (step_input cur idx sib)) (idx / 2) rest
  end.

Lemma step_hash (cur sib : list Z) (idx : Z) :
  (if Z.even idx then node_hash cur sib else node_hash sib cur) = poseidon2_hash (step_input cur idx sib).
Proof. unfold step_input. by destruct (Z.even idx). Qed.

Lemma fold_path_cons (x s : list Z) (q : list (list Z)) (idx : Z) :
  fold_path x (s :: q) idx = fold_path (poseidon2_hash (step_input x idx s)) q (idx / 2).
Proof. unfold fold_path. cbn [foldl]. by rewrite step_hash. Qed.

Lemma path_snoc (x s : list Z) (q : list (list Z)) (idx : Z) :
  let last := step_input (fold_path x q idx) (idx / 2 ^ Z.of_nat (length q)) s in
  fold_path x (q ++ [s]) idx = poseidon2_hash last /\ path_inputs x idx (q ++ [s]) = path_inputs x idx q ++ [last].
Proof.
  revert x idx. induction q as [|s' q IH]; intros x idx; cbn zeta.
  - cbn [app length]. rewrite Z.div_1_r, fold_path_cons. done.
  - destruct (IH (poseidon2_hash (step_input x idx s')) (idx / 2)) as [E1 E2]. cbn [app path_inputs]. rewrite !fold_path_cons, E1, E2.
    assert (idx / 2 / 2 ^ Z.of_nat (length q) = idx / 2 ^ Z.of_nat (length (s' :: q))) as ->; [|done].
    cbn [length]. rewrite Z.div_div, Nat2Z.inj_succ, Z.pow_succ_r by lia. done.
Qed.

Lemma node_length (leaf : nat -> list Z) (d k : nat) : (forall k, length (leaf k) = 32%nat) -> length (node leaf d k) = 32%nat.
Proof. intros H. destruct d; [apply H|apply poseidon2_hash_length]. Qed.

Lemma fold_path_length (x : list Z) (q : list (list Z)) (idx : Z) : length x = 32%nat -> length (fold_path x q idx) = 32%nat.
Proof. revert x idx. induction q as [|s q IH]; intros x idx L; [done|]. rewrite fold_path_cons. apply IH, poseidon2_hash_length. Qed.

Lemma node_input_inj (a b c d : list Z) : length a = length c -> node_input a b = node_input c d -> a = c /\ b = d.
Proof. intros L E. unfold node_input in E. apply app_inv_head in E. by apply app_inj_1. Qed.

(** A path that folds to a node of the tree ends at a leaf below it, at the place
    the index says; or above the leaves; or below one of them. *)
Lemma path_meets (s : list (list Z)) (leaf : nat -> list Z) (x : list Z) (idx : Z) (q : list (list Z)) :
  separate s -> (forall k, length (leaf k) = 32%nat) -> length x = 32%nat -> 0 <= idx ->
  forall d k, Forall (fun h => length h = 32%nat) q -> path_inputs x idx q ⊆ s -> node_inputs leaf d k ⊆ s -> fold_path x q idx = node leaf d k ->
  ((length q < d)%nat /\ exists a b, x = poseidon2_hash (node_input a b) /\ node_input a b ∈ s) \/
  (length q = d /\ x = leaf (k * 2 ^ d + Z.to_nat (idx mod 2 ^ Z.of_nat d))%nat) \/
  exists k' a b, leaf k' = poseidon2_hash (node_input a b) /\ node_input a b ∈ s.
Proof.
  intros Sep Ll Lx Hidx. induction q as [|h q IH] using rev_ind; intros d k F Hq Hn E.
  - destruct d as [|d]; [right; left; split; [done|]; cbn in E |- *; by rewrite Z.mod_1_r, Nat.mul_1_r, Nat.add_0_r|].
    left. split; [cbn; lia|]. cbn [node node_inputs] in *. do 2 eexists. split; [exact E|]. apply Hn. by left.
  - apply Forall_app in F as [F [Lh _]%Forall_cons]. destruct (path_snoc x h q idx) as [E1 E2]. cbn zeta in *.
    rewrite E1 in E. rewrite E2 in Hq. set (bit := idx / 2 ^ Z.of_nat (length q)) in *.
    assert (step_input (fold_path x q idx) bit h ∈ s) as Hin by (apply Hq; set_solver).
    destruct d as [|d].
    { right; right. cbn [node] in E. unfold step_input in *. destruct (Z.even bit); do 3 eexists; (split; [symmetry; exact E|exact Hin]). }
    cbn [node node_inputs] in *. apply (Sep _ _ Hin) in E; [|apply Hn; by left].
    assert (fold_path x q idx = node leaf d (if Z.even bit then 2 * k else 2 * k + 1)%nat) as E'.
    { pose proof (node_length leaf d (2 * k) Ll). pose proof (fold_path_length x q idx Lx). unfold step_input in E.
      destruct (Z.even bit); apply node_input_inj in E as [? ?]; congruence || lia. }
    destruct (IH d (if Z.even bit then 2 * k else 2 * k + 1)%nat) as [[Hlt H]|[[Hd H]|H]]; [done|set_solver| |done|..|by auto].
    { clear -Hn. destruct (Z.even bit); set_solver. }
    + left. split; [rewrite length_app; cbn; lia|done].
    + right; left. rewrite length_app. split; [cbn; lia|]. rewrite H. f_equal. subst bit. rewrite Hd.
      clear -Hidx. rewrite Nat2Z.inj_succ, Z.pow_succ_r, (Z.mul_comm 2), Z.rem_mul_r by lia.
      assert (0 < 2 ^ Z.of_nat d) as Hp by lia. pose proof (Z.mod_pos_bound idx _ Hp).
      assert (Z.of_nat (2 ^ d) = 2 ^ Z.of_nat d) as Ep by (by rewrite Nat2Z.inj_pow).
      pose proof (Zmod_even (idx / 2 ^ Z.of_nat d)) as Em. destruct (Z.even _); rewrite Em; rewrite Nat.pow_succ_r'; nia.
Qed.

Lemma node_node (leaf : nat -> list Z) (d k : nat) : node (node leaf 1) d k = node leaf (S d) k.
Proof. revert k. induction d as [|d IH]; intros k; [done|]. cbn [node]. by rewrite !IH. Qed.

Lemma climb_node (d : nat) : forall (fuel : nat) (level : list (list Z)) (leaf : nat -> list Z),
  (d <= fuel)%nat -> length level = (2 ^ d)%nat -> (forall k, (k < 2 ^ d)%nat -> level !! k = Some (leaf k)) ->
  climb fuel level = Returns (node leaf d 0).
Proof.
  induction d as [|d IH]; intros fuel level leaf Hf L H.
  - destruct level as [|x []]; try discriminate. specialize (H 0%nat ltac:(cbn; lia)). cbn in H. simplify_eq. by destruct fuel.
  - rewrite Nat.pow_succ_r' in *. destruct (pair_up_even _ _ L) as (next & E & Ln & Hnext).
    assert (0 < 2 ^ d)%nat as Hp by (apply Nat.neq_0_lt_0, Nat.pow_nonzero; lia). destruct fuel as [|fuel]; [lia|]. cbn [climb].
    rewrite (proj2 (Nat.ltb_lt 1 (length level))), E by lia. cbn [run_bind]. rewrite <- node_node. apply IH; [lia|done|].
    intros k Hk. apply Hnext; [apply H; lia|]. replace (S (2 * k)) with (2 * k + 1)%nat by lia. apply H. lia.
Qed.

(** The leaves of a dealer's tree, its padding included. *)
Definition tree_leaf (rows : list ShareRow) (epoch from : Z) (k : nat) : list Z :=
  match rows !! k with Some row => row_leaf_hash row epoch from | None => empty_leaf_hash epoch from end.

Definition depth (rows : list ShareRow) : nat := Nat.log2_up (length rows).

Lemma depth_bound (rows : list ShareRow) : rows <> [] -> (length rows <= 2 ^ depth rows)%nat.
Proof.
  intros H. unfold depth. destruct (decide (length rows <= 1)%nat); [|apply Nat.log2_up_spec; lia].
  pose proof (Nat.pow_nonzero 2 (Nat.log2_up (length rows))). lia.
Qed.

Lemma root_returns (rows : list ShareRow) (epoch from : Z) :
  rows <> [] -> compute_merkle_root ((fun row => row_leaf_hash row epoch from) <$> rows) epoch from =
  Returns (node (tree_leaf rows epoch from) (depth rows) 0).
Proof.
  intros Hne. set (leaves := _ <$> rows). set (empty := empty_leaf_hash epoch from).
  assert (leaves <> []) as Hl by (by destruct rows).
  assert (length (pad_level leaves empty) = 2 ^ depth rows)%nat as L
    by (rewrite (pad_level_length leaves empty Hl); unfold leaves, depth; by rewrite length_fmap).
  unfold compute_merkle_root. fold empty. transitivity (climb (length (pad_level leaves empty)) (pad_level leaves empty)); [by destruct leaves|].
  apply climb_node; [rewrite L; apply pow_fuel|done|]. intros k Hk. unfold tree_leaf, pad_level, next_power_of_two.
  destruct (rows !! k) as [row|] eqn:Er; [apply lookup_app_l_Some; unfold leaves; by rewrite list_lookup_fmap, Er|].
  apply lookup_ge_None in Er. rewrite lookup_app_r by (unfold leaves; rewrite length_fmap; lia).
  apply lookup_replicate_2. unfold leaves. rewrite length_fmap. unfold depth in Hk. lia.
Qed.

(** Everything that is hashed when [row] with [proof] is checked against the
    tree of [rows]. *)
Definition checked_inputs (rows : list ShareRow) (epoch from : Z) (row : ShareRow) (proof : MerkleProof) : list (list Z) :=
  ((fun row => leaf_input row epoch from) <$> rows) ++ empty_input epoch from ::
  node_inputs (tree_leaf rows epoch from) (depth rows) 0 ++
  leaf_input row epoch from :: path_inputs (row_leaf_hash row epoch from) (leaf_index proof) (siblings proof).

Lemma enc_elements_inj (l k : list Z) : length l = length k -> Forall canonical l -> Forall canonical k -> enc_elements l = enc_elements k -> l = k.
Proof.
  intros L Cl Ck E. pose proof (dec_elements_enc [] l [] Cl) as El. pose proof (dec_elements_enc [] k [] Ck) as Ek. rewrite E, L in El. congruence.
Qed.

Lemma dkg_leaf_inj (a b : ShareRow) (epoch from : Z) : row_ok a -> row_ok b -> leaf_input a epoch from = leaf_input b epoch from -> a = b.
Proof.
  intros [Ia Ca La] [Ib Cb Lb] E. unfold leaf_input in E. do 3 apply app_inv_head in E. apply app_inj_1 in E as [E1 E2]; [|by rewrite !index_bytes_length].
  apply (f_equal le_decode) in E1. rewrite !le_index in E1 by done. apply enc_elements_inj in E2; [|congruence|done..].
  destruct a, b. cbn in *. congruence.
Qed.

Lemma leaf_not_node (row : ShareRow) (epoch from : Z) (a b : list Z) : leaf_input row epoch from <> node_input a b.
Proof. intros E. apply (f_equal (fun l => l !! 16%nat)) in E. discriminate. Qed.

Lemma empty_not_node (epoch from : Z) (a b : list Z) : empty_input epoch from <> node_input a b.
Proof. intros E. apply (f_equal (fun l => l !! 16%nat)) in E. discriminate. Qed.

(** A tree of [rows] has no proof of any other row, whatever its length. *)
Lemma tree_binds (rows : list ShareRow) (epoch from : Z) (row : ShareRow) (proof : MerkleProof) (i : nat) :
  dealt rows (length rows) -> row_ok row -> leaf_index proof = Z.of_nat i -> (i < length rows)%nat ->
  Forall (fun h => length h = 32%nat) (siblings proof) -> separate (checked_inputs rows epoch from row proof) ->
  verify_merkle_proof (node (tree_leaf rows epoch from) (depth rows) 0) (row_leaf_hash row epoch from) proof = true ->
  rows !! i = Some row.
Proof.
  intros [_ Hd] Hr Hi Hlt F Sep Hv%bool_decide_eq_true. unfold checked_inputs in Sep. set (s := _ ++ _) in Sep.
  assert (leaf_input row epoch from ∈ s) as Hrow by (unfold s; set_solver).
  assert (forall k a b, tree_leaf rows epoch from k = poseidon2_hash (node_input a b) -> node_input a b ∈ s -> False) as Below.
  { intros k a b E Hin. unfold tree_leaf in E. destruct (rows !! k) as [row'|] eqn:Ek.
    - apply Sep in E; [by apply leaf_not_node in E| |done]. unfold s. apply list_elem_of_lookup_2 in Ek. set_solver.
    - apply Sep in E; [by apply empty_not_node in E|unfold s; set_solver|done]. }
  destruct (path_meets s (tree_leaf rows epoch from) (row_leaf_hash row epoch from) (leaf_index proof) (siblings proof))
    with (d := depth rows) (k := 0%nat) as [[_ (a & b & E & Hin)]|[[_ E]|(k & a & b & E & Hin)]]; try done.
  - intros k. unfold tree_leaf. destruct (rows !! k); apply poseidon2_hash_length.
  - apply poseidon2_hash_length.
  - lia.
  - unfold s. set_solver.
  - unfold s. set_solver.
  - apply Sep in E; [by apply leaf_not_node in E|done..].
  - assert (rows <> []) as Hne by (by destruct rows; [cbn in Hlt; lia|]). pose proof (depth_bound rows Hne) as Hb.
    rewrite Hi, Z.mod_small, Nat2Z.id in E by (apply inj_le in Hb; rewrite Nat2Z.inj_pow in Hb; cbn in Hb; lia). cbn [Nat.mul Nat.add] in E.
    unfold tree_leaf in E. destruct (lookup_lt_is_Some_2 rows i Hlt) as [row' Ei]. rewrite Ei in E |- *. f_equal. symmetry.
    apply (dkg_leaf_inj _ _ epoch from); [done|by apply Hd with i|]. apply Sep in E; [done..|]. unfold s. apply list_elem_of_lookup_2 in Ei. set_solver.
  - by destruct (Below k a b).
Qed.

Lemma decoded_row (bytes : list Z) (row : ShareRow) :
  row_from_bytes bytes = Some row -> Forall canonical (values row) /\ length (values row) = SEED_ELEMENTS.
Proof.
  unfold row_from_bytes. destruct (negb _); [done|]. intros (vals & E & ->)%fmap_Some. cbn [values]. unfold dec_elements in E.
  apply mapM_Some_1 in E. split; [|by rewrite <- (Forall2_length _ _ _ E)].
  apply Forall_lookup. intros e v Hv. destruct (Forall2_lookup_r _ _ _ _ _ E Hv) as (j & _ & Ej). cbn zeta in Ej.
  destruct (_ <=? _); [done|]. injection Ej as <-. apply gl_canonical.
Qed.

Lemma decrypted_row (env : DkgShareEnvelope) (sk : list Z) (epoch from i : Z) (row : ShareRow) :
  0 <= i < 2 ^ 32 -> decrypt_share_row env sk epoch from i = Some row -> row_ok row /\ receiver_index row = i.
Proof.
  intros Hi. unfold decrypt_share_row. destruct (negb _); [done|]. destruct (row_from_bytes _) as [row'|] eqn:E; [|done].
  destruct (Z.eqb_spec (receiver_index row') i) as [Ei|]; cbn [negb]; [|done]. intros [= <-].
  destruct (decoded_row _ _ E) as [C L]. split; [split; [by rewrite Ei|done..]|done].
Qed.

(** [C19] A commitment binds its dealer.  Whatever envelope and proof a dealer
    sends member [i + 1], of whatever length, the row the member accepts is row
    [i] of those the root was computed from, unless two of the strings hashed
    in the tree and in the check collide. *)
Theorem accepted_row_is_committed (rows : list ShareRow) (env : DkgShareEnvelope) (proof : MerkleProof) (c : DkgCommitment)
    (pk : list Z) (epoch from n t : Z) (i : nat) (sk : list Z) (row : ShareRow) :
  dealt rows (length rows) -> (i < length rows)%nat -> len rows < 2 ^ 32 -> in_range u64 (leaf_index proof) ->
  Forall (fun h => length h = 32%nat) (siblings proof) ->
  compute_merkle_root ((fun row => row_leaf_hash row epoch from) <$> rows) epoch from = Returns (cm_merkle_root c) ->
  verify_received_share env proof c pk epoch from n t (Z.of_nat i + 1) sk = Ok row ->
  separate (checked_inputs rows epoch from row proof) ->
  rows !! i = Some row.
Proof.
  intros Hd Hi Hl Hp F Er Hv Sep. rewrite root_returns in Er by (by destruct rows; [cbn in Hi; lia|]). injection Er as Er.
  unfold verify_received_share in Hv. destruct (negb _); [done|]. destruct (_ || _); [done|].
  destruct (Z.eqb_spec (wrap u64 (leaf_index proof + 1)) (Z.of_nat i + 1)) as [Ei|]; cbn [negb] in Hv; [|done].
  destruct (decrypt_share_row _ _ _ _ _) as [row'|] eqn:Ed; [|done]. destruct (verify_merkle_proof _ _ _) eqn:Em; [|done].
  injection Hv as ->. apply decrypted_row in Ed as [Hok _]; [|unfold len in Hl; lia].
  apply (tree_binds rows epoch from row proof i); try done; [|by rewrite Er].
  unfold in_range, wrap in *. destruct (decide (leaf_index proof = 2 ^ 64 - 1)) as [E|E].
  - rewrite E in Ei. change ((2 ^ 64 - 1 + 1) mod 2 ^ u64) with 0 in Ei. lia.
  - rewrite Z.mod_small in Ei by lia. lia.
Qed.

(** ** Complaints *)

(** The shared secret a member derives for an envelope. *)
Definition derived_secret (sk : list Z) (env : DkgShareEnvelope) : list Z :=
  match KyberCiphertext_from_bytes (ev_kyber_ct env) with
  | Some kct => match kyber_decapsulate sk kct with Ok ss => ss | Err _ => replicate 32 0 end
  | None => replicate 32 0
  end.

(** The envelope carries the MAC of its contents under the secret. *)
Definition authentic (cp : DkgComplaint) : bool :=
  bool_decide (dkg_aead_mac (cp_revealed_ss cp) (ev_kyber_ct (cp_envelope cp)) (cp_epoch cp) (cp_from_index cp)
                 (cp_against_index cp) (ev_ciphertext (cp_envelope cp)) = ev_mac (cp_envelope cp)).

(** [C36] A complaint about what was received settles as the member decided.  Let
    it carry the envelope, the proof and the member's own shared secret, be signed
    by the member, and its proof be for the member's position.  If the member
    accepts the share, whatever commitment and parameters it expects, the complaint
    is a slander.  If the member refuses the row as not committed, the dealer is at
    fault.  If the member cannot decrypt the envelope, the dealer is at fault when
    the envelope is authentic under the secret, and otherwise the envelope is
    unverifiable.  The member's only other refusals are of the commitment: its
    signature does not verify, or its header is not the expected one, which a
    complaint does not look at. *)
Theorem complaint_settles_as_received (cp : DkgComplaint) (c : DkgCommitment) (pk complainant_pk sk : list Z) (n t : Z) :
  let verdict := verify_complaint cp complainant_pk (cm_merkle_root c) in
  cp_revealed_ss cp = derived_secret sk (cp_envelope cp) -> verdict <> InvalidSignature -> verdict <> Malformed ->
  match verify_received_share (cp_envelope cp) (cp_merkle_proof cp) c pk (cp_epoch cp) (cp_from_index cp) n t
          (cp_against_index cp) sk with
  | Ok _ => verdict = Slander
  | Err MerkleProofMismatch => verdict = ContributorFaulty
  | Err EnvelopeUndecryptable => verdict = if authentic cp then ContributorFaulty else EnvelopeUnverifiable
  | Err MerkleProofPositionMismatch => False
  | Err CommitmentSignatureInvalid => commitment_verify c pk = false
  | Err CommitmentHeaderMismatch =>
      commitment_verify c pk = true /\
      ~ (cm_epoch c = cp_epoch cp /\ cm_from_index c = cp_from_index cp /\ cm_n c = n /\ cm_threshold c = t)
  end.
Proof.
  intros verdict Hs. unfold verdict, verify_complaint, verify_received_share, decrypt_share_row, authentic.
  fold (derived_secret sk (cp_envelope cp)). rewrite <- Hs. destruct (FalconSignature_from_bytes _); [|done].
  destruct (negb (falcon_verify _ _ _)); [done|]. destruct (negb (wrap u64 _ =? _)); [done|]. intros _ _.
  destruct (commitment_verify c pk); cbn [negb]; [|done].
  destruct (Z.eqb_spec (cm_epoch c) (cp_epoch cp)); cbn [negb orb]; [|by split; [|intros (? & _)]].
  destruct (Z.eqb_spec (cm_from_index c) (cp_from_index cp)); cbn [negb orb]; [|by split; [|intros (_ & ? & _)]].
  destruct (Z.eqb_spec (cm_n c) n); cbn [negb orb]; [|by split; [|intros (_ & _ & ? & _)]].
  destruct (Z.eqb_spec (cm_threshold c) t); cbn [negb orb]; [|by split; [|intros (_ & _ & _ & ?)]].
  destruct (bool_decide _); cbn [negb]; [|done]. destruct (row_from_bytes _) as [row|]; [|done].
  destruct (negb (receiver_index row =? _)); [done|]. by destruct (verify_merkle_proof _ _ _).
Qed.

(** [C39] Anyone who can sign complaints convicts anyone.  Nothing ties the
    envelope of a complaint to the dealer it accuses, so a member who makes one
    up, under a secret of its own choice, obtains the verdict against every
    dealer, whatever rows that dealer committed to. *)
Theorem complaint_convicts_anyone (sign : Signer) (complainant_pk : list Z) (epoch from against : Z) (ss : list Z) :
  signs_for sign complainant_pk -> length ss = 32%nat -> 1 <= against < 2 ^ 32 ->
  exists cp, cp_epoch cp = epoch /\ cp_from_index cp = from /\ cp_against_index cp = against /\
    forall root, verify_complaint cp complainant_pk root = ContributorFaulty.
Proof.
  intros Hs Ls Ha. set (env := mkEnvelope [] [] (dkg_aead_mac ss [] epoch from against [])).
  set (c0 := mkComplaint epoch from against env ss (mkProof (against - 1) []) []).
  destruct (Hs (complaint_preimage c0)) as (sig & Es & Eb & Ev).
  { unfold complaint_preimage, len. cbn [c0 cp_revealed_ss]. rewrite !length_app, !index_bytes_length, !poseidon2_hash_length, length_le_encode, Ls. cbn. lia. }
  exists (mkComplaint epoch from against env ss (mkProof (against - 1) []) sig). split_and!; [done..|]. intros root.
  unfold verify_complaint. cbn [cp_signature cp_merkle_proof leaf_index cp_against_index cp_envelope cp_revealed_ss cp_epoch cp_from_index]. rewrite Eb.
  change (complaint_preimage _) with (complaint_preimage c0). rewrite Ev. cbn [negb].
  rewrite Z.sub_add, wrap_small, Z.eqb_refl by (unfold in_range; lia). cbn [negb]. by rewrite bool_decide_eq_true_2.
Qed.

(** Commitments do not show a sharing.  Whatever rows a dealer makes up, on a
    polynomial or not, every member accepts its own. *)
Theorem any_rows_are_accepted (rows : list ShareRow) (r : nat -> list Z) (epoch from : Z) (n t : nat) (pks sks : list (list Z))
    (sign : Signer) (falcon_pk : list Z) :
  dealt rows n -> Z.of_nat n < 2 ^ 32 -> 1 <= from <= Z.of_nat n -> length pks = n ->
  (forall i pk, pks !! i = Some pk -> exists sk, sks !! i = Some sk /\ kem_pair pk sk (r i)) -> signs_for sign falcon_pk ->
  exists c, commit_rows rows r epoch from n t pks sign = Returns (Ok c) /\
    forall i row sk, rows !! i = Some row -> sks !! i = Some sk -> delivers c falcon_pk epoch from n t i sk row.
Proof.
  intros Hd Hn Hf Lp Hk Hs. destruct (commit_rows_delivers rows r epoch from n t pks sks sign falcon_pk) as (c & E & _ & _ & D); [done..|].
  by exists c.
Qed.
(** ** Formats *)

Record proof_ok (p : MerkleProof) : Prop := {
  ok_leaf_index : 0 <= leaf_index p < 2 ^ 32;
  ok_sibling_count : len (siblings p) < 2 ^ 32;
  ok_siblings : Forall (fun h => length h = 32%nat) (siblings p)
}.

Record commitment_ok (c : DkgCommitment) : Prop := {
  ok_epoch : in_range u64 (cm_epoch c);
  ok_from : 0 <= cm_from_index c < 2 ^ 32;
  ok_n : 0 <= cm_n c < 2 ^ 32;
  ok_threshold : 0 <= cm_threshold c < 2 ^ 32;
  ok_root : length (cm_merkle_root c) = 32%nat;
  ok_signature : len (cm_signature c) < 2 ^ 32
}.

Record envelope_ok (e : DkgShareEnvelope) : Prop := {
  ok_kyber_ct : len (ev_kyber_ct e) < 2 ^ 32;
  ok_ciphertext : len (ev_ciphertext e) < 2 ^ 32;
  ok_mac : length (ev_mac e) = 32%nat
}.

Record complaint_ok (c : DkgComplaint) : Prop := {
  ok_cp_epoch : in_range u64 (cp_epoch c);
  ok_cp_from : 0 <= cp_from_index c < 2 ^ 32;
  ok_cp_against : 0 <= cp_against_index c < 2 ^ 32;
  ok_cp_envelope : envelope_ok (cp_envelope c) /\ len (envelope_to_bytes (cp_envelope c)) < 2 ^ 32;
  ok_cp_ss : length (cp_revealed_ss c) = 32%nat;
  ok_cp_proof : proof_ok (cp_merkle_proof c) /\ len (proof_to_bytes (cp_merkle_proof c)) < 2 ^ 32;
  ok_cp_signature : len (cp_signature c) < 2 ^ 32
}.

(** Where a field of a message is: [pre] in front of it, [post] behind. *)
Section Fields.
Variables (data pre post : list Z).

Lemma index_field (off : nat) (x : Z) :
  data = pre ++ index_bytes x ++ post -> off = length pre -> 0 <= x < 2 ^ 32 -> le_at off 4 data = x.
Proof.
  intros -> -> Hx. unfold le_at, slice. rewrite drop_app_length, take_app_length' by (by rewrite index_bytes_length). by apply le_index.
Qed.

Lemma bytes_field (off n : nat) (b : list Z) : data = pre ++ b ++ post -> off = length pre -> n = length b -> slice off n data = b.
Proof. intros -> -> ->. unfold slice. by rewrite drop_app_length, take_app_length. Qed.
End Fields.

Lemma sibling_at (pre : list Z) (l : list (list Z)) (off i : nat) (h : list Z) :
  Forall (fun h => length h = 32%nat) l -> l !! i = Some h -> off = length pre -> slice (off + i * 32) 32 (pre ++ concat l) = h.
Proof.
  intros F Hi ->. revert pre i Hi. induction F as [|x l Lx F IH]; intros pre i Hi; [done|]. cbn [concat]. destruct i as [|i].
  - cbn in Hi. simplify_eq. rewrite Nat.mul_0_l, Nat.add_0_r. by apply (bytes_field _ pre (concat l)).
  - rewrite app_assoc. replace (length pre + S i * 32)%nat with (length (pre ++ x) + i * 32)%nat by (rewrite length_app; lia). by apply IH.
Qed.

Lemma concat_siblings_length (l : list (list Z)) : Forall (fun h => length h = 32%nat) l -> length (concat l) = (32 * length l)%nat.
Proof. induction 1 as [|x l Lx F IH]; [done|]. cbn. rewrite length_app, Lx, IH. lia. Qed.

Lemma proof_roundtrip (p : MerkleProof) : proof_ok p -> proof_from_bytes (proof_to_bytes p) = Some p.
Proof.
  intros [Hi Hc F]. destruct p as [i l]. cbn [leaf_index siblings] in *. unfold proof_from_bytes, proof_to_bytes. cbn [leaf_index siblings].
  set (data := _ ++ _). assert (len data = 8 + 32 * len l) as Ld.
  { unfold data, len. rewrite !length_app, !index_bytes_length, concat_siblings_length by done. lia. }
  rewrite Ld. destruct (Z.ltb_spec (8 + 32 * len l) 8); [unfold len in *; lia|].
  rewrite (index_field data (index_bytes i) (concat l) 4 (len l)); [|done|by rewrite index_bytes_length|unfold len in *; lia].
  rewrite Z.eqb_refl, (index_field data [] (index_bytes (len l) ++ concat l) 0 i) by done. cbn [negb]. do 2 f_equal.
  apply list_eq. intros k. unfold len. rewrite Nat2Z.id, list_lookup_fmap. destruct (l !! k) as [h|] eqn:Ek.
  - rewrite lookup_seq_lt by (by eapply lookup_lt_Some). cbn [fmap option_fmap option_map]. f_equal. unfold data. rewrite Nat.add_0_l, app_assoc.
    apply sibling_at; [done..|]. by rewrite length_app, !index_bytes_length.
  - rewrite lookup_seq_ge by (by apply lookup_ge_None). done.
Qed.

Lemma commitment_roundtrip (c : DkgCommitment) : commitment_ok c -> commitment_from_bytes (commitment_to_bytes c) = Some c.
Proof.
  intros [He Hf Hn Ht Lr Hs]. destruct c as [e f n t root sig]. cbn in He, Hf, Hn, Ht, Lr, Hs. unfold commitment_from_bytes, commitment_to_bytes.
  cbn [cm_epoch cm_from_index cm_n cm_threshold cm_merkle_root cm_signature]. set (data := _ ++ _).
  assert (len data = 56 + len sig) as Ld by (unfold data, len; rewrite !length_app, !index_bytes_length, length_le_encode, Lr; lia).
  rewrite Ld. destruct (Z.ltb_spec (56 + len sig) 56); [unfold len in *; lia|].
  assert (le_at 0 8 data = e) as Ee by (unfold data, le_at; rewrite slice_here by apply length_le_encode; apply le_decode_encode; unfold in_range in He; cbn; lia).
  set (p1 := le_encode 8 e). set (p2 := p1 ++ index_bytes f). set (p3 := p2 ++ index_bytes n). set (p4 := p3 ++ index_bytes t).
  assert (length p1 = 8 /\ length p2 = 12 /\ length p3 = 16 /\ length p4 = 20)%nat as (L1 & L2 & L3 & L4)
    by (unfold p4, p3, p2, p1; rewrite !length_app, !index_bytes_length, length_le_encode; done).
  rewrite (index_field data (p4 ++ root) sig 52 (len sig)); [|unfold data, p4, p3, p2, p1; by rewrite <- !app_assoc|by rewrite length_app, L4, Lr|unfold len in *; lia].
  rewrite Z.eqb_refl, Ee. cbn [negb]. do 2 f_equal.
  - eapply (index_field data p1); [reflexivity|by rewrite L1|done].
  - eapply (index_field data p2); [unfold data, p2, p1; rewrite <- !app_assoc; reflexivity|by rewrite L2|done].
  - eapply (index_field data p3); [unfold data, p3, p2, p1; rewrite <- !app_assoc; reflexivity|by rewrite L3|done].
  - eapply (bytes_field data p4); [unfold data, p4, p3, p2, p1; rewrite <- !app_assoc; reflexivity|by rewrite L4|done].
  - eapply (bytes_field data (p4 ++ root ++ index_bytes (len sig)) []);
      [unfold data, p4, p3, p2, p1; rewrite <- !app_assoc, app_nil_r; reflexivity|by rewrite !length_app, L4, Lr|unfold len; lia].
Qed.

Lemma envelope_length (e : DkgShareEnvelope) : envelope_ok e -> len (envelope_to_bytes e) = 40 + len (ev_kyber_ct e) + len (ev_ciphertext e).
Proof. intros [_ _ Lm]. unfold envelope_to_bytes, len. rewrite !length_app, !index_bytes_length, Lm. lia. Qed.

Lemma envelope_roundtrip (e : DkgShareEnvelope) : envelope_ok e -> envelope_from_bytes (envelope_to_bytes e) = Some e.
Proof.
  intros Hok. pose proof (envelope_length e Hok) as Ld. destruct Hok as [Hk Hc Lm]. destruct e as [k c m].
  cbn [ev_kyber_ct ev_ciphertext ev_mac] in *. unfold envelope_from_bytes. rewrite Ld. clear Ld. unfold envelope_to_bytes. cbn [ev_kyber_ct ev_ciphertext ev_mac].
  destruct (Z.ltb_spec (40 + len k + len c) 4); [unfold len in *; lia|]. set (data := _ ++ _). set (p1 := index_bytes (len k) ++ k).
  assert (Z.to_nat (4 + len k) = length p1) as L1 by (unfold p1, len; rewrite length_app, index_bytes_length; lia).
  rewrite (index_field data [] (k ++ index_bytes (len c) ++ c ++ m) 0 (len k)); [|done|done|unfold len in *; lia].
  destruct (Z.ltb_spec (40 + len k + len c) (4 + len k + 4)); [unfold len in *; lia|].
  rewrite (index_field data p1 (c ++ m) _ (len c)); [|unfold data, p1; by rewrite <- !app_assoc|done|unfold len in *; lia].
  rewrite (proj2 (Z.eqb_eq _ _)) by lia. cbn [negb]. do 2 f_equal.
  - eapply (bytes_field data (index_bytes (len k))); [reflexivity|by rewrite index_bytes_length|unfold len; lia].
  - eapply (bytes_field data (p1 ++ index_bytes (len c))); [unfold data, p1; rewrite <- !app_assoc; reflexivity| |unfold len; lia].
    rewrite length_app, index_bytes_length, <- L1. unfold len. lia.
  - eapply (bytes_field data (p1 ++ index_bytes (len c) ++ c) []); [unfold data, p1; rewrite <- !app_assoc, app_nil_r; reflexivity| |done].
    rewrite !length_app, index_bytes_length, <- L1. unfold len. lia.
Qed.
Lemma complaint_roundtrip (c : DkgComplaint) : complaint_ok c -> complaint_from_bytes (complaint_to_bytes c) = Some c.
Proof.
  intros [He Hf Ha [Hev Hel] Ls [Hpr Hpl] Hsig]. destruct c as [e f a env ss proof sig].
  cbn [cp_epoch cp_from_index cp_against_index cp_envelope cp_revealed_ss cp_merkle_proof cp_signature] in He, Hf, Ha, Hev, Hel, Ls, Hpr, Hpl, Hsig.
  unfold complaint_from_bytes, complaint_to_bytes. cbn [cp_epoch cp_from_index cp_against_index cp_envelope cp_revealed_ss cp_merkle_proof cp_signature].
  pose proof (envelope_roundtrip env Hev) as Ev. pose proof (proof_roundtrip proof Hpr) as Ep. clear Hev Hpr.
  set (eb := envelope_to_bytes env) in *. set (pb := proof_to_bytes proof) in *. clearbody eb pb. cbn zeta. set (data := _ ++ _).
  assert (len data = 60 + len eb + len pb + len sig) as Ld by (unfold data, len; rewrite !length_app, !index_bytes_length, length_le_encode, Ls; lia).
  assert (le_at 0 8 data = e) as Ee by (unfold data, le_at; rewrite slice_here by apply length_le_encode; apply le_decode_encode; unfold in_range in He; cbn; lia).
  set (p1 := le_encode 8 e). set (p2 := p1 ++ index_bytes f). set (p3 := p2 ++ index_bytes a). set (p4 := p3 ++ index_bytes (len eb)).
  set (p5 := p4 ++ eb). set (p6 := p5 ++ ss). set (p7 := p6 ++ index_bytes (len pb)). set (p8 := p7 ++ pb).
  assert (length p1 = 8 /\ length p2 = 12 /\ length p3 = 16 /\ length p4 = 20)%nat as (L1 & L2 & L3 & L4)
    by (unfold p4, p3, p2, p1; rewrite !length_app, !index_bytes_length, length_le_encode; done).
  assert (Z.to_nat (20 + len eb) = length p5 /\ Z.to_nat (20 + len eb + 32) = length p6 /\ Z.to_nat (20 + len eb + 32 + 4) = length p7 /\
          Z.to_nat (20 + len eb + 32 + 4 + len pb) = length p8) as (L5 & L6 & L7 & L8)
    by (unfold p8, p7, p6, p5; rewrite !length_app, !index_bytes_length, L4, Ls; unfold len; lia).
  assert (data = p3 ++ index_bytes (len eb) ++ eb ++ ss ++ index_bytes (len pb) ++ pb ++ index_bytes (len sig) ++ sig) as D3 by (unfold p3, p2, p1; by rewrite <- !app_assoc).
  assert (data = p4 ++ eb ++ ss ++ index_bytes (len pb) ++ pb ++ index_bytes (len sig) ++ sig) as D4 by (unfold p4; by rewrite <- !app_assoc).
  assert (data = p5 ++ ss ++ index_bytes (len pb) ++ pb ++ index_bytes (len sig) ++ sig) as D5 by (unfold p5; by rewrite <- !app_assoc).
  assert (data = p6 ++ index_bytes (len pb) ++ pb ++ index_bytes (len sig) ++ sig) as D6 by (unfold p6; by rewrite <- !app_assoc).
  assert (data = p7 ++ pb ++ index_bytes (len sig) ++ sig) as D7 by (unfold p7; by rewrite <- !app_assoc).
  assert (data = p8 ++ index_bytes (len sig) ++ sig) as D8 by (unfold p8; by rewrite <- !app_assoc).
  rewrite Ld, Ee. destruct (Z.ltb_spec (60 + len eb + len pb + len sig) 20); [unfold len in *; lia|].
  rewrite (index_field _ _ _ _ _ D3) by (done || unfold len in *; lia).
  destruct (Z.ltb_spec (60 + len eb + len pb + len sig) (20 + len eb + 36)); [unfold len in *; lia|].
  rewrite (bytes_field _ _ _ _ _ _ D4), Ev by (done || unfold len in *; lia). rewrite (index_field _ _ _ _ _ D6) by (done || unfold len in *; lia).
  destruct (Z.ltb_spec (60 + len eb + len pb + len sig) (20 + len eb + 32 + 4 + len pb + 4)); [unfold len in *; lia|].
  rewrite (bytes_field _ _ _ _ _ _ D7), Ep by (done || unfold len in *; lia). rewrite (index_field _ _ _ _ _ D8) by (done || unfold len in *; lia).
  rewrite (proj2 (Z.eqb_eq _ _)) by lia. cbn [negb]. do 2 f_equal.
  - by apply (index_field data p1 _ 8 f eq_refl).
  - eapply (index_field data p2); [unfold data, p2, p1; rewrite <- !app_assoc; reflexivity|by rewrite L2|done].
  - by apply (bytes_field _ _ _ _ _ _ D5).
  - rewrite D8, app_assoc. apply drop_app_length'. rewrite length_app, index_bytes_length, <- L8. unfold len. lia.
Qed.

(** The six messages of a round are read back as they were written. *)
Theorem dkg_messages_roundtrip (row : ShareRow) (p : MerkleProof) (c : DkgCommitment) (e : DkgShareEnvelope) (cp : DkgComplaint) (m : MasterShare) :
  row_ok row -> proof_ok p -> commitment_ok c -> envelope_ok e -> complaint_ok cp ->
  0 <= ms_index m < 2 ^ 32 -> Forall canonical (ms_values m) -> length (ms_values m) = SEED_ELEMENTS ->
  row_from_bytes (row_to_bytes row) = Some row /\ proof_from_bytes (proof_to_bytes p) = Some p /\
  commitment_from_bytes (commitment_to_bytes c) = Some c /\ envelope_from_bytes (envelope_to_bytes e) = Some e /\
  complaint_from_bytes (complaint_to_bytes cp) = Some cp /\ master_from_bytes (master_to_bytes m) = Some m.
Proof.
  intros Hr Hp Hc He Hcp Hi C L. split_and!;
    [by apply row_roundtrip|by apply proof_roundtrip|by apply commitment_roundtrip|by apply envelope_roundtrip|by apply complaint_roundtrip|].
  destruct (indexed_elements _ _ Hi C L) as (E1 & E2 & E3). destruct m as [i l]. cbn [ms_index ms_values] in *.
  unfold master_from_bytes, master_to_bytes. cbn [ms_index ms_values]. by rewrite E1, E2, E3, Z.eqb_refl.
Qed.
End Props.

(** ** A round, evaluated *)

Lemma toy_signs : signs_for toy_sign [].
Proof.
  intros msg L. exists (msg ++ replicate (600 - length msg) 0). split; [done|]. split.
  - unfold FalconSignature_from_bytes, len in *. rewrite length_app, length_replicate.
    destruct (Z.leb_spec 500 (Z.of_nat (length msg + (600 - length msg)))); [|lia].
    by destruct (Z.leb_spec (Z.of_nat (length msg + (600 - length msg))) 1000); [|lia].
  - apply bool_decide_eq_true. apply take_app_length.
Qed.

Definition toy_sk (k : nat) : list Z := toy_pad 64 (toy_rng k).
Definition toy_pk (k : nat) : list Z := toy_sk k ++ zeros 1120.

Lemma toy_kem_pair (k : nat) (r : list Z) : kem_pair (toy_pk k) (toy_sk k) r.
Proof.
  split; [..|done| |].
  - unfold toy_pk, toy_sk, len, zeros. by rewrite length_app, toy_pad_length, length_replicate.
  - unfold toy_sk, len. by rewrite toy_pad_length.
  - unfold kem_recovers, toy_pk. cbn [kem_decapsulate kem_encapsulate toy_kem fst snd].
    by rewrite !take_app_length' by (unfold toy_sk; by rewrite toy_pad_length).
Qed.

Lemma toy_members (n i : nat) (pk r : list Z) : (toy_pk <$> seq 0 n) !! i = Some pk -> exists sk, (toy_sk <$> seq 0 n) !! i = Some sk /\ kem_pair pk sk r.
Proof.
  rewrite !list_lookup_fmap. destruct (seq 0 n !! i) as [k|]; [|done]. intros [= <-]. exists (toy_sk k). split; [done|apply toy_kem_pair].
Qed.

Definition toy_dealer (from : Z) : Dealer := mkDealer from [from; 7] (fun i => [Z.of_nat i; from]) toy_sign [].

Lemma dkg_yields_shared_key_witness :
  exists cs share, Forall2 (contributes 5 3 2 (toy_pk <$> seq 0 3)) [toy_dealer 1; toy_dealer 3] cs /\
    shamir_reconstruct ((fun m => mkFieldShare (gl (ms_index m)) (default 0 (ms_values m !! 4%nat))) <$> (share <$> [2; 0]%nat)) =
    Returns (foldl gl_add 0 ((fun d => dealer_secret (d_seed d) (d_from d) 4) <$> [toy_dealer 1; toy_dealer 3])).
Proof.
  assert (NoDup [2; 0]%nat) as N by (repeat constructor; set_solver).
  destruct (dkg_yields_shared_key 5 3 2 (toy_pk <$> seq 0 3) (toy_sk <$> seq 0 3) [toy_dealer 1; toy_dealer 3]) as (cs & share & G & _ & R).
  - lia.
  - reflexivity.
  - reflexivity.
  - discriminate.
  - apply Forall_cons. split; [|apply Forall_cons; split; [|apply Forall_nil; exact I]];
      (split; [cbn; lia|split; [apply toy_signs|intros i pk Hi; by apply toy_members]]).
  - exists cs, share. split; [exact G|]. apply (R [2; 0]%nat 4%nat N); [repeat constructor|reflexivity|unfold SEED_ELEMENTS; lia].
Defined.

Definition toy_rows : list ShareRow := dealer_row [9] 1 2 <$> seq 0 3.

Definition toy_contribution : DkgContribution :=
  ok_of (mkContribution (mkCommitment 0 0 0 0 [] []) [] (mkRow 0 []) (mkProof 0 []))
    (returned (Err "") (commit_rows toy_rows (fun i => [Z.of_nat i]) 5 1 3 2 (toy_pk <$> seq 0 3) toy_sign)).

Definition toy_received_share : DkgShareEnvelope * MerkleProof :=
  default (mkEnvelope [] [] [], mkProof 0 []) (ct_recipient_envelopes toy_contribution !! 2%nat).

Definition separateb (s : list (list Z)) : bool :=
  forallb (fun x => forallb (fun y => bool_decide (poseidon2_hash x = poseidon2_hash y -> x = y)) s) s.

Lemma separateb_spec (s : list (list Z)) : separateb s = true -> separate s.
Proof.
  intros H x y Hx%list_elem_of_In Hy%list_elem_of_In. unfold separateb in H. rewrite forallb_forall in H. specialize (H x Hx).
  rewrite forallb_forall in H. specialize (H y Hy). by apply bool_decide_eq_true in H.
Qed.

Lemma accepted_row_is_committed_witness :
  verify_received_share toy_received_share.1 toy_received_share.2 (ct_commitment toy_contribution) [] 5 1 3 2 3 (toy_sk 2) =
    Ok (dealer_row [9] 1 2 2) /\ toy_rows !! 2%nat = Some (dealer_row [9] 1 2 2).
Proof.
  assert (verify_received_share toy_received_share.1 toy_received_share.2 (ct_commitment toy_contribution) [] 5 1 3 2 3 (toy_sk 2) =
    Ok (dealer_row [9] 1 2 2)) as Hv by (vm_compute; reflexivity).
  split; [exact Hv|].
  apply (accepted_row_is_committed toy_rows toy_received_share.1 toy_received_share.2 (ct_commitment toy_contribution) [] 5 1 3 2 2 (toy_sk 2) (dealer_row [9] 1 2 2)).
  - by apply dealer_rows_dealt.
  - cbn. lia.
  - reflexivity.
  - split; vm_compute; congruence.
  - apply Forall_forall. intros h Hh%list_elem_of_In. revert h Hh.
    assert (forallb (fun h => Nat.eqb (length h) 32) (siblings toy_received_share.2) = true) as B by (vm_compute; reflexivity).
    intros h Hh. rewrite forallb_forall in B. by apply Nat.eqb_eq, B.
  - vm_compute. reflexivity.
  - exact Hv.
  - apply separateb_spec. vm_compute. reflexivity.
Defined.

Definition toy_complaint : DkgComplaint :=
  ok_of (mkComplaint 0 0 0 (mkEnvelope [] [] []) [] (mkProof 0 []) [])
    (complaint_sign (mkComplaint 5 1 3 toy_received_share.1 (derived_secret (toy_sk 2) toy_received_share.1) toy_received_share.2 []) toy_sign).

Lemma complaint_settles_as_received_witness :
  let received t := verify_received_share (cp_envelope toy_complaint) (cp_merkle_proof toy_complaint) (ct_commitment toy_contribution) []
    (cp_epoch toy_complaint) (cp_from_index toy_complaint) (cm_n (ct_commitment toy_contribution)) t (cp_against_index toy_complaint) (toy_sk 2) in
  is_ok (received (cm_threshold (ct_commitment toy_contribution))) = true /\
  verify_complaint toy_complaint [] (cm_merkle_root (ct_commitment toy_contribution)) = Slander.
Proof.
  intros received. pose proof (complaint_settles_as_received toy_complaint (ct_commitment toy_contribution) [] [] (toy_sk 2)
    (cm_n (ct_commitment toy_contribution)) (cm_threshold (ct_commitment toy_contribution))) as H.
  change (verify_received_share _ _ _ _ _ _ _ _ _ _) with (received (cm_threshold (ct_commitment toy_contribution))) in H.
  assert (is_ok (received (cm_threshold (ct_commitment toy_contribution))) = true) as E by (vm_compute; reflexivity).
  split; [exact E|]. destruct (received _); [|discriminate E]. apply H.
  - vm_compute. reflexivity.
  - vm_compute. discriminate.
  - vm_compute. discriminate.
Defined.

Lemma complaint_convicts_anyone_witness :
  exists cp, cp_from_index cp = 1 /\ verify_complaint cp [] (cm_merkle_root (ct_commitment toy_contribution)) = ContributorFaulty.
Proof.
  destruct (complaint_convicts_anyone toy_sign [] 5 1 3 (replicate 32 0)) as (cp & _ & Ef & _ & H).
  - apply toy_signs.
  - reflexivity.
  - lia.
  - exists cp. split; [exact Ef|apply H].
Defined.

(** No line through the first two rows meets the third. *)
Definition toy_scattered : list ShareRow := (fun i => mkRow (Z.of_nat i + 1) (replicate 8 (Z.of_nat (i * i)))) <$> seq 0 3.

Lemma any_rows_are_accepted_witness :
  exists c, commit_rows toy_scattered (fun i => [Z.of_nat i]) 5 1 3 2 (toy_pk <$> seq 0 3) toy_sign = Returns (Ok c) /\
    delivers c [] 5 1 3 2 2 (toy_sk 2) (mkRow 3 (replicate 8 4)) /\
    interpolate_at 0 [mkFieldShare 1 0; mkFieldShare 2 1] <> interpolate_at 0 [mkFieldShare 1 0; mkFieldShare 3 4].
Proof.
  destruct (any_rows_are_accepted toy_scattered (fun i => [Z.of_nat i]) 5 1 3 2 (toy_pk <$> seq 0 3) (toy_sk <$> seq 0 3) toy_sign []) as (c & E & D).
  - split; [reflexivity|]. intros [|[|[|i]]] row Hi; cbn in Hi; simplify_eq; (split; [|reflexivity]); split; try reflexivity; try (cbn; lia);
      apply Forall_forall; intros x Hx; unfold canonical, GOLDILOCKS_PRIME; repeat (apply elem_of_cons in Hx as [->|Hx]; [lia|]); by apply elem_of_nil in Hx.
  - reflexivity.
  - lia.
  - reflexivity.
  - intros i pk Hi. by apply toy_members.
  - apply toy_signs.
  - exists c. split; [exact E|]. split; [by apply D|]. vm_compute. discriminate.
Defined.

Lemma dkg_messages_roundtrip_witness :
  commitment_from_bytes (commitment_to_bytes (mkCommitment 5 1 3 2 (replicate 32 9) (replicate 600 1))) =
    Some (mkCommitment 5 1 3 2 (replicate 32 9) (replicate 600 1)) /\
  complaint_from_bytes (complaint_to_bytes (mkComplaint 5 1 3 (mkEnvelope [1; 2] [3] (replicate 32 4)) (replicate 32 5) (mkProof 2 [replicate 32 6]) [7])) =
    Some (mkComplaint 5 1 3 (mkEnvelope [1; 2] [3] (replicate 32 4)) (replicate 32 5) (mkProof 2 [replicate 32 6]) [7]).
Proof.
  set (env := mkEnvelope [1; 2] [3] (replicate 32 4)). set (proof := mkProof 2 [replicate 32 6]).
  assert (envelope_ok env) as He by (split; reflexivity).
  assert (proof_ok proof) as Hp by (split; [split; [discriminate|reflexivity]|reflexivity|repeat constructor]).
  destruct (dkg_messages_roundtrip (mkRow 1 (replicate 8 0)) proof (mkCommitment 5 1 3 2 (replicate 32 9) (replicate 600 1)) env
              (mkComplaint 5 1 3 env (replicate 32 5) proof [7]) (mkMaster 1 (replicate 8 0))) as (_ & _ & Hc & _ & Hcp & _).
  - split; [split; [discriminate|reflexivity]|apply Forall_replicate; split; [discriminate|reflexivity]|reflexivity].
  - exact Hp.
  - split; try (split; [discriminate|reflexivity]); reflexivity.
  - exact He.
  - split; try (split; [discriminate|reflexivity]); try reflexivity; (split; [assumption|reflexivity]).
  - split; [discriminate|reflexivity].
  - apply Forall_replicate. split; [discriminate|reflexivity].
  - reflexivity.
  - split; [exact Hc|exact Hcp].
Defined.
